(* ===== verification/_CoqProject ===== *)
-Q . S2P
Prelude.v
Types.v
TxnManager.v
TupleStore.v
TupleStoreFacts.v
TupleStoreProps.v
Progress.v
Log.v
Raft.v
RaftFacts.v
RaftProps.v
LocalRepl.v
LocalReplProps.v
Bytes.v
Text.v
Paths.v
Decimal.v
DecimalProps.v
PgFrontend.v
PgFrontendFacts.v
PgFrontendProps.v
PgBackend.v
PgBackendProps.v
Batching.v
Snapshot.v
Datetime.v
Civil.v
DatetimeText.v
DatetimeProps.v
Uuid.v
Rpc.v
WalSegment.v
WalProps.v
Sidecar.v
Archive.v
ArchiveFacts.v
ArchiveReads.v
ArchiveProps.v
Codec.v
Canonical.v
CanonicalFacts.v
GenTerminal.v
GenTerminalFacts.v
GenEvolution.v
Envelope.v
EnvelopeFacts.v
EnvelopeEncode.v
EnvelopeExact.v
EnvelopeExactFacts.v
EnvelopeBinding.v
EnvelopeProps.v
Effects.v
Disk.v
Identity.v
WalCore.v
WalGroup.v
WalScatter.v
WalBuffer.v
DiskFacts.v
WalDurability.v
WalInvariant.v
WalFormation.v
WalFlush.v
WalBegin.v
WalReserve.v
WalSystem.v
WalCrash.v
IdentityFacts.v
WalChecked.v
WalBufferProps.v
SealedManifest.v
Checkpoint.v
CheckpointFacts.v
LanesFacts.v
Preserve.v
Rotation.v
Database.v
Reopen.v
DatabaseProps.v
