(* ===== verification/Prelude.v ===== *)
(** * Thunderbolt DB: verification development

    A shallow embedding of the storage, logging, replication and protocol core of Thunderbolt
    DB (the Rust workspace under src/crates/), with the theorems that make it correct.

    ** The program

    A PostgreSQL-compatible transactional database.  A client speaks the wire protocol
    (crates/protocol) to a session; statements run in transactions (crates/txn) over a
    multi-version tuple store (crates/storage); a commit is logged (crates/wal) and
    replicated (crates/replication) before it is visible; the log is archived for
    point-in-time recovery (crates/wal).  Scalar values live in crates/sql.

    ** Files

    - [Prelude], [Types], [Bytes], [Text], [Paths]: results with the [?] operator, machine
      integers with their wrap-around, ordered maps, the shared types of crates/types (log
      entries, durability faults, [EngineError] with its messages), and what the source uses of
      Rust's integers-as-bytes, UTF-8, [str], [Path] and file system.
    - [TxnManager] (crates/txn/src/lib.rs): [TxnManager] as a record, each method a state
      transformer.
    - [TupleStore], [TupleStoreFacts], [TupleStoreProps] (crates/storage/src/lib.rs): the
      version chains, the row-key index, the change log, garbage collection and the
      [TupleStore] trait, which is the class [TupleStore] with the laws [TupleStoreSpec].
    - [Progress], [Log], [Raft], [RaftFacts], [RaftProps] (crates/replication/src/progress.rs,
      lib.rs): the replicated state machine of one node; [LocalRepl], [LocalReplProps]
      (local.rs): the single-node replicator with its reservations; [Rpc] (rpc.rs): the frames.
    - [WalSegment], [WalProps], [Sidecar] (crates/wal/src/lib.rs, sidecar_checksum.rs): segment
      encoding, strict and crash-tolerant readers, the durable-tail control file.  [Archive], [ArchiveFacts], [ArchiveReads], [ArchiveProps]
      (lib.rs): manifests, archive reads, point-in-time reads, retention plans, ingestion.
    - The log buffer (crates/wal/src/buffer.rs, buffer/group.rs, buffer/typed_exact.rs,
      identity.rs).  [Effects]: the monad of its stateful code, with panics, waits and a weakest
      precondition.  [Disk], [DiskFacts]: files with a synced length (or, once written whole and
      synced, an exact content) and directory entries that a crash may undo, and the calls the code
      makes, any of which may fail.  [Identity],
      [IdentityFacts]: the anchors that bind a log to one database.  [WalCore], [WalGroup],
      [WalBuffer]: the durable core, descriptor slots, credits and vectored writes, and every
      operation of the buffer.  [WalScatter], [WalDurability], [WalInvariant] (with the module
      [WalRotation]), [WalFormation], [WalFlush], [WalBegin] (with [WalAppend]), [WalReserve]: what
      each of them does.  [WalSystem]: all of them as the steps of one system with a group in flight
      and reservations held by callers, and the abstract log it refines; [WalCrash]: recovered
      buffers, crashes and restarts; [WalChecked]: exact records and concrete runs;
      [WalBufferProps].
    - Checkpoints (crates/wal/src/checkpoint.rs and the engine's engine_wal_archive.rs,
      engine_lifecycle.rs, engine_durability.rs).  [SealedManifest] (with [SealedFacts]): the sealed
      rebuild manifest and its encoding.  [Checkpoint]: control files, the checkpoint reader, the
      lanes checkpoint.  [CheckpointFacts] (with [Names] and [CheckpointWrite]): their texts, their
      names beside a segment and their atomic installation; [LanesFacts].  [Preserve]: what the
      buffer never touches.  [Rotation] (with [RotationFacts]): writing a checkpoint, cutting the
      live segment behind it, and reopening from both.  [Database]: the running system with
      checkpoints as steps; [Reopen]: its crashes and reopening; [DatabaseProps].
    - [Codec], [Canonical], [CanonicalFacts] (crates/wal/src/canonical.rs): bounded writers and
      readers, and the headers, outcomes, ranges and frames of a canonical record; [GenTerminal],
      [GenTerminalFacts], [GenEvolution] (canonical/generation_terminal.rs): the terminal
      descriptors of generations; [Envelope], [EnvelopeFacts], [EnvelopeEncode] (with
      [EnvelopePack]), [EnvelopeBinding]: whole envelopes and packed payloads; [EnvelopeExact],
      [EnvelopeExactFacts] (canonical/exact.rs): the encoder into caller-owned buffers, whose
      cells may be uninitialised; [EnvelopeProps].
    - [Decimal], [DecimalProps] (crates/sql/src/decimal.rs); [Datetime], [Civil],
      [DatetimeText], [DatetimeProps] (datetime.rs); [Uuid] (uuid.rs).
    - [PgFrontend], [PgFrontendFacts], [PgFrontendProps], [PgBackend], [PgBackendProps]
      (crates/protocol/src/lib.rs): startup packets, frontend messages, session life cycle,
      ready loop, and the backend writer; [Batching] (crates/batching/src/lib.rs);
      [Snapshot] (crates/snapshot/src/lib.rs): the published-generation cell as a step relation
      over its atomic accesses.

    ** How code is translated

    A method on [&mut self] is a function from the state to the new state and its result; a
    [Result] is [result], a panic (a failed assertion, an index out of range, a capacity
    overflow) is [None].  Integers are [Z] with wrapping or checked operations written out;
    [/] is [Z.quot].  [BTreeMap]s are finite maps listed in key order.  A reader of a byte
    slice passes on the bytes that remain.  The log buffer has its own monad, in which a panic, a
    wait for another thread and an error are different endings; the kernel's answers to a group's
    writes and syncs, and the failures of all other calls, are inputs.  Code outside the sources is a parameter: SHA-256
    is a function with a 32-byte result, the allocator's growth policy is the class [VecAlloc],
    the atomic pointer of a snapshot cell the class [ArcSwap].

    ** What the theorems show

    - Transactions: the bookkeeping invariant of every reachable manager, that active
      transactions are never lost, and each operation on every branch.
    - Tuple store: an abstract timeline (a set of rows per snapshot) that inserts, updates,
      deletes, reads and garbage collection refine; snapshot isolation; the change log never
      omits a changed tuple; the index agrees with a scan.  Runs of the store are those of callers
      that keep the promises of [guard], which the code does not check; what an insert under an
      id in use does is stated too.
    - Replication: the invariant of every reachable node, stability of the committed prefix,
      one vote per term, exact outcomes of appends and acknowledgements, recovery; batch
      proposals and reservations of the local replicator; frame round trips.
    - Log: a segment reads back exactly; recovery returns the longest valid prefix and loses
      no durable record under truncation; archives, point-in-time reads, retention, ingestion.
    - Log buffer: every operation in every reachable state refines an append-only log with an
      acknowledged prefix, when its caller keeps the promises of [allowed], and panics exactly in
      the two cases [refused] names; [flush_all] is a run of its begins and commits; the file that
      any crash leaves, also in the middle of a group's I/O, holds the acknowledged records, and
      recovery returns all of them or, when the tail recorded in the sidecar lies beyond them,
      refuses the file;
      a vectored write leaves a prefix of the group and succeeds only with all of it; commits
      complete when the kernel makes progress and fail closed when it does not; exact records
      from reservation to claim or rollback; identity anchors are installed atomically.
    - Checkpoints: the control file and the lanes checkpoint each have one commit point, and
      what is committed reads back, but for a path with a line feed and for a sealed manifest that
      names transaction 0; while the log is checkpointed and rotated, with any
      failures, a checkpoint a crash can find covers what the live segment no longer holds; after
      a crash the checkpoint and the segment are joined, without their overlap, to the acknowledged
      history, and the reopened log satisfies the invariant again.
    - Canonical envelopes: the readers accept exactly the encodings of consistent envelopes and
      give them back; a terminal digest binds the whole envelope up to named collisions; the exact
      encoder equals the allocating one on every input; generations evolve as a lookup demands.
    - Scalars: exact decimal arithmetic that overflows exactly when it must, wide zeros apart, and
      its order and text; the Gregorian calendar day by day; dates
      and timestamps survive their text, fractions through doubles included; UUIDs.
    - Protocol: the parsers accept exactly the encodings of well-formed messages; sessions serve
      only authenticated clients and can always be closed; the backend stream is always whole
      messages and a result set is read back; the batcher delivers in order and on time, requeued
      items included.
    - Snapshots: under any interleaving of readers and publishers, a publication being two atomic
      accesses, a reader's generation stays alive and unchanged, and a generation is freed exactly
      when nothing refers to it; the current one is the newest while publishers take turns.

    Theorems and lemmas that record a defect of the code sit beside the component they concern:
    [heartbeat_commits_unmatched_entry], [new_leader_loses_committed_entry],
    [vote_lost_on_restart], [huge_entry_count_panics], [corrupt_length_panics],
    [extreme_compare_inconsistent], [zero_does_not_align], [rotation_strands_recovery],
    [lineage_ahead_of_group_panics]; [exact_record_life] shows that a rolled-back reservation
    cannot be used again.

    ** Fuel and bounds

    Recursion is structural wherever the code's is.  Loops over a byte offset take the input's
    length as fuel and consume at least one byte a turn, so the fuel never runs out; each such
    loop has a lemma that says so (in [DatetimeProps] for the date tokenizer, the run and
    recovery lemmas of [WalProps], the eviction and commit loops by their counts).  A client
    that splits a stream into messages has the stream's length as fuel, one message at least
    five bytes.  The loops of a vectored write have the bytes left as fuel, its retries the answers
    of the kernel; a flush has one turn per pending record.  Counts that the code keeps below [2^63] by the size of memory are stated as
    hypotheses where a theorem needs them.

    ** Not modelled

    The engine apart from its log checkpoints, the execution kernels, the server, the facade and the write conveyor (I/O,
    threads, devices; several hundred thousand lines); the SQL syntax trees and statement
    parser; the planner; metrics and observability; the FUA backend of the log buffer (direct I/O
    on a pool of threads), the branches that select it and the intent lanes; timelines and object
    backup, and the archive's writers, which depend on them; the replication transport.  In the
    reopening of a log, what the executor makes of the replayed records is a parameter.
    Concurrency is that of one lock holder at a time: a method runs to completion.  Two parts
    are interleaved: the snapshot cell, as the atomic accesses it is made of, and the log buffer,
    whose group I/O runs beside the other operations.  A crash of the log buffer is taken
    between operations or during a group's I/O; inside the other operations, the writing of a
    checkpoint included, a run in which every call from some point on fails is a crash there. *)

From stdpp Require Import base gmap strings list sorting.
From stdpp Require Export pretty.
From Stdlib Require Export ZArith Lia.

Global Open Scope Z_scope.

(** ** Results

    Rust's [Result<A, E>].  [let? x := e in k] is the [?] operator. *)

Inductive result (A E : Type) : Type :=
| Ok (a : A)
| Err (e : E).
Arguments Ok {A E} a.
Arguments Err {A E} e.

Declare Scope result_scope.
Delimit Scope result_scope with res.
Global Open Scope result_scope.

Notation "'let?' x := e 'in' k" :=
  (match e with Ok x => k | Err err => Err err end)
  (at level 10, x pattern, e at level 100, k at level 200)
  : result_scope.

Definition is_ok {A E} (r : result A E) : bool :=
  match r with Ok _ => true | Err _ => false end.

Definition ok {A E} (r : result A E) : option A :=
  match r with Ok a => Some a | Err _ => None end.

Definition ok_or {A E} (o : option A) (e : E) : result A E :=
  match o with Some a => Ok a | None => Err e end.

Lemma Ok_inj {A E} (a b : A) : @Ok A E a = Ok b -> a = b.
Proof. congruence. Qed.

(** ** Machine integers

    A [u64] is a [Z] in [0, 2^64); unchecked [+] wraps (the release profile of
    the workspace leaves overflow checks off). *)

Definition U64 : Z := 18446744073709551616.
Definition u64_max : Z := 18446744073709551615.

Definition is_u64 (z : Z) : Prop := 0 <= z < U64.

Definition wrap64 (z : Z) : Z := z mod U64.

Definition u64_add (a b : Z) : Z := wrap64 (a + b).

Definition checked_add64 (a b : Z) : option Z :=
  if a + b <=? u64_max then Some (a + b) else None.

Definition saturating_add64 (a b : Z) : Z := Z.min (a + b) u64_max.

Definition saturating_sub (a b : Z) : Z := Z.max 0 (a - b).

Ltac u64_unfold :=
  unfold u64_add, wrap64, checked_add64, saturating_add64, saturating_sub,
    is_u64, u64_max, U64 in *.

Lemma u64_add_small a b : 0 <= a + b < U64 -> u64_add a b = a + b.
Proof. intros. unfold u64_add, wrap64. by apply Z.mod_small. Qed.

Lemma u64_add_is_u64 a b : is_u64 (u64_add a b).
Proof. unfold u64_add, wrap64, is_u64. apply Z.mod_pos_bound. unfold U64. lia. Qed.

Lemma checked_add64_Some a b c :
  checked_add64 a b = Some c <-> c = a + b /\ a + b <= u64_max.
Proof.
  unfold checked_add64. destruct (Z.leb_spec (a + b) u64_max); split.
  - intros [= <-]. lia.
  - by intros [-> _].
  - done.
  - intros [_ ?]. lia.
Qed.

(** The length of a Rust [Vec] as a [usize]. *)
Definition vec_len {A} (l : list A) : Z := Z.of_nat (length l).

(** ** Lists *)

Lemma StronglySorted_app_r {A} (R : A -> A -> Prop) l1 l2 :
  StronglySorted R (l1 ++ l2) -> StronglySorted R l2.
Proof. induction l1; [done|]. intros H. apply IHl1. by inversion H. Qed.

Lemma StronglySorted_snoc {A} (R : A -> A -> Prop) l x :
  StronglySorted R l -> Forall (fun y => R y x) l -> StronglySorted R (l ++ [x]).
Proof.
  induction 1 as [|y l Hs IH Hf]; intros Hx; cbn.
  { repeat constructor. }
  inversion Hx; subst. constructor; [by apply IH|]. apply Forall_app. by repeat constructor.
Qed.

Lemma StronglySorted_snoc_inv {A} (R : A -> A -> Prop) l x :
  StronglySorted R (l ++ [x]) -> StronglySorted R l /\ Forall (fun y => R y x) l.
Proof.
  induction l as [|y l IH]; cbn; [by repeat constructor|].
  inversion 1 as [|? ? Hs Hf]; subst. destruct (IH Hs). apply Forall_app in Hf as [Hf Hx].
  inversion Hx; subst. by repeat constructor.
Qed.

Lemma StronglySorted_filter {A} (R : A -> A -> Prop) (f : A -> bool) l :
  StronglySorted R l -> StronglySorted R (List.filter f l).
Proof.
  induction 1 as [|y l Hs IH Hf]; cbn; [constructor|]. destruct (f y); [|done].
  constructor; [done|]. rewrite Forall_forall in Hf |- *. intros z Hz. apply Hf.
  apply list_elem_of_In in Hz. apply List.filter_In in Hz as [Hz _]. by apply list_elem_of_In.
Qed.

Lemma StronglySorted_elem {A} (R : A -> A -> Prop) (x : A) l :
  StronglySorted R (x :: l) -> forall y, y ∈ l -> R x y.
Proof. inversion 1 as [|? ? _ Hf]; subst. by rewrite Forall_forall in Hf. Qed.

Lemma StronglySorted_lt_NoDup (l : list Z) : StronglySorted Z.lt l -> NoDup l.
Proof.
  induction 1 as [|x l Hs IH Hf]; constructor; [|done]. intros Hin.
  rewrite Forall_forall in Hf. specialize (Hf x Hin). lia.
Qed.

Lemma NoDup_list_filter {A} (f : A -> bool) (l : list A) : NoDup l -> NoDup (List.filter f l).
Proof.
  intros H. apply NoDup_ListNoDup. apply List.NoDup_filter. by apply NoDup_ListNoDup.
Qed.

Lemma Forall_List_filter {A} (P : A -> Prop) (f : A -> bool) l :
  Forall P l -> Forall P (List.filter f l).
Proof. induction 1; cbn; [constructor|]. destruct (f x); by try constructor. Qed.

Lemma existsb_filter {A} (f : A -> bool) l : List.existsb f l = (0 <? vec_len (List.filter f l)).
Proof. induction l as [|x l IH]; [done|]. cbn. destruct (f x); cbn; [done|exact IH]. Qed.

Lemma vec_filter_length {A} (f : A -> bool) l : (length (List.filter f l) <= length l)%nat.
Proof. induction l; cbn; [lia|]. destruct (f a); cbn; lia. Qed.

Lemma vec_len_app {A} (l1 l2 : list A) : vec_len (l1 ++ l2) = vec_len l1 + vec_len l2.
Proof. unfold vec_len. rewrite length_app. lia. Qed.

Lemma vec_len_nonneg {A} (l : list A) : 0 <= vec_len l.
Proof. unfold vec_len. lia. Qed.

Create HintDb lists.
#[export] Hint Resolve StronglySorted_snoc StronglySorted_filter NoDup_list_filter Forall_List_filter
  vec_len_nonneg : lists.

(** ** Ordered maps

    Rust's [BTreeMap<u64, A>] and [imbl::OrdMap<u64, A>]: a finite map whose
    iteration order is the key order. *)

Section ord_iter.
Context {A : Type}.
Implicit Types (m : gmap Z A) (l : list (Z * A)).

Definition key_le (p q : Z * A) : Prop := p.1 <= q.1.

#[global] Instance key_le_dec : RelDecision key_le.
Proof. intros p q. unfold key_le. apply _. Defined.

#[global] Instance key_le_trans : Transitive key_le.
Proof. intros p q r. unfold key_le. lia. Qed.

#[global] Instance key_le_total : Total key_le.
Proof. intros p q. unfold key_le. lia. Qed.

Definition ord_iter m : list (Z * A) := merge_sort key_le (map_to_list m).

Definition key_lt (p q : Z * A) : Prop := p.1 < q.1.

Lemma ord_iter_Permutation m : ord_iter m ≡ₚ map_to_list m.
Proof. apply merge_sort_Permutation. Qed.

Lemma elem_of_ord_iter m k x : (k, x) ∈ ord_iter m <-> m !! k = Some x.
Proof. rewrite ord_iter_Permutation. apply elem_of_map_to_list. Qed.

Lemma ord_iter_NoDup_fst m : NoDup (ord_iter m).*1.
Proof. rewrite ord_iter_Permutation. apply NoDup_fst_map_to_list. Qed.

Lemma key_le_lt_sorted l : NoDup l.*1 -> StronglySorted key_le l -> StronglySorted key_lt l.
Proof.
  induction 2 as [|[k x] l Hs IH Hf]; csimpl in *; [constructor|].
  apply NoDup_cons in H as [Hk Hnd]. constructor; [by apply IH|].
  apply Forall_forall. intros [k' x'] Hin. rewrite Forall_forall in Hf.
  specialize (Hf _ Hin). unfold key_le, key_lt in *; simpl in *.
  assert (k <> k'); [|lia]. intros ->. apply Hk. apply list_elem_of_fmap. by exists (k', x').
Qed.

Lemma ord_iter_sorted m : StronglySorted key_lt (ord_iter m).
Proof.
  apply key_le_lt_sorted; [apply ord_iter_NoDup_fst|].
  apply StronglySorted_merge_sort; apply _.
Qed.

Lemma key_sorted_unique l1 l2 :
  StronglySorted key_lt l1 -> StronglySorted key_lt l2 ->
  (forall p, p ∈ l1 <-> p ∈ l2) -> l1 = l2.
Proof.
  intros H1; revert l2; induction H1 as [|p l1 Hs1 IH Hf1]; intros l2 H2 Heq.
  { destruct l2 as [|q l2]; [done|]. specialize (Heq q). set_solver. }
  destruct H2 as [|q l2 Hs2 Hf2]; [specialize (Heq p); set_solver|].
  rewrite Forall_forall in Hf1, Hf2. unfold key_lt in *.
  assert (p = q) as ->.
  { assert (p ∈ q :: l2) as Hp by (apply Heq; left).
    assert (q ∈ p :: l1) as Hq by (apply Heq; left).
    apply elem_of_cons in Hp as [|Hp]; [done|].
    apply elem_of_cons in Hq as [|Hq]; [done|].
    specialize (Hf1 _ Hq). specialize (Hf2 _ Hp). lia. }
  f_equal. apply IH; [done|]. intros p. specialize (Heq p). rewrite !elem_of_cons in Heq.
  split; intros Hp.
  - destruct (proj1 Heq (or_intror Hp)) as [->|]; [|done].
    specialize (Hf1 _ Hp). lia.
  - destruct (proj2 Heq (or_intror Hp)) as [->|]; [|done].
    specialize (Hf2 _ Hp). lia.
Qed.

Lemma ord_iter_unique m l :
  StronglySorted key_lt l -> (forall k x, (k, x) ∈ l <-> m !! k = Some x) -> ord_iter m = l.
Proof.
  intros Hs Hl. apply key_sorted_unique; [apply ord_iter_sorted|done|].
  intros [k x]. by rewrite elem_of_ord_iter, Hl.
Qed.

End ord_iter.

Section ord_iter_imap.
Context {A B : Type}.
Implicit Types (m : gmap Z A) (f : Z -> A -> option B).

Lemma omap_key_sorted f (l : list (Z * A)) :
  StronglySorted key_lt l ->
  StronglySorted key_lt (omap (fun p => (p.1,.) <$> f p.1 p.2) l).
Proof.
  induction 1 as [|[k x] l Hs IH Hf]; csimpl; [constructor|].
  destruct (f k x) as [y|]; simpl; [|done]. constructor; [done|].
  apply Forall_forall. intros [k' y'] Hin.
  apply list_elem_of_omap in Hin as ([k'' x'] & Hin & Hy); simpl in *.
  destruct (f k'' x'); simplify_eq/=. rewrite Forall_forall in Hf. by apply (Hf (k', x')).
Qed.

Lemma ord_iter_map_imap f m :
  ord_iter (map_imap f m) = omap (fun p => (p.1,.) <$> f p.1 p.2) (ord_iter m).
Proof.
  apply ord_iter_unique; [apply omap_key_sorted, ord_iter_sorted|].
  intros k y. rewrite list_elem_of_omap, map_lookup_imap. split.
  - intros ([k' x] & Hin & Hy). apply elem_of_ord_iter in Hin; simpl in *.
    destruct (f k' x) eqn:E; simplify_eq/=. by rewrite Hin.
  - destruct (m !! k) as [x|] eqn:E; simpl; [|done]. intros Hf.
    exists (k, x). rewrite elem_of_ord_iter. simpl. by rewrite Hf.
Qed.

(** A filtering traversal in key order only depends on the filtered map. *)
Lemma omap_ord_iter f m :
  omap (fun p => f p.1 p.2) (ord_iter m) = (ord_iter (map_imap f m)).*2.
Proof.
  rewrite ord_iter_map_imap. induction (ord_iter m) as [|[k x] l IH]; csimpl; [done|].
  destruct (f k x); csimpl; by rewrite IH.
Qed.

Lemma omap_ord_iter_ext f m1 m2 :
  (forall k, m1 !! k ≫= f k = m2 !! k ≫= f k) ->
  omap (fun p => f p.1 p.2) (ord_iter m1) = omap (fun p => f p.1 p.2) (ord_iter m2).
Proof.
  intros Heq. rewrite !omap_ord_iter. do 2 f_equal. apply map_eq. intros k.
  by rewrite !map_lookup_imap.
Qed.

End ord_iter_imap.
