(* ===== verification/Types.v ===== *)
(** * Shared types (crates/types/src/lib.rs)

    Raft scalars and log entries, the durability fault that the fail-stop write
    path publishes, the first-wins poison cell, and [EngineError] with the
    messages its [Display] implementation renders. *)

From stdpp Require Import base strings list pretty.
From S2P Require Import Prelude.
From Stdlib Require Export Strings.Byte.

(** ** Durability faults *)

Inductive DurabilityBackend := SerialWal | FuaWal.

Definition DurabilityBackend_fmt (b : DurabilityBackend) : string :=
  match b with
  | SerialWal => "serial-wal"
  | FuaWal => "fua-wal"
  end.

Inductive DurabilityStage :=
| PositionalWrite
| PositionalWriteZero
| PositionalWriteOverflow
| PositionalWriteInvariant
| SyncData
| FrontierDrift
| Abandoned
| DescriptorPoison
| FuaReservation
| FuaScatter
| FuaFence
| FuaController
| FuaFrontier
| FuaAbandoned
| FuaDescriptor.

Definition DurabilityStage_fmt (s : DurabilityStage) : string :=
  match s with
  | PositionalWrite => "positional-write"
  | PositionalWriteZero => "positional-write-zero"
  | PositionalWriteOverflow => "positional-write-overflow"
  | PositionalWriteInvariant => "positional-write-invariant"
  | SyncData => "sync-data"
  | FrontierDrift => "frontier-drift"
  | Abandoned => "abandoned"
  | DescriptorPoison => "descriptor-poison"
  | FuaReservation => "fua-reservation"
  | FuaScatter => "fua-scatter"
  | FuaFence => "fua-fence"
  | FuaController => "fua-controller"
  | FuaFrontier => "fua-frontier"
  | FuaAbandoned => "fua-abandoned"
  | FuaDescriptor => "fua-descriptor"
  end.

(** [fault_os_error] is the private [Option<NonZeroI32>] field. *)
Record DurabilityFault := mkFault {
  fault_backend : DurabilityBackend;
  fault_stage : DurabilityStage;
  fault_os_error : option Z;
  fault_segment_id : Z;
  fault_group_first_record : Z;
}.

(** [NonZeroI32::new] *)
Definition NonZeroI32_new (error : Z) : option Z :=
  if error =? 0 then None else Some error.

Definition DurabilityFault_new (backend : DurabilityBackend) (stage : DurabilityStage)
    (raw_os_error : option Z) (segment_id group_first_record : Z) : DurabilityFault :=
  mkFault backend stage
    (match raw_os_error with Some error => NonZeroI32_new error | None => None end)
    segment_id group_first_record.

Definition raw_os_error (f : DurabilityFault) : option Z :=
  match fault_os_error f with Some error => Some error | None => None end.

(** [{:?}] of an [Option<i32>]. *)
Definition debug_option_i32 (o : option Z) : string :=
  match o with
  | Some z => "Some(" +:+ pretty z +:+ ")"
  | None => "None"
  end.

Definition DurabilityFault_fmt (f : DurabilityFault) : string :=
  "backend=" +:+ DurabilityBackend_fmt (fault_backend f) +:+
  " stage=" +:+ DurabilityStage_fmt (fault_stage f) +:+
  " raw_os_error=" +:+ debug_option_i32 (raw_os_error f) +:+
  " segment_id=" +:+ pretty (fault_segment_id f) +:+
  " group_first_record=" +:+ pretty (fault_group_first_record f).

(** ** The poison cell: a [OnceLock<DurabilityFault>] *)

Module Poison.

Record DurabilityPoison := mkPoison { poison_first : option DurabilityFault }.

Definition DurabilityPoison_new : DurabilityPoison := mkPoison None.

(** [OnceLock::set]: stores the value only when the cell is empty. *)
Definition once_set {A} (cell : option A) (v : A) : option A :=
  match cell with Some w => Some w | None => Some v end.

(** [install] returns [None] only where the code's [expect] would panic. *)
Definition install (p : DurabilityPoison) (fault : DurabilityFault)
    : DurabilityPoison * option DurabilityFault :=
  let first := once_set (poison_first p) fault in
  (mkPoison first, first).

Definition snapshot (p : DurabilityPoison) : option DurabilityFault := poison_first p.

(** Install any faults in any order: the cell holds the first one for good and
    every install call returns it. *)
Fixpoint install_all (p : DurabilityPoison) (fs : list DurabilityFault)
    : DurabilityPoison * list (option DurabilityFault) :=
  match fs with
  | [] => (p, [])
  | f :: fs =>
      let '(p', r) := install p f in
      let '(p'', rs) := install_all p' fs in
      (p'', r :: rs)
  end.

Lemma install_all_occupied g fs :
  install_all (mkPoison (Some g)) fs
  = (mkPoison (Some g), replicate (length fs) (Some g)).
Proof. induction fs as [|f fs IH]; [done|]. cbn. by rewrite IH. Qed.

Lemma install_all_first_wins f fs :
  install_all DurabilityPoison_new (f :: fs)
  = (mkPoison (Some f), replicate (S (length fs)) (Some f)).
Proof. cbn. by rewrite install_all_occupied. Qed.

End Poison.

(** ** Replication scalars *)

Inductive Role := Leader | Follower | Candidate.

#[export] Instance Role_eq_dec : EqDecision Role.
Proof. solve_decision. Defined.

#[export] Instance byte_eq_dec : EqDecision byte := Byte.byte_eq_dec.

Record LogEntry := mkEntry {
  entry_term : Z;
  entry_index : Z;
  entry_payload : list byte;
}.

#[export] Instance LogEntry_eq_dec : EqDecision LogEntry.
Proof. solve_decision. Defined.

Record CommitToken := mkToken { token_index : Z }.

Record SnapshotMeta := mkMeta {
  last_included_index : Z;
  last_included_term : Z;
  snapshot_id : Z;
}.

#[export] Instance SnapshotMeta_eq_dec : EqDecision SnapshotMeta.
Proof. solve_decision. Defined.

(** ** Engine errors *)

Inductive EngineError :=
| NotLeader
| ProposalFailed (msg : string)
| ApplyFailed (msg : string)
| DatatypeMismatch (msg : string)
| UndefinedColumn (msg : string)
| UndefinedRelation (msg : string)
| DuplicateColumn (msg : string)
| UniqueViolation (msg : string)
| NotNullViolation (msg : string)
| ForeignKeyViolation (msg : string)
| CheckViolation (msg : string)
| NumericValueOutOfRange (msg : string)
| InvalidDatetimeFormat (msg : string)
| DatetimeFieldOverflow (msg : string)
| InvalidTextRepresentation (msg : string)
| UndefinedOperator (msg : string)
| Durability (msg : string)
| DurabilityFaultError (fault : DurabilityFault)
| MutationQueueOverloaded (pending cap : Z).

Definition dquote : string := String (Ascii.ascii_of_nat 34) EmptyString.

Definition EngineError_to_string (e : EngineError) : string :=
  match e with
  | NotLeader => "not leader"
  | ProposalFailed m => "proposal failed: " +:+ m
  | ApplyFailed m => "apply failed: " +:+ m
  | DatatypeMismatch m => "datatype mismatch: " +:+ m
  | UndefinedColumn m => "column " +:+ dquote +:+ m +:+ dquote +:+ " does not exist"
  | UndefinedRelation m => "relation " +:+ dquote +:+ m +:+ dquote +:+ " does not exist"
  | DuplicateColumn m => "column " +:+ dquote +:+ m +:+ dquote +:+ " specified more than once"
  | UniqueViolation m => "unique constraint violation: " +:+ m
  | NotNullViolation m => "not-null constraint violation: " +:+ m
  | ForeignKeyViolation m => "foreign key constraint violation: " +:+ m
  | CheckViolation m => "check constraint violation: " +:+ m
  | NumericValueOutOfRange m => "numeric value out of range: " +:+ m
  | InvalidDatetimeFormat m => "invalid datetime format: " +:+ m
  | DatetimeFieldOverflow m => "date/time field value out of range: " +:+ m
  | InvalidTextRepresentation m => "invalid text representation: " +:+ m
  | UndefinedOperator m => "operator does not exist: " +:+ m
  | Durability m => "durability failure: " +:+ m
  | DurabilityFaultError f => "durability fault: " +:+ DurabilityFault_fmt f
  | MutationQueueOverloaded pending cap =>
      "pending mutation queue overloaded: pending=" +:+ pretty pending +:+
      " cap=" +:+ pretty cap
  end.
