(* ===== verification/TxnManager.v ===== *)
(** * Transaction manager (crates/txn/src/lib.rs)

    The in-memory table of transaction states: id allocation, the
    active/committed/aborted state machine, cancellation, and the bounded
    retention window of terminal entries. *)

From stdpp Require Import base gmap list sorting.
From S2P Require Import Prelude.

Module Txn.

Definition MAX_RETAINED_TERMINAL : Z := 1024.

Inductive TxnState := Active | Committed | Aborted.

#[export] Instance TxnState_eq_dec : EqDecision TxnState.
Proof. solve_decision. Defined.

Record Txn := mkTxn { id : Z; state_of : TxnState }.

Inductive TxnError :=
| NotFound (id : Z)
| NotActive (id : Z)
| AlreadyExists (id : Z)
| IdExhausted.

Definition TxnError_fmt (e : TxnError) : string :=
  match e with
  | NotFound id => "transaction " +:+ pretty id +:+ " not found"
  | NotActive id => "transaction " +:+ pretty id +:+ " is not active"
  | AlreadyExists id => "transaction " +:+ pretty id +:+ " already exists"
  | IdExhausted => "transaction id space exhausted"
  end.

Record TxnManager := mkTM {
  next_id : Z;
  states : gmap Z TxnState;
  active_count : Z;
  terminal_order : list Z;
}.

Definition default : TxnManager := mkTM 0 ∅ 0 [].

Definition is_active (s : TxnState) : bool :=
  match s with Active => true | _ => false end.

Definition begin (tm : TxnManager) : TxnManager * result Txn TxnError :=
  match checked_add64 (next_id tm) 1 with
  | None => (tm, Err IdExhausted)
  | Some id =>
      (mkTM id (<[id := Active]> (states tm)) (saturating_add64 (active_count tm) 1)
         (terminal_order tm),
       Ok (mkTxn id Active))
  end.

Definition begin_with_id (tm : TxnManager) (id : Z) : TxnManager * result Txn TxnError :=
  match states tm !! id with
  | Some _ => (tm, Err (AlreadyExists id))
  | None =>
      (mkTM (Z.max (next_id tm) id) (<[id := Active]> (states tm))
         (saturating_add64 (active_count tm) 1) (terminal_order tm),
       Ok (mkTxn id Active))
  end.

Definition state (tm : TxnManager) (id : Z) : option TxnState := states tm !! id.

(** The loop of [evict_stale_terminal]: pop the front while the queue is longer
    than the window, dropping the popped id's entry if it is still terminal. *)
Fixpoint evict_loop (sts : gmap Z TxnState) (queue : list Z) : gmap Z TxnState * list Z :=
  match queue with
  | [] => (sts, [])
  | id :: rest =>
      if MAX_RETAINED_TERMINAL <? vec_len queue then
        match sts !! id with
        | Some Committed | Some Aborted => evict_loop (delete id sts) rest
        | _ => evict_loop sts rest
        end
      else (sts, queue)
  end.

Definition evict_stale_terminal (tm : TxnManager) : TxnManager :=
  let '(sts, queue) := evict_loop (states tm) (terminal_order tm) in
  mkTM (next_id tm) sts (active_count tm) queue.

Definition transition_terminal (tm : TxnManager) (id : Z) (to : TxnState)
    : TxnManager * result Txn TxnError :=
  match states tm !! id with
  | None => (tm, Err (NotFound id))
  | Some st =>
      if negb (is_active st) then (tm, Err (NotActive id))
      else
        let tm' :=
          mkTM (next_id tm) (<[id := to]> (states tm))
            (saturating_sub (active_count tm) 1) (terminal_order tm ++ [id]) in
        (evict_stale_terminal tm', Ok (mkTxn id to))
  end.

Definition commit (tm : TxnManager) (id : Z) := transition_terminal tm id Committed.

Definition rollback (tm : TxnManager) (id : Z) := transition_terminal tm id Aborted.

Definition cancel (tm : TxnManager) (id : Z) : TxnManager * result Txn TxnError :=
  match states tm !! id with
  | Some Active =>
      (mkTM (next_id tm) (delete id (states tm)) (saturating_sub (active_count tm) 1)
         (terminal_order tm),
       Ok (mkTxn id Aborted))
  | Some _ => (tm, Err (NotActive id))
  | None => (tm, Err (NotFound id))
  end.

(** Iteration over the [BTreeMap] is in key order. *)
Definition active_txn_ids (tm : TxnManager) : list Z :=
  omap (fun p : Z * TxnState => if is_active p.2 then Some p.1 else None)
    (ord_iter (states tm)).

Fixpoint find_map {A B} (f : A -> option B) (l : list A) : option B :=
  match l with
  | [] => None
  | x :: l => match f x with Some y => Some y | None => find_map f l end
  end.

Definition oldest_active_txn_id (tm : TxnManager) : option Z :=
  find_map (fun p : Z * TxnState => if is_active p.2 then Some p.1 else None)
    (ord_iter (states tm)).

Definition newest_active_txn_id (tm : TxnManager) : option Z :=
  find_map (fun p : Z * TxnState => if is_active p.2 then Some p.1 else None)
    (reverse (ord_iter (states tm))).

(** ** Operations as one transition function *)

Inductive op :=
| OpBegin
| OpBeginWithId (id : Z)
| OpCommit (id : Z)
| OpRollback (id : Z)
| OpCancel (id : Z).

Definition run (o : op) (tm : TxnManager) : TxnManager :=
  match o with
  | OpBegin => (begin tm).1
  | OpBeginWithId id => (begin_with_id tm id).1
  | OpCommit id => (commit tm id).1
  | OpRollback id => (rollback tm id).1
  | OpCancel id => (cancel tm id).1
  end.

(** A caller passes a [u64] id, and a table in memory has fewer than [usize::MAX]
    entries. *)
Definition op_ok (o : op) (tm : TxnManager) : Prop :=
  Z.of_nat (size (states tm)) < u64_max /\
  match o with
  | OpBegin => True
  | OpBeginWithId id | OpCommit id | OpRollback id | OpCancel id => is_u64 id
  end.

Inductive reachable : TxnManager -> Prop :=
| reachable_default : reachable default
| reachable_step tm o : reachable tm -> op_ok o tm -> reachable (run o tm).

(** ** Invariant *)

Definition terminal (m : gmap Z TxnState) (k : Z) : Prop :=
  exists s, m !! k = Some s /\ s <> Active.

Definition active_part (m : gmap Z TxnState) : gmap Z TxnState :=
  filter (fun p => p.2 = Active) m.

Record wf (tm : TxnManager) : Prop := {
  wf_next : 0 <= next_id tm <= u64_max;
  wf_keys : forall k s, states tm !! k = Some s -> 0 <= k <= next_id tm;
  wf_count : active_count tm = Z.of_nat (size (active_part (states tm)));
  wf_nodup : NoDup (terminal_order tm);
  wf_queue : forall k, k ∈ terminal_order tm <-> terminal (states tm) k;
  wf_len : vec_len (terminal_order tm) <= MAX_RETAINED_TERMINAL;
}.

Lemma active_part_lookup m k s :
  active_part m !! k = Some s <-> m !! k = Some Active /\ s = Active.
Proof. unfold active_part. rewrite map_lookup_filter_Some. naive_solver. Qed.

Lemma active_part_lookup_None m k :
  m !! k <> Some Active -> active_part m !! k = None.
Proof.
  intros H. apply eq_None_not_Some. intros [s Hs]. apply active_part_lookup in Hs. naive_solver.
Qed.

Lemma active_part_insert m k : active_part (<[k := Active]> m) = <[k := Active]> (active_part m).
Proof. unfold active_part. by apply map_filter_insert_True. Qed.

Lemma active_part_insert_terminal m k s :
  s <> Active -> active_part (<[k := s]> m) = delete k (active_part m).
Proof.
  intros Hs. unfold active_part. rewrite map_filter_insert_False by done.
  by rewrite map_filter_delete.
Qed.

Lemma active_part_delete m k : active_part (delete k m) = delete k (active_part m).
Proof. apply map_filter_delete. Qed.

Lemma active_part_size m : (size (active_part m) <= size m)%nat.
Proof. apply map_size_filter. Qed.

(** What the eviction loop does to a queue of distinct terminal ids: it splits off
    the front [dropped] of the queue and forgets exactly those ids. *)
Lemma evict_loop_spec m q :
  NoDup q -> (forall k, k ∈ q -> terminal m k) ->
  exists dropped m' q',
    evict_loop m q = (m', q') /\
    q = dropped ++ q' /\
    vec_len q' <= MAX_RETAINED_TERMINAL /\
    vec_len dropped = Z.max 0 (vec_len q - MAX_RETAINED_TERMINAL) /\
    (forall k, m' !! k = if decide (k ∈ dropped) then None else m !! k).
Proof.
  unfold vec_len, MAX_RETAINED_TERMINAL.
  revert m; induction q as [|i q IH]; intros m Hnd Hq.
  { exists [], m, []. simpl. split_and!; try done. }
  apply NoDup_cons in Hnd as [Hi Hnd]. cbn [evict_loop]. unfold vec_len, MAX_RETAINED_TERMINAL.
  destruct (Z.ltb_spec 1024 (Z.of_nat (length (i :: q)))) as [Hlt|Hge].
  - destruct (Hq i) as (s & Hs & Hna); [left|]. rewrite Hs.
    destruct (IH (delete i m)) as (d & m' & q' & He & -> & Hl & Hd & Hm); [done| |].
    { intros k Hk. destruct (Hq k) as (s' & Hs' & ?); [by right|].
      exists s'. rewrite lookup_delete_ne by (intros ->; done). done. }
    exists (i :: d), m', q'. split_and!; try done.
    + destruct s; [done| |]; by rewrite He.
    + cbn [length] in *. lia.
    + intros k. rewrite Hm. destruct (decide (k = i)) as [->|Hne].
      * rewrite (decide_True (P := i ∈ i :: d)) by left.
        case_decide; [done|]. by rewrite lookup_delete_eq.
      * destruct (decide (k ∈ d)) as [Hin|Hin].
        { rewrite decide_True; [done|by right]. }
        rewrite decide_False by (rewrite elem_of_cons; naive_solver).
        by rewrite lookup_delete_ne.
  - exists [], m, (i :: q). split_and!; try done.
    cbn [length] in *. lia.
Qed.

(** The whole effect of a successful commit or rollback. *)
Lemma transition_terminal_spec tm i to :
  wf tm -> states tm !! i = Some Active -> to <> Active ->
  exists dropped queue m,
    transition_terminal tm i to =
      (mkTM (next_id tm) m (active_count tm - 1) queue, Ok (mkTxn i to)) /\
    terminal_order tm ++ [i] = dropped ++ queue /\
    vec_len queue = Z.min (vec_len (terminal_order tm) + 1) MAX_RETAINED_TERMINAL /\
    i ∉ dropped /\
    (forall k, m !! k = if decide (k ∈ dropped) then None else <[i := to]> (states tm) !! k).
Proof.
  intros Hwf Hi Hto. destruct Hwf as [_ _ Hcount Hnd Hqueue Hlen].
  assert (i ∉ terminal_order tm) as Hni.
  { rewrite Hqueue. intros (s & Hs & Ha). naive_solver. }
  unfold transition_terminal, evict_stale_terminal. rewrite Hi. cbn [is_active negb].
  destruct (evict_loop_spec (<[i := to]> (states tm)) (terminal_order tm ++ [i]))
    as (d & m & q & He & Hq & Hl & Hd & Hm).
  { apply NoDup_app. split_and!; [done| |apply NoDup_singleton]. set_solver. }
  { intros k [Hk|Hk]%elem_of_app.
    - destruct (proj1 (Hqueue k) Hk) as (s & Hs & Ha). exists s.
      rewrite lookup_insert_ne by (intros ->; done). done.
    - apply list_elem_of_singleton in Hk as ->. exists to. by rewrite lookup_insert_eq. }
  exists d, q, m. cbn. rewrite He.
  assert (0 < active_count tm) as Hpos.
  { rewrite Hcount. assert (size (active_part (states tm)) <> 0%nat); [|lia].
    rewrite map_size_non_empty_iff. intros He0.
    assert (active_part (states tm) !! i = Some Active) as HA by by apply active_part_lookup.
    rewrite He0 in HA. done. }
  assert (vec_len (terminal_order tm ++ [i]) = vec_len d + vec_len q) as Hlens.
  { rewrite Hq. unfold vec_len. rewrite length_app. lia. }
  unfold vec_len in *. rewrite length_app in *. cbn [length] in *.
  unfold MAX_RETAINED_TERMINAL in *.
  split_and!; [|done|lia| |done].
  - repeat f_equal. u64_unfold. lia.
  - (* the pushed id is at the back, and fewer ids are dropped than were there *)
    intros Hin.
    assert (length d <= length (terminal_order tm))%nat as Hle by lia.
    assert (take (length d) (terminal_order tm) = d) as Htake.
    { rewrite <- (take_app_le _ [i]) by done. rewrite Hq. by rewrite take_app_length. }
    apply Hni. rewrite <- Htake in Hin. apply elem_of_take in Hin as (n & Hn & _). by apply list_elem_of_lookup_2 in Hn.
Qed.

Lemma wf_default : wf default.
Proof.
  unfold default. split; cbn.
  - u64_unfold. lia.
  - intros k s. by rewrite lookup_empty.
  - done.
  - constructor.
  - intros k. unfold terminal. setoid_rewrite lookup_empty.
    rewrite elem_of_nil. naive_solver.
  - unfold vec_len, MAX_RETAINED_TERMINAL. cbn. lia.
Qed.

(** Adding a fresh active entry. *)
Lemma wf_add_active tm i n :
  wf tm -> states tm !! i = None -> 0 <= i <= n -> next_id tm <= n <= u64_max ->
  Z.of_nat (size (states tm)) < u64_max ->
  wf (mkTM n (<[i := Active]> (states tm)) (saturating_add64 (active_count tm) 1)
        (terminal_order tm)).
Proof.
  intros [Hn Hk Hc Hnd Hq Hl] Hi Hin Hnn Hsz. split; cbn; try done.
  - lia.
  - intros k s. destruct (decide (i = k)) as [->|]; [lia|].
    rewrite lookup_insert_ne by done. intros ?%Hk. lia.
  - rewrite active_part_insert, map_size_insert_None
      by (apply active_part_lookup_None; by rewrite Hi).
    pose proof (active_part_size (states tm)). u64_unfold. lia.
  - intros k. rewrite Hq. unfold terminal. destruct (decide (i = k)) as [->|].
    + rewrite lookup_insert_eq, Hi. naive_solver.
    + by rewrite lookup_insert_ne.
Qed.

Lemma wf_begin tm : wf tm -> Z.of_nat (size (states tm)) < u64_max -> wf (begin tm).1.
Proof.
  intros Hwf Hsz. unfold begin. destruct (checked_add64 _ _) as [i|] eqn:E; [|done].
  apply checked_add64_Some in E as [-> Hle]. pose proof (wf_next _ Hwf).
  apply wf_add_active; try done; try lia.
  apply eq_None_not_Some. intros [s Hs%(wf_keys _ Hwf)]. lia.
Qed.

Lemma wf_begin_with_id tm i :
  wf tm -> is_u64 i -> Z.of_nat (size (states tm)) < u64_max -> wf (begin_with_id tm i).1.
Proof.
  intros Hwf Hi Hsz. unfold begin_with_id. destruct (states tm !! i) eqn:E; [done|].
  pose proof (wf_next _ Hwf). apply wf_add_active; try done; u64_unfold; lia.
Qed.

Lemma wf_transition_terminal tm i to :
  wf tm -> to <> Active -> wf (transition_terminal tm i to).1.
Proof.
  intros Hwf Hto. destruct (states tm !! i) as [st|] eqn:Hi.
  2: { unfold transition_terminal. by rewrite Hi. }
  destruct (decide (st = Active)) as [->|Hst].
  2: { unfold transition_terminal. rewrite Hi. by destruct st. }
  destruct (transition_terminal_spec tm i to Hwf Hi Hto)
    as (d & q & m & -> & Hq & Hl & Hni & Hm).
  pose proof Hwf as [Hn Hk Hc Hnd Hqueue Hlen].
  assert (i ∉ terminal_order tm) as Hio.
  { rewrite Hqueue. intros (s & Hs & Ha). naive_solver. }
  assert (NoDup (d ++ q)) as Hnd'.
  { rewrite <- Hq. apply NoDup_app. split_and!; [done|set_solver|apply NoDup_singleton]. }
  apply NoDup_app in Hnd' as (_ & Hdq & Hndq).
  split; cbn; try done.
  - intros k s. rewrite Hm. case_decide; [done|]. destruct (decide (i = k)) as [->|].
    + intros _. by apply (Hk k Active).
    + rewrite lookup_insert_ne by done. by apply Hk.
  - assert (active_part m = delete i (active_part (states tm))) as ->.
    { apply map_eq. intros k. apply option_eq. intros s.
      rewrite active_part_lookup, Hm. rewrite lookup_delete_Some, active_part_lookup.
      destruct (decide (i = k)) as [->|Hne].
      - rewrite decide_False by done. rewrite lookup_insert_eq. naive_solver.
      - rewrite lookup_insert_ne by done. case_decide as Hd; [|naive_solver].
        assert (k ∈ terminal_order tm ++ [i]) as Hk' by (rewrite Hq; set_solver).
        apply elem_of_app in Hk' as [Hk'|Hk']; [|set_solver].
        apply Hqueue in Hk' as (s' & Hs' & ?). naive_solver. }
    rewrite map_size_delete_Some by (exists Active; by apply active_part_lookup).
    assert (size (active_part (states tm)) <> 0%nat); [|lia].
    rewrite map_size_non_empty_iff. intros He0.
    assert (active_part (states tm) !! i = Some Active) as HA by (by apply active_part_lookup).
    by rewrite He0 in HA.
  - intros k. unfold terminal. rewrite Hm. case_decide as Hd.
    { split; [|naive_solver]. intros Hkq. by destruct (Hdq k). }
    assert (k ∈ q <-> k ∈ terminal_order tm \/ k = i) as ->.
    { assert (k ∈ d ++ q <-> k ∈ q) as <- by (rewrite elem_of_app; tauto).
      rewrite <- Hq, elem_of_app, list_elem_of_singleton. done. }
    destruct (decide (i = k)) as [->|Hne].
    + rewrite lookup_insert_eq. naive_solver.
    + rewrite lookup_insert_ne by done. rewrite Hqueue. unfold terminal. naive_solver.
  - rewrite Hl. lia.
Qed.

Lemma wf_cancel tm i : wf tm -> wf (cancel tm i).1.
Proof.
  intros Hwf. unfold cancel. destruct (states tm !! i) as [[]|] eqn:Hi; try done.
  destruct Hwf as [Hn Hk Hc Hnd Hq Hl]. split; cbn; try done.
  - intros k s [_ ?%Hk]%lookup_delete_Some. done.
  - rewrite active_part_delete, map_size_delete_Some
      by (exists Active; by apply active_part_lookup).
    u64_unfold. lia.
  - intros k. rewrite Hq. unfold terminal. destruct (decide (i = k)) as [->|].
    + rewrite lookup_delete_eq, Hi. naive_solver.
    + by rewrite lookup_delete_ne.
Qed.

Lemma txn_wf_run tm o : wf tm -> op_ok o tm -> wf (run o tm).
Proof.
  intros Hwf [Hsz Ho]. destruct o; cbn.
  - by apply wf_begin.
  - by apply wf_begin_with_id.
  - by apply wf_transition_terminal.
  - by apply wf_transition_terminal.
  - by apply wf_cancel.
Qed.

Lemma wf_reachable tm : reachable tm -> wf tm.
Proof. induction 1; [apply wf_default|by apply txn_wf_run]. Qed.

(** Every entry is active or in the retention queue. *)
Lemma wf_size tm :
  wf tm -> Z.of_nat (size (states tm)) <= active_count tm + vec_len (terminal_order tm).
Proof.
  intros [_ _ Hc Hnd Hq _]. rewrite Hc. unfold vec_len.
  rewrite <- (size_dom (D := gset Z) (states tm)).
  rewrite <- (size_dom (D := gset Z) (active_part (states tm))).
  rewrite <- (size_list_to_set (C := gset Z) (terminal_order tm)) by done.
  rewrite <- Nat2Z.inj_add.
  apply Nat2Z.inj_le. etrans; [|apply reflexive_eq, size_union; set_unfold].
  - apply subseteq_size. intros k [s Hs]%elem_of_dom. rewrite elem_of_union, elem_of_dom.
    destruct (decide (s = Active)) as [->|Hne].
    + left. exists Active. by apply active_part_lookup.
    + right. apply elem_of_list_to_set. apply Hq. by exists s.
  - intros k [s Hs%active_part_lookup]%elem_of_dom. intros (s' & Hs' & Ha)%Hq. naive_solver.
Qed.

Lemma find_map_omap {A B} (f : A -> option B) (l : list A) : find_map f l = head (omap f l).
Proof. induction l as [|x l IH]; csimpl; [done|]. by destruct (f x). Qed.

Lemma omap_reverse {A B} (f : A -> option B) (l : list A) : omap f (reverse l) = reverse (omap f l).
Proof.
  induction l as [|x l IH]; csimpl; [done|].
  rewrite reverse_cons, omap_app, IH. csimpl.
  destruct (f x); [by rewrite reverse_cons|by rewrite app_nil_r].
Qed.

Lemma head_reverse {A} (l : list A) : head (reverse l) = last l.
Proof.
  destruct l as [|x l _] using rev_ind; [done|].
  by rewrite reverse_snoc, last_snoc.
Qed.

Lemma elem_of_active_txn_ids tm k : k ∈ active_txn_ids tm <-> state tm k = Some Active.
Proof.
  unfold active_txn_ids, state. rewrite list_elem_of_omap. split.
  - intros ([j s] & Hin%elem_of_ord_iter & Hs). destruct s; by simplify_eq/=.
  - intros Hs. exists (k, Active). by rewrite elem_of_ord_iter.
Qed.

Lemma omap_fst_sorted {A} (f : Z * A -> bool) (l : list (Z * A)) :
  StronglySorted key_lt l ->
  StronglySorted Z.lt (omap (fun p => if f p then Some p.1 else None) l).
Proof.
  induction 1 as [|p l Hs IH Hf]; csimpl; [constructor|].
  destruct (f p); csimpl; [|done]. constructor; [done|].
  apply Forall_forall. intros k (q & Hq & Hk)%list_elem_of_omap.
  destruct (f q); simplify_eq. rewrite Forall_forall in Hf. by apply Hf.
Qed.

(** ** Properties *)

(** [C37] In every state reachable by any sequence of [begin], [begin_with_id],
    [commit], [rollback] and [cancel] calls, the manager is well formed:
    [active_count] is the exact number of active entries, the retention queue holds
    each terminal id exactly once and nothing else, and the table never holds more
    than the active transactions plus [MAX_RETAINED_TERMINAL] terminal ones. *)
Theorem reachable_invariant tm :
  reachable tm ->
  wf tm /\
  Z.of_nat (size (states tm)) <= active_count tm + MAX_RETAINED_TERMINAL.
Proof.
  intros Hr. pose proof (wf_reachable tm Hr) as Hwf. split; [done|].
  pose proof (wf_size tm Hwf). pose proof (wf_len tm Hwf). lia.
Qed.

(** An active transaction is never evicted or altered by anyone else: any
    operation that is not its own commit, rollback or cancel leaves it active. *)
Theorem active_never_lost tm o k :
  reachable tm -> op_ok o tm -> state tm k = Some Active ->
  o <> OpCommit k -> o <> OpRollback k -> o <> OpCancel k ->
  state (run o tm) k = Some Active.
Proof.
  intros Hr Ho Hk Hc Hrb Hca. pose proof (wf_reachable tm Hr) as Hwf. unfold state in *.
  assert (forall i to, to <> Active -> i <> k ->
    states (transition_terminal tm i to).1 !! k = Some Active) as Htrans.
  { intros i to Hto Hik. destruct (states tm !! i) as [st|] eqn:Hi.
    2: { unfold transition_terminal. by rewrite Hi. }
    destruct (decide (st = Active)) as [->|Hst].
    2: { unfold transition_terminal. rewrite Hi. by destruct st. }
    destruct (transition_terminal_spec tm i to Hwf Hi Hto)
      as (d & q & m & -> & Hq & _ & _ & Hm).
    cbn. rewrite Hm, lookup_insert_ne by done. rewrite decide_False; [done|].
    intros Hd. assert (k ∈ terminal_order tm ++ [i]) as Hin by (rewrite Hq; set_solver).
    apply elem_of_app in Hin as [(s & ? & ?)%(wf_queue _ Hwf)|Hin]; [naive_solver|set_solver]. }
  destruct o as [|i|i|i|i]; cbn.
  - unfold begin. destruct (checked_add64 _ _) as [i|]; [cbn|done].
    rewrite lookup_insert. by case_decide.
  - unfold begin_with_id. destruct (states tm !! i) eqn:E; [done|]. cbn.
    rewrite lookup_insert. by case_decide.
  - apply Htrans; [done|naive_solver].
  - apply Htrans; [done|naive_solver].
  - unfold cancel. destruct (states tm !! i) as [[]|] eqn:E; try done. cbn.
    rewrite lookup_delete_ne; naive_solver.
Qed.

(** A begin that succeeds hands out an id above every id the table knows, marks
    it active and counts it; a begin fails only when the id space is used up, and then
    it changes nothing. *)
Theorem begin_allocates_fresh_id tm :
  reachable tm -> Z.of_nat (size (states tm)) < u64_max ->
  match begin tm with
  | (tm', Ok t) =>
      state tm (id t) = None /\
      (forall k s, state tm k = Some s -> k < id t) /\
      is_u64 (id t) /\
      state tm' (id t) = Some Active /\
      (forall k, k <> id t -> state tm' k = state tm k) /\
      active_count tm' = active_count tm + 1
  | (tm', Err e) => e = IdExhausted /\ tm' = tm /\ next_id tm = u64_max
  end.
Proof.
  intros Hr Hsz. pose proof (wf_reachable tm Hr) as Hwf.
  pose proof (wf_begin tm Hwf Hsz) as Hwf'. pose proof (wf_next tm Hwf) as Hn.
  unfold begin in *. destruct (checked_add64 _ _) as [i|] eqn:E; unfold state; cbn in *.
  - apply checked_add64_Some in E as [-> Hle].
    assert (states tm !! (next_id tm + 1) = None) as Hnone.
    { apply eq_None_not_Some. intros [s Hs%(wf_keys _ Hwf)]. lia. }
    split_and!; try done.
    + intros k s Hs%(wf_keys _ Hwf). lia.
    + u64_unfold. lia.
    + by rewrite lookup_insert_eq.
    + intros k Hk. by rewrite lookup_insert_ne.
    + pose proof (active_part_size (states tm)). rewrite (wf_count _ Hwf). u64_unfold. lia.
  - split_and!; try done. unfold checked_add64 in E. destruct (Z.leb_spec (next_id tm + 1) u64_max); [done|].
    lia.
Qed.

(** [commit] and [rollback] on every branch: an unknown id is [NotFound], a
    terminal one [NotActive], and both leave the table as it was; an active one becomes
    terminal and stays queryable, the queue keeps the most recent
    [MAX_RETAINED_TERMINAL] terminations in order, and the only other entries that
    change are the ones evicted from the front of the queue. *)
Theorem terminal_transition_behaviour tm k to :
  reachable tm -> to = Committed \/ to = Aborted ->
  match state tm k with
  | None => transition_terminal tm k to = (tm, Err (NotFound k))
  | Some Active =>
      exists tm' dropped,
        transition_terminal tm k to = (tm', Ok (mkTxn k to)) /\
        state tm' k = Some to /\
        active_count tm' = active_count tm - 1 /\
        next_id tm' = next_id tm /\
        terminal_order tm ++ [k] = dropped ++ terminal_order tm' /\
        vec_len (terminal_order tm') =
          Z.min (vec_len (terminal_order tm) + 1) MAX_RETAINED_TERMINAL /\
        (forall j, j <> k ->
           state tm' j = if decide (j ∈ dropped) then None else state tm j)
  | Some _ => transition_terminal tm k to = (tm, Err (NotActive k))
  end.
Proof.
  intros Hr Hto. pose proof (wf_reachable tm Hr) as Hwf. unfold state.
  destruct (states tm !! k) as [[]|] eqn:Hk;
    [|unfold transition_terminal; by rewrite Hk..].
  assert (to <> Active) as Hna by naive_solver.
  destruct (transition_terminal_spec tm k to Hwf Hk Hna)
    as (d & q & m & He & Hq & Hl & Hni & Hm).
  eexists _, d. split_and!; [exact He| |done..|].
  - cbn. rewrite Hm, decide_False by done. by rewrite lookup_insert_eq.
  - cbn. intros j Hj. rewrite Hm. by rewrite lookup_insert_ne.
Qed.

(** The active-transaction queries agree: [active_txn_ids] lists exactly the
    active ids in strictly ascending order, [oldest_active_txn_id] is its first element
    and [newest_active_txn_id] its last. *)
Theorem active_queries_agree tm :
  StronglySorted Z.lt (active_txn_ids tm) /\
  (forall k, k ∈ active_txn_ids tm <-> state tm k = Some Active) /\
  oldest_active_txn_id tm = head (active_txn_ids tm) /\
  newest_active_txn_id tm = last (active_txn_ids tm).
Proof.
  split_and!.
  - apply (omap_fst_sorted (fun p => is_active p.2)), ord_iter_sorted.
  - apply elem_of_active_txn_ids.
  - apply find_map_omap.
  - unfold newest_active_txn_id. rewrite find_map_omap, omap_reverse. apply head_reverse.
Qed.

(** ** Witnesses *)

(** [begin; begin_with_id 7; commit 1; begin] *)
Definition demo : TxnManager :=
  run OpBegin (run (OpCommit 1) (run (OpBeginWithId 7) (run OpBegin default))).

Lemma demo_reachable : reachable demo.
Proof. unfold demo. repeat (constructor; [|by vm_compute]). constructor. Qed.

Lemma reachable_invariant_witness :
  wf demo /\ Z.of_nat (size (states demo)) <= active_count demo + MAX_RETAINED_TERMINAL.
Proof. apply (reachable_invariant demo). exact demo_reachable. Defined.

Lemma active_never_lost_witness : state (run (OpCommit 8) demo) 7 = Some Active.
Proof.
  apply (active_never_lost demo (OpCommit 8) 7);
    [exact demo_reachable|by vm_compute|by vm_compute|discriminate..].
Defined.

Lemma begin_allocates_fresh_id_witness :
  match begin demo with
  | (tm', Ok t) => id t = 9 /\ state demo (id t) = None
  | (_, Err _) => False
  end.
Proof.
  pose proof (begin_allocates_fresh_id demo demo_reachable ltac:(by vm_compute)) as H.
  vm_compute in H |- *. destruct H as [H _]. split; [reflexivity|exact H].
Defined.

Lemma terminal_transition_behaviour_witness :
  exists tm' dropped,
    transition_terminal demo 7 Committed = (tm', Ok (mkTxn 7 Committed)) /\
    terminal_order demo ++ [7] = dropped ++ terminal_order tm'.
Proof.
  destruct (terminal_transition_behaviour demo 7 Committed demo_reachable ltac:(by left))
    as (tm' & dropped & H1 & _ & _ & _ & H2 & _).
  exists tm', dropped. split; [exact H1|exact H2].
Defined.

End Txn.
