(* ===== verification/TupleStore.v ===== *)
(** * MVCC tuple store (crates/storage/src/lib.rs)

    The in-memory multi-version store: version chains by tuple id, the row-key index
    kept in lockstep, the write-side change log, garbage collection, and the
    [TupleStore] trait with its default methods.

    [imbl::OrdMap] is a finite map iterated in key order.  [Arc] sharing is observable
    only through [Arc::ptr_eq] in [changed_tuple_ids], where it is a parameter. *)

From stdpp Require Import base gmap strings list sorting.
From S2P Require Import Prelude.

Module Store.

Record TupleVersion := mkVersion {
  tuple_id : Z;
  key : string;
  value : string;
  created_by : Z;
  deleted_by : option Z;
}.

#[export] Instance TupleVersion_eq_dec : EqDecision TupleVersion.
Proof. solve_decision. Defined.

Record Visibility := mkVis { read_txn_id : Z }.

Record NewTuple := mkNew { new_key : string; new_value : string }.

Record PruneStats := mkStats {
  removed_versions : Z;
  removed_tuples : Z;
  remaining_versions : Z;
}.

Inductive StorageError := NotFound | AlreadyExists | InvalidVisibility.

Record InMemoryTupleStore := mkStore {
  next_tuple_id : Z;
  versions : gmap Z (list TupleVersion);
  key_to_tuple_ids : gmap string (list Z);
  epoch : Z;
  recent_changes : list (Z * Z);
}.

Definition CHANGE_LOG_CAP : Z := 65536.

Definition new : InMemoryTupleStore := mkStore 1 ∅ ∅ 0 [].

Definition record_change (s : InMemoryTupleStore) (tid : Z) : InMemoryTupleStore :=
  let epoch' := u64_add (epoch s) 1 in
  let pushed := recent_changes s ++ [(epoch', tid)] in
  mkStore (next_tuple_id s) (versions s) (key_to_tuple_ids s) epoch'
    (if CHANGE_LOG_CAP <? vec_len pushed then tail pushed else pushed).

(** ** Visibility *)

Definition validate_visibility (v : Visibility) : result unit StorageError :=
  if read_txn_id v =? 0 then Err InvalidVisibility else Ok tt.

Definition is_visible (version : TupleVersion) (v : Visibility) : bool :=
  (created_by version <=? read_txn_id v) &&
  match deleted_by version with
  | None => true
  | Some d => read_txn_id v <? d
  end.

(** [versions.iter().rev().find(p)] *)
Definition find_rev (p : TupleVersion -> bool) (chain : list TupleVersion)
    : option TupleVersion := List.find p (reverse chain).

Definition newest_visible (v : Visibility) (chain : list TupleVersion)
    : option TupleVersion := find_rev (fun version => is_visible version v) chain.

Definition is_live (version : TupleVersion) : bool :=
  match deleted_by version with None => true | Some _ => false end.

(** [OrdMap::range(lo..=hi)] *)
Definition in_range (lo hi k : Z) : bool := (lo <=? k) && (k <=? hi).

Definition range (lo hi : Z) (m : gmap Z (list TupleVersion)) : list (Z * list TupleVersion) :=
  List.filter (fun p => in_range lo hi p.1) (ord_iter m).

Definition chain (s : InMemoryTupleStore) (tid : Z) : option (list TupleVersion) :=
  versions s !! tid.

Definition visible_count_in_range (s : InMemoryTupleStore) (v : Visibility) (lo hi : Z)
    : result Z StorageError :=
  let? _ := validate_visibility v in
  if hi <? lo then Ok 0
  else Ok (vec_len (List.filter
    (fun p => List.existsb (fun version => is_visible version v) (reverse p.2))
    (range lo hi (versions s)))).

Definition visible_versions_in_range (s : InMemoryTupleStore) (v : Visibility) (lo hi : Z)
    : result (list TupleVersion) StorageError :=
  let? _ := validate_visibility v in
  Ok (omap (fun p => newest_visible v p.2) (range lo hi (versions s))).

Definition visible_versions (s : InMemoryTupleStore) (v : Visibility)
    : result (list TupleVersion) StorageError :=
  let? _ := validate_visibility v in
  Ok (omap (fun p => newest_visible v p.2) (ord_iter (versions s))).

Definition all_versions (s : InMemoryTupleStore) : list TupleVersion :=
  List.flat_map snd (ord_iter (versions s)).

Definition version_count (s : InMemoryTupleStore) : Z :=
  List.fold_right (fun p n => vec_len p.2 + n) 0 (ord_iter (versions s)).

Definition tuple_chain_count (s : InMemoryTupleStore) : Z := Z.of_nat (size (versions s)).

(** ** The row-key index *)

Definition index_key_insert (m : gmap string (list Z)) (k : string) (tid : Z)
    : gmap string (list Z) :=
  let ids := match m !! k with Some ids => ids | None => [] end in
  <[k := ids ++ [tid]]> m.

Definition index_key_remove (m : gmap string (list Z)) (k : string) (tid : Z)
    : gmap string (list Z) :=
  match m !! k with
  | None => m
  | Some ids =>
      let ids' := List.filter (fun i => negb (i =? tid)) ids in
      match ids' with
      | [] => delete k m
      | _ => <[k := ids']> m
      end
  end.

Definition index_lookup (s : InMemoryTupleStore) (k : string) (v : Visibility)
    : result (list TupleVersion) StorageError :=
  let? _ := validate_visibility v in
  match key_to_tuple_ids s !! k with
  | None => Ok []
  | Some ids =>
      Ok (omap (fun tid =>
        versions s !! tid ≫=
          find_rev (fun version => is_visible version v && bool_decide (key version = k))) ids)
  end.

Definition key_exists (s : InMemoryTupleStore) (k : string) : bool :=
  List.existsb (fun p : Z * list TupleVersion =>
      match find_rev is_live p.2 with
      | Some version => bool_decide (key version = k)
      | None => false
      end) (ord_iter (versions s)).

(** ** Inserts *)

Definition insert_chain (s : InMemoryTupleStore) (tid : Z) (t : NewTuple) (txn : Z)
    : InMemoryTupleStore :=
  record_change
    (mkStore (next_tuple_id s)
       (<[tid := [mkVersion tid (new_key t) (new_value t) txn None]]> (versions s))
       (index_key_insert (key_to_tuple_ids s) (new_key t) tid)
       (epoch s) (recent_changes s)) tid.

Definition tuple_insert_reserved_key (s : InMemoryTupleStore) (t : NewTuple) (txn : Z)
    : InMemoryTupleStore * result Z StorageError :=
  if txn =? 0 then (s, Err InvalidVisibility)
  else
    let tid := next_tuple_id s in
    let s := mkStore (u64_add (next_tuple_id s) 1) (versions s) (key_to_tuple_ids s)
               (epoch s) (recent_changes s) in
    (insert_chain s tid t txn, Ok tid).

Definition tuple_insert_reserved_key_with_id (s : InMemoryTupleStore) (tid : Z)
    (t : NewTuple) (txn : Z) : InMemoryTupleStore * result Z StorageError :=
  if txn =? 0 then (s, Err InvalidVisibility)
  else
    match versions s !! tid with
    | Some _ => (s, Err AlreadyExists)
    | None => (insert_chain s tid t txn, Ok tid)
    end.

Definition tuple_insert_with_id (s : InMemoryTupleStore) (tid : Z) (t : NewTuple) (txn : Z)
    : InMemoryTupleStore * result Z StorageError :=
  if txn =? 0 then (s, Err InvalidVisibility)
  else if key_exists s (new_key t) then (s, Err AlreadyExists)
  else tuple_insert_reserved_key_with_id s tid t txn.

Definition tuple_insert (s : InMemoryTupleStore) (t : NewTuple) (txn : Z)
    : InMemoryTupleStore * result Z StorageError :=
  if txn =? 0 then (s, Err InvalidVisibility)
  else if key_exists s (new_key t) then (s, Err AlreadyExists)
  else tuple_insert_reserved_key s t txn.

(** ** Updates and deletes *)

(** On a newest-first chain: set [deleted_by] of the first live version, and return the
    new chain and that version. *)
Fixpoint mark_first_live (txn : Z) (newest_first : list TupleVersion)
    : option (list TupleVersion * TupleVersion) :=
  match newest_first with
  | [] => None
  | version :: older =>
      if is_live version then
        let current := mkVersion (tuple_id version) (key version) (value version)
                         (created_by version) (Some txn) in
        Some (current :: older, current)
      else
        match mark_first_live txn older with
        | Some (older', current) => Some (version :: older', current)
        | None => None
        end
  end.

(** [current_version_mut] followed by [current.deleted_by = Some(txn_id)]. *)
Definition delete_current_version (s : InMemoryTupleStore) (tid : Z) (txn : Z)
    : option (InMemoryTupleStore * TupleVersion) :=
  match versions s !! tid with
  | None => None
  | Some ch =>
      match mark_first_live txn (reverse ch) with
      | None => None
      | Some (ch', current) =>
          Some (mkStore (next_tuple_id s) (<[tid := reverse ch']> (versions s))
                  (key_to_tuple_ids s) (epoch s) (recent_changes s), current)
      end
  end.

Definition tuple_update (s : InMemoryTupleStore) (tid : Z) (new_value : string) (txn : Z)
    : InMemoryTupleStore * result unit StorageError :=
  if txn =? 0 then (s, Err InvalidVisibility)
  else
    match delete_current_version s tid txn with
    | None => (s, Err NotFound)
    | Some (s, current) =>
        let tid := tuple_id current in
        match versions s !! tid with
        | None => (s, Err NotFound)
        | Some ch =>
            let ch' := ch ++ [mkVersion tid (key current) new_value txn None] in
            (record_change
               (mkStore (next_tuple_id s) (<[tid := ch']> (versions s))
                  (key_to_tuple_ids s) (epoch s) (recent_changes s)) tid, Ok tt)
        end
    end.

Definition tuple_delete (s : InMemoryTupleStore) (tid : Z) (txn : Z)
    : InMemoryTupleStore * result unit StorageError :=
  if txn =? 0 then (s, Err InvalidVisibility)
  else
    match delete_current_version s tid txn with
    | None => (s, Err NotFound)
    | Some (s, _) => (record_change s tid, Ok tt)
    end.

(** ** Reads *)

Definition tuple_fetch (s : InMemoryTupleStore) (tid : Z) (v : Visibility)
    : result (option TupleVersion) StorageError :=
  let? _ := validate_visibility v in
  Ok (versions s !! tid ≫= newest_visible v).

(** [InMemoryCursor] is the vector's [IntoIter]. *)
Definition cursor := list TupleVersion.

Definition cursor_next (c : cursor) : option TupleVersion * cursor :=
  match c with [] => (None, []) | x :: c => (Some x, c) end.

Definition seq_scan_open (s : InMemoryTupleStore) (v : Visibility)
    : result cursor StorageError := visible_versions s v.

Definition index_scan_open (s : InMemoryTupleStore) (k : string) (v : Visibility)
    : result cursor StorageError := index_lookup s k v.

(** The override of the trait's default method. *)
Definition tuple_fetch_by_key (s : InMemoryTupleStore) (k : string) (v : Visibility)
    : result (option TupleVersion) StorageError :=
  let? found := index_lookup s k v in Ok (head found).

(** ** Garbage collection *)

Definition survives (safe_txn_id : Z) (version : TupleVersion) : bool :=
  match deleted_by version with None => true | Some d => safe_txn_id <? d end.

Definition prune_chain (safe : Z) (ch : list TupleVersion) : option (list TupleVersion) :=
  match List.filter (survives safe) ch with [] => None | kept => Some kept end.

(** The keys of the chains that the pass empties, in key order. *)
Definition pruned_chains (safe : Z) (m : gmap Z (list TupleVersion)) : list (string * Z) :=
  omap (fun p : Z * list TupleVersion =>
      match prune_chain safe p.2, p.2 with
      | None, version :: _ => Some (key version, p.1)
      | _, _ => None
      end) (ord_iter m).

Definition prune_versions_deleted_at_or_before (s : InMemoryTupleStore) (safe_txn_id : Z)
    : InMemoryTupleStore * PruneStats :=
  let before_versions := version_count s in
  let before_tuples := tuple_chain_count s in
  let pruned := map_imap (fun _ ch => prune_chain safe_txn_id ch) (versions s) in
  let dropped := pruned_chains safe_txn_id (versions s) in
  let index := List.fold_left (fun m p => index_key_remove m p.1 p.2) dropped
                 (key_to_tuple_ids s) in
  let s' := mkStore (next_tuple_id s) pruned index (epoch s) (recent_changes s) in
  let remaining := version_count s' in
  (s', mkStats (saturating_sub before_versions remaining)
         (saturating_sub before_tuples (tuple_chain_count s')) remaining).

Definition clear_versions_preserving_allocator (s : InMemoryTupleStore) : InMemoryTupleStore :=
  mkStore (next_tuple_id s) ∅ ∅ (u64_add (epoch s) 1) [].

(** ** The delta between two generations *)

(** [Vec::dedup]: drop consecutive repetitions. *)
Fixpoint dedup (l : list Z) : list Z :=
  match l with
  | [] => []
  | x :: rest =>
      match rest with
      | y :: _ => if x =? y then dedup rest else x :: dedup rest
      | [] => [x]
      end
  end.

Section changed_tuple_ids.
(** [Arc::ptr_eq] on the chains of the two generations. *)
Context (ptr_eq : list TupleVersion -> list TupleVersion -> bool).

(** The parallel key walk of the fallback. *)
Fixpoint walk (a : list (Z * list TupleVersion)) : list (Z * list TupleVersion) -> list Z :=
  fix walk_b (b : list (Z * list TupleVersion)) : list Z :=
    match a, b with
    | (ka, va) :: a', (kb, vb) :: b' =>
        match Z.compare ka kb with
        | Eq => (if ptr_eq va vb then [] else [ka]) ++ walk a' b'
        | Lt => ka :: walk a' b
        | Gt => kb :: walk_b b'
        end
    | (ka, _) :: a', [] => ka :: walk a' []
    | [], (kb, _) :: b' => kb :: walk_b b'
    | [], [] => []
    end.

Definition log_covers (older newer : InMemoryTupleStore) : bool :=
  match head (recent_changes newer) with
  | Some (first, _) => first <=? u64_add (epoch older) 1
  | None => false
  end.

Definition log_slice (older newer : InMemoryTupleStore) : list Z :=
  (List.filter (fun p : Z * Z => epoch older <? p.1) (recent_changes newer)).*2.

Definition changed_tuple_ids (older newer : InMemoryTupleStore) : list Z :=
  if epoch newer =? epoch older then []
  else if (epoch older <? epoch newer) && log_covers older newer then
    dedup (merge_sort Z.le (log_slice older newer))
  else walk (ord_iter (versions older)) (ord_iter (versions newer)).

End changed_tuple_ids.

(** ** The trait *)

(** A cursor is the versions its successive [next] calls return. *)
Class TupleStore (S : Type) := {
  trait_tuple_fetch : S -> Z -> Visibility -> result (option TupleVersion) StorageError;
  trait_tuple_insert : S -> NewTuple -> Z -> S * result Z StorageError;
  trait_tuple_update : S -> Z -> string -> Z -> S * result unit StorageError;
  trait_tuple_delete : S -> Z -> Z -> S * result unit StorageError;
  trait_seq_scan_open : S -> Visibility -> result cursor StorageError;
  trait_index_scan_open : S -> string -> Visibility -> result cursor StorageError;
  trait_tuple_fetch_by_key : S -> string -> Visibility -> result (option TupleVersion) StorageError;
}.

(** The default body of [tuple_fetch_by_key], for an implementation that keeps it. *)
Definition default_tuple_fetch_by_key {S} `{TupleStore S} (s : S) (k : string) (v : Visibility)
    : result (option TupleVersion) StorageError :=
  let? c := trait_index_scan_open s k v in Ok (cursor_next c).1.

Definition key_exists_at_visibility {S} `{TupleStore S} (s : S) (k : string) (v : Visibility)
    : result bool StorageError :=
  let? found := trait_tuple_fetch_by_key s k v in
  Ok (match found with Some _ => true | None => false end).

(** [while cursor.next().is_some() { count += 1 }] *)
Fixpoint drain_count (c : cursor) (count : Z) : Z :=
  match c with [] => count | _ :: c => drain_count c (count + 1) end.

Definition visible_tuple_count {S} `{TupleStore S} (s : S) (v : Visibility)
    : result Z StorageError :=
  let? c := trait_seq_scan_open s v in Ok (drain_count c 0).

#[export] Instance InMemoryTupleStore_TupleStore : TupleStore InMemoryTupleStore := {
  trait_tuple_fetch := tuple_fetch;
  trait_tuple_insert := tuple_insert;
  trait_tuple_update := tuple_update;
  trait_tuple_delete := tuple_delete;
  trait_seq_scan_open := seq_scan_open;
  trait_index_scan_open := index_scan_open;
  trait_tuple_fetch_by_key := tuple_fetch_by_key;
}.

End Store.
