(* ===== verification/TupleStoreFacts.v ===== *)
(** * Facts about the MVCC tuple store

    The invariants of [TupleStore], its refinement of a timeline of maps, the
    equivalence of the key index with a filtered scan, the safety of garbage
    collection and the completeness of the change log. *)

From stdpp Require Import base gmap strings list sorting.
From S2P Require Import Prelude TupleStore.

Module StoreFacts.
Import Store.

(** ** Chains *)

(** What a reader sees of a version: everything but the deletion mark that a later
    writer puts on it. *)
Definition row (v : TupleVersion) : Z * string * string * Z :=
  (tuple_id v, key v, value v, created_by v).

Definition mark_deleted (txn : Z) (v : TupleVersion) : TupleVersion :=
  mkVersion (tuple_id v) (key v) (value v) (created_by v) (Some txn).

Lemma find_rev_snoc p ch v :
  find_rev p (ch ++ [v]) = if p v then Some v else find_rev p ch.
Proof. unfold find_rev. by rewrite reverse_snoc. Qed.

Lemma find_rev_Some p ch v : find_rev p ch = Some v -> v ∈ ch /\ p v = true.
Proof.
  intros [H1 H2]%List.find_some. split; [|done].
  apply list_elem_of_In in H1. by rewrite elem_of_reverse in H1.
Qed.

Lemma find_rev_None p ch : find_rev p ch = None <-> forall v, v ∈ ch -> p v = false.
Proof.
  unfold find_rev. split.
  - intros H v Hv. apply (List.find_none _ _ H). apply list_elem_of_In.
    by rewrite elem_of_reverse.
  - intros H. destruct (List.find _ _) eqn:E; [|done].
    apply List.find_some in E as [Hin Hp]. apply list_elem_of_In in Hin.
    rewrite elem_of_reverse in Hin. by rewrite H in Hp.
Qed.

Lemma find_rev_ext p q ch :
  (forall v, v ∈ ch -> p v = q v) -> find_rev p ch = find_rev q ch.
Proof.
  intros H. induction ch as [|v ch IH] using rev_ind; [done|].
  rewrite !find_rev_snoc, H by set_solver. rewrite IH by set_solver. done.
Qed.

(** Filtering out versions the search would skip does not change its result. *)
Lemma find_rev_filter p q ch :
  (forall v, v ∈ ch -> q v = false -> p v = false) ->
  find_rev p (List.filter q ch) = find_rev p ch.
Proof.
  induction ch as [|v ch IH] using rev_ind; intros H; [done|].
  rewrite List.filter_app. cbn. rewrite find_rev_snoc.
  destruct (q v) eqn:Hq.
  - rewrite find_rev_snoc, IH by set_solver. done.
  - rewrite app_nil_r, IH by set_solver. by rewrite H by set_solver.
Qed.

Lemma newest_visible_rows vis ch ch' :
  Forall2 (fun v w => is_visible v vis = is_visible w vis /\ row v = row w) ch ch' ->
  row <$> newest_visible vis ch = row <$> newest_visible vis ch'.
Proof.
  intros H. apply Forall2_reverse in H. unfold newest_visible, find_rev.
  induction H as [|v w l l' [Hv Hr] _ IH]; cbn; [done|].
  rewrite Hv. destruct (is_visible w vis); [|done]. cbn. by rewrite Hr.
Qed.

Lemma mark_first_live_spec txn l :
  match mark_first_live txn l with
  | Some (l', cur) => exists newer v older,
      l = newer ++ v :: older /\ l' = newer ++ mark_deleted txn v :: older /\
      cur = mark_deleted txn v /\ is_live v = true /\ Forall (fun w => is_live w = false) newer
  | None => Forall (fun w => is_live w = false) l
  end.
Proof.
  induction l as [|v l IH]; cbn; [done|]. destruct (is_live v) eqn:Hv.
  - exists [], v, l. by split_and!.
  - destruct (mark_first_live txn l) as [[l' cur]|].
    + destruct IH as (newer & w & older & -> & -> & -> & Hw & Hn).
      exists (v :: newer), w, older. split_and!; try done. by constructor.
    + by constructor.
Qed.

(** [delete_current_version] in terms of the stored (oldest-first) chain. *)
Lemma delete_current_version_spec s tid txn :
  match delete_current_version s tid txn with
  | Some (s', cur) => exists older v newer,
      versions s !! tid = Some (older ++ v :: newer) /\
      is_live v = true /\ Forall (fun w => is_live w = false) newer /\
      cur = mark_deleted txn v /\
      s' = mkStore (next_tuple_id s)
             (<[tid := older ++ mark_deleted txn v :: newer]> (versions s))
             (key_to_tuple_ids s) (epoch s) (recent_changes s)
  | None =>
      match versions s !! tid with
      | Some ch => Forall (fun w => is_live w = false) ch
      | None => True
      end
  end.
Proof.
  unfold delete_current_version. destruct (versions s !! tid) as [ch|] eqn:Hch; [|done].
  pose proof (mark_first_live_spec txn (reverse ch)) as H.
  destruct (mark_first_live txn (reverse ch)) as [[l' cur]|].
  - destruct H as (newer & v & older & Hl & -> & -> & Hv & Hn).
    apply (f_equal reverse) in Hl. rewrite reverse_involutive in Hl. subst ch.
    exists (reverse older), v, (reverse newer).
    rewrite !reverse_app, !reverse_cons, <- !app_assoc. cbn.
    split_and!; try done. by apply Forall_reverse.
  - rewrite Forall_forall in H |- *. intros w Hw. apply H. by rewrite elem_of_reverse.
Qed.

(** ** Chain invariant

    Every version of a chain carries the chain's id and one row key; a version is deleted
    no earlier than it was created; and each version is deleted no later than the next
    one was created. *)

Definition own_time (v : TupleVersion) : Prop :=
  forall d, deleted_by v = Some d -> created_by v <= d.

Definition before (v w : TupleVersion) : Prop :=
  exists d, deleted_by v = Some d /\ d <= created_by w.

Definition chain_time (ch : list TupleVersion) : Prop :=
  Forall own_time ch /\ StronglySorted before ch.

Definition chain_key (ch : list TupleVersion) : option string := key <$> head ch.

Record chain_ok (tid : Z) (ch : list TupleVersion) : Prop := {
  chain_nonempty : ch <> [];
  chain_ids : Forall (fun v => tuple_id v = tid) ch;
  chain_keys : Forall (fun v => chain_key ch = Some (key v)) ch;
  chain_times : chain_time ch;
}.

(** In a time-ordered chain only the last version can be live. *)
Lemma chain_time_live_last older v newer :
  chain_time (older ++ v :: newer) -> is_live v = true -> newer = [].
Proof.
  intros [_ Hs] Hv. destruct newer as [|w newer]; [done|].
  apply StronglySorted_app_r in Hs. inversion Hs as [|? ? _ Hf]; subst.
  inversion Hf as [|? ? (d & Hd & _) _]; subst. unfold is_live in Hv. by rewrite Hd in Hv.
Qed.

(** At most one version of a time-ordered chain is visible at any snapshot. *)
Lemma chain_time_visible_unique ch vis i j v w :
  chain_time ch -> ch !! i = Some v -> ch !! j = Some w ->
  is_visible v vis = true -> is_visible w vis = true -> i = j.
Proof.
  intros [_ Hs]. revert i j. induction Hs as [|u ch Hs IH Hf]; intros i j Hi Hj Hv Hw; [done|].
  rewrite Forall_forall in Hf.
  assert (forall x, x ∈ ch -> is_visible u vis = true -> is_visible x vis = true -> False) as Hno.
  { intros x Hx Hu Hvx. destruct (Hf x Hx) as (d & Hd & Hle).
    unfold is_visible in Hu, Hvx. rewrite Hd in Hu. lia. }
  destruct i as [|i], j as [|j]; cbn in *; simplify_eq; try done.
  - exfalso. apply (Hno w); [by eapply list_elem_of_lookup_2|done..].
  - exfalso. apply (Hno v); [by eapply list_elem_of_lookup_2|done..].
  - f_equal. by apply (IH i j).
Qed.

Lemma chain_time_mark older v txn :
  chain_time (older ++ [v]) -> created_by v <= txn ->
  chain_time (older ++ [mark_deleted txn v]).
Proof.
  intros [Ho Hs] Hle. apply Forall_app in Ho as [Ho _].
  apply StronglySorted_snoc_inv in Hs as [Hs Hf]. split.
  - apply Forall_app. split; [done|]. repeat constructor. intros d [= <-]. done.
  - by apply StronglySorted_snoc.
Qed.

Lemma chain_time_push older v txn w :
  chain_time (older ++ [v]) -> created_by v <= txn -> own_time w -> created_by w = txn ->
  chain_time (older ++ [mark_deleted txn v; w]).
Proof.
  intros Ht Hle Hw Hc. pose proof Ht as [_ [_ Hf]%StronglySorted_snoc_inv].
  destruct (chain_time_mark older v txn Ht Hle) as [Ho' Hs'].
  change [mark_deleted txn v; w] with ([mark_deleted txn v] ++ [w]). rewrite app_assoc. split.
  - apply Forall_app. split; [done|]. by repeat constructor.
  - apply StronglySorted_snoc; [done|]. apply Forall_app. split.
    + eapply Forall_impl; [exact Hf|]. intros u (d & Hd & Hle'). exists d. split; [done|lia].
    + repeat constructor. exists txn. cbn. split; [done|lia].
Qed.

Lemma chain_key_elem tid ch v : chain_ok tid ch -> v ∈ ch -> chain_key ch = Some (key v).
Proof. intros [_ _ Hk _] Hv. rewrite Forall_forall in Hk. by apply Hk. Qed.

Lemma prune_chain_Some safe ch ch' :
  prune_chain safe ch = Some ch' <-> ch' = List.filter (survives safe) ch /\ ch' <> [].
Proof. unfold prune_chain. destruct (List.filter _ _); naive_solver. Qed.

Lemma prune_chain_ok safe tid ch ch' :
  chain_ok tid ch -> prune_chain safe ch = Some ch' ->
  chain_ok tid ch' /\ chain_key ch' = chain_key ch.
Proof.
  intros Hok [-> Hne]%prune_chain_Some.
  assert (forall v, v ∈ List.filter (survives safe) ch -> v ∈ ch) as Hsub.
  { intros v Hv. apply list_elem_of_In in Hv. apply List.filter_In in Hv as [Hv _].
    by apply list_elem_of_In. }
  assert (chain_key (List.filter (survives safe) ch) = chain_key ch) as Hkey.
  { destruct (List.filter (survives safe) ch) as [|v l] eqn:E; [done|].
    rewrite (chain_key_elem tid ch v Hok); [done|]. apply Hsub. left. }
  split; [|done]. destruct Hok as [_ Hi Hk [Ho Hs]].
  rewrite Forall_forall in Hi, Hk, Ho. split; [done|..].
  - apply Forall_forall. auto.
  - apply Forall_forall. intros v Hv. rewrite Hkey. auto.
  - split; [apply Forall_forall; auto|by apply StronglySorted_filter].
Qed.

(** Reads at or above the horizon do not see a pruned version. *)
Lemma prune_chain_visible safe ch r :
  safe <= r ->
  prune_chain safe ch ≫= newest_visible (mkVis r) = newest_visible (mkVis r) ch.
Proof.
  intros Hr. unfold newest_visible.
  rewrite <- (find_rev_filter _ (survives safe) ch).
  - unfold prune_chain. by destruct (List.filter _ _).
  - intros v _ Hv. unfold survives in Hv. unfold is_visible; cbn.
    destruct (deleted_by v); [|done]. lia.
Qed.

(** ** The key index *)

Definition index_ids (m : gmap string (list Z)) (k : string) : list Z :=
  default [] (m !! k).

Definition index_shape (m : gmap string (list Z)) : Prop :=
  forall k, m !! k <> Some [] /\ NoDup (index_ids m k).

Lemma index_key_insert_ids m k tid k' :
  index_ids (index_key_insert m k tid) k' =
  if decide (k = k') then index_ids m k ++ [tid] else index_ids m k'.
Proof.
  unfold index_key_insert, index_ids. rewrite lookup_insert.
  case_decide; [|done]. cbn. by destruct (m !! k).
Qed.

Lemma index_key_insert_shape m k tid :
  index_shape m -> tid ∉ index_ids m k -> index_shape (index_key_insert m k tid).
Proof.
  intros Hm Hni k'. destruct (Hm k') as [He Hnd]. rewrite index_key_insert_ids. split.
  - unfold index_key_insert. rewrite lookup_insert. case_decide; [|done].
    destruct (m !! k) as [[]|]; done.
  - case_decide as Hk; [subst|done]. apply NoDup_app. split_and!; [done|set_solver|].
    apply NoDup_singleton.
Qed.

Lemma index_key_remove_ids m k tid k' :
  index_ids (index_key_remove m k tid) k' =
  if decide (k = k') then List.filter (fun i => negb (i =? tid)) (index_ids m k)
  else index_ids m k'.
Proof.
  unfold index_key_remove, index_ids. destruct (m !! k) as [ids|] eqn:E; cbn.
  - destruct (List.filter _ ids) eqn:Ef.
    + rewrite lookup_delete. by case_decide.
    + rewrite lookup_insert. by case_decide.
  - case_decide; [subst; by rewrite E|done].
Qed.

Lemma index_key_remove_shape m k tid : index_shape m -> index_shape (index_key_remove m k tid).
Proof.
  intros Hm k'. destruct (Hm k') as [He Hnd]. rewrite index_key_remove_ids. split.
  - unfold index_key_remove. destruct (m !! k) as [ids|] eqn:E; [|done].
    destruct (List.filter _ ids) eqn:Ef.
    + rewrite lookup_delete. by case_decide.
    + rewrite lookup_insert. by case_decide.
  - case_decide as Hk; [subst|done]. by apply NoDup_list_filter.
Qed.

Definition index_remove_all (m : gmap string (list Z)) (dropped : list (string * Z)) :=
  List.fold_left (fun m p => index_key_remove m p.1 p.2) dropped m.

Lemma index_remove_all_shape dropped m :
  index_shape m -> index_shape (index_remove_all m dropped).
Proof.
  revert m; induction dropped as [|[k i] l IH]; intros m Hm; cbn; [done|].
  apply IH. by apply index_key_remove_shape.
Qed.

Lemma index_remove_all_elem dropped m k i :
  i ∈ index_ids (index_remove_all m dropped) k <-> i ∈ index_ids m k /\ (k, i) ∉ dropped.
Proof.
  revert m; induction dropped as [|[k' i'] l IH]; intros m; cbn; [set_solver|].
  unfold index_remove_all in IH. rewrite IH, index_key_remove_ids, not_elem_of_cons.
  case_decide as Hk.
  - subst k'. rewrite list_elem_of_In, List.filter_In, <- list_elem_of_In.
    destruct (Z.eqb_spec i i') as [->|Hne]; cbn; naive_solver.
  - naive_solver.
Qed.

(** ** Store invariant *)

(** The log holds consecutive epochs ending at the current one. *)
Record log_ok (e : Z) (l : list (Z * Z)) : Prop := {
  log_epoch : is_u64 e;
  log_len : vec_len l <= CHANGE_LOG_CAP;
  log_start : vec_len l <= e;
  log_epochs : forall i p, l !! i = Some p -> p.1 = e - vec_len l + 1 + Z.of_nat i;
}.

Record wf (s : InMemoryTupleStore) : Prop := {
  wf_chains : map_Forall chain_ok (versions s);
  wf_index_shape : index_shape (key_to_tuple_ids s);
  wf_index : forall k tid,
    tid ∈ index_ids (key_to_tuple_ids s) k <-> versions s !! tid ≫= chain_key = Some k;
  wf_log : log_ok (epoch s) (recent_changes s);
}.

Lemma wf_new : wf new.
Proof.
  split; cbn.
  - apply map_Forall_empty.
  - intros k. unfold index_ids. rewrite lookup_empty. split; [done|constructor].
  - intros k tid. unfold index_ids. rewrite !lookup_empty. cbn. rewrite elem_of_nil. naive_solver.
  - split; cbn; [u64_unfold; lia|unfold vec_len, CHANGE_LOG_CAP; cbn; lia|done..].
Qed.

Lemma vec_len_snoc {A} (l : list A) x : vec_len (l ++ [x]) = vec_len l + 1.
Proof. unfold vec_len. rewrite length_app. cbn. lia. Qed.

(** What [record_change] does to the log: it appends the next epoch, and drops the
    oldest entry when the window is full. *)
Lemma record_change_log s tid :
  log_ok (epoch s) (recent_changes s) -> epoch s < u64_max ->
  let s' := record_change s tid in
  epoch s' = epoch s + 1 /\
  ((recent_changes s' = recent_changes s ++ [(epoch s + 1, tid)] /\
    vec_len (recent_changes s) < CHANGE_LOG_CAP) \/
   (exists q l, recent_changes s = q :: l /\ recent_changes s' = l ++ [(epoch s + 1, tid)] /\
    q.1 = epoch s - vec_len (recent_changes s) + 1)).
Proof.
  intros [He Hl Hst Hlog] Hlt. cbn. rewrite u64_add_small by (u64_unfold; lia).
  split; [done|]. rewrite vec_len_snoc.
  destruct (Z.ltb_spec CHANGE_LOG_CAP (vec_len (recent_changes s) + 1)) as [Hc|Hc].
  - right. destruct (recent_changes s) as [|q l] eqn:El.
    { unfold vec_len, CHANGE_LOG_CAP in Hc. cbn in Hc. lia. }
    exists q, l. split_and!; [done..|]. rewrite (Hlog 0%nat q) by done. lia.
  - left. split; [done|lia].
Qed.

Lemma log_ok_record_change s tid :
  log_ok (epoch s) (recent_changes s) -> epoch s < u64_max ->
  log_ok (epoch (record_change s tid)) (recent_changes (record_change s tid)).
Proof.
  intros Hok Hlt. destruct (record_change_log s tid Hok Hlt) as [He' Hrc].
  destruct Hok as [He Hl Hst Hlog].
  destruct Hrc as [[Hrc Hc]|(q & l & Hq & Hrc & _)]; split; rewrite ?He', ?Hrc, ?vec_len_snoc.
  - u64_unfold. lia.
  - lia.
  - lia.
  - intros i p [Hp|[Hlen Hp]]%lookup_app_Some; [rewrite (Hlog i p Hp); lia|].
    destruct (i - length (recent_changes s))%nat eqn:Ei; cbn in Hp; [|done].
    simplify_eq. unfold vec_len. cbn. lia.
  - u64_unfold. lia.
  - rewrite Hq in Hl. unfold vec_len in *. cbn in *. lia.
  - rewrite Hq in Hst. unfold vec_len in *. cbn in *. lia.
  - rewrite Hq in Hlog, Hst. intros i p [Hp|[Hlen Hp]]%lookup_app_Some.
    + rewrite (Hlog (S i) p Hp). unfold vec_len. cbn. lia.
    + destruct (i - length l)%nat eqn:Ei; cbn in Hp; [|done].
      simplify_eq. unfold vec_len. cbn. lia.
Qed.

Lemma wf_record_change s tid : wf s -> epoch s < u64_max -> wf (record_change s tid).
Proof. intros [Hc Hsh Hi Hlog] Hlt. split; try done. by apply log_ok_record_change. Qed.

(** ** Operations *)

Inductive op :=
| Insert (t : NewTuple) (txn : Z)
| InsertReserved (t : NewTuple) (txn : Z)
| InsertWithId (tid : Z) (t : NewTuple) (txn : Z)
| InsertReservedWithId (tid : Z) (t : NewTuple) (txn : Z)
| Update (tid : Z) (new_value : string) (txn : Z)
| Delete (tid : Z) (txn : Z)
| Prune (safe_txn_id : Z)
| Clear.

Definition run (o : op) (s : InMemoryTupleStore) : InMemoryTupleStore :=
  match o with
  | Insert t txn => (tuple_insert s t txn).1
  | InsertReserved t txn => (tuple_insert_reserved_key s t txn).1
  | InsertWithId tid t txn => (tuple_insert_with_id s tid t txn).1
  | InsertReservedWithId tid t txn => (tuple_insert_reserved_key_with_id s tid t txn).1
  | Update tid val txn => (tuple_update s tid val txn).1
  | Delete tid txn => (tuple_delete s tid txn).1
  | Prune safe => (prune_versions_deleted_at_or_before s safe).1
  | Clear => clear_versions_preserving_allocator s
  end.

(** A writer does not replace a version created by a later transaction. *)
Definition in_time (s : InMemoryTupleStore) (tid txn : Z) : Prop :=
  forall ch v, versions s !! tid = Some ch -> v ∈ ch -> is_live v = true -> created_by v <= txn.

(** What the callers of a store promise, and the code does not check: the [u64] counters are not
    exhausted; an insert under the store's own next id finds it free, which holds as long as
    caller-supplied ids are not mixed with the store's; and writers are in time. *)
Definition guard (o : op) (s : InMemoryTupleStore) : Prop :=
  epoch s < u64_max /\
  match o with
  | Insert _ _ | InsertReserved _ _ =>
      next_tuple_id s < u64_max /\ versions s !! next_tuple_id s = None
  | Update tid _ txn | Delete tid txn => in_time s tid txn
  | _ => True
  end.

Lemma wf_set_next s n :
  wf s -> wf (mkStore n (versions s) (key_to_tuple_ids s) (epoch s) (recent_changes s)).
Proof. intros []. by split. Qed.

Lemma wf_insert_chain s tid t txn :
  wf s -> versions s !! tid = None -> epoch s < u64_max -> wf (insert_chain s tid t txn).
Proof.
  intros [Hc Hsh Hi Hlog] Hf Hlt. apply wf_record_change; [|done].
  assert (forall k, tid ∉ index_ids (key_to_tuple_ids s) k) as Hnone.
  { intros k. rewrite Hi, Hf. done. }
  split; cbn; try done.
  - apply map_Forall_insert_2; [|done]. split; cbn.
    + done.
    + by repeat constructor.
    + by repeat constructor.
    + split; [|by repeat constructor]. repeat constructor. by intros d.
  - by apply index_key_insert_shape.
  - intros k i. rewrite index_key_insert_ids, lookup_insert.
    destruct (decide (tid = i)) as [->|Hne].
    + cbn. case_decide as Hk.
      * subst k. set_solver.
      * split; [|naive_solver]. intros Hin. by destruct (Hnone k).
    + rewrite <- Hi. case_decide as Hk; [subst k|done]. set_solver.
Qed.

(** Replace one chain by another with the same id and row key. *)
Lemma wf_replace_chain s tid ch ch' :
  wf s -> versions s !! tid = Some ch -> chain_ok tid ch' -> chain_key ch' = chain_key ch ->
  wf (mkStore (next_tuple_id s) (<[tid := ch']> (versions s)) (key_to_tuple_ids s)
        (epoch s) (recent_changes s)).
Proof.
  intros [Hc Hsh Hi Hlog] Hch Hok Hk. split; cbn; try done.
  - by apply map_Forall_insert_2.
  - intros k i. rewrite Hi, lookup_insert. case_decide; [subst|done]. by rewrite Hch; cbn; rewrite Hk.
Qed.

(** The branches of [tuple_update] and [tuple_delete] under the chain invariant. *)
Lemma delete_current_version_wf s tid txn :
  wf s ->
  match delete_current_version s tid txn with
  | Some (s', cur) => exists older v,
      versions s !! tid = Some (older ++ [v]) /\ is_live v = true /\
      cur = mark_deleted txn v /\ tuple_id v = tid /\
      s' = mkStore (next_tuple_id s) (<[tid := older ++ [mark_deleted txn v]]> (versions s))
             (key_to_tuple_ids s) (epoch s) (recent_changes s)
  | None => forall ch v, versions s !! tid = Some ch -> v ∈ ch -> is_live v = false
  end.
Proof.
  intros Hwf. pose proof (delete_current_version_spec s tid txn) as H.
  destruct (delete_current_version s tid txn) as [[s' cur]|].
  - destruct H as (older & v & newer & Hch & Hv & Hn & -> & ->).
    pose proof (wf_chains _ Hwf _ _ Hch) as [_ Hids _ Ht].
    pose proof (chain_time_live_last _ _ _ Ht Hv) as ->.
    exists older, v. split_and!; try done. rewrite Forall_forall in Hids. apply Hids. set_solver.
  - intros ch v Hch Hv. rewrite Hch in H. rewrite Forall_forall in H. auto.
Qed.

Definition updated_chain (older : list TupleVersion) (v : TupleVersion) (val : string) (txn : Z) :=
  older ++ [mark_deleted txn v; mkVersion (tuple_id v) (key v) val txn None].

Lemma tuple_update_wf s tid val txn :
  wf s -> txn <> 0 ->
  (exists older v,
     versions s !! tid = Some (older ++ [v]) /\ is_live v = true /\ tuple_id v = tid /\
     tuple_update s tid val txn =
       (record_change
          (mkStore (next_tuple_id s) (<[tid := updated_chain older v val txn]> (versions s))
             (key_to_tuple_ids s) (epoch s) (recent_changes s)) tid, Ok tt)) \/
  ((forall ch v, versions s !! tid = Some ch -> v ∈ ch -> is_live v = false) /\
   tuple_update s tid val txn = (s, Err NotFound)).
Proof.
  intros Hwf Htxn. unfold tuple_update.
  rewrite (proj2 (Z.eqb_neq txn 0)) by done.
  pose proof (delete_current_version_wf s tid txn Hwf) as H.
  destruct (delete_current_version s tid txn) as [[s' cur]|]; [left|by right].
  destruct H as (older & v & Hch & Hv & -> & Hid & ->). exists older, v.
  split_and!; try done. cbn. rewrite Hid, lookup_insert_eq, insert_insert_eq.
  unfold updated_chain. rewrite <- app_assoc, Hid. done.
Qed.

Lemma tuple_delete_wf s tid txn :
  wf s -> txn <> 0 ->
  (exists older v,
     versions s !! tid = Some (older ++ [v]) /\ is_live v = true /\ tuple_id v = tid /\
     tuple_delete s tid txn =
       (record_change
          (mkStore (next_tuple_id s) (<[tid := older ++ [mark_deleted txn v]]> (versions s))
             (key_to_tuple_ids s) (epoch s) (recent_changes s)) tid, Ok tt)) \/
  ((forall ch v, versions s !! tid = Some ch -> v ∈ ch -> is_live v = false) /\
   tuple_delete s tid txn = (s, Err NotFound)).
Proof.
  intros Hwf Htxn. unfold tuple_delete.
  rewrite (proj2 (Z.eqb_neq txn 0)) by done.
  pose proof (delete_current_version_wf s tid txn Hwf) as H.
  destruct (delete_current_version s tid txn) as [[s' cur]|]; [left|by right].
  destruct H as (older & v & Hch & Hv & -> & Hid & ->). by exists older, v.
Qed.

Lemma chain_key_app_cons older v w newer :
  key w = key v -> chain_key (older ++ w :: newer) = chain_key (older ++ [v]).
Proof. intros Hk. destruct older; cbn; [by rewrite Hk|done]. Qed.

Lemma chain_ok_mark tid older v txn :
  chain_ok tid (older ++ [v]) -> created_by v <= txn ->
  chain_ok tid (older ++ [mark_deleted txn v]).
Proof.
  intros [_ Hi Hk Ht] Hle. apply Forall_app in Hi as [Hi1 Hi2]. apply Forall_app in Hk as [Hk1 Hk2].
  inversion Hi2; inversion Hk2; subst. split.
  - by destruct older.
  - apply Forall_app. split; [done|]. by repeat constructor.
  - rewrite (chain_key_app_cons older v) by done.
    apply Forall_app. split; [done|]. by repeat constructor.
  - by apply chain_time_mark.
Qed.

Lemma chain_ok_update tid older v val txn :
  chain_ok tid (older ++ [v]) -> created_by v <= txn ->
  chain_ok tid (updated_chain older v val txn).
Proof.
  intros Hok Hle. pose proof (chain_ok_mark tid older v txn Hok Hle) as [_ Hi Hk _].
  pose proof Hok as [_ _ _ Ht]. unfold updated_chain.
  change [mark_deleted txn v; ?w] with ([mark_deleted txn v] ++ [w]).
  rewrite (chain_key_app_cons older v) in Hk by done.
  apply Forall_app in Hi as [Hi1 Hi2]. apply Forall_app in Hk as [Hk1 Hk2].
  inversion Hi2; inversion Hk2; subst; cbn in *. split.
  - by destruct older.
  - apply Forall_app. split; [done|]. by repeat constructor.
  - rewrite (chain_key_app_cons older v) by done.
    apply Forall_app. split; [done|]. by repeat constructor.
  - by apply chain_time_push.
Qed.

Lemma elem_of_pruned_chains safe m k i :
  (k, i) ∈ pruned_chains safe m <->
  exists ch, m !! i = Some ch /\ prune_chain safe ch = None /\ chain_key ch = Some k.
Proof.
  unfold pruned_chains. rewrite list_elem_of_omap. split.
  - intros ([j ch] & Hin%elem_of_ord_iter & Hp); cbn in *. exists ch.
    destruct (prune_chain safe ch); [done|]. destruct ch as [|v ch]; [done|].
    simplify_eq/=. done.
  - intros (ch & Hch & Hp & Hk). exists (i, ch). rewrite elem_of_ord_iter. split; [done|].
    cbn. rewrite Hp. destruct ch; cbn in Hk; by simplify_eq.
Qed.

Lemma wf_prune s safe : wf s -> wf (prune_versions_deleted_at_or_before s safe).1.
Proof.
  intros [Hc Hsh Hi Hlog]. unfold prune_versions_deleted_at_or_before; cbn.
  fold (index_remove_all (key_to_tuple_ids s) (pruned_chains safe (versions s))).
  split; cbn; try done.
  - intros i ch. rewrite map_lookup_imap. destruct (versions s !! i) as [ch0|] eqn:E; cbn; [|done].
    intros Hp. by apply (prune_chain_ok safe i ch0 ch (Hc _ _ E)).
  - by apply index_remove_all_shape.
  - intros k i. rewrite index_remove_all_elem, Hi, elem_of_pruned_chains, map_lookup_imap.
    destruct (versions s !! i) as [ch|] eqn:E; cbn; [|naive_solver].
    destruct (prune_chain safe ch) as [ch'|] eqn:Hp; cbn.
    + destruct (prune_chain_ok safe i ch ch' (Hc _ _ E) Hp) as [_ ->]. naive_solver.
    + naive_solver.
Qed.

Lemma wf_clear s : wf s -> epoch s < u64_max -> wf (clear_versions_preserving_allocator s).
Proof.
  intros [Hc Hsh Hi Hlog] Hlt. split; cbn.
  - apply map_Forall_empty.
  - intros k. unfold index_ids. rewrite lookup_empty. split; [done|constructor].
  - intros k i. unfold index_ids. rewrite !lookup_empty. cbn. rewrite elem_of_nil. naive_solver.
  - split; cbn; [apply u64_add_is_u64|unfold vec_len, CHANGE_LOG_CAP; cbn; lia| |done].
    unfold vec_len; cbn. apply u64_add_is_u64.
Qed.

Lemma wf_run o s : wf s -> guard o s -> wf (run o s).
Proof.
  intros Hwf [He Hg].
  assert (forall t txn, next_tuple_id s < u64_max /\ versions s !! next_tuple_id s = None ->
    wf (tuple_insert_reserved_key s t txn).1) as Hres.
  { intros t txn [_ Hf]. unfold tuple_insert_reserved_key. destruct (txn =? 0); [done|].
    apply wf_insert_chain; [by apply wf_set_next|done..]. }
  assert (forall tid t txn, wf (tuple_insert_reserved_key_with_id s tid t txn).1) as Hresid.
  { intros tid t txn. unfold tuple_insert_reserved_key_with_id. destruct (txn =? 0); [done|].
    destruct (versions s !! tid) eqn:E; [done|]. by apply wf_insert_chain. }
  destruct o as [t txn|t txn|tid t txn|tid t txn|tid val txn|tid txn|safe|]; cbn.
  - unfold tuple_insert. destruct (txn =? 0); [done|]. destruct (key_exists _ _); auto.
  - auto.
  - unfold tuple_insert_with_id. destruct (txn =? 0); [done|]. destruct (key_exists _ _); auto.
  - auto.
  - destruct (decide (txn = 0)) as [->|Htxn]; [done|].
    destruct (tuple_update_wf s tid val txn Hwf Htxn)
      as [(older & v & Hch & Hv & Hid & ->)|[_ ->]]; [|done].
    apply wf_record_change; [|done]. pose proof (wf_chains _ Hwf _ _ Hch) as Hok.
    eapply wf_replace_chain; [done..| |].
    + apply chain_ok_update; [done|]. eapply Hg; [done| |done]. set_solver.
    + by apply chain_key_app_cons.
  - destruct (decide (txn = 0)) as [->|Htxn]; [done|].
    destruct (tuple_delete_wf s tid txn Hwf Htxn)
      as [(older & v & Hch & Hv & Hid & ->)|[_ ->]]; [|done].
    apply wf_record_change; [|done]. pose proof (wf_chains _ Hwf _ _ Hch) as Hok.
    eapply wf_replace_chain; [done..| |].
    + apply chain_ok_mark; [done|]. eapply Hg; [done| |done]. set_solver.
    + by apply chain_key_app_cons.
  - by apply wf_prune.
  - by apply wf_clear.
Qed.

Inductive reachable : InMemoryTupleStore -> Prop :=
| reachable_new : reachable new
| reachable_run o s : reachable s -> guard o s -> reachable (run o s).

Lemma reachable_wf s : reachable s -> wf s.
Proof. induction 1; [apply wf_new|by apply wf_run]. Qed.

(** ** The timeline a store denotes

    [timeline s r] is the table a snapshot at [r] reads: tuple id to (row key, value). *)

Definition payload (v : TupleVersion) : string * string := (key v, value v).

Definition timeline (s : InMemoryTupleStore) (r : Z) : gmap Z (string * string) :=
  map_imap (fun _ ch => payload <$> newest_visible (mkVis r) ch) (versions s).

Lemma timeline_lookup s r tid :
  timeline s r !! tid = versions s !! tid ≫= fun ch => payload <$> newest_visible (mkVis r) ch.
Proof. unfold timeline. by rewrite map_lookup_imap. Qed.

(** Marking the live version deleted at [txn] is invisible below [txn]. *)
Lemma newest_visible_mark_below older v txn r :
  is_live v = true -> r < txn ->
  row <$> newest_visible (mkVis r) (older ++ [mark_deleted txn v]) =
  row <$> newest_visible (mkVis r) (older ++ [v]).
Proof.
  intros Hv Hr. apply newest_visible_rows. apply Forall2_app.
  - apply Forall2_same_length_lookup_2; [done|]. intros i x y Hx Hy. by simplify_eq.
  - repeat constructor. unfold is_live in Hv. destruct (deleted_by v) eqn:Hd; [done|].
    unfold is_visible. cbn. rewrite Hd. cbn. destruct (created_by v <=? r); cbn; [|done].
    by apply Z.ltb_lt.
Qed.

Lemma newest_visible_update_below older v val txn r :
  is_live v = true -> r < txn ->
  row <$> newest_visible (mkVis r) (updated_chain older v val txn) =
  row <$> newest_visible (mkVis r) (older ++ [v]).
Proof.
  intros Hv Hr. unfold updated_chain.
  change [mark_deleted txn v; ?w] with ([mark_deleted txn v] ++ [w]). rewrite app_assoc.
  unfold newest_visible at 1. rewrite find_rev_snoc. unfold is_visible at 1. cbn.
  rewrite (proj2 (Z.leb_gt txn r)) by lia. cbn. by apply newest_visible_mark_below.
Qed.

Lemma newest_visible_update_above older v val txn r :
  txn <= r ->
  newest_visible (mkVis r) (updated_chain older v val txn) =
  Some (mkVersion (tuple_id v) (key v) val txn None).
Proof.
  intros Hr. unfold updated_chain.
  change [mark_deleted txn v; ?w] with ([mark_deleted txn v] ++ [w]). rewrite app_assoc.
  unfold newest_visible. rewrite find_rev_snoc. unfold is_visible at 1. cbn.
  by rewrite (proj2 (Z.leb_le txn r)).
Qed.

(** From the deletion and the creation on, nothing of the tuple is left to see. *)
Lemma newest_visible_mark_above older v txn r :
  chain_time (older ++ [v]) -> Z.max txn (created_by v) <= r ->
  newest_visible (mkVis r) (older ++ [mark_deleted txn v]) = None.
Proof.
  intros [_ [_ Hf]%StronglySorted_snoc_inv] Hr. apply find_rev_None.
  intros w [Hw| ->%list_elem_of_singleton]%elem_of_app.
  - rewrite Forall_forall in Hf. destruct (Hf w Hw) as (d & Hd & Hle).
    unfold is_visible. rewrite Hd. cbn. lia.
  - unfold is_visible. cbn. lia.
Qed.

(** Before its creation a version is not seen, deleted or not. *)
Lemma newest_visible_mark_early older v txn r :
  r < created_by v ->
  newest_visible (mkVis r) (older ++ [mark_deleted txn v]) = newest_visible (mkVis r) (older ++ [v]).
Proof.
  intros Hr. unfold newest_visible. rewrite !find_rev_snoc. unfold is_visible at 1 3. cbn.
  by rewrite (proj2 (Z.leb_gt (created_by v) r)) by lia.
Qed.

Lemma payload_of_rows (o1 o2 : option TupleVersion) : row <$> o1 = row <$> o2 -> payload <$> o1 = payload <$> o2.
Proof. destruct o1, o2; cbn; intros; simplify_eq; unfold payload; congruence. Qed.

(** A write at [txn] rewrites the timeline from [txn] on and nothing before it. *)
Definition put (txn tid : Z) (p : string * string) (T : Z -> gmap Z (string * string)) (r : Z) :=
  if r <? txn then T r else <[tid := p]> (T r).

Definition drop_row (txn tid : Z) (T : Z -> gmap Z (string * string)) (r : Z) :=
  if r <? txn then T r else delete tid (T r).

Lemma timeline_versions s s' r : versions s = versions s' -> timeline s r = timeline s' r.
Proof. unfold timeline. by intros ->. Qed.

(** The timeline without any trace of a tuple. *)
Definition forget (tid : Z) (T : Z -> gmap Z (string * string)) (r : Z) : gmap Z (string * string) :=
  delete tid (T r).

(** A new chain replaces whatever was stored under the id. *)
Lemma insert_chain_timeline s tid t txn r :
  timeline (insert_chain s tid t txn) r =
  put txn tid (new_key t, new_value t) (forget tid (timeline s)) r.
Proof.
  apply map_eq. intros i. rewrite timeline_lookup. unfold put, forget; cbn.
  rewrite lookup_insert. case_decide as Hi; [subst i|].
  - cbn. unfold newest_visible, find_rev. cbn. unfold is_visible. cbn.
    destruct (Z.ltb_spec r txn), (Z.leb_spec txn r); try lia; cbn.
    + by rewrite lookup_delete_eq.
    + by rewrite lookup_insert_eq.
  - rewrite <- timeline_lookup. destruct (r <? txn); rewrite ?lookup_insert_ne, lookup_delete_ne by done; done.
Qed.

Lemma forget_unused s tid r : versions s !! tid = None -> forget tid (timeline s) r = timeline s r.
Proof. intros Hf. apply delete_id. by rewrite timeline_lookup, Hf. Qed.

(** A row key some live version carries. *)
Definition live_key (s : InMemoryTupleStore) (k : string) : Prop :=
  exists tid ch v, versions s !! tid = Some ch /\ v ∈ ch /\ is_live v = true /\ key v = k.

Lemma key_exists_live s k : wf s -> key_exists s k = true <-> live_key s k.
Proof.
  intros Hwf. unfold key_exists. rewrite List.existsb_exists. split.
  - intros ([i ch] & Hin & Hk). apply list_elem_of_In, elem_of_ord_iter in Hin.
    cbn [fst snd] in *. destruct (find_rev is_live ch) as [v|] eqn:Hf; [|done].
    apply find_rev_Some in Hf as [Hv Hl]. apply bool_decide_eq_true in Hk. exists i, ch, v. auto.
  - intros (i & ch & v & Hch & Hv & Hl & Hk). exists (i, ch).
    rewrite <- list_elem_of_In, elem_of_ord_iter. split; [done|].
    cbn [fst snd]. destruct (find_rev is_live ch) as [w|] eqn:Hf.
    + apply find_rev_Some in Hf as [Hw _]. pose proof (wf_chains _ Hwf _ _ Hch) as Hok.
      apply bool_decide_eq_true. pose proof (chain_key_elem i ch v Hok Hv).
      pose proof (chain_key_elem i ch w Hok Hw). congruence.
    + rewrite find_rev_None in Hf. specialize (Hf v Hv). congruence.
Qed.

Definition inserted (s : InMemoryTupleStore) (t : NewTuple) (txn tid : Z)
    (out : InMemoryTupleStore * result Z StorageError) : Prop :=
  out.2 = Ok tid /\
  forall r, timeline out.1 r = put txn tid (new_key t, new_value t) (timeline s) r.

(** The row is there from [txn] on, and the tuple that had the id is gone from every snapshot. *)
Definition overwrites (s : InMemoryTupleStore) (t : NewTuple) (txn tid : Z)
    (out : InMemoryTupleStore * result Z StorageError) : Prop :=
  out.2 = Ok tid /\
  forall r, timeline out.1 r = put txn tid (new_key t, new_value t) (forget tid (timeline s)) r.

Lemma overwrites_unused s t txn tid out :
  versions s !! tid = None -> overwrites s t txn tid out -> inserted s t txn tid out.
Proof.
  intros Hf [Ho Ht]. split; [done|]. intros r. rewrite Ht. unfold put. by rewrite forget_unused.
Qed.

Lemma reserved_overwrites s t txn :
  txn <> 0 -> overwrites s t txn (next_tuple_id s) (tuple_insert_reserved_key s t txn).
Proof.
  intros Htxn. unfold tuple_insert_reserved_key. rewrite (proj2 (Z.eqb_neq txn 0)) by done.
  split; [done|]. intros r. cbn [fst]. by rewrite insert_chain_timeline.
Qed.

Lemma reserved_inserted s t txn :
  txn <> 0 -> versions s !! next_tuple_id s = None ->
  inserted s t txn (next_tuple_id s) (tuple_insert_reserved_key s t txn).
Proof. intros Htxn Hf. apply overwrites_unused; [done|]. by apply reserved_overwrites. Qed.

Lemma reserved_with_id_inserted s tid t txn :
  txn <> 0 -> versions s !! tid = None ->
  inserted s t txn tid (tuple_insert_reserved_key_with_id s tid t txn).
Proof.
  intros Htxn Hf. apply overwrites_unused; [done|]. unfold tuple_insert_reserved_key_with_id.
  rewrite (proj2 (Z.eqb_neq txn 0)) by done. rewrite Hf.
  split; [done|]. intros r. cbn [fst]. apply insert_chain_timeline.
Qed.

Lemma tuple_update_timeline s tid val txn older v r :
  versions s !! tid = Some (older ++ [v]) -> is_live v = true ->
  timeline (record_change
     (mkStore (next_tuple_id s) (<[tid := updated_chain older v val txn]> (versions s))
        (key_to_tuple_ids s) (epoch s) (recent_changes s)) tid) r =
  put txn tid (key v, val) (timeline s) r.
Proof.
  intros Hch Hv. apply map_eq. intros i. rewrite timeline_lookup. unfold put; cbn.
  rewrite lookup_insert. case_decide as Hi; [subst i|].
  - cbn. destruct (Z.ltb_spec r txn).
    + rewrite timeline_lookup, Hch. cbn.
      by apply payload_of_rows, newest_visible_update_below.
    + rewrite newest_visible_update_above by lia. by rewrite lookup_insert_eq.
  - rewrite <- timeline_lookup. destruct (r <? txn); [done|]. by rewrite lookup_insert_ne.
Qed.

(** The delete takes effect from [txn] on, or from the creation of the version when that is later. *)
Lemma tuple_delete_timeline s tid txn older v r :
  versions s !! tid = Some (older ++ [v]) -> is_live v = true -> chain_time (older ++ [v]) ->
  timeline (record_change
     (mkStore (next_tuple_id s) (<[tid := older ++ [mark_deleted txn v]]> (versions s))
        (key_to_tuple_ids s) (epoch s) (recent_changes s)) tid) r =
  drop_row (Z.max txn (created_by v)) tid (timeline s) r.
Proof.
  intros Hch Hv Ht. apply map_eq. intros i. rewrite timeline_lookup. unfold drop_row; cbn.
  rewrite lookup_insert. case_decide as Hi; [subst i|].
  - cbn. destruct (Z.ltb_spec r (Z.max txn (created_by v))).
    + rewrite timeline_lookup, Hch. cbn. destruct (Z.lt_ge_cases r txn).
      * by apply payload_of_rows, newest_visible_mark_below.
      * by rewrite newest_visible_mark_early by lia.
    + rewrite newest_visible_mark_above by (done || lia). by rewrite lookup_delete_eq.
  - rewrite <- timeline_lookup. destruct (r <? _); [done|]. by rewrite lookup_delete_ne.
Qed.

Lemma prune_timeline s safe r :
  safe <= r -> timeline (prune_versions_deleted_at_or_before s safe).1 r = timeline s r.
Proof.
  intros Hr. apply map_eq. intros i. rewrite !timeline_lookup. cbn.
  rewrite map_lookup_imap. destruct (versions s !! i) as [ch|]; cbn; [|done].
  rewrite <- (prune_chain_visible safe ch r Hr).
  by destruct (prune_chain safe ch).
Qed.

(** Operations that a snapshot at [r] must not notice. *)
Definition invisible_to (r : Z) (o : op) : Prop :=
  match o with
  | Insert _ txn | InsertReserved _ txn | InsertWithId _ _ txn
  | InsertReservedWithId _ _ txn | Update _ _ txn | Delete _ txn => r < txn
  | Prune safe => safe <= r
  | Clear => False
  end.

Lemma put_below txn tid p T r : r < txn -> put txn tid p T r = T r.
Proof. intros. unfold put. by rewrite (proj2 (Z.ltb_lt r txn)). Qed.

Lemma run_timeline_below o s r :
  wf s -> guard o s -> invisible_to r o -> timeline (run o s) r = timeline s r.
Proof.
  intros Hwf [_ Hg] Hr.
  assert (forall t txn, r < txn -> versions s !! next_tuple_id s = None ->
    timeline (tuple_insert_reserved_key s t txn).1 r = timeline s r) as Hres.
  { intros t txn Hlt Hf. destruct (decide (txn = 0)) as [->|Htxn]; [done|].
    destruct (reserved_inserted s t txn Htxn Hf) as [_ ->]. by apply put_below. }
  assert (forall tid t txn, r < txn ->
    timeline (tuple_insert_reserved_key_with_id s tid t txn).1 r = timeline s r) as Hresid.
  { intros tid t txn Hlt. destruct (decide (txn = 0)) as [->|Htxn]; [done|].
    destruct (versions s !! tid) eqn:Hf.
    - unfold tuple_insert_reserved_key_with_id. rewrite Hf. by destruct (txn =? 0).
    - destruct (reserved_with_id_inserted s tid t txn Htxn Hf) as [_ ->]. by apply put_below. }
  destruct o as [t txn|t txn|tid t txn|tid t txn|tid val txn|tid txn|safe|]; cbn [run invisible_to] in *.
  - unfold tuple_insert. destruct (txn =? 0); [done|]. destruct (key_exists _ _); [done|].
    apply Hres; naive_solver.
  - apply Hres; naive_solver.
  - unfold tuple_insert_with_id. destruct (txn =? 0); [done|]. destruct (key_exists _ _); [done|].
    by apply Hresid.
  - by apply Hresid.
  - destruct (decide (txn = 0)) as [->|Htxn]; [done|].
    destruct (tuple_update_wf s tid val txn Hwf Htxn) as [(older & v & Hch & Hv & _ & ->)|[_ ->]];
      [|done]. cbn [fst]. rewrite (tuple_update_timeline s tid val txn older v) by done.
    by apply put_below.
  - destruct (decide (txn = 0)) as [->|Htxn]; [done|].
    destruct (tuple_delete_wf s tid txn Hwf Htxn) as [(older & v & Hch & Hv & _ & ->)|[_ ->]];
      [|done]. cbn [fst]. rewrite (tuple_delete_timeline s tid txn older v); try done.
    + unfold drop_row. by rewrite (proj2 (Z.ltb_lt r _)) by lia.
    + apply (wf_chains _ Hwf _ _ Hch).
  - by apply prune_timeline.
  - done.
Qed.

(** ** Reads *)

Definition numbered (v : TupleVersion) : Z * (string * string) := (tuple_id v, payload v).

Lemma scan_numbered s r :
  wf s ->
  numbered <$> omap (fun p : Z * list TupleVersion => newest_visible (mkVis r) p.2)
                 (ord_iter (versions s)) = ord_iter (timeline s r).
Proof.
  intros Hwf. unfold timeline. rewrite ord_iter_map_imap.
  assert (forall i ch, (i, ch) ∈ ord_iter (versions s) -> chain_ok i ch) as Hok.
  { intros i ch Hin%elem_of_ord_iter. by apply (wf_chains _ Hwf). }
  induction (ord_iter (versions s)) as [|[i ch] l IH]; [done|].
  assert (numbered <$> omap (fun p : Z * list TupleVersion => newest_visible (mkVis r) p.2) l =
    omap (fun p : Z * list TupleVersion =>
      (p.1,.) <$> (payload <$> newest_visible (mkVis r) p.2)) l) as Htl.
  { apply IH. intros. apply Hok. by right. }
  cbn [omap list_omap fst snd]. destruct (newest_visible (mkVis r) ch) as [v|] eqn:E; [|exact Htl].
  cbn. f_equal; [|exact Htl]. unfold numbered. f_equal.
  apply find_rev_Some in E as [Hv _]. destruct (Hok i ch) as [_ Hids _ _]; [left|].
  rewrite Forall_forall in Hids. by apply Hids.
Qed.

Lemma Zlt_sorted_unique (l1 l2 : list Z) :
  StronglySorted Z.lt l1 -> StronglySorted Z.lt l2 -> (forall x, x ∈ l1 <-> x ∈ l2) -> l1 = l2.
Proof.
  intros H1 H2 Heq.
  assert ((fun x => (x, tt)) <$> l1 = (fun x => (x, tt)) <$> l2) as H.
  { assert (forall l, StronglySorted Z.lt l -> StronglySorted key_lt ((fun x => (x, tt)) <$> l)) as Hs.
    { induction 1 as [|x l Hs IH Hf]; csimpl; constructor; [done|]. by apply Forall_fmap. }
    apply key_sorted_unique; [by apply Hs..|]. intros p. rewrite !list_elem_of_fmap.
    split; intros (x & -> & Hx); exists x; (split; [done|]); by apply Heq. }
  apply (f_equal (fmap fst)) in H. rewrite <- !list_fmap_compose in H.
  assert (forall l : list Z, fst ∘ (fun x => (x, tt)) <$> l = l) as Hid.
  { intros l. apply list_fmap_id. }
  by rewrite !Hid in H.
Qed.

(** The ids of the chains with row key [k], in id order. *)
Definition ids_with_key (s : InMemoryTupleStore) (k : string) : list Z :=
  (List.filter (fun p : Z * list TupleVersion => bool_decide (chain_key p.2 = Some k))
     (ord_iter (versions s))).*1.

Lemma elem_of_ids_with_key s k tid :
  tid ∈ ids_with_key s k <-> versions s !! tid ≫= chain_key = Some k.
Proof.
  unfold ids_with_key. rewrite list_elem_of_fmap. split.
  - intros ([i ch] & -> & Hin). apply list_elem_of_In, List.filter_In in Hin as [Hin Hk].
    apply list_elem_of_In, elem_of_ord_iter in Hin. cbn [fst snd] in *.
    apply bool_decide_eq_true in Hk. by rewrite Hin.
  - destruct (versions s !! tid) as [ch|] eqn:E; cbn; [|done]. intros Hk. exists (tid, ch).
    split; [done|]. apply list_elem_of_In, List.filter_In. split.
    + by apply list_elem_of_In, elem_of_ord_iter.
    + by apply bool_decide_eq_true.
Qed.

Lemma ids_with_key_sorted s k : StronglySorted Z.lt (ids_with_key s k).
Proof.
  unfold ids_with_key. pose proof (ord_iter_sorted (versions s)) as Hs.
  apply (StronglySorted_filter _ (fun p => bool_decide (chain_key p.2 = Some k))) in Hs.
  induction Hs as [|p l Hs IH Hf]; csimpl; constructor; [done|].
  apply Forall_fmap. done.
Qed.

(** The lookup the index does for one candidate id. *)
Definition candidate (s : InMemoryTupleStore) (k : string) (vis : Visibility) (tid : Z) :=
  versions s !! tid ≫=
    find_rev (fun version => is_visible version vis && bool_decide (key version = k)).

Lemma candidate_chain s k vis tid ch :
  wf s -> versions s !! tid = Some ch ->
  candidate s k vis tid =
  if bool_decide (chain_key ch = Some k) then newest_visible vis ch else None.
Proof.
  intros Hwf Hch. unfold candidate. rewrite Hch. cbn [mbind option_bind].
  pose proof (wf_chains _ Hwf _ _ Hch) as Hok. case_bool_decide as Hk.
  - apply find_rev_ext. intros v Hv. rewrite (chain_key_elem tid ch v Hok Hv) in Hk.
    rewrite bool_decide_eq_true_2 by congruence. by rewrite andb_true_r.
  - apply find_rev_None. intros v Hv. rewrite (chain_key_elem tid ch v Hok Hv) in Hk.
    rewrite bool_decide_eq_false_2 by congruence. by rewrite andb_false_r.
Qed.

Lemma index_lookup_candidates s k vis :
  read_txn_id vis <> 0 ->
  index_lookup s k vis = Ok (omap (candidate s k vis) (index_ids (key_to_tuple_ids s) k)).
Proof.
  intros Hv. unfold index_lookup, validate_visibility. rewrite (proj2 (Z.eqb_neq _ _)) by done.
  unfold index_ids. by destruct (key_to_tuple_ids s !! k).
Qed.

Lemma filtered_scan_candidates s k vis :
  wf s ->
  List.filter (fun v => bool_decide (key v = k))
    (omap (fun p : Z * list TupleVersion => newest_visible vis p.2) (ord_iter (versions s))) =
  omap (candidate s k vis) (ids_with_key s k).
Proof.
  intros Hwf. unfold ids_with_key.
  assert (forall i ch, (i, ch) ∈ ord_iter (versions s) -> versions s !! i = Some ch) as Hl.
  { intros i ch Hin%elem_of_ord_iter. done. }
  induction (ord_iter (versions s)) as [|[i ch] l IH]; [done|].
  specialize (IH (fun j c H => Hl j c (list_elem_of_further _ _ _ H))).
  assert (versions s !! i = Some ch) as Hch by (apply Hl; left).
  pose proof (wf_chains _ Hwf _ _ Hch) as Hok.
  cbn [omap list_omap List.filter fst snd]. destruct (newest_visible vis ch) as [v|] eqn:E.
  - apply find_rev_Some in E as E'. destruct E' as [Hv _].
    cbn [List.filter]. rewrite (chain_key_elem i ch v Hok Hv).
    destruct (decide (key v = k)) as [Hk|Hk].
    + rewrite !bool_decide_eq_true_2 by congruence. cbn [fmap list_fmap omap list_omap fst].
      rewrite (candidate_chain s k vis i ch Hwf Hch), (chain_key_elem i ch v Hok Hv).
      rewrite bool_decide_eq_true_2 by congruence. rewrite E. f_equal. exact IH.
    + rewrite !bool_decide_eq_false_2 by congruence. exact IH.
  - destruct (bool_decide (chain_key ch = Some k)) eqn:Hk; [|exact IH].
    cbn [fmap list_fmap omap list_omap fst].
    rewrite (candidate_chain s k vis i ch Hwf Hch), Hk, E. exact IH.
Qed.

Lemma index_ids_Permutation s k :
  wf s -> index_ids (key_to_tuple_ids s) k ≡ₚ ids_with_key s k.
Proof.
  intros Hwf. apply NoDup_Permutation.
  - apply (wf_index_shape _ Hwf).
  - apply StronglySorted_lt_NoDup, ids_with_key_sorted.
  - intros i. by rewrite elem_of_ids_with_key, (wf_index _ Hwf).
Qed.

(** ** The change log *)

Section changed.
Context (ptr_eq : list TupleVersion -> list TupleVersion -> bool).

(** What the parallel walk reports for an id, from the two lookups. *)
Definition differs (o1 o2 : option (list TupleVersion)) : bool :=
  match o1, o2 with
  | Some a, Some b => negb (ptr_eq a b)
  | None, None => false
  | _, _ => true
  end.

Fixpoint assoc {A} (l : list (Z * A)) (k : Z) : option A :=
  match l with
  | [] => None
  | (k', x) :: l => if k =? k' then Some x else assoc l k
  end.

Lemma assoc_not_elem {A} (l : list (Z * A)) k : k ∉ l.*1 -> assoc l k = None.
Proof.
  induction l as [|[k' x] l IH]; csimpl; [done|]. rewrite not_elem_of_cons. intros [Hk Hl].
  rewrite (proj2 (Z.eqb_neq k k')) by done. auto.
Qed.

Lemma assoc_ord_iter {A} (m : gmap Z A) k : assoc (ord_iter m) k = m !! k.
Proof.
  assert (forall l : list (Z * A), NoDup l.*1 -> forall x, assoc l k = Some x <-> (k, x) ∈ l) as H.
  { induction l as [|[k' y] l IH]; csimpl; intros Hnd x; [set_solver|].
    apply NoDup_cons in Hnd as [Hk' Hnd]. rewrite elem_of_cons.
    destruct (Z.eqb_spec k k') as [->|Hne].
    - split; [naive_solver|]. intros [?|Hin]; [naive_solver|]. exfalso. apply Hk'.
      apply list_elem_of_fmap. by exists (k', x).
    - rewrite IH by done. naive_solver. }
  apply option_eq. intros x. rewrite H by apply ord_iter_NoDup_fst. apply elem_of_ord_iter.
Qed.

Lemma key_sorted_tail_ne {A} k x (l : list (Z * A)) :
  StronglySorted key_lt ((k, x) :: l) -> k ∉ l.*1.
Proof.
  inversion 1 as [|? ? _ Hf]; subst. intros (p & -> & Hp)%list_elem_of_fmap.
  rewrite Forall_forall in Hf. specialize (Hf p Hp). unfold key_lt in Hf. cbn in Hf. lia.
Qed.

Lemma key_sorted_head_below {A} k x (l : list (Z * A)) j :
  StronglySorted key_lt ((k, x) :: l) -> j < k -> assoc ((k, x) :: l) j = None.
Proof.
  intros Hs Hj. apply assoc_not_elem. csimpl. apply not_elem_of_cons. split; [lia|].
  intros (p & -> & Hp)%list_elem_of_fmap. inversion Hs as [|? ? _ Hf]; subst.
  rewrite Forall_forall in Hf. specialize (Hf p Hp). unfold key_lt in Hf. cbn in Hf. lia.
Qed.

Lemma walk_cons ka va a kb vb b :
  walk ptr_eq ((ka, va) :: a) ((kb, vb) :: b) =
  match Z.compare ka kb with
  | Eq => (if ptr_eq va vb then [] else [ka]) ++ walk ptr_eq a b
  | Lt => ka :: walk ptr_eq a ((kb, vb) :: b)
  | Gt => kb :: walk ptr_eq ((ka, va) :: a) b
  end.
Proof. done. Qed.

Lemma walk_spec a b k :
  StronglySorted key_lt a -> StronglySorted key_lt b ->
  k ∈ walk ptr_eq a b <-> differs (assoc a k) (assoc b k) = true.
Proof.
  revert b. induction a as [|[ka va] a IHa]; intros b Ha Hb.
  { induction b as [|[kb vb] b IHb]; cbn; [set_solver|].
    rewrite elem_of_cons. inversion Hb; subst. destruct (Z.eqb_spec k kb) as [->|Hne]; [naive_solver|].
    rewrite IHb by done. cbn. naive_solver. }
  assert (StronglySorted key_lt a) as Ha' by by inversion Ha.
  induction b as [|[kb vb] b IHb].
  { cbn. rewrite elem_of_cons, IHa by (done || constructor).
    destruct (Z.eqb_spec k ka) as [->|Hne]; cbn; naive_solver. }
  assert (StronglySorted key_lt b) as Hb' by by inversion Hb.
  rewrite walk_cons. destruct (Z.compare_spec ka kb) as [->|Hlt|Hgt].
  - rewrite elem_of_app, IHa by done. cbn [assoc].
    destruct (Z.eqb_spec k kb) as [->|Hne].
    + rewrite (assoc_not_elem a), (assoc_not_elem b) by (by eapply key_sorted_tail_ne).
      cbn. destruct (ptr_eq va vb); cbn; set_solver.
    + destruct (ptr_eq va vb); set_solver.
  - rewrite elem_of_cons, IHa by done. destruct (Z.eqb_spec k ka) as [->|Hne].
    + rewrite (key_sorted_head_below kb vb b ka) by done. cbn.
      rewrite Z.eqb_refl. cbn. naive_solver.
    + cbn [assoc]. rewrite (proj2 (Z.eqb_neq k ka)) by done. naive_solver.
  - rewrite elem_of_cons, IHb by done. destruct (Z.eqb_spec k kb) as [->|Hne].
    + rewrite (key_sorted_head_below ka va a kb) by done. cbn.
      rewrite Z.eqb_refl. cbn. naive_solver.
    + cbn [assoc]. rewrite (proj2 (Z.eqb_neq k kb)) by done. naive_solver.
Qed.

Lemma walk_above k a b :
  Forall (fun p => k < p.1) a -> Forall (fun p => k < p.1) b -> Forall (fun i => k < i) (walk ptr_eq a b).
Proof.
  revert b. induction a as [|[ka va] a IHa]; intros b Ha Hb.
  { induction b as [|[kb vb] b IHb]; cbn; inversion Hb; constructor; auto. }
  inversion Ha as [|? ? Hka Ha']; subst. induction b as [|[kb vb] b IHb].
  { cbn. constructor; auto. }
  inversion Hb as [|? ? Hkb Hb']; subst. rewrite walk_cons. destruct (Z.compare ka kb).
  - apply Forall_app. split; [destruct (ptr_eq va vb); by repeat constructor|auto].
  - constructor; auto.
  - constructor; auto.
Qed.

Lemma key_sorted_above k x (l : list (Z * list TupleVersion)) j :
  StronglySorted key_lt ((k, x) :: l) -> j <= k ->
  Forall (fun p => j < p.1) l.
Proof.
  intros Hs Hj. apply StronglySorted_inv in Hs as [_ Hs]. eapply Forall_impl; [exact Hs|].
  intros p Hp. unfold key_lt in Hp. cbn in Hp. lia.
Qed.

Lemma walk_sorted a b :
  StronglySorted key_lt a -> StronglySorted key_lt b -> StronglySorted Z.lt (walk ptr_eq a b).
Proof.
  revert b. induction a as [|[ka va] a IHa]; intros b Ha Hb.
  { induction b as [|[kb vb] b IHb]; cbn; constructor.
    - apply IHb. by inversion Hb.
    - apply (walk_above kb []); [constructor|]. by eapply key_sorted_above. }
  assert (StronglySorted key_lt a) as Ha' by by inversion Ha.
  induction b as [|[kb vb] b IHb].
  { cbn. constructor; [apply IHa; [done|constructor]|].
    apply walk_above; [by eapply key_sorted_above|constructor]. }
  assert (StronglySorted key_lt b) as Hb' by by inversion Hb.
  rewrite walk_cons. destruct (Z.compare_spec ka kb) as [->|Hlt|Hgt].
  - destruct (ptr_eq va vb); cbn; [by apply IHa|]. constructor; [by apply IHa|].
    apply walk_above; by eapply key_sorted_above.
  - constructor; [by apply IHa|]. apply walk_above; [by eapply key_sorted_above|].
    constructor; [done|]. eapply key_sorted_above; [exact Hb|lia].
  - constructor; [by apply IHb|]. apply walk_above; [|by eapply key_sorted_above].
    constructor; [done|]. eapply key_sorted_above; [exact Ha|lia].
Qed.

Lemma elem_of_dedup l k : k ∈ dedup l <-> k ∈ l.
Proof.
  induction l as [|x l IH]; [done|]. cbn. destruct l as [|y l]; [done|].
  destruct (Z.eqb_spec x y) as [->|Hne].
  - rewrite IH. set_solver.
  - rewrite (elem_of_cons _ k x), IH. by rewrite (elem_of_cons _ k x).
Qed.

Lemma dedup_sorted l : StronglySorted Z.le l -> StronglySorted Z.lt (dedup l).
Proof.
  induction 1 as [|x l Hs IH Hf]; [constructor|]. cbn. destruct l as [|y l]; [by repeat constructor|].
  destruct (Z.eqb_spec x y) as [->|Hne]; [done|]. constructor; [done|].
  apply Forall_forall. intros z Hz. apply (proj1 (elem_of_dedup _ _)) in Hz.
  rewrite Forall_forall in Hf. apply elem_of_cons in Hz as [->|Hz].
  - specialize (Hf y ltac:(left)). lia.
  - specialize (Hf y ltac:(left)). inversion Hs as [|? ? _ Hf']; subst.
    rewrite Forall_forall in Hf'. specialize (Hf' z Hz). lia.
Qed.

End changed.

(** [newer] descends from [older] by any operations whose prunes stay at or below the
    horizon [h]. *)
Definition horizon_ok (h : Z) (o : op) : Prop :=
  match o with Prune safe => safe <= h | _ => True end.

Inductive evolves (h : Z) (older : InMemoryTupleStore) : InMemoryTupleStore -> Prop :=
| evolves_refl : evolves h older older
| evolves_run o newer :
    evolves h older newer -> guard o newer -> horizon_ok h o -> evolves h older (run o newer).

Definition read_at (s : InMemoryTupleStore) (r tid : Z) : option TupleVersion :=
  versions s !! tid ≫= newest_visible (mkVis r).

(** The log of [newer] starts after [older]'s epoch: it cannot describe the delta. *)
Definition gap (older newer : InMemoryTupleStore) : Prop :=
  epoch older < epoch newer - vec_len (recent_changes newer).

Definition accounted (h : Z) (older newer : InMemoryTupleStore) (tid : Z) : Prop :=
  (forall r, h <= r -> read_at older r tid = read_at newer r tid) \/
  (exists e, epoch older < e /\ (e, tid) ∈ recent_changes newer) \/
  gap older newer.

Lemma accounted_record h older newer s1 tid id :
  log_ok (epoch s1) (recent_changes s1) -> epoch s1 < u64_max ->
  epoch s1 = epoch newer -> recent_changes s1 = recent_changes newer ->
  epoch older <= epoch newer ->
  (forall i, i <> tid -> versions s1 !! i = versions newer !! i) ->
  accounted h older newer id -> accounted h older (record_change s1 tid) id.
Proof.
  intros Hok Hlt He Hrc Hle Hv Hacc.
  destruct (record_change_log s1 tid Hok Hlt) as [He' Hlog].
  destruct (decide (id = tid)) as [->|Hne].
  { right; left. exists (epoch s1 + 1). split; [lia|].
    destruct Hlog as [[-> _]|(q & l & _ & -> & _)]; set_solver. }
  destruct Hacc as [Hr|[(e & Hlt' & Hin)|Hg]].
  - left. intros r Hh. rewrite Hr by done. unfold read_at. cbn. by rewrite Hv.
  - rewrite <- Hrc in Hin. destruct Hlog as [[Hl _]|(q & l & Hq & Hl & Hq1)].
    + right; left. exists e. rewrite Hl. set_solver.
    + rewrite Hq in Hin. apply elem_of_cons in Hin as [<-|Hin].
      * right; right. unfold gap. rewrite He', Hl, vec_len_snoc. rewrite Hq in Hq1.
        unfold vec_len in *. cbn in *. lia.
      * right; left. exists e. rewrite Hl. set_solver.
  - right; right. unfold gap in *. rewrite He'. rewrite <- Hrc, <- He in Hg.
    destruct Hlog as [[-> _]|(q & l & Hq & -> & _)]; [rewrite vec_len_snoc; lia|].
    rewrite Hq in Hg. rewrite vec_len_snoc. unfold vec_len in *. cbn in *. lia.
Qed.

(** Every operation other than [Prune] and [Clear] does nothing, or changes one chain and
    records its id. *)
Lemma run_effect o s :
  wf s -> guard o s ->
  match o with
  | Prune _ | Clear => True
  | _ => run o s = s \/
      exists s1 tid, run o s = record_change s1 tid /\
        epoch s1 = epoch s /\ recent_changes s1 = recent_changes s /\
        (forall i, i <> tid -> versions s1 !! i = versions s !! i)
  end.
Proof.
  intros Hwf [_ Hg].
  assert (forall t txn, (tuple_insert_reserved_key s t txn).1 = s \/
    exists s1 tid, (tuple_insert_reserved_key s t txn).1 = record_change s1 tid /\
      epoch s1 = epoch s /\ recent_changes s1 = recent_changes s /\
      (forall i, i <> tid -> versions s1 !! i = versions s !! i)) as Hres.
  { intros t txn. unfold tuple_insert_reserved_key. destruct (txn =? 0); [by left|right].
    eexists _, _. split; [done|]. cbn. split_and!; try done. intros i Hi. by rewrite lookup_insert_ne. }
  assert (forall tid t txn, (tuple_insert_reserved_key_with_id s tid t txn).1 = s \/
    exists s1 tid', (tuple_insert_reserved_key_with_id s tid t txn).1 = record_change s1 tid' /\
      epoch s1 = epoch s /\ recent_changes s1 = recent_changes s /\
      (forall i, i <> tid' -> versions s1 !! i = versions s !! i)) as Hresid.
  { intros tid t txn. unfold tuple_insert_reserved_key_with_id. destruct (txn =? 0); [by left|].
    destruct (versions s !! tid); [by left|right].
    eexists _, _. split; [done|]. cbn. split_and!; try done. intros i Hi. by rewrite lookup_insert_ne. }
  destruct o as [t txn|t txn|tid t txn|tid t txn|tid val txn|tid txn|safe|]; cbn [run]; try done.
  - unfold tuple_insert. destruct (txn =? 0); [by left|]. destruct (key_exists _ _); [by left|done].
  - unfold tuple_insert_with_id. destruct (txn =? 0); [by left|].
    destruct (key_exists _ _); [by left|done].
  - destruct (decide (txn = 0)) as [->|Htxn]; [by left|].
    destruct (tuple_update_wf s tid val txn Hwf Htxn) as [(older & v & Hch & Hv & _ & ->)|[_ ->]];
      [right|by left].
    eexists _, _. split; [done|]. cbn. split_and!; try done. intros i Hi. by rewrite lookup_insert_ne.
  - destruct (decide (txn = 0)) as [->|Htxn]; [by left|].
    destruct (tuple_delete_wf s tid txn Hwf Htxn) as [(older & v & Hch & Hv & _ & ->)|[_ ->]];
      [right|by left].
    eexists _, _. split; [done|]. cbn. split_and!; try done. intros i Hi. by rewrite lookup_insert_ne.
Qed.

Definition lineage (h : Z) (older newer : InMemoryTupleStore) : Prop :=
  wf newer /\ epoch older <= epoch newer /\ forall id, accounted h older newer id.

Lemma lineage_run h older newer o :
  lineage h older newer -> guard o newer -> horizon_ok h o -> lineage h older (run o newer).
Proof.
  intros (Hwf & Hle & Hacc) Hg Hh. pose proof (wf_run o newer Hwf Hg) as Hwf'.
  pose proof Hg as [Hlt _]. pose proof (wf_log _ Hwf) as [He Hl Hst Hlog].
  split; [done|]. pose proof (run_effect o newer Hwf Hg) as Heff.
  assert ((run o newer = newer \/
      exists s1 tid, run o newer = record_change s1 tid /\
        epoch s1 = epoch newer /\ recent_changes s1 = recent_changes newer /\
        (forall i, i <> tid -> versions s1 !! i = versions newer !! i)) ->
    epoch older <= epoch (run o newer) /\ forall id, accounted h older (run o newer) id) as Hrec.
  { intros [->|(s1 & tid & -> & He1 & Hrc1 & Hv)]; [done|].
    assert (log_ok (epoch s1) (recent_changes s1)) as Hok1 by by rewrite He1, Hrc1; split.
    split.
    - destruct (record_change_log s1 tid Hok1 ltac:(lia)) as (-> & _). lia.
    - intros id. eapply accounted_record; try done. lia. }
  destruct o as [t txn|t txn|tid t txn|tid t txn|tid val txn|tid txn|safe|]; try by apply Hrec.
  - split; [done|]. intros id. destruct (Hacc id) as [Hr|[Hin|Hgap]]; [left|by right; left|by right; right].
    intros r Hhr. rewrite Hr by done. unfold read_at. cbn. rewrite map_lookup_imap.
    destruct (versions newer !! id) as [ch|]; cbn; [|done].
    rewrite prune_chain_visible; [done|]. cbn in Hh. lia.
  - cbn. rewrite u64_add_small by (u64_unfold; lia). split; [lia|]. intros id. right; right.
    unfold gap, vec_len. cbn. rewrite u64_add_small by (u64_unfold; lia). lia.
Qed.

Lemma evolves_lineage h older newer : wf older -> evolves h older newer -> lineage h older newer.
Proof.
  intros Hwf. induction 1 as [|o newer _ IH Hg Hh]; [|by apply lineage_run].
  split_and!; [done|lia|]. intros id. by left.
Qed.

End StoreFacts.
