(* ===== verification/TupleStoreProps.v ===== *)
(** * Properties of the tuple store

    The theorems about [InMemoryTupleStore] (crates/storage/src/lib.rs).  The abstract
    state of a store is its timeline: for each snapshot [r], the finite map from tuple id
    to the (key, value) a reader at [r] sees.  Writes refine [put] and [drop_row] on the
    timeline, reads are its lookups and its ordered listing, pruning and the change log
    are stated against it.  The [TupleStore] trait's contract is a class; its default
    methods are proved correct for every implementation of the contract. *)

From stdpp Require Import base gmap strings list sorting.
From S2P Require Import Prelude TupleStore TupleStoreFacts.

Module StoreProps.
Import Store StoreFacts.

(** ** The contract of the trait *)

(** Rows of a snapshot that carry key [k], in id order. *)
Definition rows_with_key (k : string) (m : gmap Z (string * string)) : list (Z * (string * string)) :=
  List.filter (fun p => bool_decide (p.2.1 = k)) (ord_iter m).

Class TupleStoreSpec (S : Type) `{TupleStore S} := {
  spec_inv : S -> Prop;
  spec_view : S -> Z -> gmap Z (string * string);
  spec_fetch s tid r : spec_inv s -> r <> 0 ->
    exists o, trait_tuple_fetch s tid (mkVis r) = Ok o /\ payload <$> o = spec_view s r !! tid;
  spec_scan s r : spec_inv s -> r <> 0 ->
    exists c, trait_seq_scan_open s (mkVis r) = Ok c /\ numbered <$> c = ord_iter (spec_view s r);
  spec_fetch_by_key s k r : spec_inv s -> r <> 0 ->
    exists o, trait_tuple_fetch_by_key s k (mkVis r) = Ok o /\
      match o with
      | Some v => numbered v ∈ rows_with_key k (spec_view s r)
      | None => rows_with_key k (spec_view s r) = []
      end;
  spec_no_txn s k : 
    trait_seq_scan_open s (mkVis 0) = Err InvalidVisibility /\
    trait_tuple_fetch_by_key s k (mkVis 0) = Err InvalidVisibility;
}.

Lemma drain_count_length c n : drain_count c n = n + vec_len c.
Proof.
  revert n. induction c as [|v c IH]; intros n; cbn; [unfold vec_len; cbn; lia|].
  rewrite IH. unfold vec_len. cbn. lia.
Qed.

Lemma elem_of_rows_with_key k m tid p :
  (tid, p) ∈ rows_with_key k m <-> m !! tid = Some p /\ p.1 = k.
Proof.
  unfold rows_with_key. rewrite list_elem_of_In, filter_In, <- list_elem_of_In, elem_of_ord_iter.
  cbn. rewrite bool_decide_eq_true. done.
Qed.

Section client.
Context {S : Type} `{TupleStoreSpec S}.

Lemma visible_tuple_count_size s r :
  spec_inv s -> r <> 0 ->
  visible_tuple_count s (mkVis r) = Ok (Z.of_nat (size (spec_view s r))).
Proof.
  intros Hi Hr. destruct (spec_scan s r Hi Hr) as (c & Hc & Hn).
  unfold visible_tuple_count. rewrite Hc. cbn. rewrite drain_count_length. f_equal.
  unfold vec_len. rewrite <- (length_fmap numbered), Hn, (ord_iter_Permutation (spec_view s r)).
  by rewrite length_map_to_list.
Qed.

Lemma key_exists_at_visibility_iff s k r :
  spec_inv s -> r <> 0 ->
  exists b, key_exists_at_visibility s k (mkVis r) = Ok b /\
    (b = true <-> exists tid val, spec_view s r !! tid = Some (k, val)).
Proof.
  intros Hi Hr. destruct (spec_fetch_by_key s k r Hi Hr) as (o & Ho & Hm).
  unfold key_exists_at_visibility. rewrite Ho. cbn. eexists. split; [done|].
  destruct o as [v|].
  - unfold numbered in Hm. apply elem_of_rows_with_key in Hm as [Hv Hk].
    split; [intros _|done]. exists (tuple_id v), (value v). rewrite Hv. unfold payload in *.
    cbn in Hk. by rewrite Hk.
  - split; [done|]. intros (tid & val & Hv).
    assert ((tid, (k, val)) ∈ rows_with_key k (spec_view s r)) as Hin
      by by apply elem_of_rows_with_key.
    rewrite Hm in Hin. set_solver.
Qed.

End client.

(** ** Reads *)

Lemma newest_visible_id s r i ch v :
  wf s -> versions s !! i = Some ch -> newest_visible (mkVis r) ch = Some v -> tuple_id v = i.
Proof.
  intros Hwf Hch [Hv _]%find_rev_Some. destruct (wf_chains _ Hwf i ch Hch) as [_ Hids _ _].
  rewrite Forall_forall in Hids. by apply Hids.
Qed.

Lemma omap_filter_ids {B} (f : list TupleVersion -> option B) (g : B -> Z * (string * string))
    (P : Z -> bool) (l : list (Z * list TupleVersion)) :
  (forall i ch v, (i, ch) ∈ l -> f ch = Some v -> (g v).1 = i) ->
  g <$> omap (fun p => f p.2) (List.filter (fun p => P p.1) l) =
  List.filter (fun p => P p.1) (g <$> omap (fun p => f p.2) l).
Proof.
  induction l as [|[i ch] l IH]; intros Hid; [done|].
  assert (forall i ch v, (i, ch) ∈ l -> f ch = Some v -> (g v).1 = i) as Hid'
    by (intros; eapply Hid; [by right|done]).
  specialize (IH Hid'). cbn [List.filter omap list_omap fst snd].
  destruct (f ch) as [v|] eqn:E.
  - specialize (Hid i ch v ltac:(left) E). cbn [fmap list_fmap List.filter]. rewrite Hid.
    destruct (P i); [|done]. cbn [omap list_omap snd]. rewrite E. cbn. by f_equal.
  - destruct (P i); [|done]. cbn [omap list_omap snd]. by rewrite E.
Qed.

Lemma range_numbered s r lo hi :
  wf s ->
  numbered <$> omap (fun p : Z * list TupleVersion => newest_visible (mkVis r) p.2)
                 (range lo hi (versions s)) =
  List.filter (fun p => in_range lo hi p.1) (ord_iter (timeline s r)).
Proof.
  intros Hwf. unfold range. rewrite (omap_filter_ids _ _ (in_range lo hi)).
  - by rewrite scan_numbered.
  - intros i ch v Hin%elem_of_ord_iter Hv. by eapply newest_visible_id.
Qed.

Lemma count_visible_omap r (l : list (Z * list TupleVersion)) :
  length (List.filter
    (fun p => List.existsb (fun v => is_visible v (mkVis r)) (reverse p.2)) l) =
  length (omap (fun p => newest_visible (mkVis r) p.2) l).
Proof.
  induction l as [|[i ch] l IH]; [done|]. cbn [List.filter omap list_omap snd].
  destruct (List.existsb _ _) eqn:E; unfold newest_visible at 1, find_rev.
  - apply List.existsb_exists in E as (v & Hin & Hv).
    destruct (List.find _ _) eqn:F; [cbn; by f_equal|].
    by rewrite (List.find_none _ _ F v Hin) in Hv.
  - destruct (List.find _ _) as [v|] eqn:F; [|done]. apply List.find_some in F as [Hin Hv].
    assert (List.existsb (fun v => is_visible v (mkVis r)) (reverse ch) = true) as E'
      by (apply List.existsb_exists; by exists v).
    by rewrite E' in E.
Qed.

Lemma tuple_fetch_timeline s tid r :
  r <> 0 ->
  exists o, tuple_fetch s tid (mkVis r) = Ok o /\ payload <$> o = timeline s r !! tid.
Proof.
  intros Hr%Z.eqb_neq. unfold tuple_fetch, validate_visibility. cbn. rewrite Hr.
  eexists. split; [done|]. rewrite timeline_lookup. by destruct (versions s !! tid).
Qed.

Lemma visible_versions_Ok s r :
  r <> 0 ->
  visible_versions s (mkVis r) =
  Ok (omap (fun p : Z * list TupleVersion => newest_visible (mkVis r) p.2) (ord_iter (versions s))).
Proof. intros Hr%Z.eqb_neq. unfold visible_versions, validate_visibility. cbn. by rewrite Hr. Qed.

Lemma index_lookup_scan s k r :
  wf s -> r <> 0 ->
  exists found scan,
    index_lookup s k (mkVis r) = Ok found /\ visible_versions s (mkVis r) = Ok scan /\
    found ≡ₚ List.filter (fun v => bool_decide (key v = k)) scan.
Proof.
  intros Hwf Hr. eexists _, _. split; [by apply index_lookup_candidates|].
  split; [by apply visible_versions_Ok|].
  rewrite filtered_scan_candidates by done. by rewrite index_ids_Permutation.
Qed.

(** The implementation discharges the trait's contract. *)
#[export] Program Instance InMemoryTupleStore_spec : TupleStoreSpec InMemoryTupleStore := {
  spec_inv := wf;
  spec_view := timeline;
}.
Next Obligation.
  intros s tid r _ Hr. by apply tuple_fetch_timeline.
Qed.
Next Obligation.
  intros s r Hwf Hr. cbn. unfold seq_scan_open. rewrite visible_versions_Ok by done.
  eexists. split; [done|]. by apply scan_numbered.
Qed.
Next Obligation.
  intros s k r Hwf Hr. cbn. unfold tuple_fetch_by_key.
  destruct (index_lookup_scan s k r Hwf Hr) as (found & scan & -> & Hscan & Hp). cbn.
  rewrite visible_versions_Ok in Hscan by done. simplify_eq.
  eexists. split; [done|]. pose proof (scan_numbered s r Hwf) as Hn. set (l := omap _ _) in *.
  assert (forall v, v ∈ found <-> v ∈ l /\ key v = k) as Hin.
  { intros v. rewrite Hp, list_elem_of_In, filter_In, <- list_elem_of_In, bool_decide_eq_true.
    done. }
  destruct found as [|v found]; cbn [head].
  - apply elem_of_nil_inv. intros [tid p] [Hv Hk]%elem_of_rows_with_key.
    apply elem_of_ord_iter in Hv. rewrite <- Hn in Hv.
    apply list_elem_of_fmap in Hv as (v & [= -> ->] & Hv).
    destruct (Hin v) as [_ Hv']. by apply elem_of_nil in Hv'.
  - unfold numbered. apply elem_of_rows_with_key. cbn.
    destruct (Hin v) as [[Hv Hk] _]; [left|]. split; [|done].
    apply elem_of_ord_iter. rewrite <- Hn. by apply (list_elem_of_fmap_2 numbered).
Qed.
Next Obligation. done. Qed.

(** ** Row keys *)

Definition live_at (s : InMemoryTupleStore) (tid : Z) (k : string) : Prop :=
  exists ch v, versions s !! tid = Some ch /\ v ∈ ch /\ is_live v = true /\ key v = k.

(** The operations that check the row key themselves, and those that write no new key. *)
Definition keyed (o : op) : Prop :=
  match o with InsertReserved _ _ | InsertReservedWithId _ _ _ => False | _ => True end.

Lemma live_at_key s tid k : live_at s tid k -> live_key s k.
Proof. intros (ch & v & H). by exists tid, ch, v. Qed.

Lemma live_at_insert_chain s tid t txn i k :
  live_at (insert_chain s tid t txn) i k -> live_at s i k \/ (i = tid /\ k = new_key t).
Proof.
  intros (ch & v & Hch & Hv & Hl & Hk). cbn in Hch.
  destruct (decide (i = tid)) as [->|Hne].
  - rewrite lookup_insert_eq in Hch. simplify_eq. apply list_elem_of_singleton in Hv as ->. by right.
  - rewrite lookup_insert_ne in Hch by done. left. by exists ch, v.
Qed.

Lemma live_at_replace s tid ch ch' i k :
  versions s !! tid = Some ch ->
  (forall v, v ∈ ch' -> is_live v = true -> exists w, w ∈ ch /\ is_live w = true /\ key w = key v) ->
  live_at (record_change (mkStore (next_tuple_id s) (<[tid := ch']> (versions s))
             (key_to_tuple_ids s) (epoch s) (recent_changes s)) tid) i k ->
  live_at s i k.
Proof.
  intros Hch Hsub (c & v & Hc & Hv & Hl & Hk). cbn in Hc.
  destruct (decide (i = tid)) as [->|Hne].
  - rewrite lookup_insert_eq in Hc. simplify_eq. destruct (Hsub v Hv Hl) as (w & Hw & Hwl & Hwk).
    exists ch, w. by rewrite Hwk.
  - rewrite lookup_insert_ne in Hc by done. by exists c, v.
Qed.

(** A keyed operation adds a live key only where no live row has it. *)
Lemma live_at_run o s i k :
  wf s -> keyed o -> live_at (run o s) i k ->
  live_at s i k \/ (~ live_key s k /\ forall j, live_at (run o s) j k -> j = i).
Proof.
  intros Hwf Hk. pose proof (key_exists_live s) as Hex.
  assert (forall tid t txn n, key_exists s (new_key t) = false ->
    live_at (insert_chain (mkStore n (versions s) (key_to_tuple_ids s) (epoch s)
      (recent_changes s)) tid t txn) i k -> live_at s i k \/ (~ live_key s k /\
      forall j, live_at (insert_chain (mkStore n (versions s) (key_to_tuple_ids s) (epoch s)
        (recent_changes s)) tid t txn) j k -> j = i)) as Hins.
  { intros tid t txn n Hne [Hl|[-> ->]]%live_at_insert_chain; [by left|right].
    assert (~ live_key s (new_key t)) as Hno by (rewrite <- Hex by done; by rewrite Hne).
    split; [done|]. intros j [Hl|[-> _]]%live_at_insert_chain; [|done].
    destruct Hno. by apply (live_at_key s j). }
  destruct o as [t txn|t txn|tid t txn|tid t txn|tid val txn|tid txn|safe|]; cbn [run]; try done.
  - unfold tuple_insert. destruct (txn =? 0) eqn:E; [by left|]. destruct (key_exists _ _) eqn:K; [by left|].
    unfold tuple_insert_reserved_key. rewrite E. by apply Hins.
  - unfold tuple_insert_with_id. destruct (txn =? 0) eqn:E; [by left|].
    destruct (key_exists _ _) eqn:K; [by left|]. unfold tuple_insert_reserved_key_with_id. rewrite E.
    destruct (versions s !! tid); [by left|]. destruct s. by apply Hins.
  - destruct (decide (txn = 0)) as [->|Htxn]; [by left|].
    destruct (tuple_update_wf s tid val txn Hwf Htxn) as [(older & v & Hch & Hv & _ & ->)|[_ ->]];
      [|by left]. intros Hl. left. eapply live_at_replace; [done| |done].
    intros w [Hw|Hw]%elem_of_app Hwl; [exists w; set_solver|].
    exists v. split_and!; [set_solver|done|]. set_unfold. naive_solver.
  - destruct (decide (txn = 0)) as [->|Htxn]; [by left|].
    destruct (tuple_delete_wf s tid txn Hwf Htxn) as [(older & v & Hch & Hv & _ & ->)|[_ ->]];
      [|by left]. intros Hl. left. eapply live_at_replace; [done| |done].
    intros w [Hw| ->%list_elem_of_singleton]%elem_of_app Hwl; [exists w; set_solver|done].
  - intros (ch & v & Hch & Hv & Hl & Hkv). left. cbn in Hch. rewrite map_lookup_imap in Hch.
    destruct (versions s !! i) as [c|] eqn:Hc; [|done]. cbn in Hch.
    apply prune_chain_Some in Hch as [-> _]. exists c, v. split_and!; try done.
    apply list_elem_of_In in Hv. apply filter_In in Hv as [Hv _]. by apply list_elem_of_In.
  - intros (ch & v & Hch & _). cbn in Hch. by rewrite lookup_empty in Hch.
Qed.

Inductive keyed_reachable : InMemoryTupleStore -> Prop :=
| keyed_new : keyed_reachable new
| keyed_run o s : keyed_reachable s -> guard o s -> keyed o -> keyed_reachable (run o s).

Lemma keyed_reachable_wf s : keyed_reachable s -> wf s.
Proof. induction 1; [apply wf_new|by apply wf_run]. Qed.

(** ** Evolution unseen by a snapshot *)

Inductive unseen (r : Z) (s : InMemoryTupleStore) : InMemoryTupleStore -> Prop :=
| unseen_refl : unseen r s s
| unseen_run o s' : unseen r s s' -> guard o s' -> invisible_to r o -> unseen r s (run o s').

Lemma unseen_timeline r s s' : wf s -> unseen r s s' -> wf s' /\ timeline s' r = timeline s r.
Proof.
  intros Hwf. induction 1 as [|o s' _ [Hwf' IH] Hg Hi]; [done|].
  split; [by apply wf_run|]. by rewrite run_timeline_below.
Qed.

(** The live version of a tuple, the one [current_version_mut] finds. *)
Definition current (s : InMemoryTupleStore) (tid : Z) : option TupleVersion :=
  versions s !! tid ≫= find_rev is_live.

Lemma current_None s tid :
  (forall ch v, versions s !! tid = Some ch -> v ∈ ch -> is_live v = false) -> current s tid = None.
Proof.
  intros H. unfold current. destruct (versions s !! tid) as [ch|] eqn:E; [|done]. cbn.
  apply find_rev_None. intros v. by apply H.
Qed.

Lemma current_snoc s tid older v :
  versions s !! tid = Some (older ++ [v]) -> is_live v = true -> current s tid = Some v.
Proof. intros H Hl. unfold current. rewrite H. cbn. by rewrite find_rev_snoc, Hl. Qed.

(** ** Counting for the garbage collector *)

Lemma version_count_flat s : version_count s = vec_len (all_versions s).
Proof.
  unfold version_count, all_versions. induction (ord_iter (versions s)) as [|p l IH]; [done|].
  cbn. rewrite IH. unfold vec_len. rewrite length_app. lia.
Qed.

Lemma prune_all_versions s safe :
  all_versions (prune_versions_deleted_at_or_before s safe).1 =
  List.filter (survives safe) (all_versions s).
Proof.
  unfold all_versions. cbn. rewrite ord_iter_map_imap.
  induction (ord_iter (versions s)) as [|[i ch] l IH]; [done|].
  cbn [omap list_omap flat_map fst snd]. rewrite List.filter_app, <- IH.
  unfold prune_chain at 1. destruct (List.filter (survives safe) ch); done.
Qed.

Lemma size_prune_le s safe :
  (size (versions (prune_versions_deleted_at_or_before s safe).1) <= size (versions s))%nat.
Proof.
  cbn. rewrite <- !size_dom. apply subseteq_size. intros i.
  rewrite !elem_of_dom, map_lookup_imap. intros [x Hx]. by destruct (versions s !! i).
Qed.

(** ** The theorems *)

(** [C9] Every store that operations can reach is coherent, as long as the callers keep the promises
    of [guard] (inserts under the store's own id find it free, a writer does not replace a version
    of a later one, the counters are not exhausted): the chains
    are in transaction order, so each snapshot sees at most one version of a tuple; the
    row-key index lists a tuple under a key exactly when its chain has that key, once;
    and the change log holds at most [CHANGE_LOG_CAP] entries with consecutive epochs
    ending at the current one. *)
Theorem store_invariant s :
  reachable s ->
  (forall tid ch vis i j v w, versions s !! tid = Some ch ->
     ch !! i = Some v -> ch !! j = Some w ->
     is_visible v vis = true -> is_visible w vis = true -> i = j) /\
  (forall k tid, tid ∈ index_ids (key_to_tuple_ids s) k <->
     versions s !! tid ≫= chain_key = Some k) /\
  (forall k ids, key_to_tuple_ids s !! k = Some ids -> ids <> [] /\ NoDup ids) /\
  vec_len (recent_changes s) <= CHANGE_LOG_CAP /\
  (forall i p, recent_changes s !! i = Some p ->
     p.1 = epoch s - vec_len (recent_changes s) + 1 + Z.of_nat i).
Proof.
  intros Hs%reachable_wf. pose proof (wf_log _ Hs) as [_ Hl _ Hp]. split_and!.
  - intros tid ch vis i j v w Hch. apply chain_time_visible_unique.
    apply (wf_chains _ Hs tid ch Hch).
  - apply (wf_index _ Hs).
  - intros k ids Hk. destruct (wf_index_shape _ Hs k) as [Hne Hnd].
    unfold index_ids in Hnd. rewrite Hk in Hne, Hnd. split; [congruence|done].
  - done.
  - done.
Qed.

(** [C6] Inserting on every branch.  Transaction 0 is refused by all four inserts and leaves the
    store unchanged.  An insert under a caller-supplied id refuses an id in use and otherwise
    refines [put] on the timeline: the row appears in exactly the snapshots from [txn] on.  An
    insert under the store's next id does not look whether it is free: it shows the row from
    [txn] on and takes whatever the id held out of every snapshot, which is [put] when the id is
    free.  The checked inserts refuse a row key that a live row has, and are the others
    otherwise. *)
Theorem insert_refines_put s t txn tid :
  reachable s ->
  (txn = 0 -> Forall (fun out => out = (s, Err InvalidVisibility))
     [tuple_insert s t txn; tuple_insert_with_id s tid t txn;
      tuple_insert_reserved_key s t txn; tuple_insert_reserved_key_with_id s tid t txn]) /\
  (txn <> 0 ->
     overwrites s t txn (next_tuple_id s) (tuple_insert_reserved_key s t txn) /\
     (versions s !! next_tuple_id s = None ->
        inserted s t txn (next_tuple_id s) (tuple_insert_reserved_key s t txn)) /\
     (versions s !! tid = None -> inserted s t txn tid (tuple_insert_reserved_key_with_id s tid t txn)) /\
     (versions s !! tid <> None ->
        tuple_insert_reserved_key_with_id s tid t txn = (s, Err AlreadyExists)) /\
     (live_key s (new_key t) ->
        tuple_insert s t txn = (s, Err AlreadyExists) /\
        tuple_insert_with_id s tid t txn = (s, Err AlreadyExists)) /\
     (~ live_key s (new_key t) ->
        tuple_insert s t txn = tuple_insert_reserved_key s t txn /\
        tuple_insert_with_id s tid t txn = tuple_insert_reserved_key_with_id s tid t txn)).
Proof.
  intros Hs%reachable_wf. pose proof (key_exists_live s (new_key t) Hs) as Hk.
  split; [intros ->; by repeat constructor|]. intros Htxn. pose proof (proj2 (Z.eqb_neq _ _) Htxn) as E.
  unfold tuple_insert, tuple_insert_with_id. rewrite E. split_and!.
  - by apply reserved_overwrites.
  - by apply reserved_inserted.
  - by apply reserved_with_id_inserted.
  - intros Hne. unfold tuple_insert_reserved_key_with_id. rewrite E. by destruct (versions s !! tid).
  - intros Hl%Hk. by rewrite Hl.
  - rewrite <- Hk. intros Hl%not_true_is_false. by rewrite Hl.
Qed.

(** [C7] Updating and deleting refine [put] and [drop_row] on every branch.  Transaction 0 is
    refused and a tuple without a live version is not found, each time with the store unchanged.
    Otherwise both succeed: the update keeps the row key and shows the new value in exactly the
    snapshots from [txn] on; the delete hides the row in exactly the snapshots from [txn] on, or
    from the creation of the deleted version on when its writer is the later one. *)
Theorem update_delete_refine s tid val txn :
  reachable s ->
  (txn = 0 -> tuple_update s tid val txn = (s, Err InvalidVisibility) /\
              tuple_delete s tid txn = (s, Err InvalidVisibility)) /\
  (txn <> 0 ->
   match current s tid with
   | Some v =>
       (tuple_update s tid val txn).2 = Ok tt /\
       (forall r, timeline (tuple_update s tid val txn).1 r =
                  put txn tid (key v, val) (timeline s) r) /\
       (tuple_delete s tid txn).2 = Ok tt /\
       (forall r, timeline (tuple_delete s tid txn).1 r =
                  drop_row (Z.max txn (created_by v)) tid (timeline s) r)
   | None =>
       tuple_update s tid val txn = (s, Err NotFound) /\
       tuple_delete s tid txn = (s, Err NotFound)
   end).
Proof.
  intros Hs%reachable_wf. split; [by intros ->|]. intros Htxn.
  destruct (tuple_update_wf s tid val txn Hs Htxn) as [(older & v & Hch & Hv & _ & ->)|[Hno ->]];
  destruct (tuple_delete_wf s tid txn Hs Htxn) as [(older' & v' & Hch' & Hv' & _ & ->)|[Hno' ->]].
  - rewrite (current_snoc s tid older v) by done. rewrite Hch in Hch'.
    apply Some_inj, app_inj_2 in Hch' as [-> [= ->]]; [|done]. split_and!; [done| |done|].
    + intros r. by apply tuple_update_timeline.
    + intros r. apply tuple_delete_timeline; try done. apply (wf_chains _ Hs tid _ Hch).
  - rewrite (Hno' _ v Hch) in Hv by set_solver. done.
  - rewrite (Hno _ v' Hch') in Hv' by set_solver. done.
  - by rewrite current_None.
Qed.

(** [C1] Snapshot isolation: whatever operations run afterwards, as long as the writers
    are newer than the snapshot and the garbage collector's horizon does not pass it,
    every fetch and scan at that snapshot keeps returning the same rows.  The operations are
    guarded as in [reachable]: no insert under the store's own id finds it in use, and no writer
    replaces a version of a later one. *)
Theorem snapshot_stable s s' r :
  reachable s -> r <> 0 -> unseen r s s' ->
  (forall tid, exists o o',
     tuple_fetch s tid (mkVis r) = Ok o /\ tuple_fetch s' tid (mkVis r) = Ok o' /\
     payload <$> o' = payload <$> o) /\
  (exists l l', visible_versions s (mkVis r) = Ok l /\ visible_versions s' (mkVis r) = Ok l' /\
     numbered <$> l' = numbered <$> l).
Proof.
  intros Hs%reachable_wf Hr Hu. destruct (unseen_timeline r s s' Hs Hu) as [Hs' Ht]. split.
  - intros tid. destruct (tuple_fetch_timeline s tid r Hr) as (o & Ho & Hp).
    destruct (tuple_fetch_timeline s' tid r Hr) as (o' & Ho' & Hp').
    exists o, o'. split_and!; [done..|]. by rewrite Hp, Hp', Ht.
  - rewrite !visible_versions_Ok by done. eexists _, _. split_and!; [done..|].
    rewrite !scan_numbered by done. by rewrite Ht.
Qed.

(** [C8] Reads are the timeline: a fetch returns the row of that tuple, a scan all rows
    in tuple-id order, a range scan those in the range [lo <= hi], and the range count their number;
    transaction 0 is refused by each. *)
Theorem reads_refine_timeline s r tid lo hi :
  reachable s -> lo <= hi ->
  (r <> 0 ->
    (exists o, tuple_fetch s tid (mkVis r) = Ok o /\ payload <$> o = timeline s r !! tid) /\
    (exists l, visible_versions s (mkVis r) = Ok l /\ numbered <$> l = ord_iter (timeline s r)) /\
    (exists l, visible_versions_in_range s (mkVis r) lo hi = Ok l /\
       numbered <$> l = List.filter (fun p => in_range lo hi p.1) (ord_iter (timeline s r)) /\
       visible_count_in_range s (mkVis r) lo hi = Ok (vec_len l))) /\
  (tuple_fetch s tid (mkVis 0) = Err InvalidVisibility /\
   visible_versions s (mkVis 0) = Err InvalidVisibility /\
   visible_versions_in_range s (mkVis 0) lo hi = Err InvalidVisibility /\
   visible_count_in_range s (mkVis 0) lo hi = Err InvalidVisibility).
Proof.
  intros Hs%reachable_wf Hle. split; [|done]. intros Hr. split_and!.
  - by apply tuple_fetch_timeline.
  - rewrite visible_versions_Ok by done. eexists. split; [done|]. by apply scan_numbered.
  - unfold visible_versions_in_range, visible_count_in_range, validate_visibility. cbn.
    rewrite (proj2 (Z.eqb_neq _ _) Hr), (proj2 (Z.ltb_ge _ _) Hle). cbn.
    eexists. split_and!; [done|by apply range_numbered|].
    f_equal. unfold vec_len. by rewrite count_visible_omap.
Qed.

(** The row-key index is equivalent to a scan: a by-key lookup returns exactly the
    rows a full scan filtered by that key returns, as a permutation, and fetch-by-key
    returns one of them or nothing when there is none. *)
Theorem index_lookup_is_filtered_scan s k r :
  reachable s -> r <> 0 ->
  exists found scan,
    index_lookup s k (mkVis r) = Ok found /\ visible_versions s (mkVis r) = Ok scan /\
    found ≡ₚ List.filter (fun v => bool_decide (key v = k)) scan /\
    tuple_fetch_by_key s k (mkVis r) = Ok (head found) /\
    index_lookup s k (mkVis 0) = Err InvalidVisibility.
Proof.
  intros Hs%reachable_wf Hr.
  destruct (index_lookup_scan s k r Hs Hr) as (found & scan & Hf & Hsc & Hp).
  exists found, scan. unfold tuple_fetch_by_key. by rewrite Hf.
Qed.

(** [C11] Garbage collection is invisible at and above its horizon: every snapshot
    [r >= safe] keeps its rows, exactly the versions deleted at or before the horizon go,
    and the statistics count them without saturating. *)
Theorem prune_preserves_reads s safe :
  let out := prune_versions_deleted_at_or_before s safe in
  (forall r, safe <= r -> timeline out.1 r = timeline s r) /\
  all_versions out.1 = List.filter (survives safe) (all_versions s) /\
  remaining_versions out.2 = vec_len (all_versions out.1) /\
  removed_versions out.2 + remaining_versions out.2 = version_count s /\
  removed_tuples out.2 + tuple_chain_count out.1 = tuple_chain_count s.
Proof.
  intros out. split_and!.
  - intros r. apply prune_timeline.
  - apply prune_all_versions.
  - cbn. apply version_count_flat.
  - cbn. change (saturating_sub (version_count s) (version_count out.1) + version_count out.1 =
      version_count s). rewrite !version_count_flat. unfold out. rewrite prune_all_versions.
    pose proof (vec_filter_length (survives safe) (all_versions s)).
    unfold vec_len, saturating_sub. lia.
  - change (saturating_sub (tuple_chain_count s) (tuple_chain_count out.1) +
      tuple_chain_count out.1 = tuple_chain_count s).
    pose proof (size_prune_le s safe) as H. fold out in H.
    unfold tuple_chain_count, saturating_sub. lia.
Qed.

Lemma walk_listed ptr_eq h older newer tid :
  (forall a b, ptr_eq a b = true -> a = b) ->
  tid ∈ walk ptr_eq (ord_iter (versions older)) (ord_iter (versions newer)) \/
  (forall r, h <= r -> read_at older r tid = read_at newer r tid).
Proof.
  intros Hptr. rewrite walk_spec by apply ord_iter_sorted. rewrite !assoc_ord_iter.
  unfold read_at, differs.
  destruct (versions older !! tid) as [a|], (versions newer !! tid) as [b|];
    [|by left|by left|by right].
  destruct (ptr_eq a b) eqn:E; [right|by left]. by rewrite (Hptr a b E).
Qed.

(** Between two generations of one lineage, a slice that starts at the older one's epoch
    misses nothing, and a log that does not reach back to it is not used. *)
Lemma accounted_listed ptr_eq h older newer tid :
  (forall a b, ptr_eq a b = true -> a = b) ->
  is_u64 (epoch older) -> wf newer -> epoch older <= epoch newer -> accounted h older newer tid ->
  tid ∈ changed_tuple_ids ptr_eq older newer \/
  (forall r, h <= r -> read_at older r tid = read_at newer r tid).
Proof.
  intros Hptr Ho Hwf Hle Hacc. pose proof (wf_log _ Hwf) as [He _ Hst Hlog].
  unfold changed_tuple_ids. destruct Hacc as [Hr|[(e & Hlt & Hin)|Hgap]]; [by right| |].
  - assert (e <= epoch newer) as Hee.
    { apply list_elem_of_lookup in Hin as [i Hi]. pose proof (lookup_lt_Some _ _ _ Hi).
      apply Hlog in Hi. cbn in Hi. unfold vec_len in *. lia. }
    rewrite (proj2 (Z.eqb_neq _ _)), (proj2 (Z.ltb_lt _ _)) by lia. cbn.
    destruct (log_covers older newer) eqn:Hc.
    + left. apply elem_of_dedup. rewrite merge_sort_Permutation. unfold log_slice.
      apply list_elem_of_fmap. exists (e, tid). split; [done|].
      apply list_elem_of_In, filter_In. split; [by apply list_elem_of_In|]. cbn. lia.
    + by apply walk_listed.
  - unfold gap in Hgap. assert (0 <= vec_len (recent_changes newer)) by (unfold vec_len; lia).
    rewrite (proj2 (Z.eqb_neq _ _)) by lia.
    replace (log_covers older newer) with false; [rewrite andb_false_r; by apply walk_listed|].
    symmetry. unfold log_covers. destruct (recent_changes newer) as [|[first j] l] eqn:E; [done|].
    cbn. apply Z.leb_gt. rewrite u64_add_small by (u64_unfold; lia).
    pose proof (Hlog 0%nat (first, j) eq_refl) as Hf. cbn [fst] in Hf. lia.
Qed.

Lemma changed_tuple_ids_sorted ptr_eq older newer :
  StronglySorted Z.lt (changed_tuple_ids ptr_eq older newer).
Proof.
  unfold changed_tuple_ids. destruct (_ =? _); [constructor|]. destruct (_ && _).
  - apply dedup_sorted. apply (StronglySorted_merge_sort _).
  - apply walk_sorted; apply ord_iter_sorted.
Qed.

(** [C10] The change log misses nothing: for a store that descends from a pinned
    generation, by any operations guarded as in [reachable] whose garbage collection stays at or
    below the horizon [h], a tuple that [changed_tuple_ids] does not list reads the same in both at every
    snapshot from [h] on, whether the log covered the delta or the walk was taken; and
    the list is strictly increasing.  Pointer equality need only imply equal chains. *)
Theorem changed_tuple_ids_complete ptr_eq h older newer :
  (forall a b, ptr_eq a b = true -> a = b) ->
  reachable older -> evolves h older newer ->
  StronglySorted Z.lt (changed_tuple_ids ptr_eq older newer) /\
  forall tid, tid ∉ changed_tuple_ids ptr_eq older newer ->
    forall r, h <= r -> read_at older r tid = read_at newer r tid.
Proof.
  intros Hptr Hs%reachable_wf Hev. split; [apply changed_tuple_ids_sorted|].
  destruct (evolves_lineage h older newer Hs Hev) as (Hwf & Hle & Hacc). intros tid Hno.
  destruct (accounted_listed ptr_eq h older newer tid Hptr) as [?|?]; try done.
  apply (wf_log _ Hs).
Qed.

(** The key checks of [tuple_insert] and [tuple_insert_with_id] are enough: in a
    store written only through key-checking operations no two tuples have a live version
    with the same row key, so [key_exists] reports the one tuple that has it. *)
Theorem row_keys_unique s k t1 t2 :
  keyed_reachable s ->
  (live_at s t1 k -> live_at s t2 k -> t1 = t2) /\
  (key_exists s k = true <-> exists tid, live_at s tid k).
Proof.
  intros Hs. split.
  - revert t1 t2. induction Hs as [|o s Hs IH Hg Hk]; intros t1 t2 H1 H2.
    { by destruct H1 as (? & ? & H1 & _). }
    pose proof (keyed_reachable_wf s Hs) as Hwf.
    destruct (live_at_run o s t1 k Hwf Hk H1) as [H1'|[_ Hu]]; [|symmetry; by apply Hu].
    destruct (live_at_run o s t2 k Hwf Hk H2) as [H2'|[_ Hu]]; [by apply IH|by apply Hu].
  - rewrite key_exists_live by by apply keyed_reachable_wf. done.
Qed.

(** The trait's default methods, for every implementation that meets the contract,
    and so for the in-memory store: [visible_tuple_count] is the number of rows of the
    snapshot and [key_exists_at_visibility] tells whether one of them has the key. *)
Theorem trait_defaults_correct {S} `{TupleStoreSpec S} (s : S) k r :
  spec_inv s -> r <> 0 ->
  visible_tuple_count s (mkVis r) = Ok (Z.of_nat (size (spec_view s r))) /\
  (exists b, key_exists_at_visibility s k (mkVis r) = Ok b /\
     (b = true <-> exists tid val, spec_view s r !! tid = Some (k, val))) /\
  visible_tuple_count s (mkVis 0) = Err InvalidVisibility /\
  key_exists_at_visibility s k (mkVis 0) = Err InvalidVisibility.
Proof.
  intros Hi Hr. split_and!; [by apply visible_tuple_count_size|by apply key_exists_at_visibility_iff| |];
    destruct (spec_no_txn s k) as [E1 E2]; unfold visible_tuple_count, key_exists_at_visibility.
  - by rewrite E1.
  - by rewrite E2.
Qed.

(** ** Concrete runs *)

Local Open Scope string_scope.

(** Two rows inserted by transactions 1 and 2. *)
Definition two_rows : InMemoryTupleStore :=
  run (Insert (mkNew "b" "20") 2) (run (Insert (mkNew "a" "10") 1) new).

(** Then row 1 is updated by transaction 3 and row 2 deleted by transaction 4. *)
Definition edited : InMemoryTupleStore :=
  run (Delete 2 4) (run (Update 1 "11" 3) two_rows).

Lemma two_rows_in_time tid txn : 2 <= txn -> in_time two_rows tid txn.
Proof.
  intros Ht ch v Hch Hv _. assert (created_by v <= 2); [|lia].
  assert (map_Forall (fun _ ch => Forall (fun v => created_by v <= 2) ch) (versions two_rows)) as Hall
    by (refine (bool_decide_unpack _ _); vm_compute; exact I).
  specialize (Hall tid ch Hch). rewrite Forall_forall in Hall. by apply Hall.
Qed.

Lemma updated_in_time tid : in_time (run (Update 1 "11" 3) two_rows) tid 4.
Proof.
  intros ch v Hch Hv _. assert (created_by v <= 4); [|lia].
  assert (map_Forall (fun _ ch => Forall (fun v => created_by v <= 4) ch)
    (versions (run (Update 1 "11" 3) two_rows))) as Hall
    by (refine (bool_decide_unpack _ _); vm_compute; exact I).
  specialize (Hall tid ch Hch). rewrite Forall_forall in Hall. by apply Hall.
Qed.

Lemma two_rows_keyed : keyed_reachable two_rows.
Proof. repeat (apply keyed_run; [|repeat split; by vm_compute|done]). apply keyed_new. Qed.

Lemma keyed_reachable_reachable s : keyed_reachable s -> reachable s.
Proof. induction 1; by constructor. Qed.

Lemma two_rows_reachable : reachable two_rows.
Proof. apply keyed_reachable_reachable, two_rows_keyed. Qed.

Lemma edited_unseen : unseen 2 two_rows edited.
Proof.
  apply unseen_run; [apply unseen_run; [apply unseen_refl| |by vm_compute]| |by vm_compute].
  - split; [by vm_compute|]. by apply two_rows_in_time.
  - split; [by vm_compute|]. apply updated_in_time.
Qed.

Lemma edited_evolves : evolves 1 two_rows edited.
Proof.
  apply evolves_run; [apply evolves_run; [apply evolves_refl| |done]| |done].
  - split; [by vm_compute|]. by apply two_rows_in_time.
  - split; [by vm_compute|]. apply updated_in_time.
Qed.

Lemma store_invariant_witness :
  reachable two_rows /\ vec_len (recent_changes two_rows) <= CHANGE_LOG_CAP.
Proof.
  split; [exact two_rows_reachable|].
  apply (store_invariant two_rows two_rows_reachable).
Defined.

Lemma insert_refines_put_witness :
  inserted two_rows (mkNew "c" "30") 3 3 (tuple_insert two_rows (mkNew "c" "30") 3) /\
  tuple_insert two_rows (mkNew "c" "30") 0 = (two_rows, Err InvalidVisibility).
Proof.
  destruct (insert_refines_put two_rows (mkNew "c" "30") 3 9 two_rows_reachable) as [_ H].
  destruct (insert_refines_put two_rows (mkNew "c" "30") 0 9 two_rows_reachable) as [H0 _].
  split; [|by apply (Forall_inv (H0 eq_refl))].
  destruct (H ltac:(done)) as (_ & Hi & _ & _ & _ & Hc). destruct Hc as [-> _].
  - rewrite <- key_exists_live by apply reachable_wf, two_rows_reachable. by vm_compute.
  - apply Hi. by vm_compute.
Defined.

(** A row inserted by the caller under the id 1, which the store's own allocator hands out next. *)
Definition foreign_row : InMemoryTupleStore := run (InsertWithId 1 (mkNew "a" "10") 1) new.

(** The next insert under the store's own id takes that row out of the snapshots before it, and
    leaves the index entry of its key behind. *)
Lemma insert_overwrites_chain :
  reachable foreign_row /\ timeline foreign_row 1 !! 1 = Some ("a", "10") /\
  let out := tuple_insert foreign_row (mkNew "b" "20") 2 in
  out.2 = Ok 1 /\ timeline out.1 1 !! 1 = None /\ index_ids (key_to_tuple_ids out.1) "a" = [1].
Proof. split; [|by vm_compute]. apply (reachable_run (InsertWithId 1 _ _) new); [constructor|done]. Qed.

Lemma update_delete_refine_witness :
  (tuple_update two_rows 1 "11" 3).2 = Ok tt /\
  tuple_delete two_rows 7 3 = (two_rows, Err NotFound) /\
  tuple_delete two_rows 1 0 = (two_rows, Err InvalidVisibility).
Proof.
  destruct (update_delete_refine two_rows 1 "11" 3 two_rows_reachable) as [_ H1].
  destruct (update_delete_refine two_rows 7 "11" 3 two_rows_reachable) as [_ H2].
  destruct (update_delete_refine two_rows 1 "11" 0 two_rows_reachable) as [H0 _].
  split; [exact (proj1 (H1 ltac:(done)))|]. split; [exact (proj2 (H2 ltac:(done)))|exact (proj2 (H0 eq_refl))].
Defined.

Lemma snapshot_stable_witness :
  unseen 2 two_rows edited /\ edited <> two_rows /\
  exists o o', tuple_fetch two_rows 1 (mkVis 2) = Ok o /\ tuple_fetch edited 1 (mkVis 2) = Ok o' /\
    payload <$> o' = payload <$> o.
Proof.
  split; [exact edited_unseen|]. split; [by vm_compute|].
  apply (snapshot_stable two_rows edited 2 two_rows_reachable ltac:(done) edited_unseen).
Defined.

Lemma reads_refine_timeline_witness :
  exists l, visible_versions two_rows (mkVis 2) = Ok l /\
    numbered <$> l = ord_iter (timeline two_rows 2) /\ vec_len l = 2.
Proof.
  destruct (reads_refine_timeline two_rows 2 1 1 2 two_rows_reachable ltac:(done)) as [H _].
  destruct (H ltac:(done)) as (_ & (l & Hl & Hn) & _). exists l. split_and!; [done..|].
  vm_compute in Hl. injection Hl as <-. by vm_compute.
Defined.

Lemma index_lookup_is_filtered_scan_witness :
  exists found, index_lookup two_rows "b" (mkVis 2) = Ok found /\ vec_len found = 1.
Proof.
  destruct (index_lookup_is_filtered_scan two_rows "b" 2 two_rows_reachable ltac:(done))
    as (found & scan & Hf & _). exists found. split; [done|].
  vm_compute in Hf. injection Hf as <-. by vm_compute.
Defined.

(** Structural equality is a pointer test that is as precise as possible. *)
Definition same_chain (a b : list TupleVersion) : bool := bool_decide (a = b).

Lemma changed_tuple_ids_complete_witness :
  changed_tuple_ids same_chain two_rows edited = [1; 2] /\
  read_at two_rows 1 3 = read_at edited 1 3.
Proof.
  split; [by vm_compute|].
  apply (changed_tuple_ids_complete same_chain 1 two_rows edited
    (fun a b => bool_decide_eq_true_1 (a = b)) two_rows_reachable edited_evolves); [|lia].
  refine (bool_decide_unpack _ _). by vm_compute.
Defined.

Lemma row_keys_unique_witness :
  keyed_reachable two_rows /\ (key_exists two_rows "a" = true <-> exists tid, live_at two_rows tid "a").
Proof.
  split; [exact two_rows_keyed|]. apply (row_keys_unique two_rows "a" 1 2 two_rows_keyed).
Defined.

Lemma trait_defaults_correct_witness :
  visible_tuple_count two_rows (mkVis 2) = Ok 2.
Proof.
  destruct (@trait_defaults_correct InMemoryTupleStore _ InMemoryTupleStore_spec two_rows "a" 2
    (reachable_wf _ two_rows_reachable) ltac:(done)) as [H _]. exact H.
Defined.

End StoreProps.
