(* ===== verification/Progress.v ===== *)
(** * Replication progress and recovery state (crates/replication/src/progress.rs)

    The progress report of a replicator, the durable recovery state, the gap between a
    live replicator and its recovery, and the validators that guard each of them.  A call
    that panics ([expect] on an error) is [None]. *)

From stdpp Require Import base strings list pretty.
From S2P Require Import Prelude Types.

Module Progress.

(** ** Data *)

Record RecoveryState := mkRecovery {
  rec_term : Z;
  rec_snapshot : SnapshotMeta;
  rec_committed_entries : list LogEntry;
  rec_applied_index : Z;
}.

Record ReplicationProgress := mkProgress {
  prog_role : Role;
  prog_term : Z;
  prog_commit_index : Z;
  prog_applied_index : Z;
  prog_next_index : Z;
  prog_snapshot : SnapshotMeta;
  prog_committed_but_unapplied_count : Z;
  prog_has_committed_entries_pending_apply : bool;
  prog_uncommitted_entry_count : Z;
  prog_has_uncommitted_entries : bool;
}.

Record RecoveryProgressGap := mkGap {
  commit_index_gap : Z;
  applied_index_gap : Z;
  next_index_gap : Z;
  uncommitted_entry_gap : Z;
}.

#[export] Instance RecoveryProgressGap_eq_dec : EqDecision RecoveryProgressGap.
Proof. solve_decision. Defined.

Definition has_gap (g : RecoveryProgressGap) : bool :=
  (0 <? commit_index_gap g) || (0 <? applied_index_gap g) ||
  (0 <? next_index_gap g) || (0 <? uncommitted_entry_gap g).

Definition gap_has_speculative_tail (g : RecoveryProgressGap) : bool :=
  (0 <? next_index_gap g) || (0 <? uncommitted_entry_gap g).

Definition gap_is_restart_equivalent (g : RecoveryProgressGap) : bool := negb (has_gap g).

Record ReplicationStatusSnapshot := mkStatus {
  live : ReplicationProgress;
  durable : ReplicationProgress;
  recovery_gap : RecoveryProgressGap;
}.

(** ** Errors *)

Inductive ReplicationProgressInvariantError :=
| ProgressAppliedExceedsCommit (applied_index commit_index : Z)
| NextIndexBehindCommit (next_index commit_index : Z)
| PendingApplyCountMismatch (committed_but_unapplied_count expected : Z)
| PendingApplyFlagMismatch (has_pending expected : bool)
| UncommittedFlagMismatch (has_uncommitted : bool) (uncommitted_entry_count : Z)
| SnapshotAheadOfApplied (snapshot_index applied_index : Z).

Inductive ReplicationStatusInvariantError :=
| LiveProgress (e : ReplicationProgressInvariantError)
| DurableProgress (e : ReplicationProgressInvariantError)
| DurableAheadOfLive (field : string) (durable live : Z)
| SnapshotIdentityDrift
    (last_included_index last_included_term durable_snapshot_id live_snapshot_id : Z)
| TermMismatch (durable live : Z)
| RecoveryGapMismatch (expected actual : RecoveryProgressGap).

Inductive RecoveryInvariantError :=
| AppliedBehindSnapshot (applied_index snapshot_index : Z)
| NonContiguousEntries (expected_index actual_index : Z)
| EntryTermExceedsLocal (entry_term local_term index : Z)
| AppliedExceedsCommit (applied_index commit_index : Z).

Definition RecoveryInvariantError_to_string (e : RecoveryInvariantError) : string :=
  match e with
  | AppliedBehindSnapshot a s =>
      "applied_index " +:+ pretty a +:+ " is behind snapshot boundary " +:+ pretty s
  | NonContiguousEntries e a =>
      "recovery entries must be contiguous from " +:+ pretty e +:+ " but saw " +:+ pretty a
  | EntryTermExceedsLocal e l i =>
      "recovery entry term " +:+ pretty e +:+ " exceeds local term " +:+ pretty l +:+
      " at index " +:+ pretty i
  | AppliedExceedsCommit a c =>
      "applied_index " +:+ pretty a +:+ " exceeds commit boundary " +:+ pretty c
  end.

(** ** [ReplicationProgress] *)

Definition prog_apply_gap (p : ReplicationProgress) : Z :=
  saturating_sub (prog_commit_index p) (prog_applied_index p).

Definition prog_is_caught_up (p : ReplicationProgress) : bool :=
  (prog_apply_gap p =? 0) && negb (prog_has_uncommitted_entries p).

Definition prog_validate (p : ReplicationProgress)
    : result unit ReplicationProgressInvariantError :=
  if prog_commit_index p <? prog_applied_index p then
    Err (ProgressAppliedExceedsCommit (prog_applied_index p) (prog_commit_index p))
  else if prog_next_index p <? u64_add (prog_commit_index p) 1 then
    Err (NextIndexBehindCommit (prog_next_index p) (prog_commit_index p))
  else
    let expected_pending := prog_apply_gap p in
    if negb (prog_committed_but_unapplied_count p =? expected_pending) then
      Err (PendingApplyCountMismatch (prog_committed_but_unapplied_count p) expected_pending)
    else
      let expected_has_pending := 0 <? expected_pending in
      if negb (Bool.eqb (prog_has_committed_entries_pending_apply p) expected_has_pending) then
        Err (PendingApplyFlagMismatch (prog_has_committed_entries_pending_apply p)
               expected_has_pending)
      else
        let expected_has_uncommitted := 0 <? prog_uncommitted_entry_count p in
        if negb (Bool.eqb (prog_has_uncommitted_entries p) expected_has_uncommitted) then
          Err (UncommittedFlagMismatch (prog_has_uncommitted_entries p)
                 (prog_uncommitted_entry_count p))
        else if prog_applied_index p <? last_included_index (prog_snapshot p) then
          Err (SnapshotAheadOfApplied (last_included_index (prog_snapshot p))
                 (prog_applied_index p))
        else Ok tt.

(** ** [ReplicationStatusSnapshot] *)

Definition recovery_gap_between (live durable : ReplicationProgress) : RecoveryProgressGap :=
  mkGap
    (saturating_sub (prog_commit_index live) (prog_commit_index durable))
    (saturating_sub (prog_applied_index live) (prog_applied_index durable))
    (saturating_sub (prog_next_index live) (prog_next_index durable))
    (saturating_sub (prog_uncommitted_entry_count live) (prog_uncommitted_entry_count durable)).

(** The [for (field, durable, live) in [..]] loop: the first field that is ahead. *)
Definition ahead_of_live (fields : list (string * Z * Z))
    : result unit ReplicationStatusInvariantError :=
  match List.find (fun '(_, durable, live) => live <? durable) fields with
  | Some (field, durable, live) => Err (DurableAheadOfLive field durable live)
  | None => Ok tt
  end.

Definition map_err {A E F} (f : E -> F) (r : result A E) : result A F :=
  match r with Ok a => Ok a | Err e => Err (f e) end.

Definition status_validate (s : ReplicationStatusSnapshot)
    : result unit ReplicationStatusInvariantError :=
  let d := durable s in
  let l := live s in
  let? _ := map_err LiveProgress (prog_validate l) in
  let? _ := map_err DurableProgress (prog_validate d) in
  if negb (prog_term d =? prog_term l) then Err (TermMismatch (prog_term d) (prog_term l))
  else
    let ds := prog_snapshot d in
    let ls := prog_snapshot l in
    let? _ := ahead_of_live
      [("snapshot.last_included_index", last_included_index ds, last_included_index ls);
       ("snapshot.last_included_term", last_included_term ds, last_included_term ls);
       ("commit_index", prog_commit_index d, prog_commit_index l);
       ("applied_index", prog_applied_index d, prog_applied_index l);
       ("next_index", prog_next_index d, prog_next_index l);
       ("uncommitted_entry_count", prog_uncommitted_entry_count d,
          prog_uncommitted_entry_count l)] in
    if (last_included_index ds =? last_included_index ls) &&
       (last_included_term ds =? last_included_term ls) &&
       negb (snapshot_id ds =? snapshot_id ls) then
      Err (SnapshotIdentityDrift (last_included_index ls) (last_included_term ls)
             (snapshot_id ds) (snapshot_id ls))
    else
      let expected := recovery_gap_between l d in
      if bool_decide (recovery_gap s = expected) then Ok tt
      else Err (RecoveryGapMismatch expected (recovery_gap s)).

Definition status_new (live durable : ReplicationProgress) (gap : RecoveryProgressGap)
    : result ReplicationStatusSnapshot ReplicationStatusInvariantError :=
  let snapshot := mkStatus live durable gap in
  let? _ := status_validate snapshot in Ok snapshot.

Definition status_is_restart_equivalent (s : ReplicationStatusSnapshot) : bool :=
  gap_is_restart_equivalent (recovery_gap s).

Definition status_has_speculative_tail (s : ReplicationStatusSnapshot) : bool :=
  gap_has_speculative_tail (recovery_gap s).

(** ** [RecoveryState] *)

Definition rec_commit_index (r : RecoveryState) : Z :=
  match last (rec_committed_entries r) with
  | Some entry => entry_index entry
  | None => last_included_index (rec_snapshot r)
  end.

Definition rec_next_index (r : RecoveryState) : Z := u64_add (rec_commit_index r) 1.

Definition rec_committed_but_unapplied_count (r : RecoveryState) : Z :=
  saturating_sub (rec_commit_index r) (rec_applied_index r).

Definition rec_has_committed_entries_pending_apply (r : RecoveryState) : bool :=
  rec_applied_index r <? rec_commit_index r.

Definition rec_apply_gap (r : RecoveryState) : Z :=
  saturating_sub (rec_commit_index r) (rec_applied_index r).

Definition rec_is_caught_up (r : RecoveryState) : bool := rec_apply_gap r =? 0.

(** The loop over [(expected..).zip(entries)]. *)
Fixpoint validate_entries (term expected : Z) (l : list LogEntry)
    : result unit RecoveryInvariantError :=
  match l with
  | [] => Ok tt
  | entry :: rest =>
      if negb (entry_index entry =? expected) then
        Err (NonContiguousEntries expected (entry_index entry))
      else if term <? entry_term entry then
        Err (EntryTermExceedsLocal (entry_term entry) term (entry_index entry))
      else validate_entries term (u64_add expected 1) rest
  end.

Definition rec_validate (r : RecoveryState) : result unit RecoveryInvariantError :=
  let snapshot_index := last_included_index (rec_snapshot r) in
  if rec_applied_index r <? snapshot_index then
    Err (AppliedBehindSnapshot (rec_applied_index r) snapshot_index)
  else
    let? _ := validate_entries (rec_term r) (u64_add snapshot_index 1)
                (rec_committed_entries r) in
    let commit_index := rec_commit_index r in
    if commit_index <? rec_applied_index r then
      Err (AppliedExceedsCommit (rec_applied_index r) commit_index)
    else Ok tt.

(** [None] is the panic of [expect]. *)
Definition progress_as_follower (r : RecoveryState)
    : option (result ReplicationProgress RecoveryInvariantError) :=
  match rec_validate r with
  | Err e => Some (Err e)
  | Ok _ =>
      let progress :=
        mkProgress Follower (Z.max (rec_term r) (last_included_term (rec_snapshot r)))
          (rec_commit_index r) (rec_applied_index r) (rec_next_index r) (rec_snapshot r)
          (rec_committed_but_unapplied_count r) (rec_has_committed_entries_pending_apply r)
          0 false in
      match prog_validate progress with
      | Ok _ => Some (Ok progress)
      | Err _ => None
      end
  end.

(** ** What the validators accept *)

Lemma prog_validate_Ok p :
  is_u64 (prog_commit_index p) ->
  0 <= prog_next_index p ->
  prog_applied_index p <= prog_commit_index p ->
  prog_commit_index p + 1 <= prog_next_index p \/ prog_commit_index p = u64_max ->
  prog_committed_but_unapplied_count p = prog_commit_index p - prog_applied_index p ->
  prog_has_committed_entries_pending_apply p =
    (prog_applied_index p <? prog_commit_index p) ->
  prog_has_uncommitted_entries p = (0 <? prog_uncommitted_entry_count p) ->
  last_included_index (prog_snapshot p) <= prog_applied_index p ->
  prog_validate p = Ok tt.
Proof.
  intros Hc Hn Ha Hnext Hcount Hpend Hunc Hsnap. unfold prog_validate, prog_apply_gap.
  rewrite Hcount, Hpend, Hunc. unfold saturating_sub. rewrite Z.max_r by lia.
  rewrite (proj2 (Z.ltb_ge _ _)) by lia. rewrite (proj2 (Z.ltb_ge _ _)).
  2: { destruct Hnext as [Hnext|Hmax].
       - destruct (decide (prog_commit_index p = u64_max)) as [->|Hne]; [done|].
         rewrite u64_add_small; u64_unfold; lia.
       - rewrite Hmax. by vm_compute in Hn |- *. }
  rewrite Z.eqb_refl. cbn.
  replace (prog_applied_index p <? prog_commit_index p)
    with (0 <? prog_commit_index p - prog_applied_index p) by lia.
  rewrite !Bool.eqb_reflx. cbn. by rewrite (proj2 (Z.ltb_ge _ _)) by lia.
Qed.

End Progress.
