(* ===== verification/Log.v ===== *)
(** * Contiguous logs

    The retained log of both replicators (crates/replication/src/lib.rs and local.rs) is
    a vector of entries with consecutive indexes.  On such a log the vector operations the
    code uses, [retain] by index, [find] by index, [last] and [sort_by_key], are [take],
    [drop], lookup by position and the identity. *)

From stdpp Require Import base list sorting.
From S2P Require Import Prelude Types.

Module Log.

(** [entries.iter().find(|entry| entry.index == index)] *)
Definition find_entry (l : list LogEntry) (index : Z) : option LogEntry :=
  List.find (fun entry => entry_index entry =? index) l.

#[global] Arguments find_entry : simpl never.

(** The order of [sort_by_key(|entry| entry.index)]. *)
Definition index_le (a b : LogEntry) : Prop := entry_index a <= entry_index b.

#[export] Instance index_le_dec : RelDecision index_le.
Proof. intros a b. unfold index_le. apply _. Defined.

#[export] Instance index_le_trans : Transitive index_le.
Proof. intros a b c. unfold index_le. lia. Qed.

#[export] Instance index_le_total : Total index_le.
Proof. intros a b. unfold index_le. lia. Qed.

Fixpoint contiguous (first : Z) (l : list LogEntry) : Prop :=
  match l with
  | [] => True
  | e :: l => entry_index e = first /\ contiguous (first + 1) l
  end.

Lemma contiguous_app f l1 l2 :
  contiguous f (l1 ++ l2) <-> contiguous f l1 /\ contiguous (f + vec_len l1) l2.
Proof.
  revert f. induction l1 as [|e l1 IH]; intros f; cbn.
  - unfold vec_len. cbn. rewrite Z.add_0_r. tauto.
  - rewrite IH. unfold vec_len. cbn [length].
    replace (f + 1 + Z.of_nat (length l1)) with (f + Z.of_nat (S (length l1))) by lia. tauto.
Qed.

Lemma contiguous_lookup f l i e :
  contiguous f l -> l !! i = Some e -> entry_index e = f + Z.of_nat i.
Proof.
  revert f i. induction l as [|x l IH]; intros f i; [done|].
  intros [Hx Hl]. destruct i as [|i]; cbn; [intros [= ->]; lia|].
  intros H. rewrite (IH _ _ Hl H). lia.
Qed.

Lemma contiguous_elem f l e :
  contiguous f l -> e ∈ l -> f <= entry_index e < f + vec_len l.
Proof.
  intros Hl [i Hi]%list_elem_of_lookup. rewrite (contiguous_lookup f l i e) by done.
  apply lookup_lt_Some in Hi. unfold vec_len. lia.
Qed.

Lemma contiguous_take f l n : contiguous f l -> contiguous f (take n l).
Proof. intros H. rewrite <- (take_drop n l) in H. by apply contiguous_app in H as [? _]. Qed.

Lemma contiguous_drop f l n :
  contiguous f l -> (n <= length l)%nat -> contiguous (f + Z.of_nat n) (drop n l).
Proof.
  intros H Hn. rewrite <- (take_drop n l) in H. apply contiguous_app in H as [_ H].
  unfold vec_len in H. by rewrite length_take_le in H.
Qed.

Lemma contiguous_snoc f l e :
  contiguous f l -> entry_index e = f + vec_len l -> contiguous f (l ++ [e]).
Proof. intros. apply contiguous_app. by repeat split. Qed.

Lemma contiguous_last f l e :
  contiguous f l -> last l = Some e -> entry_index e = f + vec_len l - 1.
Proof.
  intros Hl He. rewrite last_lookup in He. rewrite (contiguous_lookup f l _ e Hl He).
  destruct l; [done|]. unfold vec_len. cbn. lia.
Qed.

Lemma find_entry_lookup f l i :
  contiguous f l -> find_entry l i = if f <=? i then l !! Z.to_nat (i - f) else None.
Proof.
  unfold find_entry. revert f. induction l as [|e l IH]; intros f; cbn; [by destruct (f <=? i)|].
  intros [He Hl]. rewrite He. destruct (Z.eqb_spec f i) as [->|Hne].
  - rewrite Z.leb_refl. by rewrite Z.sub_diag.
  - rewrite (IH _ Hl).
    destruct (Z.leb_spec (f + 1) i), (Z.leb_spec f i); try lia; try done.
    replace (Z.to_nat (i - f)) with (S (Z.to_nat (i - (f + 1)))) by lia. done.
Qed.

Lemma find_entry_index l i e : find_entry l i = Some e -> entry_index e = i /\ e ∈ l.
Proof.
  intros [Hin He]%List.find_some. apply Z.eqb_eq in He. split; [done|by apply list_elem_of_In].
Qed.

Lemma find_entry_elem f l e : contiguous f l -> e ∈ l -> find_entry l (entry_index e) = Some e.
Proof.
  intros Hl [i Hi]%list_elem_of_lookup. rewrite (find_entry_lookup f) by done.
  rewrite (contiguous_lookup f l i e) by done. rewrite (proj2 (Z.leb_le _ _)) by lia.
  by replace (Z.to_nat (f + Z.of_nat i - f)) with i by lia.
Qed.

Lemma find_entry_Some f l i :
  contiguous f l -> is_Some (find_entry l i) <-> f <= i < f + vec_len l.
Proof.
  intros Hl. rewrite (find_entry_lookup f) by done. unfold vec_len.
  destruct (Z.leb_spec f i).
  - rewrite lookup_lt_is_Some. lia.
  - split; [by intros []|lia].
Qed.

Lemma find_entry_None f l i :
  contiguous f l -> find_entry l i = None <-> ~ (f <= i < f + vec_len l).
Proof. intros Hl. rewrite <- (find_entry_Some f l i) by done. by rewrite <- eq_None_not_Some. Qed.

(** [retain] by index keeps the entries found at the indexes it accepts. *)
Lemma find_entry_filter (p : LogEntry -> bool) (q : Z -> bool) l i :
  (forall e, e ∈ l -> p e = q (entry_index e)) ->
  find_entry (List.filter p l) i = if q i then find_entry l i else None.
Proof.
  unfold find_entry. induction l as [|e l IH]; cbn; intros Hp; [by destruct (q i)|].
  rewrite (Hp e) by left. assert (forall e, e ∈ l -> p e = q (entry_index e)) as Hp'
    by (intros; apply Hp; by right).
  destruct (q (entry_index e)) eqn:E; cbn.
  - destruct (Z.eqb_spec (entry_index e) i) as [<-|Hne]; [by rewrite E|by apply IH].
  - rewrite IH by done. destruct (Z.eqb_spec (entry_index e) i) as [<-|Hne]; [by rewrite E|done].
Qed.

Lemma find_entry_app_l l1 l2 i e : find_entry l1 i = Some e -> find_entry (l1 ++ l2) i = Some e.
Proof.
  unfold find_entry. induction l1 as [|x l1 IH]; cbn; [done|]. by destruct (_ =? _).
Qed.

Lemma find_entry_app_r l1 l2 i : find_entry l1 i = None -> find_entry (l1 ++ l2) i = find_entry l2 i.
Proof.
  unfold find_entry. induction l1 as [|x l1 IH]; cbn; [done|]. by destruct (_ =? _).
Qed.

(** [retain(|e| e.index < k)] and [retain(|e| e.index > k)] *)
Lemma filter_below f l k :
  contiguous f l ->
  List.filter (fun e => entry_index e <? k) l = take (Z.to_nat (k - f)) l.
Proof.
  revert f. induction l as [|e l IH]; intros f; cbn; [by rewrite take_nil|].
  intros [He Hl]. rewrite (IH _ Hl), He. destruct (Z.ltb_spec f k).
  - by replace (Z.to_nat (k - f)) with (S (Z.to_nat (k - (f + 1)))) by lia.
  - replace (Z.to_nat (k - f)) with 0%nat by lia.
    by replace (Z.to_nat (k - (f + 1))) with 0%nat by lia.
Qed.

Lemma filter_above f l k :
  contiguous f l ->
  List.filter (fun e => k <? entry_index e) l = drop (Z.to_nat (k + 1 - f)) l.
Proof.
  revert f. induction l as [|e l IH]; intros f; cbn; [by rewrite drop_nil|].
  intros [He Hl]. rewrite (IH _ Hl), He. destruct (Z.ltb_spec k f).
  - replace (Z.to_nat (k + 1 - f)) with 0%nat by lia.
    by replace (Z.to_nat (k + 1 - (f + 1))) with 0%nat by lia.
  - by replace (Z.to_nat (k + 1 - f)) with (S (Z.to_nat (k + 1 - (f + 1)))) by lia.
Qed.

Lemma filter_below_contiguous f l k :
  contiguous f l -> f <= k ->
  let l' := List.filter (fun e => entry_index e <? k) l in
  contiguous f l' /\ f + vec_len l' = Z.min k (f + vec_len l).
Proof.
  intros Hl Hk. cbn. rewrite (filter_below f) by done. split; [by apply contiguous_take|].
  unfold vec_len. rewrite length_take. lia.
Qed.

Lemma filter_above_contiguous f l k :
  contiguous f l -> f <= k + 1 <= f + vec_len l ->
  let l' := List.filter (fun e => k <? entry_index e) l in
  contiguous (k + 1) l' /\ k + 1 + vec_len l' = f + vec_len l.
Proof.
  intros Hl Hk. cbn. rewrite (filter_above f) by done. unfold vec_len in *.
  rewrite length_drop. split; [|lia].
  replace (k + 1) with (f + Z.of_nat (Z.to_nat (k + 1 - f))) at 1 by lia.
  apply contiguous_drop; [done|lia].
Qed.

Lemma filter_le_lt (l : list LogEntry) k :
  List.filter (fun e => entry_index e <=? k) l = List.filter (fun e => entry_index e <? k + 1) l.
Proof. apply List.filter_ext. intros e. lia. Qed.

Lemma filter_and {A} (p q : A -> bool) l :
  List.filter (fun x => p x && q x) l = List.filter p (List.filter q l).
Proof.
  induction l as [|x l IH]; [done|]. cbn. destruct (q x); cbn; destruct (p x); cbn; by rewrite IH.
Qed.

(** Sorting a contiguous log by index does nothing. *)
Lemma contiguous_sorted f l : contiguous f l -> StronglySorted index_le l.
Proof.
  revert f. induction l as [|e l IH]; intros f; [constructor|]. intros [He Hl].
  constructor; [by eapply IH|]. apply Forall_forall. intros x Hx.
  pose proof (contiguous_elem _ _ _ Hl Hx). unfold index_le. lia.
Qed.

Lemma merge_sort_contiguous f l : contiguous f l -> merge_sort index_le l = l.
Proof.
  intros Hl. apply (StronglySorted_unique_strong index_le).
  - intros a b Ha Hb Hab Hba. rewrite merge_sort_Permutation in Ha.
    assert (find_entry l (entry_index a) = Some a) as Ea by by eapply find_entry_elem.
    assert (find_entry l (entry_index b) = Some b) as Eb by by eapply find_entry_elem.
    unfold index_le in *. replace (entry_index a) with (entry_index b) in Ea by lia. congruence.
  - apply (StronglySorted_merge_sort _).
  - by eapply contiguous_sorted.
  - apply merge_sort_Permutation.
Qed.

(** Two contiguous logs of the same extent with the same entries are equal. *)
Lemma contiguous_ext f l1 l2 :
  contiguous f l1 -> contiguous f l2 -> vec_len l1 = vec_len l2 ->
  (forall i, f <= i < f + vec_len l1 -> find_entry l1 i = find_entry l2 i) -> l1 = l2.
Proof.
  intros H1 H2 Hlen Hf. apply list_eq_same_length with (length l1); [unfold vec_len in *; lia|done|].
  intros i x y Hi Hx Hy. specialize (Hf (f + Z.of_nat i) ltac:(unfold vec_len; lia)).
  rewrite !(find_entry_lookup f) in Hf by done. rewrite (proj2 (Z.leb_le _ _)) in Hf by lia.
  replace (Z.to_nat (f + Z.of_nat i - f)) with i in Hf by lia. congruence.
Qed.

End Log.
