(* ===== verification/Raft.v ===== *)
(** * The Raft replicator (crates/replication/src/lib.rs)

    The replicated log of one node: elections and votes, the follower's append path, the
    leader's proposals and quorum commits, snapshots, truncation and recovery.  An
    operation that returns a value and mutates the node returns both; a panic ([assert!],
    [expect]) is [None].  [ack_counts] is a finite map to sets of voter ids. *)

From stdpp Require Import base gmap strings list sorting pretty.
From S2P Require Import Prelude Types Progress Log.

Module Raft.
Import Progress Log.

(** ** RPC messages (crates/replication/src/rpc.rs) *)

Record RequestVoteRequest := mkVoteRequest {
  candidate_term : Z;
  candidate_id : Z;
  last_log_index : Z;
  last_log_term : Z;
}.

Record RequestVoteResponse := mkVoteResponse {
  granted : bool;
  voter_term : Z;
  vote_error : option string;
}.

Record AppendEntriesRequest := mkAppendRequest {
  leader_term : Z;
  prev_log_index : Z;
  prev_log_term : Z;
  req_entries : list LogEntry;
  leader_commit : Z;
}.

Record AppendEntriesResponse := mkAppendResponse {
  accepted : bool;
  follower_term : Z;
  follower_commit_index : Z;
  follower_applied_index : Z;
  resp_error : option string;
}.

(** ** The node *)

Record RaftReplicator := mkRaft {
  term : Z;
  next_index : Z;
  commit_index : Z;
  applied_index : Z;
  applied_term : Z;
  role : Role;
  entries : list LogEntry;
  node_snapshot_id : Z;
  compacted_index : Z;
  compacted_term : Z;
  voters : Z;
  quorum : Z;
  voted_for : option Z;
  ack_counts : gmap Z (gset Z);
}.

(** Assignment to a field. *)
Definition set_term (r : RaftReplicator) (x : Z) : RaftReplicator :=
  mkRaft x (next_index r) (commit_index r) (applied_index r) (applied_term r) (role r)
    (entries r) (node_snapshot_id r) (compacted_index r) (compacted_term r) (voters r)
    (quorum r) (voted_for r) (ack_counts r).
Definition set_next_index (r : RaftReplicator) (x : Z) : RaftReplicator :=
  mkRaft (term r) x (commit_index r) (applied_index r) (applied_term r) (role r)
    (entries r) (node_snapshot_id r) (compacted_index r) (compacted_term r) (voters r)
    (quorum r) (voted_for r) (ack_counts r).
Definition set_commit_index (r : RaftReplicator) (x : Z) : RaftReplicator :=
  mkRaft (term r) (next_index r) x (applied_index r) (applied_term r) (role r)
    (entries r) (node_snapshot_id r) (compacted_index r) (compacted_term r) (voters r)
    (quorum r) (voted_for r) (ack_counts r).
Definition set_applied (r : RaftReplicator) (i t : Z) : RaftReplicator :=
  mkRaft (term r) (next_index r) (commit_index r) i t (role r)
    (entries r) (node_snapshot_id r) (compacted_index r) (compacted_term r) (voters r)
    (quorum r) (voted_for r) (ack_counts r).
Definition set_role (r : RaftReplicator) (x : Role) : RaftReplicator :=
  mkRaft (term r) (next_index r) (commit_index r) (applied_index r) (applied_term r) x
    (entries r) (node_snapshot_id r) (compacted_index r) (compacted_term r) (voters r)
    (quorum r) (voted_for r) (ack_counts r).
Definition set_entries (r : RaftReplicator) (x : list LogEntry) : RaftReplicator :=
  mkRaft (term r) (next_index r) (commit_index r) (applied_index r) (applied_term r) (role r)
    x (node_snapshot_id r) (compacted_index r) (compacted_term r) (voters r)
    (quorum r) (voted_for r) (ack_counts r).
Definition set_snapshot_id (r : RaftReplicator) (x : Z) : RaftReplicator :=
  mkRaft (term r) (next_index r) (commit_index r) (applied_index r) (applied_term r) (role r)
    (entries r) x (compacted_index r) (compacted_term r) (voters r)
    (quorum r) (voted_for r) (ack_counts r).
Definition set_compacted (r : RaftReplicator) (i t : Z) : RaftReplicator :=
  mkRaft (term r) (next_index r) (commit_index r) (applied_index r) (applied_term r) (role r)
    (entries r) (node_snapshot_id r) i t (voters r)
    (quorum r) (voted_for r) (ack_counts r).
Definition set_voted_for (r : RaftReplicator) (x : option Z) : RaftReplicator :=
  mkRaft (term r) (next_index r) (commit_index r) (applied_index r) (applied_term r) (role r)
    (entries r) (node_snapshot_id r) (compacted_index r) (compacted_term r) (voters r)
    (quorum r) x (ack_counts r).
Definition set_ack_counts (r : RaftReplicator) (x : gmap Z (gset Z)) : RaftReplicator :=
  mkRaft (term r) (next_index r) (commit_index r) (applied_index r) (applied_term r) (role r)
    (entries r) (node_snapshot_id r) (compacted_index r) (compacted_term r) (voters r)
    (quorum r) (voted_for r) x.

(** [None] is the failed [assert!(voters >= 1)]. *)
Definition new (voters : Z) : option RaftReplicator :=
  if 1 <=? voters then
    Some (mkRaft 1 1 0 0 0 Follower [] 0 0 0 voters (voters / 2 + 1) None ∅)
  else None.

Definition single_node_leader : option RaftReplicator :=
  match new 1 with Some s => Some (set_role s Leader) | None => None end.

(** ** Log access *)

Definition snapshot_meta (r : RaftReplicator) : SnapshotMeta :=
  mkMeta (applied_index r) (applied_term r) (node_snapshot_id r).

Definition term_at (r : RaftReplicator) (index : Z) : option Z :=
  if index =? 0 then Some 0
  else if index =? compacted_index r then Some (compacted_term r)
  else if index <? compacted_index r then None
  else
    match find_entry (entries r) index with
    | Some entry => Some (entry_term entry)
    | None => if index =? applied_index r then Some (applied_term r) else None
    end.

Definition last_log_position (r : RaftReplicator) : Z * Z :=
  match last (entries r) with
  | Some entry => (entry_index entry, entry_term entry)
  | None => (compacted_index r, compacted_term r)
  end.

Definition candidate_log_is_up_to_date (r : RaftReplicator)
    (candidate_last_index candidate_last_term : Z) : bool :=
  let '(last_index, last_term) := last_log_position r in
  (last_term <? candidate_last_term) ||
  ((candidate_last_term =? last_term) && (last_index <=? candidate_last_index)).

(** [self.entries.last().map(|e| e.index).unwrap_or(self.commit_index)] *)
Definition tail_index (r : RaftReplicator) : Z :=
  match last (entries r) with Some e => entry_index e | None => commit_index r end.

(** ** Role changes *)

(** The body [become_follower], [become_leader] and [become_candidate] share. *)
Definition become (new_role : Role) (r : RaftReplicator) (new_term : Z) : RaftReplicator :=
  let previous_term := term r in
  let r := set_term r (Z.max (term r) new_term) in
  let r := set_role r new_role in
  let r := if previous_term <? term r then set_voted_for r None else r in
  let r := set_entries r (List.filter (fun e => entry_index e <=? commit_index r) (entries r)) in
  let r := set_next_index r (u64_add (commit_index r) 1) in
  set_ack_counts r ∅.

Definition become_follower : RaftReplicator -> Z -> RaftReplicator := become Follower.
Definition become_leader : RaftReplicator -> Z -> RaftReplicator := become Leader.
Definition become_candidate : RaftReplicator -> Z -> RaftReplicator := become Candidate.

(** [None] is the failed [assert!(candidate_id > 0)]. *)
Definition start_candidate_election (r : RaftReplicator) (candidate : Z)
    : option (RaftReplicator * RequestVoteRequest) :=
  if 0 <? candidate then
    let r := set_term r (u64_add (term r) 1) in
    let r := set_role r Candidate in
    let r := set_voted_for r (Some candidate) in
    let r := set_ack_counts r ∅ in
    let '(last_index, last_term) := last_log_position r in
    Some (r, mkVoteRequest (term r) candidate last_index last_term)
  else None.

Definition request_vote_from_candidate (r : RaftReplicator) (request : RequestVoteRequest)
    : RaftReplicator * RequestVoteResponse :=
  if candidate_term request <? term r then
    (r, mkVoteResponse false (term r)
          (Some ("stale candidate term " +:+ pretty (candidate_term request) +:+
                 " (local term " +:+ pretty (term r) +:+ ")")))
  else
    let r :=
      if term r <? candidate_term request then
        set_ack_counts (set_voted_for (set_role (set_term r (candidate_term request)) Follower)
                          None) ∅
      else r in
    let already_voted_elsewhere :=
      match voted_for r with
      | Some voted => negb (voted =? candidate_id request)
      | None => false
      end in
    if already_voted_elsewhere then
      (r, mkVoteResponse false (term r)
            (Some ("already voted for candidate " +:+
                   (match voted_for r with Some voted => pretty voted | None => EmptyString end) +:+
                   " in term " +:+ pretty (term r))))
    else if negb (candidate_log_is_up_to_date r (last_log_index request)
                    (last_log_term request)) then
      (r, mkVoteResponse false (term r)
            (Some ("candidate log is behind voter log at index " +:+
                   pretty (last_log_position r).1 +:+ " term " +:+
                   pretty (last_log_position r).2)))
    else
      let r := set_role (set_voted_for r (Some (candidate_id request))) Follower in
      (r, mkVoteResponse true (term r) None).

(** ** Reading the log *)

Definition drain_committed_from (r : RaftReplicator) (start_exclusive : Z) : list LogEntry :=
  List.filter (fun e => (start_exclusive <? entry_index e) && (entry_index e <=? commit_index r))
    (entries r).

Definition retained_entry_count (r : RaftReplicator) : Z := vec_len (entries r).

Definition committed_but_unapplied_count (r : RaftReplicator) : Z :=
  saturating_sub (commit_index r) (applied_index r).

Definition has_committed_entries_pending_apply (r : RaftReplicator) : bool :=
  applied_index r <? commit_index r.

Definition uncommitted_entry_count (r : RaftReplicator) : Z :=
  vec_len (List.filter (fun e => commit_index r <? entry_index e) (entries r)).

Definition has_uncommitted_entries (r : RaftReplicator) : bool :=
  List.existsb (fun e => commit_index r <? entry_index e) (entries r).

Definition voter_count (r : RaftReplicator) : Z := voters r.

Definition quorum_size (r : RaftReplicator) : Z := quorum r.

Definition wait_committed (r : RaftReplicator) (token : CommitToken) : result Z EngineError :=
  if token_index token <=? commit_index r then Ok (token_index token)
  else Err (ProposalFailed ("token " +:+ pretty (token_index token) +:+
              " is not committed yet (commit_index=" +:+ pretty (commit_index r) +:+ ")")).

(** ** Applying, truncating *)

Definition mark_applied (r : RaftReplicator) (idx : Z) : RaftReplicator :=
  let bounded := Z.min idx (commit_index r) in
  if bounded <=? applied_index r then r
  else
    match find_entry (entries r) bounded with
    | Some entry => set_applied r bounded (entry_term entry)
    | None => set_applied r bounded (applied_term r)
    end.

Definition truncate_uncommitted_from (r : RaftReplicator) (index_inclusive : Z)
    : RaftReplicator :=
  if index_inclusive <=? commit_index r then r
  else
    let r := set_entries r (List.filter (fun e => entry_index e <? index_inclusive) (entries r)) in
    let r := set_ack_counts r (filter (fun p => p.1 < index_inclusive) (ack_counts r)) in
    set_next_index r (u64_add (tail_index r) 1).

(** ** The leader *)

(** [while self.commit_index + 1 < self.next_index { .. }]; each turn raises
    [commit_index] by one, so [next_index - commit_index] turns are enough. *)
Fixpoint advance_commit (fuel : nat) (r : RaftReplicator) : RaftReplicator :=
  match fuel with
  | O => r
  | S fuel =>
      let next := u64_add (commit_index r) 1 in
      if next <? next_index r then
        match ack_counts r !! next with
        | None => r
        | Some acks =>
            if quorum r <=? Z.of_nat (size acks) then
              advance_commit fuel (set_commit_index r next)
            else r
        end
      else r
  end.

Definition advance_fuel (r : RaftReplicator) : nat := Z.to_nat (next_index r - commit_index r).

Definition register_follower_ack (r : RaftReplicator) (index follower_id : Z)
    : RaftReplicator :=
  if negb (bool_decide (role r = Leader)) || (index =? 0) || (next_index r <=? index) ||
     (follower_id =? 0) then r
  else
    match ack_counts r !! index with
    | None => r
    | Some acks =>
        let r := set_ack_counts r (<[index := {[follower_id]} ∪ acks]> (ack_counts r)) in
        let r := advance_commit (advance_fuel r) r in
        set_ack_counts r (filter (fun p => commit_index r < p.1) (ack_counts r))
    end.

Definition propose (r : RaftReplicator) (payload : list byte)
    : RaftReplicator * result CommitToken EngineError :=
  if negb (bool_decide (role r = Leader)) then (r, Err NotLeader)
  else if next_index r =? u64_max then
    (r, Err (ProposalFailed "commit sequence space exhausted"))
  else
    let idx := next_index r in
    let r := set_next_index r (idx + 1) in
    let r := set_entries r (entries r ++ [mkEntry (term r) idx payload]) in
    let r := set_ack_counts r (<[idx := {[0]}]> (ack_counts r)) in
    let r := if quorum r =? 1 then set_commit_index r idx else r in
    (r, Ok (mkToken idx)).

(** ** The follower's append path *)

(** The contiguity and term checks over [(prev_log_index + 1..).zip(entries)]. *)
Fixpoint check_incoming (leader_term first expected_index : Z) (l : list LogEntry)
    : result unit EngineError :=
  match l with
  | [] => Ok tt
  | entry :: rest =>
      if leader_term <? entry_term entry then
        Err (ProposalFailed ("entry term " +:+ pretty (entry_term entry) +:+
               " exceeds leader term " +:+ pretty leader_term +:+ " at index " +:+
               pretty (entry_index entry)))
      else if negb (entry_index entry =? expected_index) then
        Err (ProposalFailed ("append entries must be contiguous from " +:+ pretty first +:+
               " but saw " +:+ pretty (entry_index entry)))
      else check_incoming leader_term first (u64_add expected_index 1) rest
  end.

(** [if self.entries.iter().all(|e| e.index != incoming.index) { push }] *)
Definition push_if_absent (r : RaftReplicator) (incoming : LogEntry) : RaftReplicator :=
  if List.forallb (fun entry => negb (entry_index entry =? entry_index incoming)) (entries r)
  then set_entries r (entries r ++ [incoming]) else r.

Fixpoint merge_incoming (r : RaftReplicator) (l : list LogEntry)
    : RaftReplicator * result unit EngineError :=
  match l with
  | [] => (r, Ok tt)
  | incoming :: rest =>
      match find_entry (entries r) (entry_index incoming) with
      | Some existing =>
          if entry_term existing =? entry_term incoming then
            if negb (bool_decide (entry_payload existing = entry_payload incoming)) then
              (r, Err (ProposalFailed ("payload mismatch at index " +:+
                         pretty (entry_index incoming) +:+ " term " +:+
                         pretty (entry_term incoming))))
            else merge_incoming r rest
          else if entry_index incoming <=? commit_index r then
            (r, Err (ProposalFailed ("refusing to overwrite committed index " +:+
                       pretty (entry_index incoming))))
          else
            merge_incoming
              (push_if_absent (truncate_uncommitted_from r (entry_index incoming)) incoming) rest
      | None => merge_incoming (push_if_absent r incoming) rest
      end
  end.

(** The steps after the checks: sort, advance the commit index, set the frontier. *)
Definition finish_append (r : RaftReplicator) (leader_commit : Z) : RaftReplicator :=
  let r := set_entries r (merge_sort index_le (entries r)) in
  let last_local_index := tail_index r in
  let target_commit := Z.min leader_commit last_local_index in
  let r := if commit_index r <? target_commit then set_commit_index r target_commit else r in
  set_next_index r (u64_add last_local_index 1).

(** [prev_log_index > 0]: the entry before the batch must be there with the same term. *)
Definition check_prev (r : RaftReplicator) (prev_log_index prev_log_term : Z)
    : result unit EngineError :=
  if prev_log_index <? compacted_index r then
    Err (ProposalFailed ("prev_log_index=" +:+ pretty prev_log_index +:+
           " is behind compacted boundary " +:+ pretty (compacted_index r)))
  else if 0 <? prev_log_index then
    match term_at r prev_log_index with
    | None => Err (ProposalFailed ("missing prev_log_index=" +:+ pretty prev_log_index +:+
                     " for append"))
    | Some local_prev_term =>
        if negb (local_prev_term =? prev_log_term) then
          Err (ProposalFailed ("prev_log_term mismatch at index " +:+ pretty prev_log_index +:+
                 ": local=" +:+ pretty local_prev_term +:+ ", remote=" +:+
                 pretty prev_log_term))
        else Ok tt
    end
  else Ok tt.

Definition append_entries_from_leader (r : RaftReplicator)
    (leader_term prev_log_index prev_log_term : Z) (incoming : list LogEntry)
    (leader_commit : Z) : RaftReplicator * result unit EngineError :=
  if bool_decide (role r = Leader) then
    (r, Err (ProposalFailed "leader cannot accept follower append path"))
  else if leader_term <? term r then
    (r, Err (ProposalFailed ("stale leader term " +:+ pretty leader_term +:+ " (local term " +:+
               pretty (term r) +:+ ")")))
  else
    let r :=
      if negb (bool_decide (role r = Follower)) || (term r <? leader_term) then
        become_follower r leader_term
      else set_role (set_term r leader_term) Follower in
    match check_prev r prev_log_index prev_log_term with
    | Err e => (r, Err e)
    | Ok _ =>
        let first := u64_add prev_log_index 1 in
        match check_incoming leader_term first first incoming with
        | Err e => (r, Err e)
        | Ok _ =>
            match merge_incoming r incoming with
            | (r, Err e) => (r, Err e)
            | (r, Ok _) => (finish_append r leader_commit, Ok tt)
            end
        end
    end.

(** [AppendEntriesRequest::apply_to] *)
Definition apply_to (request : AppendEntriesRequest) (follower : RaftReplicator)
    : RaftReplicator * AppendEntriesResponse :=
  let '(follower, res) :=
    append_entries_from_leader follower (leader_term request) (prev_log_index request)
      (prev_log_term request) (req_entries request) (leader_commit request) in
  (follower,
   mkAppendResponse (is_ok res) (term follower) (commit_index follower)
     (applied_index follower)
     (match res with Ok _ => None | Err e => Some (EngineError_to_string e) end)).

(** ** Snapshots *)

Definition export_snapshot_meta (r : RaftReplicator) : RaftReplicator * SnapshotMeta :=
  let r := set_snapshot_id r (u64_add (node_snapshot_id r) 1) in (r, snapshot_meta r).

Definition install_snapshot (r : RaftReplicator) (meta : SnapshotMeta) : RaftReplicator :=
  let current := snapshot_meta r in
  let idx := last_included_index meta in
  let advances_frontier := last_included_index current <? idx in
  let same_frontier_same_term :=
    (idx =? last_included_index current) &&
    (last_included_term meta =? last_included_term current) in
  let retains_existing_suffix :=
    same_frontier_same_term ||
    bool_decide (term_at r idx = Some (last_included_term meta)) in
  let regresses_term_on_advanced_frontier :=
    advances_frontier && (last_included_term meta <? last_included_term current) in
  if regresses_term_on_advanced_frontier ||
     (negb advances_frontier && negb same_frontier_same_term) then r
  else
    let r := set_term r (Z.max (term r) (last_included_term meta)) in
    let r := set_commit_index r (Z.max (commit_index r) idx) in
    let r := if compacted_index r <? idx then set_compacted r idx (last_included_term meta)
             else r in
    let r := if applied_index r <? idx then set_applied r idx (last_included_term meta)
             else r in
    let r := set_snapshot_id r (snapshot_id meta) in
    let r := set_entries r
      (List.filter (fun entry => (idx <? entry_index entry) &&
         (retains_existing_suffix || (entry_index entry <=? commit_index r))) (entries r)) in
    let r :=
      if retains_existing_suffix then
        set_ack_counts r (filter (fun p => idx < p.1) (ack_counts r))
      else set_ack_counts r ∅ in
    set_next_index r (u64_add (tail_index r) 1).

(** ** Recovery and progress *)

Definition recovery_state (r : RaftReplicator) : RecoveryState :=
  let snapshot := snapshot_meta r in
  mkRecovery (term r) snapshot
    (List.filter (fun entry => (last_included_index snapshot <? entry_index entry) &&
       (entry_index entry <=? commit_index r)) (entries r))
    (applied_index r).

Definition resume_as_follower (voters : Z) (recovery : RecoveryState)
    : option (result RaftReplicator EngineError) :=
  match rec_validate recovery with
  | Err err => Some (Err (ApplyFailed (RecoveryInvariantError_to_string err)))
  | Ok _ =>
      let commit := rec_commit_index recovery in
      let next := rec_next_index recovery in
      match new voters with
      | None => None
      | Some r =>
          let snapshot := rec_snapshot recovery in
          let r := set_term r (Z.max (rec_term recovery) (last_included_term snapshot)) in
          let r := set_role r Follower in
          let r := set_commit_index r commit in
          let found :=
            if rec_applied_index recovery =? last_included_index snapshot
            then Ok (last_included_term snapshot)
            else ok_or (entry_term <$> find_entry (rec_committed_entries recovery)
                                         (rec_applied_index recovery))
                   (ApplyFailed ("missing applied entry " +:+
                      pretty (rec_applied_index recovery) +:+ " in recovery state")) in
          match found with
          | Err e => Some (Err e)
          | Ok applied_term =>
              let r := set_applied r (rec_applied_index recovery) applied_term in
              let r := set_snapshot_id r (snapshot_id snapshot) in
              let r := set_compacted r (last_included_index snapshot)
                         (last_included_term snapshot) in
              let r := set_entries r (rec_committed_entries recovery) in
              Some (Ok (set_next_index r next))
          end
      end
  end.

(** [None] is a panic, as in [progress_as_follower]. *)
Definition recovery_progress (r : RaftReplicator) : option ReplicationProgress :=
  match progress_as_follower (recovery_state r) with
  | Some (Ok p) => Some p
  | _ => None
  end.

Definition progress (r : RaftReplicator) : option ReplicationProgress :=
  let p := mkProgress (role r) (term r) (commit_index r) (applied_index r) (next_index r)
             (snapshot_meta r) (committed_but_unapplied_count r)
             (has_committed_entries_pending_apply r) (uncommitted_entry_count r)
             (has_uncommitted_entries r) in
  match prog_validate p with Ok _ => Some p | Err _ => None end.

Definition recovery_progress_gap (r : RaftReplicator) : option RecoveryProgressGap :=
  l ← progress r; d ← recovery_progress r; Some (recovery_gap_between l d).

Definition status_snapshot (r : RaftReplicator) : option ReplicationStatusSnapshot :=
  l ← progress r; d ← recovery_progress r; g ← recovery_progress_gap r;
  ok (status_new l d g).

End Raft.
