(* ===== verification/RaftFacts.v ===== *)
(** * Lemmas about the Raft replicator

    The well-formedness of a node, that every operation keeps it, and that no operation
    takes back a committed entry, the commit index or the term. *)

From stdpp Require Import base gmap strings list sorting.
From S2P Require Import Prelude Types Progress Log Raft.

Module RaftFacts.
Import Progress Log Raft.

Record wf (r : RaftReplicator) : Prop := {
  wf_compacted : 0 <= compacted_index r <= applied_index r;
  wf_applied : applied_index r <= commit_index r;
  wf_commit : commit_index r < next_index r;
  wf_next : next_index r <= u64_max;
  wf_log : contiguous (compacted_index r + 1) (entries r);
  wf_len : compacted_index r + 1 + vec_len (entries r) = next_index r;
  wf_term : is_u64 (term r);
  wf_terms : Forall (fun e => entry_term e <= term r) (entries r);
  wf_boundary : compacted_term r <= term r /\ applied_term r <= term r;
  wf_applied_term :
    if applied_index r =? compacted_index r then applied_term r = compacted_term r
    else entry_term <$> find_entry (entries r) (applied_index r) = Some (applied_term r);
  wf_quorum : 1 <= voters r /\ quorum r = voters r / 2 + 1;
}.

(** [r'] keeps what [r] has promised. *)
Record keeps (r r' : RaftReplicator) : Prop := {
  keeps_term : term r <= term r';
  keeps_commit : commit_index r <= commit_index r';
  keeps_applied : applied_index r <= applied_index r';
  keeps_compacted : compacted_index r <= compacted_index r';
  keeps_committed : forall i, compacted_index r' < i <= commit_index r ->
    find_entry (entries r') i = find_entry (entries r) i;
}.

#[export] Instance keeps_refl : Reflexive keeps.
Proof. intros r. by split. Qed.

#[export] Instance keeps_trans : Transitive keeps.
Proof.
  intros r1 r2 r3 [] []. split; try lia. intros i Hi. rewrite keeps_committed1 by lia.
  apply keeps_committed0. lia.
Qed.

Lemma new_wf n r : new n = Some r -> wf r.
Proof.
  unfold new. destruct (Z.leb_spec 1 n); [|done]. intros [= <-].
  split; cbn; try done; try lia; u64_unfold; lia.
Qed.

(** ** The tail of the log *)

Lemma last_index c l k d :
  contiguous (c + 1) l -> c + 1 + vec_len l = k -> c <= d < k ->
  (match last l with Some e => entry_index e | None => d end) = k - 1.
Proof.
  intros Hl Hk Hd. destruct (last l) as [e|] eqn:E.
  - rewrite (contiguous_last _ _ _ Hl E). lia.
  - apply last_None in E as ->. unfold vec_len in Hk. cbn in Hk. lia.
Qed.

Lemma tail_index_wf r : wf r -> tail_index r = next_index r - 1.
Proof.
  intros Hr. unfold tail_index. eapply last_index; [apply Hr|apply Hr|]. destruct Hr. lia.
Qed.

(** The log with everything from [k] on dropped, [k] above the commit index. *)
Lemma cut_facts r k l :
  wf r -> commit_index r < k -> l = List.filter (fun e => entry_index e <? k) (entries r) ->
  contiguous (compacted_index r + 1) l /\
  compacted_index r + 1 + vec_len l = Z.min k (next_index r) /\
  Forall (fun e => entry_term e <= term r) l /\
  (forall i, i < k -> find_entry l i = find_entry (entries r) i).
Proof.
  intros Hr Hk ->. destruct (filter_below_contiguous (compacted_index r + 1) (entries r) k) as [H1 H2];
    [apply Hr|destruct Hr; lia|]. split_and!; [done| | |].
  - rewrite H2, (wf_len r Hr). lia.
  - apply Forall_forall. intros e [He _]%list_elem_of_In%filter_In.
    pose proof (wf_terms r Hr) as Ht. rewrite Forall_forall in Ht. apply Ht.
    by apply list_elem_of_In.
  - intros i Hi. rewrite (find_entry_filter _ (fun i => i <? k)) by done.
    by rewrite (proj2 (Z.ltb_lt _ _)).
Qed.

(** ** Role changes *)

Lemma Forall_le_mono {A} (f : A -> Z) t t' l :
  t <= t' -> Forall (fun e => f e <= t) l -> Forall (fun e => f e <= t') l.
Proof. intros Ht Hl. eapply Forall_impl; [exact Hl|]. intros e; cbn; lia. Qed.

(** The applied term is still the term at the applied index when the log below the
    commit index is kept. *)
Lemma applied_term_kept r l :
  wf r -> (forall i, i <= commit_index r -> find_entry l i = find_entry (entries r) i) ->
  if applied_index r =? compacted_index r then applied_term r = compacted_term r
  else entry_term <$> find_entry l (applied_index r) = Some (applied_term r).
Proof.
  intros Hr Hf. pose proof (wf_applied_term r Hr). destruct (_ =? _); [done|].
  rewrite Hf; [done|apply Hr].
Qed.

Lemma become_ok ro r t : wf r -> is_u64 t -> wf (become ro r t) /\ keeps r (become ro r t).
Proof.
  intros Hr Ht. unfold become. cbn.
  destruct (cut_facts r (commit_index r + 1) _ Hr ltac:(lia) eq_refl) as (H1 & H2 & H3 & H4).
  rewrite filter_le_lt. destruct (term r <? Z.max (term r) t); cbn.
  all: rewrite ?filter_le_lt, u64_add_small by (destruct Hr; u64_unfold; lia).
  all: split; [split; cbn; try (by destruct Hr; u64_unfold; lia)|split; cbn; try lia].
  all: try done.
  all: try (eapply Forall_le_mono; [|exact H3]; lia).
  all: try (apply applied_term_kept; [done|intros; apply H4; lia]).
  all: try (intros i Hi; apply H4; lia).
  all: try (destruct Hr; done).
Qed.

Lemma start_candidate_election_ok r c r' req :
  wf r -> term r < u64_max -> start_candidate_election r c = Some (r', req) ->
  wf r' /\ keeps r r' /\ term r' = term r + 1 /\ voted_for r' = Some c.
Proof.
  intros Hr Hlt. unfold start_candidate_election. destruct (0 <? c); [|done].
  destruct (last_log_position _) as [i t]. intros [= <- _]. cbn.
  rewrite u64_add_small by (destruct Hr; u64_unfold; lia).
  split_and!; try done.
  - split; cbn; try (by destruct Hr); try (destruct Hr; u64_unfold; lia).
    eapply Forall_le_mono; [|apply Hr]. lia.
  - split; cbn; try lia; done.
Qed.

(** ** Votes *)

(** What a vote request does to the node, whatever the answer. *)
Lemma request_vote_effect r q :
  let out := request_vote_from_candidate r q in
  (candidate_term q < term r /\ out.1 = r /\ granted out.2 = false) \/
  (term r <= candidate_term q /\ term out.1 = candidate_term q /\
   entries out.1 = entries r /\ next_index out.1 = next_index r /\
   commit_index out.1 = commit_index r /\ applied_index out.1 = applied_index r /\
   applied_term out.1 = applied_term r /\ compacted_index out.1 = compacted_index r /\
   compacted_term out.1 = compacted_term r /\ voters out.1 = voters r /\
   quorum out.1 = quorum r /\
   (granted out.2 = true -> voted_for out.1 = Some (candidate_id q) /\
      (candidate_term q = term r -> forall v, voted_for r = Some v -> v = candidate_id q)) /\
   (granted out.2 = false ->
      voted_for out.1 = if term r <? candidate_term q then None else voted_for r)).
Proof.
  cbn. unfold request_vote_from_candidate.
  destruct (Z.ltb_spec (candidate_term q) (term r)) as [Hlt|Hge]; [by left|right].
  destruct (Z.ltb_spec (term r) (candidate_term q)) as [Hup|Heq]; cbn.
  - destruct (negb _); cbn; split_and!; try done; try lia; intros; split; try done; lia.
  - assert (term r = candidate_term q) as Ht by lia.
    destruct (voted_for r) as [v|] eqn:Ev; cbn.
    + destruct (Z.eqb_spec v (candidate_id q)) as [->|Hne]; cbn.
      * destruct (negb _); cbn; split_and!; try done; intros; split; naive_solver.
      * split_and!; try done.
    + destruct (negb _); cbn; split_and!; try done; intros; split; naive_solver.
Qed.

Lemma wf_same_log r r' :
  wf r -> term r <= term r' -> is_u64 (term r') ->
  entries r' = entries r -> next_index r' = next_index r -> commit_index r' = commit_index r ->
  applied_index r' = applied_index r -> applied_term r' = applied_term r ->
  compacted_index r' = compacted_index r -> compacted_term r' = compacted_term r ->
  voters r' = voters r -> quorum r' = quorum r ->
  wf r' /\ keeps r r'.
Proof.
  intros Hr Ht Hu He Hn Hc Ha Hat Hci Hct Hv Hq. split.
  - destruct Hr. split; rewrite ?He, ?Hn, ?Hc, ?Ha, ?Hat, ?Hci, ?Hct, ?Hv, ?Hq; try done; try lia.
    by eapply Forall_le_mono.
  - split; rewrite ?He, ?Hc, ?Ha, ?Hci; try done; lia.
Qed.

Lemma request_vote_ok r q :
  wf r -> is_u64 (candidate_term q) ->
  wf (request_vote_from_candidate r q).1 /\ keeps r (request_vote_from_candidate r q).1.
Proof.
  intros Hr Hu. destruct (request_vote_effect r q) as [(_ & -> & _)|H]; [by split|].
  destruct H as (Hle & Ht & H). apply wf_same_log; naive_solver congruence.
Qed.

(** ** Applying and truncating *)

Lemma committed_found r i :
  wf r -> compacted_index r < i < next_index r ->
  exists e, find_entry (entries r) i = Some e /\ entry_term e <= term r.
Proof.
  intros Hr Hi. destruct (find_entry_Some _ _ i (wf_log r Hr)) as [_ [e He]].
  { pose proof (wf_len r Hr). lia. }
  exists e. split; [done|]. apply find_entry_index in He as [_ He].
  pose proof (wf_terms r Hr) as Ht. rewrite Forall_forall in Ht. by apply Ht.
Qed.

Lemma mark_applied_ok r i : wf r -> wf (mark_applied r i) /\ keeps r (mark_applied r i).
Proof.
  intros Hr. unfold mark_applied.
  destruct (Z.leb_spec (Z.min i (commit_index r)) (applied_index r)); [done|].
  destruct (committed_found r (Z.min i (commit_index r)) Hr) as (e & He & Ht);
    [destruct Hr; lia|]. rewrite He.
  split; split; cbn; try done; try apply Hr; try (destruct Hr; lia).
  rewrite (proj2 (Z.eqb_neq _ _)) by (destruct Hr; lia). by rewrite He.
Qed.

(** The effect of truncation, as fields. *)
Lemma truncate_effect r k :
  wf r -> commit_index r < k ->
  exists l, l = List.filter (fun e => entry_index e <? k) (entries r) /\
  truncate_uncommitted_from r k =
    set_next_index (set_ack_counts (set_entries r l)
      (filter (fun p => p.1 < k) (ack_counts r))) (Z.min k (next_index r)).
Proof.
  intros Hr Hk. eexists. split; [done|]. unfold truncate_uncommitted_from.
  rewrite (proj2 (Z.leb_gt _ _)) by done. cbn. f_equal.
  destruct (cut_facts r k _ Hr Hk eq_refl) as (H1 & H2 & _ & _).
  unfold tail_index. cbn. rewrite (last_index _ _ _ _ H1 H2) by (destruct Hr; lia).
  rewrite u64_add_small by (destruct Hr; u64_unfold; lia). lia.
Qed.

Lemma truncate_ok r k :
  wf r -> wf (truncate_uncommitted_from r k) /\ keeps r (truncate_uncommitted_from r k).
Proof.
  intros Hr. destruct (Z.le_gt_cases k (commit_index r)) as [Hk|Hk].
  { unfold truncate_uncommitted_from. by rewrite (proj2 (Z.leb_le _ _)). }
  destruct (truncate_effect r k Hr Hk) as (l & El & ->).
  destruct (cut_facts r k l Hr Hk El) as (H1 & H2 & H3 & H4).
  split; split; cbn; try done; try (destruct Hr; lia).
  all: try apply Hr.
  - apply applied_term_kept; [done|]. intros. apply H4. lia.
  - intros. apply H4. lia.
Qed.

(** ** The leader *)

Lemma propose_ok r p : wf r -> wf (propose r p).1 /\ keeps r (propose r p).1.
Proof.
  intros Hr. unfold propose. destruct (negb _); [done|].
  destruct (Z.eqb_spec (next_index r) u64_max); [done|]. cbn.
  set (e := mkEntry _ _ _).
  assert (contiguous (compacted_index r + 1) (entries r ++ [e])) as Hl.
  { apply contiguous_snoc; [apply Hr|]. cbn. rewrite (wf_len r Hr). done. }
  assert (vec_len (entries r ++ [e]) = vec_len (entries r) + 1) as Hlen.
  { unfold vec_len. rewrite length_app. cbn. lia. }
  assert (forall i, i < next_index r ->
    find_entry (entries r ++ [e]) i = find_entry (entries r) i) as Hf.
  { intros i Hi. destruct (find_entry (entries r) i) eqn:E; [by apply find_entry_app_l|].
    rewrite find_entry_app_r by done. unfold find_entry. cbn.
    by rewrite (proj2 (Z.eqb_neq _ _)) by lia. }
  assert (Forall (fun x => entry_term x <= term r) (entries r ++ [e])).
  { apply Forall_app. split; [apply Hr|]. constructor; [cbn; lia|constructor]. }
  assert (if applied_index r =? compacted_index r then applied_term r = compacted_term r
    else entry_term <$> find_entry (entries r ++ [e]) (applied_index r) = Some (applied_term r)).
  { apply applied_term_kept; [done|]. intros i Hi. apply Hf. destruct Hr; lia. }
  destruct (quorum r =? 1); cbn; split; split; cbn; try done; try (destruct Hr; lia); try apply Hr.
  all: intros i Hi; apply Hf; destruct Hr; lia.
Qed.

(** The indexes the loop commits, and why it stops. *)
Lemma advance_commit_spec fuel r :
  commit_index r < next_index r <= u64_max -> 0 <= commit_index r ->
  (Z.to_nat (next_index r - commit_index r) <= fuel)%nat ->
  exists k, advance_commit fuel r = set_commit_index r k /\
    commit_index r <= k < next_index r /\
    (forall i, commit_index r < i <= k ->
       exists acks, ack_counts r !! i = Some acks /\ quorum r <= Z.of_nat (size acks)) /\
    (k + 1 < next_index r -> forall acks, ack_counts r !! (k + 1) = Some acks ->
       Z.of_nat (size acks) < quorum r).
Proof.
  revert r. induction fuel as [|fuel IH]; intros r Hc H0 Hf; [lia|]. cbn.
  rewrite u64_add_small by (u64_unfold; lia).
  assert (set_commit_index r (commit_index r) = r) as Hid by by destruct r.
  destruct (Z.ltb_spec (commit_index r + 1) (next_index r)) as [Hlt|Hge].
  2: { exists (commit_index r). rewrite Hid. split_and!; [done|lia|lia|lia|lia]. }
  destruct (ack_counts r !! (commit_index r + 1)) as [acks|] eqn:E.
  2: { exists (commit_index r). rewrite Hid. split_and!; [done|lia|lia|lia|]. by rewrite E. }
  destruct (Z.leb_spec (quorum r) (Z.of_nat (size acks))) as [Hq|Hq].
  - destruct (IH (set_commit_index r (commit_index r + 1))) as (k & Hk & Hle & Hall & Hstop);
      cbn in *; [lia..|].
    exists k. split_and!; [by rewrite Hk|lia|lia| |done]. intros i Hi.
    destruct (decide (i = commit_index r + 1)) as [->|Hne]; [by exists acks|]. apply Hall. lia.
  - exists (commit_index r). rewrite Hid. split_and!; [done|lia|lia|lia|].
    intros _ acks'. rewrite E. by intros [= <-].
Qed.

Lemma register_effect r i f :
  wf r ->
  register_follower_ack r i f = r \/
  exists k acks, commit_index r <= k < next_index r /\
    register_follower_ack r i f = set_ack_counts (set_commit_index r k) acks.
Proof.
  intros Hr. unfold register_follower_ack. destruct (_ || _ || _ || _); [by left|].
  destruct (ack_counts r !! i) as [a|]; [right|by left].
  destruct (advance_commit_spec (advance_fuel (set_ack_counts r (<[i := {[f]} ∪ a]> (ack_counts r))))
    (set_ack_counts r (<[i := {[f]} ∪ a]> (ack_counts r)))) as (k & -> & Hk & _);
    cbn in *; [destruct Hr; lia..|done|]. by eexists k, _.
Qed.

Lemma register_ok r i f :
  wf r -> wf (register_follower_ack r i f) /\ keeps r (register_follower_ack r i f).
Proof.
  intros Hr. destruct (register_effect r i f Hr) as [->|(k & acks & Hk & ->)]; [done|].
  split; split; cbn; try done; try apply Hr; destruct Hr; lia.
Qed.

(** ** The append path *)

Lemma check_incoming_Ok lt first k l :
  check_incoming lt first k l = Ok tt -> 0 <= k -> k + vec_len l <= u64_max ->
  contiguous k l /\ Forall (fun e => entry_term e <= lt) l.
Proof.
  revert k. induction l as [|e l IH]; intros k; cbn [check_incoming]; [by repeat constructor|].
  destruct (Z.ltb_spec lt (entry_term e)); [done|].
  destruct (Z.eqb_spec (entry_index e) k) as [He|]; [|done]. cbn. unfold vec_len. cbn [length].
  intros Hc Hk Hlen. rewrite u64_add_small in Hc by (u64_unfold; lia).
  destruct (IH _ Hc) as [H1 H2]; [lia|unfold vec_len; lia|]. by repeat constructor.
Qed.

(** Entries past the tail are appended as they come. *)
Lemma merge_append f r l :
  contiguous f (entries r) -> contiguous (f + vec_len (entries r)) l ->
  merge_incoming r l = (set_entries r (entries r ++ l), Ok tt).
Proof.
  revert r. induction l as [|e l IH]; intros r Hr; cbn [contiguous merge_incoming].
  { intros _. rewrite app_nil_r. by destruct r. }
  intros [He Hl].
  assert (find_entry (entries r) (entry_index e) = None) as ->.
  { apply (find_entry_None f); [done|]. lia. }
  assert (push_if_absent r e = set_entries r (entries r ++ [e])) as ->.
  { unfold push_if_absent. replace (forallb _ _) with true; [done|]. symmetry.
    apply forallb_forall. intros x Hx%list_elem_of_In. apply negb_true_iff, Z.eqb_neq.
    pose proof (contiguous_elem f (entries r) x Hr Hx). lia. }
  rewrite IH; cbn.
  - by rewrite <- app_assoc.
  - by apply contiguous_snoc.
  - unfold vec_len in *. rewrite length_app. cbn. replace (f + Z.of_nat (length (entries r) + 1))
      with (f + Z.of_nat (length (entries r)) + 1) by lia. done.
Qed.

(** The merge loop fails before it changes anything, or finds the whole batch already
    there, or keeps the common part and replaces the log from the first new index [j],
    above the commit index, by the rest of the batch. *)
Definition merged (r : RaftReplicator) (l : list LogEntry)
    (out : RaftReplicator * result unit EngineError) : Prop :=
  (exists e, out = (r, Err e)) \/
  (out = (r, Ok tt) /\ forall e, e ∈ l -> find_entry (entries r) (entry_index e) = Some e) \/
  (exists same fresh j acks nx,
     l = same ++ fresh /\ fresh <> [] /\ contiguous j fresh /\ commit_index r < j <= next_index r /\
     (forall e, e ∈ same -> find_entry (entries r) (entry_index e) = Some e /\ entry_index e < j) /\
     out = (set_entries (set_next_index (set_ack_counts r acks) nx)
              (List.filter (fun e => entry_index e <? j) (entries r) ++ fresh), Ok tt)).

Lemma filter_all_below r :
  wf r -> List.filter (fun e => entry_index e <? next_index r) (entries r) = entries r.
Proof.
  intros Hr. rewrite (filter_below _ _ _ (wf_log r Hr)). apply take_ge.
  pose proof (wf_len r Hr). unfold vec_len in *. lia.
Qed.

Lemma merge_new_tail r l :
  wf r -> l <> [] -> contiguous (next_index r) l -> merged r l (merge_incoming r l).
Proof.
  intros Hr Hne Hl. right; right. exists [], l, (next_index r), (ack_counts r), (next_index r).
  split_and!; [done|done|done|destruct Hr; lia|done|set_solver|].
  rewrite filter_all_below by done.
  replace (set_next_index (set_ack_counts r (ack_counts r)) (next_index r)) with r by by destruct r.
  eapply merge_append; [apply Hr|]. by rewrite (wf_len r Hr).
Qed.

Lemma merge_conflict r e l :
  wf r -> contiguous (entry_index e) (e :: l) ->
  commit_index r < entry_index e < next_index r ->
  merged r (e :: l)
    (merge_incoming (push_if_absent (truncate_uncommitted_from r (entry_index e)) e) l).
Proof.
  intros Hr Hl Hj. destruct (truncate_effect r (entry_index e) Hr ltac:(lia)) as (cut & Hcut & ->).
  destruct (cut_facts r (entry_index e) cut Hr ltac:(lia) Hcut) as (H1 & H2 & _ & _).
  set (r1 := set_next_index _ _).
  assert (find_entry (entries r1) (entry_index e) = None) as Hnone
    by (apply (find_entry_None _ _ _ H1); lia).
  assert (merge_incoming (push_if_absent r1 e) l = merge_incoming r1 (e :: l)) as ->
    by (cbn [merge_incoming]; by rewrite Hnone).
  right; right. eexists [], (e :: l), (entry_index e), _, _.
  split_and!; [done|done|done|lia|lia|set_solver|].
  rewrite (merge_append (compacted_index r + 1) r1);
    [|done|cbn; by replace (compacted_index r + 1 + vec_len cut) with (entry_index e) by lia].
  unfold r1. cbn. by rewrite <- Hcut.
Qed.

Lemma merge_spec r k l :
  wf r -> contiguous (k + 1) l -> compacted_index r <= k < next_index r ->
  merged r l (merge_incoming r l).
Proof.
  intros Hr. revert k. induction l as [|e l IH]; intros k Hl Hk.
  { right; left. split; [done|set_solver]. }
  pose proof Hl as [He Hl'].
  destruct (decide (k + 1 = next_index r)) as [Heq|Hne].
  { apply merge_new_tail; [done|done|]. by rewrite <- Heq. }
  destruct (committed_found r (k + 1) Hr ltac:(lia)) as (x & Hx & _).
  cbn [merge_incoming]. rewrite He, Hx.
  destruct (Z.eqb_spec (entry_term x) (entry_term e)) as [Et|Et].
  - case_bool_decide as Ep; cbn; [|by left; eexists].
    assert (x = e) as ->.
    { apply find_entry_index in Hx as [Hx _]. destruct x, e; cbn in *; congruence. }
    destruct (IH (k + 1) Hl' ltac:(lia)) as [[er ->]|[[-> Hall]|H]]; [by left; eexists| |].
    + right; left. split; [done|]. intros y [->|Hy]%elem_of_cons; [by rewrite He|by apply Hall].
    + destruct H as (same & fresh & j & acks & nx & -> & Hnil & Hfr & Hj & Hs & ->).
      right; right. exists (e :: same), fresh, j, acks, nx. split_and!; try done; try lia.
      intros y [->|Hy]%elem_of_cons; [|by apply Hs]. split; [by rewrite He|].
      apply contiguous_app in Hl' as [_ Hfr'].
      destruct fresh as [|z fresh]; [done|]. destruct Hfr, Hfr'. unfold vec_len in *. lia.
  - destruct (Z.leb_spec (k + 1) (commit_index r)); [by left; eexists|].
    rewrite <- He. apply merge_conflict; [done|by rewrite He|lia].
Qed.

(** The log after a successful merge, from its description. *)
Lemma merged_log r k l r1 :
  wf r -> contiguous (k + 1) l -> compacted_index r <= k < next_index r ->
  Forall (fun e => entry_term e <= term r) l ->
  merged r l (r1, Ok tt) ->
  contiguous (compacted_index r + 1) (entries r1) /\
  compacted_index r + 1 + vec_len (entries r1) > k + vec_len l /\
  commit_index r < compacted_index r + 1 + vec_len (entries r1) <=
    Z.max (next_index r) (k + 1 + vec_len l) /\
  Forall (fun e => entry_term e <= term r) (entries r1) /\
  (forall e, e ∈ l -> find_entry (entries r1) (entry_index e) = Some e) /\
  (forall i, i <= k \/ i <= commit_index r ->
     find_entry (entries r1) i = find_entry (entries r) i) /\
  exists acks nx, r1 = set_entries (set_next_index (set_ack_counts r acks) nx) (entries r1).
Proof.
  intros Hr Hl Hk Ht [[e ?]|[[[= ->] Hall]|H]]; [done| |].
  { split_and!; try apply Hr; try done; pose proof (wf_len r Hr); pose proof (wf_commit r Hr).
    - destruct (last l) as [e|] eqn:E.
      + pose proof (contiguous_last _ _ _ Hl E). specialize (Hall e).
        rewrite last_lookup in E. apply list_elem_of_lookup_2, Hall in E.
        assert (is_Some (find_entry (entries r) (entry_index e))) as Hs by by eexists.
        apply (find_entry_Some _ _ _ (wf_log r Hr)) in Hs. lia.
      + apply last_None in E as ->. unfold vec_len. cbn. unfold vec_len in *. lia.
    - lia.
    - lia.
    - exists (ack_counts r), (next_index r). by destruct r. }
  destruct H as (same & fresh & j & acks & nx & -> & Hnil & Hfr & Hj & Hs & [= ->]). cbn.
  destruct (cut_facts r j _ Hr ltac:(lia) eq_refl) as (H1 & H2 & H3 & H4).
  set (cut := List.filter _ _) in *. apply contiguous_app in Hl as [Hsame Hfr'].
  assert (j = k + 1 + vec_len same) as Hjk.
  { destruct fresh as [|x fresh]; [done|]. destruct Hfr, Hfr'. lia. }
  assert (contiguous (compacted_index r + 1) (cut ++ fresh)) as Hlog.
  { apply contiguous_app. split; [done|]. rewrite H2, Z.min_l by lia. done. }
  assert (vec_len (cut ++ fresh) = vec_len cut + vec_len fresh) as Hlen
    by (unfold vec_len; rewrite length_app; lia).
  assert (0 < vec_len fresh) by (destruct fresh; [done|]; unfold vec_len; cbn; lia).
  assert (vec_len (same ++ fresh) = vec_len same + vec_len fresh) as Hlen2
    by (unfold vec_len; rewrite length_app; lia).
  assert (forall i, i < j -> find_entry (cut ++ fresh) i = find_entry (entries r) i) as Hf.
  { intros i Hi. rewrite <- H4 by done. destruct (find_entry cut i) eqn:E.
    - by apply find_entry_app_l.
    - rewrite find_entry_app_r by done. apply (find_entry_None _ _ _ Hfr). lia. }
  apply Forall_app in Ht as [Ht1 Ht2].
  split_and!; [done|lia|lia|lia| | | |by eexists _, _].
  - apply Forall_app. by split.
  - intros e [He|He]%elem_of_app.
    + destruct (Hs e He). by rewrite Hf.
    + eapply find_entry_elem; [exact Hlog|]. set_solver.
  - intros i Hi. apply Hf. unfold vec_len in *. lia.
Qed.

(** The node that the checks of the append path start from. *)
Definition accept_leader (r : RaftReplicator) (lt : Z) : RaftReplicator :=
  if negb (bool_decide (role r = Follower)) || (term r <? lt) then become_follower r lt
  else set_role (set_term r lt) Follower.

Lemma accept_leader_ok r lt :
  wf r -> is_u64 lt -> term r <= lt ->
  wf (accept_leader r lt) /\ keeps r (accept_leader r lt) /\
  term (accept_leader r lt) = lt /\ role (accept_leader r lt) = Follower /\
  commit_index (accept_leader r lt) = commit_index r /\
  (voted_for (accept_leader r lt) = if term r <? lt then None else voted_for r).
Proof.
  intros Hr Hu Hle. unfold accept_leader.
  destruct (negb _) eqn:Er; cbn [orb]; [|destruct (Z.ltb_spec (term r) lt)].
  - destruct (become_ok Follower r lt Hr Hu) as [? ?]. split_and!; try done.
    + unfold become_follower, become. cbn. destruct (_ <? _); cbn; lia.
    + unfold become_follower, become. cbn. by destruct (_ <? _).
    + unfold become_follower, become. cbn. by destruct (_ <? _).
    + unfold become_follower, become. cbn. rewrite Z.max_r by done. by destruct (_ <? _).
  - destruct (become_ok Follower r lt Hr Hu) as [? ?]. split_and!; try done.
    all: unfold become_follower, become; cbn; rewrite Z.max_r by done;
      by rewrite (proj2 (Z.ltb_lt _ _)).
  - assert (lt = term r) as -> by lia. assert (wf (set_role (set_term r (term r)) Follower) /\
      keeps r (set_role (set_term r (term r)) Follower)) as [? ?]
      by (apply wf_same_log; cbn; done || apply Hr).
    split_and!; done.
Qed.

(** What a request that passes every check establishes. *)
Record appended (r : RaftReplicator) (lt prev : Z) (l : list LogEntry) (lc : Z)
    (r' : RaftReplicator) : Prop := {
  appended_term : term r' = lt;
  appended_role : role r' = Follower;
  appended_entries : forall e, e ∈ l -> find_entry (entries r') (entry_index e) = Some e;
  appended_prefix : forall i, i <= prev ->
    find_entry (entries r') i = find_entry (entries (accept_leader r lt)) i;
  appended_tail : prev + vec_len l < next_index r';
  appended_commit :
    commit_index r' = Z.max (commit_index r) (Z.min lc (next_index r' - 1));
  appended_vote : voted_for r' = if term r <? lt then None else voted_for r;
}.

(** A previous index that passes its check lies in the log or at its lower boundary. *)
Lemma check_prev_Ok r p t :
  wf r -> 0 <= p -> check_prev r p t = Ok tt ->
  compacted_index r <= p < next_index r.
Proof.
  intros Hr Hp. unfold check_prev. destruct (Z.ltb_spec p (compacted_index r)); [done|].
  destruct (Z.ltb_spec 0 p) as [Hpos|Hz]; [|destruct Hr; lia].
  destruct (term_at r p) as [t'|] eqn:E; [|done]. intros _. split; [done|].
  unfold term_at in E. rewrite (proj2 (Z.eqb_neq p 0)) in E by lia.
  destruct (Z.eqb_spec p (compacted_index r)); [destruct Hr; lia|].
  destruct (Z.ltb_spec p (compacted_index r)); [done|].
  destruct (find_entry (entries r) p) eqn:F.
  - assert (is_Some (find_entry (entries r) p)) as Hs by by eexists.
    apply (find_entry_Some _ _ _ (wf_log r Hr)) in Hs. pose proof (wf_len r Hr). lia.
  - destruct (Z.eqb_spec p (applied_index r)); [destruct Hr; lia|done].
Qed.

Lemma finish_append_ok r k l r1 lc :
  wf r -> contiguous (k + 1) l -> compacted_index r <= k < next_index r ->
  k + vec_len l < u64_max -> Forall (fun e => entry_term e <= term r) l ->
  merged r l (r1, Ok tt) ->
  let r' := finish_append r1 lc in
  wf r' /\ keeps r r' /\ term r' = term r /\ role r' = role r /\ voted_for r' = voted_for r /\
  (forall e, e ∈ l -> find_entry (entries r') (entry_index e) = Some e) /\
  (forall i, i <= k -> find_entry (entries r') i = find_entry (entries r) i) /\
  k + vec_len l < next_index r' /\
  commit_index r' = Z.max (commit_index r) (Z.min lc (next_index r' - 1)).
Proof.
  intros Hr Hl Hk Hmax Ht Hm. destruct (merged_log r k l r1 Hr Hl Hk Ht Hm)
    as (H1 & H2 & H3 & H4 & H5 & H6 & acks & nx & Er1).
  set (l' := entries r1) in *. intros r'.
  assert (r' =
    set_next_index (set_commit_index (set_entries r1 l')
      (Z.max (commit_index r) (Z.min lc (compacted_index r + vec_len l'))))
      (compacted_index r + 1 + vec_len l')) as Hr'.
  { unfold r', finish_append. fold l'. rewrite (merge_sort_contiguous _ _ H1).
    unfold tail_index. cbn.
    rewrite (last_index (compacted_index r) l' (compacted_index r + 1 + vec_len l'));
      [|done|done|rewrite Er1; cbn; destruct Hr; lia].
    rewrite u64_add_small by (destruct Hr; u64_unfold; lia).
    rewrite Er1. cbn. replace (compacted_index r + 1 + vec_len l' - 1)
      with (compacted_index r + vec_len l') by lia.
    destruct (Z.ltb_spec (commit_index r) (Z.min lc (compacted_index r + vec_len l'))); cbn.
    - rewrite Z.max_r by lia. f_equal; lia.
    - rewrite Z.max_l by lia. unfold set_commit_index. cbn. f_equal; lia. }
  clearbody r'. rewrite Er1 in Hr'. subst r'. cbn. split_and!; try done; try lia.
  - split; cbn; try done; try apply Hr; try (destruct Hr; lia).
    apply applied_term_kept; [done|]. intros i Hi. apply H6. by right.
  - split; cbn; try done; try lia. intros i Hi. apply H6. right. lia.
  - intros i Hi. apply H6. by left.
Qed.

Lemma append_ok r lt prev pt l lc :
  wf r -> is_u64 lt -> 0 <= prev -> prev + vec_len l < u64_max ->
  let out := append_entries_from_leader r lt prev pt l lc in
  wf out.1 /\ keeps r out.1 /\
  match out.2 with
  | Err _ => out.1 = r \/ out.1 = accept_leader r lt
  | Ok _ => role r <> Leader /\ term r <= lt /\ appended r lt prev l lc out.1
  end.
Proof.
  intros Hr Hu Hp Hmax. unfold append_entries_from_leader. case_bool_decide as Hrole; cbn.
  { split_and!; [done|done|by left]. }
  destruct (Z.ltb_spec lt (term r)) as [Hlt|Hle]; cbn.
  { split_and!; [done|done|by left]. }
  fold (accept_leader r lt).
  destruct (accept_leader_ok r lt Hr Hu Hle) as (Hw & Hkeep & Hterm & Hro & Hcom & Hvote).
  destruct (check_prev (accept_leader r lt) prev pt) as [[]|e] eqn:Hprev; cbn;
    [|split_and!; [done|done|by right]].
  pose proof (check_prev_Ok _ _ _ Hw Hp Hprev) as Hk.
  rewrite u64_add_small by (unfold vec_len in Hmax; u64_unfold; lia).
  destruct (check_incoming lt (prev + 1) (prev + 1) l) as [[]|e] eqn:Hin; cbn;
    [|split_and!; [done|done|by right]].
  destruct (check_incoming_Ok _ _ _ _ Hin) as [Hcon Ht]; [lia|lia|].
  pose proof (merge_spec _ prev l Hw Hcon Hk) as Hm.
  destruct (merge_incoming (accept_leader r lt) l) as [r1 [[]|e]]; cbn.
  - rewrite <- Hterm in Ht.
    destruct (finish_append_ok _ prev l r1 lc Hw Hcon Hk Hmax Ht Hm)
      as (W & K & T & R & V & E & P & N & C).
    split_and!; [done|by etrans|done|done|].
    split; try congruence; try done.
  - destruct Hm as [[e' [= -> ->]]|[[? _]|H]]; [|done|naive_solver].
    split_and!; [done|done|by right].
Qed.

(** ** Snapshots *)

Lemma export_snapshot_ok r :
  wf r -> wf (export_snapshot_meta r).1 /\ keeps r (export_snapshot_meta r).1.
Proof. intros Hr. by apply wf_same_log; try apply Hr. Qed.

(** A node moved to the snapshot [(idx, t)] with the log [l] above it. *)
Definition snapshotted (r : RaftReplicator) (idx t sid : Z) (l : list LogEntry)
    (acks : gmap Z (gset Z)) : RaftReplicator :=
  mkRaft (Z.max (term r) t) (idx + 1 + vec_len l) (Z.max (commit_index r) idx) idx t (role r) l
    sid idx t (voters r) (quorum r) (voted_for r) acks.

(** The log above [idx] that an accepted snapshot may leave. *)
Record kept_log (r : RaftReplicator) (idx : Z) (l : list LogEntry) : Prop := {
  kept_contiguous : contiguous (idx + 1) l;
  kept_end : Z.max (commit_index r) idx < idx + 1 + vec_len l <= u64_max;
  kept_terms : Forall (fun e => entry_term e <= term r) l;
  kept_committed : forall i, idx < i <= commit_index r ->
    find_entry l i = find_entry (entries r) i;
}.

Lemma snapshotted_ok r idx t sid l acks :
  wf r -> is_u64 t -> applied_index r <= idx -> kept_log r idx l ->
  wf (snapshotted r idx t sid l acks) /\ keeps r (snapshotted r idx t sid l acks).
Proof.
  intros Hr Hu Ha [H1 H2 H3 H4]. split; split; cbn; try done; try (destruct Hr; u64_unfold; lia).
  - eapply Forall_le_mono; [|exact H3]. lia.
  - by rewrite Z.eqb_refl.
Qed.

(** Keeping every entry above a snapshot inside the log. *)
Lemma kept_suffix r idx :
  wf r -> applied_index r <= idx < next_index r ->
  kept_log r idx (List.filter (fun e => idx <? entry_index e) (entries r)).
Proof.
  intros Hr Hi. pose proof (wf_len r Hr).
  destruct (filter_above_contiguous _ _ idx (wf_log r Hr)) as [H1 H2]; [destruct Hr; lia|].
  split; [done|destruct Hr; lia|apply Forall_List_filter, Hr|].
  intros i Hi'. rewrite (find_entry_filter _ (fun i => idx <? i)) by done.
  by rewrite (proj2 (Z.ltb_lt _ _)) by lia.
Qed.

(** Keeping only the committed entries above it. *)
Lemma kept_committed_suffix r idx :
  wf r -> applied_index r <= idx < u64_max ->
  kept_log r idx (List.filter (fun e => (idx <? entry_index e) &&
    (entry_index e <=? Z.max (commit_index r) idx)) (entries r)).
Proof.
  intros Hr Hi. rewrite filter_and, filter_le_lt. pose proof (wf_len r Hr).
  destruct (cut_facts r (Z.max (commit_index r) idx + 1) _ Hr ltac:(lia) eq_refl)
    as (H1 & H2 & H3 & H4). set (cut := List.filter _ _) in *.
  assert (forall i, idx < i <= commit_index r ->
    find_entry (List.filter (fun e => idx <? entry_index e) cut) i = find_entry (entries r) i).
  { intros i Hi'. rewrite (find_entry_filter _ (fun i => idx <? i)) by done.
    rewrite (proj2 (Z.ltb_lt _ _)) by lia. apply H4. lia. }
  destruct (Z.lt_ge_cases idx (next_index r)) as [Hin|Hout].
  - destruct (filter_above_contiguous _ _ idx H1) as [G1 G2]; [destruct Hr; lia|].
    split; [done|destruct Hr; lia|by apply Forall_List_filter|done].
  - assert (List.filter (fun e => idx <? entry_index e) cut = []) as E.
    { rewrite (filter_above _ _ _ H1). apply drop_ge. unfold vec_len in *. lia. }
    rewrite E in *. split; [done|unfold vec_len; cbn; destruct Hr; lia|done|done].
Qed.

Lemma term_at_above_applied r i t :
  wf r -> applied_index r < i -> term_at r i = Some t -> i < next_index r.
Proof.
  intros Hr Hi. unfold term_at. rewrite (proj2 (Z.eqb_neq i 0)) by (destruct Hr; lia).
  rewrite (proj2 (Z.eqb_neq i (compacted_index r))) by (destruct Hr; lia).
  rewrite (proj2 (Z.ltb_ge i (compacted_index r))) by (destruct Hr; lia).
  rewrite (proj2 (Z.eqb_neq i (applied_index r))) by lia.
  destruct (find_entry (entries r) i) eqn:F; [|done]. intros _.
  assert (is_Some (find_entry (entries r) i)) as Hs by by eexists.
  apply (find_entry_Some _ _ _ (wf_log r Hr)) in Hs. pose proof (wf_len r Hr). lia.
Qed.

(** The node after [install_snapshot], from the log that it keeps. *)
Definition install_result (r : RaftReplicator) (meta : SnapshotMeta) (l : list LogEntry)
    (acks : gmap Z (gset Z)) : RaftReplicator :=
  let idx := last_included_index meta in
  let r := set_term r (Z.max (term r) (last_included_term meta)) in
  let r := set_commit_index r (Z.max (commit_index r) idx) in
  let r := if compacted_index r <? idx then set_compacted r idx (last_included_term meta)
           else r in
  let r := if applied_index r <? idx then set_applied r idx (last_included_term meta) else r in
  let r := set_ack_counts (set_entries (set_snapshot_id r (snapshot_id meta)) l) acks in
  set_next_index r (u64_add (tail_index r) 1).

Lemma install_result_snapshotted r meta l acks :
  wf r -> applied_index r <= last_included_index meta ->
  (applied_index r = last_included_index meta -> last_included_term meta = applied_term r) ->
  kept_log r (last_included_index meta) l ->
  install_result r meta l acks =
  snapshotted r (last_included_index meta) (last_included_term meta) (snapshot_id meta) l acks.
Proof.
  intros Hr Ha Hsame [H1 H2 H3 H4]. destruct meta as [idx t sid]. cbn in *.
  unfold install_result. cbn.
  assert (u64_add (match last l with Some e => entry_index e
    | None => Z.max (commit_index r) idx end) 1 = idx + 1 + vec_len l) as Htail.
  { rewrite (last_index idx l _ _ H1 eq_refl) by lia.
    rewrite u64_add_small by (destruct Hr; u64_unfold; lia). lia. }
  pose proof (wf_applied_term r Hr) as Hat. pose proof (wf_compacted r Hr).
  destruct (Z.ltb_spec (compacted_index r) idx) as [Hc|Hc]; cbn;
    destruct (Z.ltb_spec (applied_index r) idx) as [Hd|Hd]; cbn; unfold tail_index; cbn;
    rewrite Htail; unfold snapshotted, set_next_index; cbn; try done; try lia.
  - rewrite Hsame by lia. f_equal; lia.
  - rewrite (proj2 (Z.eqb_eq _ _)) in Hat by lia. rewrite Hsame, <- Hat by lia. f_equal; lia.
Qed.

Definition kept_entries (r : RaftReplicator) (idx : Z) (retains : bool) : list LogEntry :=
  List.filter (fun e => (idx <? entry_index e) &&
    (retains || (entry_index e <=? Z.max (commit_index r) idx))) (entries r).

Lemma kept_entries_ok r idx retains :
  wf r -> applied_index r <= idx < u64_max -> (retains = true -> idx < next_index r) ->
  kept_log r idx (kept_entries r idx retains).
Proof.
  intros Hr Hi Hret. unfold kept_entries. destruct retains.
  - rewrite (List.filter_ext _ (fun e => idx <? entry_index e)) by (intros; by rewrite andb_true_r).
    apply kept_suffix; [done|]. split; [lia|by apply Hret].
  - by apply kept_committed_suffix.
Qed.

Lemma install_ok r meta :
  wf r -> 0 <= last_included_index meta < u64_max ->
  install_snapshot r meta = r \/
  exists l acks, applied_index r <= last_included_index meta /\
    kept_log r (last_included_index meta) l /\
    install_snapshot r meta =
    snapshotted r (last_included_index meta) (last_included_term meta) (snapshot_id meta) l acks.
Proof.
  intros Hr Hi. unfold install_snapshot. cbn [snapshot_meta last_included_index last_included_term].
  set (idx := last_included_index meta) in *. set (t := last_included_term meta) in *.
  set (same := (idx =? applied_index r) && (t =? applied_term r)).
  set (retains := same || _).
  match goal with |- context [if ?c then r else _] => destruct c eqn:Hrefuse end; [by left|right].
  apply orb_false_iff in Hrefuse as [_ Hadv].
  assert (applied_index r <= idx) as Ha by (unfold same in Hadv; lia).
  assert (applied_index r = idx -> t = applied_term r) as Ht by (unfold same in Hadv; lia).
  assert (retains = true -> idx < next_index r) as Hret.
  { destruct (decide (applied_index r = idx)); [destruct Hr; lia|].
    unfold retains, same. rewrite (proj2 (Z.eqb_neq _ _)) by lia. cbn.
    intros Hterm%bool_decide_eq_true. eapply term_at_above_applied; [done|lia|done]. }
  pose proof (kept_entries_ok r idx retains Hr ltac:(lia) Hret) as Hkept.
  exists (kept_entries r idx retains),
    (if retains then filter (fun p => idx < p.1) (ack_counts r) else ∅).
  split_and!; [done|done|].
  etrans; [|exact (install_result_snapshotted r meta _ _ Hr Ha Ht Hkept)].
  unfold install_result. fold idx t. cbn.
  destruct (compacted_index r <? idx); cbn; destruct (applied_index r <? idx); cbn;
    destruct retains; cbn; reflexivity.
Qed.

End RaftFacts.
