(* ===== verification/RaftProps.v ===== *)
(** * Properties of the Raft replicator

    The theorems about [RaftReplicator] (crates/replication/src/lib.rs): the invariant of
    every reachable node, that committed entries, the commit index and the term are never
    taken back, one vote per term, what a successful append establishes and that a retry
    is harmless, that only a quorum commits, and that recovery restores the durable state
    and no report panics.  Three concrete runs show where the node departs from Raft. *)

From stdpp Require Import base gmap strings list sorting.
From S2P Require Import Prelude Types Progress Log Raft RaftFacts.

Module RaftProps.
Import Progress Log Raft RaftFacts.

(** ** Runs *)

Inductive op :=
| BecomeFollower (t : Z)
| BecomeLeader (t : Z)
| BecomeCandidate (t : Z)
| StartElection (candidate : Z)
| RequestVote (q : RequestVoteRequest)
| Append (q : AppendEntriesRequest)
| Propose (payload : list byte)
| RegisterAck (index follower : Z)
| MarkApplied (index : Z)
| Truncate (index : Z)
| InstallSnapshot (meta : SnapshotMeta)
| ExportSnapshot.

(** A panic leaves no node to speak about, so it ends the run where it is. *)
Definition run (o : op) (r : RaftReplicator) : RaftReplicator :=
  match o with
  | BecomeFollower t => become_follower r t
  | BecomeLeader t => become_leader r t
  | BecomeCandidate t => become_candidate r t
  | StartElection c =>
      match start_candidate_election r c with Some (r', _) => r' | None => r end
  | RequestVote q => (request_vote_from_candidate r q).1
  | Append q => (apply_to q r).1
  | Propose p => (propose r p).1
  | RegisterAck i f => register_follower_ack r i f
  | MarkApplied i => mark_applied r i
  | Truncate i => truncate_uncommitted_from r i
  | InstallSnapshot meta => install_snapshot r meta
  | ExportSnapshot => (export_snapshot_meta r).1
  end.

(** Arguments are [u64]s, and the counters are not driven to the end of their range. *)
Definition guard (o : op) (r : RaftReplicator) : Prop :=
  match o with
  | BecomeFollower t | BecomeLeader t | BecomeCandidate t => is_u64 t
  | StartElection _ => term r < u64_max
  | RequestVote q => is_u64 (candidate_term q)
  | Append q => is_u64 (leader_term q) /\ 0 <= prev_log_index q /\
      prev_log_index q + vec_len (req_entries q) < u64_max
  | InstallSnapshot meta =>
      is_u64 (last_included_term meta) /\ 0 <= last_included_index meta < u64_max
  | _ => True
  end.

Lemma apply_to_fst q r :
  (apply_to q r).1 =
  (append_entries_from_leader r (leader_term q) (prev_log_index q) (prev_log_term q)
     (req_entries q) (leader_commit q)).1.
Proof. unfold apply_to. by destruct (append_entries_from_leader _ _ _ _ _ _). Qed.

Lemma run_ok o r : wf r -> guard o r -> wf (run o r) /\ keeps r (run o r).
Proof.
  intros Hr Hg. destruct o as [t|t|t|c|q|q|p|i f|i|i|meta|]; cbn [run guard] in *.
  - by apply become_ok.
  - by apply become_ok.
  - by apply become_ok.
  - destruct (start_candidate_election r c) as [[r' q]|] eqn:E; [|done].
    by destruct (start_candidate_election_ok r c r' q Hr Hg E) as (? & ? & _).
  - by apply request_vote_ok.
  - rewrite apply_to_fst. destruct Hg as (H1 & H2 & H3).
    by destruct (append_ok r (leader_term q) (prev_log_index q) (prev_log_term q)
      (req_entries q) (leader_commit q) Hr H1 H2 H3) as (? & ? & _).
  - by apply propose_ok.
  - by apply register_ok.
  - by apply mark_applied_ok.
  - by apply truncate_ok.
  - destruct Hg as [H1 H2]. destruct (install_ok r meta Hr H2) as [->|(l & acks & Ha & Hl & ->)]; [done|].
    by apply snapshotted_ok.
  - by apply export_snapshot_ok.
Qed.

Inductive steps (r : RaftReplicator) : RaftReplicator -> Prop :=
| steps_refl : steps r r
| steps_run o r' : steps r r' -> guard o r' -> steps r (run o r').

Lemma steps_ok r r' : wf r -> steps r r' -> wf r' /\ keeps r r'.
Proof.
  intros Hr. induction 1 as [|o r' _ [Hw Hk] Hg]; [done|].
  destruct (run_ok o r' Hw Hg) as [? ?]. split; [done|by etrans].
Qed.

Definition reachable (r : RaftReplicator) : Prop :=
  exists n r0, new n = Some r0 /\ steps r0 r.

Lemma raft_reachable_wf r : reachable r -> wf r.
Proof. intros (n & r0 & H0 & Hs). by apply (steps_ok r0 r (new_wf n r0 H0) Hs). Qed.

(** ** Votes *)

Lemma become_vote ro r t v :
  term (become ro r t) = term r -> voted_for r = Some v -> voted_for (become ro r t) = Some v.
Proof.
  unfold become. cbn. destruct (Z.ltb_spec (term r) (Z.max (term r) t)); cbn; [lia|done].
Qed.

Lemma accept_leader_vote r lt v :
  term (accept_leader r lt) = term r -> voted_for r = Some v ->
  voted_for (accept_leader r lt) = Some v.
Proof. unfold accept_leader. destruct (_ || _); [apply become_vote|done]. Qed.

(** Within a term a vote, once cast, stays. *)
Lemma run_vote o r v :
  wf r -> guard o r -> term (run o r) = term r -> voted_for r = Some v ->
  voted_for (run o r) = Some v.
Proof.
  intros Hr Hg. destruct o as [t|t|t|c|q|q|p|i f|i|i|meta|]; cbn [run guard] in *.
  1-3: apply become_vote.
  - destruct (start_candidate_election r c) as [[r' q]|] eqn:E; [|done].
    destruct (start_candidate_election_ok r c r' q Hr Hg E) as (_ & _ & -> & _). lia.
  - destruct (request_vote_effect r q) as [(_ & -> & _)|H]; [done|].
    destruct H as (Hle & Ht & _ & _ & _ & _ & _ & _ & _ & _ & _ & Hyes & Hno). rewrite Ht.
    intros Heq Hv. destruct (granted _).
    + destruct (Hyes eq_refl) as [-> Hsame]. by rewrite (Hsame Heq v Hv).
    + rewrite Hno, Heq, Z.ltb_irrefl by done. done.
  - rewrite apply_to_fst. destruct Hg as (H1 & H2 & H3).
    destruct (append_ok r (leader_term q) (prev_log_index q) (prev_log_term q)
      (req_entries q) (leader_commit q) Hr H1 H2 H3) as (_ & _ & H).
    destruct (_.2) as [|e]; [|destruct H as [->| ->]; [done|apply accept_leader_vote]].
    destruct H as (_ & Hle & Happ).
    rewrite (appended_term _ _ _ _ _ _ Happ), (appended_vote _ _ _ _ _ _ Happ). intros ->.
    by rewrite Z.ltb_irrefl.
  - unfold propose. destruct (negb _); [done|]. destruct (_ =? _); [done|]. cbn.
    by destruct (_ =? _).
  - by destruct (register_effect r i f Hr) as [->|(k & acks & _ & ->)].
  - unfold mark_applied. destruct (_ <=? _); [done|]. by destruct (find_entry _ _).
  - unfold truncate_uncommitted_from. by destruct (_ <=? _).
  - destruct Hg as [_ H2]. by destruct (install_ok r meta Hr H2) as [->|(l & acks & _ & _ & ->)].
  - done.
Qed.

Lemma steps_vote r r' v :
  wf r -> steps r r' -> term r' = term r -> voted_for r = Some v -> voted_for r' = Some v.
Proof.
  intros Hr Hs. induction Hs as [|o r' Hs IH Hg]; [done|]. intros Ht Hv.
  destruct (steps_ok r r' Hr Hs) as [Hw Hk]. destruct (run_ok o r' Hw Hg) as [_ Hk'].
  pose proof (keeps_term _ _ Hk). pose proof (keeps_term _ _ Hk').
  apply run_vote; [done|done|lia|]. apply IH; [lia|done].
Qed.

(** ** Recovery *)

Lemma committed_suffix r l :
  wf r ->
  l = List.filter (fun e => (applied_index r <? entry_index e) &&
        (entry_index e <=? commit_index r)) (entries r) ->
  contiguous (applied_index r + 1) l /\ applied_index r + 1 + vec_len l = commit_index r + 1 /\
  Forall (fun e => entry_term e <= term r) l /\
  (forall i, applied_index r < i <= commit_index r -> find_entry l i = find_entry (entries r) i).
Proof.
  intros Hr ->. rewrite filter_and, filter_le_lt.
  destruct (cut_facts r (commit_index r + 1) _ Hr ltac:(lia) eq_refl) as (H1 & H2 & H3 & H4).
  set (cut := List.filter _ (entries r)) in *.
  destruct (filter_above_contiguous _ _ (applied_index r) H1) as [G1 G2]; [destruct Hr; lia|].
  split_and!; [done|destruct Hr; lia|by apply Forall_List_filter|].
  intros i Hi. rewrite (find_entry_filter _ (fun i => applied_index r <? i)) by done.
  rewrite (proj2 (Z.ltb_lt _ _)) by lia. apply H4. lia.
Qed.

Lemma validate_entries_Ok t k l :
  contiguous k l -> Forall (fun e => entry_term e <= t) l -> 0 <= k -> k + vec_len l <= u64_max ->
  validate_entries t k l = Ok tt.
Proof.
  revert k. induction l as [|e l IH]; intros k; [done|]. intros [He Hl] Ht Hk Hlen. cbn.
  inversion Ht as [|? ? He' Ht']; subst.
  rewrite Z.eqb_refl, (proj2 (Z.ltb_ge _ _)) by done. cbn.
  unfold vec_len in *. cbn in Hlen. rewrite u64_add_small by (u64_unfold; lia).
  apply IH; [done|done|lia|unfold vec_len; lia].
Qed.

Lemma recovery_commit r : wf r -> rec_commit_index (recovery_state r) = commit_index r.
Proof.
  intros Hr. destruct (committed_suffix r _ Hr eq_refl) as (H1 & H2 & _ & _).
  unfold rec_commit_index. cbn.
  rewrite (last_index (applied_index r) _ (commit_index r + 1) (applied_index r) H1 H2);
    [lia|destruct Hr; lia].
Qed.

Lemma recovery_validates r : wf r -> rec_validate (recovery_state r) = Ok tt.
Proof.
  intros Hr. destruct (committed_suffix r _ Hr eq_refl) as (H1 & H2 & H3 & _).
  unfold rec_validate. cbn [recovery_state snapshot_meta rec_applied_index rec_snapshot
    last_included_index rec_term rec_committed_entries].
  rewrite Z.ltb_irrefl, recovery_commit by done.
  rewrite u64_add_small by (destruct Hr; u64_unfold; lia).
  rewrite validate_entries_Ok; [|done|done|destruct Hr; lia|destruct Hr; lia].
  by rewrite (proj2 (Z.ltb_ge _ _)) by apply Hr.
Qed.

(** The node a restart makes of the recovery state. *)
Definition resumed (v : Z) (r : RaftReplicator) : RaftReplicator :=
  mkRaft (term r) (commit_index r + 1) (commit_index r) (applied_index r) (applied_term r)
    Follower (rec_committed_entries (recovery_state r)) (node_snapshot_id r) (applied_index r)
    (applied_term r) v (v / 2 + 1) None ∅.

Lemma resume_resumed v r :
  wf r -> 1 <= v -> resume_as_follower v (recovery_state r) = Some (Ok (resumed v r)).
Proof.
  intros Hr Hv. unfold resume_as_follower. rewrite recovery_validates by done.
  unfold rec_next_index. rewrite recovery_commit by done.
  unfold new. rewrite (proj2 (Z.leb_le _ _)) by done. cbn.
  rewrite Z.eqb_refl, u64_add_small by (destruct Hr; u64_unfold; lia).
  rewrite Z.max_l by apply Hr. done.
Qed.

Lemma resumed_wf v r : wf r -> 1 <= v -> wf (resumed v r).
Proof.
  intros Hr Hv. destruct (committed_suffix r _ Hr eq_refl) as (H1 & H2 & H3 & _).
  split; cbn; try done; try apply Hr; try (destruct Hr; lia). by rewrite Z.eqb_refl.
Qed.

Lemma recovery_of_resumed v r : wf r -> recovery_state (resumed v r) = recovery_state r.
Proof.
  intros Hr. unfold recovery_state, resumed. cbn. f_equal.
  rewrite <- filter_and. apply List.filter_ext. intros e. lia.
Qed.

(** ** Reports *)

Lemma uncommitted_count_wf r : wf r -> uncommitted_entry_count r = next_index r - 1 - commit_index r.
Proof.
  intros Hr. unfold uncommitted_entry_count. pose proof (wf_len r Hr).
  destruct (filter_above_contiguous _ _ (commit_index r) (wf_log r Hr)) as [_ H2];
    [destruct Hr; lia|]. lia.
Qed.

Lemma progress_Some r :
  wf r ->
  progress r = Some (mkProgress (role r) (term r) (commit_index r) (applied_index r)
    (next_index r) (snapshot_meta r) (commit_index r - applied_index r)
    (applied_index r <? commit_index r) (next_index r - 1 - commit_index r)
    (commit_index r <? next_index r - 1)).
Proof.
  intros Hr. unfold progress, has_uncommitted_entries. rewrite existsb_filter.
  fold (uncommitted_entry_count r). rewrite uncommitted_count_wf by done.
  unfold committed_but_unapplied_count, has_committed_entries_pending_apply, saturating_sub.
  rewrite Z.max_r by (destruct Hr; lia).
  replace (0 <? next_index r - 1 - commit_index r) with (commit_index r <? next_index r - 1) by lia.
  rewrite prog_validate_Ok; cbn; try done; try (destruct Hr; u64_unfold; lia).
Qed.

Lemma recovery_progress_Some r :
  wf r ->
  recovery_progress r = Some (mkProgress Follower (term r) (commit_index r) (applied_index r)
    (commit_index r + 1) (snapshot_meta r) (commit_index r - applied_index r)
    (applied_index r <? commit_index r) 0 false).
Proof.
  intros Hr. unfold recovery_progress, progress_as_follower.
  rewrite recovery_validates by done.
  unfold rec_next_index, rec_committed_but_unapplied_count, rec_has_committed_entries_pending_apply.
  rewrite recovery_commit by done. cbn [recovery_state rec_term rec_snapshot rec_applied_index].
  rewrite Z.max_l by apply Hr. unfold saturating_sub. rewrite Z.max_r by (destruct Hr; lia).
  rewrite u64_add_small by (destruct Hr; u64_unfold; lia).
  rewrite prog_validate_Ok; cbn; try done; try (destruct Hr; u64_unfold; lia).
Qed.

Lemma status_validates r l d :
  wf r -> progress r = Some l -> recovery_progress r = Some d ->
  status_validate (mkStatus l d (recovery_gap_between l d)) = Ok tt.
Proof.
  intros Hr Hl Hd. unfold status_validate. cbn [live durable recovery_gap].
  assert (prog_validate l = Ok tt) as ->.
  { unfold progress in Hl. destruct (prog_validate _) as [[]|] eqn:E; [|done]. by simplify_eq. }
  assert (prog_validate d = Ok tt) as ->.
  { unfold recovery_progress, progress_as_follower in Hd. destruct (rec_validate _); [|done].
    destruct (prog_validate _) as [[]|] eqn:E; [|done]. by simplify_eq. }
  rewrite progress_Some in Hl by done. rewrite recovery_progress_Some in Hd by done. simplify_eq.
  cbn [map_err prog_term]. rewrite Z.eqb_refl. cbn [negb prog_snapshot].
  unfold ahead_of_live. cbn. rewrite !Z.ltb_irrefl, !Z.eqb_refl. cbn.
  rewrite (proj2 (Z.ltb_ge (next_index r) _)), (proj2 (Z.ltb_ge (next_index r - 1 - _) _))
    by (destruct Hr; lia).
  by rewrite bool_decide_eq_true_2.
Qed.

(** ** A retried request *)

Lemma accept_leader_self r : role r = Follower -> accept_leader r (term r) = r.
Proof.
  intros Hr. unfold accept_leader. rewrite bool_decide_eq_true_2, Z.ltb_irrefl by done. cbn.
  destruct r. cbn in *. by rewrite Hr.
Qed.

Lemma merge_present r l :
  (forall e, e ∈ l -> find_entry (entries r) (entry_index e) = Some e) ->
  merge_incoming r l = (r, Ok tt).
Proof.
  induction l as [|e l IH]; intros H; [done|]. cbn. rewrite (H e) by left.
  rewrite Z.eqb_refl, bool_decide_eq_true_2 by done. cbn. apply IH. intros x Hx. apply H. by right.
Qed.

Lemma finish_append_again r lc :
  wf r -> Z.min lc (next_index r - 1) <= commit_index r -> finish_append r lc = r.
Proof.
  intros Hr Hc. unfold finish_append. rewrite (merge_sort_contiguous _ _ (wf_log r Hr)).
  replace (set_entries r (entries r)) with r by by destruct r.
  rewrite tail_index_wf by done. rewrite (proj2 (Z.ltb_ge _ _)) by done.
  rewrite u64_add_small by (destruct Hr; u64_unfold; lia).
  replace (next_index r - 1 + 1) with (next_index r) by lia. by destruct r.
Qed.

(** The fields [term_at] reads besides the log are not touched by the append path. *)
Lemma merge_incoming_boundary r l :
  let r' := (merge_incoming r l).1 in
  compacted_index r' = compacted_index r /\ compacted_term r' = compacted_term r /\
  applied_index r' = applied_index r /\ applied_term r' = applied_term r.
Proof.
  revert r. induction l as [|e l IH]; intros r; cbn [merge_incoming]; [done|].
  assert (forall r, let r' := push_if_absent r e in
    compacted_index r' = compacted_index r /\ compacted_term r' = compacted_term r /\
    applied_index r' = applied_index r /\ applied_term r' = applied_term r) as Hpush
    by (intros r1; unfold push_if_absent; by destruct (forallb _ _)).
  destruct (find_entry _ _) as [x|].
  - destruct (_ =? _); [destruct (negb _); [done|apply IH]|].
    destruct (_ <=? _) eqn:E; [done|].
    destruct (IH (push_if_absent (truncate_uncommitted_from r (entry_index e)) e)) as (-> & -> & -> & ->).
    destruct (Hpush (truncate_uncommitted_from r (entry_index e))) as (-> & -> & -> & ->).
    unfold truncate_uncommitted_from. by rewrite E.
  - destruct (IH (push_if_absent r e)) as (-> & -> & -> & ->). apply Hpush.
Qed.

Lemma finish_append_field (f : RaftReplicator -> Z) r lc :
  (forall r l, f (set_entries r l) = f r) -> (forall r x, f (set_commit_index r x) = f r) ->
  (forall r x, f (set_next_index r x) = f r) -> f (finish_append r lc) = f r.
Proof.
  intros F1 F2 F3. unfold finish_append. rewrite F3.
  destruct (commit_index _ <? _); by rewrite ?F2, ?F1.
Qed.

Lemma append_retry r lt prev pt l lc r' :
  wf r -> is_u64 lt -> 0 <= prev -> prev + vec_len l < u64_max ->
  append_entries_from_leader r lt prev pt l lc = (r', Ok tt) ->
  append_entries_from_leader r' lt prev pt l lc = (r', Ok tt).
Proof.
  intros Hr Hu Hp Hmax Happ. pose proof (append_ok r lt prev pt l lc Hr Hu Hp Hmax) as H.
  rewrite Happ in H. cbn in H. destruct H as (Hw' & _ & Hrole & Hle & [T R E P N C V]).
  unfold append_entries_from_leader in Happ |- *.
  rewrite bool_decide_eq_false_2 in Happ by done. rewrite (bool_decide_eq_false_2 (role r' = Leader)) by congruence.
  rewrite (proj2 (Z.ltb_ge _ _)) in Happ by done. rewrite (proj2 (Z.ltb_ge lt (term r'))) by lia.
  fold (accept_leader r lt) in Happ. fold (accept_leader r' lt).
  assert (accept_leader r' lt = r') as -> by (rewrite <- T; by apply accept_leader_self).
  destruct (check_prev (accept_leader r lt) prev pt) as [[]|] eqn:Hprev; [|done].
  destruct (check_incoming lt _ _ l) as [[]|] eqn:Hin; [|done].
  destruct (merge_incoming_boundary (accept_leader r lt) l) as (B1 & B2 & B3 & B4).
  destruct (merge_incoming (accept_leader r lt) l) as [r1 [[]|]]; [|done].
  injection Happ as Hr'. cbn [fst] in B1, B2, B3, B4.
  assert (check_prev r' prev pt = check_prev (accept_leader r lt) prev pt) as ->.
  { unfold check_prev, term_at. rewrite (P prev) by lia. rewrite <- Hr'.
    rewrite (finish_append_field compacted_index), (finish_append_field compacted_term),
      (finish_append_field applied_index), (finish_append_field applied_term) by done.
    by rewrite B1, B2, B3, B4. }
  rewrite Hprev, (merge_present r' l E). f_equal. apply finish_append_again; [done|]. lia.
Qed.

(** ** The theorems *)

(** [C13] Every reachable node is coherent: compacted <= applied <= commit < next; the
    retained log has exactly one entry at each index between the compacted index and the
    next one, in order; no entry and no boundary carries a term above the node's; and the
    applied term is the term of the applied entry. *)
Theorem raft_invariant r :
  reachable r ->
  0 <= compacted_index r <= applied_index r /\ applied_index r <= commit_index r < next_index r /\
  (forall i e, entries r !! i = Some e -> entry_index e = compacted_index r + 1 + Z.of_nat i) /\
  compacted_index r + 1 + vec_len (entries r) = next_index r /\
  (forall e, e ∈ entries r -> entry_term e <= term r) /\
  compacted_term r <= term r /\ applied_term r <= term r /\
  (applied_index r <> 0 -> term_at r (applied_index r) = Some (applied_term r)).
Proof.
  intros Hr%raft_reachable_wf. pose proof (wf_applied_term r Hr) as Hat.
  split_and!; try (destruct Hr; lia).
  - intros i e He. by apply (contiguous_lookup _ (entries r)); [apply Hr|].
  - apply Forall_forall, Hr.
  - intros Hne. unfold term_at. rewrite (proj2 (Z.eqb_neq _ _)) by done.
    destruct (_ =? _); [by rewrite Hat|].
    rewrite (proj2 (Z.ltb_ge _ _)) by (destruct Hr; lia).
    destruct (find_entry _ _); [done|]. by rewrite Z.eqb_refl.
Qed.

(** [C12] What is committed stays: along any run the term, the commit index and the
    applied index never go back, and an entry at or below the commit index keeps its
    term and payload until a snapshot compacts it. *)
Theorem committed_prefix_stable r r' :
  reachable r -> steps r r' ->
  term r <= term r' /\ commit_index r <= commit_index r' /\ applied_index r <= applied_index r' /\
  forall i, compacted_index r' < i <= commit_index r ->
    find_entry (entries r') i = find_entry (entries r) i /\ is_Some (find_entry (entries r') i).
Proof.
  intros Hr%raft_reachable_wf Hs. destruct (steps_ok r r' Hr Hs) as [Hw [Ht Hc Ha Hci Hf]].
  split_and!; try done. intros i Hi. split; [by apply Hf|].
  destruct (committed_found r' i Hw) as (e & -> & _); [destruct Hw; lia|done].
Qed.

(** One vote per term: if a node grants its vote to two candidates of the same
    term, with any operations in between, they are the same candidate; and a vote is
    granted only to a candidate whose log is at least as up to date as the voter's. *)
Theorem one_vote_per_term r1 q1 r2 q2 :
  reachable r1 -> is_u64 (candidate_term q1) ->
  granted (request_vote_from_candidate r1 q1).2 = true ->
  steps (request_vote_from_candidate r1 q1).1 r2 ->
  granted (request_vote_from_candidate r2 q2).2 = true ->
  candidate_log_is_up_to_date r1 (last_log_index q1) (last_log_term q1) = true /\
  (candidate_term q1 = candidate_term q2 -> candidate_id q1 = candidate_id q2).
Proof.
  intros Hr%raft_reachable_wf Hu G1 Hs G2. split.
  - revert G1. unfold request_vote_from_candidate.
    destruct (_ <? _); [done|]. destruct (_ <? _); cbn.
    + change (candidate_log_is_up_to_date _ (last_log_index q1) (last_log_term q1))
        with (candidate_log_is_up_to_date r1 (last_log_index q1) (last_log_term q1)).
      by destruct (candidate_log_is_up_to_date r1 _ _).
    + destruct (match voted_for r1 with Some _ => _ | None => _ end); [done|].
      by destruct (candidate_log_is_up_to_date r1 _ _).
  - intros Heq. destruct (request_vote_ok r1 q1 Hr Hu) as [Hw _].
    destruct (request_vote_effect r1 q1) as [(_ & _ & E)|H1]; [by rewrite E in G1|].
    destruct H1 as (_ & T1 & _ & _ & _ & _ & _ & _ & _ & _ & _ & V1 & _).
    destruct (V1 G1) as [V1' _].
    destruct (steps_ok _ _ Hw Hs) as [_ Hk]. pose proof (keeps_term _ _ Hk) as Ht.
    destruct (request_vote_effect r2 q2) as [(_ & _ & E)|H2]; [by rewrite E in G2|].
    destruct H2 as (L2 & _ & _ & _ & _ & _ & _ & _ & _ & _ & _ & V2 & _).
    destruct (V2 G2) as [_ Hsame].
    apply (Hsame ltac:(lia)). apply (steps_vote _ _ _ Hw Hs); [lia|done].
Qed.

(** [C14] The append path: an accepted request leaves a follower at the leader's term
    whose log holds every entry of the request, keeps everything at and before the
    previous index, and commits to the leader's commit index as far as the log goes; a
    refused request changes nothing or only steps down to the leader's term. *)
Theorem append_entries_outcome r q :
  reachable r -> guard (Append q) r ->
  let out := apply_to q r in
  (accepted out.2 = true ->
     appended r (leader_term q) (prev_log_index q) (req_entries q) (leader_commit q) out.1 /\
     resp_error out.2 = None) /\
  (accepted out.2 = false -> out.1 = r \/ out.1 = accept_leader r (leader_term q)) /\
  follower_term out.2 = term out.1 /\ follower_commit_index out.2 = commit_index out.1 /\
  follower_applied_index out.2 = applied_index out.1.
Proof.
  intros Hr%raft_reachable_wf (H1 & H2 & H3). unfold apply_to.
  pose proof (append_ok r (leader_term q) (prev_log_index q) (prev_log_term q)
    (req_entries q) (leader_commit q) Hr H1 H2 H3) as (_ & _ & H).
  destruct (append_entries_from_leader _ _ _ _ _ _) as [r' [[]|e]]; cbn in *.
  - destruct H as (_ & _ & H). by split_and!.
  - by split_and!.
Qed.

(** Retrying an accepted append is harmless: applied again, the same request is
    accepted and the node does not change. *)
Theorem append_entries_idempotent r q :
  reachable r -> guard (Append q) r -> accepted (apply_to q r).2 = true ->
  let r' := (apply_to q r).1 in
  (apply_to q r').1 = r' /\ accepted (apply_to q r').2 = true.
Proof.
  intros Hr%raft_reachable_wf (H1 & H2 & H3). unfold apply_to at 1 2.
  destruct (append_entries_from_leader r _ _ _ _ _) as [r' [[]|e]] eqn:E; [|done]. intros _. cbn.
  pose proof (append_retry _ _ _ _ _ _ _ Hr H1 H2 H3 E) as E'.
  unfold apply_to. by rewrite E'.
Qed.

(** [C30] Only a quorum commits: an acknowledgement advances the commit index exactly
    over the next indexes that a majority of the voters has acknowledged, the
    acknowledging follower included, and the loop does stop there. *)
Theorem quorum_commits r i f acks :
  reachable r -> role r = Leader -> 0 < i < next_index r -> f <> 0 ->
  ack_counts r !! i = Some acks ->
  let counts := <[i := {[f]} ∪ acks]> (ack_counts r) in
  let r' := register_follower_ack r i f in
  voters r < 2 * quorum r /\
  commit_index r <= commit_index r' < next_index r /\
  (forall j, commit_index r < j <= commit_index r' ->
     exists a, counts !! j = Some a /\ quorum r <= Z.of_nat (size a)) /\
  (commit_index r' + 1 < next_index r ->
     forall a, counts !! (commit_index r' + 1) = Some a -> Z.of_nat (size a) < quorum r) /\
  entries r' = entries r.
Proof.
  intros Hr%raft_reachable_wf Hrole Hi Hf Hacks. cbn zeta. unfold register_follower_ack.
  rewrite bool_decide_eq_true_2 by done. cbn [negb orb].
  rewrite (proj2 (Z.eqb_neq _ _)), (proj2 (Z.leb_gt _ _)), (proj2 (Z.eqb_neq f 0)) by lia.
  cbn [orb]. rewrite Hacks.
  destruct (advance_commit_spec
    (advance_fuel (set_ack_counts r (<[i := {[f]} ∪ acks]> (ack_counts r))))
    (set_ack_counts r (<[i := {[f]} ∪ acks]> (ack_counts r)))) as (k & -> & Hk & Hall & Hstop);
    cbn in *; [destruct Hr; lia..|done|].
  split_and!; try done; try lia. destruct (wf_quorum r Hr) as [Hv ->].
  pose proof (Z.div_mod (voters r) 2 ltac:(lia)). pose proof (Z.mod_pos_bound (voters r) 2 ltac:(lia)).
  lia.
Qed.

(** Recovery restores the durable state: resuming from the recovery state of any
    reachable node succeeds, and gives a follower with the same term, commit and applied
    indexes, the same committed entries still to apply, and the same recovery state. *)
Theorem recovery_round_trip v r :
  reachable r -> 1 <= v ->
  exists r', resume_as_follower v (recovery_state r) = Some (Ok r') /\
    role r' = Follower /\ term r' = term r /\ commit_index r' = commit_index r /\
    applied_index r' = applied_index r /\ snapshot_meta r' = snapshot_meta r /\
    next_index r' = commit_index r + 1 /\
    drain_committed_from r' (applied_index r) = drain_committed_from r (applied_index r) /\
    recovery_state r' = recovery_state r.
Proof.
  intros Hr%raft_reachable_wf Hv. exists (resumed v r).
  split_and!; try done; [by apply resume_resumed| |by apply recovery_of_resumed].
  unfold drain_committed_from, resumed. cbn. rewrite <- filter_and. apply List.filter_ext.
  intros e. lia.
Qed.

(** No report panics: on every reachable node [progress], [recovery_progress],
    [recovery_progress_gap] and [status_snapshot] pass their own validators; the gap to a
    restart is the uncommitted tail and nothing else. *)
Theorem reports_never_panic r :
  reachable r ->
  exists p d s, progress r = Some p /\ recovery_progress r = Some d /\
    status_snapshot r = Some s /\
    recovery_progress_gap r =
      Some (mkGap 0 0 (uncommitted_entry_count r) (uncommitted_entry_count r)) /\
    recovery_gap s = mkGap 0 0 (uncommitted_entry_count r) (uncommitted_entry_count r) /\
    (status_is_restart_equivalent s = true <-> has_uncommitted_entries r = false).
Proof.
  intros Hr%raft_reachable_wf. pose proof (uncommitted_count_wf r Hr) as Hu.
  pose proof (progress_Some r Hr) as Hp. pose proof (recovery_progress_Some r Hr) as Hd.
  set (l := mkProgress (role r) _ _ _ _ _ _ _ _ _) in Hp.
  set (d := mkProgress Follower _ _ _ _ _ _ _ _ _) in Hd.
  assert (recovery_gap_between l d =
    mkGap 0 0 (uncommitted_entry_count r) (uncommitted_entry_count r)) as Hg.
  { unfold recovery_gap_between, saturating_sub. cbn. rewrite Hu. f_equal; destruct Hr; lia. }
  pose proof (status_validates r l d Hr Hp Hd) as Hv. rewrite Hg in Hv.
  assert (recovery_progress_gap r = Some (recovery_gap_between l d)) as Hrg
    by (unfold recovery_progress_gap; by rewrite Hp, Hd).
  rewrite Hg in Hrg. exists l, d, (mkStatus l d
    (mkGap 0 0 (uncommitted_entry_count r) (uncommitted_entry_count r))). split_and!; [done|done| |done|done|].
  - unfold status_snapshot. rewrite Hp, Hd, Hrg. cbn [mbind option_bind]. unfold status_new.
    cbv zeta. by rewrite Hv.
  - unfold status_is_restart_equivalent, gap_is_restart_equivalent, has_gap, has_uncommitted_entries.
    rewrite existsb_filter. fold (uncommitted_entry_count r). cbn. lia.
Qed.

(** ** Concrete runs *)

Definition start (n : Z) : RaftReplicator :=
  match new n with Some r => r | None => mkRaft 0 0 0 0 0 Follower [] 0 0 0 0 0 None ∅ end.

Definition entry1 : LogEntry := mkEntry 1 1 [x01].
Definition entry2 : LogEntry := mkEntry 2 2 [x02].

(** A follower of a three-voter cluster that has two entries, one of them committed. *)
Definition two_entries : AppendEntriesRequest := mkAppendRequest 2 0 0 [entry1; entry2] 1.
Definition follower : RaftReplicator := run (Append two_entries) (start 3).

(** A leader of term 2 with one proposal outstanding. *)
Definition leader : RaftReplicator := run (Propose [x01]) (run (BecomeLeader 2) (start 3)).

Lemma start_reachable : reachable (start 3).
Proof. exists 3, (start 3). split; [done|apply steps_refl]. Qed.

Lemma reachable_run o r : reachable r -> guard o r -> reachable (run o r).
Proof. intros (n & r0 & H0 & Hs) Hg. exists n, r0. split; [done|by apply steps_run]. Qed.

Lemma two_entries_guard r : guard (Append two_entries) r.
Proof. repeat split; by vm_compute. Qed.

Lemma follower_reachable : reachable follower.
Proof. apply reachable_run; [apply start_reachable|apply two_entries_guard]. Qed.

Lemma leader_reachable : reachable leader.
Proof.
  apply reachable_run; [|done]. apply reachable_run; [apply start_reachable|].
  split; by vm_compute.
Qed.

Lemma raft_invariant_witness : reachable follower /\ commit_index follower < next_index follower.
Proof. split; [exact follower_reachable|]. apply (raft_invariant follower follower_reachable). Defined.

Lemma committed_prefix_stable_witness :
  find_entry (entries (run (BecomeFollower 5) follower)) 1 = find_entry (entries follower) 1 /\
  vec_len (entries (run (BecomeFollower 5) follower)) = 1.
Proof.
  split; [|by vm_compute].
  apply (committed_prefix_stable follower (run (BecomeFollower 5) follower) follower_reachable);
    [|by vm_compute]. apply steps_run; [apply steps_refl|]. split; by vm_compute.
Defined.

Definition vote_for_7 : RequestVoteRequest := mkVoteRequest 3 7 2 2.

Lemma one_vote_per_term_witness :
  granted (request_vote_from_candidate follower vote_for_7).2 = true /\
  (candidate_term vote_for_7 = candidate_term vote_for_7 ->
     candidate_id vote_for_7 = candidate_id vote_for_7).
Proof.
  split; [by vm_compute|].
  apply (one_vote_per_term follower vote_for_7 (request_vote_from_candidate follower vote_for_7).1
    vote_for_7 follower_reachable); [split; by vm_compute|by vm_compute|apply steps_refl|by vm_compute].
Defined.

Lemma append_entries_outcome_witness :
  accepted (apply_to two_entries (start 3)).2 = true /\
  appended (start 3) 2 0 [entry1; entry2] 1 (apply_to two_entries (start 3)).1.
Proof.
  split; [by vm_compute|].
  apply (append_entries_outcome (start 3) two_entries start_reachable (two_entries_guard _)).
  by vm_compute.
Defined.

Lemma append_entries_idempotent_witness :
  (apply_to two_entries follower).1 = follower.
Proof.
  apply (append_entries_idempotent (start 3) two_entries start_reachable (two_entries_guard _)).
  by vm_compute.
Defined.

Lemma quorum_commits_witness :
  commit_index leader = 0 /\ commit_index (register_follower_ack leader 1 8) = 1 /\
  voters leader < 2 * quorum leader.
Proof.
  split; [by vm_compute|]. split; [by vm_compute|].
  apply (quorum_commits leader 1 8 {[0]} leader_reachable); by vm_compute.
Defined.

Lemma recovery_round_trip_witness :
  exists r', resume_as_follower 3 (recovery_state follower) = Some (Ok r') /\
    commit_index r' = 1 /\ next_index r' = 2.
Proof.
  destruct (recovery_round_trip 3 follower follower_reachable ltac:(lia))
    as (r' & Hr & _ & _ & Hc & _ & _ & Hn & _).
  exists r'. split_and!; [done|rewrite Hc; by vm_compute|rewrite Hn; by vm_compute].
Defined.

Lemma reports_never_panic_witness :
  exists s, status_snapshot follower = Some s /\
    recovery_gap s = mkGap 0 0 (uncommitted_entry_count follower) (uncommitted_entry_count follower).
Proof.
  destruct (reports_never_panic follower follower_reachable) as (p & d & s & _ & _ & Hs & _ & Hg & _).
  by exists s.
Defined.

(** ** Where the node departs from Raft *)

(** A leader of term 3 whose log has another entry at index 2, and its heartbeat. *)
Definition leader_log : list LogEntry := [entry1; mkEntry 3 2 [x03]].
Definition heartbeat : AppendEntriesRequest := mkAppendRequest 3 1 1 [] 2.

(** A vote request of term 3 that is refused but raises the follower's term without
    dropping its uncommitted entries. *)
Definition refused_vote : RequestVoteRequest := mkVoteRequest 3 7 1 1.
Definition stale : RaftReplicator := run (RequestVote refused_vote) follower.

(** The append path commits up to the end of the local log, not up to the last entry the
    request vouches for: a heartbeat makes the follower commit an entry that the leader
    does not have. *)
Theorem heartbeat_commits_unmatched_entry :
  reachable stale /\
  find_entry leader_log (prev_log_index heartbeat) =
    find_entry (entries stale) (prev_log_index heartbeat) /\
  accepted (apply_to heartbeat stale).2 = true /\
  commit_index (apply_to heartbeat stale).1 = 2 /\
  find_entry (entries (apply_to heartbeat stale).1) 2 = Some entry2 /\
  find_entry leader_log 2 <> Some entry2.
Proof.
  split; [apply reachable_run; [apply follower_reachable|split; by vm_compute]|].
  split_and!; by vm_compute.
Qed.

(** A follower that has acknowledged an entry, which the leader then commits, drops it
    when it becomes leader itself: the new leader does not have the committed entry. *)
Definition acked_follower : RaftReplicator :=
  run (Append (mkAppendRequest 2 0 0 (entries leader) 0)) (start 3).

Theorem new_leader_loses_committed_entry :
  accepted (apply_to (mkAppendRequest 2 0 0 (entries leader) 0) (start 3)).2 = true /\
  commit_index (register_follower_ack leader 1 8) = 1 /\
  find_entry (entries (register_follower_ack leader 1 8)) 1 =
    find_entry (entries acked_follower) 1 /\
  find_entry (entries acked_follower) 1 <> None /\
  find_entry (entries (become_leader acked_follower 3)) 1 = None /\
  next_index (become_leader acked_follower 3) = 1.
Proof. split_and!; by vm_compute. Qed.

(** The vote is not part of the recovery state: a node that restarts within a term can
    grant its vote in that term again, to another candidate. *)
Definition vote_for_8 : RequestVoteRequest := mkVoteRequest 3 8 2 2.

Theorem vote_lost_on_restart :
  let voted := (request_vote_from_candidate follower vote_for_7).1 in
  granted (request_vote_from_candidate follower vote_for_7).2 = true /\
  granted (request_vote_from_candidate voted vote_for_8).2 = false /\
  exists restarted, resume_as_follower 3 (recovery_state voted) = Some (Ok restarted) /\
    term restarted = candidate_term vote_for_8 /\
    granted (request_vote_from_candidate restarted vote_for_8).2 = true.
Proof.
  split; [by vm_compute|]. split; [by vm_compute|].
  exists (resumed 3 (request_vote_from_candidate follower vote_for_7).1).
  split; [|split; by vm_compute]. apply resume_resumed; [|lia].
  apply request_vote_ok; [apply raft_reachable_wf, follower_reachable|split; by vm_compute].
Qed.

End RaftProps.
