(* ===== verification/LocalRepl.v ===== *)
(** * The local replicator (crates/replication/src/local.rs)

    The single-node replicator on the commit path: proposals that commit at once, batch
    proposals, pre-WAL reservations bound to the exact log state, rollback of the
    unapplied suffix, prefix compaction and snapshots.  A panic ([expect], [assert_eq!])
    is [None].

    The capacity of the entries vector is part of the state, because reservations compare
    it.  How [Vec] grows is the allocator's business: it is the class [VecAlloc], whose
    laws are the documented behaviour of [Vec::reserve], [Vec::push] and
    [Vec::try_reserve_exact]. *)

From stdpp Require Import base strings list pretty.
From S2P Require Import Prelude Types Progress Log.

(** [vec_grow len cap additional] and [vec_try_reserve_exact len cap additional] give the
    new capacity; [None] is an allocation failure that is reported to the caller. *)
Class VecAlloc := {
  vec_grow : Z -> Z -> Z -> Z;
  vec_try_reserve_exact : Z -> Z -> Z -> option Z;
  vec_grow_noop len cap add : len + add <= cap -> vec_grow len cap add = cap;
  vec_grow_enough len cap add : len + add <= vec_grow len cap add;
  vec_try_reserve_exact_noop len cap add :
    len + add <= cap -> vec_try_reserve_exact len cap add = Some cap;
  vec_try_reserve_exact_enough len cap add cap' :
    vec_try_reserve_exact len cap add = Some cap' -> len + add <= cap';
}.

Module Local.
Import Progress Log.

Record LocalReplicator := mkLocal {
  term : Z;
  next_index : Z;
  commit_index : Z;
  applied_index : Z;
  applied_term : Z;
  role : Role;
  entries : list LogEntry;
  capacity : Z;
  proposal_reservation_generation : Z;
  proposal_reservation_owner_id : Z;
  local_snapshot_id : Z;
}.

Record LocalReplicatorProposalReservation := mkReservation {
  expected_owner_id : Z;
  expected_next_index : Z;
  expected_entries_len : Z;
  expected_entries_capacity : Z;
  expected_term : Z;
  expected_commit_index : Z;
  expected_generation : Z;
}.

(** Assignment to a field. *)
Definition set_term (r : LocalReplicator) (x : Z) : LocalReplicator :=
  mkLocal x (next_index r) (commit_index r) (applied_index r) (applied_term r) (role r)
    (entries r) (capacity r) (proposal_reservation_generation r)
    (proposal_reservation_owner_id r) (local_snapshot_id r).
Definition set_next_index (r : LocalReplicator) (x : Z) : LocalReplicator :=
  mkLocal (term r) x (commit_index r) (applied_index r) (applied_term r) (role r)
    (entries r) (capacity r) (proposal_reservation_generation r)
    (proposal_reservation_owner_id r) (local_snapshot_id r).
Definition set_commit_index (r : LocalReplicator) (x : Z) : LocalReplicator :=
  mkLocal (term r) (next_index r) x (applied_index r) (applied_term r) (role r)
    (entries r) (capacity r) (proposal_reservation_generation r)
    (proposal_reservation_owner_id r) (local_snapshot_id r).
Definition set_applied (r : LocalReplicator) (i t : Z) : LocalReplicator :=
  mkLocal (term r) (next_index r) (commit_index r) i t (role r)
    (entries r) (capacity r) (proposal_reservation_generation r)
    (proposal_reservation_owner_id r) (local_snapshot_id r).
Definition set_role (r : LocalReplicator) (x : Role) : LocalReplicator :=
  mkLocal (term r) (next_index r) (commit_index r) (applied_index r) (applied_term r) x
    (entries r) (capacity r) (proposal_reservation_generation r)
    (proposal_reservation_owner_id r) (local_snapshot_id r).
Definition set_entries (r : LocalReplicator) (l : list LogEntry) (cap : Z) : LocalReplicator :=
  mkLocal (term r) (next_index r) (commit_index r) (applied_index r) (applied_term r) (role r)
    l cap (proposal_reservation_generation r)
    (proposal_reservation_owner_id r) (local_snapshot_id r).
Definition set_generation (r : LocalReplicator) (x : Z) : LocalReplicator :=
  mkLocal (term r) (next_index r) (commit_index r) (applied_index r) (applied_term r) (role r)
    (entries r) (capacity r) x (proposal_reservation_owner_id r) (local_snapshot_id r).
Definition set_snapshot_id (r : LocalReplicator) (x : Z) : LocalReplicator :=
  mkLocal (term r) (next_index r) (commit_index r) (applied_index r) (applied_term r) (role r)
    (entries r) (capacity r) (proposal_reservation_generation r)
    (proposal_reservation_owner_id r) x.

(** The process-wide [AtomicU64]: the id handed out and the counter after [fetch_add];
    [None] is the failed [assert_ne!]. *)
Definition next_proposal_reservation_owner_id (counter : Z) : option (Z * Z) :=
  if counter =? 0 then None else Some (counter, u64_add counter 1).

Definition leader (counter : Z) : option (LocalReplicator * Z) :=
  match next_proposal_reservation_owner_id counter with
  | None => None
  | Some (owner, counter) => Some (mkLocal 1 1 0 0 0 Leader [] 0 0 owner 0, counter)
  end.

Definition invalidate_proposal_reservations (r : LocalReplicator) : option LocalReplicator :=
  match checked_add64 (proposal_reservation_generation r) 1 with
  | Some g => Some (set_generation r g)
  | None => None
  end.

(** The body [become_follower], [become_leader] and [become_candidate] share. *)
Definition become (new_role : Role) (r : LocalReplicator) (t : Z) : option LocalReplicator :=
  invalidate_proposal_reservations (set_role (set_term r (Z.max (term r) t)) new_role).

Definition become_follower : LocalReplicator -> Z -> option LocalReplicator := become Follower.
Definition become_leader : LocalReplicator -> Z -> option LocalReplicator := become Leader.
Definition become_candidate : LocalReplicator -> Z -> option LocalReplicator := become Candidate.

Definition peek_next_index (r : LocalReplicator) : Z := next_index r.

(** ** Reading *)

Definition snapshot_meta (r : LocalReplicator) : SnapshotMeta :=
  mkMeta (applied_index r) (applied_term r) (local_snapshot_id r).

Definition entry_at (r : LocalReplicator) (index : Z) : option LogEntry :=
  match head (entries r) with
  | None => None
  | Some e =>
      let first := entry_index e in
      if index <? first then None else entries r !! Z.to_nat (index - first)
  end.

Definition drain_committed_from (r : LocalReplicator) (start_exclusive : Z) : list LogEntry :=
  let '(start_pos, end_pos) :=
    match head (entries r) with
    | Some e =>
        let first := entry_index e in
        if first <=? commit_index r then
          let lo := Z.max (saturating_add64 start_exclusive 1) first in
          let start := lo - first in
          let end_ := Z.min (u64_add (commit_index r - first) 1) (vec_len (entries r)) in
          (Z.min start end_, end_)
        else (0, 0)
    | None => (0, 0)
    end in
  take (Z.to_nat (end_pos - start_pos)) (drop (Z.to_nat start_pos) (entries r)).

Definition retained_entry_count (r : LocalReplicator) : Z := vec_len (entries r).

Definition committed_but_unapplied_count (r : LocalReplicator) : Z :=
  saturating_sub (commit_index r) (applied_index r).

Definition has_committed_entries_pending_apply (r : LocalReplicator) : bool :=
  applied_index r <? commit_index r.

Definition wait_committed (r : LocalReplicator) (token : CommitToken) : result Z EngineError :=
  if token_index token <=? commit_index r then Ok (token_index token)
  else Err (ProposalFailed ("token " +:+ pretty (token_index token) +:+
              " is not committed yet (commit_index=" +:+ pretty (commit_index r) +:+ ")")).

(** ** Applying, compacting, rolling back *)

Definition mark_applied (r : LocalReplicator) (idx : Z) : option LocalReplicator :=
  let bounded := Z.min idx (commit_index r) in
  if bounded <=? applied_index r then Some r
  else
    let r := set_applied r bounded
               (match entry_at r bounded with
                | Some entry => entry_term entry
                | None => applied_term r
                end) in
    invalidate_proposal_reservations r.

Definition compact_applied_prefix (r : LocalReplicator) : option LocalReplicator :=
  let applied := applied_index r in
  invalidate_proposal_reservations
    (set_entries r (List.filter (fun e => applied <? entry_index e) (entries r)) (capacity r)).

Definition rollback_unapplied_from (r : LocalReplicator) (index_inclusive : Z)
    : option LocalReplicator :=
  if index_inclusive <=? applied_index r then Some r
  else
    let r := set_entries r (List.filter (fun e => entry_index e <? index_inclusive) (entries r))
               (capacity r) in
    let r := set_commit_index r
               (match last (entries r) with
                | Some e => entry_index e
                | None => applied_index r
                end) in
    let r := set_next_index r (saturating_add64 (commit_index r) 1) in
    invalidate_proposal_reservations r.

Definition export_snapshot_meta (r : LocalReplicator) : option (LocalReplicator * SnapshotMeta) :=
  let r := set_snapshot_id r (u64_add (local_snapshot_id r) 1) in
  match invalidate_proposal_reservations r with
  | Some r => Some (r, snapshot_meta r)
  | None => None
  end.

Definition install_snapshot (r : LocalReplicator) (meta : SnapshotMeta)
    : option LocalReplicator :=
  let current := snapshot_meta r in
  let idx := last_included_index meta in
  let advances_frontier := last_included_index current <? idx in
  let same_frontier_same_term :=
    (idx =? last_included_index current) &&
    (last_included_term meta =? last_included_term current) in
  let regresses_term_on_advanced_frontier :=
    advances_frontier && (last_included_term meta <? last_included_term current) in
  if regresses_term_on_advanced_frontier ||
     (negb advances_frontier && negb same_frontier_same_term) then Some r
  else
    let r := set_term r (Z.max (term r) (last_included_term meta)) in
    let r := set_commit_index r (Z.max (commit_index r) idx) in
    let r := if applied_index r <? idx then set_applied r idx (last_included_term meta)
             else r in
    let r := set_snapshot_id r (snapshot_id meta) in
    let r := set_entries r (List.filter (fun e => idx <? entry_index e) (entries r)) (capacity r) in
    let tail_index :=
      match last (entries r) with Some e => entry_index e | None => commit_index r end in
    let r := set_next_index r (saturating_add64 tail_index 1) in
    invalidate_proposal_reservations r.

(** ** Proposing *)

Section proposals.
Context {alloc : VecAlloc}.

(** [self.entries.push(entry)] *)
Definition push_entry (r : LocalReplicator) (e : LogEntry) : LocalReplicator :=
  set_entries r (entries r ++ [e]) (vec_grow (vec_len (entries r)) (capacity r) 1).

(** The error every exhausted path returns. *)
Definition exhausted : EngineError := ProposalFailed "commit sequence space exhausted".

Definition propose (r : LocalReplicator) (payload : list byte)
    : option (LocalReplicator * result CommitToken EngineError) :=
  if negb (bool_decide (role r = Leader)) then Some (r, Err NotLeader)
  else if next_index r =? u64_max then Some (r, Err exhausted)
  else
    let idx := next_index r in
    match checked_add64 (next_index r) 1 with
    | None => None
    | Some next =>
        let r := set_next_index r next in
        let r := push_entry r (mkEntry (term r) idx payload) in
        let r := set_commit_index r idx in
        match invalidate_proposal_reservations r with
        | Some r => Some (r, Ok (mkToken idx))
        | None => None
        end
    end.

(** The loop of [propose_batch]. *)
Fixpoint push_batch (r : LocalReplicator) (payloads : list (list byte))
    : LocalReplicator * result unit EngineError :=
  match payloads with
  | [] => (r, Ok tt)
  | payload :: rest =>
      let idx := next_index r in
      match checked_add64 (next_index r) 1 with
      | None => (r, Err exhausted)
      | Some next =>
          push_batch (push_entry (set_next_index r next) (mkEntry (term r) idx payload)) rest
      end
  end.

(** [count > 0]: the last index must exist and must not be the reserved maximum. *)
Definition batch_fits (first count : Z) : bool :=
  if 0 <? count then
    match checked_add64 first (count - 1) with
    | None => false
    | Some last => negb (last =? u64_max)
    end
  else true.

Definition propose_batch (r : LocalReplicator) (payloads : list (list byte))
    : option (LocalReplicator * result Z EngineError) :=
  if negb (bool_decide (role r = Leader)) then Some (r, Err NotLeader)
  else
    let first := next_index r in
    if negb (batch_fits first (vec_len payloads)) then Some (r, Err exhausted)
    else
      let r := set_entries r (entries r)
                 (vec_grow (vec_len (entries r)) (capacity r) (vec_len payloads)) in
      match push_batch r payloads with
      | (r, Err e) => Some (r, Err e)
      | (r, Ok _) =>
          let r := if first <? next_index r then set_commit_index r (next_index r - 1) else r in
          if negb (next_index r =? first) then
            match invalidate_proposal_reservations r with
            | Some r => Some (r, Ok first)
            | None => None
            end
          else Some (r, Ok first)
      end.

Definition reserve_next_proposal (r : LocalReplicator)
    : LocalReplicator * result LocalReplicatorProposalReservation EngineError :=
  if negb (bool_decide (role r = Leader)) then (r, Err NotLeader)
  else if next_index r =? u64_max then (r, Err exhausted)
  else
    match vec_try_reserve_exact (vec_len (entries r)) (capacity r) 1 with
    | None =>
        (r, Err (ProposalFailed
              "unable to reserve the next local replication entry before WAL"))
    | Some cap =>
        let r := set_entries r (entries r) cap in
        (r, Ok (mkReservation (proposal_reservation_owner_id r) (next_index r)
                  (vec_len (entries r)) (capacity r) (term r) (commit_index r)
                  (proposal_reservation_generation r)))
    end.

(** The state the reservation was issued for is the state it is consumed in. *)
Definition reservation_matches (r : LocalReplicator) (v : LocalReplicatorProposalReservation)
    : bool :=
  bool_decide (role r = Leader) &&
  (proposal_reservation_owner_id r =? expected_owner_id v) &&
  (next_index r =? expected_next_index v) &&
  (vec_len (entries r) =? expected_entries_len v) &&
  (capacity r =? expected_entries_capacity v) &&
  (term r =? expected_term v) &&
  (commit_index r =? expected_commit_index v) &&
  (proposal_reservation_generation r =? expected_generation v).

Definition propose_reserved (r : LocalReplicator) (v : LocalReplicatorProposalReservation)
    (payload : list byte) : option (LocalReplicator * result CommitToken EngineError) :=
  if negb (reservation_matches r v) then
    Some (r, Err (ProposalFailed
           "reserved local replication proposal state drifted before consumption"))
  else
    let capacity_before := capacity r in
    let idx := next_index r in
    match checked_add64 (next_index r) 1 with
    | None => None
    | Some next =>
        let r := push_entry (set_next_index r next) (mkEntry (term r) idx payload) in
        if negb (capacity r =? capacity_before) then None
        else
          match invalidate_proposal_reservations (set_commit_index r idx) with
          | Some r => Some (r, Ok (mkToken idx))
          | None => None
          end
    end.

End proposals.

(** ** Reports *)

Definition progress (r : LocalReplicator) : option ReplicationProgress :=
  let p := mkProgress (role r) (term r) (commit_index r) (applied_index r) (next_index r)
             (snapshot_meta r) (committed_but_unapplied_count r)
             (has_committed_entries_pending_apply r) 0 false in
  match prog_validate p with Ok _ => Some p | Err _ => None end.

Definition status_snapshot (r : LocalReplicator) : option ReplicationStatusSnapshot :=
  l ← progress r; ok (status_new l l (mkGap 0 0 0 0)).

End Local.
