(* ===== verification/LocalReplProps.v ===== *)
(** * Properties of the local replicator

    The theorems about [LocalReplicator] (crates/replication/src/local.rs): the invariant
    of every reachable state and that its reports do not panic; the constant-time log
    reads are the scans they replaced; a batch proposal is the loop of single ones; and a
    reservation is consumed in exactly the state it was issued for. *)

From stdpp Require Import base strings list.
From S2P Require Import Prelude Types Progress Log LocalRepl.

Module LocalProps.
Import Progress Log Local.

(** ** The invariant *)

Record wf (r : LocalReplicator) : Prop := {
  wf_applied : 0 <= applied_index r <= commit_index r;
  wf_commit : commit_index r <= u64_max;
  wf_next : next_index r = saturating_add64 (commit_index r) 1;
  wf_log : exists c, 0 <= c <= applied_index r /\ contiguous (c + 1) (entries r) /\
    c + vec_len (entries r) = commit_index r;
  wf_tail : 0 < vec_len (entries r) -> commit_index r < u64_max;
  wf_generation : 0 <= proposal_reservation_generation r;
}.

Lemma invalidate_Some r r' :
  invalidate_proposal_reservations r = Some r' ->
  r' = set_generation r (proposal_reservation_generation r + 1).
Proof.
  unfold invalidate_proposal_reservations. destruct (checked_add64 _ _) as [g|] eqn:E; [|done].
  apply checked_add64_Some in E as [-> _]. by intros [= <-].
Qed.

Lemma wf_invalidate r r' : wf r -> invalidate_proposal_reservations r = Some r' -> wf r'.
Proof. intros [] ->%invalidate_Some. split; cbn; try done; lia. Qed.

Lemma leader_wf c r c' : leader c = Some (r, c') -> wf r.
Proof.
  unfold leader. destruct (next_proposal_reservation_owner_id c) as [[o c1]|]; [|done].
  intros [= <- _]. split; cbn; try done; try (u64_unfold; lia). by exists 0.
Qed.

(** ** Log reads *)

Lemma head_index c l e : contiguous (c + 1) l -> head l = Some e -> entry_index e = c + 1.
Proof. destruct l; [done|]. intros [? _] [= <-]. done. Qed.

Lemma entry_at_find r i : wf r -> entry_at r i = find_entry (entries r) i.
Proof.
  intros [_ _ _ (c & Hc & Hl & Hlen) _ _]. unfold entry_at. rewrite (find_entry_lookup _ _ _ Hl).
  destruct (head (entries r)) as [e|] eqn:E.
  - rewrite (head_index _ _ _ Hl E).
    destruct (Z.ltb_spec i (c + 1)), (Z.leb_spec (c + 1) i); try done; lia.
  - destruct (entries r); [|done]. by destruct (_ <=? _).
Qed.

Lemma drain_filter r start :
  wf r -> 0 <= start ->
  drain_committed_from r start =
  List.filter (fun e => (start <? entry_index e) && (entry_index e <=? commit_index r)) (entries r).
Proof.
  intros [Ha Hm _ (c & Hc & Hl & Hlen) Htl _] Hs.
  rewrite (List.filter_ext_in _ (fun e => start <? entry_index e)).
  2: { intros e He%list_elem_of_In. apply (contiguous_elem _ _ _ Hl) in He. lia. }
  rewrite (filter_above _ _ _ Hl). unfold drain_committed_from.
  destruct (head (entries r)) as [e|] eqn:E.
  2: { destruct (entries r); [|done]. by rewrite !drop_nil. }
  rewrite (head_index _ _ _ Hl E).
  assert (0 < vec_len (entries r)) by (destruct (entries r); [done|unfold vec_len; cbn; lia]).
  rewrite (proj2 (Z.leb_le _ _)) by lia.
  rewrite u64_add_small by (u64_unfold; lia).
  replace (Z.min (commit_index r - (c + 1) + 1) (vec_len (entries r)))
    with (vec_len (entries r)) by lia.
  rewrite take_ge by (rewrite length_drop; unfold vec_len in *; lia).
  destruct (Z.le_gt_cases (vec_len (entries r)) (start - c)) as [Hbig|Hsmall].
  - rewrite !drop_ge; [done|unfold vec_len in *; lia|unfold vec_len, saturating_add64 in *; lia].
  - f_equal. unfold saturating_add64, vec_len in *. lia.
Qed.

(** ** Operations *)

Lemma mark_applied_wf r i r' : wf r -> mark_applied r i = Some r' -> wf r'.
Proof.
  intros Hr. unfold mark_applied. destruct (Z.leb_spec (Z.min i (commit_index r)) (applied_index r)).
  { by intros [= <-]. }
  apply wf_invalidate. destruct Hr as [? ? ? (c & ? & ? & ?) ? ?]. split; cbn; try done; try lia.
  exists c. split_and!; try done; lia.
Qed.

Lemma compact_wf r r' : wf r -> compact_applied_prefix r = Some r' -> wf r'.
Proof.
  intros Hr. apply wf_invalidate. destruct Hr as [? ? ? (c & Hc & Hl & Hlen) Htl ?].
  destruct (filter_above_contiguous _ _ (applied_index r) Hl) as [H1 H2]; [lia|].
  split; cbn; try done; try lia.
  exists (applied_index r). split_and!; try done; lia.
Qed.

Lemma rollback_wf r i r' : wf r -> rollback_unapplied_from r i = Some r' -> wf r'.
Proof.
  intros Hr. unfold rollback_unapplied_from. destruct (Z.leb_spec i (applied_index r)).
  { by intros [= <-]. }
  apply wf_invalidate. destruct Hr as [? ? ? (c & Hc & Hl & Hlen) Htl ?]. cbn.
  destruct (filter_below_contiguous _ _ i Hl ltac:(lia)) as [H1 H2].
  set (l := List.filter _ _) in *.
  assert ((match last l with Some e => entry_index e | None => applied_index r end) =
    c + vec_len l) as Hlast.
  { destruct (last l) as [e|] eqn:E; [rewrite (contiguous_last _ _ _ H1 E); lia|].
    apply last_None in E. rewrite E in *. unfold vec_len in *. cbn in *. lia. }
  rewrite Hlast. assert (applied_index r <= c + vec_len l) by lia.
  split; cbn; try done; try lia. by exists c.
Qed.

Lemma install_wf r meta r' :
  wf r -> 0 <= last_included_index meta <= u64_max -> install_snapshot r meta = Some r' -> wf r'.
Proof.
  intros Hr Hi. unfold install_snapshot. cbn [snapshot_meta last_included_index last_included_term].
  set (idx := last_included_index meta) in *. set (t := last_included_term meta).
  match goal with |- context [if ?c then Some r else _] => destruct c eqn:Hrefuse end.
  { by intros [= <-]. }
  apply orb_false_iff in Hrefuse as [_ Hadv].
  assert (applied_index r <= idx) as Ha by lia.
  apply wf_invalidate. destruct Hr as [? ? ? (c & Hc & Hl & Hlen) Htl ?].
  assert (exists l, l = List.filter (fun e => idx <? entry_index e) (entries r) /\
    contiguous (idx + 1) l /\ idx + vec_len l = Z.max (commit_index r) idx) as (l & El & H1 & H2).
  { eexists. split; [done|]. destruct (Z.le_gt_cases (commit_index r) idx) as [Hout|Hin].
    - rewrite (filter_above _ _ _ Hl), drop_ge by (unfold vec_len in *; lia).
      split; [done|]. unfold vec_len. cbn. lia.
    - destruct (filter_above_contiguous _ _ idx Hl) as [? ?]; [lia|]. split; [done|lia]. }
  assert ((match last l with Some e => entry_index e | None => Z.max (commit_index r) idx end) =
    Z.max (commit_index r) idx) as Hlast.
  { destruct (last l) as [e|] eqn:E; [|done]. rewrite (contiguous_last _ _ _ H1 E). lia. }
  cbn. destruct (Z.ltb_spec (applied_index r) idx); cbn; rewrite <- El, Hlast.
  - split; cbn; try done; try lia. exists idx. split_and!; try done; lia.
  - split; cbn; try done; try lia. exists idx. split_and!; try done; lia.
Qed.

Section proposals.
Context {alloc : VecAlloc}.

Lemma wf_next_small r :
  wf r -> next_index r <> u64_max ->
  next_index r = commit_index r + 1 /\ next_index r < u64_max.
Proof. intros [_ Hc Hn _ _ _] Hne. rewrite Hn in *. unfold saturating_add64 in *. lia. Qed.

Lemma saturating_add64_small a b : a + b <= u64_max -> saturating_add64 a b = a + b.
Proof. intros. unfold saturating_add64. lia. Qed.

Lemma wf_push r p :
  wf r -> next_index r <> u64_max ->
  wf (set_commit_index (push_entry (set_next_index r (next_index r + 1))
        (mkEntry (term r) (next_index r) p)) (next_index r)).
Proof.
  intros Hr Hne. destruct (wf_next_small r Hr Hne) as [En Hlt].
  destruct Hr as [Ha Hc _ (c & Hc' & Hl & Hlen) _ Hg].
  split; cbn [applied_index commit_index next_index entries proposal_reservation_generation
    set_commit_index push_entry set_next_index set_entries].
  - lia.
  - lia.
  - by rewrite saturating_add64_small by lia.
  - exists c. split_and!; [lia|lia| |].
    + apply contiguous_snoc; [done|]. cbn [entry_index]. lia.
    + unfold vec_len in *. rewrite length_app. cbn [length]. lia.
  - lia.
  - lia.
Qed.

(** What [propose] does when it succeeds: everything but the capacity and the
    reservation generation. *)
Definition proposed (r : LocalReplicator) (payloads : list (list byte)) (r' : LocalReplicator)
    : Prop :=
  term r' = term r /\ role r' = role r /\ applied_index r' = applied_index r /\
  applied_term r' = applied_term r /\ local_snapshot_id r' = local_snapshot_id r /\
  proposal_reservation_owner_id r' = proposal_reservation_owner_id r /\
  entries r' = entries r ++ imap (fun k p => mkEntry (term r) (next_index r + Z.of_nat k) p) payloads /\
  next_index r' = next_index r + vec_len payloads /\
  commit_index r' = commit_index r + vec_len payloads.

Lemma propose_proposed r p r' tok :
  wf r -> propose r p = Some (r', Ok tok) ->
  wf r' /\ role r = Leader /\ next_index r < u64_max /\ tok = mkToken (next_index r) /\
  proposed r [p] r' /\
  proposal_reservation_generation r' = proposal_reservation_generation r + 1.
Proof.
  intros Hr. unfold propose. case_bool_decide as Hrole; [|done]. cbn [negb].
  destruct (Z.eqb_spec (next_index r) u64_max) as [|Hne]; [done|].
  destruct (checked_add64 (next_index r) 1) as [n|] eqn:En; [|done].
  apply checked_add64_Some in En as [-> Hle].
  pose proof (wf_push r p Hr Hne) as Hpush.
  destruct (invalidate_proposal_reservations _) as [r1|] eqn:E; [|done]. intros [= <- <-].
  pose proof (wf_invalidate _ _ Hpush E). apply invalidate_Some in E as ->.
  split_and!; try done; [lia|]. unfold proposed, vec_len. cbn. rewrite Z.add_0_r.
  split_and!; try done. pose proof (wf_next r Hr). pose proof (wf_commit r Hr).
  revert Hne H0 H1. u64_unfold. lia.
Qed.

Lemma push_batch_spec r payloads :
  next_index r + vec_len payloads <= u64_max ->
  exists r', push_batch r payloads = (r', Ok tt) /\
    entries r' = entries r ++ imap (fun k p => mkEntry (term r) (next_index r + Z.of_nat k) p) payloads /\
    next_index r' = next_index r + vec_len payloads /\
    term r' = term r /\ role r' = role r /\ applied_index r' = applied_index r /\
    applied_term r' = applied_term r /\ local_snapshot_id r' = local_snapshot_id r /\
    proposal_reservation_owner_id r' = proposal_reservation_owner_id r /\
    proposal_reservation_generation r' = proposal_reservation_generation r /\
    commit_index r' = commit_index r.
Proof.
  revert r. induction payloads as [|p rest IH]; intros r Hfit; cbn.
  { exists r. unfold vec_len. cbn. rewrite app_nil_r, Z.add_0_r. by split_and!. }
  unfold vec_len in Hfit. cbn in Hfit.
  assert (checked_add64 (next_index r) 1 = Some (next_index r + 1)) as ->
    by (apply checked_add64_Some; lia).
  destruct (IH (push_entry (set_next_index r (next_index r + 1))
    (mkEntry (term r) (next_index r) p))) as (r' & -> & He & Hn & H); [unfold vec_len; cbn; lia|].
  exists r'. split; [done|]. cbn in *. rewrite He, Hn. split_and!; try apply H.
  - rewrite <- app_assoc. cbn. rewrite Z.add_0_r. do 2 f_equal. apply imap_ext.
    intros k x _. cbn. f_equal. lia.
  - unfold vec_len. cbn. lia.
Qed.

(** ** Batches *)

Definition fits (r : LocalReplicator) (payloads : list (list byte)) : Prop :=
  next_index r + vec_len payloads <= u64_max.

#[export] Instance fits_dec r payloads : Decision (fits r payloads).
Proof. unfold fits. apply _. Defined.

Lemma batch_fits_spec first count :
  0 <= count -> 0 <= first <= u64_max ->
  batch_fits first count = bool_decide (first + count <= u64_max).
Proof.
  intros Hc Hf. unfold batch_fits. destruct (Z.ltb_spec 0 count) as [Hpos|Hz].
  - destruct (checked_add64 first (count - 1)) as [l|] eqn:E.
    + apply checked_add64_Some in E as [-> Hl].
      destruct (Z.eqb_spec (first + (count - 1)) u64_max); case_bool_decide; done || lia.
    + case_bool_decide as Hd; [|done].
      assert (checked_add64 first (count - 1) = Some (first + (count - 1))) as E'
        by (apply checked_add64_Some; lia).
      congruence.
  - case_bool_decide; [done|lia].
Qed.

Lemma next_index_range r : wf r -> 0 <= next_index r <= u64_max.
Proof. intros Hr. rewrite (wf_next r Hr). destruct (wf_applied r Hr). unfold saturating_add64, u64_max. lia. Qed.

Lemma wf_proposed r payloads r' :
  wf r -> fits r payloads -> payloads <> [] -> proposed r payloads r' ->
  0 <= proposal_reservation_generation r' -> wf r'.
Proof.
  unfold fits. intros Hr Hfit Hne (_ & _ & Ha & _ & _ & _ & He & Hn & Hc) Hg.
  assert (0 < vec_len payloads) by (destruct payloads; [done|unfold vec_len; cbn; lia]).
  destruct (wf_next_small r Hr) as [En Hlt]; [lia|].
  destruct Hr as [Happ Hcm _ (c & Hc' & Hl & Hlen) _ _].
  assert (contiguous (next_index r)
    (imap (fun k p => mkEntry (term r) (next_index r + Z.of_nat k) p) payloads)) as Hbatch.
  { clear. generalize (next_index r) at 1 2. intros n.
    assert (forall z, contiguous (n + z)
      (imap (fun k p => mkEntry (term r) (n + z + Z.of_nat k) p) payloads)) as H.
    { induction payloads as [|p ps IH]; intros z; [done|]. cbn. split; [lia|].
      replace (n + z + 1) with (n + (z + 1)) by lia. erewrite imap_ext; [apply IH|].
      intros k x _. cbn. f_equal. lia. }
    specialize (H 0). by rewrite Z.add_0_r in H. }
  assert (vec_len (entries r') = vec_len (entries r) + vec_len payloads) as Hlen'
    by (rewrite He; unfold vec_len; rewrite length_app, length_imap; lia).
  split; [lia|lia|rewrite saturating_add64_small by lia; lia| |lia|done].
  exists c. split_and!; [lia|lia| |lia]. rewrite He. apply contiguous_app. split; [done|].
  replace (c + 1 + vec_len (entries r)) with (next_index r) by lia. done.
Qed.

Lemma propose_batch_proposed r payloads :
  wf r -> role r = Leader -> fits r payloads -> proposal_reservation_generation r < u64_max ->
  exists r', propose_batch r payloads = Some (r', Ok (next_index r)) /\ proposed r payloads r' /\
    (payloads = [] \/ proposal_reservation_generation r' = proposal_reservation_generation r + 1).
Proof.
  intros Hr Hrole Hfit Hg. unfold propose_batch. rewrite bool_decide_eq_true_2 by done. cbn [negb].
  assert (0 <= vec_len payloads) by (unfold vec_len; lia).
  rewrite batch_fits_spec; [|done|by apply next_index_range].
  rewrite bool_decide_eq_true_2 by done. cbn [negb].
  destruct (push_batch_spec (set_entries r (entries r) (vec_grow (vec_len (entries r)) (capacity r)
    (vec_len payloads))) payloads Hfit) as (r1 & -> & He & Hn & Ht & Hro & Ha & Hat & Hs & Ho & Hgen & Hc).
  cbn [entries next_index term role applied_index applied_term local_snapshot_id
    proposal_reservation_owner_id proposal_reservation_generation commit_index set_entries] in *.
  destruct payloads as [|p ps].
  - unfold vec_len in Hn. cbn in Hn. rewrite Hn, Z.add_0_r, Z.ltb_irrefl, Hn, Z.add_0_r, Z.eqb_refl.
    cbn [negb]. eexists. split; [done|]. split; [|by left].
    unfold proposed, vec_len. cbn [length]. rewrite Hn, Hc. split_and!; done || (cbn; lia).
  - assert (0 < vec_len (p :: ps)) by (unfold vec_len; cbn; lia).
    destruct (wf_next_small r Hr) as [En _]; [unfold fits in Hfit; lia|].
    rewrite (proj2 (Z.ltb_lt _ _)) by lia.
    cbn [next_index set_commit_index]. rewrite (proj2 (Z.eqb_neq _ _)) by lia. cbn [negb].
    unfold invalidate_proposal_reservations. cbn [proposal_reservation_generation set_commit_index].
    rewrite Hgen. assert (checked_add64 (proposal_reservation_generation r) 1 =
      Some (proposal_reservation_generation r + 1)) as -> by (apply checked_add64_Some; lia).
    eexists. split; [done|]. split; [|by right].
    unfold proposed. cbn [term role applied_index applied_term local_snapshot_id
      proposal_reservation_owner_id entries next_index commit_index set_generation set_commit_index].
    split_and!; try done. lia.
Qed.

(** [propose] called in a loop, stopping at the first error. *)
Fixpoint propose_all (r : LocalReplicator) (payloads : list (list byte))
    : option (LocalReplicator * result unit EngineError) :=
  match payloads with
  | [] => Some (r, Ok tt)
  | p :: rest =>
      match propose r p with
      | None => None
      | Some (r, Err e) => Some (r, Err e)
      | Some (r, Ok _) => propose_all r rest
      end
  end.

Lemma propose_Ok r p :
  wf r -> role r = Leader -> next_index r < u64_max -> proposal_reservation_generation r < u64_max ->
  exists r', propose r p = Some (r', Ok (mkToken (next_index r))).
Proof.
  intros Hr Hrole Hn Hg. unfold propose. rewrite bool_decide_eq_true_2 by done. cbn [negb].
  rewrite (proj2 (Z.eqb_neq _ _)) by lia.
  assert (checked_add64 (next_index r) 1 = Some (next_index r + 1)) as ->
    by (apply checked_add64_Some; lia).
  unfold invalidate_proposal_reservations. cbn [proposal_reservation_generation set_commit_index
    push_entry set_entries set_next_index].
  assert (checked_add64 (proposal_reservation_generation r) 1 =
    Some (proposal_reservation_generation r + 1)) as -> by (apply checked_add64_Some; lia).
  by eexists.
Qed.

Lemma propose_exhausted r p :
  role r = Leader -> next_index r = u64_max -> propose r p = Some (r, Err exhausted).
Proof.
  intros Hrole Hn. unfold propose. rewrite bool_decide_eq_true_2 by done. cbn [negb].
  by rewrite (proj2 (Z.eqb_eq _ _)) by done.
Qed.

Lemma proposed_cons r p r1 ps r2 :
  proposed r [p] r1 -> proposed r1 ps r2 -> proposed r (p :: ps) r2.
Proof.
  intros (T1 & R1 & A1 & B1 & S1 & O1 & E1 & N1 & C1) (T2 & R2 & A2 & B2 & S2 & O2 & E2 & N2 & C2).
  unfold proposed, vec_len in *. cbn [length] in *. split_and!; try congruence; try lia.
  rewrite E2, E1, T1, N1. cbn. rewrite <- app_assoc. cbn. do 2 f_equal. apply imap_ext.
  intros k x _. cbn. f_equal. lia.
Qed.

Lemma propose_all_proposed r payloads :
  wf r -> role r = Leader -> fits r payloads ->
  proposal_reservation_generation r + vec_len payloads <= u64_max ->
  exists r', propose_all r payloads = Some (r', Ok tt) /\ proposed r payloads r'.
Proof.
  revert r. induction payloads as [|p ps IH]; intros r Hr Hrole Hfit Hg; cbn [propose_all].
  { exists r. split; [done|]. unfold proposed, vec_len. cbn [length].
    split_and!; done || (cbn; rewrite ?app_nil_r; done || lia). }
  unfold fits, vec_len in *. cbn [length] in *.
  destruct (propose_Ok r p Hr Hrole) as (r1 & E); [lia|lia|]. rewrite E.
  destruct (propose_proposed r p r1 _ Hr E) as (Hr1 & _ & _ & _ & Hp & Hg1).
  pose proof Hp as (_ & R1 & _ & _ & _ & _ & _ & N1 & _).
  destruct (IH r1) as (r2 & -> & Hp2); [done|congruence|unfold vec_len in N1; cbn in N1; lia|lia|].
  exists r2. split; [done|]. by eapply proposed_cons.
Qed.

Lemma propose_all_exhausted r payloads :
  wf r -> role r = Leader -> ~ fits r payloads ->
  proposal_reservation_generation r + vec_len payloads <= u64_max ->
  exists r', propose_all r payloads = Some (r', Err exhausted).
Proof.
  revert r. induction payloads as [|p ps IH]; intros r Hr Hrole Hfit Hg; cbn [propose_all].
  { exfalso. apply Hfit. unfold fits, vec_len. cbn [length].
    pose proof (next_index_range r Hr). lia. }
  unfold fits, vec_len in *. cbn [length] in *.
  destruct (decide (next_index r = u64_max)) as [Hmax|Hne].
  { rewrite propose_exhausted by done. by eexists. }
  destruct (wf_next_small r Hr Hne) as [_ Hlt].
  destruct (propose_Ok r p Hr Hrole) as (r1 & E); [lia|lia|]. rewrite E.
  destruct (propose_proposed r p r1 _ Hr E) as (Hr1 & _ & _ & _ & Hp & Hg1).
  pose proof Hp as (_ & R1 & _ & _ & _ & _ & _ & N1 & _).
  apply IH; [done|congruence|unfold vec_len in N1; cbn in N1; lia|lia].
Qed.

(** ** Runs *)

Inductive op :=
| BecomeFollower (t : Z)
| BecomeLeader (t : Z)
| BecomeCandidate (t : Z)
| MarkApplied (i : Z)
| Compact
| Rollback (i : Z)
| ExportSnapshot
| InstallSnapshot (meta : SnapshotMeta)
| Propose (p : list byte)
| ProposeBatch (ps : list (list byte))
| Reserve
| ProposeReserved (v : LocalReplicatorProposalReservation) (p : list byte).

(** [None] is a panic. *)
Definition run (o : op) (r : LocalReplicator) : option LocalReplicator :=
  match o with
  | BecomeFollower t => become_follower r t
  | BecomeLeader t => become_leader r t
  | BecomeCandidate t => become_candidate r t
  | MarkApplied i => mark_applied r i
  | Compact => compact_applied_prefix r
  | Rollback i => rollback_unapplied_from r i
  | ExportSnapshot => fst <$> export_snapshot_meta r
  | InstallSnapshot meta => install_snapshot r meta
  | Propose p => fst <$> propose r p
  | ProposeBatch ps => fst <$> propose_batch r ps
  | Reserve => Some (reserve_next_proposal r).1
  | ProposeReserved v p => fst <$> propose_reserved r v p
  end.

Definition guard (o : op) : Prop :=
  match o with
  | InstallSnapshot meta => 0 <= last_included_index meta <= u64_max
  | _ => True
  end.

Inductive steps (r : LocalReplicator) : LocalReplicator -> Prop :=
| steps_refl : steps r r
| steps_run o r' r'' : steps r r' -> guard o -> run o r' = Some r'' -> steps r r''.

Definition reachable (r : LocalReplicator) : Prop :=
  exists c c' r0, leader c = Some (r0, c') /\ steps r0 r.

(** A batch that returns has done all of its work or none. *)
Lemma propose_batch_cases r ps r' out :
  wf r -> propose_batch r ps = Some (r', out) ->
  (out <> Ok (next_index r) /\ r' = r) \/
  (role r = Leader /\ fits r ps /\ out = Ok (next_index r) /\ proposed r ps r' /\
   (ps = [] /\ r' = set_entries r (entries r) (vec_grow (vec_len (entries r)) (capacity r) 0) \/
    ps <> [] /\ proposal_reservation_generation r' = proposal_reservation_generation r + 1)).
Proof.
  intros Hr H. destruct (decide (role r = Leader)) as [Hrole|Hrole].
  2: { left. revert H. unfold propose_batch. rewrite bool_decide_eq_false_2 by done.
       by intros [= <- <-]. }
  destruct (decide (fits r ps)) as [Hfit|Hfit].
  2: { left. revert H. unfold propose_batch. rewrite bool_decide_eq_true_2 by done. cbn [negb].
       rewrite batch_fits_spec; [|unfold vec_len; lia|by apply next_index_range].
       rewrite bool_decide_eq_false_2 by done. by intros [= <- <-]. }
  right. destruct ps as [|p ps].
  - revert H. unfold propose_batch. rewrite bool_decide_eq_true_2 by done. cbn.
    rewrite Z.ltb_irrefl. cbn. rewrite Z.eqb_refl. cbn. intros [= <- <-].
    split_and!; try done; [|by left]. unfold proposed, vec_len. cbn. rewrite app_nil_r.
    split_and!; done || lia.
  - destruct (Z.lt_ge_cases (proposal_reservation_generation r) u64_max) as [Hg|Hg].
    + destruct (propose_batch_proposed r (p :: ps) Hr Hrole Hfit Hg) as (r1 & E & Hp & Hgen).
      rewrite E in H. simplify_eq. split_and!; try done. right. split; [done|]. by destruct Hgen.
    + exfalso. revert H. unfold propose_batch. rewrite bool_decide_eq_true_2 by done. cbn [negb].
      rewrite batch_fits_spec; [|unfold vec_len; lia|by apply next_index_range].
      rewrite bool_decide_eq_true_2 by done. cbn [negb].
      destruct (push_batch_spec (set_entries r (entries r) (vec_grow (vec_len (entries r))
        (capacity r) (vec_len (p :: ps)))) (p :: ps) Hfit)
        as (r1 & -> & _ & Hn & _ & _ & _ & _ & _ & _ & Hgen & _).
      assert (0 < vec_len (p :: ps)) by (unfold vec_len; cbn [length]; lia).
      cbn [next_index proposal_reservation_generation set_entries] in *.
      rewrite (proj2 (Z.ltb_lt _ _)) by lia. cbn [next_index set_commit_index].
      rewrite (proj2 (Z.eqb_neq _ _)) by lia. cbn [negb].
      unfold invalidate_proposal_reservations. cbn [proposal_reservation_generation set_commit_index].
      rewrite Hgen. destruct (checked_add64 _ 1) eqn:E; [|done].
      apply checked_add64_Some in E. lia.
Qed.

(** [propose_reserved] that succeeds is [propose] without growing the vector. *)
Lemma propose_reserved_cases r v p r' out :
  wf r -> propose_reserved r v p = Some (r', out) ->
  (r' = r /\ out <> Ok (mkToken (next_index r)) /\ reservation_matches r v = false) \/
  (reservation_matches r v = true /\ next_index r < u64_max /\ capacity r' = capacity r /\
   out = Ok (mkToken (next_index r)) /\ proposed r [p] r' /\ wf r' /\
   proposal_reservation_generation r' = proposal_reservation_generation r + 1).
Proof.
  intros Hr. unfold propose_reserved. destruct (reservation_matches r v) eqn:Em; cbn [negb].
  2: { intros [= <- <-]. by left. }
  destruct (checked_add64 (next_index r) 1) as [n|] eqn:En; [|done].
  apply checked_add64_Some in En as [-> Hle].
  pose proof (wf_push r p Hr ltac:(lia)) as Hpush. destruct (wf_next_small r Hr ltac:(lia)) as [Hn _].
  match goal with |- context [negb ?b] => destruct b eqn:Hcap end; [|done]. cbn [negb].
  destruct (invalidate_proposal_reservations _) as [r1|] eqn:E; [|done]. intros [= <- <-].
  pose proof (wf_invalidate _ _ Hpush E). apply invalidate_Some in E as ->. right.
  apply Z.eqb_eq in Hcap. split_and!; try done; [lia|]. unfold proposed, vec_len. cbn.
  rewrite Z.add_0_r. split_and!; done || lia.
Qed.

Lemma run_wf o r r' : wf r -> guard o -> run o r = Some r' -> wf r'.
Proof.
  intros Hr Hg.
  assert (forall ro t, become ro r t = Some r' -> wf r') as Hbecome.
  { intros ro t. apply wf_invalidate. destruct Hr. by split. }
  destruct o as [t|t|t|i| |i| |meta|p|ps| |v p]; cbn [run].
  1-3: apply Hbecome.
  - by apply mark_applied_wf.
  - by apply compact_wf.
  - by apply rollback_wf.
  - unfold export_snapshot_meta. destruct (invalidate_proposal_reservations _) as [r1|] eqn:E; [|done].
    intros [= <-]. eapply wf_invalidate; [|exact E]. destruct Hr. by split.
  - by apply install_wf.
  - destruct (propose r p) as [[r1 [tok|e]]|] eqn:E; [| |done]; intros [= <-].
    + by destruct (propose_proposed r p r1 tok Hr E).
    + revert E. unfold propose. destruct (negb _); [by intros [= <- _]|].
      destruct (_ =? _); [by intros [= <- _]|]. destruct (checked_add64 _ _); [|done].
      by destruct (invalidate_proposal_reservations _).
  - destruct (propose_batch r ps) as [[r1 out]|] eqn:E; [|done]. intros [= <-].
    destruct (propose_batch_cases r ps r1 out Hr E) as [[_ ->]|(_ & Hfit & _ & Hp & [[_ ->]|[Hne Hgen]])].
    + done.
    + destruct Hr. by split.
    + eapply wf_proposed; try done. rewrite Hgen. destruct Hr. lia.
  - intros [= <-]. unfold reserve_next_proposal. destruct (negb _); [done|].
    destruct (_ =? _); [done|]. destruct (vec_try_reserve_exact _ _ _); [|done].
    destruct Hr. by split.
  - destruct (propose_reserved r v p) as [[r1 out]|] eqn:E; [|done]. intros [= <-].
    by destruct (propose_reserved_cases r v p r1 out Hr E) as [(-> & _)|(_ & _ & _ & _ & _ & ? & _)].
Qed.

Lemma steps_wf r r' : wf r -> steps r r' -> wf r'.
Proof. intros Hr. induction 1 as [|o r' r'' _ IH Hg E]; [done|]. by eapply run_wf. Qed.

Lemma local_reachable_wf r : reachable r -> wf r.
Proof. intros (c & c' & r0 & H0 & Hs). eapply steps_wf; [|exact Hs]. by eapply leader_wf. Qed.

(** Everything but the vector's capacity is the same. *)
Definition same_but_capacity (r r' : LocalReplicator) : Prop :=
  exists cap, r' = set_entries r (entries r) cap /\
    (vec_len (entries r) + 1 <= capacity r -> cap = capacity r).

Lemma same_but_capacity_refl r : same_but_capacity r r.
Proof. exists (capacity r). split; [by destruct r|done]. Qed.

(** An operation that leaves the reservation generation alone changes at most the
    capacity, and not even that once a slot is reserved. *)
Lemma run_generation o r r' :
  wf r -> run o r = Some r' ->
  same_but_capacity r r' \/ proposal_reservation_generation r < proposal_reservation_generation r'.
Proof.
  intros Hr.
  assert (Some r = Some r' -> same_but_capacity r r' \/
    proposal_reservation_generation r < proposal_reservation_generation r') as Hsame.
  { intros [= <-]. left. apply same_but_capacity_refl. }
  assert (forall r1, proposal_reservation_generation r1 = proposal_reservation_generation r ->
    invalidate_proposal_reservations r1 = Some r' -> same_but_capacity r r' \/
    proposal_reservation_generation r < proposal_reservation_generation r') as Hinv.
  { intros r1 Hg ->%invalidate_Some. right. cbn. lia. }
  destruct o as [t|t|t|i| |i| |meta|p|ps| |v p]; cbn [run].
  1-3: by apply Hinv.
  - unfold mark_applied. destruct (_ <=? _); [done|by apply Hinv].
  - by apply Hinv.
  - unfold rollback_unapplied_from. destruct (_ <=? _); [done|by apply Hinv].
  - unfold export_snapshot_meta. destruct (invalidate_proposal_reservations _) as [r1|] eqn:E; [|done].
    intros [= <-]. by apply Hinv in E.
  - unfold install_snapshot. cbn [snapshot_meta last_included_index last_included_term].
    match goal with |- context [if ?c then Some r else _] => destruct c end; [done|].
    apply Hinv. by destruct (_ <? _).
  - destruct (propose r p) as [[r1 [tok|e]]|] eqn:E; [| |done]; intros [= <-].
    + right. destruct (propose_proposed r p r1 tok Hr E) as (_ & _ & _ & _ & _ & ->). lia.
    + apply Hsame. revert E. unfold propose. destruct (negb _); [by intros [= <- _]|].
      destruct (_ =? _); [by intros [= <- _]|]. destruct (checked_add64 _ _); [|done].
      by destruct (invalidate_proposal_reservations _).
  - destruct (propose_batch r ps) as [[r1 out]|] eqn:E; [|done]. intros [= <-].
    destruct (propose_batch_cases r ps r1 out Hr E) as [[_ ->]|(_ & _ & _ & _ & [[_ ->]|[_ ->]])];
      [by apply Hsame|left|right; lia].
    eexists. split; [done|]. intros Hcap. apply vec_grow_noop. lia.
  - unfold reserve_next_proposal. destruct (negb _); [done|]. destruct (_ =? _); [done|].
    destruct (vec_try_reserve_exact _ _ _) as [cap|] eqn:E; [|done]. intros [= <-].
    left. exists cap. split; [done|]. intros Hcap. rewrite vec_try_reserve_exact_noop in E by lia. congruence.
  - destruct (propose_reserved r v p) as [[r1 out]|] eqn:E; [|done]. intros [= <-].
    destruct (propose_reserved_cases r v p r1 out Hr E) as [(-> & _)|(_ & _ & _ & _ & _ & _ & ->)];
      [by apply Hsame|right; lia].
Qed.

(** The reports. *)
Lemma local_progress r : wf r -> exists p, progress r = Some p /\ prog_validate p = Ok tt /\
  prog_uncommitted_entry_count p = 0.
Proof.
  intros Hr. unfold progress. set (p := mkProgress _ _ _ _ _ _ _ _ _ _).
  assert (prog_validate p = Ok tt) as E; [|exists p; by rewrite E].
  destruct Hr as [[Ha0 Ha] Hc Hn _ _ _].
  apply prog_validate_Ok; unfold p; cbn [prog_commit_index prog_next_index prog_applied_index
    prog_committed_but_unapplied_count prog_has_committed_entries_pending_apply
    prog_has_uncommitted_entries prog_uncommitted_entry_count prog_snapshot snapshot_meta
    last_included_index]; unfold committed_but_unapplied_count, has_committed_entries_pending_apply.
  - unfold is_u64. unfold u64_max in Hc. unfold U64. lia.
  - rewrite Hn. unfold saturating_add64, u64_max. lia.
  - done.
  - rewrite Hn. unfold saturating_add64. lia.
  - unfold saturating_sub. lia.
  - done.
  - done.
  - lia.
Qed.

Lemma status_self_validates p :
  prog_validate p = Ok tt -> status_validate (mkStatus p p (mkGap 0 0 0 0)) = Ok tt.
Proof.
  intros E. unfold status_validate. cbn [live durable recovery_gap]. rewrite E. cbn [map_err].
  rewrite Z.eqb_refl. cbn [negb]. unfold ahead_of_live. cbn [List.find].
  rewrite !Z.ltb_irrefl, !Z.eqb_refl. cbn [andb negb].
  unfold recovery_gap_between, saturating_sub. rewrite !Z.sub_diag. by rewrite bool_decide_eq_true_2.
Qed.

(** Consuming a reservation that still matches. *)
Lemma consume_reserved r v p :
  wf r -> reservation_matches r v = true -> vec_len (entries r) + 1 <= capacity r ->
  next_index r <> u64_max -> proposal_reservation_generation r < u64_max ->
  exists r', propose_reserved r v p = Some (r', Ok (mkToken (next_index r))) /\
    capacity r' = capacity r /\ proposed r [p] r'.
Proof.
  intros Hr Hm Hcap Hne Hg.
  assert (is_Some (propose_reserved r v p)) as [[r' out] E].
  { unfold propose_reserved. rewrite Hm. cbn [negb]. destruct (wf_next_small r Hr Hne) as [_ Hlt].
    assert (checked_add64 (next_index r) 1 = Some (next_index r + 1)) as ->
      by (apply checked_add64_Some; lia).
    cbn [capacity push_entry set_entries set_next_index entries]. rewrite vec_grow_noop by lia.
    rewrite Z.eqb_refl. cbn [negb]. unfold invalidate_proposal_reservations.
    cbn [proposal_reservation_generation set_commit_index push_entry set_entries set_next_index].
    assert (checked_add64 (proposal_reservation_generation r) 1 =
      Some (proposal_reservation_generation r + 1)) as -> by (apply checked_add64_Some; lia).
    by eexists. }
  exists r'. destruct (propose_reserved_cases r v p r' out Hr E) as [(_ & _ & Hf)|H]; [congruence|].
  destruct H as (_ & _ & Hc & -> & Hp & _). done.
Qed.

Lemma reserved_state r r1 v :
  reserve_next_proposal r = (r1, Ok v) ->
  role r = Leader /\ next_index r <> u64_max /\ reservation_matches r1 v = true /\
  expected_generation v = proposal_reservation_generation r1 /\
  vec_len (entries r1) + 1 <= capacity r1 /\
  exists cap, r1 = set_entries r (entries r) cap.
Proof.
  unfold reserve_next_proposal. case_bool_decide as Hrole; [|done]. cbn [negb].
  destruct (Z.eqb_spec (next_index r) u64_max) as [|Hne]; [done|].
  destruct (vec_try_reserve_exact _ _ _) as [cap|] eqn:E; [|done]. intros [= <- <-].
  split_and!; try done; [|by apply (vec_try_reserve_exact_enough _ _ _ _ E)|by eexists].
  unfold reservation_matches. cbn. rewrite bool_decide_eq_true_2, !Z.eqb_refl by done. done.
Qed.

(** While the generation stands still nothing has changed; it never goes back. *)
Lemma steps_generation r r' :
  wf r -> vec_len (entries r) + 1 <= capacity r -> steps r r' ->
  r' = r \/ proposal_reservation_generation r < proposal_reservation_generation r'.
Proof.
  intros Hr Hcap. induction 1 as [|o r1 r2 Hs IH Hg E]; [by left|].
  destruct (run_generation o r1 r2 (steps_wf r r1 Hr Hs) E) as [(cap & -> & Hsame)|Hgen];
    destruct IH as [->|Hlt]; [left|right; done|right; lia|right; lia].
  rewrite Hsame by done. by destruct r.
Qed.

(** ** The theorems *)

(** Every reachable replicator is coherent: applied <= commit, the next index
    follows the commit index, the log is contiguous, starts at or before the first
    unapplied index and ends at the commit index; so [progress] and [status_snapshot]
    pass their validators and never panic. *)
Theorem local_invariant r :
  reachable r ->
  0 <= applied_index r <= commit_index r /\
  next_index r = saturating_add64 (commit_index r) 1 /\
  (forall i, applied_index r < i <= commit_index r ->
     exists e, find_entry (entries r) i = Some e /\ entry_index e = i) /\
  is_Some (progress r) /\
  exists s, status_snapshot r = Some s /\ status_is_restart_equivalent s = true.
Proof.
  intros Hr%local_reachable_wf. pose proof (local_progress r Hr) as (p & Hp & Hv & _).
  split_and!; [apply Hr|apply Hr|apply Hr| | |].
  - intros i Hi. destruct (wf_log r Hr) as (c & Hc & Hl & Hlen).
    destruct (find_entry_Some _ _ i Hl) as [_ [e He]]; [lia|].
    exists e. split; [done|]. by apply find_entry_index in He as [? _].
  - by rewrite Hp.
  - unfold status_snapshot. rewrite Hp. cbn [mbind option_bind].
    exists (mkStatus p p (mkGap 0 0 0 0)). split; [|done]. unfold status_new. cbv zeta.
    by rewrite status_self_validates.
Qed.

(** The constant-time log reads are the scans they replace: positional [entry_at]
    is the search by index, and the slice [drain_committed_from] returns is the filter of
    the whole log by index. *)
Theorem log_reads_are_scans r i start :
  reachable r -> 0 <= start ->
  entry_at r i = find_entry (entries r) i /\
  drain_committed_from r start =
    List.filter (fun e => (start <? entry_index e) && (entry_index e <=? commit_index r))
      (entries r).
Proof.
  intros Hr%local_reachable_wf Hs. split; [by apply entry_at_find|by apply drain_filter].
Qed.

(** A batch proposal is the loop of single proposals: when the batch fits both
    succeed and leave the same log, indexes and term, with the first index returned; when
    it does not, both report exhaustion, the batch without having appended anything; a
    replicator that is not leader refuses both. *)
Theorem propose_batch_is_loop r payloads :
  reachable r -> payloads <> [] ->
  proposal_reservation_generation r + vec_len payloads <= u64_max ->
  (role r = Leader -> fits r payloads ->
     exists r1 r2, propose_batch r payloads = Some (r1, Ok (next_index r)) /\
       propose_all r payloads = Some (r2, Ok tt) /\ proposed r payloads r1 /\
       proposed r payloads r2) /\
  (role r = Leader -> ~ fits r payloads ->
     propose_batch r payloads = Some (r, Err exhausted) /\
     exists r2, propose_all r payloads = Some (r2, Err exhausted)) /\
  (role r <> Leader ->
     propose_batch r payloads = Some (r, Err NotLeader) /\
     propose_all r payloads = Some (r, Err NotLeader)).
Proof.
  intros Hr%local_reachable_wf Hne Hg.
  assert (0 < vec_len payloads) by (destruct payloads; [done|unfold vec_len; cbn [length]; lia]).
  split_and!; intros Hrole.
  - intros Hfit. destruct (propose_batch_proposed r payloads Hr Hrole Hfit) as (r1 & E1 & H1 & _); [lia|].
    destruct (propose_all_proposed r payloads Hr Hrole Hfit Hg) as (r2 & E2 & H2).
    by exists r1, r2.
  - intros Hfit. split; [|by apply propose_all_exhausted].
    unfold propose_batch. rewrite bool_decide_eq_true_2 by done. cbn [negb].
    rewrite batch_fits_spec; [|lia|by apply next_index_range].
    by rewrite bool_decide_eq_false_2.
  - destruct payloads as [|p ps]; [done|]. cbn [propose_all].
    unfold propose_batch, propose. by rewrite bool_decide_eq_false_2.
Qed.

(** A reservation is exact: after any operations, either nothing has changed and
    consuming it appends and commits exactly the reserved entry without growing the
    vector, or it is refused and the replicator is unchanged. *)
Theorem reservation_exact r r1 v r2 p :
  reachable r -> reserve_next_proposal r = (r1, Ok v) -> steps r1 r2 ->
  proposal_reservation_generation r < u64_max ->
  (r2 = r1 /\ exists r3, propose_reserved r2 v p = Some (r3, Ok (mkToken (next_index r))) /\
     proposed r [p] r3 /\ capacity r3 = capacity r1) \/
  (r2 <> r1 /\ propose_reserved r2 v p = Some (r2, Err (ProposalFailed
     "reserved local replication proposal state drifted before consumption"))).
Proof.
  intros Hr%local_reachable_wf Hres Hs Hg.
  destruct (reserved_state r r1 v Hres) as (Hrole & Hne & Hm & Hv & Hcap & cap & E1).
  assert (wf r1) as Hr1 by (rewrite E1; destruct Hr; by split).
  destruct (steps_generation r1 r2 Hr1 Hcap Hs) as [->|Hlt].
  - left. split; [done|]. destruct (consume_reserved r1 v p Hr1 Hm Hcap) as (r3 & E3 & Hc & Hp);
      [by rewrite E1|by rewrite E1|].
    exists r3. split_and!; [|by rewrite E1 in Hp|done]. rewrite E3. by rewrite E1.
  - right. split; [intros ->; lia|]. unfold propose_reserved.
    assert (reservation_matches r2 v = false) as ->; [|done].
    unfold reservation_matches. rewrite Hv, (proj2 (Z.eqb_neq (proposal_reservation_generation r2) _))
      by lia. by rewrite andb_false_r.
Qed.

End proposals.

(** ** Concrete runs *)

(** An allocator that gives exactly what is asked for. *)
Definition exact_alloc : VecAlloc.
Proof.
  refine (Build_VecAlloc (fun len cap add => Z.max cap (len + add))
            (fun len cap add => Some (Z.max cap (len + add))) _ _ _ _).
  - intros. lia.
  - intros. lia.
  - intros. f_equal. lia.
  - intros len cap add cap' [= <-]. lia.
Defined.

Definition start : LocalReplicator := mkLocal 1 1 0 0 0 Leader [] 0 0 1 0.

Definition batch : list (list byte) := [[x01]; [x02]].

(** Two entries proposed as a batch, the first applied and compacted away. *)
Definition worked : LocalReplicator :=
  mkLocal 1 3 2 1 1 Leader [mkEntry 1 2 [x02]] 2 3 1 0.

Lemma worked_reachable : @reachable exact_alloc worked.
Proof.
  exists 1, 2, start. split; [by vm_compute|].
  apply (@steps_run exact_alloc _ Compact
    (mkLocal 1 3 2 1 1 Leader [mkEntry 1 1 [x01]; mkEntry 1 2 [x02]] 2 2 1 0)); [|done|by vm_compute].
  apply (@steps_run exact_alloc _ (MarkApplied 1)
    (mkLocal 1 3 2 0 0 Leader [mkEntry 1 1 [x01]; mkEntry 1 2 [x02]] 2 1 1 0)); [|done|by vm_compute].
  apply (@steps_run exact_alloc _ (ProposeBatch batch) start); [|done|by vm_compute].
  apply steps_refl.
Qed.

Lemma local_invariant_witness :
  exists s, status_snapshot worked = Some s /\ status_is_restart_equivalent s = true.
Proof. apply (@local_invariant exact_alloc worked worked_reachable). Defined.

Lemma log_reads_are_scans_witness :
  entry_at worked 2 = find_entry (entries worked) 2 /\ is_Some (entry_at worked 2) /\
  entry_at worked 1 = None.
Proof.
  split; [|split; [by eexists|by vm_compute]].
  apply (@log_reads_are_scans exact_alloc worked 2 0 worked_reachable ltac:(lia)).
Defined.

Lemma propose_batch_is_loop_witness :
  exists r1 r2, @propose_batch exact_alloc worked batch = Some (r1, Ok 3) /\
    @propose_all exact_alloc worked batch = Some (r2, Ok tt) /\ proposed worked batch r1 /\
    proposed worked batch r2.
Proof.
  apply (@propose_batch_is_loop exact_alloc worked batch worked_reachable);
    [done|by vm_compute|done|by vm_compute].
Defined.

Definition reserved : LocalReplicator := (@reserve_next_proposal exact_alloc worked).1.
Definition token : LocalReplicatorProposalReservation := mkReservation 1 3 1 2 1 2 3.

Lemma reservation_exact_witness :
  exists r3, @propose_reserved exact_alloc reserved token [x03] = Some (r3, Ok (mkToken 3)) /\
    proposed worked [[x03]] r3 /\ capacity r3 = capacity reserved.
Proof.
  destruct (@reservation_exact exact_alloc worked reserved token reserved [x03] worked_reachable)
    as [[_ H]|[H _]]; [by vm_compute|apply steps_refl|by vm_compute|exact H|by destruct H].
Defined.

End LocalProps.
