(* ===== verification/Bytes.v ===== *)
(** * Bytes

    Fixed-width integers as bytes ([u64::to_be_bytes], [to_le_bytes] and their inverses),
    byte strings, and the UTF-8 check of [String::from_utf8] with the error it reports. *)

From stdpp Require Import base strings list pretty.
From coqutil Require Import Byte Word.LittleEndianList.
From Stdlib Require Import Strings.String.
From S2P Require Import Prelude Types.

(** ** Integers *)

Definition to_le_bytes (n : nat) (z : Z) : list byte := le_split n z.
Definition from_le_bytes (l : list byte) : Z := le_combine l.
Definition to_be_bytes (n : nat) (z : Z) : list byte := rev (le_split n z).
Definition from_be_bytes (l : list byte) : Z := le_combine (rev l).

#[global] Arguments to_le_bytes : simpl never.
#[global] Arguments from_le_bytes : simpl never.
#[global] Arguments to_be_bytes : simpl never.
#[global] Arguments from_be_bytes : simpl never.

Lemma length_to_le_bytes n z : length (to_le_bytes n z) = n.
Proof. apply length_le_split. Qed.

Lemma length_to_be_bytes n z : length (to_be_bytes n z) = n.
Proof. unfold to_be_bytes. rewrite length_rev. apply length_le_split. Qed.

(** Lengths of encodings and of what is read off their front. *)
#[export] Hint Rewrite @length_app @length_take @length_drop length_to_le_bytes length_to_be_bytes : byte_len.

Ltac byte_len := autorewrite with byte_len; (reflexivity || lia).

Lemma from_to_le_bytes n z : 0 <= z < 2 ^ (Z.of_nat n * 8) -> from_le_bytes (to_le_bytes n z) = z.
Proof. intros Hz. unfold from_le_bytes, to_le_bytes. rewrite le_combine_split. by apply Z.mod_small. Qed.

Lemma from_to_be_bytes n z : 0 <= z < 2 ^ (Z.of_nat n * 8) -> from_be_bytes (to_be_bytes n z) = z.
Proof.
  intros Hz. unfold from_be_bytes, to_be_bytes. rewrite rev_involutive, le_combine_split.
  by apply Z.mod_small.
Qed.

Lemma to_from_le_bytes n l : length l = n -> to_le_bytes n (from_le_bytes l) = l.
Proof. apply split_le_combine'. Qed.

Lemma to_from_be_bytes n l : length l = n -> to_be_bytes n (from_be_bytes l) = l.
Proof.
  intros Hl. unfold to_be_bytes, from_be_bytes. rewrite split_le_combine'.
  - apply rev_involutive.
  - by rewrite length_rev.
Qed.

Lemma from_le_bytes_range l : 0 <= from_le_bytes l < 2 ^ (8 * Z.of_nat (length l)).
Proof. apply le_combine_bound. Qed.

Lemma from_be_bytes_range l : 0 <= from_be_bytes l < 2 ^ (8 * Z.of_nat (length l)).
Proof. unfold from_be_bytes. rewrite <- (length_rev l). apply le_combine_bound. Qed.

Lemma from_be_bytes_bound n l : length l = n -> 0 <= from_be_bytes l < 2 ^ (8 * Z.of_nat n).
Proof. intros <-. apply from_be_bytes_range. Qed.

Definition isize_max : Z := 9223372036854775807.

(** ** UTF-8 *)

Definition byte_val (b : byte) : Z := Z.of_N (Byte.to_N b).

Definition between (lo hi z : Z) : bool := (lo <=? z) && (z <=? hi).

(** [utf8_char_width] for a lead byte. *)
Definition utf8_char_width (b : Z) : Z :=
  if b <? 128 then 1
  else if between 194 223 b then 2
  else if between 224 239 b then 3
  else if between 240 244 b then 4
  else 0.

Definition continuation (b : Z) : bool := between 128 191 b.

(** The second byte allowed after a three- or four-byte lead. *)
Definition second_ok (first second : Z) : bool :=
  if first =? 224 then between 160 191 second
  else if first =? 237 then between 128 159 second
  else if first =? 240 then between 144 191 second
  else if first =? 244 then between 128 143 second
  else continuation second.

(** [Utf8Error]: how much of the input is valid, and the length of the bad sequence,
    unless the input just ended. *)
Record Utf8Error := mkUtf8Error { valid_up_to : Z; error_len : option Z }.

Fixpoint run_utf8_validation (offset : Z) (v : list byte) : option Utf8Error :=
  let incomplete := Some (mkUtf8Error offset None) in
  let bad n := Some (mkUtf8Error offset (Some n)) in
  match v with
  | [] => None
  | b1 :: v1 =>
      let first := byte_val b1 in
      let w := utf8_char_width first in
      if w =? 1 then run_utf8_validation (offset + 1) v1
      else if w =? 0 then bad 1
      else
        match v1 with
        | [] => incomplete
        | b2 :: v2 =>
            if w =? 2 then
              if continuation (byte_val b2) then run_utf8_validation (offset + 2) v2 else bad 1
            else if negb (second_ok first (byte_val b2)) then bad 1
            else
              match v2 with
              | [] => incomplete
              | b3 :: v3 =>
                  if negb (continuation (byte_val b3)) then bad 2
                  else if w =? 3 then run_utf8_validation (offset + 3) v3
                  else
                    match v3 with
                    | [] => incomplete
                    | b4 :: v4 =>
                        if continuation (byte_val b4) then run_utf8_validation (offset + 4) v4
                        else bad 3
                    end
              end
        end
  end.

Definition Utf8Error_to_string (e : Utf8Error) : string :=
  match error_len e with
  | Some n =>
      "invalid utf-8 sequence of " +:+ pretty n +:+ " bytes from index " +:+ pretty (valid_up_to e)
  | None => "incomplete utf-8 byte sequence from index " +:+ pretty (valid_up_to e)
  end.

(** Rust strings are their bytes. *)
Definition as_bytes (s : string) : list byte := list_byte_of_string s.

Definition from_utf8 (v : list byte) : result string Utf8Error :=
  match run_utf8_validation 0 v with
  | None => Ok (string_of_list_byte v)
  | Some e => Err e
  end.

Definition utf8_valid (s : string) : Prop := run_utf8_validation 0 (as_bytes s) = None.

Lemma from_utf8_as_bytes s : utf8_valid s -> from_utf8 (as_bytes s) = Ok s.
Proof.
  unfold utf8_valid, from_utf8. intros ->. f_equal. apply string_of_list_byte_of_string.
Qed.

Lemma from_utf8_Ok v s : from_utf8 v = Ok s -> as_bytes s = v /\ utf8_valid s.
Proof.
  unfold from_utf8, utf8_valid, as_bytes. destruct (run_utf8_validation 0 v) eqn:E; [done|].
  intros [= <-]. rewrite list_byte_of_string_of_list_byte. done.
Qed.
