(* ===== verification/Text.v ===== *)
(** * Text

    The parts of Rust's [str] the control files are read and written with: [lines],
    [split], [strip_prefix], [rfind], decimal integers and hexadecimal digests. *)

From stdpp Require Import base strings list pretty.
From Stdlib Require Import Strings.Ascii.
From S2P Require Import Prelude Types Bytes.

Module Text.

Definition nl : ascii := "010"%char.
Definition cr : ascii := "013"%char.

(** ["\n"]. *)
Definition newline : string := String nl EmptyString.

(** Does a character occur in a string? *)
Fixpoint contains_char (c : ascii) (s : string) : bool :=
  match s with
  | EmptyString => false
  | String a s => bool_decide (a = c) || contains_char c s
  end.

(** [str::split(char)]: always at least one piece. *)
Fixpoint split_char (sep : ascii) (s : string) : list string :=
  match s with
  | EmptyString => [EmptyString]
  | String a s =>
      if bool_decide (a = sep) then EmptyString :: split_char sep s
      else
        match split_char sep s with
        | [] => [String a EmptyString]
        | piece :: pieces => String a piece :: pieces
        end
  end.

(** A carriage return before the line feed belongs to the line end. *)
Fixpoint strip_cr (s : string) : string :=
  match s with
  | EmptyString => EmptyString
  | String a s =>
      match s with
      | EmptyString => if bool_decide (a = cr) then EmptyString else String a EmptyString
      | _ => String a (strip_cr s)
      end
  end.

(** [str::lines]: the last piece is a line only if it is not empty, and keeps its [\r]. *)
Fixpoint terminate_lines (pieces : list string) : list string :=
  match pieces with
  | [] => []
  | [last] => if bool_decide (last = EmptyString) then [] else [last]
  | piece :: pieces => strip_cr piece :: terminate_lines pieces
  end.

Definition lines (s : string) : list string := terminate_lines (split_char nl s).

(** [str::strip_prefix]. *)
Fixpoint strip_prefix (p s : string) : option string :=
  match p, s with
  | EmptyString, _ => Some s
  | String a p, String b s => if bool_decide (a = b) then strip_prefix p s else None
  | String _ _, EmptyString => None
  end.

Definition starts_with (p s : string) : bool :=
  match strip_prefix p s with Some _ => true | None => false end.

(** [str::rfind(pattern)], as the split of the string at the last match. *)
Fixpoint rsplit_at (p s : string) : option (string * string) :=
  match s with
  | EmptyString => if starts_with p EmptyString then Some (EmptyString, EmptyString) else None
  | String a s' =>
      match rsplit_at p s' with
      | Some (before, from) => Some (String a before, from)
      | None => if starts_with p s then Some (EmptyString, s) else None
      end
  end.

(** [str::strip_suffix(char)]. *)
Fixpoint strip_suffix_char (c : ascii) (s : string) : option string :=
  match s with
  | EmptyString => None
  | String a EmptyString => if bool_decide (a = c) then Some EmptyString else None
  | String a s => String a <$> strip_suffix_char c s
  end.

Fixpoint last_char (s : string) : option ascii :=
  match s with
  | EmptyString => None
  | String a EmptyString => Some a
  | String _ s => last_char s
  end.

Fixpoint all_chars (p : ascii -> bool) (s : string) : bool :=
  match s with
  | EmptyString => true
  | String a s => p a && all_chars p s
  end.

(** [&s[..n]] and [&s[n..]]. *)
Fixpoint str_take (n : nat) (s : string) : string :=
  match n, s with
  | S n, String a s => String a (str_take n s)
  | _, _ => EmptyString
  end.

Fixpoint str_drop (n : nat) (s : string) : string :=
  match n, s with
  | S n, String _ s => str_drop n s
  | _, _ => s
  end.

(** [str::split_once(char)]. *)
Fixpoint split_once (sep : ascii) (s : string) : option (string * string) :=
  match s with
  | EmptyString => None
  | String a s =>
      if bool_decide (a = sep) then Some (EmptyString, s)
      else match split_once sep s with Some (l, r) => Some (String a l, r) | None => None end
  end.

(** ["0".repeat(n)] and the like. *)
Fixpoint repeat_char (a : ascii) (n : nat) : string :=
  match n with O => EmptyString | S n => String a (repeat_char a n) end.

(** The characters of [char::is_whitespace], in UTF-8. *)
Definition of_codes (l : list N) : string := List.fold_right (fun n s => String (ascii_of_N n) s) EmptyString l.

Definition whitespace : list string :=
  of_codes <$> [[9]; [10]; [11]; [12]; [13]; [32]; [194; 133]; [194; 160]; [225; 154; 128];
    [226; 128; 128]; [226; 128; 129]; [226; 128; 130]; [226; 128; 131]; [226; 128; 132];
    [226; 128; 133]; [226; 128; 134]; [226; 128; 135]; [226; 128; 136]; [226; 128; 137];
    [226; 128; 138]; [226; 128; 168]; [226; 128; 169]; [226; 128; 175]; [226; 129; 159];
    [227; 128; 128]]%N.

Fixpoint str_rev_onto (s acc : string) : string :=
  match s with EmptyString => acc | String a s => str_rev_onto s (String a acc) end.

Definition str_rev (s : string) : string := str_rev_onto s EmptyString.

(** Drop leading occurrences of any of [pats]; [str_len s] turns are enough. *)
Fixpoint strip_any (fuel : nat) (pats : list string) (s : string) : string :=
  match fuel with
  | O => s
  | S fuel =>
      match head (omap (fun p => strip_prefix p s) pats) with
      | Some rest => strip_any fuel pats rest
      | None => s
      end
  end.

Definition trim_start (s : string) : string := strip_any (String.length s) whitespace s.

(** UTF-8 is self-synchronising, so the end is trimmed as the start of the reversal. *)
Definition trim_end (s : string) : string :=
  str_rev (strip_any (String.length s) (str_rev <$> whitespace) (str_rev s)).

(** [str::trim]. *)
Definition trim (s : string) : string := trim_end (trim_start s).

(** [str::split_whitespace]; every turn but the last takes a character. *)
Fixpoint words (fuel : nat) (word s : string) : list string :=
  match fuel with
  | O => []
  | S fuel =>
      let rest_words w := if bool_decide (word = EmptyString) then w else word :: w in
      match head (omap (fun p => strip_prefix p s) whitespace) with
      | Some rest => rest_words (words fuel EmptyString rest)
      | None =>
          match s with
          | EmptyString => rest_words []
          | String a s => words fuel (word +:+ String a EmptyString) s
          end
      end
  end.

Definition split_whitespace (s : string) : list string := words (S (String.length s)) EmptyString s.

Definition str_len (s : string) : Z := Z.of_nat (String.length s).

(** ** Integers *)

Inductive IntErrorKind := Empty | InvalidDigit | PosOverflow.

Definition IntErrorKind_to_string (e : IntErrorKind) : string :=
  match e with
  | Empty => "cannot parse integer from empty string"
  | InvalidDigit => "invalid digit found in string"
  | PosOverflow => "number too large to fit in target type"
  end.

Definition char_val (a : ascii) : Z := Z.of_N (N_of_ascii a).

(** [char::to_digit(10)]. *)
Definition to_digit (a : ascii) : option Z :=
  if between 48 57 (char_val a) then Some (char_val a - 48) else None.

(** [max] is the largest value of the integer type. *)
Fixpoint parse_digits (max acc : Z) (s : string) : result Z IntErrorKind :=
  match s with
  | EmptyString => Ok acc
  | String a s =>
      match to_digit a with
      | None => Err InvalidDigit
      | Some d => if max <? acc * 10 + d then Err PosOverflow else parse_digits max (acc * 10 + d) s
      end
  end.

(** [from_str] of an unsigned integer. *)
Definition parse_uint (max : Z) (s : string) : result Z IntErrorKind :=
  match s with
  | EmptyString => Err Empty
  | String a EmptyString =>
      if bool_decide (a = "+"%char) then Err InvalidDigit else parse_digits max 0 s
  | String a rest =>
      if bool_decide (a = "+"%char) then parse_digits max 0 rest else parse_digits max 0 s
  end.

(** [u64::from_str], also for a 64-bit [usize]. *)
Definition parse_u64 (s : string) : result Z IntErrorKind := parse_uint u64_max s.

(** ** Hexadecimal *)

Definition hex_char (n : Z) : ascii := ascii_of_N (Z.to_N (if n <? 10 then 48 + n else 87 + n)).

(** [{byte:02x}]. *)
Definition hex_byte (b : byte) : string :=
  String (hex_char (byte_val b / 16)) (String (hex_char (byte_val b mod 16)) EmptyString).

Definition hex (l : list byte) : string := List.fold_right (fun b s => hex_byte b +:+ s) EmptyString l.

(** [u8::is_ascii_hexdigit]. *)
Definition is_ascii_hexdigit (a : ascii) : bool :=
  let c := char_val a in between 48 57 c || between 65 70 c || between 97 102 c.

Definition to_ascii_lowercase (a : ascii) : ascii :=
  let c := char_val a in if between 65 90 c then ascii_of_N (Z.to_N (c + 32)) else a.

Fixpoint map_chars (f : ascii -> ascii) (s : string) : string :=
  match s with
  | EmptyString => EmptyString
  | String a s => String (f a) (map_chars f s)
  end.

Definition eq_ignore_ascii_case (s t : string) : bool :=
  bool_decide (map_chars to_ascii_lowercase s = map_chars to_ascii_lowercase t).

(** [{:?}] of an [Option<u64>]. *)
Definition debug_option (o : option Z) : string :=
  match o with Some z => "Some(" +:+ pretty z +:+ ")" | None => "None" end.

(** ** Lemmas *)

#[local] Arguments bool_decide : simpl never.
#[local] Arguments String.append !_ _ : simpl nomatch.

Lemma contains_char_app c s t : contains_char c (s +:+ t) = contains_char c s || contains_char c t.
Proof. induction s as [|a s IH]; cbn; [done|]. by rewrite IH, orb_assoc. Qed.

Lemma split_char_nonempty sep s : split_char sep s <> [].
Proof. destruct s as [|a s]; cbn; [done|]. case_bool_decide; [done|]. by destruct (split_char sep s). Qed.

Lemma split_char_none sep s : contains_char sep s = false -> split_char sep s = [s].
Proof.
  induction s as [|a s IH]; cbn; [done|]. intros [Ha Hs]%orb_false_iff. rewrite Ha. by rewrite IH.
Qed.

Lemma split_char_app sep s t :
  contains_char sep s = false -> split_char sep (s +:+ String sep t) = s :: split_char sep t.
Proof.
  induction s as [|a s IH]; cbn; [by rewrite bool_decide_eq_true_2|].
  intros [Ha Hs]%orb_false_iff. rewrite Ha. by rewrite IH.
Qed.

(** A line of a control file: no line feed, and no carriage return at its end. *)
Definition clean_line (s : string) : Prop := contains_char nl s = false /\ contains_char cr s = false.

Lemma strip_cr_none s : contains_char cr s = false -> strip_cr s = s.
Proof.
  induction s as [|a s IH]; [done|]. intros [Ha Hs]%orb_false_iff.
  destruct s; cbn in *; [by rewrite Ha|]. f_equal. by apply IH.
Qed.

Lemma lines_cons s t : clean_line s -> lines (s +:+ String nl t) = s :: lines t.
Proof.
  intros [Hn Hc]. unfold lines. rewrite split_char_app by done.
  pose proof (split_char_nonempty nl t). destruct (split_char nl t); [done|].
  cbn. by rewrite strip_cr_none.
Qed.

Lemma strip_prefix_app p s : strip_prefix p (p +:+ s) = Some s.
Proof. induction p; cbn; [done|]. by rewrite bool_decide_eq_true_2. Qed.

Lemma contains_char_all c p s :
  p c = false -> all_chars p s = true -> contains_char c s = false.
Proof.
  intros Hc. induction s as [|a s IH]; cbn; [done|]. intros [Ha Hs]%andb_true_iff.
  rewrite bool_decide_eq_false_2 by (intros ->; congruence). by apply IH.
Qed.

(** ** Concatenation and reversal *)

Lemma str_take_drop n s : str_take n s +:+ str_drop n s = s.
Proof. revert s. induction n as [|n IH]; intros [|a s]; cbn; try done. by rewrite IH. Qed.

Lemma str_drop_length n s : String.length (str_drop n s) = (String.length s - n)%nat.
Proof. revert s. induction n as [|n IH]; intros [|a s]; cbn; try done. Qed.

Lemma length_append s t : String.length (s +:+ t) = (String.length s + String.length t)%nat.
Proof. induction s as [|a s IH]; cbn; [done|]. by rewrite IH. Qed.

Lemma length_repeat_char a n : String.length (repeat_char a n) = n.
Proof. induction n; cbn; [done|]. by f_equal. Qed.

Lemma all_chars_app p s t : all_chars p (s +:+ t) = all_chars p s && all_chars p t.
Proof. induction s as [|a s IH]; cbn; [done|]. by rewrite IH, andb_assoc. Qed.

Lemma string_app_assoc (s t u : string) : (s +:+ t) +:+ u = s +:+ t +:+ u.
Proof. induction s; cbn; [done|]. by f_equal. Qed.

Lemma string_app_nil_r (s : string) : s +:+ EmptyString = s.
Proof. induction s; cbn; [done|]. by f_equal. Qed.

Lemma str_rev_onto_app s acc : str_rev_onto s acc = str_rev s +:+ acc.
Proof.
  unfold str_rev. revert acc. induction s as [|a s IH]; intros acc; cbn; [done|].
  by rewrite IH, (IH (String a EmptyString)), string_app_assoc.
Qed.

Lemma str_rev_cons a s : str_rev (String a s) = str_rev s +:+ String a EmptyString.
Proof. apply (str_rev_onto_app s). Qed.

Lemma str_rev_app s t : str_rev (s +:+ t) = str_rev t +:+ str_rev s.
Proof.
  induction s as [|a s IH]; cbn [String.append]; [by rewrite string_app_nil_r|].
  by rewrite !str_rev_cons, IH, string_app_assoc.
Qed.

Lemma str_rev_involutive s : str_rev (str_rev s) = s.
Proof. induction s as [|a s IH]; [done|]. by rewrite str_rev_cons, str_rev_app, IH. Qed.

(** ** Decimal text *)

Definition is_digit (a : ascii) : bool := between 48 57 (char_val a).

Lemma pretty_N_char_digit n : (n < 10)%N -> to_digit (pretty_N_char n) = Some (Z.of_N n).
Proof.
  intros Hn. destruct n as [|p]; [done|].
  do 4 (try destruct p as [p|p|]); first [reflexivity|lia].
Qed.

Lemma pretty_N_go_parse max n s :
  (0 < n)%N -> Z.of_N n <= max ->
  parse_digits max 0 (pretty_N_go n s) = parse_digits max (Z.of_N n) s.
Proof.
  revert s. induction (N.lt_wf_0 n) as [n _ IH]. intros s Hn Hmax.
  rewrite pretty_N_go_step by done.
  pose proof (N.mod_lt n 10 ltac:(done)) as Hm. pose proof (N.div_mod n 10 ltac:(done)) as Hd.
  assert (parse_digits max (Z.of_N (n / 10)) (String (pretty_N_char (n mod 10)) s) =
    parse_digits max (Z.of_N n) s) as Hstep.
  { cbn [parse_digits]. rewrite pretty_N_char_digit by done.
    replace (Z.of_N (n / 10) * 10 + Z.of_N (n mod 10)) with (Z.of_N n) by lia.
    by rewrite (proj2 (Z.ltb_ge _ _)). }
  destruct (decide (n / 10 = 0)%N) as [E|E].
  - rewrite E, pretty_N_go_0, <- Hstep, E. done.
  - rewrite IH, Hstep; [done|apply N.div_lt; lia|lia|].
    etrans; [|exact Hmax]. apply N2Z.inj_le, N.Div0.div_le_upper_bound. lia.
Qed.

Lemma pretty_N_go_all p n s :
  (forall d, (d < 10)%N -> p (pretty_N_char d) = true) ->
  all_chars p s = true -> all_chars p (pretty_N_go n s) = true.
Proof.
  intros Hp. revert s. induction (N.lt_wf_0 n) as [n _ IH]. intros s Hs.
  destruct (decide (n = 0)%N) as [->|Hn]; [by rewrite pretty_N_go_0|].
  rewrite pretty_N_go_step by lia. apply IH; [apply N.div_lt; lia|]. cbn.
  by rewrite Hp by (apply N.mod_lt; lia).
Qed.

Lemma pretty_Z_cases z : 0 <= z -> pretty z = "0" /\ z = 0 \/ 0 < z /\ pretty z = pretty_N_go (Z.to_N z) EmptyString.
Proof. destruct z as [|p|p]; intros Hz; [by left|right|lia]. split; [lia|]. done. Qed.

Lemma pretty_digits z : 0 <= z -> all_chars is_digit (pretty z) = true.
Proof.
  intros Hz. destruct (pretty_Z_cases z Hz) as [[-> _]|[_ ->]]; [done|].
  apply pretty_N_go_all; [|done]. intros d Hd. pose proof (pretty_N_char_digit d Hd) as H.
  unfold to_digit in H. unfold is_digit. by destruct (between _ _ _).
Qed.

Lemma parse_digits_only max s :
  s <> EmptyString -> all_chars is_digit s = true -> parse_uint max s = parse_digits max 0 s.
Proof.
  destruct s as [|a s]; [done|]. cbn. intros _ [Ha _]%andb_true_iff.
  rewrite bool_decide_eq_false_2 by (by intros ->). by destruct s.
Qed.

Lemma pretty_nonempty z : 0 <= z -> pretty z <> EmptyString.
Proof.
  intros Hz. destruct (pretty_Z_cases z Hz) as [[-> _]|[Hp ->]]; [done|]. intros E.
  destruct z as [|p|p]; try lia. rewrite pretty_N_go_step in E by lia.
  assert (forall n s, s <> EmptyString -> pretty_N_go n s <> EmptyString) as Hne.
  { clear. intros n. induction (N.lt_wf_0 n) as [n _ IH]. intros s Hs.
    destruct (decide (n = 0)%N) as [->|]; [by rewrite pretty_N_go_0|].
    rewrite pretty_N_go_step by lia. apply IH; [apply N.div_lt; lia|done]. }
  by apply Hne in E.
Qed.

Lemma parse_digits_pretty max z : 0 <= z <= max -> parse_digits max 0 (pretty z) = Ok z.
Proof.
  intros [Hz Hmax]. destruct (pretty_Z_cases z Hz) as [[-> ->]|[Hp ->]].
  - change (parse_digits max 0 "0") with (if max <? 0 then Err PosOverflow else @Ok Z IntErrorKind 0).
    by rewrite (proj2 (Z.ltb_ge _ _)).
  - rewrite pretty_N_go_parse by lia. cbn. f_equal. lia.
Qed.

Lemma parse_pretty z : is_u64 z -> parse_u64 (pretty z) = Ok z.
Proof.
  intros [Hz Hmax]. unfold parse_u64.
  rewrite parse_digits_only by (apply pretty_nonempty || apply pretty_digits; done).
  apply parse_digits_pretty. unfold u64_max, U64 in *. lia.
Qed.

Lemma pretty_lacks c z : 0 <= z -> is_digit c = false -> contains_char c (pretty z) = false.
Proof. intros Hz Hc. eapply contains_char_all; [exact Hc|by apply pretty_digits]. Qed.

Lemma parse_zeros max n s : 0 <= max -> parse_digits max 0 (repeat_char "0" n +:+ s) = parse_digits max 0 s.
Proof.
  intros Hm. induction n as [|n IH]; [done|].
  change (parse_digits max 0 (repeat_char "0" (S n) +:+ s))
    with (if max <? 0 then Err PosOverflow else parse_digits max 0 (repeat_char "0" n +:+ s)).
  by rewrite (proj2 (Z.ltb_ge _ _)).
Qed.

(** ** Trimming and splitting *)

(** A printable ASCII character: no white-space sequence starts or ends with one. *)
Definition solid (a : ascii) : bool := between 33 126 (char_val a).

Lemma digit_solid a : is_digit a = true -> solid a = true.
Proof. unfold is_digit, solid, between. rewrite !andb_true_iff, !Z.leb_le. lia. Qed.

Lemma strip_any_solid fuel pats a s :
  Forall (fun p => match p with String c _ => solid c = false | EmptyString => False end) pats ->
  solid a = true -> strip_any fuel pats (String a s) = String a s.
Proof.
  intros Hp Ha. destruct fuel as [|fuel]; [done|]. cbn [strip_any].
  replace (omap (fun p => strip_prefix p (String a s)) pats) with (@nil string); [done|].
  induction Hp as [|p pats Hc _ IH]; [done|]. destruct p as [|c p]; [done|].
  cbn. rewrite bool_decide_eq_false_2 by (intros ->; congruence). exact IH.
Qed.

Lemma trim_end_solid t b : solid b = true -> trim_end (t +:+ String b EmptyString) = t +:+ String b EmptyString.
Proof.
  intros Hb. unfold trim_end. rewrite str_rev_app.
  change (str_rev (String b EmptyString) +:+ str_rev t) with (String b (str_rev t)).
  rewrite strip_any_solid by (done || by repeat constructor).
  by rewrite str_rev_cons, str_rev_involutive.
Qed.

Lemma trim_solid a s b t :
  solid a = true -> solid b = true -> String a s = t +:+ String b EmptyString ->
  trim (String a s) = String a s.
Proof.
  intros Ha Hb E. unfold trim, trim_start. rewrite strip_any_solid by (done || by repeat constructor).
  rewrite E. by apply trim_end_solid.
Qed.

Lemma digits_end s :
  s <> EmptyString -> all_chars is_digit s = true ->
  exists t b, s = t +:+ String b EmptyString /\ is_digit b = true.
Proof.
  induction s as [|a s IH]; [done|]. cbn. intros _ [Ha Hs]%andb_true_iff.
  destruct s as [|c s]; [by exists EmptyString, a|].
  destruct (IH ltac:(done) Hs) as (t & b & -> & Hb). by exists (String a t), b.
Qed.

Lemma split_once_app c s t : contains_char c s = false -> split_once c (s +:+ String c t) = Some (s, t).
Proof.
  induction s as [|a s IH]; cbn; [by rewrite bool_decide_eq_true_2|].
  intros [Ha Hs]%orb_false_iff. by rewrite Ha, IH.
Qed.

Lemma split_once_none c s : contains_char c s = false -> split_once c s = None.
Proof.
  induction s as [|a s IH]; cbn; [done|]. intros [Ha Hs]%orb_false_iff. by rewrite Ha, IH.
Qed.

End Text.
