(* ===== verification/Paths.v ===== *)
(** * Paths and files

    Rust's [Path] on Unix, in the normal form its [components] iterate over: a root flag
    and the components, where a ["."] survives only as the first component of a relative
    path.  A file system is the finite map from paths to contents. *)

From stdpp Require Import base gmap strings list.
From Stdlib Require Import Strings.Ascii.
From S2P Require Import Prelude Types Bytes Text.

Module Paths.
Import Text.

Record Path := mkPath { absolute : bool; components : list string }.

#[export] Instance Path_eq_dec : EqDecision Path.
Proof. solve_decision. Defined.

#[export] Instance Path_countable : Countable Path.
Proof.
  refine (inj_countable' (fun p => (absolute p, components p)) (fun x => mkPath x.1 x.2) _).
  by intros [].
Defined.

Fixpoint join_slash (l : list string) : string :=
  match l with
  | [] => EmptyString
  | [c] => c
  | c :: l => c +:+ "/" +:+ join_slash l
  end.

Definition display (p : Path) : string :=
  (if absolute p then "/" else EmptyString) +:+ join_slash (components p).

(** Is a piece between separators a component?  Empty ones and ["."] are not. *)
Definition is_component (c : string) : bool :=
  negb (bool_decide (c = EmptyString)) && negb (bool_decide (c = ".")).

(** [PathBuf::from]. *)
Definition from_str (s : string) : Path :=
  let pieces := split_char "/"%char s in
  match pieces with
  | first :: rest =>
      if bool_decide (first = EmptyString) && negb (bool_decide (s = EmptyString)) then
        mkPath true (List.filter is_component rest)
      else if bool_decide (first = ".") then mkPath false ("." :: List.filter is_component rest)
      else mkPath false (List.filter is_component pieces)
  | [] => mkPath false []
  end.

(** [Path::parent]. *)
Definition parent (p : Path) : option Path :=
  match components p with
  | [] => None
  | _ => Some (mkPath (absolute p) (removelast (components p)))
  end.

(** [Path::file_name]: the last component, unless it is [".."] or ["."]. *)
Definition file_name (p : Path) : option string :=
  match last (components p) with
  | Some c => if bool_decide (c = "..") || bool_decide (c = ".") then None else Some c
  | None => None
  end.

Definition is_empty (p : Path) : bool :=
  negb (absolute p) && bool_decide (components p = []).

(** [Path::join]. *)
Definition join (base p : Path) : Path :=
  if absolute p then p
  else if is_empty base then p
  else
    match components p with
    | "." :: rest => mkPath (absolute base) (components base ++ rest)
    | cs => mkPath (absolute base) (components base ++ cs)
    end.

(** [Path::with_file_name]. *)
Definition with_file_name (p : Path) (name : string) : Path :=
  match file_name p with
  | Some _ => join (mkPath (absolute p) (removelast (components p))) (from_str name)
  | None => join p (from_str name)
  end.

(** [Path::file_stem]: the file name before its last dot, unless that starts it. *)
Definition file_stem (p : Path) : option string :=
  match file_name p with
  | None => None
  | Some name =>
      match rsplit_at "." name with
      | Some (before, _) => Some (if bool_decide (before = EmptyString) then name else before)
      | None => Some name
      end
  end.

(** [Path::with_extension], for an extension that is not empty and has no separator. *)
Definition with_extension (p : Path) (extension : string) : Path :=
  match file_stem p with
  | None => p
  | Some stem => mkPath (absolute p) (removelast (components p) ++ [stem +:+ "." +:+ extension])
  end.

Fixpoint strip_components (base cs : list string) : option (list string) :=
  match base, cs with
  | [], _ => Some cs
  | b :: base, c :: cs => if bool_decide (b = c) then strip_components base cs else None
  | _ :: _, [] => None
  end.

(** [Path::strip_prefix]. *)
Definition path_strip_prefix (p base : Path) : option Path :=
  if is_empty base then Some p
  else if Bool.eqb (absolute p) (absolute base) then
    mkPath false <$> strip_components (components base) (components p)
  else None.

(** ** Files *)

Notation Fs := (gmap Path (list byte)).

(** The [NotFound] text of the operating system. *)
Definition not_found : string := "No such file or directory (os error 2)".

(** [fs::read_to_string]. *)
Definition read_to_string (fs : Fs) (p : Path) : result string string :=
  match fs !! p with
  | None => Err not_found
  | Some bytes =>
      match from_utf8 bytes with
      | Ok s => Ok s
      | Err _ => Err "stream did not contain valid UTF-8"
      end
  end.

(** Write a temporary file, sync it, and rename it over [p]. *)
Definition install (fs : Fs) (tmp p : Path) (bytes : list byte) : Fs :=
  <[p := bytes]> (delete tmp fs).

(** ** Lemmas *)

Lemma strip_components_app base cs : strip_components base (base ++ cs) = Some cs.
Proof. induction base; cbn; [done|]. by rewrite bool_decide_eq_true_2. Qed.

Lemma strip_components_Some base cs rest : strip_components base cs = Some rest -> cs = base ++ rest.
Proof.
  revert cs. induction base as [|b base IH]; intros [|c cs]; cbn; try (by intros [= ->]); try done.
  case_bool_decide as E; [|done]. intros H%IH. by subst.
Qed.

End Paths.
