(* ===== verification/Decimal.v ===== *)
(** * Fixed-point decimals (crates/sql/src/decimal.rs)

    [Decimal128]: an [i128] mantissa with a [u8] scale; rescaling with half-up rounding,
    checked addition and subtraction, scale-aligned comparison, the canonical form, and
    decimal text. *)

From stdpp Require Import base strings list pretty.
From Stdlib Require Import Strings.Ascii.
From S2P Require Import Prelude Types Bytes Text.

Module Decimal.
Import Text.

Record Decimal128 := mkDecimal { mantissa : Z; scale : Z }.

Inductive NumericOverflow := Overflow.

(** ** 128-bit integers *)

Definition i128_min : Z := -170141183460469231731687303715884105728.
Definition i128_max : Z := 170141183460469231731687303715884105727.
Definition u128_max : Z := 340282366920938463463374607431768211455.

Definition fits_i128 (z : Z) : bool := between i128_min i128_max z.

Definition checked_i128 (z : Z) : option Z := if fits_i128 z then Some z else None.

(** ** Operations *)

Definition ZERO : Decimal128 := mkDecimal 0 0.

(** [for _ in 0..exp { acc = acc.checked_mul(10)? }] *)
Fixpoint pow10_loop (exp : nat) (acc : Z) : option Z :=
  match exp with
  | O => Some acc
  | S exp => match checked_i128 (acc * 10) with Some acc => pow10_loop exp acc | None => None end
  end.

Definition pow10 (exp : Z) : option Z := pow10_loop (Z.to_nat exp) 1.

Definition rescale (d : Decimal128) (target_scale : Z) : result Decimal128 NumericOverflow :=
  if target_scale =? scale d then Ok d
  else if scale d <? target_scale then
    let? factor := ok_or (pow10 (target_scale - scale d)) Overflow in
    let? m := ok_or (checked_i128 (mantissa d * factor)) Overflow in
    Ok (mkDecimal m target_scale)
  else
    match pow10 (scale d - target_scale) with
    | None => Ok (mkDecimal 0 target_scale)
    | Some factor =>
        let negative := mantissa d <? 0 in
        let abs := Z.abs (mantissa d) in
        let quotient := abs / factor in
        let remainder := abs mod factor in
        let rounded := if factor <=? remainder * 2 then quotient + 1 else quotient in
        let? m := ok_or (checked_i128 rounded) Overflow in
        Ok (mkDecimal (if negative then - m else m) target_scale)
    end.

Definition integer_part (d : Decimal128) : Z :=
  match pow10 (scale d) with
  | Some factor => Z.quot (mantissa d) factor
  | None => 0
  end.

Definition compare (a b : Decimal128) : comparison :=
  if scale a =? scale b then mantissa a ?= mantissa b
  else
    let target := Z.max (scale a) (scale b) in
    match rescale a target, rescale b target with
    | Ok l, Ok r => mantissa l ?= mantissa r
    | _, _ =>
        match Z.sgn (mantissa a) ?= Z.sgn (mantissa b) with
        | Eq =>
            match integer_part a ?= integer_part b with
            | Eq =>
                let narrower := Z.min (scale a) (scale b) in
                match rescale a narrower, rescale b narrower with
                | Ok l, Ok r => mantissa l ?= mantissa r
                | _, _ => Eq
                end
            | by_integer => by_integer
            end
        | by_sign => by_sign
        end
    end.

Definition numeric_eq (a b : Decimal128) : bool :=
  match compare a b with Eq => true | _ => false end.

(** [while scale > 0 && mantissa % 10 == 0]: at most [scale] turns. *)
Fixpoint canonical_loop (fuel : nat) (m s : Z) : Decimal128 :=
  match fuel with
  | O => mkDecimal m s
  | S fuel =>
      if (0 <? s) && (Z.rem m 10 =? 0) then canonical_loop fuel (Z.quot m 10) (s - 1)
      else mkDecimal m s
  end.

Definition canonical (d : Decimal128) : Decimal128 :=
  canonical_loop (Z.to_nat (scale d)) (mantissa d) (scale d).

Definition add_sub (a b : Decimal128) (subtract : bool) : result Decimal128 NumericOverflow :=
  let target := Z.max (scale a) (scale b) in
  let? l := rescale a target in
  let? r := rescale b target in
  let? m := ok_or (checked_i128 (if subtract then mantissa l - mantissa r
                                 else mantissa l + mantissa r)) Overflow in
  Ok (mkDecimal m target).

Definition checked_add (a b : Decimal128) : result Decimal128 NumericOverflow := add_sub a b false.
Definition checked_sub (a b : Decimal128) : result Decimal128 NumericOverflow := add_sub a b true.

(** ** Text *)

(** [u8::is_ascii_digit] is [Text.is_digit]. *)
Definition parse (input : string) : option Decimal128 :=
  let trimmed := trim input in
  if bool_decide (trimmed = EmptyString) then None
  else
    let '(negative, body) :=
      match strip_prefix "-" trimmed with
      | Some rest => (true, rest)
      | None => (false, default trimmed (strip_prefix "+" trimmed))
      end in
    if bool_decide (body = EmptyString) then None
    else
      let '(whole, frac) := default (body, EmptyString) (split_once "." body) in
      if bool_decide (whole = EmptyString) && bool_decide (frac = EmptyString) then None
      else if negb (all_chars is_digit whole) || negb (all_chars is_digit frac) then None
      else if 255 <? str_len frac then None
      else
        let scale := str_len frac in
        let digits := whole +:+ frac in
        match (if bool_decide (digits = EmptyString) then Ok 0 else parse_uint u128_max digits) with
        | Err _ => None
        | Ok magnitude =>
            if negative then
              if magnitude <=? i128_max then Some (mkDecimal (- magnitude) scale)
              else if magnitude =? i128_max + 1 then Some (mkDecimal i128_min scale)
              else None
            else if magnitude <=? i128_max then Some (mkDecimal magnitude scale)
            else None
        end.

Definition parse_at_scale (input : string) (target_scale : Z) : option Decimal128 :=
  match parse input with
  | Some parsed => ok (rescale parsed target_scale)
  | None => None
  end.

Definition to_decimal_string (d : Decimal128) : string :=
  if scale d =? 0 then pretty (mantissa d)
  else
    let digits := pretty (Z.abs (mantissa d)) in
    let n := Z.to_nat (scale d) in
    let len := String.length digits in
    let '(whole, frac) :=
      if (n <? len)%nat then (str_take (len - n) digits, str_drop (len - n) digits)
      else ("0", repeat_char "0" (n - len) +:+ digits) in
    (if mantissa d <? 0 then "-" else EmptyString) +:+ whole +:+ "." +:+ frac.

End Decimal.
