(* ===== verification/DecimalProps.v ===== *)
(** * Properties of fixed-point decimals

    Arithmetic is exact or reports overflow, rounding is half-up, comparison is the
    numeric order on every value a column can store, the canonical form is a key for
    numeric equality, and decimal text round-trips. *)

From stdpp Require Import base strings list pretty.
From Stdlib Require Import Strings.Ascii.
From S2P Require Import Prelude Types Bytes Text Decimal.

Module DecimalProps.
Import Text Decimal.

(** A [Decimal128] as the machine holds it. *)
Definition wf (d : Decimal128) : Prop := i128_min <= mantissa d <= i128_max /\ 0 <= scale d <= 255.

(** The mantissa of a value written with [t] fractional digits. *)
Definition at_scale (t : Z) (d : Decimal128) : Z := mantissa d * 10 ^ (t - scale d).

(** The numeric order, by cross multiplication. *)
Definition numeric_compare (a b : Decimal128) : comparison :=
  mantissa a * 10 ^ scale b ?= mantissa b * 10 ^ scale a.

(** ** Powers of ten *)

Lemma fits_spec z : fits_i128 z = true <-> i128_min <= z <= i128_max.
Proof. unfold fits_i128, between. rewrite andb_true_iff, !Z.leb_le. done. Qed.

Lemma checked_Some z y : checked_i128 z = Some y <-> y = z /\ i128_min <= z <= i128_max.
Proof.
  unfold checked_i128. destruct (fits_i128 z) eqn:E.
  - apply fits_spec in E. split; [by intros [= <-]|by intros [-> _]].
  - split; [done|]. intros [_ H%fits_spec]. congruence.
Qed.

Lemma checked_None z : checked_i128 z = None <-> ~ (i128_min <= z <= i128_max).
Proof. rewrite <- fits_spec. unfold checked_i128. by destruct (fits_i128 z). Qed.

Lemma pow10_pos k : 0 <= k -> 0 < 10 ^ k.
Proof. intros. by apply Z.pow_pos_nonneg. Qed.

Lemma pow10_mono j k : 0 <= j <= k -> 10 ^ j <= 10 ^ k.
Proof. intros. apply Z.pow_le_mono_r; lia. Qed.

Lemma pow10_split j k : 0 <= j <= k -> 10 ^ k = 10 ^ (k - j) * 10 ^ j.
Proof. intros. rewrite <- Z.pow_add_r by lia. f_equal. lia. Qed.

Lemma pow38 : 10 ^ 38 <= i128_max < 10 ^ 39.
Proof. split; by vm_compute. Qed.

Lemma pow10_loop_spec n acc :
  0 < acc -> pow10_loop n acc = if acc * 10 ^ Z.of_nat n <=? Z.max acc i128_max
                                then Some (acc * 10 ^ Z.of_nat n) else None.
Proof.
  revert acc. induction n as [|n IH]; intros acc Ha.
  { cbn [pow10_loop]. change (10 ^ Z.of_nat 0) with 1. rewrite Z.mul_1_r.
    by rewrite (proj2 (Z.leb_le _ _)) by lia. }
  cbn [pow10_loop]. rewrite Nat2Z.inj_succ, Z.pow_succ_r, Z.mul_assoc by lia.
  pose proof (pow10_pos (Z.of_nat n) ltac:(lia)) as Hp.
  destruct (checked_i128 (acc * 10)) as [y|] eqn:E.
  - apply checked_Some in E as [-> Hr]. rewrite IH by lia.
    replace (Z.max (acc * 10) i128_max) with i128_max by lia.
    by replace (Z.max acc i128_max) with i128_max by lia.
  - apply checked_None in E. rewrite (proj2 (Z.leb_gt _ _)); [done|].
    unfold i128_min in E. nia.
Qed.

Lemma pow10_spec k : 0 <= k -> pow10 k = if k <=? 38 then Some (10 ^ k) else None.
Proof.
  intros Hk. unfold pow10. rewrite pow10_loop_spec, Z2Nat.id, Z.mul_1_l by lia.
  replace (Z.max 1 i128_max) with i128_max by done. pose proof pow38.
  destruct (Z.leb_spec k 38) as [H38|H38].
  - rewrite (proj2 (Z.leb_le _ _)); [done|]. pose proof (pow10_mono k 38 ltac:(lia)). lia.
  - rewrite (proj2 (Z.leb_gt _ _)); [done|]. pose proof (pow10_mono 39 k ltac:(lia)). lia.
Qed.

(** ** Rescaling *)

Lemma rescale_same d : rescale d (scale d) = Ok d.
Proof. unfold rescale. by rewrite Z.eqb_refl. Qed.

Lemma rescale_up d t :
  wf d -> scale d <= t ->
  rescale d t = if (t - scale d <=? 38) && fits_i128 (at_scale t d)
                then Ok (mkDecimal (at_scale t d) t) else Err Overflow.
Proof.
  intros [Hm Hs] Ht. unfold rescale, at_scale. destruct (Z.eqb_spec t (scale d)) as [->|Hne].
  { rewrite Z.sub_diag, Z.pow_0_r, Z.mul_1_r. apply fits_spec in Hm as ->. by destruct d. }
  rewrite (proj2 (Z.ltb_lt _ _)) by lia. rewrite pow10_spec by lia.
  destruct (t - scale d <=? 38); [|done]. cbn [ok_or andb]. unfold checked_i128.
  by destruct (fits_i128 _).
Qed.

(** Half-up rounding of a magnitude: add half a unit and truncate. *)
Lemma half_up a f :
  0 <= a -> 0 < f -> (2 | f) ->
  (if f <=? a mod f * 2 then a / f + 1 else a / f) = (a + f / 2) / f.
Proof.
  intros Ha Hf [h ->]. rewrite Z.div_mul by lia.
  pose proof (Z.div_mod a (h * 2) ltac:(lia)) as Hd. pose proof (Z.mod_pos_bound a (h * 2) Hf) as Hr.
  destruct (Z.leb_spec (h * 2) (a mod (h * 2) * 2)); symmetry.
  - symmetry. apply Z.div_unique with (r := a mod (h * 2) - h); lia.
  - symmetry. apply Z.div_unique with (r := a mod (h * 2) + h); lia.
Qed.

Lemma pow10_even k : 0 < k -> (2 | 10 ^ k).
Proof.
  intros Hk. exists (5 * 10 ^ (k - 1)). rewrite <- Z.mul_assoc, (Z.mul_comm _ 2), Z.mul_assoc.
  change (5 * 2) with 10. rewrite <- Z.pow_succ_r by lia. f_equal. lia.
Qed.

Lemma rescale_down d t :
  wf d -> 0 <= t < scale d ->
  exists c, rescale d t = Ok c /\ wf c /\ scale c = t /\
    Z.abs (mantissa c) = (Z.abs (mantissa d) + 10 ^ (scale d - t) / 2) / 10 ^ (scale d - t) /\
    (mantissa c = 0 \/ Z.sgn (mantissa c) = Z.sgn (mantissa d)).
Proof.
  intros [Hm Hs] Ht. unfold rescale. rewrite (proj2 (Z.eqb_neq _ _)), (proj2 (Z.ltb_ge _ _)) by lia.
  set (k := scale d - t). rewrite pow10_spec by lia. pose proof (pow10_pos k ltac:(lia)) as Hp.
  destruct (Z.leb_spec k 38) as [H38|H38].
  - set (f := 10 ^ k) in *. rewrite half_up by (apply pow10_even || lia; lia).
    assert (0 <= (Z.abs (mantissa d) + f / 2) / f <= i128_max) as Hq.
    { split; [apply Z.div_pos; [pose proof (Z.div_pos f 2 ltac:(lia)); lia|lia]|].
      apply Z.lt_succ_r, Z.div_lt_upper_bound; [lia|].
      assert (10 <= f) by (change 10 with (10 ^ 1); apply pow10_mono; lia).
      pose proof (Z.div_le_upper_bound f 2 f ltac:(lia)). unfold i128_min, i128_max in *. nia. }
    assert (mantissa d = 0 -> (Z.abs (mantissa d) + f / 2) / f = 0) as Hz.
    { intros ->. apply Z.div_small. pose proof (Z.div_pos f 2 ltac:(lia)).
      pose proof (Z.div_lt f 2 ltac:(lia)). lia. }
    set (q := (Z.abs (mantissa d) + f / 2) / f) in *. unfold checked_i128.
    rewrite (proj2 (fits_spec q)) by (unfold i128_min in *; lia). cbn [ok_or].
    eexists. split; [reflexivity|]. unfold wf. cbn [mantissa scale].
    unfold i128_min, i128_max in *. destruct (Z.ltb_spec (mantissa d) 0); split_and!;
      try (destruct (decide (q = 0)); [left; lia|right; lia]); lia.
  - exists (mkDecimal 0 t). split; [done|]. unfold wf. cbn [mantissa scale].
    split_and!; try (unfold i128_min, i128_max; lia).
    rewrite Z.abs_0. symmetry. apply Z.div_small.
    assert (10 ^ 39 <= 10 ^ k) by (apply pow10_mono; lia).
    pose proof pow38. destruct (pow10_even k ltac:(lia)) as [h Hh]. rewrite Hh, Z.div_mul by lia.
    assert (i128_max + 1 < h) by (assert (2 * (i128_max + 1) < 10 ^ 39) by done; lia).
    unfold i128_min, i128_max in *. lia.
Qed.

(** ** Addition and subtraction *)

(** A value cannot be written with [t] fractional digits: its mantissa leaves the 128-bit range, or
    it is a zero that would have to gain more than 38 digits, a factor the code cannot form. *)
Definition unaligned (t : Z) (d : Decimal128) : Prop :=
  fits_i128 (at_scale t d) = false \/ (mantissa d = 0 /\ 38 < t - scale d).

Lemma aligned_iff d t :
  scale d <= t -> ((t - scale d <=? 38) && fits_i128 (at_scale t d) = false <-> unaligned t d).
Proof.
  intros Ht. unfold unaligned. destruct (Z.leb_spec (t - scale d) 38) as [H38|H38]; cbn [andb].
  - split; [by left|]. intros [H|[_ ?]]; [done|lia].
  - split; [|done]. intros _. destruct (decide (mantissa d = 0)) as [|Hne]; [by right|left].
    apply not_true_is_false. rewrite fits_spec. unfold at_scale. pose proof (pow10_mono 39 (t - scale d) ltac:(lia)).
    assert (2 * i128_max < 10 ^ 39) by done. unfold i128_min, i128_max in *. nia.
Qed.

(** [C39] Decimal arithmetic is exact or refuses, and it refuses exactly when it must, a zero
    apart.  Widening a scale and adding or subtracting at the wider scale return the exact value,
    or overflow; overflow is reported exactly when an aligned operand or the result leaves the
    128-bit range, or when a zero operand is more than 38 digits away from the wider scale.
    Reducing a scale never overflows and rounds half-up, away from zero on a tie. *)
Theorem decimal_arithmetic_exact (a b : Decimal128) (subtract : bool) (Ha : wf a) (Hb : wf b) :
  let t := Z.max (scale a) (scale b) in
  let exact := if subtract then at_scale t a - at_scale t b else at_scale t a + at_scale t b in
  match add_sub a b subtract with
  | Ok c => wf c /\ c = mkDecimal exact t /\ ~ unaligned t a /\ ~ unaligned t b
  | Err _ => unaligned t a \/ unaligned t b \/ fits_i128 exact = false
  end /\
  (forall s, scale a <= s ->
    match rescale a s with
    | Ok c => c = mkDecimal (at_scale s a) s /\ ~ unaligned s a
    | Err _ => unaligned s a
    end) /\
  (forall s, 0 <= s < scale a ->
    exists c, rescale a s = Ok c /\ wf c /\ scale c = s /\
      Z.abs (mantissa c) = (Z.abs (mantissa a) + 10 ^ (scale a - s) / 2) / 10 ^ (scale a - s) /\
      (mantissa c = 0 \/ Z.sgn (mantissa c) = Z.sgn (mantissa a))).
Proof.
  intros t exact. split_and!; [|intros s Hs|intros s Hs; by apply rescale_down].
  - pose proof (aligned_iff a t ltac:(lia)) as Ia. pose proof (aligned_iff b t ltac:(lia)) as Ib.
    unfold add_sub. fold t. rewrite !rescale_up by (done || lia).
    destruct (_ && _) in Ia |- *; [|left; by apply Ia]. destruct (_ && _) in Ib |- *; [|right; left; by apply Ib].
    cbn [mantissa]. fold exact. unfold checked_i128. destruct (fits_i128 exact) eqn:E; cbn [ok_or]; [|by right; right].
    apply fits_spec in E. split_and!; [|done|by rewrite <- Ia|by rewrite <- Ib]. destruct Ha, Hb. split; cbn; lia.
  - pose proof (aligned_iff a s Hs) as Ia. rewrite rescale_up by done.
    destruct (_ && _) in Ia |- *; [by rewrite <- Ia|by apply Ia].
Qed.

Lemma decimal_arithmetic_exact_witness :
  (exists c, add_sub (mkDecimal 250 2) (mkDecimal 25 1) true = Ok c /\ c = mkDecimal 0 2) /\
  exists c, rescale (mkDecimal 250 2) 0 = Ok c /\ Z.abs (mantissa c) = 3.
Proof.
  destruct (decimal_arithmetic_exact (mkDecimal 250 2) (mkDecimal 25 1) true) as (Hs & _ & H).
  - unfold wf. cbn. unfold i128_min, i128_max. lia.
  - unfold wf. cbn. unfold i128_min, i128_max. lia.
  - split.
    + destruct (add_sub (mkDecimal 250 2) (mkDecimal 25 1) true) as [c|e] eqn:E; [|discriminate E].
      exists c. split; [reflexivity|exact (proj1 (proj2 Hs))].
    + destruct (H 0 ltac:(cbn; lia)) as (c & E & _ & _ & Habs & _). exists c. split; [exact E|exact Habs].
Defined.

(** Zero does not align over more than 38 digits, although it would fit. *)
Lemma zero_does_not_align : checked_add ZERO (mkDecimal 1 39) = Err Overflow.
Proof. by vm_compute. Qed.

(** ** Comparison *)

(** What a [numeric(p, s)] column stores: at most 38 digits, at most 38 of them fractional. *)
Definition stored (d : Decimal128) : Prop := Z.abs (mantissa d) < 10 ^ 38 /\ 0 <= scale d <= 38.

Lemma stored_wf d : stored d -> wf d.
Proof. intros [Hm Hs]. pose proof pow38. unfold wf, i128_min, i128_max in *. lia. Qed.

Lemma compare_cross a b t :
  0 <= scale a <= t -> 0 <= scale b <= t ->
  (at_scale t a ?= at_scale t b) = numeric_compare a b.
Proof.
  intros Ha Hb. unfold at_scale, numeric_compare.
  pose proof (pow10_pos (t - scale a) ltac:(lia)). pose proof (pow10_pos (scale a) ltac:(lia)).
  pose proof (pow10_pos (scale b) ltac:(lia)). pose proof (pow10_pos (t - scale b) ltac:(lia)).
  assert (10 ^ (t - scale a) * 10 ^ scale a = 10 ^ (t - scale b) * 10 ^ scale b) as E
    by (rewrite <- !Z.pow_add_r by lia; f_equal; lia).
  set (pa := 10 ^ (t - scale a)) in *. set (pb := 10 ^ (t - scale b)) in *.
  set (qa := 10 ^ scale a) in *. set (qb := 10 ^ scale b) in *.
  rewrite (Zmult_compare_compat_l _ (mantissa b * pb) (qa * qb)) by nia.
  rewrite (Zmult_compare_compat_l _ (mantissa b * qa) (pa * qa)) by nia.
  f_equal; [lia|]. rewrite E. lia.
Qed.

(** The integer part decides when aligning the coarser value overflows. *)
Lemma integer_part_spec d : stored d -> integer_part d = Z.quot (mantissa d) (10 ^ scale d).
Proof. intros [_ Hs]. unfold integer_part. rewrite pow10_spec by lia. by rewrite (proj2 (Z.leb_le _ _)) by lia. Qed.

Lemma integer_part_dominates a b :
  stored a -> stored b -> scale a < scale b ->
  i128_max < Z.abs (mantissa a) * 10 ^ (scale b - scale a) ->
  Z.abs (integer_part b) < Z.abs (integer_part a).
Proof.
  intros Ha Hb Hs Hover. rewrite !integer_part_spec by done. destruct Ha as [Ha Hsa], Hb as [Hb Hsb].
  rewrite <- !Z.quot_abs by (pose proof (pow10_pos (scale a)); pose proof (pow10_pos (scale b)); lia).
  pose proof (pow10_pos (scale a) ltac:(lia)). pose proof (pow10_pos (scale b) ltac:(lia)).
  rewrite !(Z.abs_eq (10 ^ _)) by lia. rewrite !Z.quot_div_nonneg by lia.
  pose proof pow38. apply Z.lt_le_trans with (10 ^ (38 - scale b)).
  - apply Z.div_lt_upper_bound; [lia|]. rewrite Z.mul_comm, <- Z.pow_add_r by lia.
    by replace (38 - scale b + scale b) with 38 by lia.
  - apply Z.div_le_lower_bound; [lia|].
    pose proof (pow10_pos (scale b - scale a) ltac:(lia)).
    assert (10 ^ 38 = 10 ^ scale a * 10 ^ (38 - scale b) * 10 ^ (scale b - scale a)) as E
      by (rewrite <- !Z.pow_add_r by lia; f_equal; lia). nia.
Qed.

Lemma numeric_compare_antisym a b : numeric_compare b a = CompOpp (numeric_compare a b).
Proof. apply Z.compare_antisym. Qed.

(** The keys the overflow branch compares: sign, then integer part. *)
Definition decided (a b : Decimal128) (c : comparison) : Prop :=
  c <> Eq /\
  ((Z.sgn (mantissa a) ?= Z.sgn (mantissa b)) = c \/
   (Z.sgn (mantissa a) ?= Z.sgn (mantissa b)) = Eq /\ (integer_part a ?= integer_part b) = c).

Lemma overflow_decided a b :
  stored a -> stored b -> scale a < scale b -> fits_i128 (at_scale (scale b) a) = false ->
  decided a b (numeric_compare a b).
Proof.
  intros Ha Hb Hs Hf. pose proof (pow10_pos (scale b - scale a) ltac:(lia)) as Hp.
  assert (i128_max < Z.abs (mantissa a) * 10 ^ (scale b - scale a)) as Hover.
  { assert (~ (i128_min <= at_scale (scale b) a <= i128_max)) as Hn by (rewrite <- fits_spec; congruence).
    unfold at_scale, i128_min, i128_max in *. nia. }
  pose proof (integer_part_dominates a b Ha Hb Hs Hover) as Hip.
  rewrite <- (compare_cross a b (scale b)) by (destruct Ha, Hb; lia).
  unfold at_scale. rewrite Z.sub_diag, Z.pow_0_r, Z.mul_1_r.
  set (p := 10 ^ (scale b - scale a)) in *. pose proof pow38 as H38.
  assert (Z.abs (mantissa b) < Z.abs (mantissa a) * p) as Hlt by (destruct Hb; lia).
  assert (forall d, stored d -> 0 <= mantissa d -> 0 <= integer_part d) as Hpos.
  { intros d Hd Hm. rewrite integer_part_spec by done. apply Z.quot_pos; [done|]. apply pow10_pos, Hd. }
  assert (forall d, stored d -> mantissa d <= 0 -> integer_part d <= 0) as Hneg.
  { intros d Hd Hm. rewrite integer_part_spec by done.
    pose proof (Z.quot_opp_l (- mantissa d) (10 ^ scale d) ltac:(pose proof (pow10_pos (scale d) ltac:(apply Hd)); lia)) as E.
    rewrite Z.opp_involutive in E. rewrite E. apply Z.opp_nonpos_nonneg, Z.quot_pos; [lia|]. apply pow10_pos, Hd. }
  unfold decided. destruct (Z.lt_trichotomy (mantissa a) 0) as [Hm|[Hm|Hm]]; [|nia|].
  - replace (mantissa a * p ?= mantissa b) with Lt by (symmetry; apply Z.compare_lt_iff; nia).
    split; [done|]. rewrite (Z.sgn_neg (mantissa a)) by done.
    destruct (Z.lt_trichotomy (mantissa b) 0) as [Hb'|[Hb'|Hb']];
      [|left; rewrite Hb'; done|left; by rewrite Z.sgn_pos].
    right. rewrite Z.sgn_neg by done. split; [done|]. apply Z.compare_lt_iff.
    pose proof (Hneg a Ha ltac:(lia)). pose proof (Hneg b Hb ltac:(lia)). lia.
  - replace (mantissa a * p ?= mantissa b) with Gt by (symmetry; apply Z.compare_gt_iff; nia).
    split; [done|]. rewrite (Z.sgn_pos (mantissa a)) by done.
    destruct (Z.lt_trichotomy (mantissa b) 0) as [Hb'|[Hb'|Hb']];
      [left; by rewrite Z.sgn_neg|left; rewrite Hb'; done|].
    right. rewrite Z.sgn_pos by done. split; [done|]. apply Z.compare_gt_iff.
    pose proof (Hpos a Ha ltac:(lia)). pose proof (Hpos b Hb ltac:(lia)). lia.
Qed.

Lemma decided_sym a b c : decided a b c -> decided b a (CompOpp c).
Proof.
  intros [Hc H]. split; [by destruct c|].
  rewrite (Z.compare_antisym (Z.sgn (mantissa a))), (Z.compare_antisym (integer_part a)).
  destruct H as [->|[-> ->]]; [by left|by right].
Qed.

Lemma compare_decided a b c :
  decided a b c -> scale a <> scale b ->
  (is_ok (rescale a (Z.max (scale a) (scale b))) && is_ok (rescale b (Z.max (scale a) (scale b)))) = false ->
  compare a b = c.
Proof.
  intros [Hc Hd] Hs Herr. unfold compare. rewrite (proj2 (Z.eqb_neq _ _)) by done.
  assert (match Z.sgn (mantissa a) ?= Z.sgn (mantissa b) with
          | Eq => match integer_part a ?= integer_part b with
                  | Eq => match rescale a (Z.min (scale a) (scale b)), rescale b (Z.min (scale a) (scale b)) with
                          | Ok l, Ok r => mantissa l ?= mantissa r
                          | _, _ => Eq
                          end
                  | c => c end
          | c => c end = c) as E.
  { destruct Hd as [->|[-> ->]]; by destruct c. }
  by destruct (rescale a (Z.max _ _)), (rescale b (Z.max _ _)).
Qed.

Lemma rescale_stored d t :
  stored d -> scale d <= t <= 38 ->
  rescale d t = if fits_i128 (at_scale t d) then Ok (mkDecimal (at_scale t d) t) else Err Overflow.
Proof.
  intros Hd Ht. rewrite rescale_up by (try apply stored_wf; done || lia).
  destruct Hd. by rewrite (proj2 (Z.leb_le (t - scale d) 38)) by lia.
Qed.

Lemma self_fits d : stored d -> fits_i128 (at_scale (scale d) d) = true.
Proof.
  intros Hd. apply fits_spec. unfold at_scale. rewrite Z.sub_diag, Z.pow_0_r, Z.mul_1_r.
  by apply stored_wf.
Qed.

Lemma compare_stored a b : stored a -> stored b -> compare a b = numeric_compare a b.
Proof.
  intros Ha Hb. destruct (decide (scale a = scale b)) as [Es|Es].
  { unfold compare. rewrite (proj2 (Z.eqb_eq _ _)) by done.
    rewrite <- (compare_cross a b (scale a)) by (destruct Ha, Hb; lia).
    unfold at_scale. by rewrite <- Es, Z.sub_diag, Z.pow_0_r, !Z.mul_1_r. }
  set (t := Z.max (scale a) (scale b)).
  pose proof (rescale_stored a t Ha ltac:(destruct Ha, Hb; lia)) as Ra.
  pose proof (rescale_stored b t Hb ltac:(destruct Ha, Hb; lia)) as Rb.
  destruct (fits_i128 (at_scale t a)) eqn:Fa, (fits_i128 (at_scale t b)) eqn:Fb.
  - unfold compare. rewrite (proj2 (Z.eqb_neq _ _)) by done. fold t. rewrite Ra, Rb. cbn [mantissa].
    apply compare_cross; destruct Ha, Hb; lia.
  - apply compare_decided; [|done|fold t; by rewrite Ra, Rb].
    assert (t <> scale b) by (intros E; rewrite E, self_fits in Fb; done).
    rewrite numeric_compare_antisym. apply decided_sym, overflow_decided; [done|done|lia|].
    by replace (scale a) with t by lia.
  - apply compare_decided; [|done|fold t; by rewrite Ra, Rb].
    assert (t <> scale a) by (intros E; rewrite E, self_fits in Fa; done).
    apply overflow_decided; [done|done|lia|]. by replace (scale b) with t by lia.
  - exfalso. assert (t = scale a \/ t = scale b) as [E|E] by lia.
    + by rewrite E, self_fits in Fa.
    + by rewrite E, self_fits in Fb.
Qed.

(** ** The canonical form *)

Definition reduced (d : Decimal128) : Prop := scale d = 0 \/ mantissa d mod 10 <> 0.

Lemma canonical_loop_spec fuel m s :
  0 <= s <= Z.of_nat fuel ->
  let c := canonical_loop fuel m s in
  0 <= scale c <= s /\ m = mantissa c * 10 ^ (s - scale c) /\ reduced c.
Proof.
  revert m s. induction fuel as [|fuel IH]; intros m s Hs; cbn [canonical_loop].
  { cbn. rewrite Z.sub_diag. split_and!; [lia|lia|lia|left; cbn; lia]. }
  destruct (Z.ltb_spec 0 s) as [Hp|Hp]; cbn [andb].
  2: { cbn. rewrite Z.sub_diag. split_and!; [lia|lia|lia|left; cbn; lia]. }
  destruct (Z.eqb_spec (Z.rem m 10) 0) as [E|E].
  - destruct (IH (Z.quot m 10) (s - 1) ltac:(lia)) as (Hc & Hm & Hr).
    set (c := canonical_loop fuel (Z.quot m 10) (s - 1)) in *. split_and!; [lia|lia| |done].
    pose proof (Z.quot_rem m 10 ltac:(lia)) as Hq. rewrite E, Hm, Z.add_0_r in Hq. rewrite Hq at 1.
    replace (s - scale c) with (Z.succ (s - 1 - scale c)) by lia. rewrite Z.pow_succ_r by lia. lia.
  - cbn. rewrite Z.sub_diag. split_and!; [lia|lia|lia|]. right. cbn. intros Hm. apply E.
    apply Z.rem_divide; [lia|]. by apply Z.mod_divide.
Qed.

Lemma canonical_spec d :
  wf d -> 0 <= scale (canonical d) <= scale d /\
  mantissa d = mantissa (canonical d) * 10 ^ (scale d - scale (canonical d)) /\ reduced (canonical d).
Proof. intros [_ Hs]. apply canonical_loop_spec. lia. Qed.

Lemma reduced_unique a b :
  0 <= scale a -> 0 <= scale b -> scale a <= scale b -> reduced b ->
  mantissa a * 10 ^ scale b = mantissa b * 10 ^ scale a -> a = b.
Proof.
  intros Ha Hb Hs Hr E.
  assert (mantissa b = mantissa a * 10 ^ (scale b - scale a)) as Em.
  { pose proof (pow10_pos (scale a) Ha). rewrite (pow10_split (scale a) (scale b)) in E by lia. nia. }
  destruct (decide (scale a = scale b)) as [Es|Es].
  { rewrite Es, Z.sub_diag, Z.pow_0_r, Z.mul_1_r in Em. destruct a, b. cbn in *. by subst. }
  destruct Hr as [Hr|Hr]; [lia|]. exfalso. apply Hr. rewrite Em.
  replace (scale b - scale a) with (Z.succ (scale b - scale a - 1)) by lia.
  rewrite Z.pow_succ_r by lia. rewrite (Z.mul_comm 10), Z.mul_assoc. apply Z_mod_mult.
Qed.

Lemma canonical_cross a b :
  wf a -> wf b ->
  (mantissa a * 10 ^ scale b = mantissa b * 10 ^ scale a <->
   mantissa (canonical a) * 10 ^ scale (canonical b) = mantissa (canonical b) * 10 ^ scale (canonical a)).
Proof.
  intros Ha Hb. destruct (canonical_spec a Ha) as (Hsa & Ema & _), (canonical_spec b Hb) as (Hsb & Emb & _).
  set (ca := canonical a) in *. set (cb := canonical b) in *. rewrite Ema, Emb at 1.
  rewrite (pow10_split (scale ca) (scale a)), (pow10_split (scale cb) (scale b)) by lia.
  pose proof (pow10_pos (scale a - scale ca) ltac:(lia)). pose proof (pow10_pos (scale b - scale cb) ltac:(lia)).
  set (p := 10 ^ (scale a - scale ca)) in *. set (q := 10 ^ (scale b - scale cb)) in *.
  assert (0 < p * q) by nia. split; intros E.
  - apply (Z.mul_cancel_l _ _ (p * q)); [lia|]. lia.
  - apply (Z.mul_cancel_l _ _ (p * q)) in E; lia.
Qed.

Lemma canonical_equal a b :
  wf a -> wf b -> (canonical a = canonical b <-> mantissa a * 10 ^ scale b = mantissa b * 10 ^ scale a).
Proof.
  intros Ha Hb. rewrite canonical_cross by done. split; [by intros ->|]. intros E.
  destruct (canonical_spec a Ha) as (Hsa & _ & Hra), (canonical_spec b Hb) as (Hsb & _ & Hrb).
  destruct (Z.le_ge_cases (scale (canonical a)) (scale (canonical b))).
  - apply reduced_unique; done || lia.
  - symmetry. apply reduced_unique; done || lia.
Qed.

(** On every value a [numeric] column can store (38 digits, 38 fractional ones) the
    ordering is the numeric one, the branch taken when aligning overflows included, and two
    values compare equal exactly when their canonical forms, which index equality, are the
    same; the canonical form denotes the same number. *)
Theorem decimal_order_and_key (a b : Decimal128) (Ha : stored a) (Hb : stored b) :
  compare a b = numeric_compare a b /\
  (numeric_eq a b = true <-> canonical a = canonical b) /\
  numeric_compare a (canonical a) = Eq /\ canonical (canonical a) = canonical a.
Proof.
  pose proof (stored_wf a Ha) as Wa. pose proof (stored_wf b Hb) as Wb.
  destruct (canonical_spec a Wa) as (Hsa & Ema & Hra).
  assert (wf (canonical a)) as Wc.
  { destruct Wa as [Wm Ws]. split; [|lia]. pose proof (pow10_pos (scale a - scale (canonical a)) ltac:(lia)).
    unfold i128_min, i128_max in *. nia. }
  assert (mantissa a * 10 ^ scale (canonical a) = mantissa (canonical a) * 10 ^ scale a) as Ec.
  { rewrite (pow10_split (scale (canonical a)) (scale a)) by lia. rewrite Ema at 1. lia. }
  split_and!.
  - by apply compare_stored.
  - rewrite canonical_equal by done. unfold numeric_eq. rewrite compare_stored by done.
    unfold numeric_compare. rewrite <- Z.compare_eq_iff. by destruct (_ ?= _).
  - by apply Z.compare_eq_iff.
  - by apply canonical_equal.
Qed.

Lemma decimal_order_and_key_witness :
  compare (mkDecimal (10 ^ 37) 0) (mkDecimal 5 38) = Gt /\
  canonical (mkDecimal 100 2) = canonical (mkDecimal 10 1).
Proof.
  split.
  - rewrite (proj1 (decimal_order_and_key (mkDecimal (10 ^ 37) 0) (mkDecimal 5 38)
      ltac:(split; [by vm_compute|cbn; lia]) ltac:(split; [by vm_compute|cbn; lia]))).
    by vm_compute.
  - by apply (decimal_order_and_key (mkDecimal 100 2) (mkDecimal 10 1)
      ltac:(split; [by vm_compute|cbn; lia]) ltac:(split; [by vm_compute|cbn; lia])).
Defined.

(** Beyond 38 digits the order is not transitive: two values a unit apart both compare
    equal to a third. *)
Lemma extreme_compare_inconsistent :
  let a := mkDecimal 170141183460469231732 1 in
  let b := mkDecimal i128_max 19 in
  let b' := mkDecimal (i128_max - 1) 19 in
  wf a /\ wf b /\ compare a b = Eq /\ compare a b' = Eq /\ compare b' b = Lt /\
  numeric_compare a b = Gt.
Proof.
  cbv zeta. split_and!; try by vm_compute.
  all: unfold i128_min, i128_max; cbn; lia.
Qed.

(** ** Text *)

#[local] Arguments bool_decide : simpl never.
#[local] Arguments String.append !_ _ : simpl nomatch.

(** The sign is read off before the digits. *)
Definition signed (negative : bool) (body : string) : string :=
  (if negative then "-" else EmptyString) +:+ body.

Lemma signed_trim negative body t b :
  body = t +:+ String b EmptyString -> is_digit b = true ->
  (exists a r, body = String a r /\ is_digit a = true) ->
  trim (signed negative body) = signed negative body.
Proof.
  intros E Hb (a & r & Ea & Ha). pose proof (digit_solid b Hb) as Sb.
  destruct negative; unfold signed; cbn [String.append].
  - apply (trim_solid "-" body b (String "-" t)); [done|done|]. by rewrite E.
  - rewrite Ea. apply (trim_solid a r b t); [by apply digit_solid|done|]. by rewrite <- Ea.
Qed.

(** Digits with an optional fraction, as the formatter writes them. *)
Definition decimal_body (whole frac : string) : string :=
  if bool_decide (frac = EmptyString) then whole else whole +:+ String "." frac.

(** What the parser makes of a sign and a magnitude. *)
Definition apply_sign (negative : bool) (magnitude s : Z) : option Decimal128 :=
  if negative then
    if magnitude <=? i128_max then Some (mkDecimal (- magnitude) s)
    else if magnitude =? i128_max + 1 then Some (mkDecimal i128_min s) else None
  else if magnitude <=? i128_max then Some (mkDecimal magnitude s) else None.

Lemma parse_signed negative whole frac magnitude :
  whole <> EmptyString -> all_chars is_digit whole = true -> all_chars is_digit frac = true ->
  str_len frac <= 255 -> parse_digits u128_max 0 (whole +:+ frac) = Ok magnitude ->
  parse (signed negative (decimal_body whole frac)) = apply_sign negative magnitude (str_len frac).
Proof.
  intros Hne Hw Hf Hlen Hmag. destruct whole as [|a w] eqn:Ew; [done|].
  assert (is_digit a = true) as Ha by by apply andb_true_iff in Hw as [? _].
  assert (exists r, decimal_body (String a w) frac = String a r) as [r Er].
  { unfold decimal_body. case_bool_decide; by eexists. }
  assert (trim (signed negative (decimal_body (String a w) frac)) = signed negative (decimal_body (String a w) frac)) as Et.
  { destruct (digits_end (if bool_decide (frac = EmptyString) then String a w else frac)) as (t & b & E & Hb).
    - case_bool_decide; done.
    - by case_bool_decide.
    - eapply (signed_trim _ _ (if bool_decide (frac = EmptyString) then t else String a w +:+ String "." t) b);
        [|done|rewrite Er; eauto].
      unfold decimal_body. case_bool_decide; [done|]. rewrite E. by rewrite string_app_assoc. }
  unfold parse. rewrite Et. rewrite bool_decide_eq_false_2 by (rewrite Er; by destruct negative).
  replace (match strip_prefix "-" (signed negative (decimal_body (String a w) frac)) with
           | Some rest => (true, rest)
           | None => (false, default (signed negative (decimal_body (String a w) frac))
                       (strip_prefix "+" (signed negative (decimal_body (String a w) frac))))
           end) with (negative, decimal_body (String a w) frac).
  2: { rewrite Er. destruct negative; unfold signed; cbn; [done|].
       rewrite !bool_decide_eq_false_2 by (by intros <-). done. }
  rewrite bool_decide_eq_false_2 by by rewrite Er.
  replace (default (decimal_body (String a w) frac, EmptyString) (split_once "." (decimal_body (String a w) frac)))
    with (String a w, frac).
  2: { unfold decimal_body. case_bool_decide as E; [by rewrite split_once_none, E by (by apply (contains_char_all _ is_digit))|by rewrite split_once_app by (by apply (contains_char_all _ is_digit))]. }
  rewrite (bool_decide_eq_false_2 (String a w = EmptyString)), Hw, Hf by done. cbn [andb orb negb].
  rewrite (proj2 (Z.ltb_ge _ _)) by done. rewrite bool_decide_eq_false_2 by done.
  rewrite parse_digits_only, Hmag by (done || rewrite all_chars_app, Hw, Hf; done). done.
Qed.

Lemma pretty_signed m : pretty m = signed (m <? 0) (pretty (Z.abs m)).
Proof. by destruct m. Qed.

Lemma pretty_length z : 0 <= z -> (0 < String.length (pretty z))%nat.
Proof. intros Hz. pose proof (pretty_nonempty z Hz). destruct (pretty z); [done|cbn; lia]. Qed.

(** The whole and fractional digits the formatter splits a mantissa into. *)
Lemma to_decimal_string_parts d :
  wf d ->
  exists whole frac, to_decimal_string d = signed (mantissa d <? 0) (decimal_body whole frac) /\
    whole <> EmptyString /\ all_chars is_digit whole = true /\ all_chars is_digit frac = true /\
    str_len frac = scale d /\ parse_digits u128_max 0 (whole +:+ frac) = Ok (Z.abs (mantissa d)).
Proof.
  intros [Hm Hs]. unfold to_decimal_string.
  assert (0 <= Z.abs (mantissa d) <= u128_max) as Hrange by (unfold i128_min, i128_max, u128_max in *; lia).
  pose proof (pretty_digits (Z.abs (mantissa d)) ltac:(lia)) as Hd.
  pose proof (parse_digits_pretty u128_max _ Hrange) as Hp.
  pose proof (pretty_nonempty (Z.abs (mantissa d)) ltac:(lia)) as Hne.
  destruct (Z.eqb_spec (scale d) 0) as [E0|E0].
  { exists (pretty (Z.abs (mantissa d))), EmptyString. rewrite string_app_nil_r, E0. split_and!; try done.
    unfold decimal_body. rewrite bool_decide_eq_true_2 by done. apply pretty_signed. }
  set (digits := pretty (Z.abs (mantissa d))) in *. set (n := Z.to_nat (scale d)).
  destruct (Nat.ltb_spec n (String.length digits)) as [Hlt|Hge].
  - set (k := (String.length digits - n)%nat). exists (str_take k digits), (str_drop k digits).
    assert (String.length (str_drop k digits) = n) as Hl by (rewrite str_drop_length; lia).
    pose proof (str_take_drop k digits) as Etd. rewrite <- Etd, all_chars_app in Hd.
    apply andb_true_iff in Hd as [Hd1 Hd2]. split_and!; try done.
    + unfold decimal_body. rewrite bool_decide_eq_false_2; [done|]. intros E. rewrite E in Hl. cbn in Hl. lia.
    + unfold k. destruct (String.length digits - n)%nat eqn:Ek; [lia|]. by destruct digits.
    + unfold str_len. rewrite Hl. lia.
    + by rewrite Etd.
  - exists "0", (repeat_char "0" (n - String.length digits) +:+ digits). split_and!; try done.
    + unfold decimal_body. rewrite bool_decide_eq_false_2; [done|]. intros E.
      apply (f_equal String.length) in E. rewrite length_append in E.
      pose proof (pretty_length (Z.abs (mantissa d)) ltac:(lia)). fold digits in H. cbn in E. lia.
    + rewrite all_chars_app, Hd, andb_true_r. clear. by induction (n - String.length digits)%nat.
    + unfold str_len. rewrite length_append, length_repeat_char. lia.
    + change ("0" +:+ repeat_char "0" (n - String.length digits) +:+ digits)
        with (repeat_char "0" (S (n - String.length digits)) +:+ digits).
      rewrite parse_zeros; done.
Qed.

(** Decimal text round-trips: every value, the smallest 128-bit mantissa and values
    below one included, parses back from the text it is printed as, with the same scale. *)
Theorem decimal_text_round_trip (d : Decimal128) (Hd : wf d) : parse (to_decimal_string d) = Some d.
Proof.
  destruct (to_decimal_string_parts d Hd) as (whole & frac & -> & Hne & Hw & Hf & Hs & Hp).
  destruct Hd as [Hm Hsc]. rewrite (parse_signed _ _ _ _ Hne Hw Hf ltac:(lia) Hp), Hs. unfold apply_sign.
  destruct d as [m s]. cbn [mantissa scale] in *. destruct (Z.ltb_spec m 0).
  - destruct (Z.leb_spec (Z.abs m) i128_max); [by replace (- Z.abs m) with m by lia|].
    rewrite (proj2 (Z.eqb_eq _ _)) by (unfold i128_min, i128_max in *; lia).
    by replace m with i128_min by (unfold i128_min, i128_max in *; lia).
  - rewrite (proj2 (Z.leb_le _ _)) by lia. by rewrite Z.abs_eq.
Qed.

Lemma decimal_text_round_trip_witness :
  to_decimal_string (mkDecimal (-5) 3) = "-0.005" /\ parse "-0.005" = Some (mkDecimal (-5) 3).
Proof.
  split; [by vm_compute|]. apply (decimal_text_round_trip (mkDecimal (-5) 3)).
  unfold wf, i128_min, i128_max. cbn. lia.
Defined.

End DecimalProps.
