(* ===== verification/PgFrontend.v ===== *)
(** * The PostgreSQL wire protocol: frontend (crates/protocol/src/lib.rs)

    Startup packets, the frontend message parser, the session life cycle and the ready-loop
    state of the extended protocol.  A payload is read from the front: the list that is
    passed on is [payload[offset..]]. *)

From stdpp Require Import base strings list.
From Stdlib Require Import Strings.Byte.
From S2P Require Import Prelude Types Bytes.

Module Pg.

(** ** Integers and C strings *)

(** Two's complement of an unsigned value of [bits] bits. *)
Definition to_signed (bits z : Z) : Z := if z <? 2 ^ (bits - 1) then z else z - 2 ^ bits.

(** The bytes before the first NUL, and those after it. *)
Fixpoint split_nul (l : list byte) : option (list byte * list byte) :=
  match l with
  | [] => None
  | b :: l =>
      if byte_val b =? 0 then Some ([], l)
      else match split_nul l with Some (s, rest) => Some (b :: s, rest) | None => None end
  end.

Definition utf8 {E} (bytes : list byte) (invalid : E) : result string E :=
  match from_utf8 bytes with Ok s => Ok s | Err _ => Err invalid end.

(** [payload.get(offset..offset + n)] *)
Definition get {E} (n : nat) (rest : list byte) (missing : E) : result (list byte * list byte) E :=
  if (length rest <? n)%nat then Err missing else Ok (take n rest, drop n rest).

(** ** Startup packets *)

Definition PG_SSL_REQUEST_CODE : Z := 80877103.
Definition PG_GSSENC_REQUEST_CODE : Z := 80877104.
Definition PG_CANCEL_REQUEST_CODE : Z := 80877102.
Definition PG_CANCEL_SECRET_KEY_MAX_BYTES : Z := 256.
Definition PG_PROTOCOL_MAJOR_V3 : Z := 3.

Inductive StartupPacket :=
| Startup (protocol_version : Z) (params : list (string * string))
| SslRequest
| GssEncRequest
| CancelRequest (process_id : Z) (secret_key : list byte).

Inductive StartupPacketError :=
| StartupTooShort
| StartupInvalidLengthField (declared : Z)
| StartupLengthMismatch (expected actual : Z)
| InvalidCancelKeyLength (actual max : Z)
| UnsupportedProtocolCode (code : Z)
| UnterminatedParameterPayload
| InvalidParameterPairing
| StartupInvalidUtf8.

Definition read_u32_be (bytes : list byte) : result Z StartupPacketError :=
  if (length bytes =? 4)%nat then Ok (from_be_bytes bytes) else Err StartupTooShort.

Definition protocol_major (version : Z) : Z := Z.shiftr version 16 mod 65536.

(** [split(|b| *b == 0)]: always at least one segment. *)
Fixpoint split_on_nul (l : list byte) : list (list byte) :=
  match l with
  | [] => [[]]
  | b :: l =>
      if byte_val b =? 0 then [] :: split_on_nul l
      else
        match split_on_nul l with
        | [] => [[b]]
        | s :: segments => (b :: s) :: segments
        end
  end.

(** [chunks_exact(2)] over the segments. *)
Fixpoint pair_params (segments : list (list byte)) : result (list (string * string)) StartupPacketError :=
  match segments with
  | key :: value :: rest =>
      if (length key =? 0)%nat then Err InvalidParameterPairing
      else
        let? key := utf8 key StartupInvalidUtf8 in
        let? value := utf8 value StartupInvalidUtf8 in
        let? params := pair_params rest in
        Ok ((key, value) :: params)
  | _ => Ok []
  end.

Definition parse_startup_params (payload : list byte) : result (list (string * string)) StartupPacketError :=
  match last payload with
  | None => Err UnterminatedParameterPayload
  | Some b =>
      if negb (byte_val b =? 0) then Err UnterminatedParameterPayload
      else
        let segments := split_on_nul (take (length payload - 1) payload) in
        let segments :=
          match last segments with
          | Some [] => take (length segments - 1) segments
          | _ => segments
          end in
        if negb (Nat.even (length segments)) then Err InvalidParameterPairing
        else pair_params segments
  end.

Definition parse_startup_packet (frame : list byte) : result StartupPacket StartupPacketError :=
  if (length frame <? 8)%nat then Err StartupTooShort
  else
    let? frame_len := read_u32_be (take 4 frame) in
    if frame_len <? 8 then Err (StartupInvalidLengthField frame_len)
    else if negb (frame_len =? vec_len frame) then Err (StartupLengthMismatch frame_len (vec_len frame))
    else
      let? code := read_u32_be (take 4 (drop 4 frame)) in
      if code =? PG_SSL_REQUEST_CODE then
        if negb (frame_len =? 8) then Err (StartupLengthMismatch 8 frame_len) else Ok SslRequest
      else if code =? PG_GSSENC_REQUEST_CODE then
        if negb (frame_len =? 8) then Err (StartupLengthMismatch 8 frame_len) else Ok GssEncRequest
      else if code =? PG_CANCEL_REQUEST_CODE then
        if frame_len <? 16 then Err (StartupLengthMismatch 16 frame_len)
        else
          let? process_id := read_u32_be (take 4 (drop 8 frame)) in
          let secret_key := drop 12 frame in
          if PG_CANCEL_SECRET_KEY_MAX_BYTES <? vec_len secret_key then
            Err (InvalidCancelKeyLength (vec_len secret_key) PG_CANCEL_SECRET_KEY_MAX_BYTES)
          else Ok (CancelRequest process_id secret_key)
      else if protocol_major code =? PG_PROTOCOL_MAJOR_V3 then
        let? params := parse_startup_params (drop 8 frame) in
        Ok (Startup code params)
      else Err (UnsupportedProtocolCode code).

(** ** Frontend messages *)

Inductive DescribeTarget := Statement | Portal.

Inductive FrontendMessage :=
| SimpleQuery (query : string)
| PasswordMessage (password : string)
| SaslInitialResponse (mechanism : string) (initial_response : option (list byte))
| SaslResponse (data : list byte)
| Bind (portal_name statement_name : string) (parameter_format_codes : list Z)
    (parameters : list (option (list byte))) (result_format_codes : list Z)
| Parse (statement_name query : string) (parameter_type_oids : list Z)
| Describe (target : DescribeTarget) (name : string)
| Close (target : DescribeTarget) (name : string)
| Execute (portal_name : string) (max_rows : Z)
| FunctionCall (function_oid : Z) (argument_format_codes : list Z)
    (arguments : list (option (list byte))) (result_format_code : Z)
| CopyData (data : list byte)
| CopyDone
| CopyFail (reason : string)
| Terminate
| Sync
| Flush.

Inductive FrontendMessageError :=
| TooShort
| InvalidLengthField (declared : Z)
| LengthMismatch (expected actual : Z)
| UnsupportedTag (tag : byte)
| UnterminatedSimpleQuery
| UnterminatedPasswordMessage
| InvalidSaslInitialResponsePayload
| UnterminatedBindPortalName
| UnterminatedBindStatementName
| InvalidBindPayload
| UnterminatedParseStatementName
| UnterminatedParseQuery
| InvalidParseParameterPayload
| InvalidDescribeTarget
| UnterminatedDescribeName
| InvalidCloseTarget
| UnterminatedCloseName
| UnterminatedExecutePortalName
| InvalidExecutePayload
| InvalidFunctionCallPayload
| UnterminatedCopyFail
| InvalidUtf8.

Definition parsed (A : Type) : Type := result A FrontendMessageError.

Definition is_valid_format_code (code : Z) : bool := (code =? 0) || (code =? 1).

Definition parse_cstring_payload (payload : list byte) (unterminated : FrontendMessageError)
    : parsed (list byte) :=
  match last payload with
  | Some b =>
      if byte_val b =? 0 then
        let bytes := take (length payload - 1) payload in
        if List.existsb (fun b => byte_val b =? 0) bytes then Err unterminated else Ok bytes
      else Err unterminated
  | None => Err unterminated
  end.

(** The closures [read_i16] of the bind and function-call parsers. *)
Definition read_i16 (e : FrontendMessageError) (rest : list byte) : parsed (Z * list byte) :=
  let? (bytes, rest) := get 2 rest e in
  Ok (to_signed 16 (from_be_bytes bytes), rest).

Definition read_i32 (e : FrontendMessageError) (rest : list byte) : parsed (Z * list byte) :=
  let? (bytes, rest) := get 4 rest e in
  Ok (to_signed 32 (from_be_bytes bytes), rest).

(** A count, refused when negative. *)
Definition read_count (e : FrontendMessageError) (rest : list byte) : parsed (nat * list byte) :=
  let? (count, rest) := read_i16 e rest in
  if count <? 0 then Err e else Ok (Z.to_nat count, rest).

(** [for _ in 0..format_count]; [valid] is the check of the function-call parser. *)
Fixpoint read_codes (e : FrontendMessageError) (valid : Z -> bool) (count : nat) (rest : list byte)
    : parsed (list Z * list byte) :=
  match count with
  | O => Ok ([], rest)
  | S count =>
      let? (code, rest) := read_i16 e rest in
      if valid code then
        let? (codes, rest) := read_codes e valid count rest in
        Ok (code :: codes, rest)
      else Err e
  end.

(** One length-prefixed value; -1 is NULL. *)
Definition read_value (e : FrontendMessageError) (rest : list byte) : parsed (option (list byte) * list byte) :=
  let? (len, rest) := read_i32 e rest in
  if len =? -1 then Ok (None, rest)
  else if len <? -1 then Err e
  else
    let? (value, rest) := get (Z.to_nat len) rest e in
    Ok (Some value, rest).

Fixpoint read_values (e : FrontendMessageError) (count : nat) (rest : list byte)
    : parsed (list (option (list byte)) * list byte) :=
  match count with
  | O => Ok ([], rest)
  | S count =>
      let? (value, rest) := read_value e rest in
      let? (values, rest) := read_values e count rest in
      Ok (value :: values, rest)
  end.

Definition read_name (e : FrontendMessageError) (rest : list byte) : parsed (string * list byte) :=
  match split_nul rest with
  | None => Err e
  | Some (bytes, rest) =>
      let? name := utf8 bytes InvalidUtf8 in
      Ok (name, rest)
  end.

Definition finish {A} (e : FrontendMessageError) (rest : list byte) (a : A) : parsed A :=
  match rest with [] => Ok a | _ => Err e end.

Definition parse_cstring (payload : list byte) (unterminated : FrontendMessageError) : parsed string :=
  let? bytes := parse_cstring_payload payload unterminated in
  utf8 bytes InvalidUtf8.

(** Tag [p]: a password, a SASL initial response or a SASL response. *)
Definition parse_p (payload : list byte) : parsed FrontendMessage :=
  match parse_cstring_payload payload UnterminatedPasswordMessage with
  | Ok password =>
      let? password := utf8 password InvalidUtf8 in
      Ok (PasswordMessage password)
  | Err _ =>
      match split_nul payload with
      | Some (mechanism, rest) =>
          if (length mechanism =? 0)%nat then Err InvalidSaslInitialResponsePayload
          else
            let? mechanism := utf8 mechanism InvalidUtf8 in
            let? (len, rest) := read_i32 InvalidSaslInitialResponsePayload rest in
            if len =? -1 then
              finish InvalidSaslInitialResponsePayload rest (SaslInitialResponse mechanism None)
            else if len <? -1 then Err InvalidSaslInitialResponsePayload
            else if negb (vec_len rest =? len) then Err InvalidSaslInitialResponsePayload
            else Ok (SaslInitialResponse mechanism (Some rest))
      | None => Ok (SaslResponse payload)
      end
  end.

Definition parse_bind (payload : list byte) : parsed FrontendMessage :=
  let? (portal_name, rest) := read_name UnterminatedBindPortalName payload in
  let? (statement_name, rest) := read_name UnterminatedBindStatementName rest in
  let? (format_count, rest) := read_count InvalidBindPayload rest in
  let? (parameter_format_codes, rest) := read_codes InvalidBindPayload (fun _ => true) format_count rest in
  let? (parameter_count, rest) := read_count InvalidBindPayload rest in
  let? (parameters, rest) := read_values InvalidBindPayload parameter_count rest in
  let? (result_format_count, rest) := read_count InvalidBindPayload rest in
  let? (result_format_codes, rest) := read_codes InvalidBindPayload (fun _ => true) result_format_count rest in
  finish InvalidBindPayload rest
    (Bind portal_name statement_name parameter_format_codes parameters result_format_codes).

(** [chunks_exact(4)] *)
Fixpoint read_oids (count : nat) (rest : list byte) : list Z :=
  match count with
  | O => []
  | S count => from_be_bytes (take 4 rest) :: read_oids count (drop 4 rest)
  end.

Definition parse_parse (payload : list byte) : parsed FrontendMessage :=
  let? (statement_name, rest) := read_name UnterminatedParseStatementName payload in
  let? (query, rest) := read_name UnterminatedParseQuery rest in
  let? (type_count, rest) := read_count InvalidParseParameterPayload rest in
  if negb (length rest =? type_count * 4)%nat then Err InvalidParseParameterPayload
  else Ok (Parse statement_name query (read_oids type_count rest)).

Definition parse_target (b : byte) (invalid : FrontendMessageError) : parsed DescribeTarget :=
  match b with
  | "S" | "s" => Ok Statement
  | "P" | "p" => Ok Portal
  | _ => Err invalid
  end%byte.

(** Tags [D] and [C]. *)
Definition parse_targeted (make : DescribeTarget -> string -> FrontendMessage)
    (invalid unterminated : FrontendMessageError) (payload : list byte) : parsed FrontendMessage :=
  match payload with
  | [] => Err TooShort
  | b :: rest =>
      let? target := parse_target b invalid in
      let? name := parse_cstring rest unterminated in
      Ok (make target name)
  end.

Definition parse_execute (payload : list byte) : parsed FrontendMessage :=
  let? (portal_name, rest) := read_name UnterminatedExecutePortalName payload in
  let? (max_rows, rest) := read_i32 InvalidExecutePayload rest in
  match rest with
  | _ :: _ => Err InvalidExecutePayload
  | [] => if max_rows <? 0 then Err InvalidExecutePayload else Ok (Execute portal_name max_rows)
  end.

Definition parse_function_call (payload : list byte) : parsed FrontendMessage :=
  let e := InvalidFunctionCallPayload in
  let? (oid, rest) := get 4 payload e in
  let? (format_count, rest) := read_count e rest in
  let? (argument_format_codes, rest) := read_codes e is_valid_format_code format_count rest in
  let? (arg_count, rest) := read_count e rest in
  if negb (length argument_format_codes =? 0)%nat && negb (length argument_format_codes =? 1)%nat &&
     negb (length argument_format_codes =? arg_count)%nat then Err e
  else
    let? (arguments, rest) := read_values e arg_count rest in
    let? (result_format_code, rest) := read_i16 e rest in
    if negb (is_valid_format_code result_format_code) then Err e
    else finish e rest (FunctionCall (from_be_bytes oid) argument_format_codes arguments result_format_code).

(** Tags without a payload. *)
Definition parse_empty (frame : list byte) (payload_len : Z) (message : FrontendMessage) : parsed FrontendMessage :=
  if negb (payload_len =? 4) then Err (LengthMismatch 5 (vec_len frame)) else Ok message.

Definition parse_frontend_message (frame : list byte) : parsed FrontendMessage :=
  match frame with
  | tag :: rest =>
      if (length frame <? 5)%nat then Err TooShort
      else
        let payload_len := from_be_bytes (take 4 rest) in
        if payload_len <? 4 then Err (InvalidLengthField payload_len)
        else if negb (payload_len + 1 =? vec_len frame) then
          Err (LengthMismatch (payload_len + 1) (vec_len frame))
        else
          let payload := drop 4 rest in
          match tag with
          | "Q" => let? query := parse_cstring payload UnterminatedSimpleQuery in Ok (SimpleQuery query)
          | "p" => parse_p payload
          | "B" => parse_bind payload
          | "P" => parse_parse payload
          | "D" => parse_targeted Describe InvalidDescribeTarget UnterminatedDescribeName payload
          | "C" => parse_targeted Close InvalidCloseTarget UnterminatedCloseName payload
          | "E" => parse_execute payload
          | "F" => parse_function_call payload
          | "d" => Ok (CopyData payload)
          | "c" => parse_empty frame payload_len CopyDone
          | "f" => let? reason := parse_cstring payload UnterminatedCopyFail in Ok (CopyFail reason)
          | "X" => parse_empty frame payload_len Terminate
          | "S" => parse_empty frame payload_len Sync
          | "H" => parse_empty frame payload_len Flush
          | other => Err (UnsupportedTag other)
          end%byte
  | [] => Err TooShort
  end.

(** ** The session life cycle *)

Inductive SessionState := SStartup | Authenticating | Ready | InTransaction | Terminating | Closed.

Inductive SessionEvent :=
| StartupAccepted | AuthenticationSucceeded | Begin | Commit | Rollback | TerminateRequested
| ConnectionClosed.

Inductive SessionTransitionError := InvalidTransition (from : SessionState) (event : SessionEvent).

#[export] Instance SessionState_eq_dec : EqDecision SessionState.
Proof. solve_decision. Defined.

#[export] Instance SessionEvent_eq_dec : EqDecision SessionEvent.
Proof. solve_decision. Defined.

(** [SessionLifecycle::default()] *)
Definition lifecycle_default : SessionState := SStartup.

(** [SessionLifecycle::apply]: the new state with its result; an error leaves the state. *)
Definition lifecycle_apply (state : SessionState) (event : SessionEvent)
    : SessionState * result SessionState SessionTransitionError :=
  let next :=
    match state, event with
    | SStartup, StartupAccepted => Some Authenticating
    | Authenticating, AuthenticationSucceeded => Some Ready
    | Ready, Begin => Some InTransaction
    | InTransaction, Commit | InTransaction, Rollback => Some Ready
    | Ready, TerminateRequested | InTransaction, TerminateRequested => Some Terminating
    | Terminating, ConnectionClosed => Some Closed
    | SStartup, ConnectionClosed | Authenticating, ConnectionClosed
    | Ready, ConnectionClosed | InTransaction, ConnectionClosed => Some Closed
    | _, _ => None
    end in
  match next with
  | Some next => (next, Ok next)
  | None => (state, Err (InvalidTransition state event))
  end.

(** ** The ready loop *)

Inductive TransactionStatus := Idle | TxInTransaction | FailedTransaction.

Record ReadyLoopState := mkReadyLoop {
  transaction_status : TransactionStatus;
  skip_until_sync : bool;
}.

Definition ready_for_query_in_transaction (s : TransactionStatus) : bool :=
  match s with Idle => false | _ => true end.

Definition ready_default : ReadyLoopState := mkReadyLoop Idle false.

Definition from_flags (in_transaction skip : bool) : ReadyLoopState :=
  mkReadyLoop (if in_transaction then TxInTransaction else Idle) skip.

Definition in_transaction (s : ReadyLoopState) : bool :=
  ready_for_query_in_transaction (transaction_status s).

Definition should_dispatch_extended_message (s : ReadyLoopState) : bool := negb (skip_until_sync s).

Definition set_transaction_status (s : ReadyLoopState) (status : TransactionStatus) : ReadyLoopState :=
  mkReadyLoop status (skip_until_sync s).

Definition mark_extended_error (s : ReadyLoopState) : ReadyLoopState :=
  mkReadyLoop (transaction_status s) true.

Definition clear_extended_error_on_sync (s : ReadyLoopState) (copy_stream_active : bool)
    : ReadyLoopState * bool :=
  if copy_stream_active then (s, false) else (mkReadyLoop (transaction_status s) false, true).

End Pg.
