(* ===== verification/PgFrontendFacts.v ===== *)
(** * The frontend parser: grammar and reader lemmas

    The frames of the PostgreSQL frontend protocol, written as an encoder, and for each reader
    of the parser the exact set of inputs it accepts. *)

From stdpp Require Import base strings list.
From coqutil Require Import Byte Word.LittleEndianList.
From Stdlib Require Import Strings.Ascii.
From S2P Require Import Prelude Types Bytes PgFrontend.

Module PgFacts.
Import Pg.

(** ** Bytes *)

Lemma from_to_be_bytes_mod n z : from_be_bytes (to_be_bytes n z) = z mod 2 ^ (Z.of_nat n * 8).
Proof. unfold from_be_bytes, to_be_bytes. by rewrite rev_involutive, le_combine_split. Qed.

Lemma to_be_bytes_mod n z : to_be_bytes n (z mod 2 ^ (Z.of_nat n * 8)) = to_be_bytes n z.
Proof. rewrite <- from_to_be_bytes_mod. apply to_from_be_bytes, length_to_be_bytes. Qed.

Lemma byte_val_0 b : byte_val b = 0 <-> b = x00.
Proof. split; [|by intros ->]. by destruct b. Qed.

Definition no_nul (l : list byte) : Prop := Forall (fun b => b <> x00) l.

Lemma split_nul_app s r : no_nul s -> split_nul (s ++ x00 :: r) = Some (s, r).
Proof.
  induction 1 as [|b s Hb _ IH]; cbn; [done|]. rewrite IH.
  destruct (Z.eqb_spec (byte_val b) 0) as [H0|]; [|done]. by apply byte_val_0 in H0.
Qed.

Lemma split_nul_Some l s r : split_nul l = Some (s, r) <-> no_nul s /\ l = s ++ x00 :: r.
Proof.
  split; [|by intros [? ->]; apply split_nul_app].
  revert s. induction l as [|b l IH]; intros s; cbn; [done|].
  destruct (Z.eqb_spec (byte_val b) 0) as [Hb|Hb]; rewrite byte_val_0 in Hb.
  - subst b. intros [= <- <-]. split; [constructor|done].
  - destruct (split_nul l) as [[s' r']|]; [|done]. intros [= <- <-].
    destruct (IH s' eq_refl) as [? ->]. split; [by constructor|done].
Qed.

Lemma split_nul_None l : split_nul l = None <-> no_nul l.
Proof.
  induction l as [|b l IH]; cbn; [split; [constructor|done]|].
  destruct (Z.eqb_spec (byte_val b) 0) as [Hb|Hb]; rewrite byte_val_0 in Hb.
  { subst b. split; [done|]. by inversion 1. }
  destruct (split_nul l) as [[s r]|]; split; try done.
  - intros [_ Hl]%Forall_cons. discriminate (proj2 IH Hl).
  - intros _. constructor; [done|by apply IH].
Qed.

Lemma existsb_nul l : List.existsb (fun b => byte_val b =? 0) l = false <-> no_nul l.
Proof.
  unfold no_nul. induction l as [|b l IH]; cbn; [split; [constructor|done]|].
  rewrite orb_false_iff, IH, Forall_cons, Z.eqb_neq, byte_val_0. done.
Qed.

(** ** Signed integers *)

Definition signed (bits z : Z) : Prop := - 2 ^ (bits - 1) <= z < 2 ^ (bits - 1).

Lemma to_signed_bytes n z :
  (0 < n)%nat -> signed (Z.of_nat n * 8) z ->
  to_signed (Z.of_nat n * 8) (from_be_bytes (to_be_bytes n z)) = z.
Proof.
  intros Hn Hz. rewrite from_to_be_bytes_mod. unfold signed, to_signed in *.
  set (b := Z.of_nat n * 8) in *. assert (2 ^ b = 2 * 2 ^ (b - 1)) as Hb.
  { rewrite <- Z.pow_succ_r by lia. f_equal. lia. }
  destruct (decide (0 <= z)).
  - rewrite Z.mod_small by lia. destruct (Z.ltb_spec z (2 ^ (b - 1))); lia.
  - rewrite <- (Z.mod_unique_pos z (2 ^ b) (-1) (z + 2 ^ b)) by lia.
    destruct (Z.ltb_spec (z + 2 ^ b) (2 ^ (b - 1))); lia.
Qed.

Lemma signed_of_bytes n l :
  (0 < n)%nat -> length l = n ->
  signed (Z.of_nat n * 8) (to_signed (Z.of_nat n * 8) (from_be_bytes l)) /\
  to_be_bytes n (to_signed (Z.of_nat n * 8) (from_be_bytes l)) = l.
Proof.
  intros Hn Hl. pose proof (from_be_bytes_range l) as Hr. rewrite Hl in Hr.
  replace (8 * Z.of_nat n) with (Z.of_nat n * 8) in Hr by lia.
  unfold signed, to_signed. set (b := Z.of_nat n * 8) in *.
  assert (2 ^ b = 2 * 2 ^ (b - 1)) as Hb. { rewrite <- Z.pow_succ_r by lia. f_equal. lia. }
  destruct (Z.ltb_spec (from_be_bytes l) (2 ^ (b - 1))); (split; [lia|]).
  - by apply to_from_be_bytes.
  - rewrite <- to_be_bytes_mod. fold b.
    rewrite <- (Z.mod_unique_pos (from_be_bytes l - 2 ^ b) (2 ^ b) (-1) (from_be_bytes l)) by lia.
    by apply to_from_be_bytes.
Qed.

(** ** Frames *)

Definition name_ok (s : string) : Prop := utf8_valid s /\ no_nul (as_bytes s).

Definition value_ok (v : option (list byte)) : Prop :=
  match v with Some l => vec_len l < 2 ^ 31 | None => True end.

Definition c_bytes (s : string) : list byte := as_bytes s ++ [x00].

Definition value_bytes (v : option (list byte)) : list byte :=
  match v with
  | Some l => to_be_bytes 4 (vec_len l) ++ l
  | None => to_be_bytes 4 (-1)
  end.

Definition count_bytes {A} (l : list A) : list byte := to_be_bytes 2 (vec_len l).

Definition codes_bytes (l : list Z) : list byte := l ≫= to_be_bytes 2.

Definition oids_bytes (l : list Z) : list byte := l ≫= to_be_bytes 4.

Definition values_bytes (l : list (option (list byte))) : list byte := l ≫= value_bytes.

Definition count_ok {A} (l : list A) : Prop := vec_len l < 2 ^ 15.

(** The target byte is accepted in either case. *)
Definition target_byte (lower : bool) (t : DescribeTarget) : byte :=
  match t, lower with
  | Statement, false => "S"
  | Statement, true => "s"
  | Portal, false => "P"
  | Portal, true => "p"
  end%byte.

Definition tag_of (m : FrontendMessage) : byte :=
  match m with
  | SimpleQuery _ => "Q"
  | PasswordMessage _ | SaslInitialResponse _ _ | SaslResponse _ => "p"
  | Bind _ _ _ _ _ => "B"
  | Parse _ _ _ => "P"
  | Describe _ _ => "D"
  | Close _ _ => "C"
  | Execute _ _ => "E"
  | FunctionCall _ _ _ _ => "F"
  | CopyData _ => "d"
  | CopyDone => "c"
  | CopyFail _ => "f"
  | Terminate => "X"
  | Sync => "S"
  | Flush => "H"
  end%byte.

Definition payload_of (lower : bool) (m : FrontendMessage) : list byte :=
  match m with
  | SimpleQuery s | PasswordMessage s | CopyFail s => c_bytes s
  | SaslInitialResponse mechanism response => c_bytes mechanism ++ value_bytes response
  | SaslResponse data | CopyData data => data
  | Bind portal statement formats params results =>
      c_bytes portal ++ c_bytes statement ++ count_bytes formats ++ codes_bytes formats ++
      count_bytes params ++ values_bytes params ++ count_bytes results ++ codes_bytes results
  | Parse statement query oids =>
      c_bytes statement ++ c_bytes query ++ count_bytes oids ++ oids_bytes oids
  | Describe target name | Close target name => target_byte lower target :: c_bytes name
  | Execute portal max_rows => c_bytes portal ++ to_be_bytes 4 max_rows
  | FunctionCall oid formats args result =>
      to_be_bytes 4 oid ++ count_bytes formats ++ codes_bytes formats ++
      count_bytes args ++ values_bytes args ++ to_be_bytes 2 result
  | CopyDone | Terminate | Sync | Flush => []
  end.

Definition fields_ok (m : FrontendMessage) : Prop :=
  match m with
  | SimpleQuery s | PasswordMessage s | CopyFail s => name_ok s
  | SaslInitialResponse mechanism response =>
      name_ok mechanism /\ mechanism <> EmptyString /\ value_ok response
  | SaslResponse data => no_nul data
  | Bind portal statement formats params results =>
      name_ok portal /\ name_ok statement /\ count_ok formats /\ Forall (signed 16) formats /\
      count_ok params /\ Forall value_ok params /\ count_ok results /\ Forall (signed 16) results
  | Parse statement query oids =>
      name_ok statement /\ name_ok query /\ count_ok oids /\ Forall (fun oid => 0 <= oid < 2 ^ 32) oids
  | Describe _ name | Close _ name => name_ok name
  | Execute portal max_rows => name_ok portal /\ 0 <= max_rows < 2 ^ 31
  | FunctionCall oid formats args result =>
      0 <= oid < 2 ^ 32 /\ count_ok formats /\ Forall (fun c => is_valid_format_code c = true) formats /\
      count_ok args /\ (formats = [] \/ length formats = 1%nat \/ length formats = length args) /\
      Forall value_ok args /\ is_valid_format_code result = true
  | CopyData _ | CopyDone | Terminate | Sync | Flush => True
  end.

(** A message as a frame: tag, length of what follows, payload. *)
Definition frame_of (lower : bool) (m : FrontendMessage) : list byte :=
  tag_of m :: to_be_bytes 4 (vec_len (payload_of lower m) + 4) ++ payload_of lower m.

Definition message_ok (m : FrontendMessage) : Prop :=
  fields_ok m /\ vec_len (payload_of false m) + 4 < 2 ^ 32.

(** ** Readers *)

Lemma get_Ok {E} n rest (e : E) a r : get n rest e = Ok (a, r) <-> length a = n /\ rest = a ++ r.
Proof.
  unfold get. destruct (Nat.ltb_spec (length rest) n); split; try done.
  - intros [? ->]. rewrite length_app in *. lia.
  - intros [= <- <-]. rewrite length_take, take_drop. split; [lia|done].
  - intros [<- ->]. by rewrite take_app_length, drop_app_length.
Qed.

Lemma read_signed_Ok n e rest z r :
  (0 < n)%nat ->
  (let? (bytes, rest) := get n rest e in
   @Ok (Z * list byte) FrontendMessageError (to_signed (Z.of_nat n * 8) (from_be_bytes bytes), rest)) = Ok (z, r) <->
  signed (Z.of_nat n * 8) z /\ rest = to_be_bytes n z ++ r.
Proof.
  intros Hn. split.
  - destruct (get n rest e) as [[a r']|] eqn:E; [|done]. apply get_Ok in E as [Ha ->].
    destruct (signed_of_bytes n a Hn Ha) as [Hs Hb]. intros [= <- <-]. by rewrite Hb.
  - intros [Hz ->]. rewrite (proj2 (get_Ok n _ e (to_be_bytes n z) r)) by (by rewrite length_to_be_bytes).
    by rewrite to_signed_bytes.
Qed.

Lemma read_i16_Ok e rest z r : read_i16 e rest = Ok (z, r) <-> signed 16 z /\ rest = to_be_bytes 2 z ++ r.
Proof. apply (read_signed_Ok 2). lia. Qed.

Lemma read_i32_Ok e rest z r : read_i32 e rest = Ok (z, r) <-> signed 32 z /\ rest = to_be_bytes 4 z ++ r.
Proof. apply (read_signed_Ok 4). lia. Qed.

Lemma read_count_Ok e rest n r :
  read_count e rest = Ok (n, r) <-> Z.of_nat n < 2 ^ 15 /\ rest = to_be_bytes 2 (Z.of_nat n) ++ r.
Proof.
  unfold read_count. split.
  - destruct (read_i16 e rest) as [[z r']|] eqn:E; [|done]. apply read_i16_Ok in E as [Hz ->].
    unfold signed in Hz. destruct (Z.ltb_spec z 0); [done|].
    intros [= <- <-]. rewrite Z2Nat.id by lia. split; [lia|done].
  - intros [Hn ->]. rewrite (proj2 (read_i16_Ok e _ (Z.of_nat n) r)) by (unfold signed; split; [lia|done]).
    destruct (Z.ltb_spec (Z.of_nat n) 0); [lia|]. by rewrite Nat2Z.id.
Qed.

Lemma read_codes_Ok e valid n rest l r :
  read_codes e valid n rest = Ok (l, r) <->
  length l = n /\ Forall (fun c => signed 16 c /\ valid c = true) l /\ rest = codes_bytes l ++ r.
Proof.
  split.
  - revert rest l. induction n as [|n IH]; intros rest l; cbn; [by intros [= <- <-]|].
    destruct (read_i16 e rest) as [[c r']|] eqn:E; [|done]. apply read_i16_Ok in E as [Hc ->].
    destruct (valid c) eqn:Hv; [|done].
    destruct (read_codes e valid n r') as [[cs r'']|] eqn:E; [|done].
    intros [= <- <-]. destruct (IH _ _ E) as (<- & Hl & ->). split_and!; [done|by constructor|].
    unfold codes_bytes. cbn. by rewrite <- app_assoc.
  - intros (<- & Hl & ->). induction Hl as [|c l [Hc Hv] _ IH]; cbn; [done|].
    rewrite <- app_assoc, (proj2 (read_i16_Ok e _ c (codes_bytes l ++ r))) by done.
    by rewrite Hv, IH.
Qed.

Lemma read_value_Ok e rest v r :
  read_value e rest = Ok (v, r) <-> value_ok v /\ rest = value_bytes v ++ r.
Proof.
  unfold read_value. split.
  - destruct (read_i32 e rest) as [[z r']|] eqn:E; [|done]. apply read_i32_Ok in E as [Hz ->].
    unfold signed in Hz. destruct (Z.eqb_spec z (-1)) as [->|]; [by intros [= <- <-]|].
    destruct (Z.ltb_spec z (-1)); [done|].
    destruct (get (Z.to_nat z) r' e) as [[a r'']|] eqn:E; [|done]. apply get_Ok in E as [Ha ->].
    intros [= <- <-]. cbn. unfold vec_len. rewrite Ha, Z2Nat.id by lia.
    by rewrite <- app_assoc; split; [lia|].
  - intros [Hv ->]. destruct v as [l|]; cbn in Hv |- *.
    + rewrite <- app_assoc. unfold vec_len in *.
      rewrite (proj2 (read_i32_Ok e _ (Z.of_nat (length l)) (l ++ r)))
        by (unfold signed; split; [lia|done]).
      destruct (Z.eqb_spec (Z.of_nat (length l)) (-1)); [lia|].
      destruct (Z.ltb_spec (Z.of_nat (length l)) (-1)); [lia|].
      by rewrite Nat2Z.id, (proj2 (get_Ok (length l) _ e l r)).
    + by rewrite (proj2 (read_i32_Ok e _ (-1) r)).
Qed.

Lemma read_values_Ok e n rest l r :
  read_values e n rest = Ok (l, r) <->
  length l = n /\ Forall value_ok l /\ rest = values_bytes l ++ r.
Proof.
  split.
  - revert rest l. induction n as [|n IH]; intros rest l; cbn; [by intros [= <- <-]|].
    destruct (read_value e rest) as [[v r']|] eqn:E; [|done]. apply read_value_Ok in E as [Hv ->].
    destruct (read_values e n r') as [[vs r'']|] eqn:E; [|done].
    intros [= <- <-]. destruct (IH _ _ E) as (<- & Hl & ->). split_and!; [done|by constructor|].
    unfold values_bytes. cbn. by rewrite <- app_assoc.
  - intros (<- & Hl & ->). induction Hl as [|v l Hv _ IH]; cbn; [done|].
    rewrite <- app_assoc, (proj2 (read_value_Ok e _ v (values_bytes l ++ r))) by done.
    by rewrite IH.
Qed.

Lemma utf8_Ok {E} bytes (e : E) s : utf8 bytes e = Ok s <-> utf8_valid s /\ as_bytes s = bytes.
Proof.
  unfold utf8. split.
  - destruct (from_utf8 bytes) as [s'|] eqn:E1; [|done]. intros [= <-]. by apply from_utf8_Ok in E1 as [? ?].
  - intros [Hs <-]. by rewrite from_utf8_as_bytes.
Qed.

Lemma read_name_Ok e rest s r : read_name e rest = Ok (s, r) <-> name_ok s /\ rest = c_bytes s ++ r.
Proof.
  unfold read_name, name_ok, c_bytes. split.
  - destruct (split_nul rest) as [[a r']|] eqn:E; [|done]. apply split_nul_Some in E as [Ha ->].
    destruct (utf8 a InvalidUtf8) as [s'|] eqn:E; [|done]. apply utf8_Ok in E as [Hs <-].
    intros [= <- <-]. by rewrite <- app_assoc.
  - intros [[Hu Hn] ->]. rewrite <- app_assoc. cbn. rewrite split_nul_app by done.
    by rewrite (proj2 (utf8_Ok _ _ s)).
Qed.

Lemma parse_cstring_payload_Ok payload e l :
  parse_cstring_payload payload e = Ok l <-> no_nul l /\ payload = l ++ [x00].
Proof.
  unfold parse_cstring_payload. split.
  - destruct (last payload) as [b|] eqn:E; [|done]. apply last_Some in E as [l' ->].
    rewrite length_app, Nat.add_sub, take_app_length.
    destruct (Z.eqb_spec (byte_val b) 0) as [Hb|]; [|done]. apply byte_val_0 in Hb as ->.
    destruct (existsb _ _) eqn:E; [done|]. intros [= <-]. by apply existsb_nul in E.
  - intros [Hl ->]. rewrite last_snoc, length_app, Nat.add_sub, take_app_length.
    by rewrite (proj2 (existsb_nul l) Hl).
Qed.

Lemma parse_cstring_Ok payload e s :
  parse_cstring payload e = Ok s <-> name_ok s /\ payload = c_bytes s.
Proof.
  unfold parse_cstring, name_ok, c_bytes. split.
  - destruct (parse_cstring_payload payload e) as [l|] eqn:E; [|done].
    apply parse_cstring_payload_Ok in E as [Hl ->]. intros [Hs <-]%utf8_Ok. done.
  - intros [[Hu Hn] ->]. rewrite (proj2 (parse_cstring_payload_Ok _ e (as_bytes s))) by done.
    by apply utf8_Ok.
Qed.

Lemma finish_Ok {A} e rest (a b : A) : finish e rest a = Ok b <-> rest = [] /\ b = a.
Proof. unfold finish. destruct rest; naive_solver. Qed.

(** The readers on the bytes they accept. *)
Section accept.
Variable e : FrontendMessageError.

Lemma read_name_app s r : name_ok s -> read_name e (c_bytes s ++ r) = Ok (s, r).
Proof. intros. by apply read_name_Ok. Qed.

Lemma read_count_app {A} (l : list A) r : count_ok l -> read_count e (count_bytes l ++ r) = Ok (length l, r).
Proof. intros. by apply read_count_Ok. Qed.

Lemma read_codes_app valid l r :
  Forall (fun c => signed 16 c /\ valid c = true) l ->
  read_codes e valid (length l) (codes_bytes l ++ r) = Ok (l, r).
Proof. intros. by apply read_codes_Ok. Qed.

Lemma read_values_app l r :
  Forall value_ok l -> read_values e (length l) (values_bytes l ++ r) = Ok (l, r).
Proof. intros. by apply read_values_Ok. Qed.

Lemma read_i16_app z r : signed 16 z -> read_i16 e (to_be_bytes 2 z ++ r) = Ok (z, r).
Proof. intros. by apply read_i16_Ok. Qed.

Lemma read_i32_app z r : signed 32 z -> read_i32 e (to_be_bytes 4 z ++ r) = Ok (z, r).
Proof. intros. by apply read_i32_Ok. Qed.

Lemma get_be_app n z r : get n (to_be_bytes n z ++ r) e = Ok (to_be_bytes n z, r).
Proof. apply get_Ok. by rewrite length_to_be_bytes. Qed.

End accept.

#[export] Hint Rewrite read_name_app read_count_app read_codes_app read_values_app read_i16_app
  read_i32_app get_be_app using (by eauto) : accept.

(** Take the next reader of a parser: it failed, or the input begins with what it read. *)
Ltac read_step :=
  match goal with
  | |- context [match ?r with Ok _ => _ | Err _ => _ end] =>
      let E := fresh "E" in
      destruct r as [[? ?]|] eqn:E; [|discriminate];
      first
        [ apply read_name_Ok in E as [? ->] | apply read_count_Ok in E as [? ->]
        | apply read_codes_Ok in E as (<- & ? & ->) | apply read_values_Ok in E as (<- & ? & ->)
        | apply read_i16_Ok in E as [? ->] | apply read_i32_Ok in E as [? ->]
        | apply get_Ok in E as [? ->] ]
  end.

(** ** One message *)

Definition reads (t : byte) (payload : list byte) (m : FrontendMessage) : Prop :=
  tag_of m = t /\ fields_ok m /\ exists lower, payload = payload_of lower m.

Lemma codes_signed l : Forall (fun c => signed 16 c /\ true = true) l <-> Forall (signed 16) l.
Proof. rewrite Forall_and. split; [by intros [? _]|intros ?; split; [done|by apply Forall_true]]. Qed.

Lemma valid_code_signed c : is_valid_format_code c = true -> signed 16 c.
Proof. unfold is_valid_format_code, signed. rewrite orb_true_iff, !Z.eqb_eq. lia. Qed.

Lemma codes_valid l :
  Forall (fun c => signed 16 c /\ is_valid_format_code c = true) l <->
  Forall (fun c => is_valid_format_code c = true) l.
Proof.
  rewrite Forall_and. split; [by intros [_ ?]|intros Hl; split; [|done]].
  eapply Forall_impl; [exact Hl|]. intros c. apply valid_code_signed.
Qed.

Lemma parse_bind_Ok payload m : parse_bind payload = Ok m <-> reads "B"%byte payload m.
Proof.
  split.
  - unfold parse_bind. repeat read_step. intros [-> ->]%finish_Ok. unfold reads. cbn.
    rewrite !app_nil_r, !codes_signed in *. split_and!; try done. by exists false.
  - intros (Ht & Hok & [lower ->]). destruct m; try discriminate Ht. cbn in Hok |- *.
    destruct Hok as (? & ? & ? & ?%codes_signed & ? & ? & ? & ?%codes_signed).
    unfold parse_bind. rewrite <- (app_nil_r (codes_bytes result_format_codes)).
    autorewrite with accept. done.
Qed.

Lemma length_oids l : length (oids_bytes l) = (length l * 4)%nat.
Proof.
  unfold oids_bytes. induction l as [|z l IH]; cbn; [done|].
  rewrite length_app, length_to_be_bytes, IH. lia.
Qed.

Lemma read_oids_bytes l :
  Forall (fun oid => 0 <= oid < 2 ^ 32) l -> read_oids (length l) (oids_bytes l) = l.
Proof.
  unfold oids_bytes. induction 1 as [|z l Hz _ IH]; cbn; [done|].
  rewrite take_app_length', drop_app_length' by byte_len.
  by rewrite IH, from_to_be_bytes by done.
Qed.

Lemma oids_of_bytes n rest : length rest = (n * 4)%nat ->
  length (read_oids n rest) = n /\ Forall (fun oid => 0 <= oid < 2 ^ 32) (read_oids n rest) /\
  oids_bytes (read_oids n rest) = rest.
Proof.
  unfold oids_bytes. revert rest. induction n as [|n IH]; intros rest Hl; cbn.
  { by destruct rest. }
  assert (length (take 4 rest) = 4%nat) as H4 by (rewrite length_take; lia).
  destruct (IH (drop 4 rest)) as (Hn & Hf & Hb); [rewrite length_drop; lia|].
  split_and!; [by rewrite Hn|constructor; [|done]|].
  - pose proof (from_be_bytes_range (take 4 rest)) as Hr. by rewrite H4 in Hr.
  - rewrite Hb, to_from_be_bytes by done. apply take_drop.
Qed.

Lemma parse_parse_Ok payload m : parse_parse payload = Ok m <-> reads "P"%byte payload m.
Proof.
  split.
  - unfold parse_parse. repeat read_step.
    match goal with |- context [(length ?r =? ?c * 4)%nat] => destruct (Nat.eqb_spec (length r) (c * 4)); [|done] end.
    cbn. intros [= <-]. edestruct oids_of_bytes as (Hn & Hf & Hb); [done|].
    unfold reads. cbn. unfold count_ok, vec_len. rewrite Hn. split_and!; try done. exists false.
    unfold count_bytes, vec_len. by rewrite Hn, Hb.
  - intros (Ht & Hok & [lower ->]). destruct m; try discriminate Ht. cbn in Hok |- *.
    destruct Hok as (? & ? & ? & ?). unfold parse_parse. autorewrite with accept.
    by rewrite length_oids, Nat.eqb_refl, read_oids_bytes.
Qed.

Lemma parse_target_Ok b e t : parse_target b e = Ok t <-> exists lower, b = target_byte lower t.
Proof.
  split.
  - destruct b; try discriminate; intros [= <-]; first [by exists false | by exists true].
  - intros [[] ->]; by destruct t.
Qed.

Lemma parse_targeted_Ok make e1 e2 payload m :
  parse_targeted make e1 e2 payload = Ok m <->
  exists lower t s, name_ok s /\ payload = target_byte lower t :: c_bytes s /\ m = make t s.
Proof.
  unfold parse_targeted. split.
  - destruct payload as [|b rest]; [done|].
    destruct (parse_target b e1) as [t|] eqn:E; [|done]. apply parse_target_Ok in E as [lower ->].
    destruct (parse_cstring rest e2) as [s|] eqn:E; [|done]. apply parse_cstring_Ok in E as [Hs ->].
    intros [= <-]. by exists lower, t, s.
  - intros (lower & t & s & Hs & -> & ->).
    rewrite (proj2 (parse_target_Ok _ e1 t)) by (by exists lower).
    by rewrite (proj2 (parse_cstring_Ok _ e2 s)).
Qed.

Lemma parse_execute_Ok payload m : parse_execute payload = Ok m <-> reads "E"%byte payload m.
Proof.
  split.
  - unfold parse_execute. repeat read_step.
    match goal with |- context [match ?l with [] => _ | _ :: _ => _ end] => destruct l; [|done] end.
    destruct (Z.ltb_spec z 0); [done|]. intros [= <-]. unfold reads, signed in *. cbn.
    rewrite app_nil_r. split_and!; try done; try lia. by exists false.
  - intros (Ht & Hok & [lower ->]). destruct m; try discriminate Ht. cbn in Hok |- *.
    destruct Hok as [? ?]. unfold parse_execute.
    rewrite <- (app_nil_r (to_be_bytes 4 max_rows)). autorewrite with accept.
    rewrite read_i32_app by (unfold signed; lia). cbn.
    destruct (Z.ltb_spec max_rows 0); [lia|done].
Qed.

Lemma parse_function_call_Ok payload m : parse_function_call payload = Ok m <-> reads "F"%byte payload m.
Proof.
  split.
  - unfold parse_function_call. do 4 read_step.
    destruct (negb _ && _ && _) eqn:Hc; [done|]. do 2 read_step.
    destruct (is_valid_format_code _) eqn:Hv; [|done]. cbn. intros [-> ->]%finish_Ok.
    unfold reads. cbn. rewrite codes_valid in *. rewrite to_from_be_bytes, app_nil_r by done.
    pose proof (from_be_bytes_range l) as Hr. replace (length l) with 4%nat in Hr by done.
    split_and!; try done; try lia; [|by exists false].
    rewrite <- !negb_orb, negb_false_iff, !orb_true_iff, !Nat.eqb_eq in Hc.
    destruct Hc as [[?%nil_length_inv|]|]; tauto.
  - intros (Ht & Hok & [lower ->]). destruct m; try discriminate Ht. cbn in Hok |- *.
    destruct Hok as (? & ? & ?%codes_valid & ? & Hlen & ? & Hv). unfold parse_function_call.
    rewrite <- (app_nil_r (to_be_bytes 2 result_format_code)). autorewrite with accept.
    assert (negb (length argument_format_codes =? 0)%nat && negb (length argument_format_codes =? 1)%nat &&
            negb (length argument_format_codes =? length arguments)%nat = false) as ->.
    { rewrite <- !negb_orb, negb_false_iff, !orb_true_iff, !Nat.eqb_eq.
      destruct Hlen as [-> | [-> | ->]]; tauto. }
    autorewrite with accept. rewrite read_i16_app by (by apply valid_code_signed).
    by rewrite Hv, from_to_be_bytes.
Qed.

(** A SASL initial response is never taken for a password: its first NUL is not its last byte. *)
Lemma sasl_not_password s rest e :
  no_nul s -> rest <> [] -> exists e', parse_cstring_payload (s ++ x00 :: rest) e = Err e'.
Proof.
  intros Hs Hr. destruct (parse_cstring_payload _ e) as [l|e'] eqn:E; [|by exists e'].
  apply parse_cstring_payload_Ok in E as [Hl Heq]. destruct Hr.
  pose proof (split_nul_app s rest Hs) as H1. rewrite Heq, split_nul_app in H1 by done. congruence.
Qed.

Lemma parse_p_response payload e mechanism rest :
  split_nul payload = Some (as_bytes mechanism, rest) ->
  utf8_valid mechanism -> parse_cstring_payload payload UnterminatedPasswordMessage = Err e ->
  parse_p payload =
    if bool_decide (mechanism = EmptyString) then Err InvalidSaslInitialResponsePayload
    else
      let? (v, rest) := read_value InvalidSaslInitialResponsePayload rest in
      finish InvalidSaslInitialResponsePayload rest (SaslInitialResponse mechanism v).
Proof.
  intros Hsp Hu He. unfold parse_p. rewrite He, Hsp, (proj2 (utf8_Ok _ _ mechanism)) by done.
  destruct mechanism as [|a s]; [done|]. rewrite bool_decide_false by done.
  change (as_bytes (String a s)) with (byte_of_ascii a :: as_bytes s). cbn [length Nat.eqb].
  unfold read_value. destruct (read_i32 _ rest) as [[z r]|] eqn:E; [|done].
  destruct (Z.eqb_spec z (-1)); [done|]. destruct (Z.ltb_spec z (-1)); [done|].
  apply read_i32_Ok in E as [Hz _].
  unfold get, vec_len. destruct (Nat.ltb_spec (length r) (Z.to_nat z)).
  - destruct (Z.eqb_spec (Z.of_nat (length r)) z); [lia|done].
  - destruct (Z.eqb_spec (Z.of_nat (length r)) z) as [<-|].
    + by rewrite Nat2Z.id, drop_all, firstn_all.
    + cbn. destruct (drop (Z.to_nat z) r) eqn:Hd; [|done].
      apply (f_equal length) in Hd. rewrite length_drop in Hd. cbn in Hd. lia.
Qed.

Lemma value_bytes_nonempty v : value_bytes v <> [].
Proof.
  intros H%(f_equal length). destruct v; cbn in H; rewrite ?length_app, length_to_be_bytes in H; lia.
Qed.

Lemma parse_p_Ok payload m : parse_p payload = Ok m <-> reads "p"%byte payload m.
Proof.
  split.
  - destruct (parse_cstring_payload payload UnterminatedPasswordMessage) as [l|e] eqn:E.
    { unfold parse_p. rewrite E. apply parse_cstring_payload_Ok in E as [Hl ->].
      destruct (utf8 l InvalidUtf8) as [s|] eqn:E; [|done]. apply utf8_Ok in E as [Hs <-].
      intros [= <-]. split_and!; try done. by exists false. }
    destruct (split_nul payload) as [[a r]|] eqn:Hsp.
    + destruct (utf8 a InvalidUtf8) as [s|] eqn:Ea.
      * apply utf8_Ok in Ea as [Hs <-]. rewrite (parse_p_response _ e s r) by done.
        case_bool_decide; [done|].
        destruct (read_value _ r) as [[v r']|] eqn:E1; [|done]. apply read_value_Ok in E1 as [Hv ->].
        intros [-> ->]%finish_Ok. apply split_nul_Some in Hsp as [Hn ->]. rewrite app_nil_r.
        split_and!; try done. exists false. cbn. unfold c_bytes. by rewrite <- app_assoc.
      * unfold parse_p. rewrite E, Hsp, Ea. by destruct (length a =? 0)%nat.
    + unfold parse_p. rewrite E, Hsp. intros [= <-]. apply split_nul_None in Hsp.
      split_and!; try done. by exists false.
  - intros (Ht & Hok & [lower ->]). destruct m; try discriminate Ht; cbn in Hok |- *.
    + unfold parse_p. destruct Hok as [Hu Hn]. unfold c_bytes.
      rewrite (proj2 (parse_cstring_payload_Ok _ _ (as_bytes password))) by done.
      by rewrite (proj2 (utf8_Ok _ _ password)).
    + destruct Hok as ([Hu Hn] & Hne & Hv). unfold c_bytes. rewrite <- app_assoc.
      destruct (sasl_not_password (as_bytes mechanism) (value_bytes initial_response)
                  UnterminatedPasswordMessage Hn (value_bytes_nonempty _)) as [e He].
      cbn. rewrite (parse_p_response _ e mechanism (value_bytes initial_response));
        [|by apply split_nul_app|done|done].
      rewrite bool_decide_false by done.
      rewrite (proj2 (read_value_Ok _ _ initial_response [])); [done|by rewrite app_nil_r].
    + unfold parse_p. destruct (parse_cstring_payload data _) as [l|] eqn:E.
      * apply parse_cstring_payload_Ok in E as [_ ->]. apply Forall_app in Hok as [_ H].
        by inversion H.
      * by rewrite (proj2 (split_nul_None data)).
Qed.

End PgFacts.
