(* ===== verification/PgFrontendProps.v ===== *)
(** * The frontend protocol: properties

    The frames the message parser accepts are exactly the frames of the protocol's messages;
    the startup parser likewise; the session life cycle serves only authenticated sessions and
    can always be closed. *)

From stdpp Require Import base strings list.
From S2P Require Import Prelude Types Bytes PgFrontend PgFrontendFacts.

Module PgFrontendProps.
Import Pg PgFacts.

(** ** Messages *)

Lemma length_payload_lower lower m : vec_len (payload_of lower m) = vec_len (payload_of false m).
Proof. unfold vec_len. by destruct m. Qed.

(** The header of a frame: the declared length is the length of what follows the tag. *)
Lemma frame_header frame :
  (exists tag payload, frame = tag :: to_be_bytes 4 (vec_len payload + 4) ++ payload /\
     vec_len payload + 4 < 2 ^ 32) \/
  exists e, parse_frontend_message frame = Err e.
Proof.
  destruct frame as [|tag rest]; [right; by eexists|]. cbn [parse_frontend_message].
  destruct (Nat.ltb_spec (length (tag :: rest)) 5) as [|Hl]; [right; by eexists|]. cbn [length] in Hl.
  destruct (Z.ltb_spec (from_be_bytes (take 4 rest)) 4); [right; by eexists|].
  destruct (Z.eqb_spec (from_be_bytes (take 4 rest) + 1) (vec_len (tag :: rest))) as [He|];
    [|right; by eexists].
  left. exists tag, (drop 4 rest). unfold vec_len in *. cbn [length] in He. rewrite length_drop.
  replace (Z.of_nat (length rest - 4) + 4) with (from_be_bytes (take 4 rest)) by lia.
  assert (length (take 4 rest) = 4%nat) as H4 by (rewrite length_take; lia).
  rewrite to_from_be_bytes, take_drop by done. split; [done|].
  pose proof (from_be_bytes_range (take 4 rest)) as Hr. rewrite H4 in Hr. cbn in Hr |- *. lia.
Qed.

Lemma parse_empty_Ok frame n m m' : parse_empty frame n m = Ok m' <-> n = 4 /\ m' = m.
Proof. unfold parse_empty. destruct (Z.eqb_spec n 4); naive_solver. Qed.

Lemma parse_text_Ok payload e make m :
  (let? s := parse_cstring payload e in @Ok FrontendMessage FrontendMessageError (make s)) = Ok m <->
  exists s, name_ok s /\ payload = c_bytes s /\ m = make s.
Proof.
  split.
  - destruct (parse_cstring payload e) as [s|] eqn:E; [|done]. apply parse_cstring_Ok in E as [? ->].
    intros [= <-]. by exists s.
  - intros (s & Hs & -> & ->). by rewrite (proj2 (parse_cstring_Ok _ e s)).
Qed.

(** A well-formed header hands the payload to the parser of its tag. *)
Lemma parse_frame_Ok tag payload m :
  vec_len payload + 4 < 2 ^ 32 ->
  parse_frontend_message (tag :: to_be_bytes 4 (vec_len payload + 4) ++ payload) = Ok m <->
  reads tag payload m.
Proof.
  intros Hlen. cbn [parse_frontend_message]. unfold vec_len in *.
  rewrite take_app_length', drop_app_length' by byte_len.
  cbn [length]. rewrite length_app, length_to_be_bytes, from_to_be_bytes by (cbn in *; lia).
  destruct (Nat.ltb_spec (S (4 + length payload)) 5); [lia|].
  destruct (Z.ltb_spec (Z.of_nat (length payload) + 4) 4); [lia|].
  destruct (Z.eqb_spec (Z.of_nat (length payload) + 4 + 1) (Z.of_nat (S (4 + length payload)))); [|lia].
  cbn [negb].
  assert (Z.of_nat (length payload) + 4 = 4 <-> payload = []) as Hnil.
  { rewrite <- length_zero_iff_nil. lia. }
  unfold reads.
  destruct tag; rewrite ?parse_text_Ok, ?parse_p_Ok, ?parse_bind_Ok, ?parse_parse_Ok,
    ?parse_targeted_Ok, ?parse_execute_Ok, ?parse_function_call_Ok, ?parse_empty_Ok, ?Hnil; try done.
  all: try (split; [done|]; intros (Ht & _); destruct m; discriminate Ht).
  all: split;
    [intros ?; repeat match goal with H : ex _ |- _ => destruct H | H : _ /\ _ |- _ => destruct H end;
     simplify_eq; split_and!; try done;
     match goal with b : bool |- _ => by exists b | _ => by exists false end|].
  all: intros (Ht & Hok & [lower ->]); destruct m; try discriminate Ht; cbn in *;
    first [done | by eexists | by exists lower; do 2 eexists].
Qed.

(** [C32] The frontend message parser accepts exactly the frames of the protocol: it returns a
    message if and only if the message is well formed (names are UTF-8 without NUL, counts
    and lengths fit their fields, format codes are legal where the protocol says so) and the
    frame is its encoding, the target byte of Describe and Close in either case.  So parsing
    inverts encoding, no two messages share a frame, and everything else is an error. *)
Theorem frontend_parser_exact frame m :
  parse_frontend_message frame = Ok m <-> message_ok m /\ exists lower, frame = frame_of lower m.
Proof.
  unfold message_ok, frame_of. split.
  - intros Hp. destruct (frame_header frame) as [(tag & payload & -> & Hlen)|[e He]]; [|congruence].
    apply parse_frame_Ok in Hp as (<- & Hok & [lower ->]); [|done].
    rewrite length_payload_lower in Hlen. split; [done|by exists lower].
  - intros [[Hok Hlen] [lower ->]]. apply parse_frame_Ok; [by rewrite length_payload_lower|].
    split_and!; [done|done|by exists lower].
Qed.

(** ** Startup packets *)

(** Segments, each with its NUL. *)
Definition terminate (segments : list (list byte)) : list byte := segments ≫= (fun s => s ++ [x00]).

Lemma terminate_app a b : terminate (a ++ b) = terminate a ++ terminate b.
Proof. apply bind_app. Qed.

Lemma split_on_nul_spec l :
  Forall no_nul (split_on_nul l) /\ terminate (split_on_nul l) = l ++ [x00] /\ split_on_nul l <> [].
Proof.
  induction l as [|b l (Hn & Ht & Hne)]; cbn.
  { split_and!; [by repeat constructor|done|done]. }
  destruct (Z.eqb_spec (byte_val b) 0) as [Hb|Hb]; rewrite byte_val_0 in Hb.
  - subst b. split_and!; [by repeat constructor| |done]. cbn. fold (terminate (split_on_nul l)).
    by rewrite Ht.
  - destruct (split_on_nul l) as [|s segs]; [done|]. apply Forall_cons in Hn as [Hs Hn].
    split_and!; [constructor; [by constructor|done]| |done]. cbn in *. by rewrite Ht.
Qed.

Lemma terminate_inj a b : Forall no_nul a -> Forall no_nul b -> terminate a = terminate b -> a = b.
Proof.
  intros Ha. revert b. induction Ha as [|s a Hs _ IH]; intros b Hb Heq.
  { destruct b as [|t b]; [done|]. cbn in Heq. by destruct t. }
  destruct Hb as [|t b Ht Hb]; [cbn in Heq; by destruct s|].
  cbn in Heq. rewrite <- !app_assoc in Heq. cbn in Heq.
  pose proof (split_nul_app s (terminate a) Hs) as H1. unfold terminate in H1 at 1.
  rewrite Heq in H1. change (b ≫= fun s => s ++ [x00]) with (terminate b) in H1.
  rewrite split_nul_app in H1 by done. simplify_eq. f_equal. by apply IH.
Qed.

Lemma split_on_nul_unique l segments :
  Forall no_nul segments -> terminate segments = l ++ [x00] -> split_on_nul l = segments.
Proof.
  intros Hn Ht. destruct (split_on_nul_spec l) as (Hn' & Ht' & _).
  apply terminate_inj; [done|done|]. congruence.
Qed.

(** The key and value of a parameter: text without NUL, the key not empty. *)
Definition param_ok (p : string * string) : Prop := name_ok p.1 /\ p.1 <> EmptyString /\ name_ok p.2.

Definition flat (params : list (string * string)) : list (list byte) :=
  params ≫= (fun p => [as_bytes p.1; as_bytes p.2]).

Definition params_bytes (params : list (string * string)) : list byte :=
  params ≫= (fun p => c_bytes p.1 ++ c_bytes p.2).

Lemma terminate_flat params : terminate (flat params) = params_bytes params.
Proof.
  induction params as [|p params IH]; [done|].
  change (flat (p :: params)) with ([as_bytes p.1; as_bytes p.2] ++ flat params).
  rewrite terminate_app, IH. unfold params_bytes, c_bytes. cbn. by rewrite app_nil_r.
Qed.

Lemma flat_ok params : Forall param_ok params -> Forall no_nul (flat params).
Proof.
  unfold flat. induction 1 as [|p params ([_ ?] & _ & [_ ?]) _ IH]; cbn; [constructor|].
  by repeat constructor.
Qed.

Lemma even_flat params : Nat.even (length (flat params)) = true.
Proof. unfold flat. by induction params. Qed.

Lemma as_bytes_nil s : length (as_bytes s) = 0%nat <-> s = EmptyString.
Proof. unfold as_bytes. destruct s; by split. Qed.

Lemma pair_params_flat params : Forall param_ok params -> pair_params (flat params) = Ok params.
Proof.
  induction 1 as [|[k v] params ([Hk _] & Hne & [Hv _]) _ IH]; [done|].
  change (flat ((k, v) :: params)) with (as_bytes k :: as_bytes v :: flat params). cbn in *.
  destruct (Nat.eqb_spec (length (as_bytes k)) 0) as [H0|_]; [by apply as_bytes_nil in H0|].
  by rewrite (proj2 (utf8_Ok _ _ k)), (proj2 (utf8_Ok _ _ v)), IH.
Qed.

Lemma pair_params_Ok n segments params :
  (length segments <= n)%nat -> Nat.even (length segments) = true -> Forall no_nul segments ->
  pair_params segments = Ok params -> segments = flat params /\ Forall param_ok params.
Proof.
  revert segments params. induction n as [|n IH]; intros segments params Hl He Hn.
  { destruct segments; [|cbn in Hl; lia]. by intros [= <-]. }
  destruct segments as [|k [|v segments]]; [by intros [= <-]|done|].
  apply Forall_cons in Hn as [Hk Hn]. apply Forall_cons in Hn as [Hv Hn]. cbn in Hl |- *.
  destruct (Nat.eqb_spec (length k) 0) as [|Hk0]; [done|].
  destruct (utf8 k StartupInvalidUtf8) as [k'|] eqn:E; [|done]. apply utf8_Ok in E as [? <-].
  destruct (utf8 v StartupInvalidUtf8) as [v'|] eqn:E; [|done]. apply utf8_Ok in E as [? <-].
  destruct (pair_params segments) as [ps|] eqn:E; [|done]. intros [= <-].
  destruct (IH segments ps) as [-> Hps]; [lia|exact He|done|done|].
  split; [done|]. constructor; [|done]. split_and!; cbn; try done.
  intros ->. by apply Hk0.
Qed.

(** The value of the last parameter. *)
Definition last_value (params : list (string * string)) : string :=
  from_option snd EmptyString (last params).

Lemma last_flat params : last (flat params) = as_bytes ∘ snd <$> last params.
Proof.
  induction params as [|p params IH] using rev_ind; [done|].
  unfold flat. rewrite bind_app, !last_snoc. cbn.
  change [as_bytes p.1; as_bytes p.2] with ([as_bytes p.1] ++ [as_bytes p.2]).
  by rewrite app_assoc, last_snoc.
Qed.

(** The terminator after the last parameter may be missing when its value is not empty. *)
Definition params_payload (params : list (string * string)) (payload : list byte) : Prop :=
  payload = params_bytes params ++ [x00] \/
  payload = params_bytes params /\ last_value params <> EmptyString.

Lemma parse_startup_params_Ok payload params :
  parse_startup_params payload = Ok params <-> Forall param_ok params /\ params_payload params payload.
Proof.
  unfold parse_startup_params, params_payload. split.
  - destruct (last payload) as [b|] eqn:E; [|done]. apply last_Some in E as [l ->].
    rewrite length_app, Nat.add_sub, take_app_length.
    destruct (Z.eqb_spec (byte_val b) 0) as [Hb|]; [|done]. apply byte_val_0 in Hb as ->. cbn [negb].
    destruct (split_on_nul_spec l) as (Hn & Ht & Hne). revert Hn Ht Hne.
    generalize (split_on_nul l) as segs. intros segs Hn Ht Hne.
    destruct segs as [|s segs _] using rev_ind; [done|]. rewrite last_snoc, <- Ht.
    destruct (Nat.even _) eqn:He; [|done]. cbn [negb]. intros Hp.
    destruct s as [|c s].
    + rewrite length_app, Nat.add_sub, take_app_length in *. apply Forall_app in Hn as [Hn _].
      apply (pair_params_Ok (length segs)) in Hp as [-> Hps]; [|done|done|done].
      split; [done|]. left. by rewrite terminate_app, terminate_flat.
    + eapply pair_params_Ok in Hp as [Heq Hps]; [|done|done|done].
      split; [done|]. right. rewrite Heq, terminate_flat. split; [done|].
      apply (f_equal last) in Heq. rewrite last_snoc, last_flat in Heq.
      unfold last_value. destruct (last params) as [[k v]|]; [|done]. cbn in *. intros ->. done.
  - intros [Hps [-> | [-> Hv]]].
    + rewrite last_snoc, length_app, Nat.add_sub, take_app_length. cbn.
      rewrite (split_on_nul_unique _ (flat params ++ [[]])).
      * rewrite last_snoc, length_app, Nat.add_sub, take_app_length, even_flat. cbn.
        by apply pair_params_flat.
      * apply Forall_app. split; [by apply flat_ok|by repeat constructor].
      * by rewrite terminate_app, terminate_flat.
    + destruct params as [|p params _] using rev_ind; [done|].
      unfold last_value in Hv. rewrite last_snoc in Hv. cbn in Hv.
      set (params' := params ++ [p]) in *.
      assert (exists l, params_bytes params' = l ++ [x00]) as [l Hl].
      { exists (params_bytes params ++ c_bytes p.1 ++ as_bytes p.2). subst params'.
        unfold params_bytes. rewrite bind_app. cbn. unfold c_bytes. by rewrite <- !app_assoc. }
      rewrite Hl, last_snoc, length_app, Nat.add_sub, take_app_length. cbn.
      rewrite (split_on_nul_unique _ (flat params')); [|by apply flat_ok|by rewrite terminate_flat].
      rewrite last_flat. subst params'. rewrite last_snoc. cbn.
      destruct (as_bytes p.2) eqn:E; [by apply (f_equal length), as_bytes_nil in E|].
      rewrite even_flat. cbn. by apply pair_params_flat.
Qed.

Definition code_of (p : StartupPacket) : Z :=
  match p with
  | Startup version _ => version
  | SslRequest => PG_SSL_REQUEST_CODE
  | GssEncRequest => PG_GSSENC_REQUEST_CODE
  | CancelRequest _ _ => PG_CANCEL_REQUEST_CODE
  end.

Definition packet_ok (p : StartupPacket) : Prop :=
  match p with
  | Startup version params => 3 * 65536 <= version < 4 * 65536 /\ Forall param_ok params
  | CancelRequest process_id secret_key =>
      0 <= process_id < 2 ^ 32 /\ 4 <= vec_len secret_key <= 256
  | _ => True
  end.

(** What follows the protocol code. *)
Definition packet_payload (p : StartupPacket) (payload : list byte) : Prop :=
  match p with
  | Startup _ params => params_payload params payload
  | CancelRequest process_id secret_key => payload = to_be_bytes 4 process_id ++ secret_key
  | _ => payload = []
  end.

Lemma protocol_major_3 code :
  0 <= code < 2 ^ 32 -> (protocol_major code = PG_PROTOCOL_MAJOR_V3 <-> 3 * 65536 <= code < 4 * 65536).
Proof.
  intros Hc. unfold protocol_major, PG_PROTOCOL_MAJOR_V3. rewrite Z.shiftr_div_pow2 by lia.
  change (2 ^ 16) with 65536.
  assert (0 <= code / 65536 < 65536) as Hd.
  { split; [apply Z.div_pos; lia|apply Z.div_lt_upper_bound; lia]. }
  rewrite Z.mod_small by done. pose proof (Z.div_mod code 65536) as Hm.
  pose proof (Z.mod_pos_bound code 65536). lia.
Qed.

(** Splitting a frame into its length, its code and the rest. *)
Lemma startup_header frame :
  (exists code payload, frame = to_be_bytes 4 (vec_len payload + 8) ++ to_be_bytes 4 code ++ payload /\
     0 <= code < 2 ^ 32 /\ vec_len payload + 8 < 2 ^ 32) \/
  exists e, parse_startup_packet frame = Err e.
Proof.
  unfold parse_startup_packet. destruct (Nat.ltb_spec (length frame) 8) as [|Hl]; [right; by eexists|].
  assert (length (take 4 frame) = 4%nat) as H4 by (rewrite length_take; lia).
  assert (length (take 4 (drop 4 frame)) = 4%nat) as H4' by (rewrite length_take, length_drop; lia).
  unfold read_u32_be. rewrite H4, H4'. cbn [Nat.eqb].
  destruct (Z.ltb_spec (from_be_bytes (take 4 frame)) 8); [right; by eexists|].
  destruct (Z.eqb_spec (from_be_bytes (take 4 frame)) (vec_len frame)) as [He|]; [|right; by eexists].
  left. exists (from_be_bytes (take 4 (drop 4 frame))), (drop 8 frame). unfold vec_len in *.
  rewrite length_drop. replace (Z.of_nat (length frame - 8) + 8) with (from_be_bytes (take 4 frame)) by lia.
  rewrite !to_from_be_bytes by done. split_and!.
  - change 8%nat with (4 + 4)%nat. by rewrite <- drop_drop, !take_drop.
  - apply from_be_bytes_range.
  - pose proof (from_be_bytes_range (take 4 (drop 4 frame))) as [_ Hr]. by rewrite H4' in Hr.
  - pose proof (from_be_bytes_range (take 4 frame)) as [_ Hr]. by rewrite H4 in Hr.
Qed.

(** The parser after the header. *)
Lemma parse_startup_framed code payload :
  0 <= code < 2 ^ 32 -> vec_len payload + 8 < 2 ^ 32 ->
  parse_startup_packet (to_be_bytes 4 (vec_len payload + 8) ++ to_be_bytes 4 code ++ payload) =
    let n := vec_len payload + 8 in
    if code =? PG_SSL_REQUEST_CODE then
      if negb (n =? 8) then Err (StartupLengthMismatch 8 n) else Ok SslRequest
    else if code =? PG_GSSENC_REQUEST_CODE then
      if negb (n =? 8) then Err (StartupLengthMismatch 8 n) else Ok GssEncRequest
    else if code =? PG_CANCEL_REQUEST_CODE then
      if n <? 16 then Err (StartupLengthMismatch 16 n)
      else
        let? process_id := read_u32_be (take 4 payload) in
        let secret_key := drop 4 payload in
        if PG_CANCEL_SECRET_KEY_MAX_BYTES <? vec_len secret_key then
          Err (InvalidCancelKeyLength (vec_len secret_key) PG_CANCEL_SECRET_KEY_MAX_BYTES)
        else Ok (CancelRequest process_id secret_key)
    else if protocol_major code =? PG_PROTOCOL_MAJOR_V3 then
      let? params := parse_startup_params payload in
      Ok (Startup code params)
    else Err (UnsupportedProtocolCode code).
Proof.
  intros Hc Hl. unfold parse_startup_packet. set (f := _ ++ _ ++ _).
  assert (take 4 f = to_be_bytes 4 (vec_len payload + 8)) as ->
    by (apply take_app_length'; byte_len).
  assert (forall n, drop (4 + n) f = drop n (to_be_bytes 4 code ++ payload)) as Hd.
  { intros n. rewrite <- drop_drop. subst f. by rewrite drop_app_length' by byte_len. }
  change (drop 4 f) with (drop (4 + 0) f). change (drop 8 f) with (drop (4 + 4) f).
  change (drop 12 f) with (drop (4 + (4 + 4)) f). rewrite !Hd, <- (drop_drop _ 4 4), drop_0.
  rewrite take_app_length', drop_app_length' by byte_len.
  assert (vec_len f = vec_len payload + 8) as Hf.
  { unfold vec_len, f. rewrite !length_app, !length_to_be_bytes. lia. }
  unfold read_u32_be at 1 2. rewrite !length_to_be_bytes. cbn [Nat.eqb].
  rewrite !from_to_be_bytes by (unfold vec_len in *; cbn in *; lia).
  rewrite Hf, Z.eqb_refl. unfold vec_len in Hf.
  destruct (Nat.ltb_spec (length f) 8); [lia|].
  destruct (Z.ltb_spec (vec_len payload + 8) 8); [unfold vec_len in *; lia|]. done.
Qed.

Lemma code_of_range p : packet_ok p -> 0 <= code_of p < 2 ^ 32.
Proof. destruct p; cbn; [intros [? _]; lia|done..]. Qed.

Lemma cancel_Ok payload p :
  4 <= vec_len payload ->
  (let? process_id := read_u32_be (take 4 payload) in
   let secret_key := drop 4 payload in
   if PG_CANCEL_SECRET_KEY_MAX_BYTES <? vec_len secret_key then
     Err (InvalidCancelKeyLength (vec_len secret_key) PG_CANCEL_SECRET_KEY_MAX_BYTES)
   else Ok (CancelRequest process_id secret_key)) = Ok p <->
  exists pid key, payload = to_be_bytes 4 pid ++ key /\ 0 <= pid < 2 ^ 32 /\ vec_len key <= 256 /\
    p = CancelRequest pid key.
Proof.
  intros H4. unfold read_u32_be, PG_CANCEL_SECRET_KEY_MAX_BYTES, vec_len in *.
  assert (length (take 4 payload) = 4%nat) as Ht by (rewrite length_take; lia).
  rewrite Ht. cbn [Nat.eqb]. cbv zeta. split.
  - destruct (Z.ltb_spec 256 (Z.of_nat (length (drop 4 payload)))); [done|]. intros [= <-].
    exists (from_be_bytes (take 4 payload)), (drop 4 payload).
    rewrite to_from_be_bytes, take_drop by done. split_and!; try done; by apply (from_be_bytes_bound 4).
  - intros (pid & key & -> & Hpid & Hkey & ->).
    rewrite take_app_length', drop_app_length', from_to_be_bytes by (done || by rewrite length_to_be_bytes).
    destruct (Z.ltb_spec 256 (Z.of_nat (length key))); [lia|done].
Qed.

(** [C33] The startup parser accepts exactly the startup packets: a packet is returned if and
    only if it is well formed (protocol major version 3 and named text parameters, or a cancel
    request with a key of 4 to 256 bytes, or an encryption request) and the frame carries its
    own length, the packet's code and the packet's payload; of the parameter list only the
    final terminator may be missing, and only after a non-empty value. *)
Theorem startup_parser_exact frame p :
  parse_startup_packet frame = Ok p <->
  packet_ok p /\ exists payload, packet_payload p payload /\ vec_len payload + 8 < 2 ^ 32 /\
    frame = to_be_bytes 4 (vec_len payload + 8) ++ to_be_bytes 4 (code_of p) ++ payload.
Proof.
  assert (forall payload : list byte, vec_len payload + 8 = 8 <-> payload = []) as Hnil.
  { intros. unfold vec_len. rewrite <- length_zero_iff_nil. lia. }
  split.
  - intros Hp. destruct (startup_header frame) as [(code & payload & -> & Hc & Hl)|[e He]]; [|congruence].
    rewrite parse_startup_framed in Hp by done. cbv zeta in Hp.
    destruct (Z.eqb_spec code PG_SSL_REQUEST_CODE) as [->|_].
    { destruct (Z.eqb_spec (vec_len payload + 8) 8) as [H8|]; [|done]. simplify_eq/=.
      apply Hnil in H8 as ->. split; [done|]. by exists []. }
    destruct (Z.eqb_spec code PG_GSSENC_REQUEST_CODE) as [->|_].
    { destruct (Z.eqb_spec (vec_len payload + 8) 8) as [H8|]; [|done]. simplify_eq/=.
      apply Hnil in H8 as ->. split; [done|]. by exists []. }
    destruct (Z.eqb_spec code PG_CANCEL_REQUEST_CODE) as [->|_].
    { destruct (Z.ltb_spec (vec_len payload + 8) 16) as [|H16]; [done|].
      apply cancel_Ok in Hp as (pid & key & -> & Hpid & Hkey & ->); [|lia].
      split; [|by exists (to_be_bytes 4 pid ++ key)]. cbn. unfold vec_len in *.
      rewrite length_app, length_to_be_bytes in H16. lia. }
    destruct (Z.eqb_spec (protocol_major code) PG_PROTOCOL_MAJOR_V3) as [Hv|]; [|done].
    apply protocol_major_3 in Hv; [|done].
    destruct (parse_startup_params payload) as [params|] eqn:E; [|done]. simplify_eq.
    apply parse_startup_params_Ok in E as [Hps Hpay]. split; [done|]. by exists payload.
  - intros (Hok & payload & Hp & Hl & ->). rewrite parse_startup_framed by auto using code_of_range.
    destruct p as [version params| | |pid key]; cbn in Hok, Hp |- *; [|by subst..|].
    + destruct Hok as [Hv Hps]. cbv zeta.
      assert (0 <= version < 2 ^ 32) as Hr by lia. pose proof (protocol_major_3 version Hr) as Hm.
      unfold PG_SSL_REQUEST_CODE, PG_GSSENC_REQUEST_CODE, PG_CANCEL_REQUEST_CODE.
      rewrite !(proj2 (Z.eqb_neq _ _)) by lia. rewrite (proj2 (Z.eqb_eq _ _)) by (by apply Hm).
      by rewrite (proj2 (parse_startup_params_Ok payload params)).
    + destruct Hok as [Hpid Hkey]. cbn. unfold vec_len in *. subst payload.
      rewrite (proj2 (Z.ltb_ge _ _)) by (rewrite length_app, length_to_be_bytes; lia).
      apply cancel_Ok; [unfold vec_len; rewrite length_app, length_to_be_bytes; lia|].
      exists pid, key. by destruct Hkey.
Qed.

(** ** Sessions *)

(** A session that was sent the given events; a refused event leaves the state. *)
Definition session_run (events : list SessionEvent) : SessionState :=
  foldl (fun s e => (lifecycle_apply s e).1) lifecycle_default events.

Lemma session_run_snoc events e : session_run (events ++ [e]) = (lifecycle_apply (session_run events) e).1.
Proof. unfold session_run. by rewrite foldl_snoc. Qed.

Lemma closed_iff events : session_run events = Closed <-> ConnectionClosed ∈ events.
Proof.
  induction events as [|e events IH] using rev_ind; [split; [done|by intros ?%elem_of_nil]|].
  rewrite session_run_snoc, elem_of_app, list_elem_of_singleton, <- IH.
  destruct (session_run events), e; cbn; naive_solver.
Qed.

(** The life cycle in terms of what has happened. *)
Definition started (events : list SessionEvent) : Prop := StartupAccepted ∈ events.

Definition authenticated (events : list SessionEvent) : Prop :=
  exists before after, events = before ++ AuthenticationSucceeded :: after /\ started before.

Lemma authenticated_snoc events e : authenticated events -> authenticated (events ++ [e]).
Proof. intros (a & b & -> & Ha). exists a, (b ++ [e]). by rewrite <- app_assoc. Qed.

Lemma session_serves events :
  match session_run events with
  | SStartup | Closed => True
  | Authenticating => started events
  | Ready | InTransaction => authenticated events
  | Terminating => authenticated events /\ TerminateRequested ∈ events
  end.
Proof.
  induction events as [|e events IH] using rev_ind; [done|]. rewrite session_run_snoc. unfold started in *.
  destruct (session_run events), e; cbn; rewrite ?elem_of_app, ?list_elem_of_singleton;
    destruct_and?; split_and?; auto using authenticated_snoc.
  by exists events, [].
Qed.

(** The session life cycle serves only authenticated clients and can always be ended: a
    session is ready, in a transaction or terminating only after its startup was accepted and
    its authentication then succeeded; it is closed exactly when its connection was closed,
    whatever else was received, so closing the connection ends it from every state and nothing
    reopens it; and a refused event is reported with the state, which it leaves unchanged. *)
Theorem session_lifecycle_sound events e :
  (session_run events ∈ [Ready; InTransaction; Terminating] -> authenticated events) /\
  (session_run events = Closed <-> ConnectionClosed ∈ events) /\
  match (lifecycle_apply (session_run events) e).2 with
  | Ok next => session_run (events ++ [e]) = next /\ session_run events <> Closed
  | Err err => session_run (events ++ [e]) = session_run events /\
               err = InvalidTransition (session_run events) e
  end.
Proof.
  split_and!; [|apply closed_iff|].
  - pose proof (session_serves events) as Hs. intros Hin.
    rewrite !elem_of_cons, elem_of_nil in Hin. destruct Hin as [E|[E|[E|[]]]]; rewrite E in Hs; tauto.
  - rewrite session_run_snoc. by destruct (session_run events), e.
Qed.

Lemma session_lifecycle_sound_witness :
  let events := [StartupAccepted; AuthenticationSucceeded; Begin] in
  authenticated events /\ session_run (events ++ [Commit]) = Ready.
Proof.
  intros events. destruct (session_lifecycle_sound events Commit) as (Ha & _ & Hs).
  split; [apply Ha; right; left|exact (proj1 Hs)].
Defined.

(** ** The ready loop *)

Inductive ReadyOp :=
| OpSetStatus (status : TransactionStatus)
| OpExtendedError
| OpSync (copy_stream_active : bool).

Definition ready_step (s : ReadyLoopState) (op : ReadyOp) : ReadyLoopState :=
  match op with
  | OpSetStatus status => set_transaction_status s status
  | OpExtendedError => mark_extended_error s
  | OpSync copy => (clear_extended_error_on_sync s copy).1
  end.

(** Extended messages are skipped from an error up to the next Sync that is not part of a
    copy stream, and only then; the transaction status is never affected by either. *)
Theorem skip_until_sync_spec ops :
  skip_until_sync (foldl ready_step ready_default ops) = true <->
  exists before after, ops = before ++ OpExtendedError :: after /\ OpSync false ∉ after.
Proof.
  induction ops as [|op ops IH] using rev_ind.
  { split; [done|]. intros (b & a & H & _). by destruct b. }
  rewrite foldl_snoc. split.
  - destruct op as [status| |[]]; cbn; intros H; try done.
    2: { exists ops, []. split; [done|by intros ?%elem_of_nil]. }
    all: apply IH in H as (b & a & -> & Ha).
    1: exists b, (a ++ [OpSetStatus status]).
    2: exists b, (a ++ [OpSync true]).
    all: rewrite <- app_assoc; split; [done|].
    all: rewrite elem_of_app, list_elem_of_singleton; naive_solver.
  - intros (b & a & Heq & Ha). destruct a as [|x a _] using rev_ind.
    { apply app_inj_tail in Heq as [_ ->]. done. }
    rewrite app_comm_cons, app_assoc in Heq. apply app_inj_tail in Heq as [-> ->].
    rewrite elem_of_app, list_elem_of_singleton in Ha.
    assert (skip_until_sync (foldl ready_step ready_default (b ++ OpExtendedError :: a)) = true) as Hs.
    { apply IH. exists b, a. split; [done|]. intros ?. by apply Ha; left. }
    destruct x as [status| |[]]; cbn; try done. destruct Ha. by right.
Qed.

End PgFrontendProps.
