(* ===== verification/PgBackend.v ===== *)
(** * The PostgreSQL wire protocol: backend (crates/protocol/src/lib.rs, mod backend)

    [BackendWriter] over a stream that accepts every byte: an operation takes the bytes
    written so far to its [io::Result] and the bytes written after it; [None] is a panic (a
    slice index out of range). *)

From stdpp Require Import base strings list pretty.
From Stdlib Require Import Strings.Byte Strings.Ascii.
From S2P Require Import Prelude Types Bytes Text PgFrontend.

Module Backend.
Import Text Pg.

(** The message of an [io::Error] of kind [InvalidInput]. *)
Definition io_error : Type := string.

Definition writer : Type := list byte -> option (result unit io_error * list byte).

Declare Scope writer_scope.
Delimit Scope writer_scope with writer.

(** [a?; b]: an error of [a] is returned with what [a] has written. *)
Definition andthen (a b : writer) : writer := fun out =>
  match a out with
  | None => None
  | Some (Err e, out) => Some (Err e, out)
  | Some (Ok _, out) => b out
  end.

Notation "a ;; b" := (andthen a b) (at level 100, b at level 200, right associativity) : writer_scope.

Definition throw (e : io_error) : writer := fun out => Some (Err e, out).

(** A value computed before anything is written: a panic, an error or a value. *)
Definition computed (A : Type) : Type := option (result A io_error).

Definition given {A} (c : computed A) (k : A -> writer) : writer := fun out =>
  match c with
  | None => None
  | Some (Err e) => Some (Err e, out)
  | Some (Ok a) => k a out
  end.

Record BackendColumn := mkColumn {
  col_name : string;
  oid : Z;
  type_size : Z;
  type_modifier : Z;
}.

Definition column_new (name : string) (oid type_size : Z) : BackendColumn :=
  mkColumn name oid type_size (-1).

Definition with_type_modifier (c : BackendColumn) (modifier : Z) : BackendColumn :=
  mkColumn (col_name c) (oid c) (type_size c) modifier.

Record BackendError := mkBackendError {
  code : string;
  err_message : string;
  position : option string;
}.

Definition error_new (code message : string) : BackendError := mkBackendError code message None.

Definition with_position (code message position : string) : BackendError :=
  mkBackendError code message (Some position).

(** ** Fields *)

(** [i16::try_from] of a length. *)
Definition try_i16 {A} (l : list A) (e : io_error) : result Z io_error :=
  if vec_len l <=? 32767 then Ok (vec_len l) else Err e.

Definition push_cstring (value : string) : list byte := as_bytes value ++ [x00].

Definition push_error_field (tag : byte) (value : string) : list byte := tag :: push_cstring value.

Definition format_code_at (format_codes : list Z) (idx : nat) : option Z :=
  match format_codes with
  | [] => Some 0
  | [code] => Some code
  | codes => codes !! idx
  end.

(** [str::parse::<i32>], without the reason of a failure. *)
Definition parse_i32 (s : string) : option Z :=
  match s with
  | String "-" rest =>
      if bool_decide (rest = EmptyString) then None
      else match parse_digits 2147483648 0 rest with Ok n => Some (- n) | Err _ => None end
  | _ => ok (parse_uint 2147483647 s)
  end.

Definition encode_binary_result_value (value : string) (type_oid : Z) : result (list byte) io_error :=
  if type_oid =? 23 then
    match parse_i32 value with
    | Some n => Ok (to_be_bytes 4 n)
    | None => Err "int4 row value cannot be encoded as binary"
    end
  else if type_oid =? 25 then Ok (as_bytes value)
  else Err "unsupported binary result type".

(** ** Messages *)

Definition write_message (tag : byte) (payload : list byte) : writer := fun out =>
  if vec_len payload + 4 <=? 2147483647 then
    Some (Ok tt, out ++ [tag] ++ to_be_bytes 4 (vec_len payload + 4) ++ payload)
  else Some (Err "payload too large", out).

Definition message (tag : byte) (payload : list byte) : writer := write_message tag payload.

Definition authentication_ok : writer := message "R" (to_be_bytes 4 0).

Definition authentication_sasl (mechanisms : list string) : writer :=
  message "R" (to_be_bytes 4 10 ++ (mechanisms ≫= push_cstring) ++ [x00]).

Definition authentication_sasl_continue (data : list byte) : writer :=
  message "R" (to_be_bytes 4 11 ++ data).

Definition authentication_sasl_final (data : list byte) : writer :=
  message "R" (to_be_bytes 4 12 ++ data).

Definition backend_key_data (process_id secret_key : Z) : writer :=
  message "K" (to_be_bytes 4 process_id ++ to_be_bytes 4 secret_key).

Definition parameter_status (key value : string) : writer :=
  message "S" (push_cstring key ++ push_cstring value).

Definition ready_for_query_status (status : TransactionStatus) : writer :=
  message "Z"
    [match status with Idle => "I" | TxInTransaction => "T" | FailedTransaction => "E" end%byte].

Definition ready_for_query (in_transaction : bool) : writer :=
  ready_for_query_status (if in_transaction then TxInTransaction else Idle).

Definition empty_query_response : writer := message "I" [].

Definition command_complete (tag : string) : writer := message "C" (push_cstring tag).

Definition parse_complete : writer := message "1" [].
Definition bind_complete : writer := message "2" [].
Definition close_complete : writer := message "3" [].
Definition portal_suspended : writer := message "s" [].
Definition no_data : writer := message "n" [].

(** [column_count] is a [usize]. *)
Definition copy_response (tag : byte) (column_count : Z) : writer :=
  if column_count <=? 32767 then
    message tag
      ([x00] ++ to_be_bytes 2 column_count ++ (replicate (Z.to_nat column_count) 0 ≫= to_be_bytes 2))
  else throw "too many COPY columns".

Definition copy_out_response (column_count : Z) : writer := copy_response "H" column_count.
Definition copy_in_response (column_count : Z) : writer := copy_response "G" column_count.
Definition copy_data (bytes : list byte) : writer := message "d" bytes.
Definition copy_done : writer := message "c" [].

Definition parameter_description (type_oids : list Z) : writer :=
  given (Some (try_i16 type_oids "too many parameters")) (fun count =>
    message "t" (to_be_bytes 2 count ++ (type_oids ≫= to_be_bytes 4))).

(** The loop over [columns.iter().enumerate()]. *)
Fixpoint describe_columns (formats : list Z) (idx : nat) (columns : list BackendColumn) : computed (list byte) :=
  match columns with
  | [] => Some (Ok [])
  | column :: columns =>
      match format_code_at formats idx, describe_columns formats (S idx) columns with
      | Some format, Some (Ok rest) =>
          Some (Ok (push_cstring (col_name column) ++ to_be_bytes 4 0 ++ to_be_bytes 2 0 ++
            to_be_bytes 4 (oid column) ++ to_be_bytes 2 (type_size column) ++
            to_be_bytes 4 (type_modifier column) ++ to_be_bytes 2 format ++ rest))
      | Some _, r => r
      | None, _ => None
      end
  end.

Definition row_description_with_formats (columns : list BackendColumn) (result_format_codes : list Z) : writer :=
  given (Some (try_i16 columns "too many columns")) (fun field_count =>
    given (describe_columns result_format_codes 0 columns) (fun fields =>
      message "T" (to_be_bytes 2 field_count ++ fields))).

Definition row_description (columns : list BackendColumn) : writer :=
  row_description_with_formats columns [].

(** The bytes of one value; [columns[idx]] is only indexed for a binary format. *)
Definition value_field (columns : list BackendColumn) (formats : list Z) (idx : nat) (value : string)
    : computed (list byte) :=
  match format_code_at formats idx with
  | None => None
  | Some format =>
      if format =? 1 then
        match columns !! idx with
        | None => None
        | Some column => Some (encode_binary_result_value value (oid column))
        end
      else Some (Ok (as_bytes value))
  end.

(** The loop over [values.iter().enumerate()]. *)
Fixpoint encode_values (columns : list BackendColumn) (formats : list Z) (idx : nat)
    (values : list (option string)) : computed (list byte) :=
  match values with
  | [] => Some (Ok [])
  | None :: values =>
      match encode_values columns formats (S idx) values with
      | Some (Ok rest) => Some (Ok (to_be_bytes 4 (-1) ++ rest))
      | r => r
      end
  | Some value :: values =>
      match value_field columns formats idx value with
      | Some (Ok bytes) =>
          if vec_len bytes <=? 2147483647 then
            match encode_values columns formats (S idx) values with
            | Some (Ok rest) => Some (Ok (to_be_bytes 4 (vec_len bytes) ++ bytes ++ rest))
            | r => r
            end
          else Some (Err "row value too large to encode")
      | r => r
      end
  end.

Definition data_row_with_formats (columns : list BackendColumn) (values : list (option string))
    (result_format_codes : list Z) : writer :=
  given (Some (try_i16 values "too many row values")) (fun value_count =>
    given (encode_values columns result_format_codes 0 values) (fun fields =>
      message "D" (to_be_bytes 2 value_count ++ fields))).

(** [SqlType::Text.postgres_oid()] and [type_size()]. *)
Definition text_oid : Z := 25.
Definition text_size : Z := -1.

Definition data_row (values : list (option string)) : writer :=
  data_row_with_formats ((fun _ => column_new EmptyString text_oid text_size) <$> values) values [].

Fixpoint data_rows (rows : list (list (option string))) (k : writer) : writer :=
  match rows with
  | [] => k
  | row :: rows => (data_row row ;; data_rows rows k)%writer
  end.

Definition rows_with_tag (columns : list BackendColumn) (rows : list (list (option string)))
    (include_row_description : bool) (tag : string) : writer :=
  let body := data_rows rows (command_complete tag) in
  if include_row_description then (row_description columns ;; body)%writer else body.

Definition select_rows (columns : list BackendColumn) (rows : list (list (option string)))
    (include_row_description : bool) : writer :=
  rows_with_tag columns rows include_row_description ("SELECT " +:+ pretty (vec_len rows)).

Definition error_response (error : BackendError) : writer :=
  message "E"
    (push_error_field "S" "ERROR" ++ push_error_field "V" "ERROR" ++
     push_error_field "C" (code error) ++ push_error_field "M" (err_message error) ++
     match position error with Some position => push_error_field "P" position | None => [] end ++ [x00]).

End Backend.
