(* ===== verification/PgBackendProps.v ===== *)
(** * The backend protocol: properties

    What any sequence of writer calls leaves on the stream is a sequence of whole messages,
    and a client that reads a result set back obtains the columns, rows and tag. *)

From stdpp Require Import base strings list.
From S2P Require Import Prelude Types Bytes PgFrontend PgFrontendFacts PgBackend.

Module BackendProps.
Import Pg PgFacts Backend.

(** ** Frames *)

Definition frame (m : byte * list byte) : list byte :=
  m.1 :: to_be_bytes 4 (vec_len m.2 + 4) ++ m.2.

Definition frames (ms : list (byte * list byte)) : list byte := ms ≫= frame.

Definition frame_fits (m : byte * list byte) : Prop := vec_len m.2 + 4 < 2 ^ 31.

(** A client's reader of the stream; [fuel] bounds the number of messages. *)
Fixpoint read_messages (fuel : nat) (stream : list byte) : option (list (byte * list byte)) :=
  match stream, fuel with
  | [], _ => Some []
  | _, O => None
  | tag :: rest, S fuel =>
      let n := from_be_bytes (take 4 rest) in
      let body := drop 4 rest in
      if (length rest <? 4)%nat || (n <? 4) || (vec_len body <? n - 4) then None
      else
        ms ← read_messages fuel (drop (Z.to_nat (n - 4)) body);
        Some ((tag, take (Z.to_nat (n - 4)) body) :: ms)
  end.

Definition client_messages (stream : list byte) : option (list (byte * list byte)) :=
  read_messages (length stream) stream.

Lemma frames_app a b : frames (a ++ b) = frames a ++ frames b.
Proof. apply bind_app. Qed.

Lemma frames_cons m ms : frames (m :: ms) = frame m ++ frames ms.
Proof. done. Qed.

Lemma length_frame m : length (frame m) = (5 + length m.2)%nat.
Proof. unfold frame. cbn. by rewrite length_app, length_to_be_bytes. Qed.

Lemma read_messages_frames fuel ms :
  Forall frame_fits ms -> (length ms <= fuel)%nat -> read_messages fuel (frames ms) = Some ms.
Proof.
  intros Hms. revert fuel. induction Hms as [|[t p] ms Hp Hms IH]; intros fuel Hf; [by destruct fuel|].
  destruct fuel as [|fuel]; [cbn in Hf; lia|]. rewrite frames_cons. unfold frame. cbn.
  unfold frame_fits, vec_len in *. cbn in Hp. rewrite <- !app_assoc.
  rewrite take_app_length', drop_app_length' by byte_len.
  rewrite from_to_be_bytes by (cbn; lia). rewrite !length_app, length_to_be_bytes.
  destruct (Nat.ltb_spec (4 + (length p + length (frames ms))) 4); [lia|].
  destruct (Z.ltb_spec (Z.of_nat (length p) + 4) 4); [lia|].
  destruct (Z.ltb_spec (Z.of_nat (length p + length (frames ms))) (Z.of_nat (length p) + 4 - 4)); [lia|].
  cbn. replace (Z.to_nat (Z.of_nat (length p) + 4 - 4)) with (length p) by lia.
  rewrite take_app_length, drop_app_length, IH by (cbn in Hf; lia). done.
Qed.

Lemma length_frames ms : (length ms <= length (frames ms))%nat.
Proof.
  induction ms as [|m ms IH]; [done|]. rewrite frames_cons, length_app, length_frame. cbn. lia.
Qed.

Lemma client_messages_frames ms : Forall frame_fits ms -> client_messages (frames ms) = Some ms.
Proof. intros. apply read_messages_frames; [done|apply length_frames]. Qed.

(** ** Writers *)

(** Whatever the result, the writer has appended whole messages. *)
Class Framed (w : writer) : Prop :=
  framed out r out' : w out = Some (r, out') ->
    exists ms, Forall frame_fits ms /\ out' = out ++ frames ms.

#[global] Instance message_framed tag payload : Framed (message tag payload).
Proof.
  intros out r out'. unfold message, write_message.
  destruct (Z.leb_spec (vec_len payload + 4) 2147483647); intros [= <- <-].
  - exists [(tag, payload)]. split; [|unfold frames; cbn; by rewrite app_nil_r].
    apply Forall_singleton. unfold frame_fits. cbn. lia.
  - exists []. by rewrite app_nil_r.
Qed.

#[global] Instance throw_framed e : Framed (throw e).
Proof. intros out r out' [= <- <-]. exists []. by rewrite app_nil_r. Qed.

#[global] Instance andthen_framed a b : Framed a -> Framed b -> Framed (andthen a b).
Proof.
  intros Ha Hb out r out'. unfold andthen. destruct (a out) as [[[]out1]|] eqn:E; [..|done].
  - intros Hr. apply Ha in E as (ms1 & H1 & ->). apply Hb in Hr as (ms2 & H2 & ->).
    exists (ms1 ++ ms2). rewrite frames_app, app_assoc. split; [by apply Forall_app|done].
  - intros [= <- <-]. by apply Ha in E.
Qed.

#[global] Instance given_framed {A} c (k : A -> writer) : (forall a, Framed (k a)) -> Framed (given c k).
Proof.
  intros Hk out r out'. unfold given. destruct c as [[a|e]|]; [apply Hk| |done].
  intros [= <- <-]. exists []. by rewrite app_nil_r.
Qed.

#[global] Instance data_rows_framed rows k : Framed k -> Framed (data_rows rows k).
Proof.
  intros Hk. induction rows; cbn; [done|]. unfold data_row, data_row_with_formats. apply _.
Qed.

(** The calls of a [BackendWriter]. *)
Inductive BackendCall :=
| CallAuthenticationOk
| CallAuthenticationSasl (mechanisms : list string)
| CallAuthenticationSaslContinue (data : list byte)
| CallAuthenticationSaslFinal (data : list byte)
| CallBackendKeyData (process_id secret_key : Z)
| CallParameterStatus (key value : string)
| CallReadyForQuery (status : TransactionStatus)
| CallEmptyQueryResponse
| CallCommandComplete (tag : string)
| CallParseComplete | CallBindComplete | CallCloseComplete | CallPortalSuspended | CallNoData
| CallCopyOutResponse (column_count : Z)
| CallCopyInResponse (column_count : Z)
| CallCopyData (bytes : list byte)
| CallCopyDone
| CallParameterDescription (type_oids : list Z)
| CallRowsWithTag (columns : list BackendColumn) (rows : list (list (option string))) (describe : bool) (tag : string)
| CallRowDescription (columns : list BackendColumn) (formats : list Z)
| CallDataRow (columns : list BackendColumn) (values : list (option string)) (formats : list Z)
| CallErrorResponse (error : BackendError).

Definition call (c : BackendCall) : writer :=
  match c with
  | CallAuthenticationOk => authentication_ok
  | CallAuthenticationSasl mechanisms => authentication_sasl mechanisms
  | CallAuthenticationSaslContinue data => authentication_sasl_continue data
  | CallAuthenticationSaslFinal data => authentication_sasl_final data
  | CallBackendKeyData process_id secret_key => backend_key_data process_id secret_key
  | CallParameterStatus key value => parameter_status key value
  | CallReadyForQuery status => ready_for_query_status status
  | CallEmptyQueryResponse => empty_query_response
  | CallCommandComplete tag => command_complete tag
  | CallParseComplete => parse_complete
  | CallBindComplete => bind_complete
  | CallCloseComplete => close_complete
  | CallPortalSuspended => portal_suspended
  | CallNoData => no_data
  | CallCopyOutResponse n => copy_out_response n
  | CallCopyInResponse n => copy_in_response n
  | CallCopyData bytes => copy_data bytes
  | CallCopyDone => copy_done
  | CallParameterDescription oids => parameter_description oids
  | CallRowsWithTag columns rows describe tag => rows_with_tag columns rows describe tag
  | CallRowDescription columns formats => row_description_with_formats columns formats
  | CallDataRow columns values formats => data_row_with_formats columns values formats
  | CallErrorResponse error => error_response error
  end.

#[global] Instance call_framed c : Framed (call c).
Proof.
  destruct c; cbn; try apply message_framed.
  1,2: unfold copy_out_response, copy_in_response, copy_response; case_match; apply _.
  2: unfold rows_with_tag, row_description; destruct describe.
  all: unfold parameter_description, row_description_with_formats, data_row_with_formats,
    command_complete; apply _.
Qed.

(** ** Panics *)

(** A list of format codes that is neither empty, single nor long enough; a binary value
    without a column. *)
Definition short_formats (formats : list Z) (n : nat) : Prop := (2 <= length formats < n)%nat.

Definition misused (c : BackendCall) : Prop :=
  match c with
  | CallRowDescription columns formats => short_formats formats (length columns)
  | CallDataRow columns values formats =>
      short_formats formats (length values) \/ (length columns < length values)%nat
  | _ => False
  end.

Lemma format_code_at_None formats idx n :
  (idx < n)%nat -> format_code_at formats idx = None -> short_formats formats n.
Proof.
  unfold short_formats. intros Hi Hf. destruct formats as [|a [|b l]]; [done..|].
  change (format_code_at (a :: b :: l) idx) with ((a :: b :: l) !! idx) in Hf.
  apply lookup_ge_None in Hf. cbn in *. lia.
Qed.

Lemma describe_columns_None formats n columns idx :
  (idx + length columns <= n)%nat -> describe_columns formats idx columns = None -> short_formats formats n.
Proof.
  revert idx. induction columns as [|c columns IH]; intros idx Hn; cbn; [done|]. cbn in Hn.
  destruct (format_code_at formats idx) eqn:E; [|intros _; eapply format_code_at_None; [|done]; lia].
  specialize (IH (S idx) ltac:(lia)). by destruct (describe_columns formats (S idx) columns) as [[]|].
Qed.

Lemma encode_values_None columns formats n values idx :
  (idx + length values <= n)%nat -> encode_values columns formats idx values = None ->
  short_formats formats n \/ (length columns < n)%nat.
Proof.
  revert idx. induction values as [|v values IH]; intros idx Hn; cbn; [done|]. cbn in Hn.
  specialize (IH (S idx) ltac:(lia)). destruct v as [v|].
  - destruct (value_field columns formats idx v) as [[bytes|]|] eqn:E; [|done|].
    + destruct (_ <=? _); [|done]. by destruct (encode_values columns formats (S idx) values) as [[]|].
    + intros _. unfold value_field in E. destruct (format_code_at formats idx) as [f|] eqn:Ef.
      * destruct (f =? 1); [|done]. destruct (columns !! idx) eqn:Ec; [done|].
        apply lookup_ge_None in Ec. right. lia.
      * left. eapply format_code_at_None; [|done]. lia.
  - by destruct (encode_values columns formats (S idx) values) as [[]|].
Qed.

Class Total (w : writer) : Prop := total out : w out <> None.

#[global] Instance message_total tag payload : Total (message tag payload).
Proof. intros out. unfold message, write_message. by case_match. Qed.

#[global] Instance andthen_total a b : Total a -> Total b -> Total (andthen a b).
Proof.
  intros Ha Hb out. unfold andthen. specialize (Ha out). destruct (a out) as [[[]out1]|]; [apply Hb|done|done].
Qed.

Lemma given_total {A} c (k : A -> writer) : c <> None -> (forall a, Total (k a)) -> Total (given c k).
Proof. intros Hc Hk out. unfold given. destruct c as [[a|]|]; [apply Hk|done|done]. Qed.

#[global] Instance row_description_total columns : Total (row_description columns).
Proof.
  apply given_total; [done|]. intros n. apply given_total; [|apply _].
  intros H. apply (describe_columns_None _ (length columns)) in H; [|done].
  unfold short_formats in H. cbn in H. lia.
Qed.

#[global] Instance data_rows_total rows k : Total k -> Total (data_rows rows k).
Proof.
  intros Hk. induction rows as [|row rows IH]; cbn; [done|]. apply andthen_total; [|done].
  apply given_total; [done|]. intros n. apply given_total; [|apply _].
  intros H. apply (encode_values_None _ _ (length row)) in H; [|done].
  unfold short_formats in H. rewrite length_fmap in H. cbn in H. lia.
Qed.

(** Compare calls by their arguments before unfolding what a message writes. *)
#[local] Strategy 1000 [message write_message].

Lemma call_panics c out : call c out = None -> misused c.
Proof.
  intros H. destruct c; cbn [call] in H; try by apply message_total in H.
  - unfold copy_out_response, copy_response in H. case_match; [by apply message_total in H|done].
  - unfold copy_in_response, copy_response in H. case_match; [by apply message_total in H|done].
  - unfold parameter_description, given, try_i16 in H. case_match; [|done].
    by apply message_total in H.
  - unfold rows_with_tag, command_complete in H. destruct describe; by apply total in H.
  - unfold row_description_with_formats, given, try_i16 in H. case_match; [|done].
    destruct (describe_columns formats 0 columns) as [[]|] eqn:E; [|done|by eapply describe_columns_None in E].
    by apply message_total in H.
  - unfold data_row_with_formats, given, try_i16 in H. case_match; [|done].
    destruct (encode_values columns formats 0 values) as [[]|] eqn:E; [|done|by eapply encode_values_None in E].
    by apply message_total in H.
Qed.

(** A connection's calls, in order, whatever their results. *)
Fixpoint run_calls (calls : list BackendCall) (out : list byte)
    : option (list (result unit io_error) * list byte) :=
  match calls with
  | [] => Some ([], out)
  | c :: calls =>
      '(r, out) ← call c out;
      '(rs, out) ← run_calls calls out;
      Some (r :: rs, out)
  end.

Lemma run_calls_framed calls out :
  match run_calls calls out with
  | Some (rs, out') => length rs = length calls /\
      exists ms, Forall frame_fits ms /\ out' = out ++ frames ms
  | None => Exists misused calls
  end.
Proof.
  revert out. induction calls as [|c calls IH]; intros out; cbn.
  { split; [done|]. exists []. by rewrite app_nil_r. }
  destruct (call c out) as [[r out1]|] eqn:E; cbn; [|left; by eapply call_panics].
  specialize (IH out1). destruct (run_calls calls out1) as [[rs out2]|]; cbn; [|by right].
  destruct IH as [<- (ms2 & H2 & ->)]. apply call_framed in E as (ms1 & H1 & ->).
  split; [done|]. exists (ms1 ++ ms2). rewrite frames_app, app_assoc. split; [by apply Forall_app|done].
Qed.

(** The backend stream is never torn: after any sequence of writer calls, failed calls
    included, a client splits the stream into whole messages whose frames are all of its
    bytes.  A call panics only when it is misused: with two or more format codes but fewer than
    fields, or with a row longer than its columns. *)
Theorem backend_stream_framed calls :
  match run_calls calls [] with
  | Some (rs, stream) => length rs = length calls /\
      exists ms, client_messages stream = Some ms /\ stream = frames ms
  | None => Exists misused calls
  end.
Proof.
  pose proof (run_calls_framed calls []) as H. destruct (run_calls calls []) as [[rs out]|]; [|done].
  destruct H as [Hl (ms & Hms & ->)]. split; [done|]. exists ms. split; [|done].
  by apply client_messages_frames.
Qed.

(** ** Result sets *)

(** What a client receives: the description if any, the rows, and the completion tag. *)
Record ResultSet := mkResultSet {
  rs_columns : option (list BackendColumn);
  rs_rows : list (list (option (list byte)));
  rs_tag : string;
}.

Definition client_error : FrontendMessageError := InvalidBindPayload.

Definition decode_row (payload : list byte) : parsed (list (option (list byte))) :=
  let? (n, rest) := read_count client_error payload in
  let? (values, rest) := read_values client_error n rest in
  finish client_error rest values.

(** Table oid and attribute number are not kept; the format code must be text. *)
Definition decode_column (rest : list byte) : parsed (BackendColumn * list byte) :=
  let? (name, rest) := read_name client_error rest in
  let? (table, rest) := get 4 rest client_error in
  let? (attribute, rest) := read_i16 client_error rest in
  let? (oid, rest) := get 4 rest client_error in
  let? (size, rest) := read_i16 client_error rest in
  let? (modifier, rest) := read_i32 client_error rest in
  let? (format, rest) := read_i16 client_error rest in
  if format =? 0 then Ok (mkColumn name (from_be_bytes oid) size modifier, rest) else Err client_error.

Fixpoint decode_columns (n : nat) (rest : list byte) : parsed (list BackendColumn * list byte) :=
  match n with
  | O => Ok ([], rest)
  | S n =>
      let? (c, rest) := decode_column rest in
      let? (cs, rest) := decode_columns n rest in
      Ok (c :: cs, rest)
  end.

Definition decode_description (payload : list byte) : parsed (list BackendColumn) :=
  let? (n, rest) := read_count client_error payload in
  let? (columns, rest) := decode_columns n rest in
  finish client_error rest columns.

Fixpoint decode_rows (ms : list (byte * list byte)) : parsed (list (list (option (list byte))) * string) :=
  match ms with
  | ("D", payload) :: ms =>
      let? row := decode_row payload in
      let? (rows, tag) := decode_rows ms in
      Ok (row :: rows, tag)
  | [("C", payload)] =>
      let? tag := parse_cstring payload client_error in
      Ok ([], tag)
  | _ => Err client_error
  end%byte.

Definition decode_result (ms : list (byte * list byte)) : parsed ResultSet :=
  match ms with
  | ("T", payload) :: ms =>
      let? columns := decode_description payload in
      let? (rows, tag) := decode_rows ms in
      Ok (mkResultSet (Some columns) rows tag)
  | ms =>
      let? (rows, tag) := decode_rows ms in
      Ok (mkResultSet None rows tag)
  end%byte.

(** ** What is written *)

Definition column_bytes (c : BackendColumn) : list byte :=
  c_bytes (col_name c) ++ to_be_bytes 4 0 ++ to_be_bytes 2 0 ++ to_be_bytes 4 (oid c) ++
  to_be_bytes 2 (type_size c) ++ to_be_bytes 4 (type_modifier c) ++ to_be_bytes 2 0.

Definition description_payload (columns : list BackendColumn) : list byte :=
  count_bytes columns ++ (columns ≫= column_bytes).

Definition row_values (row : list (option string)) : list (option (list byte)) := option_map as_bytes <$> row.

Definition row_payload (row : list (option string)) : list byte :=
  count_bytes row ++ values_bytes (row_values row).

Definition column_ok (c : BackendColumn) : Prop :=
  name_ok (col_name c) /\ 0 <= oid c < 2 ^ 32 /\ signed 16 (type_size c) /\ signed 32 (type_modifier c).

Definition payload_fits (payload : list byte) : Prop := vec_len payload + 4 < 2 ^ 31.

Definition row_fits (row : list (option string)) : Prop := count_ok row /\ payload_fits (row_payload row).

Definition description_ok (columns : list BackendColumn) : Prop :=
  count_ok columns /\ Forall column_ok columns /\ payload_fits (description_payload columns).

Lemma message_fits tag payload out :
  payload_fits payload -> message tag payload out = Some (Ok tt, out ++ frame (tag, payload)).
Proof.
  unfold payload_fits, message, write_message. intros H.
  destruct (Z.leb_spec (vec_len payload + 4) 2147483647); [done|lia].
Qed.

Lemma describe_columns_text idx columns :
  describe_columns [] idx columns = Some (Ok (columns ≫= column_bytes)).
Proof.
  revert idx. induction columns as [|c columns IH]; intros idx; cbn; [done|]. rewrite IH.
  unfold column_bytes, c_bytes, push_cstring. by rewrite <- !app_assoc.
Qed.

Lemma encode_values_text columns idx row :
  Forall value_ok (row_values row) ->
  encode_values columns [] idx row = Some (Ok (values_bytes (row_values row))).
Proof.
  revert idx. induction row as [|v row IH]; intros idx Hv; [done|].
  apply Forall_cons in Hv as [Hv Hrow]. specialize (IH (S idx) Hrow).
  destruct v as [v|]; cbn in *; rewrite IH; [|done].
  destruct (Z.leb_spec (vec_len (as_bytes v)) 2147483647); [|lia].
  unfold values_bytes. by rewrite <- app_assoc.
Qed.

Lemma values_fit row : payload_fits (row_payload row) -> Forall value_ok (row_values row).
Proof.
  unfold payload_fits, row_payload, vec_len. rewrite length_app. generalize (length (count_bytes row)) as k.
  intros k Hk. revert k Hk. generalize (row_values row) as vs. unfold values_bytes.
  induction vs as [|v vs IH]; intros k Hk; [constructor|]. cbn in Hk. rewrite length_app in Hk.
  constructor; [|apply (IH k); cbn; lia].
  destruct v as [l|]; [|done]. cbn in *. unfold vec_len. rewrite length_app in Hk. lia.
Qed.

Lemma try_i16_ok {A} (l : list A) e : count_ok l -> try_i16 l e = Ok (vec_len l).
Proof. unfold count_ok, try_i16. intros. by rewrite (proj2 (Z.leb_le _ _)) by lia. Qed.

Lemma data_row_writes row out :
  row_fits row -> data_row row out = Some (Ok tt, out ++ frame ("D"%byte, row_payload row)).
Proof.
  intros [Hc Hp]. unfold data_row, data_row_with_formats, given.
  rewrite try_i16_ok, encode_values_text by (done || by apply values_fit). by apply message_fits.
Qed.

Lemma row_description_writes columns out :
  description_ok columns ->
  row_description columns out = Some (Ok tt, out ++ frame ("T"%byte, description_payload columns)).
Proof.
  intros (Hc & _ & Hp). unfold row_description, row_description_with_formats, given.
  rewrite try_i16_ok, describe_columns_text by done. by apply message_fits.
Qed.

Definition result_messages (columns : list BackendColumn) (rows : list (list (option string)))
    (describe : bool) (tag : string) : list (byte * list byte) :=
  (if describe then [("T"%byte, description_payload columns)] else []) ++
  ((fun row => ("D"%byte, row_payload row)) <$> rows) ++ [("C"%byte, c_bytes tag)].

Lemma data_rows_write rows k out :
  Forall row_fits rows ->
  data_rows rows k out = k (out ++ frames ((fun row => ("D"%byte, row_payload row)) <$> rows)).
Proof.
  intros Hr. revert out. induction Hr as [|row rows Hrow _ IH]; intros out; cbn.
  { by rewrite app_nil_r. }
  unfold andthen. rewrite data_row_writes by done. rewrite IH. f_equal. by rewrite <- app_assoc.
Qed.

Lemma rows_with_tag_writes columns rows describe tag out :
  (describe = true -> description_ok columns) -> Forall row_fits rows -> payload_fits (c_bytes tag) ->
  rows_with_tag columns rows describe tag out =
    Some (Ok tt, out ++ frames (result_messages columns rows describe tag)).
Proof.
  intros Hd Hr Ht. unfold rows_with_tag, result_messages.
  assert (forall out, data_rows rows (command_complete tag) out =
    Some (Ok tt, out ++ frames (((fun row => ("D"%byte, row_payload row)) <$> rows) ++ [("C"%byte, c_bytes tag)]))) as Hb.
  { intros o. rewrite data_rows_write by done. unfold command_complete.
    rewrite message_fits by done. rewrite frames_app, app_assoc. unfold frames at 3. cbn. by rewrite app_nil_r. }
  destruct describe; [|apply Hb]. unfold andthen. rewrite row_description_writes by auto. rewrite Hb.
  cbn. rewrite <- app_assoc. done.
Qed.

(** ** What is read *)

Lemma decode_column_bytes c r : column_ok c -> decode_column (column_bytes c ++ r) = Ok (c, r).
Proof.
  intros (Hn & Ho & Hs & Hm). destruct c as [name o size modifier].
  cbn in Hn, Ho, Hs, Hm.
  unfold decode_column, column_bytes. cbn [col_name oid type_size type_modifier].
  pose proof (fun r => read_name_app client_error name r Hn) as Hr. revert Hr.
  generalize (c_bytes name) as cb. intros cb Hr. rewrite <- !app_assoc, Hr.
  rewrite get_be_app, read_i16_app by done. rewrite get_be_app, read_i16_app by done.
  rewrite read_i32_app, read_i16_app by done. cbn. by rewrite from_to_be_bytes.
Qed.

Lemma decode_columns_bytes columns r :
  Forall column_ok columns -> decode_columns (length columns) ((columns ≫= column_bytes) ++ r) = Ok (columns, r).
Proof.
  induction 1 as [|c columns Hc _ IH]; cbn; [done|]. rewrite <- app_assoc, decode_column_bytes by done.
  by rewrite IH.
Qed.

Lemma decode_description_payload columns :
  description_ok columns -> decode_description (description_payload columns) = Ok columns.
Proof.
  intros (Hc & Hok & _). unfold decode_description, description_payload. rewrite read_count_app by done.
  rewrite <- (app_nil_r (columns ≫= column_bytes)), decode_columns_bytes by done. done.
Qed.

Lemma decode_row_payload row : row_fits row -> decode_row (row_payload row) = Ok (row_values row).
Proof.
  intros [Hc Hp]. unfold decode_row, row_payload. rewrite read_count_app by done.
  rewrite <- (app_nil_r (values_bytes _)).
  replace (length row) with (length (row_values row)) by apply length_fmap.
  by rewrite read_values_app by (by apply values_fit).
Qed.

Lemma decode_rows_messages rows tag :
  Forall row_fits rows -> name_ok tag ->
  decode_rows (((fun row => ("D"%byte, row_payload row)) <$> rows) ++ [("C"%byte, c_bytes tag)]) =
    Ok (row_values <$> rows, tag).
Proof.
  intros Hr Ht. induction Hr as [|row rows Hrow _ IH]; cbn.
  - by rewrite (proj2 (parse_cstring_Ok _ client_error tag)).
  - by rewrite decode_row_payload, IH.
Qed.

Lemma decode_result_messages columns rows describe tag :
  (describe = true -> description_ok columns) -> Forall row_fits rows -> name_ok tag ->
  decode_result (result_messages columns rows describe tag) =
    Ok (mkResultSet (if describe then Some columns else None) (row_values <$> rows) tag).
Proof.
  intros Hd Hr Ht. pose proof (decode_rows_messages rows tag Hr Ht) as Hm. unfold result_messages.
  destruct describe; cbn.
  - by rewrite decode_description_payload, Hm by auto.
  - destruct rows; cbn in *; by rewrite Hm.
Qed.

Lemma result_messages_fit columns rows describe tag :
  (describe = true -> description_ok columns) -> Forall row_fits rows -> payload_fits (c_bytes tag) ->
  Forall frame_fits (result_messages columns rows describe tag).
Proof.
  intros Hd Hr Ht. unfold result_messages. rewrite !Forall_app, Forall_fmap. split_and!.
  - destruct describe; [|constructor]. apply Forall_singleton. by apply Hd.
  - eapply Forall_impl; [exact Hr|]. by intros row [_ ?].
  - by apply Forall_singleton.
Qed.

(** A result set survives the wire: when its counts and messages fit their length
    fields, [rows_with_tag] appends to the stream bytes from which a client reads back the
    described columns (name, type, size and modifier), every row with its NULLs, and the
    completion tag. *)
Theorem result_set_round_trip columns rows describe tag out :
  (describe = true -> description_ok columns) -> Forall row_fits rows ->
  name_ok tag -> payload_fits (c_bytes tag) ->
  exists stream ms,
    rows_with_tag columns rows describe tag out = Some (Ok tt, out ++ stream) /\
    client_messages stream = Some ms /\
    decode_result ms =
      Ok (mkResultSet (if describe then Some columns else None) (row_values <$> rows) tag).
Proof.
  intros Hd Hr Hn Ht. set (ms := result_messages columns rows describe tag). exists (frames ms), ms.
  split_and!; [by apply rows_with_tag_writes| |by apply decode_result_messages].
  by apply client_messages_frames, result_messages_fit.
Qed.

Definition sample_columns : list BackendColumn := [column_new "id" 23 4; column_new "name" 25 (-1)].

Definition sample_rows : list (list (option string)) := [[Some "7"; Some "Ada"]; [Some "8"; None]].

Lemma result_set_round_trip_witness :
  exists stream ms,
    rows_with_tag sample_columns sample_rows true "SELECT 2" [] = Some (Ok tt, [] ++ stream) /\
    client_messages stream = Some ms /\
    decode_result ms = Ok (mkResultSet (Some sample_columns) (row_values <$> sample_rows) "SELECT 2").
Proof.
  apply (result_set_round_trip sample_columns sample_rows true "SELECT 2" []).
  - intros _. split; [reflexivity|split; [|reflexivity]].
    apply Forall_cons; split; [|apply Forall_singleton].
    all: split; [split; [reflexivity|apply existsb_nul; reflexivity]|].
    all: unfold signed; cbn; lia.
  - apply Forall_cons; split; [|apply Forall_singleton]; split; reflexivity.
  - split; [reflexivity|apply existsb_nul; reflexivity].
  - reflexivity.
Defined.

End BackendProps.
