(* ===== verification/Batching.v ===== *)
(** * The dual-trigger batcher (crates/batching/src/lib.rs)

    Items are flushed when the queue reaches [max_items] or when its first item has waited
    [max_wait].  An [Instant] is a count of nanoseconds of the monotonic clock. *)

From stdpp Require Import base list.
From S2P Require Import Prelude.

Module Batching.

Inductive FlushReason := Count | Time | Admin.

Record BatchItem (T : Type) := mkItem { item : T; enqueued_at : Z }.
Arguments mkItem {T} item enqueued_at.
Arguments item {T} _.
Arguments enqueued_at {T} _.

Record Batch (T : Type) := mkBatch { items : list (BatchItem T); reason : FlushReason }.
Arguments mkBatch {T} items reason.
Arguments items {T} _.
Arguments reason {T} _.

Record DualTriggerBatcher (T : Type) := mkBatcher {
  max_items : Z;
  max_wait : Z;
  queue : list (BatchItem T);
  first_enqueued_at : option Z;
}.
Arguments mkBatcher {T} max_items max_wait queue first_enqueued_at.
Arguments max_items {T} _.
Arguments max_wait {T} _.
Arguments queue {T} _.
Arguments first_enqueued_at {T} _.

Section batcher.
Context {T : Type}.
Implicit Types (b : DualTriggerBatcher T) (now : Z).

(** [None] is the failed assertion. *)
Definition new (max_items max_wait : Z) : option (DualTriggerBatcher T) :=
  if 0 <? max_items then Some (mkBatcher max_items max_wait [] None) else None.

Definition flush b (reason : FlushReason) : DualTriggerBatcher T * option (Batch T) :=
  match queue b with
  | [] => (b, None)
  | items => (mkBatcher (max_items b) (max_wait b) [] None, Some (mkBatch items reason))
  end.

Definition enqueue b (item : T) now : DualTriggerBatcher T * option (Batch T) :=
  let first := match first_enqueued_at b with None => Some now | first => first end in
  let b := mkBatcher (max_items b) (max_wait b) (queue b ++ [mkItem item now]) first in
  if max_items b <=? vec_len (queue b) then flush b Count else (b, None).

(** [Instant::saturating_duration_since] *)
Definition saturating_duration_since now (earlier : Z) : Z := saturating_sub now earlier.

Definition maybe_flush_due_to_time b now : DualTriggerBatcher T * option (Batch T) :=
  match first_enqueued_at b with
  | None => (b, None)
  | Some first =>
      if (max_wait b <=? saturating_duration_since now first) && negb (length (queue b) =? 0)%nat
      then flush b Time
      else (b, None)
  end.

Definition flush_admin b : DualTriggerBatcher T * option (Batch T) := flush b Admin.

Definition requeue_front b (items : list (BatchItem T)) : DualTriggerBatcher T :=
  match items with
  | [] => b
  | _ =>
      let items := items ++ queue b in
      mkBatcher (max_items b) (max_wait b) items (enqueued_at <$> head items)
  end.

Definition len b : Z := vec_len (queue b).

Definition is_empty b : bool := (length (queue b) =? 0)%nat.

Definition time_until_flush_deadline b now : option Z :=
  match first_enqueued_at b with
  | None => None
  | Some first => Some (saturating_sub (max_wait b) (saturating_duration_since now first))
  end.

End batcher.

(** ** The batcher as a state machine *)

Inductive Op (T : Type) :=
| OpEnqueue (item : T) (now : Z)
| OpTick (now : Z)
| OpAdmin
| OpRequeue (items : list (BatchItem T)).
Arguments OpEnqueue {T} item now.
Arguments OpTick {T} now.
Arguments OpAdmin {T}.
Arguments OpRequeue {T} items.

Section machine.
Context {T : Type}.
Implicit Types (b : DualTriggerBatcher T).

Definition step b (op : Op T) : DualTriggerBatcher T * option (Batch T) :=
  match op with
  | OpEnqueue item now => enqueue b item now
  | OpTick now => maybe_flush_due_to_time b now
  | OpAdmin => flush_admin b
  | OpRequeue items => (requeue_front b items, None)
  end.

(** The first item's time is known exactly while there is one. *)
Definition batcher_ok b : Prop :=
  0 < max_items b /\ first_enqueued_at b = enqueued_at <$> head (queue b).

Lemma new_ok n wait b : new n wait = Some b -> batcher_ok b /\ queue b = [].
Proof. unfold new. destruct (Z.ltb_spec 0 n); [|done]. by intros [= <-]. Qed.

Lemma flush_spec b reason :
  queue (flush b reason).1 = [] /\
  max_items (flush b reason).1 = max_items b /\ max_wait (flush b reason).1 = max_wait b /\
  (flush b reason).2 = (if is_empty b then None else Some (mkBatch (queue b) reason)) /\
  (batcher_ok b -> batcher_ok (flush b reason).1).
Proof.
  unfold flush, is_empty, batcher_ok.
  destruct b as [n wait q first]. destruct q; cbn; split_and!; try done; by intros [? ?].
Qed.

(** The state after an item is pushed, before the count trigger looks at it. *)
Definition pushed b (item : T) (now : Z) : DualTriggerBatcher T :=
  mkBatcher (max_items b) (max_wait b) (queue b ++ [mkItem item now])
    (match first_enqueued_at b with None => Some now | first => first end).

Lemma pushed_ok b x now : batcher_ok b -> batcher_ok (pushed b x now).
Proof.
  unfold batcher_ok. intros [Hm Hf]. split; [done|]. cbn. rewrite Hf.
  by destruct (queue b).
Qed.

Lemma enqueue_pushed b x now :
  enqueue b x now =
    if max_items b <=? vec_len (queue b) + 1 then flush (pushed b x now) Count else (pushed b x now, None).
Proof.
  unfold enqueue. cbn. unfold vec_len at 1. rewrite length_app. cbn.
  replace (Z.of_nat (length (queue b) + 1)) with (vec_len (queue b) + 1) by (unfold vec_len; lia). done.
Qed.

Lemma step_ok b op : batcher_ok b ->
  batcher_ok (step b op).1 /\ max_items (step b op).1 = max_items b /\ max_wait (step b op).1 = max_wait b.
Proof.
  intros Hb. destruct op as [x now|now| |l]; cbn.
  - rewrite enqueue_pushed. destruct (_ <=? _); [|by split; [apply pushed_ok|]].
    destruct (flush_spec (pushed b x now) Count) as (_ & -> & -> & _ & Hok). by split; [apply Hok, pushed_ok|].
  - unfold maybe_flush_due_to_time. destruct (first_enqueued_at b); [|done]. destruct (_ && _); [|done].
    destruct (flush_spec b Time) as (_ & -> & -> & _ & Hok). auto.
  - unfold flush_admin. destruct (flush_spec b Admin) as (_ & -> & -> & _ & Hok). auto.
  - unfold requeue_front. destruct l as [|i l]; [done|]. split_and!; try done. by destruct Hb.
Qed.

(** ** What is delivered *)

(** The items waiting after each operation is what was waiting, plus what came in, minus what
    was handed out. *)
Definition arrivals (op : Op T) : list (BatchItem T) :=
  match op with OpEnqueue x now => [mkItem x now] | _ => [] end.

Definition returned (op : Op T) : list (BatchItem T) :=
  match op with OpRequeue l => l | _ => [] end.

Definition delivered (batches : list (Batch T)) : list (BatchItem T) := batches ≫= items.

Lemma step_conserves b op :
  delivered (option_list (step b op).2) ++ queue (step b op).1 = returned op ++ queue b ++ arrivals op.
Proof.
  unfold delivered. destruct op as [x now|now| |l]; cbn.
  - rewrite enqueue_pushed. destruct (_ <=? _); [|done].
    destruct (flush_spec (pushed b x now) Count) as (-> & _ & _ & -> & _). unfold is_empty. cbn.
    rewrite length_app. replace (length (queue b) + length [mkItem x now])%nat with (S (length (queue b))) by (cbn; lia).
    cbn. by rewrite !app_nil_r.
  - rewrite app_nil_r. unfold maybe_flush_due_to_time. destruct (first_enqueued_at b); [|done].
    destruct (_ <=? _); [|done]. destruct (Nat.eqb_spec (length (queue b)) 0); [done|]. cbn [negb andb].
    destruct (flush_spec b Time) as (-> & _ & _ & -> & _). unfold is_empty.
    rewrite (proj2 (Nat.eqb_neq _ _)) by done. cbn. by rewrite !app_nil_r.
  - rewrite app_nil_r. unfold flush_admin. destruct (flush_spec b Admin) as (-> & _ & _ & -> & _). unfold is_empty.
    destruct (Nat.eqb_spec (length (queue b)) 0) as [->%nil_length_inv|]; cbn; by rewrite ?app_nil_r.
  - rewrite app_nil_r. unfold requeue_front. by destruct l.
Qed.

(** Operations that return nothing to the front. *)
Definition plain (op : Op T) : Prop := returned op = [].

(** A history of a batcher: [arrived] was enqueued so far, and [kept] was handed out and not given
    back.  What is requeued is the last part of what was handed out, as a consumer that could not
    apply all of a batch does. *)
Inductive history b0 : bool -> DualTriggerBatcher T -> list (BatchItem T) -> list (BatchItem T) -> Prop :=
| history_start : history b0 false b0 [] []
| history_step requeued b arrived kept op :
    history b0 requeued b arrived (kept ++ returned op) ->
    history b0 (requeued || negb (length (returned op) =? 0)%nat) (step b op).1 (arrived ++ arrivals op)
      (kept ++ delivered (option_list (step b op).2)).

Lemma history_conserves b0 requeued b arrived kept :
  history b0 requeued b arrived kept -> kept ++ queue b = queue b0 ++ arrived.
Proof.
  induction 1 as [|requeued b arrived kept op _ IH]; [by rewrite app_nil_r|].
  rewrite <- app_assoc, step_conserves, !app_assoc, IH. by rewrite <- app_assoc.
Qed.

Lemma history_sound b0 requeued b arrived kept :
  batcher_ok b0 -> history b0 requeued b arrived kept ->
  batcher_ok b /\ max_items b = max_items b0 /\ max_wait b = max_wait b0.
Proof.
  intros H0. induction 1 as [|requeued b arrived kept op _ (Hb & Hm & Hw)]; [done|].
  destruct (step_ok b op Hb) as (Hb' & Hm' & Hw'). split_and!; [done|congruence|congruence].
Qed.

(** An enqueue leaves room, however long the queue was. *)
Lemma enqueue_bound b x now : 0 < max_items b -> vec_len (queue (enqueue b x now).1) < max_items b.
Proof.
  intros Hm. rewrite enqueue_pushed. destruct (Z.leb_spec (max_items b) (vec_len (queue b) + 1)).
  - destruct (flush_spec (pushed b x now) Count) as (-> & _). unfold vec_len. cbn. lia.
  - unfold vec_len in *. cbn. rewrite length_app. cbn. lia.
Qed.

Lemma step_bound b op : plain op -> 0 < max_items b -> vec_len (queue b) < max_items b ->
  vec_len (queue (step b op).1) < max_items b.
Proof.
  intros Hop Hm Hq. destruct op as [x now|now| |l]; cbn.
  - by apply enqueue_bound.
  - unfold maybe_flush_due_to_time. destruct (first_enqueued_at b); [|done]. destruct (_ && _); [|done].
    destruct (flush_spec b Time) as (-> & _). unfold vec_len in *. cbn. lia.
  - unfold flush_admin. destruct (flush_spec b Admin) as (-> & _). unfold vec_len in *. cbn. lia.
  - unfold plain in Hop. cbn in Hop. by subst l.
Qed.

Lemma history_bound b0 b arrived kept :
  batcher_ok b0 -> vec_len (queue b0) < max_items b0 -> history b0 false b arrived kept ->
  vec_len (queue b) < max_items b0.
Proof.
  intros H0 Hq. remember false as requeued eqn:E. intros H. revert E.
  induction H as [|requeued b arrived kept op Hh IH]; [done|]. intros [-> Hop]%orb_false_iff.
  destruct (history_sound _ _ _ _ _ H0 Hh) as ([Hp _] & Hm & _). rewrite <- Hm in *.
  apply step_bound; [|done|by apply IH]. apply nil_length_inv. by apply negb_false_iff, Nat.eqb_eq in Hop.
Qed.

(** [C38] The batcher delivers in order and on time.  In every history of a new batcher, requeues of
    the last items handed out included, the items handed out and not given back, followed by what
    still waits, are the items enqueued, in order; so an item is delivered again only when it was
    given back.  Without requeues the queue stays shorter than [max_items]; a requeue can make it
    longer, and the next enqueue hands all of it out.  While something waits there is a deadline: a
    clock tick before it flushes nothing, and any tick from it on flushes the whole queue. *)
Theorem batcher_delivers (n wait now : Z) b0 requeued b arrived kept :
  @new T n wait = Some b0 -> history b0 requeued b arrived kept ->
  Forall (fun i => enqueued_at i <= now) arrived ->
  kept ++ queue b = arrived /\
  (requeued = false -> vec_len (queue b) < n) /\
  (forall x t, vec_len (queue (enqueue b x t).1) < n /\
     (n <= vec_len (queue b) -> enqueue b x t
        = (mkBatcher n wait [] None, Some (mkBatch (queue b ++ [mkItem x t]) Count)))) /\
  match time_until_flush_deadline b now with
  | None => queue b = []
  | Some d => queue b <> [] /\ 0 <= d /\
      forall t, now <= t -> maybe_flush_due_to_time b t =
        if now + d <=? t then (mkBatcher n wait [] None, Some (mkBatch (queue b) Time))
        else (b, None)
  end.
Proof.
  intros Hnew Hh Hnow. pose proof (new_ok _ _ _ Hnew) as [Hok Hq].
  assert (max_items b0 = n /\ max_wait b0 = wait) as [Hn Hw] by (unfold new in Hnew; destruct (0 <? n); by simplify_eq).
  destruct (history_sound b0 _ b _ _ Hok Hh) as ([Hpos Hf] & Hm & Hwt).
  pose proof (history_conserves b0 _ b _ _ Hh) as Hc. rewrite Hq in Hc. cbn in Hc. rewrite Hn in Hm. rewrite Hw in Hwt.
  split_and!; [done| | |].
  - intros ->. rewrite <- Hn. eapply history_bound; [done| |done]. rewrite Hq. by destruct Hok.
  - intros x t. split; [rewrite <- Hm; apply enqueue_bound; lia|]. intros Hlong.
    rewrite enqueue_pushed, (proj2 (Z.leb_le _ _)) by lia. unfold flush, pushed. cbn [queue max_items max_wait].
    rewrite Hm, Hwt. by destruct (queue b).
  - unfold time_until_flush_deadline, maybe_flush_due_to_time, flush. rewrite Hf, Hm, Hwt.
    destruct (queue b) as [|i q]; [done|]. cbn.
    rewrite Forall_forall in Hnow. specialize (Hnow i ltac:(rewrite <- Hc; apply elem_of_app; right; left)).
    unfold saturating_duration_since, saturating_sub. split; [done|]. split; [lia|]. intros t Ht.
    rewrite andb_true_r.
    destruct (Z.leb_spec wait (Z.max 0 (t - enqueued_at i))),
      (Z.leb_spec (now + Z.max 0 (wait - Z.max 0 (now - enqueued_at i))) t); try done; lia.
Qed.

End machine.

(** Two items handed out on count, both given back in front of a third that waits. *)
Definition sample_batcher : DualTriggerBatcher Z := mkBatcher 2 5 [mkItem 7 10; mkItem 8 12; mkItem 9 15] (Some 10).

Lemma sample_history :
  history (mkBatcher 2 5 [] None) true sample_batcher [mkItem 7 10; mkItem 8 12; mkItem 9 15] [].
Proof.
  apply (history_step (mkBatcher 2 5 [] None) false (mkBatcher 2 5 [mkItem 9 15] (Some 15))
    [mkItem 7 10; mkItem 8 12; mkItem 9 15] [] (OpRequeue [mkItem 7 10; mkItem 8 12])).
  apply (history_step (mkBatcher 2 5 [] None) false (mkBatcher 2 5 [] None)
    [mkItem 7 10; mkItem 8 12] [mkItem 7 10; mkItem 8 12] (OpEnqueue 9 15)).
  apply (history_step (mkBatcher 2 5 [] None) false (mkBatcher 2 5 [mkItem 7 10] (Some 10))
    [mkItem 7 10] [] (OpEnqueue 8 12)).
  apply (history_step (mkBatcher 2 5 [] None) false (mkBatcher 2 5 [] None) [] [] (OpEnqueue 7 10)).
  apply history_start.
Qed.

Lemma batcher_delivers_witness :
  queue sample_batcher = [mkItem 7 10; mkItem 8 12; mkItem 9 15] /\
  enqueue sample_batcher 4 16 = (mkBatcher 2 5 [] None, Some (mkBatch (queue sample_batcher ++ [mkItem 4 16]) Count)).
Proof.
  destruct (batcher_delivers 2 5 17 (mkBatcher 2 5 [] None) true sample_batcher [mkItem 7 10; mkItem 8 12; mkItem 9 15] [])
    as (Hc & _ & He & _).
  - reflexivity.
  - apply sample_history.
  - repeat (apply Forall_cons; split; [cbn; lia|]). apply Forall_nil. exact I.
  - split; [exact Hc|]. apply (He 4 16). vm_compute. discriminate.
Defined.

End Batching.
