(* ===== verification/Snapshot.v ===== *)
(** * Snapshot generations (crates/snapshot/src/lib.rs)

    The published-generation cell and the reader handles.  A generation lives in a shared heap
    behind a reference count ([Arc]); a handle and the cell's slot each hold one reference, and
    the generation is freed when the last one goes.  The atomic pointer of the slot is the
    third-party [ArcSwap]: the class below states what the cell relies on.  Operations are
    interleaved one atomic access at a time: a publish takes its id in one step and stores its
    generation in another, so that several publishers may be between the two.  The source
    assumes one publisher per cell; what depends on that is stated for runs in which a publisher
    takes its id only when no other one is on its way. *)

From stdpp Require Import base gmap list.
From S2P Require Import Prelude.

Module Snapshot.

(** [ArcSwap::new], [load_full] and [store], on heap addresses. *)
Class ArcSwap (slot : Type) := {
  swap_new : Z -> slot;
  swap_load : slot -> Z;
  swap_store : slot -> Z -> slot;
}.

Class ArcSwapSpec (slot : Type) `{ArcSwap slot} : Prop := {
  load_new a : swap_load (swap_new a) = a;
  load_store s a : swap_load (swap_store s a) = a;
}.

Record Generation (T : Type) := mkGeneration { id : Z; payload : T }.
Arguments mkGeneration {T} id payload.
Arguments id {T} _.
Arguments payload {T} _.

(** The cell, the heap of generations with their strong counts, the live handles, and the ids of the
    publishers that have taken one and not stored their generation yet. *)
Record World (slot T : Type) := mkWorld {
  heap : gmap Z (Generation T * Z);
  next_address : Z;
  current : slot;
  next_id : Z;
  handles : gmap Z Z;
  publishers : list Z;
}.
Arguments mkWorld {slot T} heap next_address current next_id handles publishers.
Arguments heap {slot T} _.
Arguments next_address {slot T} _.
Arguments current {slot T} _.
Arguments next_id {slot T} _.
Arguments handles {slot T} _.
Arguments publishers {slot T} _.

Section cell.
Context {slot T : Type} `{ArcSwap slot}.
Implicit Types (w : World slot T) (h : gmap Z (Generation T * Z)).

(** [Arc::clone] and [drop]. *)
Definition retain h (a : Z) : gmap Z (Generation T * Z) :=
  match h !! a with Some (g, n) => <[a := (g, n + 1)]> h | None => h end.

Definition release h (a : Z) : gmap Z (Generation T * Z) :=
  match h !! a with
  | Some (g, n) => if n =? 1 then delete a h else <[a := (g, n - 1)]> h
  | None => h
  end.

(** [SnapshotCell::new] *)
Definition new (initial : T) : World slot T :=
  mkWorld {[0 := (mkGeneration 1 initial, 1)]} 1 (swap_new 0) 2 ∅ [].

(** [SnapshotCell::load], into the handle [k]. *)
Definition load w (k : Z) : World slot T :=
  let a := swap_load (current w) in
  mkWorld (retain (heap w) a) (next_address w) (current w) (next_id w) (<[k := a]> (handles w)) (publishers w).

(** [SnapshotHandle::clone] of [j] into [k]. *)
Definition clone_handle w (j k : Z) : World slot T :=
  match handles w !! j with
  | None => w
  | Some a => mkWorld (retain (heap w) a) (next_address w) (current w) (next_id w) (<[k := a]> (handles w)) (publishers w)
  end.

Definition drop_handle w (k : Z) : World slot T :=
  match handles w !! k with
  | None => w
  | Some a => mkWorld (release (heap w) a) (next_address w) (current w) (next_id w) (delete k (handles w)) (publishers w)
  end.

(** [SnapshotCell::publish], first access: [next_id.fetch_add]. *)
Definition take_id w : World slot T * Z :=
  (mkWorld (heap w) (next_address w) (current w) (u64_add (next_id w) 1) (handles w) (publishers w ++ [next_id w]),
   next_id w).

(** Second access: [current.store] of a new generation with the id [i]. *)
Definition install w (i : Z) (p : T) : World slot T :=
  let a := next_address w in
  let old := swap_load (current w) in
  let h := <[a := (mkGeneration i p, 1)]> (heap w) in
  mkWorld (release h old) (a + 1) (swap_store (current w) a) (next_id w) (handles w)
    (List.filter (fun j => negb (j =? i)) (publishers w)).

(** A publish that no other one interrupts: the new world and the id. *)
Definition publish w (p : T) : World slot T * Z :=
  let '(w, i) := take_id w in (install w i p, i).

(** [SnapshotHandle::generation], [get] and [reader_refcount]; [None] is a dangling handle. *)
Definition pinned w (k : Z) : option (Generation T * Z) := handles w !! k ≫= fun a => heap w !! a.

Definition generation w (k : Z) : option Z := id ∘ fst <$> pinned w k.
Definition get w (k : Z) : option T := payload ∘ fst <$> pinned w k.
Definition reader_refcount w (k : Z) : option Z := snd <$> pinned w k.

Definition current_generation w : option Z := id ∘ fst <$> heap w !! swap_load (current w).

(** ** Interleavings *)

(** With [serial], a publisher takes its id only when no other one is on its way. *)
Inductive step (serial : bool) : World slot T -> World slot T -> Prop :=
| step_load w k : handles w !! k = None -> step serial w (load w k)
| step_clone w j k : handles w !! k = None -> step serial w (clone_handle w j k)
| step_drop w k : step serial w (drop_handle w k)
| step_take_id w :
    next_id w < u64_max -> (serial = true -> publishers w = []) -> step serial w (take_id w).1
| step_install w i p : i ∈ publishers w -> step serial w (install w i p).

Definition reachable (serial : bool) (initial : T) w : Prop := rtc (step serial) (new initial) w.

(** ** Reference counts *)

Definition held_by w (a : Z) : gmap Z Z := filter (fun p => p.2 = a) (handles w).

Definition references w (a : Z) : Z :=
  Z.of_nat (size (held_by w a)) + (if decide (swap_load (current w) = a) then 1 else 0).

Definition count h (a : Z) : Z := match h !! a with Some (_, n) => n | None => 0 end.

Definition counted h : Prop := forall a g n, h !! a = Some (g, n) -> 0 < n.

Record world_ok w : Prop := {
  counts_exact a : count (heap w) a = references w a;
  counts_positive : counted (heap w);
  addresses_fresh a g n : heap w !! a = Some (g, n) -> a < next_address w;
  ids_bounded a g n : heap w !! a = Some (g, n) -> 1 <= id g < next_id w;
  ids_unique a b g g' n n' : heap w !! a = Some (g, n) -> heap w !! b = Some (g', n') -> id g = id g' -> a = b;
  publishers_bounded i : i ∈ publishers w -> 1 <= i < next_id w;
  publishers_unique : NoDup (publishers w);
  publishers_apart a g n : heap w !! a = Some (g, n) -> id g ∉ publishers w;
}.

(** With one publisher at a time: none is on its way and the current generation has the newest id,
    or one is, and it has the one before. *)
Definition serial_ok w : Prop :=
  vec_len (publishers w) <= 1 /\
  forall g n, heap w !! swap_load (current w) = Some (g, n) ->
    id g = next_id w - 1 - vec_len (publishers w) /\ Forall (fun i => i = next_id w - 1) (publishers w).

Definition indicator (a b : Z) : Z := if decide (a = b) then 1 else 0.

Lemma count_alive h a : 0 < count h a <-> exists g n, h !! a = Some (g, n) /\ 0 < n.
Proof. unfold count. destruct (h !! a) as [[g n]|]; naive_solver lia. Qed.

Lemma count_retain h a b : 0 < count h a -> count (retain h a) b = count h b + indicator a b.
Proof.
  intros (g & n & Ha & Hn)%count_alive. unfold retain, count, indicator. rewrite Ha.
  destruct (decide (a = b)) as [<-|]; [by rewrite lookup_insert_eq, Ha|rewrite lookup_insert_ne by done].
  destruct (h !! b) as [[]|]; lia.
Qed.

Lemma count_release h a b : 0 < count h a -> count (release h a) b = count h b - indicator a b.
Proof.
  intros (g & n & Ha & Hn)%count_alive. unfold release, count, indicator. rewrite Ha.
  destruct (decide (a = b)) as [<-|].
  - rewrite Ha. destruct (Z.eqb_spec n 1) as [->|]; [by rewrite lookup_delete_eq|by rewrite lookup_insert_eq].
  - destruct (n =? 1); rewrite ?lookup_delete_ne, ?lookup_insert_ne by done; destruct (h !! b) as [[]|]; lia.
Qed.

(** Counting never alters a generation. *)
Lemma retain_lookup h a b g n : retain h a !! b = Some (g, n) -> exists m, h !! b = Some (g, m) /\ m <= n.
Proof.
  unfold retain. destruct (h !! a) as [[g' m]|] eqn:Ha; [|by exists n].
  destruct (decide (a = b)) as [<-|]; [rewrite lookup_insert_eq|rewrite lookup_insert_ne by done; by exists n].
  intros [= <- <-]. exists m. by split; [|lia].
Qed.

Lemma release_lookup h a b g n : release h a !! b = Some (g, n) -> exists m, h !! b = Some (g, m).
Proof.
  unfold release. destruct (h !! a) as [[g' m]|] eqn:Ha; [|by exists n].
  destruct (decide (a = b)) as [<-|]; destruct (m =? 1).
  - by rewrite lookup_delete_eq.
  - rewrite lookup_insert_eq. intros [= <- <-]. by exists m.
  - rewrite lookup_delete_ne by done. by exists n.
  - rewrite lookup_insert_ne by done. by exists n.
Qed.

Lemma counted_retain h a : counted h -> counted (retain h a).
Proof. intros Hh b g n (m & Hb & Hm)%retain_lookup. apply Hh in Hb. lia. Qed.

Lemma counted_release h a : counted h -> counted (release h a).
Proof.
  intros Hh b g n. unfold release. destruct (h !! a) as [[g' m]|] eqn:Ha; [|apply Hh].
  specialize (Hh _ _ _ Ha) as Hm. destruct (Z.eqb_spec m 1).
  - rewrite lookup_delete_Some. intros [_ Hb]. by eapply Hh.
  - rewrite lookup_insert_Some. intros [[_ [= <- <-]]|[_ Hb]]; [lia|by eapply Hh].
Qed.

(** A handle more, a handle less. *)
Lemma references_insert w k a b :
  handles w !! k = None ->
  Z.of_nat (size (filter (fun p => p.2 = b) (<[k := a]> (handles w)))) =
    Z.of_nat (size (held_by w b)) + indicator a b.
Proof.
  intros Hk. unfold held_by, indicator. rewrite map_filter_insert. cbn.
  destruct (decide (a = b)) as [->|].
  - rewrite map_size_insert_None; [lia|]. apply map_lookup_filter_None. by left.
  - rewrite delete_id by done. lia.
Qed.

Lemma references_delete w k a b :
  handles w !! k = Some a ->
  Z.of_nat (size (filter (fun p => p.2 = b) (delete k (handles w)))) =
    Z.of_nat (size (held_by w b)) - indicator a b.
Proof.
  intros Hk. unfold held_by, indicator. rewrite map_filter_delete.
  destruct (decide (a = b)) as [->|].
  - assert (filter (fun p => p.2 = b) (handles w) !! k = Some b) as Hf by (by apply map_lookup_filter_Some).
    rewrite map_size_delete, Hf. assert (size (filter (fun p => p.2 = b) (handles w)) <> 0%nat); [|lia].
    intros Hz%map_size_empty_inv. by rewrite Hz in Hf.
  - rewrite delete_id; [lia|]. apply map_lookup_filter_None. right. intros x Hx. cbn. congruence.
Qed.

Lemma held_referenced w k a : handles w !! k = Some a -> 0 < references w a.
Proof.
  intros Hk. assert (held_by w a !! k = Some a) as Hf by (by apply map_lookup_filter_Some).
  unfold references. assert (size (held_by w a) <> 0%nat) by (intros Hz%map_size_empty_inv; by rewrite Hz in Hf).
  case_decide; lia.
Qed.

Lemma current_referenced w : 0 < references w (swap_load (current w)).
Proof. unfold references. rewrite decide_True by done. lia. Qed.

(** Reference counting keeps what is known of the generations in the heap. *)
Lemma counting_ok w h hs :
  world_ok w -> (forall b g n, h !! b = Some (g, n) -> exists m, heap w !! b = Some (g, m)) -> counted h ->
  let w' := mkWorld h (next_address w) (current w) (next_id w) hs (publishers w) in
  (forall b, count h b = references w' b) -> world_ok w'.
Proof.
  intros [_ _ Hf Hi Hu Hb Hn Ha] Hh Hp w' Hc. split; cbn; try done.
  - intros a g n (m & E)%Hh. by eapply Hf.
  - intros a g n (m & E)%Hh. by eapply Hi.
  - intros a b g g' n n' (m & E)%Hh (m' & E')%Hh. by eapply Hu.
  - intros a g n (m & E)%Hh. by eapply Ha.
Qed.

(** A new handle on an address that is alive. *)
Lemma retain_ok w k a :
  world_ok w -> handles w !! k = None -> 0 < references w a ->
  world_ok (mkWorld (retain (heap w) a) (next_address w) (current w) (next_id w) (<[k := a]> (handles w)) (publishers w)).
Proof.
  intros Hw Hk Ha. pose proof (counts_exact w Hw) as Hc. apply counting_ok; [done| | |].
  - intros b g n (m & Hb & _)%retain_lookup. by exists m.
  - apply counted_retain, Hw.
  - intros b. rewrite count_retain by (by rewrite Hc). rewrite Hc. unfold references, held_by at 2. cbn.
    rewrite references_insert by done. lia.
Qed.

Lemma drop_ok w k a :
  world_ok w -> handles w !! k = Some a ->
  world_ok (mkWorld (release (heap w) a) (next_address w) (current w) (next_id w) (delete k (handles w)) (publishers w)).
Proof.
  intros Hw Hk. pose proof (held_referenced w k a Hk) as Ha. pose proof (counts_exact w Hw) as Hc. apply counting_ok; [done| | |].
  - intros b g n. apply release_lookup.
  - apply counted_release, Hw.
  - intros b. rewrite count_release by (by rewrite Hc). rewrite Hc. unfold references, held_by at 2. cbn.
    rewrite (references_delete w k a b) by done. lia.
Qed.

Lemma take_id_ok w : world_ok w -> 1 <= next_id w < u64_max -> world_ok (take_id w).1.
Proof.
  intros [Hc Hp Hf Hi Hu Hb Hn Ha] Hmax. split; cbn; rewrite ?u64_add_small by (unfold u64_max, U64 in *; lia); try done.
  - intros a g n E%Hi. lia.
  - intros i [Hx%Hb| ->%list_elem_of_singleton]%elem_of_app; lia.
  - apply NoDup_app. split_and!; [done| |apply NoDup_singleton]. intros i Hin ->%list_elem_of_singleton. apply Hb in Hin. lia.
  - intros a g n E [Hx|Hx%list_elem_of_singleton]%elem_of_app; [by eapply Ha|]. apply Hi in E. lia.
Qed.

Context `{!ArcSwapSpec slot}.

Lemma fresh_address w : world_ok w -> heap w !! next_address w = None.
Proof.
  intros Hw. destruct (heap w !! next_address w) as [[g n]|] eqn:E; [|done].
  apply (addresses_fresh w Hw) in E. lia.
Qed.

Lemma next_id_positive w : world_ok w -> 1 <= next_id w.
Proof.
  intros Hw. pose proof (current_referenced w) as Hr. rewrite <- (counts_exact w Hw) in Hr.
  apply count_alive in Hr as (g & n & Hg & _). apply (ids_bounded w Hw) in Hg. lia.
Qed.

Lemma elem_of_others i j (l : list Z) : j ∈ List.filter (fun j => negb (j =? i)) l <-> j ∈ l /\ j <> i.
Proof. rewrite list_elem_of_In, List.filter_In, <- list_elem_of_In, negb_true_iff, Z.eqb_neq. done. Qed.

Lemma installed_ok w i p : world_ok w -> i ∈ publishers w -> world_ok (install w i p).
Proof.
  intros Hw Hin. pose proof (fresh_address w Hw) as Hfresh. destruct Hw as [Hc Hp Hf Hi Hu Hb Hn Hap].
  set (a := next_address w) in *. set (old := swap_load (current w)).
  set (h := <[a := (mkGeneration i p, 1)]> (heap w)).
  assert (references w a = 0) as Ha0 by (rewrite <- Hc; unfold count; by rewrite Hfresh).
  assert (old <> a) as Hold. { intros E. pose proof (current_referenced w) as Hr. fold old in Hr. rewrite E in Hr. lia. }
  assert (forall b, count h b = count (heap w) b + indicator a b) as Hh.
  { intros b. unfold h, count, indicator. destruct (decide (a = b)) as [<-|].
    - by rewrite lookup_insert_eq, Hfresh.
    - rewrite lookup_insert_ne by done. destruct (heap w !! b) as [[]|]; lia. }
  assert (0 < count h old) as Hpos.
  { rewrite Hh, Hc. unfold indicator. rewrite decide_False by done.
    pose proof (current_referenced w) as Hr. fold old in Hr. lia. }
  assert (forall b g n, h !! b = Some (g, n) ->
    b = a /\ g = mkGeneration i p /\ n = 1 \/ heap w !! b = Some (g, n)) as Hl.
  { intros b g n. unfold h. rewrite lookup_insert_Some. intros [[<- [= <- <-]]|[_ ?]]; auto. }
  split; cbn; fold a old h; rewrite ?load_store.
  - intros b. rewrite count_release, Hh, Hc by done. unfold references, held_by, indicator. cbn.
    rewrite load_store. fold old. repeat case_decide; simplify_eq; lia.
  - apply counted_release. intros b g n [(_ & _ & ->)|E]%Hl; [lia|by eapply Hp].
  - intros b g n (m & [(-> & _)|E]%Hl)%release_lookup; [lia|]. apply Hf in E. lia.
  - intros b g n (m & [(_ & -> & _)|E]%Hl)%release_lookup; [by apply Hb|by eapply Hi].
  - intros b b' g g' n n' (m & [(-> & -> & _)|E]%Hl)%release_lookup (m' & [(-> & -> & _)|E']%Hl)%release_lookup Hid; cbn in *.
    + done.
    + apply Hap in E'. by rewrite <- Hid in E'.
    + apply Hap in E. by rewrite Hid in E.
    + by eapply Hu.
  - intros j [Hx _]%elem_of_others. by apply Hb.
  - by apply NoDup_ListNoDup, List.NoDup_filter, NoDup_ListNoDup.
  - intros b g n (m & [(_ & -> & _)|E]%Hl)%release_lookup [Hx Hne]%elem_of_others; [by apply Hne|by eapply Hap].
Qed.

Lemma cell_new_ok (initial : T) : world_ok (new initial) /\ serial_ok (new initial).
Proof.
  split; [split|split]; cbn; rewrite ?load_new; try done.
  - intros a. unfold count, references, held_by. cbn. rewrite load_new, map_filter_empty, map_size_empty.
    case_decide as E; [by rewrite <- E, lookup_singleton_eq|by rewrite lookup_singleton_ne].
  - intros a g n. rewrite lookup_singleton_Some. intros [_ [= <- <-]]. lia.
  - intros a g n. rewrite lookup_singleton_Some. intros [<- _]. lia.
  - intros a g n. rewrite lookup_singleton_Some. intros [_ [= <- <-]]. cbn. lia.
  - intros a b g g' n n'. rewrite !lookup_singleton_Some. by intros [<- _] [<- _].
  - by intros i ?%elem_of_nil.
  - constructor.
  - intros a g n _. apply not_elem_of_nil.
  - intros g n. rewrite lookup_singleton_eq. by intros [= <- <-].
Qed.

Lemma cell_step_ok serial w w' : step serial w w' -> world_ok w -> world_ok w'.
Proof.
  intros Hs Hw. destruct Hs as [w k Hk|w j k Hk|w k|w Hm Hp|w i p Hi].
  - apply retain_ok; auto using current_referenced.
  - unfold clone_handle. destruct (handles w !! j) as [a|] eqn:Hj; [|done].
    apply retain_ok; [done|done|by eapply held_referenced].
  - unfold drop_handle. destruct (handles w !! k) as [a|] eqn:Hk; [|done]. by apply drop_ok.
  - apply take_id_ok; [done|]. split; [by apply next_id_positive|done].
  - by apply installed_ok.
Qed.

(** Counting references keeps the current generation where it is. *)
Lemma counting_serial w h hs :
  serial_ok w -> (forall b g n, h !! b = Some (g, n) -> exists m, heap w !! b = Some (g, m)) ->
  serial_ok (mkWorld h (next_address w) (current w) (next_id w) hs (publishers w)).
Proof. intros [Hl Hs] Hh. split; [done|]. cbn. intros g n (m & E)%Hh. by eapply Hs. Qed.

Lemma cell_step_serial w w' : step true w w' -> world_ok w -> serial_ok w -> serial_ok w'.
Proof.
  intros Hst Hw Hs. destruct Hst as [w k Hk|w j k Hk|w k|w Hm Hp|w i p Hi].
  - apply counting_serial; [done|]. intros b g n (m & Hb & _)%retain_lookup. by exists m.
  - unfold clone_handle. destruct (handles w !! j) as [a|]; [|done].
    apply counting_serial; [done|]. intros b g n (m & Hb & _)%retain_lookup. by exists m.
  - unfold drop_handle. destruct (handles w !! k) as [a|]; [|done]. apply counting_serial; [done|]. intros b g n. apply release_lookup.
  - specialize (Hp eq_refl). destruct Hs as [_ Hs]. pose proof (next_id_positive w Hw). split; cbn; rewrite Hp; [done|].
    intros g n E. destruct (Hs g n E) as [Hid _]. rewrite Hp in Hid. cbn in *.
    rewrite u64_add_small by (unfold u64_max, U64 in *; lia). change (vec_len []) with 0 in Hid. change (vec_len [next_id w]) with 1.
    split; [lia|]. constructor; [lia|constructor].
  - destruct Hs as [Hl Hs]. pose proof (current_referenced w) as Hr. rewrite <- (counts_exact w Hw) in Hr.
    apply count_alive in Hr as (g0 & n0 & E0 & _). destruct (Hs _ _ E0) as [_ Hall].
    assert (publishers w = [i]) as Hpub.
    { destruct (publishers w) as [|j [|j' l]]; [by apply elem_of_nil in Hi|by apply list_elem_of_singleton in Hi as ->|].
      unfold vec_len in Hl. cbn in Hl. lia. }
    pose proof (fresh_address w Hw) as Hfresh. rewrite Hpub in Hall. apply Forall_inv in Hall as Ei.
    split; cbn; rewrite Hpub; cbn; rewrite Z.eqb_refl; cbn; [done|].
    intros g n. rewrite load_store. intros (m & E)%release_lookup. rewrite lookup_insert_eq in E. injection E as <- _.
    change (vec_len []) with 0. cbn. split; [lia|constructor].
Qed.

Lemma reachable_ok serial initial w :
  reachable serial initial w -> world_ok w /\ (serial = true -> serial_ok w).
Proof.
  unfold reachable. intros Hr. destruct (cell_new_ok initial) as [Hok Hs]. assert (serial = true -> serial_ok (new initial)) as Hser by done.
  clear Hs. revert Hok Hser. induction Hr as [|w1 w2 w3 H1 _ IH]; [done|]. intros Hok Hser. apply IH; [by eapply cell_step_ok|].
  intros ->. eapply cell_step_serial; [done|done|by apply Hser].
Qed.

(** A handle that survives a step pins the same generation after it. *)
Lemma step_pinned serial w w' k a g n :
  step serial w w' -> world_ok w -> handles w !! k = Some a -> handles w' !! k = Some a ->
  heap w !! a = Some (g, n) -> exists m, heap w' !! a = Some (g, m).
Proof.
  intros Hs Hw Hk Hk' Hg. pose proof (cell_step_ok _ _ _ Hs Hw) as Hw'.
  pose proof (held_referenced w' k a Hk') as Hr. rewrite <- (counts_exact w' Hw') in Hr.
  apply count_alive in Hr as (g' & m & Hg' & _). exists m.
  enough (exists m', heap w !! a = Some (g', m')) as [m' E]; [congruence|].
  destruct Hs as [w k' Hn|w j k' Hn|w k'|w Hm Hp|w i p Hi]; cbn in *.
  - apply retain_lookup in Hg' as (? & ? & _). by eexists.
  - unfold clone_handle in Hg'. destruct (handles w !! j); [|by eexists].
    apply retain_lookup in Hg' as (? & ? & _). by eexists.
  - unfold drop_handle in Hg'. destruct (handles w !! k'); [|by eexists]. by apply release_lookup in Hg'.
  - by eexists.
  - apply release_lookup in Hg' as (m' & Hl). rewrite lookup_insert_Some in Hl.
    destruct Hl as [[E _]|[_ Hl]]; [|by eexists].
    rewrite <- E, (fresh_address w Hw) in Hg. done.
Qed.

(** [C36] Reclamation is safe and exact.  In every state reachable by interleaved loads, clones,
    drops and the two accesses of any number of publishers, a handle pins a live generation whose
    count is the number of handles on it plus one while it is current; a generation is in memory
    exactly while something refers to it; no two of them have the same id; and a step that leaves
    a handle in place leaves its generation, id and payload, unchanged.  When, as the source
    assumes, at most one publisher is on its way at a time, the current generation has the newest
    id that was handed out, or the one before it while its publisher has not stored it. *)
Theorem snapshot_reclamation serial initial w w' :
  reachable serial initial w -> step serial w w' ->
  (forall k, is_Some (handles w !! k) -> exists g, pinned w k = Some g /\ 0 < g.2) /\
  (forall a, is_Some (heap w !! a) <-> swap_load (current w) = a \/ exists k, handles w !! k = Some a) /\
  (forall a g n, heap w !! a = Some (g, n) -> n = references w a) /\
  (forall a b g g' n n', heap w !! a = Some (g, n) -> heap w !! b = Some (g', n') -> id g = id g' -> a = b) /\
  (forall k a, handles w !! k = Some a -> handles w' !! k = Some a ->
    generation w' k = generation w k /\ get w' k = get w k /\ is_Some (get w k)) /\
  (serial = true ->
    vec_len (publishers w) <= 1 /\ current_generation w = Some (next_id w - 1 - vec_len (publishers w))).
Proof.
  intros [Hr Hser]%reachable_ok Hs.
  assert (forall a, 0 < references w a -> exists g n, heap w !! a = Some (g, n) /\ 0 < n) as Hal.
  { intros a. rewrite <- (counts_exact w Hr). apply count_alive. }
  split_and!.
  - intros k [a Hk]. destruct (Hal a (held_referenced w k a Hk)) as (g & n & Hg & Hn).
    exists (g, n). unfold pinned. by rewrite Hk.
  - intros a. split.
    + intros [[g n] Hg]. pose proof (counts_exact w Hr a) as Hc. pose proof (counts_positive w Hr _ _ _ Hg) as Hp.
      unfold count in Hc. rewrite Hg in Hc. unfold references in Hc.
      destruct (decide (swap_load (current w) = a)) as [|Hne]; [by left|right].
      destruct (map_choose (held_by w a)) as (k & a' & Hk).
      { intros E. rewrite E, map_size_empty in Hc. lia. }
      apply map_lookup_filter_Some in Hk as [Hk E]. cbn in E. subst a'. by exists k.
    + intros [<-|[k Hk]]; [destruct (Hal _ (current_referenced w)) as (g & n & -> & _)
        |destruct (Hal _ (held_referenced w k a Hk)) as (g & n & -> & _)]; done.
  - intros a g n Hg. pose proof (counts_exact w Hr a) as Hc. unfold count in Hc. by rewrite Hg in Hc.
  - apply (ids_unique w Hr).
  - intros k a Hk Hk'. destruct (Hal a (held_referenced w k a Hk)) as (g & n & Hg & _).
    destruct (step_pinned _ w w' k a g n Hs Hr Hk Hk' Hg) as [m Hm].
    unfold generation, get, pinned. rewrite Hk, Hk'. cbn. rewrite Hg, Hm. done.
  - intros E. destruct (Hser E) as [Hl Hid]. split; [done|].
    destruct (Hal _ (current_referenced w)) as (g & n & Hg & _). unfold current_generation. rewrite Hg. cbn.
    f_equal. by eapply Hid.
Qed.

End cell.

(** A plain pointer is such a slot. *)
#[export] Instance plain_slot : ArcSwap Z := { swap_new a := a; swap_load s := s; swap_store _ a := a }.

#[export] Instance plain_slot_spec : ArcSwapSpec Z.
Proof. by split. Qed.

Lemma snapshot_reclamation_witness :
  let w := load (new 7 : World Z Z) 5 in
  current_generation w = Some 1 /\ get (take_id w).1 5 = get w 5 /\ get w 5 = Some 7.
Proof.
  intros w.
  assert (reachable true 7 w) as Hr by (eapply rtc_l; [apply (step_load true (new 7) 5); reflexivity|reflexivity]).
  assert (step true w (take_id w).1) as Hs by (apply step_take_id; reflexivity).
  destruct (snapshot_reclamation true 7 w (take_id w).1 Hr Hs) as (_ & _ & _ & _ & Hg & Hc).
  split; [exact (proj2 (Hc eq_refl))|]. split; [exact (proj1 (proj2 (Hg 5 0 eq_refl eq_refl)))|reflexivity].
Defined.

(** With two publishers on their way the older id can be stored last and stay current. *)
Lemma publisher_overtaken :
  let w := install (install (take_id (take_id (new 0 : World Z Z)).1).1 3 30) 2 20 in
  reachable false 0 w /\ current_generation w = Some 2 /\ next_id w = 4.
Proof.
  split; [|by vm_compute].
  eapply rtc_l; [apply step_take_id; [reflexivity|done]|]. eapply rtc_l; [apply step_take_id; [reflexivity|done]|].
  eapply rtc_l; [apply (step_install false _ 3 30); vm_compute; right; left|].
  eapply rtc_l; [apply (step_install false _ 2 20); vm_compute; left|]. reflexivity.
Qed.

End Snapshot.
