(* ===== verification/Datetime.v ===== *)
(** * Dates and timestamps (crates/sql/src/datetime.rs)

    The calendar conversions, the ISO parsers with the workspace accounting of PostgreSQL's
    tokenizer, and the formatters.  The fraction of a second goes through IEEE doubles, which
    are written out as integers scaled by a power of two. *)

From stdpp Require Import base strings list pretty.
From Stdlib Require Import Strings.Ascii.
From S2P Require Import Prelude Types Bytes Text.

Module Datetime.
Import Text.

Definition PG_EPOCH_UNIX_DAYS : Z := 10957.
Definition MICROS_PER_DAY : Z := 86400000000.
Definition MICROS_PER_SEC : Z := 1000000.
Definition PG_MAX_DATE_LEN : Z := 128.
Definition PG_MAX_DATETIME_FIELDS : Z := 25.
Definition PG_MAX_DATE_WORKSPACE_BYTES : Z := PG_MAX_DATE_LEN + 1.
Definition PG_MAX_TIMESTAMP_WORKSPACE_BYTES : Z := PG_MAX_DATE_LEN + PG_MAX_DATETIME_FIELDS.
Definition PG_DATE_MIN_DAYS : Z := -2451545.
Definition PG_DATE_END_DAYS_EXCLUSIVE : Z := 2145031949.
Definition PG_TIMESTAMP_MIN_MICROS : Z := -211813488000000000.
Definition PG_TIMESTAMP_END_MICROS_EXCLUSIVE : Z := 9223371331200000000.

Inductive DatetimeParseError := MalformedFormat | FieldOverflow.

Definition decoded (A : Type) : Type := result A DatetimeParseError.

Definition validate_date_carrier (days : Z) : decoded Z :=
  if (PG_DATE_MIN_DAYS <=? days) && (days <? PG_DATE_END_DAYS_EXCLUSIVE) then Ok days
  else Err FieldOverflow.

Definition validate_timestamp_carrier (micros : Z) : decoded Z :=
  if (PG_TIMESTAMP_MIN_MICROS <=? micros) && (micros <? PG_TIMESTAMP_END_MICROS_EXCLUSIVE) then Ok micros
  else Err FieldOverflow.

(** ** Fields *)

Definition i64_min : Z := -9223372036854775808.
Definition i64_max : Z := 9223372036854775807.
Definition i32_min : Z := -2147483648.
Definition i32_max : Z := 2147483647.

(** [str::trim_start_matches(char)] *)
Fixpoint trim_start_matches (c : ascii) (s : string) : string :=
  match s with
  | String a rest => if bool_decide (a = c) then trim_start_matches c rest else s
  | EmptyString => EmptyString
  end.

Definition ascii_digits (s : string) : decoded Z :=
  if bool_decide (s = EmptyString) || negb (all_chars is_digit s) then Err MalformedFormat
  else
    let significant := trim_start_matches "0" s in
    if bool_decide (significant = EmptyString) then Ok 0
    else match parse_uint i64_max significant with Ok n => Ok n | Err _ => Err FieldOverflow end.

(** ** The tokenizer's workspace *)

Definition is_ascii_whitespace (a : ascii) : bool :=
  let c := char_val a in (c =? 32) || (c =? 9) || (c =? 10) || (c =? 12) || (c =? 13).

Definition is_ascii_alphabetic (a : ascii) : bool :=
  let c := char_val a in between 65 90 c || between 97 122 c.

Definition is_ascii_alphanumeric (a : ascii) : bool := is_digit a || is_ascii_alphabetic a.

Definition is_ascii_punctuation (a : ascii) : bool :=
  let c := char_val a in between 33 47 c || between 58 64 c || between 91 96 c || between 123 126 c.

Definition is_char (c a : ascii) : bool := bool_decide (a = c).

(** [while bytes.get(at).is_some_and(p) { at += 1 }], on what remains. *)
Fixpoint skip_while (p : ascii -> bool) (s : string) : string :=
  match s with
  | String a rest => if p a then skip_while p rest else s
  | EmptyString => EmptyString
  end.

Definition next_is (p : ascii -> bool) (s : string) : bool :=
  match s with String a _ => p a | EmptyString => false end.

Definition is_delimiter (a : ascii) : bool := is_char "-" a || is_char "/" a || is_char "." a.

(** After a number and its delimiter. *)
Definition skip_delimited (delimiter : ascii) (s : string) : string :=
  if next_is is_digit s then
    let s := skip_while is_digit s in
    match s with
    | String a rest =>
        if is_char delimiter a then skip_while (fun b => is_digit b || is_char delimiter b) rest else s
    | EmptyString => s
    end
  else skip_while (fun b => is_ascii_alphanumeric b || is_char delimiter b) s.

(** A token that begins with a digit, its first digit taken. *)
Definition skip_number (s : string) : string :=
  let s := skip_while is_digit s in
  match s with
  | String a rest =>
      if is_char ":" a then
        skip_while (fun b => is_digit b || is_char ":" b || is_char "." b) rest
      else if is_delimiter a then skip_delimited a rest
      else s
  | EmptyString => s
  end.

(** After a sign. *)
Definition skip_signed (s : string) : decoded string :=
  let s := skip_while is_ascii_whitespace s in
  match s with
  | String a rest =>
      if is_digit a then
        Ok (skip_while (fun b => is_digit b || is_char ":" b || is_char "." b || is_char "-" b) rest)
      else if is_ascii_alphabetic a then Ok (skip_while is_ascii_alphabetic rest)
      else Err MalformedFormat
  | EmptyString => Err MalformedFormat
  end.

(** One turn of the loop: what remains, and whether a field was taken. *)
Definition next_token (a : ascii) (rest : string) : decoded (string * bool) :=
  if is_ascii_whitespace a then Ok (rest, false)
  else if is_digit a then Ok (skip_number rest, true)
  else if is_char "." a then Ok (skip_while is_digit rest, true)
  else if is_ascii_alphabetic a then Ok (skip_while is_ascii_alphabetic rest, true)
  else if is_char "+" a || is_char "-" a then
    let? rest := skip_signed rest in Ok (rest, true)
  else if is_ascii_punctuation a then Ok (rest, false)
  else Err MalformedFormat.

(** The loop; [None] would be fuel that ran out. *)
Fixpoint workspace_loop (fuel : nat) (workspace_bytes used fields : Z) (s : string) : option (decoded unit) :=
  match s, fuel with
  | EmptyString, _ => Some (Ok tt)
  | _, O => None
  | String a rest, S fuel =>
      match next_token a rest with
      | Err e => Some (Err e)
      | Ok (rest, false) => workspace_loop fuel workspace_bytes used fields rest
      | Ok (rest', true) =>
          let used := used + (str_len s - str_len rest') + 1 in
          if PG_MAX_DATETIME_FIELDS <? fields + 1 then Some (Err MalformedFormat)
          else if workspace_bytes <? used then Some (Err MalformedFormat)
          else workspace_loop fuel workspace_bytes used (fields + 1) rest'
      end
  end.

Definition check_datetime_workspace (text : string) (workspace_bytes : Z) : decoded unit :=
  default (Err MalformedFormat) (workspace_loop (String.length text) workspace_bytes 0 0 text).

(** ** The calendar

    [/] truncates. *)

Definition checked (z : Z) : option Z := if (i64_min <=? z) && (z <=? i64_max) then Some z else None.

Definition days_from_civil_checked (y m d : Z) : option Z :=
  y ← (if m <=? 2 then checked (y - 1) else Some y);
  era ← (if 0 <=? y then Some (y ÷ 400) else y' ← checked (y - 399); Some (y' ÷ 400));
  e400 ← checked (era * 400);
  yoe ← checked (y - e400);
  let mp := if 2 <? m then m - 3 else m + 9 in
  let doy := (153 * mp + 2) ÷ 5 + d - 1 in
  a ← checked (yoe * 365);
  a ← checked (a + yoe ÷ 4);
  a ← checked (a - yoe ÷ 100);
  doe ← checked (a + doy);
  b ← checked (era * 146097);
  b ← checked (b + doe);
  checked (b - 719468).

Definition civil_from_days (z : Z) : Z * Z * Z :=
  let z := z + 719468 in
  let era := (if 0 <=? z then z else z - 146096) ÷ 146097 in
  let doe := z - era * 146097 in
  let yoe := (doe - doe ÷ 1460 + doe ÷ 36524 - doe ÷ 146096) ÷ 365 in
  let y := yoe + era * 400 in
  let doy := doe - (365 * yoe + yoe ÷ 4 - yoe ÷ 100) in
  let mp := (5 * doy + 2) ÷ 153 in
  let d := doy - (153 * mp + 2) ÷ 5 + 1 in
  let m := if mp <? 10 then mp + 3 else mp - 9 in
  (if m <=? 2 then y + 1 else y, m, d).

(** ** Dates *)

(** [text.get(n..)]: [None] when [n] is inside a character. *)
Definition get_from (n : nat) (s : string) : option string :=
  let rest := str_drop n s in
  match rest with
  | String a _ => if between 128 191 (char_val a) then None else Some rest
  | EmptyString => Some rest
  end.

Definition split_bc_suffix (text : string) : decoded (string * bool) :=
  let text := trim text in
  match get_from (String.length text - 2) text with
  | None => Err MalformedFormat
  | Some suffix =>
      if negb (eq_ignore_ascii_case suffix "BC") then Ok (text, false)
      else
        let body := trim_end (str_take (String.length text - String.length suffix) text) in
        if bool_decide (body = EmptyString) then Err MalformedFormat else Ok (body, true)
  end.

Record UncheckedCivilDate := mkCivil { year : Z; month : Z; day : Z; bc : bool }.

(** [splitn(3, '-')] *)
Definition splitn3 (s : string) : list string :=
  match split_once "-" s with
  | None => [s]
  | Some (a, s) =>
      match split_once "-" s with
      | None => [a; s]
      | Some (b, s) => [a; b; s]
      end
  end.

Definition parse_iso_date_fields (text : string) (bc : bool) : decoded UncheckedCivilDate :=
  let parts := splitn3 text in
  let field n := match parts !! n with Some p => ascii_digits p | None => Err MalformedFormat end in
  let? year := field 0%nat in
  let? month := field 1%nat in
  let? day := field 2%nat in
  Ok (mkCivil year month day bc).

Definition validate_iso_date_fields (date : UncheckedCivilDate) : decoded Z :=
  let '(mkCivil year month day bc) := date in
  if (year =? 0) || negb (between 1 12 month) || negb (between 1 31 day) then Err FieldOverflow
  else
    let astronomical_y := if bc then 1 - year else year in
    match (days ← days_from_civil_checked astronomical_y month day; checked (days - PG_EPOCH_UNIX_DAYS)) with
    | None => Err FieldOverflow
    | Some days =>
        if negb (between i32_min i32_max days) then Err FieldOverflow
        else if negb (bool_decide (civil_from_days (days + PG_EPOCH_UNIX_DAYS) = (astronomical_y, month, day)))
        then Err FieldOverflow
        else validate_date_carrier days
    end.

Definition parse_date_detailed (text : string) : decoded Z :=
  let? _ := check_datetime_workspace text PG_MAX_DATE_WORKSPACE_BYTES in
  let? (date, bc) := split_bc_suffix text in
  let? fields := parse_iso_date_fields date bc in
  validate_iso_date_fields fields.

Definition parse_date (text : string) : option Z := ok (parse_date_detailed text).

(** [{n:0w}] for a number that is not negative. *)
Definition pad (w : nat) (n : Z) : string :=
  let s := pretty n in repeat_char "0" (w - String.length s) +:+ s.

Definition format_civil_date (y m d : Z) : string :=
  if y <=? 0 then pad 4 (1 - y) +:+ "-" +:+ pad 2 m +:+ "-" +:+ pad 2 d +:+ " BC"
  else pad 4 y +:+ "-" +:+ pad 2 m +:+ "-" +:+ pad 2 d.

Definition format_date (days : Z) : string :=
  let '(y, m, d) := civil_from_days (days + PG_EPOCH_UNIX_DAYS) in format_civil_date y m d.

(** ** Times *)

Inductive IsoTimestampTimePart := Absent | TimeText (text : string) | EmptyAdjacentT.

Fixpoint find (p : ascii -> bool) (s : string) : option (string * ascii * string) :=
  match s with
  | EmptyString => None
  | String a rest =>
      if p a then Some (EmptyString, a, rest)
      else match find p rest with Some (l, c, r) => Some (String a l, c, r) | None => None end
  end.

Definition split_iso_timestamp_parts (text : string) : string * IsoTimestampTimePart :=
  match find (fun a => is_ascii_whitespace a || is_char "T" a) text with
  | None => (text, Absent)
  | Some (before, separator, after) =>
      let time := trim after in
      if is_char "T" separator && bool_decide (time = EmptyString) then (trim_end before, EmptyAdjacentT)
      else if bool_decide (time = EmptyString) then (trim_end before, Absent)
      else (trim_end before, TimeText time)
  end.

(** The characters of [s] before what [skip_while] leaves. *)
Fixpoint take_while (p : ascii -> bool) (s : string) : string :=
  match s with
  | String a rest => if p a then String a (take_while p rest) else EmptyString
  | EmptyString => EmptyString
  end.

Definition is_time_char (a : ascii) : bool := is_digit a || is_char ":" a || is_char "." a.

Definition split_datetime_time_token (text : string) : option (string * string) :=
  match text with
  | String a rest =>
      if is_digit a then Some (String a (take_while is_time_char rest), skip_while is_time_char rest)
      else None
  | EmptyString => None
  end.

(** *** IEEE doubles

    [mant * 2^exp], not negative. *)

Record f64 := mkF64 { mant : Z; exp : Z }.

(** [a / b] to the nearest integer, ties to even; [b] is positive. *)
Definition rne_div (a b : Z) : Z :=
  let q := a / b in
  let r := 2 * (a mod b) in
  if r <? b then q else if b <? r then q + 1 else if Z.even q then q else q + 1.

(** [num / den * 2^k] as a fraction. *)
Definition scale_num (num k : Z) : Z := num * 2 ^ Z.max 0 k.
Definition scale_den (den k : Z) : Z := den * 2 ^ Z.max 0 (- k).

(** The exponent of the leading bit of [num / den]. *)
Definition floor_log2 (num den : Z) : Z :=
  let q := Z.log2 num - Z.log2 den in
  if scale_den den (- q) <=? scale_num num (- q) then q else q - 1.

(** Round a positive fraction to a double, subnormals included. *)
Definition round_f64 (num den : Z) : f64 :=
  if num =? 0 then mkF64 0 0
  else
    let e := Z.max (floor_log2 num den - 52) (-1074) in
    mkF64 (rne_div (scale_num num (- e)) (scale_den den (- e))) e.

Definition f64_is_zero (x : f64) : bool := mant x =? 0.

(** [x < f64::MIN_POSITIVE], which is [2^-1022]. *)
Definition f64_subnormal (x : f64) : bool := mant x * 2 ^ Z.max 0 (exp x + 1022) <? 2 ^ Z.max 0 (- (exp x + 1022)).

(** [x * n] for an integer that is a double. *)
Definition f64_mul (x : f64) (n : Z) : f64 :=
  round_f64 (mant x * n * 2 ^ Z.max 0 (exp x)) (2 ^ Z.max 0 (- exp x)).

(** [round_ties_even], then [as i64]. *)
Definition f64_round (x : f64) : Z := rne_div (mant x * 2 ^ Z.max 0 (exp x)) (2 ^ Z.max 0 (- exp x)).

(** [".digits".parse::<f64>()] *)
Fixpoint digits_value (acc : Z) (s : string) : Z :=
  match s with
  | EmptyString => acc
  | String a s => digits_value (acc * 10 + (char_val a - 48)) s
  end.

Definition parse_fraction (digits : string) : f64 :=
  round_f64 (digits_value 0 digits) (10 ^ str_len digits).

(** *** The time of day *)

Definition fraction_micros (fraction : option string) : decoded Z :=
  match fraction with
  | None => Ok 0
  | Some digits =>
      if bool_decide (digits = EmptyString) then Ok 0
      else if negb (all_chars is_digit digits) then Err MalformedFormat
      else
        let fraction := parse_fraction digits in
        if f64_is_zero fraction && negb (all_chars (is_char "0") digits) ||
           negb (f64_is_zero fraction) && f64_subnormal fraction then Err MalformedFormat
        else
          let micros := f64_round (f64_mul fraction MICROS_PER_SEC) in
          if negb (between 0 MICROS_PER_SEC micros) then Err MalformedFormat else Ok micros
  end.

Definition parse_time_of_day_detailed (text : string) : decoded Z :=
  let '(hms, fraction) :=
    match split_once "." text with
    | Some (hms, digits) => (hms, Some digits)
    | None => (text, None)
    end in
  let parts := split_char ":" hms in
  let field n := match parts !! n with Some p => ascii_digits p | None => Err MalformedFormat end in
  let? first := field 0%nat in
  let? second := field 1%nat in
  let? third :=
    match parts !! 2%nat with
    | Some sec => match ascii_digits sec with Ok s => Ok (Some s) | Err e => Err e end
    | None => Ok None
    end in
  if (3 <? length parts)%nat then Err MalformedFormat
  else
    let '(h, m, s) :=
      match third, fraction with
      | None, Some _ => (0, first, second)
      | None, None => (first, second, 0)
      | Some seconds, _ => (first, second, seconds)
      end in
    let? frac_micros := fraction_micros fraction in
    if (24 <? h) || (59 <? m) || (60 <? s) then Err FieldOverflow
    else
      let total := h * 3600000000 + m * 60000000 + s * MICROS_PER_SEC + frac_micros in
      if total <=? MICROS_PER_DAY then Ok total else Err FieldOverflow.

(** ** Timestamps *)

Definition parse_timestamp_detailed (text : string) : decoded Z :=
  let? _ := check_datetime_workspace text PG_MAX_TIMESTAMP_WORKSPACE_BYTES in
  let? (trimmed, bc) := split_bc_suffix text in
  let '(date_part, time_part) := split_iso_timestamp_parts trimmed in
  let? date := parse_iso_date_fields date_part bc in
  let? tod :=
    match time_part with
    | EmptyAdjacentT => Err MalformedFormat
    | TimeText t =>
        match split_datetime_time_token t with
        | None => Err MalformedFormat
        | Some (time_token, remainder) =>
            let? tod := parse_time_of_day_detailed time_token in
            if negb (bool_decide (trim remainder = EmptyString)) then Err MalformedFormat else Ok tod
        end
    | Absent => Ok 0
    end in
  let? days := validate_iso_date_fields date in
  match (micros ← checked (days * MICROS_PER_DAY); checked (micros + tod)) with
  | None => Err FieldOverflow
  | Some micros => validate_timestamp_carrier micros
  end.

Definition parse_timestamp (text : string) : option Z := ok (parse_timestamp_detailed text).

Fixpoint trim_end_zeros (s : string) : string :=
  match s with
  | EmptyString => EmptyString
  | String a rest =>
      match trim_end_zeros rest with
      | EmptyString => if is_char "0" a then EmptyString else String a EmptyString
      | rest => String a rest
      end
  end.

Definition format_timestamp (micros : Z) : string :=
  let days := micros / MICROS_PER_DAY in
  let tod := micros mod MICROS_PER_DAY in
  let '(y, mo, d) := civil_from_days (days + PG_EPOCH_UNIX_DAYS) in
  let secs := tod ÷ MICROS_PER_SEC in
  let frac := Z.rem tod MICROS_PER_SEC in
  let '(h, mi, s) := (secs ÷ 3600, (Z.rem secs 3600) ÷ 60, Z.rem secs 60) in
  let date :=
    if y <=? 0 then pad 4 (1 - y) +:+ "-" +:+ pad 2 mo +:+ "-" +:+ pad 2 d
    else pad 4 y +:+ "-" +:+ pad 2 mo +:+ "-" +:+ pad 2 d in
  date +:+ " " +:+ pad 2 h +:+ ":" +:+ pad 2 mi +:+ ":" +:+ pad 2 s +:+
  (if negb (frac =? 0) then "." +:+ trim_end_zeros (pad 6 frac) else EmptyString) +:+
  (if y <=? 0 then " BC" else EmptyString).

End Datetime.
