(* ===== verification/Civil.v ===== *)
(** * The calendar

    [civil_from_days] and [days_from_civil_checked] against the proleptic Gregorian calendar:
    the day after a date, the leap years and the month lengths. *)

From stdpp Require Import base strings list.
From S2P Require Import Prelude Types Bytes Text Datetime.

Module Civil.
Import Datetime.

#[local] Ltac Zify.zify_post_hook ::= Z.to_euclidean_division_equations.

(** ** The calendar *)

Definition leap (y : Z) : bool := (y mod 4 =? 0) && (negb (y mod 100 =? 0) || (y mod 400 =? 0)).

Definition days_in_month (y m : Z) : Z :=
  if m =? 2 then if leap y then 29 else 28
  else if (m =? 4) || (m =? 6) || (m =? 9) || (m =? 11) then 30
  else 31.

Definition valid_date (y m d : Z) : Prop := 1 <= m <= 12 /\ 1 <= d <= days_in_month y m.

Definition next_day (date : Z * Z * Z) : Z * Z * Z :=
  let '(y, m, d) := date in
  if d <? days_in_month y m then (y, m, d + 1)
  else if m <? 12 then (y, m + 1, 1)
  else (y + 1, 1, 1).

(** ** Day numbers

    Years and months counted from March. *)

Definition month_start (mp : Z) : Z := (153 * mp + 2) / 5.

Definition year_start (y : Z) : Z := 365 * y + y / 4 - y / 100 + y / 400.

Definition march_year (y m : Z) : Z := if m <=? 2 then y - 1 else y.

Definition march_month (m : Z) : Z := if 2 <? m then m - 3 else m + 9.

Definition day_number (y m d : Z) : Z :=
  year_start (march_year y m) + month_start (march_month m) + d - 1 - 719468.

Ltac months m := assert (m = 1 \/ m = 2 \/ m = 3 \/ m = 4 \/ m = 5 \/ m = 6 \/ m = 7 \/ m = 8 \/ m = 9 \/
  m = 10 \/ m = 11 \/ m = 12) as Hmonth by lia; repeat destruct Hmonth as [Hmonth|Hmonth]; subst m.

Lemma leap_spec y :
  leap y = true /\ y / 4 - y / 100 + y / 400 = (y - 1) / 4 - (y - 1) / 100 + (y - 1) / 400 + 1 \/
  leap y = false /\ y / 4 - y / 100 + y / 400 = (y - 1) / 4 - (y - 1) / 100 + (y - 1) / 400.
Proof.
  unfold leap. destruct (Z.eqb_spec (y mod 4) 0), (Z.eqb_spec (y mod 100) 0), (Z.eqb_spec (y mod 400) 0);
    cbn; lia.
Qed.

Lemma day_number_next y m d :
  valid_date y m d ->
  let '(y', m', d') := next_day (y, m, d) in
  valid_date y' m' d' /\ day_number y' m' d' = day_number y m d + 1.
Proof.
  intros [Hm Hd]. unfold next_day. destruct (Z.ltb_spec d (days_in_month y m)).
  { split; [split; [done|lia]|]. unfold day_number. lia. }
  assert (d = days_in_month y m) as -> by lia. clear Hd H.
  assert (1 <= days_in_month y (m + 1)) by (unfold days_in_month; repeat case_match; lia).
  months m.
  all: repeat match goal with |- context [Zpos ?a + 1] =>
    let v := eval vm_compute in (Zpos a + 1) in change (Zpos a + 1) with v in * end.
  all: cbv [valid_date day_number march_year march_month month_start year_start days_in_month
    Z.leb Z.ltb Z.eqb Z.compare Pos.compare Pos.compare_cont Pos.eqb orb] in *.
  all: split; [lia|].
  all: try lia.
  destruct (leap_spec y) as [[-> ?]|[-> ?]]; lia.
Qed.

(** ** Back from a day number *)

Definition yoe_start (yoe : Z) : Z := 365 * yoe + yoe / 4 - yoe / 100.

Definition yoe_length (yoe : Z) : Z := if leap (yoe + 1) then 366 else 365.

Definition year_of_era (doe : Z) : Z := (doe - doe / 1460 + doe / 36524 - doe / 146096) / 365.

Lemma year_of_era_mono a b : 0 <= a <= b -> year_of_era a <= year_of_era b.
Proof. intros. unfold year_of_era. apply Z.div_le_mono; lia. Qed.

(** The estimate is right on the first and the last day of each of the 400 years. *)
Lemma year_of_era_ends yoe :
  0 <= yoe < 400 ->
  year_of_era (yoe_start yoe) = yoe /\ year_of_era (yoe_start yoe + yoe_length yoe - 1) = yoe.
Proof.
  intros Hy.
  assert (forallb (fun n => let yoe := Z.of_nat n in
    (year_of_era (yoe_start yoe) =? yoe) && (year_of_era (yoe_start yoe + yoe_length yoe - 1) =? yoe))
    (seq 0 400) = true) as Hall by (vm_compute; reflexivity).
  rewrite forallb_forall in Hall. specialize (Hall (Z.to_nat yoe)).
  rewrite in_seq, Z2Nat.id, andb_true_iff, !Z.eqb_eq in Hall by lia. apply Hall. lia.
Qed.

Lemma year_of_era_spec yoe doy :
  0 <= yoe < 400 -> 0 <= doy < yoe_length yoe -> year_of_era (yoe_start yoe + doy) = yoe.
Proof.
  intros Hy Hd. destruct (year_of_era_ends yoe Hy) as [Hlo Hhi].
  assert (0 <= yoe_start yoe) by (unfold yoe_start; lia).
  pose proof (year_of_era_mono (yoe_start yoe) (yoe_start yoe + doy) ltac:(lia)).
  pose proof (year_of_era_mono (yoe_start yoe + doy) (yoe_start yoe + yoe_length yoe - 1) ltac:(lia)). lia.
Qed.

Lemma yoe_start_next yoe : 0 <= yoe < 399 -> yoe_start (yoe + 1) = yoe_start yoe + yoe_length yoe.
Proof.
  intros. unfold yoe_start, yoe_length.
  destruct (leap_spec (yoe + 1)) as [[-> ?]|[-> ?]]; lia.
Qed.

Lemma year_start_split y : year_start y = 146097 * (y / 400) + yoe_start (y mod 400).
Proof. unfold year_start, yoe_start. lia. Qed.

Lemma leap_mod y : leap (y mod 400 + 1) = leap (y + 1).
Proof.
  unfold leap. replace ((y mod 400 + 1) mod 4) with ((y + 1) mod 4) by lia.
  replace ((y mod 400 + 1) mod 100) with ((y + 1) mod 100) by lia.
  by replace ((y mod 400 + 1) mod 400) with ((y + 1) mod 400) by lia.
Qed.

(** The month and the day of a day of the year. *)
Definition month_of_year (doy : Z) : Z := (5 * doy + 2) / 153.

Definition civil_month (mp : Z) : Z := if mp <? 10 then mp + 3 else mp - 9.

Lemma civil_march m : 1 <= m <= 12 -> civil_month (march_month m) = m /\ 0 <= march_month m <= 11.
Proof.
  intros. unfold civil_month, march_month. destruct (Z.ltb_spec 2 m); case_match; lia.
Qed.

(** The day of the March-based year of a valid date. *)
Definition day_of_year (m d : Z) : Z := month_start (march_month m) + d - 1.

Lemma day_of_year_spec y m d :
  valid_date y m d ->
  0 <= day_of_year m d < (if leap (march_year y m + 1) then 366 else 365) /\
  month_of_year (day_of_year m d) = march_month m.
Proof.
  intros [Hm Hd]. unfold day_of_year, month_of_year, month_start in *. months m.
  all: cbv [march_month march_year days_in_month Z.leb Z.ltb Z.eqb Z.compare Pos.compare Pos.compare_cont Pos.eqb orb] in *.
  2: replace (y - 1 + 1) with y by lia; destruct (leap y); lia.
  all: case_match; lia.
Qed.

(** Every day of an era lies in one of its years. *)
Lemma era_split doe :
  0 <= doe < 146097 ->
  exists yoe doy, doe = yoe_start yoe + doy /\ 0 <= yoe < 400 /\ 0 <= doy < yoe_length yoe.
Proof.
  intros Hd.
  assert (forall n : nat, (n <= 399)%nat -> doe < yoe_start (Z.of_nat n) + yoe_length (Z.of_nat n) ->
    exists yoe doy, doe = yoe_start yoe + doy /\ 0 <= yoe < 400 /\ 0 <= doy < yoe_length yoe) as Hn.
  { induction n as [|n IH]; intros Hn Hlt.
    - exists 0, doe. change (Z.of_nat 0) with 0 in Hlt. change (yoe_start 0) with 0 in *. lia.
    - destruct (Z_lt_le_dec doe (yoe_start (Z.of_nat (S n)))) as [Hlo|Hlo].
      + apply IH; [lia|]. replace (Z.of_nat (S n)) with (Z.of_nat n + 1) in Hlo by lia.
        rewrite yoe_start_next in Hlo by lia. lia.
      + exists (Z.of_nat (S n)), (doe - yoe_start (Z.of_nat (S n))). lia. }
  apply (Hn 399%nat); [lia|]. change (yoe_start (Z.of_nat 399) + yoe_length (Z.of_nat 399)) with 146097. lia.
Qed.

(** What [civil_from_days] computes, with the truncating divisions replaced. *)
Lemma civil_from_days_split z era yoe doy :
  z + 719468 = 146097 * era + yoe_start yoe + doy -> 0 <= yoe < 400 -> 0 <= doy < yoe_length yoe ->
  civil_from_days z =
    let m := civil_month (month_of_year doy) in
    let y := yoe + era * 400 in
    (if m <=? 2 then y + 1 else y, m, doy - month_start (month_of_year doy) + 1).
Proof.
  intros Hz Hy Hd. pose proof (year_of_era_spec yoe doy Hy Hd) as Hyoe.
  set (doe := yoe_start yoe + doy) in *.
  assert (0 <= doe < 146097) as Hdoe.
  { unfold doe, yoe_start, yoe_length in *. destruct (leap_spec (yoe + 1)) as [[E ?]|[E ?]]; rewrite E in Hd; lia. }
  unfold civil_from_days.
  assert ((if 0 <=? z + 719468 then z + 719468 else z + 719468 - 146096) ÷ 146097 = era) as ->
    by (destruct (Z.leb_spec 0 (z + 719468)); lia).
  replace (z + 719468 - era * 146097) with doe by lia.
  rewrite !(Z.quot_div_nonneg doe) by lia.
  rewrite (Z.quot_div_nonneg _ 365) by lia. fold (year_of_era doe). rewrite Hyoe.
  rewrite !(Z.quot_div_nonneg yoe) by lia. fold (yoe_start yoe).
  replace (doe - yoe_start yoe) with doy by lia.
  rewrite (Z.quot_div_nonneg (5 * doy + 2)) by lia. fold (month_of_year doy).
  rewrite (Z.quot_div_nonneg (153 * month_of_year doy + 2)) by (unfold month_of_year; lia).
  done.
Qed.

Lemma civil_of_day_number y m d : valid_date y m d -> civil_from_days (day_number y m d) = (y, m, d).
Proof.
  intros Hv. destruct (day_of_year_spec y m d Hv) as [Hdoy Hmp].
  set (y' := march_year y m) in *. rewrite <- (leap_mod y') in Hdoy.
  rewrite (civil_from_days_split _ (y' / 400) (y' mod 400) (day_of_year m d)).
  - cbv zeta. rewrite Hmp. destruct Hv as [Hm _]. destruct (civil_march m Hm) as [-> _].
    replace (y' mod 400 + y' / 400 * 400) with y' by lia.
    unfold day_of_year, y', march_year. destruct (m <=? 2); do 2 f_equal; lia.
  - unfold day_number. fold y'. rewrite year_start_split. unfold day_of_year. lia.
  - lia.
  - exact Hdoy.
Qed.

Lemma month_of_year_spec doy :
  0 <= doy < 366 ->
  0 <= month_of_year doy <= 11 /\
  0 <= doy - month_start (month_of_year doy) < days_in_month 2000 (civil_month (month_of_year doy)).
Proof.
  intros Hd. assert (0 <= month_of_year doy <= 11) as Hm by (unfold month_of_year; lia). split; [done|].
  remember (month_of_year doy) as mp eqn:E. unfold month_of_year in E.
  assert (mp = 0 \/ mp = 1 \/ mp = 2 \/ mp = 3 \/ mp = 4 \/ mp = 5 \/ mp = 6 \/ mp = 7 \/ mp = 8 \/
    mp = 9 \/ mp = 10 \/ mp = 11) as Hc by lia.
  repeat destruct Hc as [Hc|Hc]; rewrite Hc in E |- *; clear mp Hm Hc; unfold month_start.
  all: match goal with |- _ /\ _ < ?n => let v := eval vm_compute in n in change n with v end; lia.
Qed.

Lemma march_civil mp : 0 <= mp <= 11 -> march_month (civil_month mp) = mp /\ 1 <= civil_month mp <= 12.
Proof.
  intros. unfold march_month, civil_month. destruct (Z.ltb_spec mp 10); case_match; lia.
Qed.

(** Every day is the day of a valid date. *)
Lemma civil_from_days_valid z :
  let '(y, m, d) := civil_from_days z in valid_date y m d /\ day_number y m d = z.
Proof.
  destruct (era_split ((z + 719468) mod 146097)) as (yoe & doy & Hdoe & Hy & Hd); [lia|].
  rewrite (civil_from_days_split z ((z + 719468) / 146097) yoe doy) by lia. cbv zeta.
  assert (doy < 366) as H366 by (unfold yoe_length in Hd; destruct (leap (yoe + 1)); lia).
  destruct (month_of_year_spec doy ltac:(lia)) as [Hmp Hdm].
  set (mp := month_of_year doy) in *. destruct (march_civil mp Hmp) as [Hmm Hcm].
  set (m := civil_month mp) in *. set (y' := yoe + (z + 719468) / 146097 * 400).
  assert (march_year (if m <=? 2 then y' + 1 else y') m = y') as Hmy.
  { unfold march_year. destruct (m <=? 2); lia. }
  split; [split; [done|]|].
  - split; [lia|]. unfold days_in_month in *. destruct (Z.eqb_spec m 2) as [H2|]; [|lia].
    rewrite H2. cbn [Z.leb Z.compare Pos.compare Pos.compare_cont].
    assert (leap (y' + 1) = leap (yoe + 1)) as ->.
    { rewrite <- leap_mod, <- (leap_mod yoe). f_equal. f_equal. subst y'. rewrite Z.mod_add by lia. done. }
    change (leap 2000) with true in Hdm. cbn in Hdm.
    assert (mp = 11) as E by (unfold m, civil_month in H2; destruct (Z.ltb_spec mp 10); lia).
    rewrite E in *. change (month_start 11) with 337. unfold yoe_length in Hd. destruct (leap (yoe + 1)); lia.
  - unfold day_number. rewrite Hmy, Hmm, year_start_split.
    replace (y' / 400) with ((z + 719468) / 146097) by lia.
    replace (y' mod 400) with yoe by lia. lia.
Qed.

End Civil.
