(* ===== verification/DatetimeText.v ===== *)
(** * Dates and timestamps as text

    Lemmas on the pieces of the texts the formatters write: padded numbers, the tokenizer on
    them, the BC suffix, and the fraction of a second through IEEE doubles. *)

From stdpp Require Import base strings list pretty.
From Stdlib Require Import Strings.Ascii.
From S2P Require Import Prelude Types Bytes Text Datetime.

Module DatetimeText.
Import Text Datetime.

#[local] Arguments bool_decide : simpl never.
#[local] Arguments String.append !_ _ : simpl nomatch.

(** ** Doubles *)

Lemma rne_div_error a b : 0 < b -> 2 * Z.abs (rne_div a b * b - a) <= b.
Proof.
  intros Hb. unfold rne_div. pose proof (Z.div_mod a b ltac:(lia)). pose proof (Z.mod_pos_bound a b Hb).
  set (q := a / b) in *. set (r := a mod b) in *.
  destruct (Z.ltb_spec (2 * r) b); [nia|]. destruct (Z.ltb_spec b (2 * r)); [nia|].
  destruct (Z.even q); nia.
Qed.

Lemma rne_div_unique a b k : 0 < b -> 2 * Z.abs (a - k * b) < b -> rne_div a b = k.
Proof.
  intros Hb Hk. pose proof (rne_div_error a b Hb) as He. set (m := rne_div a b) in *.
  assert (Z.abs (m - k) * b < 1 * b) as H.
  { rewrite <- (Z.abs_eq b) at 1 by lia. rewrite <- Z.abs_mul. nia. }
  apply Z.mul_lt_mono_pos_r in H; lia.
Qed.

Lemma floor_log2_bounds num den :
  0 < num -> 0 < den ->
  Z.log2 num - Z.log2 den - 1 <= floor_log2 num den <= Z.log2 num - Z.log2 den.
Proof. intros. unfold floor_log2. destruct (_ <=? _); lia. Qed.

(** A fraction below one is scaled to lie between one and two. *)
Lemma floor_log2_fraction num den :
  0 < num < den ->
  floor_log2 num den < 0 /\ den <= num * 2 ^ (- floor_log2 num den) < 2 * den.
Proof.
  intros Hn. unfold floor_log2, scale_den, scale_num.
  pose proof (Z.log2_spec num ltac:(lia)) as [Ha1 Ha2].
  pose proof (Z.log2_spec den ltac:(lia)) as [Hb1 Hb2].
  pose proof (Z.log2_le_mono num den ltac:(lia)) as Hq.
  pose proof (Z.log2_nonneg num). set (a := Z.log2 num) in *. set (b := Z.log2 den) in *.
  rewrite Z.opp_involutive. rewrite (Z.max_l 0 (a - b)), (Z.max_r 0 (- (a - b))) by lia. rewrite Z.mul_1_r.
  set (k := b - a). replace (- (a - b)) with k by lia.
  assert (num * 2 ^ k < 2 ^ (b + 1)) as Hup.
  { replace (b + 1) with ((a + 1) + k) by lia. rewrite Z.pow_add_r by lia.
    apply Z.mul_lt_mono_pos_r; [apply Z.pow_pos_nonneg; lia|]. by replace (a + 1) with (Z.succ a) by lia. }
  assert (2 ^ b <= num * 2 ^ k) as Hlo.
  { replace b with (a + k) by lia. rewrite Z.pow_add_r by lia.
    apply Z.mul_le_mono_nonneg_r; [apply Z.pow_nonneg; lia|lia]. }
  rewrite Z.pow_add_r, Z.pow_1_r in Hup by lia. rewrite Z.pow_succ_r in Hb2 by lia.
  destruct (Z.leb_spec den (num * 2 ^ k)).
  - destruct (decide (k = 0)) as [E|]; [rewrite E in *; lia|]. replace (- (a - b)) with k by lia. lia.
  - replace (- (a - b - 1)) with (k + 1) by lia. rewrite Z.pow_add_r, Z.pow_1_r by lia. lia.
Qed.

(** The nearest double to [k] millionths is within half a unit in its last place. *)
Lemma fraction_double num den k :
  0 < k < 10 ^ 6 -> 0 < den -> num * 10 ^ 6 = k * den ->
  exists n m, 53 <= n <= 72 /\ round_f64 num den = mkF64 m (- n) /\ 2 ^ 52 <= m /\
    2 * Z.abs (m * 10 ^ 6 - k * 2 ^ n) <= 10 ^ 6.
Proof.
  intros Hk Hd Heq. assert (0 < num < den) as Hn by nia.
  destruct (floor_log2_fraction num den Hn) as [Hl [Hlo Hhi]]. unfold round_f64.
  rewrite (proj2 (Z.eqb_neq num 0)) by lia. set (l := floor_log2 num den) in *.
  set (p := 2 ^ (- l)) in *. assert (0 < p) by (apply Z.pow_pos_nonneg; lia).
  assert (p < 2 ^ 21) as Hp by nia.
  assert (- l < 21) as Hl' by (apply (Z.pow_lt_mono_r_iff 2); [lia|lia|exact Hp]).
  rewrite Z.max_l by lia. unfold scale_num, scale_den. rewrite Z.opp_involutive.
  rewrite (Z.max_r 0 (- (l - 52))), (Z.max_l 0 (l - 52)), Z.mul_1_r by lia.
  exists (52 - l), (rne_div (num * 2 ^ (52 - l)) den).
  replace (- (l - 52)) with (52 - l) by lia. replace (- (52 - l)) with (l - 52) by lia.
  pose proof (rne_div_error (num * 2 ^ (52 - l)) den Hd) as He.
  assert (2 ^ (52 - l) = 2 ^ 52 * p) as Hsplit by (unfold p; rewrite <- Z.pow_add_r by lia; f_equal; lia).
  set (m := rne_div (num * 2 ^ (52 - l)) den) in *. split_and!; [lia|lia|done| |].
  - rewrite Hsplit in He. assert (2 ^ 52 * den <= num * (2 ^ 52 * p)) by nia. nia.
  - set (r := 2 ^ (52 - l)) in *.
    assert (den * (2 * Z.abs (m * 10 ^ 6 - k * r)) <= den * 10 ^ 6) as H'; [|nia].
    replace (den * (2 * Z.abs (m * 10 ^ 6 - k * r))) with (2 * Z.abs (10 ^ 6 * (m * den - num * r))).
    + rewrite Z.abs_mul. nia.
    + replace (10 ^ 6 * (m * den - num * r)) with (den * (m * 10 ^ 6 - k * r)) by nia.
      rewrite Z.abs_mul. nia.
Qed.

(** Times a million, it rounds to [k]. *)
Lemma double_micros n m k :
  0 < k < 10 ^ 6 -> 53 <= n -> 2 * Z.abs (m * 10 ^ 6 - k * 2 ^ n) <= 10 ^ 6 ->
  f64_round (f64_mul (mkF64 m (- n)) MICROS_PER_SEC) = k.
Proof.
  intros Hk Hn He. unfold f64_mul, MICROS_PER_SEC. cbn [mant exp].
  rewrite Z.opp_involutive, (Z.max_l 0 (- n)), (Z.max_r 0 n) by lia.
  change (2 ^ 0) with 1. rewrite Z.mul_1_r. change 1000000 with (10 ^ 6) in *.
  set (P := m * 10 ^ 6) in *. set (R := 2 ^ n) in *.
  assert (2 ^ 53 <= R) as HR by (apply Z.pow_le_mono_r; lia).
  assert (0 < P) as HP by nia. unfold round_f64. rewrite (proj2 (Z.eqb_neq P 0)) by lia.
  destruct (floor_log2_bounds P R HP ltac:(lia)) as [Hb1 Hb2]. set (l := floor_log2 P R) in *.
  assert (Z.log2 P <= 20 + Z.log2 R) as Hu.
  { rewrite <- Z.log2_mul_pow2 by lia. apply Z.log2_le_mono. nia. }
  assert (Z.log2 R <= 1 + Z.log2 P) as Hd.
  { rewrite <- Z.log2_mul_pow2 by lia. apply Z.log2_le_mono. nia. }
  rewrite Z.max_l by lia. set (E := 52 - l). replace (- (l - 52)) with E by lia.
  unfold scale_num, scale_den. rewrite (Z.max_r 0 E), (Z.max_l 0 (- E)) by lia.
  change (2 ^ 0) with 1. rewrite Z.mul_1_r.
  pose proof (rne_div_error (P * 2 ^ E) R ltac:(lia)) as He2. set (m' := rne_div (P * 2 ^ E) R) in *.
  unfold f64_round. cbn [mant exp].
  rewrite (Z.max_l 0 (l - 52)), (Z.max_r 0 (- (l - 52))) by lia. change (2 ^ 0) with 1. rewrite Z.mul_1_r.
  replace (- (l - 52)) with E by lia.
  assert (2 ^ 32 <= 2 ^ E) as HE by (apply Z.pow_le_mono_r; lia). set (S := 2 ^ E) in *.
  apply rne_div_unique; [lia|].
  assert (R * (2 * Z.abs (m' - k * S)) < R * S) as H; [|nia].
  replace (R * (2 * Z.abs (m' - k * S))) with (2 * Z.abs ((m' * R - P * S) + S * (P - k * R))).
  - pose proof (Z.abs_triangle (m' * R - P * S) (S * (P - k * R))) as Ht.
    rewrite (Z.abs_mul S), (Z.abs_eq S) in Ht by lia. nia.
  - replace ((m' * R - P * S) + S * (P - k * R)) with (R * (m' - k * S)) by nia.
    rewrite Z.abs_mul. nia.
Qed.

Lemma fraction_normal m n : 53 <= n <= 72 -> 2 ^ 52 <= m ->
  f64_is_zero (mkF64 m (- n)) = false /\ f64_subnormal (mkF64 m (- n)) = false.
Proof.
  intros Hn Hm. unfold f64_is_zero, f64_subnormal. cbn [mant exp]. split; [lia|].
  rewrite (Z.max_l 0 (- _)) by lia. change (2 ^ 0) with 1. apply Z.ltb_ge.
  pose proof (Z.pow_pos_nonneg 2 (Z.max 0 (- n + 1022)) ltac:(lia) ltac:(lia)). nia.
Qed.

(** ** Fractions of a second *)

Lemma digits_value_parse max acc s v :
  parse_digits max acc s = Ok v -> digits_value acc s = v.
Proof.
  revert acc. induction s as [|a s IH]; intros acc; cbn; [congruence|].
  unfold to_digit. destruct (between 48 57 (char_val a)); [|done].
  destruct (max <? _); [done|]. apply IH.
Qed.

Lemma digits_value_app acc s t : digits_value acc (s +:+ t) = digits_value (digits_value acc s) t.
Proof. revert acc. induction s as [|a s IH]; intros acc; cbn; [done|]. apply IH. Qed.

Lemma digits_value_zeros acc n : digits_value acc (repeat_char "0" n) = acc * 10 ^ Z.of_nat n.
Proof.
  revert acc. induction n as [|n IH]; intros acc; [cbn; lia|].
  change (digits_value acc (repeat_char "0" (S n))) with (digits_value (acc * 10 + 0) (repeat_char "0" n)).
  rewrite IH, Nat2Z.inj_succ, Z.pow_succ_r by lia. lia.
Qed.

Lemma trim_end_zeros_split s : exists n, s = trim_end_zeros s +:+ repeat_char "0" n.
Proof.
  induction s as [|a s [n IH]]; [by exists 0%nat|]. cbn.
  destruct (trim_end_zeros s) as [|b r] eqn:E.
  - unfold is_char. case_bool_decide as Ha; [subst a; exists (S n)|exists n]; cbn; f_equal; exact IH.
  - exists n. cbn. f_equal. exact IH.
Qed.

Lemma fraction_micros_exact digits k :
  0 < k < 10 ^ 6 -> all_chars is_digit digits = true -> digits <> EmptyString ->
  digits_value 0 digits * 10 ^ 6 = k * 10 ^ str_len digits ->
  fraction_micros (Some digits) = Ok k.
Proof.
  intros Hk Hd Hne Hv. unfold fraction_micros. rewrite bool_decide_eq_false_2, Hd by done. cbn [negb].
  unfold parse_fraction.
  destruct (fraction_double (digits_value 0 digits) (10 ^ str_len digits) k Hk) as (n & m & Hn & -> & Hm & He);
    [apply Z.pow_pos_nonneg; unfold str_len; lia|done|].
  destruct (fraction_normal m n Hn Hm) as [-> ->]. cbn [negb andb orb].
  rewrite (double_micros n m k) by lia.
  unfold between, MICROS_PER_SEC. rewrite !(proj2 (Z.leb_le _ _)) by lia. done.
Qed.

(** ** Padded numbers *)

Lemma repeat_char_digits n : all_chars is_digit (repeat_char "0" n) = true.
Proof. by induction n. Qed.

Lemma pad_digits w n : 0 <= n -> all_chars is_digit (pad w n) = true.
Proof. intros. unfold pad. by rewrite all_chars_app, repeat_char_digits, pretty_digits. Qed.

Lemma pad_nonempty w n : 0 <= n -> pad w n <> EmptyString.
Proof.
  intros Hn. unfold pad. pose proof (pretty_nonempty n Hn). by destruct (repeat_char "0" _).
Qed.

Lemma parse_digits_trim max s :
  0 <= max -> parse_digits max 0 (trim_start_matches "0" s) = parse_digits max 0 s.
Proof.
  intros Hm. induction s as [|a s IH]; [done|]. cbn [trim_start_matches]. case_bool_decide as Ha; [|done].
  subst a. rewrite IH. symmetry. exact (parse_zeros max 1 s Hm).
Qed.

Lemma all_chars_trim p c s : all_chars p s = true -> all_chars p (trim_start_matches c s) = true.
Proof.
  induction s as [|a s IH]; [done|]. cbn. intros [Ha Hs]%andb_true_iff.
  case_bool_decide; [by apply IH|]. cbn. by rewrite Ha, Hs.
Qed.

Lemma ascii_digits_value s n :
  s <> EmptyString -> all_chars is_digit s = true -> parse_digits i64_max 0 s = Ok n -> ascii_digits s = Ok n.
Proof.
  intros Hne Hd Hp. unfold ascii_digits. rewrite bool_decide_eq_false_2, Hd by done. cbn.
  rewrite <- (parse_digits_trim i64_max s) in Hp by (unfold i64_max; lia).
  case_bool_decide as E; [rewrite E in Hp; cbn in Hp; congruence|].
  by rewrite parse_digits_only, Hp by (done || by apply all_chars_trim).
Qed.

Lemma parse_digits_pad w n : 0 <= n <= i64_max -> parse_digits i64_max 0 (pad w n) = Ok n.
Proof.
  intros. unfold pad. rewrite parse_zeros by (unfold i64_max; lia). by apply parse_digits_pretty.
Qed.

Lemma ascii_digits_pad w n : 0 <= n <= i64_max -> ascii_digits (pad w n) = Ok n.
Proof.
  intros. apply ascii_digits_value; [apply pad_nonempty|apply pad_digits|apply parse_digits_pad]; lia.
Qed.

Lemma pretty_N_go_length k n s :
  (n < 10 ^ N.of_nat k)%N -> (String.length (pretty_N_go n s) <= k + String.length s)%nat.
Proof.
  revert n s. induction k as [|k IH]; intros n s Hn.
  { replace n with 0%N by (cbn in Hn; lia). by rewrite pretty_N_go_0. }
  destruct (decide (n = 0)%N) as [->|Hn0]; [rewrite pretty_N_go_0; lia|].
  rewrite pretty_N_go_step by lia. etrans; [apply IH|cbn; lia].
  rewrite Nat2N.inj_succ, N.pow_succ_r' in Hn. apply N.Div0.div_lt_upper_bound. lia.
Qed.

Lemma pretty_length_le k n : (0 < k)%nat -> 0 <= n < 10 ^ Z.of_nat k -> (String.length (pretty n) <= k)%nat.
Proof.
  intros Hk Hn. destruct (pretty_Z_cases n ltac:(lia)) as [[-> _]|[_ ->]]; [cbn; lia|].
  etrans; [apply (pretty_N_go_length k)|cbn; lia].
  apply N2Z.inj_lt. rewrite Z2N.id, N2Z.inj_pow, nat_N_Z by lia. exact (proj2 Hn).
Qed.

Lemma pad_length w n : (0 < w)%nat -> 0 <= n < 10 ^ Z.of_nat w -> String.length (pad w n) = w.
Proof.
  intros Hw Hn. pose proof (pretty_length_le w n Hw Hn). unfold pad.
  rewrite length_append, length_repeat_char. lia.
Qed.

Lemma pad_length_le w k n :
  (w <= k)%nat -> (0 < k)%nat -> 0 <= n < 10 ^ Z.of_nat k -> (String.length (pad w n) <= k)%nat.
Proof.
  intros Hw Hk Hn. pose proof (pretty_length_le k n Hk Hn). unfold pad.
  rewrite length_append, length_repeat_char. lia.
Qed.

(** ** The tokenizer on digits *)

Lemma skip_while_app p s rest :
  all_chars p s = true -> next_is p rest = false -> skip_while p (s +:+ rest) = rest.
Proof.
  induction s as [|a s IH]; cbn.
  - intros _ Hr. destruct rest as [|a rest]; [done|]. cbn in *. by rewrite Hr.
  - intros [Ha Hs]%andb_true_iff Hr. by rewrite Ha, IH.
Qed.

Lemma all_chars_weaken p q s :
  (forall a, p a = true -> q a = true) -> all_chars p s = true -> all_chars q s = true.
Proof.
  intros Hpq. induction s as [|a s IH]; cbn; [done|]. intros [Ha Hs]%andb_true_iff. by rewrite Hpq, IH.
Qed.

(** [Y-M-D] from its second character on, up to something else. *)
Lemma skip_number_date y m d rest :
  all_chars is_digit y = true -> all_chars is_digit m = true -> m <> EmptyString ->
  all_chars is_digit d = true -> next_is (fun b => is_digit b || is_char "-" b) rest = false ->
  skip_number (y +:+ "-" +:+ m +:+ "-" +:+ d +:+ rest) = rest.
Proof.
  intros Hy Hm Hne Hd Hr. unfold skip_number. rewrite skip_while_app by done.
  cbn [String.append]. unfold is_delimiter, is_char at 1 2 3 4. rewrite bool_decide_eq_false_2 by done.
  rewrite bool_decide_eq_true_2 by done. cbn [orb]. unfold skip_delimited.
  assert (next_is is_digit (m +:+ String "-" (d +:+ rest)) = true) as ->.
  { destruct m as [|a m]; [done|]. cbn in *. by apply andb_true_iff in Hm as [-> _]. }
  rewrite skip_while_app by done. unfold is_char at 1.
  rewrite bool_decide_eq_true_2 by done. apply skip_while_app; [|done].
  eapply all_chars_weaken; [|exact Hd]. by intros a ->.
Qed.

Lemma skip_number_time h t rest :
  all_chars is_digit h = true -> all_chars is_time_char t = true -> next_is is_time_char rest = false ->
  skip_number (h +:+ ":" +:+ t +:+ rest) = rest.
Proof.
  intros Hh Ht Hr. unfold skip_number. rewrite skip_while_app by done. cbn [String.append].
  unfold is_char at 1. rewrite bool_decide_eq_true_2 by done. by apply skip_while_app.
Qed.

(** One turn of the loop, for a field and for what is skipped. *)
Lemma workspace_field fuel w used fields a rest rest' :
  next_token a rest = Ok (rest', true) -> fields + 1 <= PG_MAX_DATETIME_FIELDS ->
  used + (str_len (String a rest) - str_len rest') + 1 <= w ->
  workspace_loop (S fuel) w used fields (String a rest) =
    workspace_loop fuel w (used + (str_len (String a rest) - str_len rest') + 1) (fields + 1) rest'.
Proof.
  intros Hn Hf Hu. cbn [workspace_loop]. rewrite Hn.
  by rewrite (proj2 (Z.ltb_ge PG_MAX_DATETIME_FIELDS _)), (proj2 (Z.ltb_ge w _)).
Qed.

Lemma workspace_mono fuel fuel' w used fields s r :
  workspace_loop fuel w used fields s = Some r -> (fuel <= fuel')%nat ->
  workspace_loop fuel' w used fields s = Some r.
Proof.
  revert fuel' used fields s. induction fuel as [|fuel IH]; intros fuel' used fields s Hr Hf.
  { destruct s; [by destruct fuel'|done]. }
  destruct fuel' as [|fuel']; [lia|]. destruct s as [|a s]; [done|]. cbn [workspace_loop] in *.
  destruct (next_token a s) as [[rest []]|]; [|by apply IH; [|lia]|done].
  destruct (_ <? _); [done|]. destruct (_ <? _); [done|]. apply IH; [done|lia].
Qed.

(** ** The texts *)

Definition date_text (y m d : Z) : string := pad 4 y +:+ "-" +:+ pad 2 m +:+ "-" +:+ pad 2 d.

Definition bc_text (bc : bool) : string := if bc then " BC" else EmptyString.

Definition fraction_text (frac : Z) : string :=
  if negb (frac =? 0) then "." +:+ trim_end_zeros (pad 6 frac) else EmptyString.

Definition time_text (h mi s frac : Z) : string :=
  pad 2 h +:+ ":" +:+ pad 2 mi +:+ ":" +:+ pad 2 s +:+ fraction_text frac.

Lemma digit_plain a :
  is_digit a = true -> is_ascii_whitespace a = false /\ is_char "T" a = false.
Proof.
  unfold is_digit, is_ascii_whitespace, is_char. intros [H1 H2]%andb_true_iff.
  apply Z.leb_le in H1, H2. split; [|apply bool_decide_eq_false_2; intros ->; by vm_compute in H2].
  rewrite !orb_false_iff, !Z.eqb_neq. lia.
Qed.

(** A padded number begins with a digit. *)
Lemma pad_cons w n : 0 <= n -> exists a r, pad w n = String a r /\ is_digit a = true /\ all_chars is_digit r = true.
Proof.
  intros Hn. pose proof (pad_nonempty w n Hn) as Hne. pose proof (pad_digits w n Hn) as Hd.
  destruct (pad w n) as [|a r]; [done|]. cbn in Hd. apply andb_true_iff in Hd as [? ?]. by exists a, r.
Qed.

Lemma date_token y m d rest a r :
  0 <= y -> 0 <= m -> 0 <= d ->
  date_text y m d +:+ rest = String a r -> next_is (fun b => is_digit b || is_char "-" b) rest = false ->
  next_token a r = Ok (rest, true).
Proof.
  intros Hy Hm Hd E Hr. destruct (pad_cons 4 y Hy) as (b & yr & Ey & Hb & Hyr). unfold date_text in E.
  rewrite Ey in E. rewrite !string_app_assoc in E. cbn in E. injection E as <- <-.
  unfold next_token. destruct (digit_plain b Hb) as [-> _]. rewrite Hb. do 2 f_equal.
  apply skip_number_date; auto using pad_digits, pad_nonempty.
Qed.

Lemma fraction_chars frac : 0 <= frac -> all_chars is_time_char (fraction_text frac) = true.
Proof.
  intros Hf. unfold fraction_text. destruct (negb _); [|done].
  change ("." +:+ trim_end_zeros (pad 6 frac)) with (String "." (trim_end_zeros (pad 6 frac))). cbn.
  destruct (trim_end_zeros_split (pad 6 frac)) as [n Hn]. pose proof (pad_digits 6 frac Hf) as Hd.
  rewrite Hn, all_chars_app in Hd. apply andb_true_iff in Hd as [Hd _].
  eapply all_chars_weaken; [|exact Hd]. intros a Ha. unfold is_time_char. by rewrite Ha.
Qed.

Lemma digits_time s : all_chars is_digit s = true -> all_chars is_time_char s = true.
Proof. apply all_chars_weaken. intros a Ha. unfold is_time_char. by rewrite Ha. Qed.

Lemma time_token h mi s frac rest a r :
  0 <= h -> 0 <= mi -> 0 <= s -> 0 <= frac ->
  time_text h mi s frac +:+ rest = String a r -> next_is is_time_char rest = false ->
  next_token a r = Ok (rest, true).
Proof.
  intros Hh Hmi Hs Hf E Hr. destruct (pad_cons 2 h Hh) as (b & hr & Eh & Hb & Hhr). unfold time_text in E.
  rewrite Eh in E. cbn in E. injection E as <- <-.
  unfold next_token. destruct (digit_plain b Hb) as [-> _]. rewrite Hb. do 2 f_equal.
  rewrite !string_app_assoc. apply skip_number_time; [done| |done].
  cbn. rewrite !all_chars_app. cbn. rewrite all_chars_app, !digits_time, fraction_chars by auto using pad_digits.
  done.
Qed.

Lemma workspace_bc fuel w used fields bc :
  used + 3 <= w -> fields + 1 <= PG_MAX_DATETIME_FIELDS ->
  workspace_loop (2 + fuel) w used fields (bc_text bc) = Some (Ok tt).
Proof.
  intros Hu Hf. destruct bc; [|done]. unfold bc_text.
  change (workspace_loop (2 + fuel) w used fields " BC") with (workspace_loop (1 + fuel) w used fields "BC").
  cbn [Nat.add]. rewrite (workspace_field fuel w used fields "B" "C" EmptyString); [by destruct fuel|done|done|].
  change (str_len "BC") with 2. change (str_len EmptyString) with 0. lia.
Qed.

Lemma bc_text_stops p bc : p " "%char = false -> next_is p (bc_text bc) = false.
Proof. by destruct bc. Qed.

Lemma length_date_text y m d :
  0 <= y < 10 ^ 8 -> 0 <= m < 100 -> 0 <= d < 100 -> (String.length (date_text y m d) <= 14)%nat.
Proof.
  intros. unfold date_text. rewrite !length_append.
  pose proof (pad_length_le 4 8 y ltac:(lia) ltac:(lia) ltac:(cbn; lia)).
  rewrite (pad_length 2 m), (pad_length 2 d) by (cbn; lia). cbn. lia.
Qed.

Lemma trim_end_zeros_length s : (String.length (trim_end_zeros s) <= String.length s)%nat.
Proof.
  destruct (trim_end_zeros_split s) as [n Hn]. rewrite Hn at 2. rewrite length_append. lia.
Qed.

Lemma length_time_text h mi s frac :
  0 <= h < 100 -> 0 <= mi < 100 -> 0 <= s < 100 -> 0 <= frac < 10 ^ 6 ->
  (String.length (time_text h mi s frac) <= 15)%nat.
Proof.
  intros. unfold time_text, fraction_text. rewrite !length_append.
  rewrite (pad_length 2 h), (pad_length 2 mi), (pad_length 2 s) by (cbn; lia).
  pose proof (trim_end_zeros_length (pad 6 frac)) as Ht. rewrite (pad_length 6 frac) in Ht by (cbn; lia).
  destruct (negb _); rewrite ?length_append; cbn; lia.
Qed.

(** The workspace is never exhausted by these texts. *)
Lemma check_date_text y m d bc w :
  0 <= y < 10 ^ 8 -> 0 <= m < 100 -> 0 <= d < 100 -> 19 <= w ->
  check_datetime_workspace (date_text y m d +:+ bc_text bc) w = Ok tt.
Proof.
  intros Hy Hm Hd Hw. unfold check_datetime_workspace.
  pose proof (length_date_text y m d Hy Hm Hd) as Hl.
  destruct (pad_cons 4 y ltac:(lia)) as (b & yr & Ey & _ & _).
  assert (exists r, date_text y m d +:+ bc_text bc = String b r) as [r Er].
  { unfold date_text. rewrite Ey. by eexists. }
  assert (3 <= String.length (date_text y m d +:+ bc_text bc))%nat as H3.
  { unfold date_text. rewrite !length_append, (pad_length 2 m), (pad_length 2 d) by (cbn; lia). cbn. lia. }
  rewrite (workspace_mono 3 _ w 0 0 _ (Ok tt)); [done| |done]. rewrite Er.
  rewrite (workspace_field 2 w 0 0 b r (bc_text bc)).
  - apply (workspace_bc 0); [|by vm_compute]. rewrite <- Er. unfold str_len. rewrite length_append. lia.
  - apply (date_token y m d); [lia|lia|lia|done|by apply bc_text_stops].
  - by vm_compute.
  - rewrite <- Er. unfold str_len. rewrite length_append. lia.
Qed.

Lemma workspace_space fuel w used fields rest :
  workspace_loop (S fuel) w used fields (" " +:+ rest) = workspace_loop fuel w used fields rest.
Proof. done. Qed.

Lemma check_timestamp_text y m d h mi s frac bc w :
  0 <= y < 10 ^ 8 -> 0 <= m < 100 -> 0 <= d < 100 ->
  0 <= h < 100 -> 0 <= mi < 100 -> 0 <= s < 100 -> 0 <= frac < 10 ^ 6 -> 34 <= w ->
  check_datetime_workspace (date_text y m d +:+ " " +:+ time_text h mi s frac +:+ bc_text bc) w = Ok tt.
Proof.
  intros Hy Hm Hd Hh Hmi Hs Hf Hw. unfold check_datetime_workspace.
  pose proof (length_date_text y m d Hy Hm Hd) as Hl.
  pose proof (length_time_text h mi s frac Hh Hmi Hs Hf) as Hl2.
  set (D := date_text y m d) in *. set (T := time_text h mi s frac) in *.
  destruct (pad_cons 4 y ltac:(lia)) as (b & yr & Ey & _ & _).
  destruct (pad_cons 2 h ltac:(lia)) as (c & hr & Eh & _ & _).
  assert (exists r, D +:+ " " +:+ T +:+ bc_text bc = String b r) as [r Er].
  { unfold D, date_text. rewrite Ey. by eexists. }
  assert (exists t, T +:+ bc_text bc = String c t) as [t Et].
  { unfold T, time_text. rewrite Eh. by eexists. }
  assert (5 <= String.length (D +:+ " " +:+ T +:+ bc_text bc))%nat as H5.
  { unfold D, T, date_text, time_text.
    rewrite !length_append, (pad_length 2 m), (pad_length 2 d), (pad_length 2 h) by (cbn; lia). cbn. lia. }
  rewrite (workspace_mono 5 _ w 0 0 _ (Ok tt)); [done| |done].
  assert (str_len (D +:+ " " +:+ T +:+ bc_text bc) - str_len (" " +:+ T +:+ bc_text bc) <= 14) as Hu1.
  { unfold str_len. rewrite (length_append D). lia. }
  assert (str_len (T +:+ bc_text bc) - str_len (bc_text bc) <= 15) as Hu2.
  { unfold str_len. rewrite length_append. lia. }
  rewrite Er. rewrite (workspace_field 4 w 0 0 b r (" " +:+ T +:+ bc_text bc)); rewrite <- ?Er.
  - rewrite workspace_space, Et. rewrite (workspace_field 2 _ _ _ c t (bc_text bc)); rewrite <- ?Et.
    + apply (workspace_bc 0); [|by vm_compute]. lia.
    + by apply (time_token h mi s frac); [lia|lia|lia|lia|done|apply bc_text_stops].
    + by vm_compute.
    + lia.
  - by apply (date_token y m d); [lia|lia|lia|done|].
  - by vm_compute.
  - lia.
Qed.

(** ** The BC suffix *)

Lemma str_drop_app s t : str_drop (String.length s) (s +:+ t) = t.
Proof. induction s as [|a s IH]; [by destruct t|]. exact IH. Qed.

Lemma str_take_app s t : str_take (String.length s) (s +:+ t) = s.
Proof. induction s as [|a s IH]; [by destruct t|]. cbn. by rewrite IH. Qed.

Lemma split_bc_none c s t a b :
  solid c = true -> is_time_char a = true -> solid b = true ->
  String c s = t +:+ String a (String b EmptyString) ->
  split_bc_suffix (String c s) = Ok (String c s, false).
Proof.
  intros Hc Ha Hb E. unfold split_bc_suffix.
  rewrite (trim_solid c s b (t +:+ String a EmptyString)); [|done|done|by rewrite E, string_app_assoc].
  rewrite E, length_append. cbn [String.length]. rewrite Nat.add_sub. unfold get_from. rewrite str_drop_app.
  assert (between 128 191 (char_val a) = false /\ to_ascii_lowercase a <> "b"%char) as [-> Hl].
  { unfold is_time_char, is_digit, is_char, between in *. clear -Ha.
    destruct a as [[] [] [] [] [] [] [] []]; by vm_compute in Ha |- *. }
  assert (eq_ignore_ascii_case (String a (String b EmptyString)) "BC" = false) as ->; [|done].
  unfold eq_ignore_ascii_case. apply bool_decide_eq_false_2. cbn [map_chars]. intros H. by injection H.
Qed.

Lemma trim_end_space t b :
  solid b = true -> trim_end ((t +:+ String b EmptyString) +:+ " ") = t +:+ String b EmptyString.
Proof.
  intros Hb. unfold trim_end. rewrite !str_rev_app.
  change (str_rev " " +:+ str_rev (String b EmptyString) +:+ str_rev t) with (String " " (String b (str_rev t))).
  rewrite !length_append. cbn [String.length]. rewrite Nat.add_1_r.
  assert (forall fuel, strip_any (S fuel) (str_rev <$> whitespace) (String " " (String b (str_rev t))) =
    strip_any fuel (str_rev <$> whitespace) (String b (str_rev t))) as ->.
  { intros fuel. done. }
  rewrite strip_any_solid by (done || by repeat constructor). by rewrite str_rev_cons, str_rev_involutive.
Qed.

Lemma split_bc_some c s t b :
  solid c = true -> solid b = true -> String c s = t +:+ String b EmptyString ->
  split_bc_suffix (String c s +:+ " BC") = Ok (String c s, true).
Proof.
  intros Hc Hb E. unfold split_bc_suffix. cbn [String.append].
  rewrite (trim_solid c (s +:+ " BC") "C" (String c s +:+ " B")); [|done|done|by rewrite string_app_assoc].
  change (String c (s +:+ " BC")) with (String c s +:+ " BC").
  rewrite length_append. cbn [String.length]. replace (S (String.length s) + 3 - 2)%nat with (S (String.length s) + 1)%nat by lia.
  assert (String c s +:+ " BC" = (String c s +:+ " ") +:+ "BC") as -> by (by rewrite string_app_assoc).
  assert (S (String.length s) + 1 = String.length (String c s +:+ " "))%nat as Hlen
    by (rewrite length_append; done).
  unfold get_from. rewrite Hlen, str_drop_app.
  change (between 128 191 (char_val "B")) with false. cbv iota.
  change (eq_ignore_ascii_case "BC" "BC") with true. cbn [negb String.length].
  replace (S (String.length s) + 3 - 2)%nat with (String.length (String c s +:+ " ")) by lia.
  rewrite str_take_app, E, trim_end_space by done. rewrite <- E. by rewrite bool_decide_eq_false_2.
Qed.

End DatetimeText.
