(* ===== verification/DatetimeProps.v ===== *)
(** * Dates and timestamps: properties

    The tokenizer's accounting terminates, the date validation accepts exactly the days of the
    calendar in range, and every date and timestamp is read back from its text. *)

From stdpp Require Import base strings list pretty.
From Stdlib Require Import Strings.Ascii.
From S2P Require Import Prelude Types Bytes Text Datetime Civil DatetimeText.

Module DatetimeProps.
Import Text Datetime Civil DatetimeText.

#[local] Arguments bool_decide : simpl never.
#[local] Arguments String.append !_ _ : simpl nomatch.

(** ** The tokenizer *)

Lemma skip_while_length p s : (String.length (skip_while p s) <= String.length s)%nat.
Proof. induction s as [|a s IH]; cbn; [lia|]. destruct (p a); cbn; lia. Qed.

Lemma skip_delimited_length c s : (String.length (skip_delimited c s) <= String.length s)%nat.
Proof.
  unfold skip_delimited. destruct (next_is is_digit s); [|apply skip_while_length].
  pose proof (skip_while_length is_digit s) as H. destruct (skip_while is_digit s) as [|a r]; [done|].
  destruct (is_char c a); [|done].
  pose proof (skip_while_length (fun b => is_digit b || is_char c b) r). cbn in *. lia.
Qed.

Lemma skip_number_length s : (String.length (skip_number s) <= String.length s)%nat.
Proof.
  unfold skip_number. pose proof (skip_while_length is_digit s) as H.
  destruct (skip_while is_digit s) as [|a r]; [done|]. cbn in H.
  destruct (is_char ":" a).
  { pose proof (skip_while_length (fun b => is_digit b || is_char ":" b || is_char "." b) r). lia. }
  destruct (is_delimiter a); [|done]. pose proof (skip_delimited_length a r). lia.
Qed.

Lemma next_token_length a rest rest' field :
  next_token a rest = Ok (rest', field) -> (String.length rest' <= String.length rest)%nat.
Proof.
  unfold next_token. intros H.
  repeat case_match; simplify_eq; auto using skip_number_length, skip_while_length.
  match goal with H : skip_signed rest = _ |- _ => revert H end. unfold skip_signed.
  pose proof (skip_while_length is_ascii_whitespace rest) as Hl.
  destruct (skip_while is_ascii_whitespace rest) as [|b r]; [done|]. cbn in Hl.
  destruct (is_digit b); [|destruct (is_ascii_alphabetic b); [|done]]; intros [= <-].
  all: etrans; [apply skip_while_length|lia].
Qed.

(** [C40] The tokenizer's accounting terminates: every turn consumes input, so as many turns
    as the text has bytes always decide, and more change nothing. *)
Theorem workspace_terminates text workspace_bytes used fields fuel :
  (String.length text <= fuel)%nat ->
  exists r, workspace_loop fuel workspace_bytes used fields text = Some r /\
    workspace_loop (String.length text) workspace_bytes used fields text = Some r.
Proof.
  remember (String.length text) as n eqn:Hn. revert text used fields fuel Hn.
  induction (lt_wf n) as [n _ IH]. intros text used fields fuel -> Hf.
  destruct text as [|a rest]; [destruct fuel; by eexists|].
  destruct fuel as [|fuel]; [cbn in Hf; lia|]. cbn [workspace_loop String.length] in *.
  destruct (next_token a rest) as [[rest' field]|] eqn:E; [|by eexists].
  apply next_token_length in E.
  assert (forall used fields, exists r, workspace_loop fuel workspace_bytes used fields rest' = Some r /\
    workspace_loop (String.length rest) workspace_bytes used fields rest' = Some r) as Hrec.
  { intros u f. destruct (IH (String.length rest') ltac:(lia) rest' u f fuel eq_refl ltac:(lia)) as (r & H1 & H2).
    destruct (IH (String.length rest') ltac:(lia) rest' u f (String.length rest) eq_refl ltac:(lia)) as (r' & H3 & H4).
    exists r. rewrite H1, H3. split; congruence. }
  destruct field; [|apply Hrec]. destruct (_ <? _); [by eexists|]. destruct (_ <? _); [by eexists|]. apply Hrec.
Qed.

Lemma workspace_terminates_witness :
  exists r, workspace_loop 20 129 0 0 "2024-02-29 BC" = Some r /\
    workspace_loop (String.length "2024-02-29 BC") 129 0 0 "2024-02-29 BC" = Some r.
Proof. apply (workspace_terminates "2024-02-29 BC" 129 0 0 20). cbn. lia. Defined.

(** ** Calendar validation *)

#[local] Ltac Zify.zify_post_hook ::= Z.to_euclidean_division_equations.

Lemma checked_inv z v : checked z = Some v -> v = z.
Proof. unfold checked. destruct (_ && _); congruence. Qed.

Lemma checked_in z : i64_min <= z <= i64_max -> checked z = Some z.
Proof. intros. unfold checked. by rewrite !(proj2 (Z.leb_le _ _)) by lia. Qed.

Lemma era_floor y : (if 0 <=? y then y ÷ 400 else (y - 399) ÷ 400) = y / 400.
Proof. destruct (Z.leb_spec 0 y); lia. Qed.

Lemma days_from_civil_Some y m d days :
  1 <= m <= 12 -> 1 <= d -> days_from_civil_checked y m d = Some days -> days = day_number y m d.
Proof.
  intros Hm Hd. unfold days_from_civil_checked, day_number, march_year, march_month, month_start.
  rewrite year_start_split. unfold yoe_start.
  set (y' := if m <=? 2 then y - 1 else y).
  assert ((if m <=? 2 then checked (y - 1) else Some y) = Some y' \/
          (if m <=? 2 then checked (y - 1) else Some y) = None) as [-> | ->]; [|cbn|done].
  { subst y'. destruct (m <=? 2); [|by left]. unfold checked. destruct (_ && _); auto. }
  rewrite <- (era_floor y').
  intros H. destruct (0 <=? y') eqn:Hy; cbn in H.
  2: destruct (checked (y' - 399)) as [w|] eqn:Ew; [|done]; apply checked_inv in Ew as ->; cbn in H.
  all: repeat match type of H with
    (checked ?z ≫= _) = _ => let E := fresh "E" in
      destruct (checked z) eqn:E; [apply checked_inv in E as ->; cbn in H|done] end.
  all: apply checked_inv in H as ->.
  all: destruct (Z.leb_spec 0 y'); try done.
  all: destruct (Z.ltb_spec 2 m); lia.
Qed.

Lemma days_from_civil_small y m d :
  1 <= m <= 12 -> 1 <= d <= 31 -> -10 ^ 15 <= y <= 10 ^ 15 ->
  days_from_civil_checked y m d = Some (day_number y m d).
Proof.
  intros Hm Hd Hy. cut (exists v, days_from_civil_checked y m d = Some v).
  { intros [v Hv]. rewrite Hv. f_equal. eapply days_from_civil_Some in Hv; lia. }
  unfold days_from_civil_checked. set (y' := if m <=? 2 then y - 1 else y).
  assert (-10 ^ 15 - 1 <= y' <= 10 ^ 15) as Hy' by (unfold y'; destruct (m <=? 2); lia).
  replace (if m <=? 2 then checked (y - 1) else Some y) with (Some y').
  2: { unfold y'. destruct (m <=? 2); [|done]. by rewrite checked_in by (unfold i64_min, i64_max; lia). }
  cbn. replace (if 0 <=? y' then Some (y' ÷ 400) else checked (y' - 399) ≫= (fun y'0 => Some (y'0 ÷ 400)))
    with (Some (y' / 400)).
  2: { rewrite <- era_floor. destruct (0 <=? y'); [done|].
       by rewrite checked_in by (unfold i64_min, i64_max; lia). }
  cbn. set (era := y' / 400). assert (0 <= y' - era * 400 < 400) by lia.
  set (mp := if 2 <? m then m - 3 else m + 9).
  assert (0 <= mp <= 11) by (unfold mp; destruct (Z.ltb_spec 2 m); lia).
  rewrite (checked_in (era * 400)) by (unfold i64_min, i64_max; lia). cbn.
  rewrite (checked_in (y' - era * 400)) by (unfold i64_min, i64_max; lia). cbn.
  set (yoe := y' - era * 400) in *.
  rewrite (checked_in (yoe * 365)) by (unfold i64_min, i64_max; lia). cbn.
  rewrite (checked_in (yoe * 365 + yoe ÷ 4)) by (unfold i64_min, i64_max; lia). cbn.
  rewrite (checked_in (yoe * 365 + yoe ÷ 4 - yoe ÷ 100)) by (unfold i64_min, i64_max; lia). cbn.
  set (doe := _ + (_ + d - 1)). assert (0 <= doe < 200000) by (unfold doe; lia).
  rewrite (checked_in doe) by (unfold i64_min, i64_max; lia). cbn.
  assert (-3 * 10 ^ 12 <= era <= 3 * 10 ^ 12) by lia.
  rewrite (checked_in (era * 146097)) by (unfold i64_min, i64_max; lia). cbn.
  rewrite (checked_in (era * 146097 + doe)) by (unfold i64_min, i64_max; lia). cbn.
  eexists. apply checked_in. unfold i64_min, i64_max; lia.
Qed.

Definition astronomical (year : Z) (bc : bool) : Z := if bc then 1 - year else year.

Definition in_carrier (days : Z) : Prop := PG_DATE_MIN_DAYS <= days < PG_DATE_END_DAYS_EXCLUSIVE.

Lemma validate_date_carrier_Ok days v : validate_date_carrier days = Ok v <-> v = days /\ in_carrier days.
Proof.
  unfold validate_date_carrier, in_carrier.
  destruct (Z.leb_spec PG_DATE_MIN_DAYS days), (Z.ltb_spec days PG_DATE_END_DAYS_EXCLUSIVE); cbn;
    split; try done; try (intros [? ?]; lia); try (intros [= <-]; lia). by intros [-> _].
Qed.

Lemma between_true lo hi z : between lo hi z = true <-> lo <= z <= hi.
Proof. unfold between. by rewrite andb_true_iff, !Z.leb_le. Qed.

Lemma day_number_year y m d days :
  valid_date y m d -> day_number y m d - PG_EPOCH_UNIX_DAYS = days -> in_carrier days ->
  -10000 <= y <= 10 ^ 7.
Proof.
  unfold in_carrier, PG_DATE_MIN_DAYS, PG_DATE_END_DAYS_EXCLUSIVE, PG_EPOCH_UNIX_DAYS.
  intros [Hm Hd] Hn Hr. assert (d <= 31) by (unfold days_in_month in Hd; repeat case_match; lia).
  destruct (march_civil (march_month m)) as [_ _]; [unfold march_month; destruct (Z.ltb_spec 2 m); lia|].
  assert (0 <= month_start (march_month m) <= 400) as Hs.
  { unfold month_start, march_month. destruct (Z.ltb_spec 2 m); lia. }
  unfold day_number in Hn. set (s := month_start (march_month m)) in *.
  unfold year_start, march_year in Hn. destruct (m <=? 2); lia.
Qed.

Lemma validate_date_exact year month day bc days :
  validate_iso_date_fields (mkCivil year month day bc) = Ok days <->
  year <> 0 /\ valid_date (astronomical year bc) month day /\
  days = day_number (astronomical year bc) month day - PG_EPOCH_UNIX_DAYS /\ in_carrier days.
Proof.
  unfold validate_iso_date_fields. fold (astronomical year bc). set (y := astronomical year bc). split.
  - destruct (Z.eqb_spec year 0) as [|Hy0]; [done|]. destruct (between 1 12 month) eqn:Hm; [|done].
    destruct (between 1 31 day) eqn:Hd; [|done]. cbn. apply between_true in Hm, Hd.
    destruct (days_from_civil_checked y month day) as [n|] eqn:E; [cbn|done].
    apply days_from_civil_Some in E as ->; [|lia..].
    destruct (checked (day_number y month day - PG_EPOCH_UNIX_DAYS)) as [v|] eqn:E; [|done].
    apply checked_inv in E as ->. destruct (between i32_min i32_max _); [|done]. cbn.
    case_bool_decide as Hc; [|done]. cbn. intros [-> Hin]%validate_date_carrier_Ok.
    split_and!; try done.
    pose proof (civil_from_days_valid (day_number y month day - PG_EPOCH_UNIX_DAYS + PG_EPOCH_UNIX_DAYS)) as Hv.
    rewrite Hc in Hv. by destruct Hv.
  - intros (Hy0 & Hv & -> & Hin). pose proof (day_number_year _ _ _ _ Hv eq_refl Hin) as Hy.
    destruct Hv as [Hm Hd]. assert (day <= 31) by (unfold days_in_month in Hd; repeat case_match; lia).
    rewrite (proj2 (Z.eqb_neq year 0)), (proj2 (between_true 1 12 month)), (proj2 (between_true 1 31 day)) by lia.
    cbn. rewrite days_from_civil_small by lia. cbn.
    set (n := day_number y month day) in *.
    assert (in_carrier (n - PG_EPOCH_UNIX_DAYS)) as Hin' by done.
    unfold in_carrier, PG_DATE_MIN_DAYS, PG_DATE_END_DAYS_EXCLUSIVE in Hin'.
    rewrite checked_in by (unfold i64_min, i64_max; lia).
    rewrite (proj2 (between_true i32_min i32_max _)) by (unfold i32_min, i32_max; lia). cbn.
    rewrite bool_decide_eq_true_2.
    + by apply validate_date_carrier_Ok.
    + replace (n - PG_EPOCH_UNIX_DAYS + PG_EPOCH_UNIX_DAYS) with n by lia. by apply civil_of_day_number.
Qed.

(** The calendar is the proleptic Gregorian one.  [civil_from_days] maps day 0 to
    1970-01-01 and each next day to the next date under the Gregorian month lengths and leap
    years; and date fields are accepted exactly when they name a day of that calendar (year
    0 does not exist, BC years count back from 1 BC) within the carrier's range, with its day
    count since 2000-01-01. *)
Theorem calendar_exact :
  civil_from_days 0 = (1970, 1, 1) /\
  (forall z, civil_from_days (z + 1) = next_day (civil_from_days z)) /\
  (forall year month day bc days,
    validate_iso_date_fields (mkCivil year month day bc) = Ok days <->
    year <> 0 /\ valid_date (astronomical year bc) month day /\
    civil_from_days (days + PG_EPOCH_UNIX_DAYS) = (astronomical year bc, month, day) /\ in_carrier days).
Proof.
  split_and!; [done| |].
  - intros z. pose proof (civil_from_days_valid z) as Hz. destruct (civil_from_days z) as [[y m] d].
    destruct Hz as [Hv <-]. pose proof (day_number_next y m d Hv) as Hn.
    destruct (next_day (y, m, d)) as [[y' m'] d']. destruct Hn as [Hv' <-]. by apply civil_of_day_number.
  - intros year month day bc days. rewrite validate_date_exact.
    set (y := astronomical year bc).
    split; intros (H0 & Hv & Hd & Hin); (split_and!; [done|done| |done]).
    + subst days. rewrite Z.sub_add. by apply civil_of_day_number.
    + pose proof (civil_from_days_valid (days + PG_EPOCH_UNIX_DAYS)) as Hz. rewrite Hd in Hz.
      destruct Hz as [_ ->]. lia.
Qed.

(** ** Dates as text *)

Lemma pad_lacks c w n : 0 <= n -> is_digit c = false -> contains_char c (pad w n) = false.
Proof. intros. eapply contains_char_all; [done|by apply pad_digits]. Qed.

Lemma parse_date_text y m d bc :
  0 <= y <= i64_max -> 0 <= m <= i64_max -> 0 <= d <= i64_max ->
  parse_iso_date_fields (date_text y m d) bc = Ok (mkCivil y m d bc).
Proof.
  intros Hy Hm Hd. unfold parse_iso_date_fields, splitn3, date_text. cbn [String.append].
  rewrite !split_once_app by (apply pad_lacks; (done || lia)). cbn. by rewrite !ascii_digits_pad.
Qed.

Lemma last_two p s :
  (2 <= String.length s)%nat -> all_chars p s = true ->
  exists t a b, s = t +:+ String a (String b EmptyString) /\ p a = true /\ p b = true.
Proof.
  induction s as [|x s IH]; cbn; [lia|]. intros Hl [Hx Hs]%andb_true_iff.
  destruct s as [|y [|z s]]; [cbn in Hl; lia| |].
  - cbn in Hs. apply andb_true_iff in Hs as [Hy _]. by exists EmptyString, x, y.
  - destruct IH as (t & a & b & -> & Ha & Hb); [cbn; lia|done|]. by exists (String x t), a, b.
Qed.

Lemma time_char_solid a : is_time_char a = true -> solid a = true.
Proof.
  unfold is_time_char, is_char. rewrite !orb_true_iff.
  intros [[Hd|Hc]|Hc]; [by apply digit_solid|apply bool_decide_eq_true in Hc; by subst..].
Qed.

(** A text that begins with a digit and ends with two characters of a time. *)
Lemma split_bc_text w n body p tail bc :
  0 <= n -> pad w n +:+ body = p +:+ tail -> (2 <= String.length tail)%nat -> all_chars is_time_char tail = true ->
  split_bc_suffix ((pad w n +:+ body) +:+ bc_text bc) = Ok (pad w n +:+ body, bc).
Proof.
  intros Hn E Hl Ht. destruct (pad_cons w n Hn) as (c & r & Ec & Hc%digit_solid & _).
  destruct (last_two _ _ Hl Ht) as (t & a & b & Et & Ha & Hb).
  rewrite Ec in *. cbn [String.append] in *. subst tail.
  destruct bc; cbn [bc_text].
  - apply (split_bc_some c (r +:+ body) (p +:+ t +:+ String a EmptyString) b);
      [done|by apply time_char_solid|]. rewrite E, !string_app_assoc. done.
  - rewrite string_app_nil_r. apply (split_bc_none c (r +:+ body) (p +:+ t) a b); [done|done|by apply time_char_solid|].
    by rewrite E, string_app_assoc.
Qed.

Lemma split_bc_date y m d bc :
  0 <= y -> 0 <= d < 100 ->
  split_bc_suffix (date_text y m d +:+ bc_text bc) = Ok (date_text y m d, bc).
Proof.
  intros Hy Hd. unfold date_text.
  apply (split_bc_text 4 y _ (pad 4 y +:+ "-" +:+ pad 2 m +:+ "-") (pad 2 d)).
  - done.
  - by rewrite !string_app_assoc.
  - rewrite pad_length by (cbn; lia). lia.
  - apply digits_time, pad_digits. lia.
Qed.

Definition display_year (y : Z) : Z := if y <=? 0 then 1 - y else y.

Lemma astronomical_display y : astronomical (display_year y) (y <=? 0) = y.
Proof. unfold astronomical, display_year. destruct (y <=? 0); lia. Qed.

Lemma format_civil_text y m d : format_civil_date y m d = date_text (display_year y) m d +:+ bc_text (y <=? 0).
Proof.
  unfold format_civil_date, date_text, display_year. destruct (y <=? 0); cbn [bc_text];
    [by rewrite !string_app_assoc|by rewrite string_app_nil_r].
Qed.

(** The fields of a day in range. *)
Lemma civil_in_carrier days :
  in_carrier days ->
  let '(y, m, d) := civil_from_days (days + PG_EPOCH_UNIX_DAYS) in
  1 <= display_year y < 10 ^ 8 /\ 1 <= m < 100 /\ 1 <= d < 100 /\
  validate_iso_date_fields (mkCivil (display_year y) m d (y <=? 0)) = Ok days.
Proof.
  intros Hin. pose proof (civil_from_days_valid (days + PG_EPOCH_UNIX_DAYS)) as Hv.
  destruct (civil_from_days (days + PG_EPOCH_UNIX_DAYS)) as [[y m] d]. destruct Hv as [Hv Hn].
  assert (day_number y m d - PG_EPOCH_UNIX_DAYS = days) as Hd by lia.
  pose proof (day_number_year y m d days Hv Hd Hin) as Hy.
  assert (1 <= display_year y < 10 ^ 8) as Hdy by (unfold display_year; destruct (Z.leb_spec y 0); lia).
  destruct Hv as [Hm Hdd]. assert (d <= 31) by (unfold days_in_month in Hdd; repeat case_match; lia).
  split_and!; try lia. apply validate_date_exact. rewrite astronomical_display. split_and!; try done; lia.
Qed.

Lemma date_round_trip days : in_carrier days -> parse_date_detailed (format_date days) = Ok days.
Proof.
  intros Hin. unfold format_date. pose proof (civil_in_carrier days Hin) as H.
  destruct (civil_from_days (days + PG_EPOCH_UNIX_DAYS)) as [[y m] d]. destruct H as (Hy & Hm & Hd & Hv).
  rewrite format_civil_text. unfold parse_date_detailed.
  rewrite check_date_text by (unfold PG_MAX_DATE_WORKSPACE_BYTES, PG_MAX_DATE_LEN; lia).
  rewrite split_bc_date, parse_date_text by (unfold i64_max; lia). done.
Qed.

(** ** Times as text *)

Lemma fraction_text_micros frac :
  0 < frac < 10 ^ 6 -> fraction_micros (Some (trim_end_zeros (pad 6 frac))) = Ok frac.
Proof.
  intros Hf. destruct (trim_end_zeros_split (pad 6 frac)) as [n Hn].
  set (F := trim_end_zeros (pad 6 frac)) in *.
  assert (digits_value 0 (pad 6 frac) = frac) as Hv.
  { eapply digits_value_parse, parse_digits_pad. unfold i64_max. lia. }
  pose proof (f_equal String.length Hn) as Hl.
  rewrite length_append, length_repeat_char, (pad_length 6 frac) in Hl by (cbn; lia).
  pose proof (pad_digits 6 frac ltac:(lia)) as Hd.
  rewrite Hn, digits_value_app, digits_value_zeros in Hv. rewrite Hn, all_chars_app in Hd.
  apply andb_true_iff in Hd as [Hd _]. apply fraction_micros_exact; [done|done| |].
  - intros E. rewrite E in Hv. cbn in Hv. lia.
  - rewrite <- Hv. unfold str_len. replace (10 ^ 6) with (10 ^ Z.of_nat n * 10 ^ Z.of_nat (String.length F)).
    + lia.
    + rewrite <- Z.pow_add_r by lia. f_equal. lia.
Qed.

Lemma parse_time_text h mi s frac :
  0 <= h < 24 -> 0 <= mi < 60 -> 0 <= s < 60 -> 0 <= frac < 10 ^ 6 ->
  parse_time_of_day_detailed (time_text h mi s frac) =
    Ok (h * 3600000000 + mi * 60000000 + s * MICROS_PER_SEC + frac).
Proof.
  intros Hh Hmi Hs Hf. unfold parse_time_of_day_detailed, time_text.
  set (hms := pad 2 h +:+ ":" +:+ pad 2 mi +:+ ":" +:+ pad 2 s).
  assert (pad 2 h +:+ ":" +:+ pad 2 mi +:+ ":" +:+ pad 2 s +:+ fraction_text frac = hms +:+ fraction_text frac) as ->
    by (unfold hms; by rewrite !string_app_assoc).
  assert (contains_char "." hms = false) as Hdot.
  { unfold hms. rewrite !contains_char_app, !pad_lacks by (done || lia). done. }
  assert (split_char ":" hms = [pad 2 h; pad 2 mi; pad 2 s]) as Hsplit.
  { unfold hms. cbn [String.append]. rewrite !split_char_app by (apply pad_lacks; (done || lia)).
    by rewrite split_char_none by (apply pad_lacks; (done || lia)). }
  assert (fraction_micros (if negb (frac =? 0) then Some (trim_end_zeros (pad 6 frac)) else None) = Ok frac) as Hfm.
  { destruct (Z.eqb_spec frac 0) as [->|]; [done|]. apply fraction_text_micros. lia. }
  assert (match split_once "." (hms +:+ fraction_text frac) with
          | Some (hms, digits) => (hms, Some digits) | None => (hms +:+ fraction_text frac, None) end =
          (hms, if negb (frac =? 0) then Some (trim_end_zeros (pad 6 frac)) else None)) as ->.
  { unfold fraction_text. destruct (negb (frac =? 0)).
    - cbn [String.append]. by rewrite split_once_app.
    - by rewrite string_app_nil_r, split_once_none. }
  rewrite Hsplit. cbn [lookup list_lookup]. rewrite !ascii_digits_pad by (unfold i64_max; lia).
  cbn [length Nat.ltb Nat.leb]. rewrite Hfm.
  rewrite !(proj2 (Z.ltb_ge _ _)) by lia. cbn [orb].
  unfold MICROS_PER_DAY, MICROS_PER_SEC. by rewrite (proj2 (Z.leb_le _ _)) by lia.
Qed.

Lemma find_app p s c t :
  all_chars (fun a => negb (p a)) s = true -> p c = true -> find p (s +:+ String c t) = Some (s, c, t).
Proof.
  intros Hs Hc. induction s as [|a s IH]; cbn in *; [by rewrite Hc|].
  apply andb_true_iff in Hs as [Ha%negb_true_iff Hs]. by rewrite Ha, IH.
Qed.

Lemma take_while_all p s : all_chars p s = true -> take_while p s = s /\ skip_while p s = EmptyString.
Proof.
  induction s as [|a s IH]; cbn; [done|]. intros [-> Hs]%andb_true_iff. by destruct (IH Hs) as [-> ->].
Qed.

Lemma time_text_chars h mi s frac :
  0 <= h -> 0 <= mi -> 0 <= s -> 0 <= frac ->
  exists c t, time_text h mi s frac = String c t /\ is_digit c = true /\ all_chars is_time_char t = true.
Proof.
  intros Hh Hmi Hs Hf. destruct (pad_cons 2 h Hh) as (c & r & E & Hc & Hr).
  exists c, (r +:+ ":" +:+ pad 2 mi +:+ ":" +:+ pad 2 s +:+ fraction_text frac).
  unfold time_text. rewrite E. split_and!; [done|done|].
  rewrite !all_chars_app, (digits_time r), (digits_time (pad 2 mi)), (digits_time (pad 2 s)), fraction_chars
    by auto using pad_digits. done.
Qed.

Lemma trim_time h mi s frac :
  0 <= h < 100 -> 0 <= mi -> 0 <= s -> 0 <= frac -> trim (time_text h mi s frac) = time_text h mi s frac.
Proof.
  intros Hh Hmi Hs Hf. destruct (time_text_chars h mi s frac) as (c & t & E & Hc & Ht); [lia..|].
  assert (2 <= String.length (time_text h mi s frac))%nat as Hl.
  { unfold time_text. rewrite length_append, (pad_length 2 h) by (cbn; lia). lia. }
  rewrite E in *. destruct (last_two is_time_char (String c t)) as (u & a & b & Eu & _ & Hb); [done| |].
  { cbn. unfold is_time_char at 1. by rewrite Hc, Ht. }
  apply (trim_solid c t b (u +:+ String a EmptyString)); [by apply digit_solid|by apply time_char_solid|].
  by rewrite Eu, string_app_assoc.
Qed.

Lemma split_iso_text y m d h mi s frac :
  0 <= y -> 0 <= m -> 0 <= d < 100 -> 0 <= h < 100 -> 0 <= mi -> 0 <= s -> 0 <= frac ->
  split_iso_timestamp_parts (date_text y m d +:+ " " +:+ time_text h mi s frac) =
    (date_text y m d, TimeText (time_text h mi s frac)).
Proof.
  intros. unfold split_iso_timestamp_parts. cbn [String.append].
  rewrite find_app; [|unfold date_text|done].
  - rewrite trim_time by lia. change (is_char "T" " ") with false. cbn [andb].
    destruct (time_text_chars h mi s frac) as (c & t & -> & _); [lia..|]. rewrite bool_decide_eq_false_2 by done.
    f_equal. destruct (last_two is_digit (pad 2 d)) as (t' & a & b & E & _ & Hb).
    + rewrite pad_length by (cbn; lia). lia.
    + apply pad_digits. lia.
    + replace (date_text y m d) with
        ((pad 4 y +:+ "-" +:+ pad 2 m +:+ "-" +:+ t' +:+ String a EmptyString) +:+ String b EmptyString).
      * by apply trim_end_solid, digit_solid.
      * unfold date_text. rewrite E, !string_app_assoc. done.
  - assert (forall w n, 0 <= n -> all_chars (fun a => negb (is_ascii_whitespace a || is_char "T" a)) (pad w n) = true) as Hp.
    { intros w n Hn. eapply all_chars_weaken; [|by apply pad_digits]. intros a Ha.
      by destruct (digit_plain a Ha) as [-> ->]. }
    rewrite !all_chars_app, !Hp by lia. done.
Qed.

Lemma split_bc_timestamp y m d h mi s frac bc :
  0 <= y -> 0 <= h < 100 -> 0 <= mi -> 0 <= s -> 0 <= frac ->
  split_bc_suffix (date_text y m d +:+ " " +:+ time_text h mi s frac +:+ bc_text bc) =
    Ok (date_text y m d +:+ " " +:+ time_text h mi s frac, bc).
Proof.
  intros. set (T := time_text h mi s frac). set (M := "-" +:+ pad 2 m +:+ "-" +:+ pad 2 d +:+ " ").
  assert (date_text y m d +:+ " " +:+ T = pad 4 y +:+ M +:+ T) as E.
  { unfold date_text, M. by rewrite !string_app_assoc. }
  assert (date_text y m d +:+ " " +:+ T +:+ bc_text bc = (pad 4 y +:+ M +:+ T) +:+ bc_text bc) as ->.
  { rewrite <- E, !string_app_assoc. done. }
  rewrite E. apply (split_bc_text 4 y _ (pad 4 y +:+ M) T); [done|by rewrite string_app_assoc| |].
  - unfold T, time_text. rewrite length_append, (pad_length 2 h) by (cbn; lia). lia.
  - destruct (time_text_chars h mi s frac) as (c & t & E' & Hc & Ht); [lia..|]. unfold T. rewrite E'. cbn.
    unfold is_time_char at 1. by rewrite Hc, Ht.
Qed.

Definition timestamp_in_carrier (micros : Z) : Prop :=
  PG_TIMESTAMP_MIN_MICROS <= micros < PG_TIMESTAMP_END_MICROS_EXCLUSIVE.

Lemma format_timestamp_text micros :
  let tod := micros mod MICROS_PER_DAY in
  let '(y, mo, d) := civil_from_days (micros / MICROS_PER_DAY + PG_EPOCH_UNIX_DAYS) in
  format_timestamp micros =
    date_text (display_year y) mo d +:+ " " +:+
    time_text (tod / 3600000000) (tod / 60000000 mod 60) (tod / 1000000 mod 60) (tod mod 1000000) +:+
    bc_text (y <=? 0).
Proof.
  cbv zeta. unfold format_timestamp.
  destruct (civil_from_days _) as [[y mo] d]. set (tod := micros mod MICROS_PER_DAY).
  assert (0 <= tod < MICROS_PER_DAY) as Ht by (apply Z.mod_pos_bound; done).
  unfold MICROS_PER_DAY, MICROS_PER_SEC in *.
  replace ((tod ÷ 1000000) ÷ 3600) with (tod / 3600000000) by lia.
  replace (Z.rem (tod ÷ 1000000) 3600 ÷ 60) with (tod / 60000000 mod 60) by lia.
  replace (Z.rem (tod ÷ 1000000) 60) with (tod / 1000000 mod 60) by lia.
  replace (Z.rem tod 1000000) with (tod mod 1000000) by lia.
  unfold date_text, time_text, display_year, fraction_text, bc_text. destruct (y <=? 0); by rewrite !string_app_assoc.
Qed.

Lemma timestamp_round_trip_at micros :
  timestamp_in_carrier micros -> parse_timestamp_detailed (format_timestamp micros) = Ok micros.
Proof.
  intros Hin. pose proof (format_timestamp_text micros) as Hf. cbv zeta in Hf.
  set (tod := micros mod MICROS_PER_DAY) in *. set (days := micros / MICROS_PER_DAY) in *.
  assert (0 <= tod < 86400000000 /\ micros = days * 86400000000 + tod) as [Ht Hm]
    by (unfold tod, days, MICROS_PER_DAY; lia).
  unfold timestamp_in_carrier, PG_TIMESTAMP_MIN_MICROS, PG_TIMESTAMP_END_MICROS_EXCLUSIVE in Hin.
  assert (in_carrier days) as Hc by (unfold in_carrier, PG_DATE_MIN_DAYS, PG_DATE_END_DAYS_EXCLUSIVE; lia).
  pose proof (civil_in_carrier days Hc) as H.
  destruct (civil_from_days (days + PG_EPOCH_UNIX_DAYS)) as [[y mo] d]. destruct H as (Hy & Hmo & Hd & Hv).
  rewrite Hf. unfold parse_timestamp_detailed.
  assert (0 <= tod / 3600000000 < 24) by lia. assert (0 <= tod / 60000000 mod 60 < 60) by lia.
  assert (0 <= tod / 1000000 mod 60 < 60) by lia. assert (0 <= tod mod 1000000 < 10 ^ 6) by lia.
  assert (tod / 3600000000 * 3600000000 + tod / 60000000 mod 60 * 60000000 +
    tod / 1000000 mod 60 * MICROS_PER_SEC + tod mod 1000000 = tod) as Htod by (unfold MICROS_PER_SEC; lia).
  rewrite check_timestamp_text by (unfold PG_MAX_TIMESTAMP_WORKSPACE_BYTES, PG_MAX_DATE_LEN, PG_MAX_DATETIME_FIELDS; lia).
  rewrite split_bc_timestamp, split_iso_text, parse_date_text by (unfold i64_max; lia).
  destruct (time_text_chars (tod / 3600000000) (tod / 60000000 mod 60) (tod / 1000000 mod 60) (tod mod 1000000))
    as (c & t & E & Hcd & Hct); [lia..|].
  pose proof (parse_time_text _ _ _ _ H H0 H1 H2) as Hp. rewrite Htod in Hp. rewrite E in *.
  unfold split_datetime_time_token. rewrite Hcd. destruct (take_while_all _ _ Hct) as [-> ->]. rewrite Hp.
  change (trim EmptyString) with EmptyString. rewrite bool_decide_eq_true_2 by done. cbn [negb].
  rewrite Hv. unfold MICROS_PER_DAY. rewrite checked_in by (unfold i64_min, i64_max; lia). cbn.
  rewrite checked_in by (unfold i64_min, i64_max; lia). rewrite <- Hm.
  unfold validate_timestamp_carrier, PG_TIMESTAMP_MIN_MICROS, PG_TIMESTAMP_END_MICROS_EXCLUSIVE.
  by rewrite (proj2 (Z.leb_le _ _)), (proj2 (Z.ltb_lt _ _)) by lia.
Qed.

(** [C31] Dates and timestamps survive their text: every value of the date carrier and every
    value of the timestamp carrier, BC years and fractions included, is written in a form that
    passes the tokenizer's workspace check and parses back to exactly that value, the
    fraction of a second surviving the conversion through a double. *)
Theorem datetime_text_round_trip v :
  (in_carrier v -> parse_date_detailed (format_date v) = Ok v) /\
  (timestamp_in_carrier v -> parse_timestamp_detailed (format_timestamp v) = Ok v).
Proof. split; [apply date_round_trip|apply timestamp_round_trip_at]. Qed.

Lemma datetime_text_round_trip_witness :
  parse_date_detailed (format_date (-2451545)) = Ok (-2451545) /\
  parse_timestamp_detailed (format_timestamp (-211813487999999999)) = Ok (-211813487999999999).
Proof.
  split.
  - refine (proj1 (datetime_text_round_trip (-2451545)) _). split; [discriminate|reflexivity].
  - refine (proj2 (datetime_text_round_trip (-211813487999999999)) _). split; [discriminate|reflexivity].
Defined.

End DatetimeProps.
