(* ===== verification/Uuid.v ===== *)
(** * UUIDs (crates/sql/src/uuid.rs) *)

From stdpp Require Import base strings list.
From Stdlib Require Import Strings.Ascii Strings.Byte.
From S2P Require Import Prelude Types Bytes Text.

Module Uuid.
Import Text.

(** [char::from(byte).to_digit(16)] *)
Definition hex_digit (b : byte) : option Z :=
  let c := byte_val b in
  if between 48 57 c then Some (c - 48)
  else if between 97 102 c then Some (c - 87)
  else if between 65 70 c then Some (c - 55)
  else None.

Definition is_hyphen (b : option byte) : bool :=
  match b with Some b => byte_val b =? 45 | None => false end.

(** [(hi << 4) | lo] *)
Fixpoint decode_pairs (hex : list byte) : option (list byte) :=
  match hex with
  | h :: l :: hex =>
      hi ← hex_digit h;
      lo ← hex_digit l;
      rest ← decode_pairs hex;
      Some (to_le_bytes 1 (Z.lor (Z.shiftl hi 4) lo) ++ rest)
  | _ => Some []
  end.

Definition groups : list (nat * nat) := [(0, 8); (9, 13); (14, 18); (19, 23); (24, 36)]%nat.

Definition parse_uuid (text : string) : option (list byte) :=
  let trimmed := trim text in
  let body := default trimmed (inner ← strip_prefix "{" trimmed; strip_suffix_char "}" inner) in
  let raw := as_bytes body in
  hex ←
    (if (length raw =? 32)%nat then Some raw
     else if (length raw =? 36)%nat then
       if negb (is_hyphen (raw !! 8%nat)) || negb (is_hyphen (raw !! 13%nat)) ||
          negb (is_hyphen (raw !! 18%nat)) || negb (is_hyphen (raw !! 23%nat)) then None
       else Some (groups ≫= fun g => take (g.2 - g.1) (drop g.1 raw))
     else None);
  decode_pairs hex.

(** The loop of [format_uuid] from byte [i] on. *)
Fixpoint format_from (i : nat) (bytes : list byte) : string :=
  match bytes with
  | [] => EmptyString
  | b :: bytes =>
      (if (i =? 4)%nat || (i =? 6)%nat || (i =? 8)%nat || (i =? 10)%nat then "-" else EmptyString) +:+
      hex_byte b +:+ format_from (S i) bytes
  end.

Definition format_uuid (bytes : list byte) : string := format_from 0 bytes.

(** ** Round trip *)

#[local] Arguments String.append !_ _ : simpl nomatch.

(** The two characters of a byte. *)
Definition hi_char (b : byte) : ascii := hex_char (byte_val b / 16).
Definition lo_char (b : byte) : ascii := hex_char (byte_val b mod 16).

Lemma hex_byte_chars b :
  hex_byte b = String (hi_char b) (String (lo_char b) EmptyString) /\
  hex_digit (byte_of_ascii (hi_char b)) = Some (byte_val b / 16) /\
  hex_digit (byte_of_ascii (lo_char b)) = Some (byte_val b mod 16) /\
  solid (hi_char b) = true /\ solid (lo_char b) = true /\ hi_char b <> "{"%char.
Proof. split; [done|]. by destruct b. Qed.

Lemma decode_hex_byte b rest :
  decode_pairs (byte_of_ascii (hi_char b) :: byte_of_ascii (lo_char b) :: rest) = (b ::.) <$> decode_pairs rest.
Proof.
  destruct (hex_byte_chars b) as (_ & Hh & Hl & _). cbn [decode_pairs]. rewrite Hh, Hl. cbn.
  assert (to_le_bytes 1 (Z.lor (Z.shiftl (byte_val b / 16) 4) (byte_val b mod 16)) = [b]) as -> by (by destruct b).
  by destruct (decode_pairs rest).
Qed.

Lemma last_char_split s b : last_char s = Some b -> exists t, s = t +:+ String b EmptyString.
Proof.
  induction s as [|a s IH]; [done|]. destruct s as [|c s].
  - intros [= <-]. by exists EmptyString.
  - intros H. destruct (IH H) as [t ->]. by exists (String a t).
Qed.

Lemma parse_uuid_plain a s b :
  solid a = true -> a <> "{"%char -> last_char (String a s) = Some b -> solid b = true ->
  parse_uuid (String a s) =
    let raw := as_bytes (String a s) in
    hex ←
      (if (length raw =? 32)%nat then Some raw
       else if (length raw =? 36)%nat then
         if negb (is_hyphen (raw !! 8%nat)) || negb (is_hyphen (raw !! 13%nat)) ||
            negb (is_hyphen (raw !! 18%nat)) || negb (is_hyphen (raw !! 23%nat)) then None
         else Some (groups ≫= fun g => take (g.2 - g.1) (drop g.1 raw))
       else None);
    decode_pairs hex.
Proof.
  intros Ha Hb Hl Hs. destruct (last_char_split _ _ Hl) as [t Ht]. unfold parse_uuid.
  rewrite (trim_solid a s b t Ha Hs Ht).
  assert (strip_prefix "{" (String a s) = None) as ->; [|done].
  unfold strip_prefix. by rewrite bool_decide_eq_false_2 by congruence.
Qed.

(** Every UUID is written canonically and read back. *)
Theorem uuid_round_trip bytes : length bytes = 16%nat -> parse_uuid (format_uuid bytes) = Some bytes.
Proof.
  intros Hl. do 16 (destruct bytes as [|?b bytes]; [discriminate Hl|]).
  destruct bytes as [|]; [|discriminate Hl]. clear Hl.
  change (format_uuid [b; b0; b1; b2; b3; b4; b5; b6; b7; b8; b9; b10; b11; b12; b13; b14]) with
    (String (hi_char b) (str_drop 1 (format_uuid [b; b0; b1; b2; b3; b4; b5; b6; b7; b8; b9; b10; b11; b12; b13; b14]))).
  destruct (hex_byte_chars b) as (_ & _ & _ & Hb1 & _ & Hb2).
  destruct (hex_byte_chars b14) as (_ & _ & _ & _ & Hb3 & _).
  rewrite (parse_uuid_plain _ _ (lo_char b14)); [|done|done|done|done].
  cbv zeta. set (raw := as_bytes _).
  assert (length raw = 36%nat) as -> by done. cbn [Nat.eqb].
  change (is_hyphen (raw !! 8%nat)) with true. change (is_hyphen (raw !! 13%nat)) with true.
  change (is_hyphen (raw !! 18%nat)) with true. change (is_hyphen (raw !! 23%nat)) with true.
  cbn [negb orb mbind option_bind].
  change (groups ≫= fun g => take (g.2 - g.1) (drop g.1 raw)) with
    ([b; b0; b1; b2; b3; b4; b5; b6; b7; b8; b9; b10; b11; b12; b13; b14] ≫=
      fun b => [byte_of_ascii (hi_char b); byte_of_ascii (lo_char b)]).
  cbn [mbind list_bind app]. by rewrite !decode_hex_byte.
Qed.

Lemma decode_pairs_length n hex bytes :
  length hex = (2 * n)%nat -> decode_pairs hex = Some bytes -> length bytes = n.
Proof.
  revert hex bytes. induction n as [|n IH]; intros hex bytes Hl.
  { destruct hex; [|discriminate Hl]. by intros [= <-]. }
  destruct hex as [|h [|l hex]]; [cbn in Hl; lia..|]. cbn in Hl |- *.
  destruct (hex_digit h); [cbn|done]. destruct (hex_digit l); [cbn|done].
  destruct (decode_pairs hex) as [rest|] eqn:E; [|done]. intros [= <-]. cbn.
  by rewrite (IH hex rest) by (done || lia).
Qed.

(** Whatever is accepted is the 16 bytes that its canonical text denotes. *)
Theorem uuid_canonical text bytes :
  parse_uuid text = Some bytes -> length bytes = 16%nat /\ parse_uuid (format_uuid bytes) = Some bytes.
Proof.
  intros Hp. assert (length bytes = 16%nat) as Hl; [|split; [done|by apply uuid_round_trip]].
  unfold parse_uuid in Hp. set (raw := as_bytes _) in Hp. clearbody raw.
  destruct (Nat.eqb_spec (length raw) 32) as [H32|].
  { by apply (decode_pairs_length 16) in Hp. }
  destruct (Nat.eqb_spec (length raw) 36) as [H36|]; [|done].
  destruct (_ || _); [done|]. cbn [mbind option_bind] in Hp. apply (decode_pairs_length 16) in Hp; [done|].
  cbn [groups mbind list_bind]. rewrite !length_app, !length_take, !length_drop, H36. done.
Qed.

End Uuid.
