(* ===== verification/Rpc.v ===== *)
(** * Replication RPC frames (crates/replication/src/rpc.rs)

    The wire frames of append-entries requests and responses: big-endian integers,
    length-prefixed byte strings, a cursor that checks every read, and no trailing bytes.
    The message types are in [Raft].  [decode_frame] of a request is [None] when
    [Vec::with_capacity] panics on a capacity overflow. *)

From stdpp Require Import base strings list pretty.
From S2P Require Import Prelude Types Bytes Raft.

Module Rpc.
Import Raft.

(** ** Encoding *)

Definition write_u64 (value : Z) : list byte := to_be_bytes 8 value.

Definition write_bytes (bytes : list byte) : list byte := write_u64 (vec_len bytes) ++ bytes.

Definition write_bool (b : bool) : byte := if b then x01 else x00.

Definition encode_entry (entry : LogEntry) : list byte :=
  write_u64 (entry_term entry) ++ write_u64 (entry_index entry) ++
  write_bytes (entry_payload entry).

Definition encode_request (q : AppendEntriesRequest) : list byte :=
  write_u64 (leader_term q) ++ write_u64 (prev_log_index q) ++ write_u64 (prev_log_term q) ++
  write_u64 (leader_commit q) ++ write_u64 (vec_len (req_entries q)) ++
  List.flat_map encode_entry (req_entries q).

Definition encode_response (p : AppendEntriesResponse) : list byte :=
  [write_bool (accepted p)] ++ write_u64 (follower_term p) ++
  write_u64 (follower_commit_index p) ++ write_u64 (follower_applied_index p) ++
  match resp_error p with
  | Some error => x01 :: write_bytes (as_bytes error)
  | None => [x00]
  end.

(** ** The cursor *)

Record FrameCursor := mkCursor { frame : list byte; offset : Z }.

Definition frame_error (message : string) : EngineError :=
  ProposalFailed ("append entries frame decode failed: " +:+ message).

Definition read_bool (c : FrameCursor) (field : string)
    : result (bool * FrameCursor) EngineError :=
  match frame c !! Z.to_nat (offset c) with
  | None => Err (frame_error ("missing " +:+ field))
  | Some byte =>
      let c := mkCursor (frame c) (u64_add (offset c) 1) in
      if byte_val byte =? 0 then Ok (false, c)
      else if byte_val byte =? 1 then Ok (true, c)
      else Err (frame_error ("invalid " +:+ field +:+ " bool byte " +:+ pretty (byte_val byte)))
  end.

Definition read_exact (c : FrameCursor) (field : string) (len : Z)
    : result (list byte * FrameCursor) EngineError :=
  match checked_add64 (offset c) len with
  | None => Err (frame_error (field +:+ " length overflows frame cursor"))
  | Some end_ =>
      if vec_len (frame c) <? end_ then
        Err (frame_error (field +:+ " needs " +:+ pretty len +:+ " bytes but frame has " +:+
               pretty (saturating_sub (vec_len (frame c)) (offset c)) +:+ " remaining"))
      else
        Ok (take (Z.to_nat len) (drop (Z.to_nat (offset c)) (frame c)),
            mkCursor (frame c) end_)
  end.

Definition read_u64 (c : FrameCursor) (field : string) : result (Z * FrameCursor) EngineError :=
  let? (bytes, c) := read_exact c field 8 in Ok (from_be_bytes bytes, c).

(** [usize::try_from] does not fail on a 64-bit target. *)
Definition read_len (c : FrameCursor) (field : string) : result (Z * FrameCursor) EngineError :=
  read_u64 c field.

Definition read_bytes (c : FrameCursor) (field : string)
    : result (list byte * FrameCursor) EngineError :=
  let? (len, c) := read_len c field in read_exact c field len.

Definition finish (c : FrameCursor) : result unit EngineError :=
  if offset c =? vec_len (frame c) then Ok tt
  else Err (frame_error ("frame has " +:+ pretty (vec_len (frame c) - offset c) +:+
              " trailing bytes")).

(** ** Decoding *)

Definition read_entry (c : FrameCursor) : result (LogEntry * FrameCursor) EngineError :=
  let? (term, c) := read_u64 c "entry.term" in
  let? (index, c) := read_u64 c "entry.index" in
  let? (payload, c) := read_bytes c "entry.payload" in
  Ok (mkEntry term index payload, c).

(** [for _ in 0..entry_count].  An entry takes at least 24 bytes, so a frame of [n] bytes
    ends the loop within [n] turns, whatever the count claims; [read_entries_fuel] shows
    that more fuel than that never matters. *)
Fixpoint read_entries (fuel : nat) (count : Z) (c : FrameCursor)
    : result (list LogEntry * FrameCursor) EngineError :=
  if count <=? 0 then Ok ([], c)
  else
    match fuel with
    | O => Err (frame_error EmptyString)
    | S fuel =>
        let? (entry, c) := read_entry c in
        let? (rest, c) := read_entries fuel (count - 1) c in
        Ok (entry :: rest, c)
    end.

(** [size_of::<LogEntry>()]: two [u64] and a fat pointer. *)
Definition log_entry_size : Z := 32.

(** [Vec::with_capacity(n)] panics when [n] elements exceed [isize::MAX] bytes. *)
Definition capacity_overflows (n : Z) : bool := isize_max <? n * log_entry_size.

Definition decode_request (f : list byte) : option (result AppendEntriesRequest EngineError) :=
  let c := mkCursor f 0 in
  let header :=
    let? (leader_term, c) := read_u64 c "leader_term" in
    let? (prev_log_index, c) := read_u64 c "prev_log_index" in
    let? (prev_log_term, c) := read_u64 c "prev_log_term" in
    let? (leader_commit, c) := read_u64 c "leader_commit" in
    let? (entry_count, c) := read_len c "entry_count" in
    Ok (leader_term, prev_log_index, prev_log_term, leader_commit, entry_count, c) in
  match header with
  | Err e => Some (Err e)
  | Ok (leader_term, prev_log_index, prev_log_term, leader_commit, entry_count, c) =>
      if capacity_overflows entry_count then None
      else
        Some (let? (entries, c) := read_entries (S (length f)) entry_count c in
              let? _ := finish c in
              Ok (mkAppendRequest leader_term prev_log_index prev_log_term entries
                    leader_commit))
  end.

Definition decode_response (f : list byte) : result AppendEntriesResponse EngineError :=
  let c := mkCursor f 0 in
  let? (accepted, c) := read_bool c "accepted" in
  let? (follower_term, c) := read_u64 c "follower_term" in
  let? (follower_commit_index, c) := read_u64 c "follower_commit_index" in
  let? (follower_applied_index, c) := read_u64 c "follower_applied_index" in
  let? (has_error, c) := read_bool c "has_error" in
  let? (error, c) :=
    if has_error then
      let? (raw, c) := read_bytes c "error" in
      match from_utf8 raw with
      | Ok s => Ok (Some s, c)
      | Err err =>
          Err (ProposalFailed ("invalid response error utf8: " +:+ Utf8Error_to_string err))
      end
    else Ok (None, c) in
  let? _ := finish c in
  Ok (mkAppendResponse accepted follower_term follower_commit_index follower_applied_index
        error).

(** ** Reading what was written *)

(** The cursor stands before [l]. *)
Definition at_ (c : FrameCursor) (l : list byte) : Prop :=
  is_u64 (vec_len (frame c)) /\ 0 <= offset c /\
  exists done, frame c = done ++ l /\ offset c = vec_len done.

Definition advance (c : FrameCursor) (n : Z) : FrameCursor := mkCursor (frame c) (offset c + n).

Lemma at_start l : is_u64 (vec_len l) -> at_ (mkCursor l 0) l.
Proof. intros Hl. split; [done|]. split; [done|]. by exists []. Qed.

Lemma at_advance c l1 l2 : at_ c (l1 ++ l2) -> at_ (advance c (vec_len l1)) l2.
Proof.
  intros (Hu & H0 & d & Hf & Ho). split; [done|]. unfold vec_len in *. split; [cbn; lia|].
  exists (d ++ l1). cbn. rewrite <- app_assoc, length_app. split; [done|lia].
Qed.

Lemma read_exact_at c field l1 l2 n :
  at_ c (l1 ++ l2) -> vec_len l1 = n -> read_exact c field n = Ok (l1, advance c n).
Proof.
  intros (Hu & H0 & d & Hf & Ho) Hn. unfold read_exact.
  assert (vec_len (frame c) = offset c + n + vec_len l2) as Hlen.
  { rewrite Hf. unfold vec_len in *. rewrite !length_app. lia. }
  assert (0 <= vec_len l2) by (unfold vec_len; lia).
  assert (checked_add64 (offset c) n = Some (offset c + n)) as ->
    by (apply checked_add64_Some; u64_unfold; lia).
  rewrite (proj2 (Z.ltb_ge _ _)) by lia. unfold advance. do 2 f_equal.
  rewrite Hf, Ho. unfold vec_len in *. rewrite Nat2Z.id, drop_app_length, <- Hn, Nat2Z.id.
  by rewrite take_app_length.
Qed.

Lemma read_u64_at c field z l :
  is_u64 z -> at_ c (write_u64 z ++ l) -> read_u64 c field = Ok (z, advance c 8).
Proof.
  intros Hz Hc. unfold read_u64. rewrite (read_exact_at c field (write_u64 z) l) by
    (done || unfold vec_len, write_u64; by rewrite length_to_be_bytes).
  unfold write_u64. rewrite from_to_be_bytes; [done|]. exact Hz.
Qed.

Lemma at_after_u64 c z l : at_ c (write_u64 z ++ l) -> at_ (advance c 8) l.
Proof.
  intros Hc. apply at_advance in Hc. unfold vec_len, write_u64 in Hc.
  by rewrite length_to_be_bytes in Hc.
Qed.

Lemma read_bytes_at c field b l :
  at_ c (write_bytes b ++ l) ->
  read_bytes c field = Ok (b, advance (advance c 8) (vec_len b)) /\
  at_ (advance (advance c 8) (vec_len b)) l.
Proof.
  unfold write_bytes. rewrite <- app_assoc. intros Hc.
  assert (is_u64 (vec_len b)) as Hb.
  { destruct Hc as (Hu & _ & d & Hf & _). rewrite Hf in Hu.
    unfold vec_len, is_u64 in *. rewrite !length_app in Hu. lia. }
  pose proof (at_after_u64 _ _ _ Hc) as Hc8. unfold read_bytes, read_len.
  rewrite (read_u64_at _ _ _ _ Hb Hc). split; [by apply (read_exact_at _ _ _ l)|].
  by apply at_advance.
Qed.

Lemma byte_val_write_bool b : byte_val (write_bool b) = Z.b2z b.
Proof. by destruct b. Qed.

Lemma read_bool_at c field b l :
  at_ c (write_bool b :: l) ->
  read_bool c field = Ok (b, advance c 1) /\ at_ (advance c 1) l.
Proof.
  intros Hc. pose proof (at_advance c [write_bool b] l Hc) as Hc'. split; [|done].
  destruct Hc as (Hu & H0 & d & Hf & Ho). unfold read_bool.
  assert (frame c !! Z.to_nat (offset c) = Some (write_bool b)) as ->.
  { rewrite Hf, Ho. unfold vec_len. rewrite Nat2Z.id. by rewrite lookup_app_r, Nat.sub_diag by done. }
  rewrite byte_val_write_bool. rewrite u64_add_small.
  - by destruct b.
  - rewrite Hf in Hu. unfold vec_len, is_u64 in *. rewrite length_app in Hu. cbn in Hu. lia.
Qed.

Lemma finish_at c : at_ c [] -> finish c = Ok tt.
Proof.
  intros (_ & _ & d & Hf & Ho). unfold finish. rewrite app_nil_r in Hf. rewrite Hf, Ho.
  by rewrite Z.eqb_refl.
Qed.

(** ** What a successful read consumed *)

Lemma read_exact_inv c field n b c' l :
  at_ c l -> 0 <= n -> read_exact c field n = Ok (b, c') ->
  exists l2, l = b ++ l2 /\ vec_len b = n /\ at_ c' l2.
Proof.
  intros Hc Hn H. assert (c' = advance c n /\ vec_len b = n /\ exists l2, l = b ++ l2) as (-> & Hb & l2 & ->).
  { destruct Hc as (Hu & H0 & d & Hf & Ho). revert H. unfold read_exact.
    destruct (checked_add64 (offset c) n) as [e|] eqn:E; [|done].
    apply checked_add64_Some in E as [-> _].
    destruct (Z.ltb_spec (vec_len (frame c)) (offset c + n)) as [|Hle]; [done|].
    intros [= <- <-]. split; [done|]. rewrite Hf, Ho in Hle |- *. unfold vec_len in *.
    rewrite Nat2Z.id, drop_app_length. rewrite length_app in Hle. split.
    - rewrite length_take. lia.
    - exists (drop (Z.to_nat n) l). by rewrite take_drop. }
  exists l2. split_and!; [done|done|]. rewrite <- Hb. by apply at_advance.
Qed.

Lemma read_u64_inv c field z c' l :
  at_ c l -> read_u64 c field = Ok (z, c') ->
  exists l2, l = write_u64 z ++ l2 /\ is_u64 z /\ at_ c' l2.
Proof.
  intros Hc. unfold read_u64. destruct (read_exact c field 8) as [[b c1]|] eqn:E; [|done].
  intros [= <- <-]. destruct (read_exact_inv c field 8 b c1 l Hc ltac:(lia) E) as (l2 & -> & Hb & Hc1).
  assert (length b = 8%nat) as Hlen by (unfold vec_len in Hb; lia).
  exists l2. split_and!; [|pose proof (from_be_bytes_range b) as Hr; rewrite Hlen in Hr; exact Hr|done].
  unfold write_u64. by rewrite to_from_be_bytes.
Qed.

Lemma read_bytes_inv c field b c' l :
  at_ c l -> read_bytes c field = Ok (b, c') -> exists l2, l = write_bytes b ++ l2 /\ at_ c' l2.
Proof.
  intros Hc. unfold read_bytes, read_len. destruct (read_u64 c field) as [[n c1]|] eqn:E; [|done].
  destruct (read_u64_inv c field n c1 l Hc E) as (l1 & -> & Hn & Hc1). intros H.
  destruct (read_exact_inv c1 field n b c' l1 Hc1 ltac:(unfold is_u64 in Hn; lia) H) as (l2 & -> & Hb & Hc2).
  exists l2. split; [|done]. unfold write_bytes. by rewrite Hb, app_assoc.
Qed.

Lemma read_bool_inv c field b c' l :
  at_ c l -> read_bool c field = Ok (b, c') -> exists l2, l = write_bool b :: l2 /\ at_ c' l2.
Proof.
  intros Hc. unfold read_bool. destruct (frame c !! Z.to_nat (offset c)) as [x|] eqn:E; [|done].
  assert (exists l2, l = x :: l2) as [l2 ->].
  { destruct Hc as (_ & _ & d & Hf & Ho). rewrite Hf, Ho in E. unfold vec_len in E.
    rewrite Nat2Z.id, lookup_app_r, Nat.sub_diag in E by done. destruct l; [done|].
    injection E as ->. by eexists. }
  pose proof (at_advance c [x] l2 Hc) as Hc'.
  assert (u64_add (offset c) 1 = offset c + 1) as Hadd.
  { apply u64_add_small. destruct Hc as (Hu & H0 & d & Hf & Ho). rewrite Hf in Hu.
    unfold vec_len, is_u64 in *. rewrite length_app in Hu. cbn in Hu. lia. }
  rewrite Hadd. destruct (Z.eqb_spec (byte_val x) 0) as [H0|]; [|destruct (Z.eqb_spec (byte_val x) 1) as [H1|]; [|done]].
  - intros [= <- <-]. exists l2. split; [|exact Hc']. by destruct x.
  - intros [= <- <-]. exists l2. split; [|exact Hc']. by destruct x.
Qed.

Lemma finish_inv c l : at_ c l -> finish c = Ok tt -> l = [].
Proof.
  intros (_ & _ & d & Hf & Ho). unfold finish. rewrite Hf, Ho.
  destruct (Z.eqb_spec (vec_len d) (vec_len (d ++ l))) as [He|]; [|done]. intros _.
  unfold vec_len in He. rewrite length_app in He. destruct l; [done|]. cbn in He. lia.
Qed.

(** ** Entries *)

Definition entry_u64 (e : LogEntry) : Prop := is_u64 (entry_term e) /\ is_u64 (entry_index e).

Lemma read_entry_at c e l :
  entry_u64 e -> at_ c (encode_entry e ++ l) -> exists c', read_entry c = Ok (e, c') /\ at_ c' l.
Proof.
  intros [Ht Hi]. unfold encode_entry. rewrite <- !app_assoc. intros Hc. unfold read_entry.
  rewrite (read_u64_at _ _ _ _ Ht Hc). apply at_after_u64 in Hc.
  rewrite (read_u64_at _ _ _ _ Hi Hc). apply at_after_u64 in Hc.
  destruct (read_bytes_at _ "entry.payload" _ _ Hc) as [-> Hc']. eexists. split; [|exact Hc'].
  by destruct e.
Qed.

Lemma read_entry_inv c e c' l :
  at_ c l -> read_entry c = Ok (e, c') ->
  exists l2, l = encode_entry e ++ l2 /\ entry_u64 e /\ at_ c' l2.
Proof.
  intros Hc. unfold read_entry.
  destruct (read_u64 c _) as [[t c1]|] eqn:E1; [|done].
  destruct (read_u64_inv _ _ _ _ _ Hc E1) as (l1 & -> & Ht & Hc1).
  destruct (read_u64 c1 _) as [[i c2]|] eqn:E2; [|done].
  destruct (read_u64_inv _ _ _ _ _ Hc1 E2) as (l2 & -> & Hi & Hc2).
  destruct (read_bytes c2 _) as [[p c3]|] eqn:E3; [|done].
  destruct (read_bytes_inv _ _ _ _ _ Hc2 E3) as (l3 & -> & Hc3).
  intros [= <- <-]. exists l3. split_and!; [|done|done]. unfold encode_entry. cbn.
  by rewrite <- !app_assoc.
Qed.

(** Every entry takes at least the 24 bytes of its three integers. *)
Lemma encode_entry_length e : (24 <= length (encode_entry e))%nat.
Proof.
  unfold encode_entry, write_bytes, write_u64. rewrite !length_app, !length_to_be_bytes. lia.
Qed.

Lemma read_entries_at fuel c es l :
  Forall entry_u64 es -> (length es < fuel)%nat ->
  at_ c (List.flat_map encode_entry es ++ l) ->
  exists c', read_entries fuel (vec_len es) c = Ok (es, c') /\ at_ c' l.
Proof.
  revert fuel c. induction es as [|e es IH]; intros fuel c Hu Hf Hc.
  { exists c. by destruct fuel. }
  inversion Hu as [|? ? He Hes]; subst. destruct fuel as [|fuel]; [lia|]. cbn in Hc.
  rewrite <- app_assoc in Hc. cbn [read_entries].
  rewrite (proj2 (Z.leb_gt _ _)) by (unfold vec_len; cbn; lia).
  destruct (read_entry_at c e _ He Hc) as (c1 & -> & Hc1).
  replace (vec_len (e :: es) - 1) with (vec_len es) by (unfold vec_len; cbn [length]; lia).
  destruct (IH fuel c1 Hes ltac:(cbn in Hf; lia) Hc1) as (c2 & -> & Hc2). by exists c2.
Qed.

Lemma read_entries_inv fuel n c es c' l :
  0 <= n -> at_ c l -> read_entries fuel n c = Ok (es, c') ->
  exists l2, l = List.flat_map encode_entry es ++ l2 /\ vec_len es = n /\ Forall entry_u64 es /\
    at_ c' l2.
Proof.
  revert n c es c' l. induction fuel as [|fuel IH]; intros n c es c' l Hn Hc; cbn [read_entries].
  { destruct (Z.leb_spec n 0); [|done]. intros [= <- <-]. exists l. unfold vec_len. cbn.
    split_and!; [done|lia|constructor|done]. }
  destruct (Z.leb_spec n 0).
  { intros [= <- <-]. exists l. unfold vec_len. cbn. split_and!; [done|lia|constructor|done]. }
  destruct (read_entry c) as [[e c1]|] eqn:E1; [|done].
  destruct (read_entry_inv _ _ _ _ Hc E1) as (l1 & -> & He & Hc1).
  destruct (read_entries fuel (n - 1) c1) as [[es1 c2]|] eqn:E2; [|done].
  destruct (IH (n - 1) c1 es1 c2 l1 ltac:(lia) Hc1 E2) as (l2 & -> & Hlen & Hes & Hc2).
  intros [= <- <-]. exists l2. cbn [List.flat_map]. rewrite <- app_assoc.
  split_and!; [done|unfold vec_len in *; cbn [length]; lia|by constructor|done].
Qed.

(** More fuel than there are bytes left changes nothing: the loop has hit its count or
    the end of the frame before. *)
Lemma read_entries_fuel f1 f2 n c l :
  at_ c l -> (length l < f1)%nat -> (length l < f2)%nat ->
  read_entries f1 n c = read_entries f2 n c.
Proof.
  revert f2 n c l. induction f1 as [|f1 IH]; intros f2 n c l Hc H1 H2; [lia|].
  destruct f2 as [|f2]; [lia|]. cbn [read_entries]. destruct (n <=? 0); [done|].
  destruct (read_entry c) as [[e c1]|] eqn:E; [|done].
  destruct (read_entry_inv _ _ _ _ Hc E) as (l1 & -> & _ & Hc1).
  pose proof (encode_entry_length e). rewrite length_app in H1, H2.
  by rewrite (IH f2 (n - 1) c1 l1 Hc1 ltac:(lia) ltac:(lia)).
Qed.

(** ** The theorems *)

(** What a request or a response of the program can be: [u64] fields, a vector that
    exists in memory, an error text that is a Rust string. *)
Definition request_ok (q : AppendEntriesRequest) : Prop :=
  is_u64 (leader_term q) /\ is_u64 (prev_log_index q) /\ is_u64 (prev_log_term q) /\
  is_u64 (leader_commit q) /\ Forall entry_u64 (req_entries q) /\
  vec_len (req_entries q) * log_entry_size <= isize_max.

Definition response_ok (p : AppendEntriesResponse) : Prop :=
  is_u64 (follower_term p) /\ is_u64 (follower_commit_index p) /\
  is_u64 (follower_applied_index p) /\
  match resp_error p with Some e => utf8_valid e | None => True end.

Lemma flat_map_length_ge es : (length es <= length (List.flat_map encode_entry es))%nat.
Proof.
  induction es as [|e es IH]; [done|]. cbn. rewrite length_app.
  pose proof (encode_entry_length e). lia.
Qed.

Lemma decode_encode_request q :
  request_ok q -> vec_len (encode_request q) <= isize_max ->
  decode_request (encode_request q) = Some (Ok q).
Proof.
  intros (H1 & H2 & H3 & H4 & H5 & H6) Hlen.
  assert (at_ (mkCursor (encode_request q) 0) (encode_request q)) as Hc.
  { apply at_start. unfold isize_max, is_u64, U64, vec_len in *. lia. }
  assert (is_u64 (vec_len (req_entries q))) as H7.
  { unfold isize_max, log_entry_size, is_u64, U64, vec_len in *. lia. }
  unfold decode_request, read_len. set (f := encode_request q) in *.
  assert (f = write_u64 (leader_term q) ++ write_u64 (prev_log_index q) ++
    write_u64 (prev_log_term q) ++ write_u64 (leader_commit q) ++
    write_u64 (vec_len (req_entries q)) ++ List.flat_map encode_entry (req_entries q) ++ [])
    as Hf by (rewrite app_nil_r; done).
  rewrite Hf in Hc at 2.
  rewrite (read_u64_at _ _ _ _ H1 Hc). apply at_after_u64 in Hc.
  rewrite (read_u64_at _ _ _ _ H2 Hc). apply at_after_u64 in Hc.
  rewrite (read_u64_at _ _ _ _ H3 Hc). apply at_after_u64 in Hc.
  rewrite (read_u64_at _ _ _ _ H4 Hc). apply at_after_u64 in Hc.
  rewrite (read_u64_at _ _ _ _ H7 Hc). apply at_after_u64 in Hc.
  unfold capacity_overflows. rewrite (proj2 (Z.ltb_ge _ _)) by done.
  assert (length (req_entries q) < S (length f))%nat as Hfuel.
  { rewrite Hf, !length_app. pose proof (flat_map_length_ge (req_entries q)). lia. }
  destruct (read_entries_at _ _ _ [] H5 Hfuel Hc) as (c' & -> & Hc').
  rewrite (finish_at c' Hc'). by destruct q.
Qed.

Lemma decode_request_inv f q :
  is_u64 (vec_len f) -> decode_request f = Some (Ok q) -> f = encode_request q /\ request_ok q.
Proof.
  intros Hlen. pose proof (at_start f Hlen) as Hc. unfold decode_request, read_len.
  destruct (read_u64 _ "leader_term") as [[v1 c1]|] eqn:E1; [|done].
  destruct (read_u64_inv _ _ _ _ _ Hc E1) as (l1 & R1 & H1 & Hc1).
  destruct (read_u64 c1 _) as [[v2 c2]|] eqn:E2; [|done].
  destruct (read_u64_inv _ _ _ _ _ Hc1 E2) as (l2 & R2 & H2 & Hc2).
  destruct (read_u64 c2 _) as [[v3 c3]|] eqn:E3; [|done].
  destruct (read_u64_inv _ _ _ _ _ Hc2 E3) as (l3 & R3 & H3 & Hc3).
  destruct (read_u64 c3 _) as [[v4 c4]|] eqn:E4; [|done].
  destruct (read_u64_inv _ _ _ _ _ Hc3 E4) as (l4 & R4 & H4 & Hc4).
  destruct (read_u64 c4 _) as [[n c5]|] eqn:E5; [|done].
  destruct (read_u64_inv _ _ _ _ _ Hc4 E5) as (l5 & R5 & H5 & Hc5).
  unfold capacity_overflows. destruct (Z.ltb_spec isize_max (n * log_entry_size)) as [|Hcap]; [done|].
  destruct (read_entries _ n c5) as [[es c6]|] eqn:E6; [|done].
  destruct (read_entries_inv _ n c5 es c6 l5 ltac:(unfold is_u64 in H5; lia) Hc5 E6)
    as (l6 & R6 & Hn & Hes & Hc6).
  destruct (finish c6) as [[]|] eqn:E7; [|done]. apply (finish_inv c6 l6 Hc6) in E7 as ->.
  intros [= <-]. rewrite app_nil_r in R6. split.
  - unfold encode_request. cbn. by rewrite R1, R2, R3, R4, R5, R6, Hn.
  - unfold request_ok. cbn. rewrite Hn. done.
Qed.

(** Request frames round-trip and are canonical: encoding a request and decoding
    the frame gives the request back, and a frame that decodes is exactly the encoding of
    the request it decodes to; so every truncated, extended or altered frame that is not
    itself an encoding is refused. *)
Theorem request_frame_round_trip f q :
  vec_len f <= isize_max ->
  decode_request f = Some (Ok q) <-> f = encode_request q /\ request_ok q.
Proof.
  intros Hf. split.
  - apply decode_request_inv. unfold isize_max, is_u64, U64, vec_len in *. lia.
  - intros [-> Hq]. by apply decode_encode_request.
Qed.

(** Response frames round-trip and are canonical, error text included: the text is
    accepted only when it is UTF-8. *)
Theorem response_frame_round_trip f p :
  vec_len f <= isize_max ->
  decode_response f = Ok p <-> f = encode_response p /\ response_ok p.
Proof.
  intros Hf. assert (is_u64 (vec_len f)) as Hu by (unfold isize_max, is_u64, U64, vec_len in *; lia).
  pose proof (at_start f Hu) as Hc. unfold decode_response. split.
  - destruct (read_bool _ "accepted") as [[b c1]|] eqn:E1; [|done].
    destruct (read_bool_inv _ _ _ _ _ Hc E1) as (l1 & R1 & Hc1).
    destruct (read_u64 c1 _) as [[v2 c2]|] eqn:E2; [|done].
    destruct (read_u64_inv _ _ _ _ _ Hc1 E2) as (l2 & R2 & H2 & Hc2).
    destruct (read_u64 c2 _) as [[v3 c3]|] eqn:E3; [|done].
    destruct (read_u64_inv _ _ _ _ _ Hc2 E3) as (l3 & R3 & H3 & Hc3).
    destruct (read_u64 c3 _) as [[v4 c4]|] eqn:E4; [|done].
    destruct (read_u64_inv _ _ _ _ _ Hc3 E4) as (l4 & R4 & H4 & Hc4).
    destruct (read_bool c4 _) as [[he c5]|] eqn:E5; [|done].
    destruct (read_bool_inv _ _ _ _ _ Hc4 E5) as (l5 & R5 & Hc5).
    destruct he.
    + destruct (read_bytes c5 _) as [[raw c6]|] eqn:E6; [|done].
      destruct (read_bytes_inv _ _ _ _ _ Hc5 E6) as (l6 & R6 & Hc6).
      destruct (from_utf8 raw) as [s|] eqn:E7; [|done]. apply from_utf8_Ok in E7 as [Hs Hval].
      destruct (finish c6) as [[]|] eqn:E8; [|done]. apply (finish_inv c6 l6 Hc6) in E8 as ->.
      intros [= <-]. rewrite app_nil_r in R6. split; [|done].
      unfold encode_response. cbn. by rewrite R1, R2, R3, R4, R5, R6, Hs.
    + destruct (finish c5) as [[]|] eqn:E8; [|done]. apply (finish_inv c5 l5 Hc5) in E8 as ->.
      intros [= <-]. split; [|done]. unfold encode_response. cbn. by rewrite R1, R2, R3, R4, R5.
  - intros [Ef (H2 & H3 & H4 & H5)]. unfold encode_response in Ef. cbn [app] in Ef.
    rewrite Ef in Hc at 2.
    destruct (read_bool_at _ "accepted" _ _ Hc) as [-> Hc1].
    rewrite (read_u64_at _ _ _ _ H2 Hc1). apply at_after_u64 in Hc1.
    rewrite (read_u64_at _ _ _ _ H3 Hc1). apply at_after_u64 in Hc1.
    rewrite (read_u64_at _ _ _ _ H4 Hc1). apply at_after_u64 in Hc1.
    destruct p as [acc ft fc fa [e|]]; cbn [resp_error] in *.
    + destruct (read_bool_at _ "has_error" true _ Hc1) as [-> Hc2].
      rewrite <- (app_nil_r (write_bytes _)) in Hc2.
      destruct (read_bytes_at _ "error" _ _ Hc2) as [-> Hc3].
      rewrite (from_utf8_as_bytes e H5). by rewrite (finish_at _ Hc3).
    + destruct (read_bool_at _ "has_error" false _ Hc1) as [-> Hc2].
      by rewrite (finish_at _ Hc2).
Qed.

(** A 40-byte frame that only claims a huge entry count makes the decoder panic instead
    of returning an error. *)
Theorem huge_entry_count_panics :
  let f := to_be_bytes 8 1 ++ to_be_bytes 8 0 ++ to_be_bytes 8 0 ++ to_be_bytes 8 0 ++
           to_be_bytes 8 (2 ^ 63) in
  length f = 40%nat /\ decode_request f = None.
Proof. split; by vm_compute. Qed.

(** ** Concrete frames *)

Definition sample_request : AppendEntriesRequest :=
  mkAppendRequest 3 7 2 [mkEntry 3 8 [x01; x02]; mkEntry 3 9 []] 7.

Definition sample_response : AppendEntriesResponse :=
  mkAppendResponse false 4 7 6 (Some "stale leader term 3 (local term 4)").

Lemma request_frame_round_trip_witness :
  vec_len (encode_request sample_request) = 90 /\
  decode_request (encode_request sample_request) = Some (Ok sample_request).
Proof.
  split; [by vm_compute|]. apply (request_frame_round_trip (encode_request sample_request)).
  - by vm_compute.
  - split; [done|]. unfold request_ok, is_u64, U64, isize_max, log_entry_size, vec_len. cbn.
    split_and!; try lia. repeat (constructor; [unfold entry_u64, is_u64, U64; cbn; lia|]). constructor.
Defined.

Lemma response_frame_round_trip_witness :
  decode_response (encode_response sample_response) = Ok sample_response.
Proof.
  apply (response_frame_round_trip (encode_response sample_response)).
  - by vm_compute.
  - split; [done|]. unfold response_ok, is_u64, U64. cbn. split_and!; try lia. by vm_compute.
Defined.

End Rpc.
