(* ===== verification/WalSegment.v ===== *)
(** * WAL segments (crates/wal/src/lib.rs)

    The on-disk record format with its FNV-1a checksum, the strict reader of intact
    segments, the tolerant reader that recovers a live segment after a crash, and the
    advisory tail-offset sidecar.  A file is its bytes; [path] is the text a path displays
    as in messages.  [None] is a panic. *)

From stdpp Require Import base strings list pretty.
From S2P Require Import Prelude Types Bytes.

Module Wal.

Record WalRecord := mkRecord { txn_id : Z; payload : list byte }.

#[export] Instance WalRecord_eq_dec : EqDecision WalRecord.
Proof. solve_decision. Defined.

Definition WAL_SEGMENT_MAGIC : list byte := as_bytes "GPUDBWAL1" ++ [x0a].

Definition WAL_RECORD_HEADER_LEN : Z := 24.

(** ** The record format *)

Definition FNV_PRIME : Z := 1099511628211.
Definition FNV_OFFSET : Z := 14695981039346656037.

Definition fnv_step (hash : Z) (bytes : list byte) : Z :=
  List.fold_left (fun hash byte => wrap64 (Z.lxor hash (byte_val byte) * FNV_PRIME)) bytes hash.

Definition wal_record_checksum (txn payload_len : Z) (payload : list byte) : Z :=
  let hash := FNV_OFFSET in
  let hash := fnv_step hash (to_le_bytes 8 txn) in
  let hash := fnv_step hash (to_le_bytes 8 payload_len) in
  fnv_step hash payload.

Definition encode_record_header (record : WalRecord) : list byte :=
  let payload_len := vec_len (payload record) in
  let checksum := wal_record_checksum (txn_id record) payload_len (payload record) in
  to_le_bytes 8 (txn_id record) ++ to_le_bytes 8 payload_len ++ to_le_bytes 8 checksum.

Definition encode_record (record : WalRecord) : list byte :=
  encode_record_header record ++ payload record.

Definition encode_wal_record_parts (txn : Z) (payload : list byte) : list byte :=
  let payload_len := vec_len payload in
  let checksum := wal_record_checksum txn payload_len payload in
  to_le_bytes 8 txn ++ to_le_bytes 8 payload_len ++ to_le_bytes 8 checksum ++ payload.

Definition encoded_record_len (record : WalRecord) : Z :=
  WAL_RECORD_HEADER_LEN + vec_len (payload record).

Definition encode_records (records : list WalRecord) : list byte :=
  List.flat_map encode_record records.

(** The bytes [write_wal_segment] puts in the file before it syncs and renames it. *)
Definition segment_bytes (records : list WalRecord) : list byte :=
  WAL_SEGMENT_MAGIC ++ encode_records records.

(** The three integers of a 24-byte header. *)
Record Header := mkHeader { h_txn : Z; h_len : Z; h_checksum : Z }.

Definition parse_header (header : list byte) : Header :=
  mkHeader (from_le_bytes (take 8 header)) (from_le_bytes (take 8 (drop 8 header)))
    (from_le_bytes (take 8 (drop 16 header))).

Definition zero_header (h : Header) : bool :=
  (h_txn h =? 0) && (h_len h =? 0) && (h_checksum h =? 0).

(** ** [decode_wal_record_run] *)

Definition durability {A} (msg : string) : result A EngineError := Err (Durability msg).

(** One turn of the loop: the record that starts the bytes, and the bytes after it. *)
Definition decode_one (bytes : list byte) : result (WalRecord * list byte) EngineError :=
  if vec_len bytes <? WAL_RECORD_HEADER_LEN then
    durability "FUA WAL frame payload ends with a truncated record header"
  else
    let h := parse_header (take 24 bytes) in
    let rest := drop 24 bytes in
    if vec_len rest <? h_len h then
      durability "FUA WAL frame payload record length overruns the frame"
    else
      let p := take (Z.to_nat (h_len h)) rest in
      if negb (wal_record_checksum (h_txn h) (h_len h) p =? h_checksum h) then
        durability ("FUA WAL frame payload record checksum mismatch for txn " +:+
                    pretty (h_txn h))
      else Ok (mkRecord (h_txn h) p, drop (Z.to_nat (h_len h)) rest).

(** Every turn consumes at least a header, so [length bytes] turns are enough. *)
Fixpoint decode_run (fuel : nat) (bytes : list byte) : result (list WalRecord) EngineError :=
  match bytes with
  | [] => Ok []
  | _ =>
      match fuel with
      | O => durability EmptyString
      | S fuel =>
          let? (record, rest) := decode_one bytes in
          let? records := decode_run fuel rest in
          Ok (record :: records)
      end
  end.

Definition decode_wal_record_run (bytes : list byte) : result (list WalRecord) EngineError :=
  decode_run (length bytes) bytes.

(** ** [read_wal_segment] *)

(** The text of the [UnexpectedEof] error of [Read::read_exact]. *)
Definition unexpected_eof : string := "failed to fill whole buffer".

(** One turn of the loop after a first header byte was read; [Ok None] is the zero tail.
    The outer [None] is the capacity overflow of [vec![0_u8; payload_len]]. *)
Definition read_one (path : string) (bytes : list byte)
    : option (result (option (WalRecord * list byte)) EngineError) :=
  if vec_len bytes <? WAL_RECORD_HEADER_LEN then
    Some (durability ("failed to read WAL segment record header " +:+ path +:+ ": " +:+
                      unexpected_eof))
  else
    let h := parse_header (take 24 bytes) in
    if zero_header h then Some (Ok None)
    else if isize_max <? h_len h then None
    else
      let rest := drop 24 bytes in
      if vec_len rest <? h_len h then
        Some (durability ("failed to read WAL segment payload " +:+ path +:+ ": " +:+
                          unexpected_eof))
      else
        let p := take (Z.to_nat (h_len h)) rest in
        if negb (wal_record_checksum (h_txn h) (h_len h) p =? h_checksum h) then
          Some (durability ("WAL segment " +:+ path +:+ " record checksum mismatch for txn " +:+
                            pretty (h_txn h)))
        else Some (Ok (Some (mkRecord (h_txn h) p, drop (Z.to_nat (h_len h)) rest))).

Fixpoint read_records (fuel : nat) (path : string) (bytes : list byte)
    : option (result (list WalRecord) EngineError) :=
  match bytes with
  | [] => Some (Ok [])
  | _ =>
      match fuel with
      | O => Some (durability EmptyString)
      | S fuel =>
          match read_one path bytes with
          | None => None
          | Some (Err e) => Some (Err e)
          | Some (Ok None) => Some (Ok [])
          | Some (Ok (Some (record, rest))) =>
              match read_records fuel path rest with
              | Some (Ok records) => Some (Ok (record :: records))
              | other => other
              end
          end
      end
  end.

(** On the contents of a file that could be opened. *)
Definition read_wal_segment (path : string) (bytes : list byte)
    : option (result (list WalRecord) EngineError) :=
  if vec_len bytes <? vec_len WAL_SEGMENT_MAGIC then
    Some (durability ("failed to read WAL segment header " +:+ path +:+ ": " +:+ unexpected_eof))
  else if negb (bool_decide (take (length WAL_SEGMENT_MAGIC) bytes = WAL_SEGMENT_MAGIC)) then
    Some (durability ("invalid WAL segment header " +:+ path))
  else read_records (length bytes) path (drop (length WAL_SEGMENT_MAGIC) bytes).

(** ** [recover_wal_segment] *)

Record WalSegmentRecovery := mkSegmentRecovery {
  records : list WalRecord;
  valid_bytes : Z;
  discarded_torn_bytes : Z;
}.

Definition WalSegmentRecovery_empty : WalSegmentRecovery := mkSegmentRecovery [] 0 0.

Definition ends_short (path : string) (recorded_tail valid : Z) : EngineError :=
  Durability ("WAL segment " +:+ path +:+ " ends at byte " +:+ pretty valid +:+
              ", before the recorded durable tail offset " +:+ pretty recorded_tail).

(** The [while offset < bytes.len()] loop: [rest] is [bytes[offset..]]. *)
Fixpoint recover_loop (fuel : nat) (path : string) (recorded_tail : Z) (acc : list WalRecord)
    (offset : Z) (rest : list byte) : result WalSegmentRecovery EngineError :=
  match rest with
  | [] =>
      if offset <? recorded_tail then Err (ends_short path recorded_tail offset)
      else Ok (mkSegmentRecovery acc offset 0)
  | _ =>
      match fuel with
      | O => durability EmptyString
      | S fuel =>
          let torn := Ok (mkSegmentRecovery acc offset (vec_len rest)) in
          let below_recorded_tail := offset <? recorded_tail in
          if vec_len rest <? WAL_RECORD_HEADER_LEN then
            if below_recorded_tail then
              durability ("failed to read WAL segment record header " +:+ path +:+
                ": acknowledged-durable record is truncated at byte " +:+ pretty offset)
            else torn
          else
            let h := parse_header (take 24 rest) in
            if zero_header h && negb below_recorded_tail &&
               List.forallb (fun b => byte_val b =? 0) rest then
              Ok (mkSegmentRecovery acc offset 0)
            else
              let body := drop 24 rest in
              if vec_len body <? h_len h then
                if below_recorded_tail then
                  durability ("failed to read WAL segment payload " +:+ path +:+
                    ": acknowledged-durable record is truncated at byte " +:+ pretty offset)
                else torn
              else
                let p := take (Z.to_nat (h_len h)) body in
                if negb (wal_record_checksum (h_txn h) (h_len h) p =? h_checksum h) then
                  if below_recorded_tail then
                    durability ("WAL segment " +:+ path +:+
                      " record checksum mismatch for txn " +:+ pretty (h_txn h))
                  else torn
                else
                  recover_loop fuel path recorded_tail (acc ++ [mkRecord (h_txn h) p])
                    (offset + WAL_RECORD_HEADER_LEN + h_len h)
                    (drop (Z.to_nat (h_len h)) body)
      end
  end.

(** [file] is [None] when the segment does not exist; [recorded_tail] is what
    [read_wal_tail_offset] returned. *)
Definition recover_wal_segment (path : string) (recorded_tail : Z) (file : option (list byte))
    : result WalSegmentRecovery EngineError :=
  match file with
  | None =>
      if 0 <? recorded_tail then Err (ends_short path recorded_tail 0)
      else Ok WalSegmentRecovery_empty
  | Some bytes =>
      if vec_len bytes <? vec_len WAL_SEGMENT_MAGIC then
        if bool_decide (bytes = take (length bytes) WAL_SEGMENT_MAGIC) then
          if 0 <? recorded_tail then Err (ends_short path recorded_tail 0)
          else Ok (mkSegmentRecovery [] 0 (vec_len bytes))
        else durability ("invalid WAL segment header " +:+ path)
      else if negb (bool_decide (take (length WAL_SEGMENT_MAGIC) bytes = WAL_SEGMENT_MAGIC)) then
        durability ("invalid WAL segment header " +:+ path)
      else
        recover_loop (length bytes) path recorded_tail [] (vec_len WAL_SEGMENT_MAGIC)
          (drop (length WAL_SEGMENT_MAGIC) bytes)
  end.

End Wal.
