(* ===== verification/WalProps.v ===== *)
(** * Properties of WAL segments

    The record format round-trips and is canonical; the strict reader returns exactly
    what was written, with or without a preallocated zero tail; the tolerant reader is
    the longest valid prefix, refuses to drop below the recorded durable tail, and after
    a crash at any byte recovers exactly the records that were completely written. *)

From stdpp Require Import base strings list.
From S2P Require Import Prelude Types Bytes WalSegment.

Module WalProps.
Import Wal.

(** ** Headers *)

Definition record_ok (r : WalRecord) : Prop := is_u64 (txn_id r) /\ vec_len (payload r) <= isize_max.

Lemma fnv_step_u64 h l : is_u64 h -> is_u64 (fnv_step h l).
Proof.
  revert h. induction l as [|b l IH]; intros h Hh; [done|]. cbn. apply IH.
  unfold wrap64, is_u64. apply Z.mod_pos_bound. unfold U64. lia.
Qed.

Lemma checksum_u64 t n p : is_u64 (wal_record_checksum t n p).
Proof. unfold wal_record_checksum. do 3 apply fnv_step_u64. by split. Qed.

Lemma length_encode_record_header r : length (encode_record_header r) = 24%nat.
Proof. unfold encode_record_header. by rewrite !length_app, !length_to_le_bytes. Qed.

Lemma vec_len_encode_record r : vec_len (encode_record r) = encoded_record_len r.
Proof.
  unfold vec_len, encode_record, encoded_record_len, vec_len, WAL_RECORD_HEADER_LEN.
  rewrite length_app, length_encode_record_header. lia.
Qed.

(** A header split into its three fields. *)
Definition header_bytes (t n c : Z) : list byte :=
  to_le_bytes 8 t ++ to_le_bytes 8 n ++ to_le_bytes 8 c.

Lemma parse_header_bytes t n c :
  is_u64 t -> is_u64 n -> is_u64 c -> parse_header (header_bytes t n c) = mkHeader t n c.
Proof.
  intros Ht Hn Hc. unfold parse_header, header_bytes.
  rewrite (take_app_length' (to_le_bytes 8 t)) by by rewrite length_to_le_bytes.
  rewrite (drop_app_length' (to_le_bytes 8 t)) by by rewrite length_to_le_bytes.
  rewrite (take_app_length' (to_le_bytes 8 n)) by by rewrite length_to_le_bytes.
  rewrite app_assoc, (drop_app_length' (_ ++ _)) by by rewrite length_app, !length_to_le_bytes.
  rewrite (take_ge (to_le_bytes 8 c)) by by rewrite length_to_le_bytes.
  by rewrite !from_to_le_bytes.
Qed.

Lemma header_bytes_parse l :
  length l = 24%nat ->
  l = header_bytes (h_txn (parse_header l)) (h_len (parse_header l)) (h_checksum (parse_header l)) /\
  is_u64 (h_txn (parse_header l)) /\ is_u64 (h_len (parse_header l)) /\
  is_u64 (h_checksum (parse_header l)).
Proof.
  intros Hl. unfold parse_header, header_bytes. cbn [h_txn h_len h_checksum].
  assert (forall k, (k + 8 <= 24)%nat -> length (take 8 (drop k l)) = 8%nat) as Hlen
    by (intros k Hk; rewrite length_take, length_drop; lia).
  assert (forall k, (k + 8 <= 24)%nat -> is_u64 (from_le_bytes (take 8 (drop k l)))) as Hu.
  { intros k Hk. pose proof (from_le_bytes_range (take 8 (drop k l))) as H.
    rewrite (Hlen k Hk) in H. exact H. }
  pose proof (Hlen 0%nat ltac:(lia)) as H0. pose proof (Hu 0%nat ltac:(lia)) as U0.
  rewrite drop_0 in H0, U0. split_and!; [|done|apply Hu; lia|apply Hu; lia].
  rewrite !to_from_le_bytes by (done || apply Hlen; lia).
  rewrite (take_ge (drop 16 l)) by (rewrite length_drop; lia).
  rewrite <- (take_drop 8 l) at 1. f_equal. rewrite <- (take_drop 8 (drop 8 l)) at 1.
  by rewrite drop_drop.
Qed.

Lemma encode_record_header_bytes r :
  encode_record_header r = header_bytes (txn_id r) (vec_len (payload r))
    (wal_record_checksum (txn_id r) (vec_len (payload r)) (payload r)).
Proof. done. Qed.

Lemma take_drop_encoded r rest :
  take 24 (encode_record r ++ rest) = encode_record_header r /\
  drop 24 (encode_record r ++ rest) = payload r ++ rest.
Proof.
  unfold encode_record. rewrite <- app_assoc. split.
  - by rewrite take_app_length' by by rewrite length_encode_record_header.
  - by rewrite drop_app_length' by by rewrite length_encode_record_header.
Qed.

Lemma payload_len_u64 r : record_ok r -> is_u64 (vec_len (payload r)).
Proof. intros [_ H]. unfold is_u64, isize_max, U64, vec_len in *. lia. Qed.

Lemma parse_encoded r :
  record_ok r ->
  parse_header (encode_record_header r) =
  mkHeader (txn_id r) (vec_len (payload r))
    (wal_record_checksum (txn_id r) (vec_len (payload r)) (payload r)).
Proof.
  intros Hr. rewrite encode_record_header_bytes. apply parse_header_bytes;
    [apply Hr|by apply payload_len_u64|apply checksum_u64].
Qed.

(** The checksum of the empty record of transaction 0 is not zero, so a zero header is
    never the header of a record. *)
Lemma encoded_not_zero r : record_ok r -> zero_header (parse_header (encode_record_header r)) = false.
Proof.
  intros Hr. rewrite parse_encoded by done. unfold zero_header. cbn.
  destruct (Z.eqb_spec (txn_id r) 0) as [Ht|]; [|done].
  destruct (Z.eqb_spec (vec_len (payload r)) 0) as [Hn|]; [|done]. cbn.
  rewrite Ht, Hn. assert (payload r = []) as -> by (destruct (payload r); [done|unfold vec_len in Hn; cbn in Hn; lia]).
  by vm_compute.
Qed.

(** ** One record *)

Lemma vec_len_to_nat {A} (l : list A) : Z.to_nat (vec_len l) = length l.
Proof. apply Nat2Z.id. Qed.

Lemma decode_one_encoded r rest : record_ok r -> decode_one (encode_record r ++ rest) = Ok (r, rest).
Proof.
  intros Hr. unfold decode_one. destruct (take_drop_encoded r rest) as [-> ->].
  rewrite vec_len_app, vec_len_encode_record.
  rewrite (proj2 (Z.ltb_ge _ _)) by (unfold encoded_record_len, WAL_RECORD_HEADER_LEN, vec_len; lia).
  rewrite parse_encoded by done. cbn [h_txn h_len h_checksum].
  rewrite vec_len_app, (proj2 (Z.ltb_ge _ _)) by (unfold vec_len; lia).
  rewrite vec_len_to_nat, take_app_length, drop_app_length, Z.eqb_refl. by destruct r.
Qed.

(** The bytes of a record that passes the three checks. *)
Lemma checked_record b p :
  24 <= vec_len b ->
  let h := parse_header (take 24 b) in
  h_len h <= vec_len (drop 24 b) -> p = take (Z.to_nat (h_len h)) (drop 24 b) ->
  wal_record_checksum (h_txn h) (h_len h) p = h_checksum h ->
  let r := mkRecord (h_txn h) p in
  b = encode_record r ++ drop (Z.to_nat (h_len h)) (drop 24 b) /\ is_u64 (txn_id r) /\
  vec_len (payload r) = h_len h.
Proof.
  intros Hb h Hlen Hp Hck r.
  destruct (header_bytes_parse (take 24 b)) as (Eb & Ht & Hn & _).
  { rewrite length_take. unfold vec_len in Hb. lia. }
  fold h in Eb, Ht, Hn.
  assert (vec_len p = h_len h) as Hpl.
  { rewrite Hp. unfold vec_len, is_u64 in *. rewrite length_take. lia. }
  split_and!; [|done|done].
  rewrite <- (take_drop 24 b) at 1. rewrite Eb.
  unfold encode_record, r. rewrite encode_record_header_bytes. cbn [txn_id payload].
  rewrite Hpl, Hck, <- app_assoc.
  f_equal. rewrite Hp. by rewrite take_drop.
Qed.

Lemma decode_one_inv b r rest :
  decode_one b = Ok (r, rest) ->
  b = encode_record r ++ rest /\ is_u64 (txn_id r) /\ vec_len (payload r) <= vec_len b.
Proof.
  unfold decode_one. destruct (Z.ltb_spec (vec_len b) WAL_RECORD_HEADER_LEN) as [|Hb]; [done|].
  set (h := parse_header (take 24 b)).
  destruct (Z.ltb_spec (vec_len (drop 24 b)) (h_len h)) as [|Hlen]; [done|].
  destruct (Z.eqb_spec (wal_record_checksum (h_txn h) (h_len h)
    (take (Z.to_nat (h_len h)) (drop 24 b))) (h_checksum h)) as [Hck|]; [|done]. cbn.
  intros [= <- <-]. destruct (checked_record b _ Hb Hlen eq_refl Hck) as (E & Ht & Hp).
  split_and!; [done|done|]. fold h in Hp. etrans; [apply Z.eq_le_incl, Hp|].
  unfold vec_len in *. rewrite length_drop in Hlen. lia.
Qed.

(** ** Runs of records *)

Lemma encode_record_nonempty r : encode_record r <> [].
Proof. intros E. pose proof (length_encode_record_header r) as H.
  unfold encode_record in E. apply app_nil in E as [E _]. by rewrite E in H.
Qed.

Lemma length_encode_record r : (24 <= length (encode_record r))%nat.
Proof. unfold encode_record. rewrite length_app, length_encode_record_header. lia. Qed.

Lemma encode_records_app l1 l2 : encode_records (l1 ++ l2) = encode_records l1 ++ encode_records l2.
Proof. apply flat_map_app. Qed.

(** The longest run of valid records at the start of some bytes, and what follows it. *)
Fixpoint scan (fuel : nat) (b : list byte) : list WalRecord * list byte :=
  match fuel with
  | O => ([], b)
  | S fuel =>
      match decode_one b with
      | Ok (r, rest) => let '(rs, junk) := scan fuel rest in (r :: rs, junk)
      | Err _ => ([], b)
      end
  end.

Definition valid_prefix (b : list byte) : list WalRecord * list byte := scan (length b) b.

Lemma decode_one_shrinks b r rest : decode_one b = Ok (r, rest) -> (length rest < length b)%nat.
Proof.
  intros H. apply decode_one_inv in H as (-> & _). rewrite length_app.
  pose proof (length_encode_record r). lia.
Qed.

Lemma scan_fuel f1 f2 b : (length b <= f1)%nat -> (length b <= f2)%nat -> scan f1 b = scan f2 b.
Proof.
  revert f2 b. induction f1 as [|f1 IH]; intros [|f2] b H1 H2; cbn; try done.
  1,2: destruct b; [|cbn in *; lia]; done.
  destruct (decode_one b) as [[r rest]|] eqn:E; [|done].
  apply decode_one_shrinks in E. rewrite (IH f2 rest) by lia. done.
Qed.

Lemma valid_prefix_step b r rest :
  decode_one b = Ok (r, rest) ->
  valid_prefix b = (r :: (valid_prefix rest).1, (valid_prefix rest).2).
Proof.
  intros E. unfold valid_prefix. pose proof (decode_one_shrinks _ _ _ E).
  destruct b as [|x b]; [done|]. cbn [scan length]. rewrite E.
  rewrite (scan_fuel (length b) (length rest)) by (cbn in *; lia). by destruct (scan _ _).
Qed.

Lemma valid_prefix_stop b e : decode_one b = Err e -> valid_prefix b = ([], b).
Proof. intros E. unfold valid_prefix. destruct b; [done|]. cbn [scan length]. by rewrite E. Qed.

(** Induction along the records of a run. *)
Lemma run_ind (P : list byte -> Prop) :
  (forall b r rest, decode_one b = Ok (r, rest) -> P rest -> P b) ->
  (forall b e, decode_one b = Err e -> P b) -> forall b, P b.
Proof.
  intros Hok Herr b. remember (length b) as n eqn:Hn. revert b Hn.
  induction n as [n IH] using lt_wf_ind. intros b ->.
  destruct (decode_one b) as [[r rest]|e] eqn:E; [|by eapply Herr].
  eapply Hok; [done|]. eapply IH; [by eapply decode_one_shrinks|done].
Qed.

Lemma valid_prefix_split b :
  let '(rs, junk) := valid_prefix b in
  b = encode_records rs ++ junk /\ Forall (fun r => is_u64 (txn_id r) /\ vec_len (payload r) <= vec_len b) rs /\
  exists e, decode_one junk = Err e.
Proof.
  induction b as [b r rest E IH|b e E] using run_ind.
  - rewrite (valid_prefix_step _ _ _ E). destruct (valid_prefix rest) as [rs junk]. cbn.
    destruct IH as (Hr & Hf & He). apply decode_one_inv in E as (-> & Ht & Hp). split_and!; [|constructor|done].
    + by rewrite Hr at 1; rewrite app_assoc.
    + done.
    + eapply Forall_impl; [exact Hf|]. cbn. intros x [? Hx]. split; [done|].
      rewrite vec_len_app. unfold vec_len in *. lia.
  - rewrite (valid_prefix_stop _ _ E). split_and!; [done|done|by eexists].
Qed.

Lemma valid_prefix_encoded rs rest :
  Forall record_ok rs ->
  valid_prefix (encode_records rs ++ rest) = (rs ++ (valid_prefix rest).1, (valid_prefix rest).2).
Proof.
  induction 1 as [|r rs Hr _ IH]; [apply surjective_pairing|].
  change (encode_records (r :: rs)) with (encode_record r ++ encode_records rs).
  rewrite <- app_assoc, (valid_prefix_step _ r (encode_records rs ++ rest)), IH; [done|].
  by apply decode_one_encoded.
Qed.

Lemma valid_prefix_exact rs : Forall record_ok rs -> valid_prefix (encode_records rs) = (rs, []).
Proof.
  intros Hrs. rewrite <- (app_nil_r (encode_records rs)), valid_prefix_encoded by done.
  cbn. by rewrite app_nil_r.
Qed.

Lemma decode_run_prefix fuel b :
  (length b <= fuel)%nat ->
  match decode_run fuel b with
  | Ok rs => valid_prefix b = (rs, [])
  | Err _ => (valid_prefix b).2 <> []
  end.
Proof.
  revert fuel. induction b as [b r rest E IH|b e E] using run_ind; intros fuel Hf.
  - rewrite (valid_prefix_step _ _ _ E). pose proof (decode_one_shrinks _ _ _ E).
    destruct b as [|x b]; [done|]. destruct fuel as [|fuel]; [cbn in Hf; lia|].
    cbn [decode_run]. rewrite E. cbn. specialize (IH fuel ltac:(cbn in *; lia)).
    destruct (decode_run fuel rest); cbn; [by rewrite IH|done].
  - rewrite (valid_prefix_stop _ _ E). destruct b as [|x b]; [by destruct fuel|].
    destruct fuel as [|fuel]; [done|]. cbn [decode_run]. by rewrite E.
Qed.

(** ** The strict reader *)

Lemma read_one_encoded path r rest :
  record_ok r -> read_one path (encode_record r ++ rest) = Some (Ok (Some (r, rest))).
Proof.
  intros Hr. unfold read_one. destruct (take_drop_encoded r rest) as [-> ->].
  rewrite vec_len_app, vec_len_encode_record.
  rewrite (proj2 (Z.ltb_ge _ _)) by (unfold encoded_record_len, WAL_RECORD_HEADER_LEN, vec_len; lia).
  rewrite encoded_not_zero, parse_encoded by done. cbn [h_txn h_len h_checksum].
  rewrite (proj2 (Z.ltb_ge isize_max _)) by apply Hr.
  rewrite vec_len_app, (proj2 (Z.ltb_ge _ _)) by (unfold vec_len; lia).
  rewrite vec_len_to_nat, take_app_length, drop_app_length, Z.eqb_refl. by destruct r.
Qed.

Lemma read_one_decodes path b r rest :
  read_one path b = Some (Ok (Some (r, rest))) ->
  decode_one b = Ok (r, rest) /\ vec_len (payload r) <= isize_max.
Proof.
  unfold read_one, decode_one. destruct (Z.ltb_spec (vec_len b) WAL_RECORD_HEADER_LEN) as [|Hb]; [done|].
  destruct (zero_header _); [done|].
  destruct (Z.ltb_spec isize_max (h_len (parse_header (take 24 b)))) as [|Hi]; [done|].
  destruct (Z.ltb_spec (vec_len (drop 24 b)) (h_len (parse_header (take 24 b)))) as [|Hp]; [done|].
  destruct (negb _) eqn:Hck; [done|]. apply negb_false_iff, Z.eqb_eq in Hck.
  destruct (checked_record b _ Hb Hp eq_refl Hck) as (_ & _ & Hpl).
  intros E. assert (mkRecord (h_txn (parse_header (take 24 b)))
    (take (Z.to_nat (h_len (parse_header (take 24 b)))) (drop 24 b)) = r) as Er by congruence.
  rewrite Er in Hpl. split; [congruence|lia].
Qed.

Lemma zero_header_bytes l :
  length l = 24%nat -> zero_header (parse_header l) = true -> l = replicate 24 x00.
Proof.
  intros Hl Hz. destruct (header_bytes_parse l Hl) as (-> & _). unfold zero_header in Hz.
  apply andb_true_iff in Hz as [Hz ->%Z.eqb_eq].
  by apply andb_true_iff in Hz as [->%Z.eqb_eq ->%Z.eqb_eq].
Qed.

Lemma read_one_zero path b :
  read_one path b = Some (Ok None) -> exists rest, b = replicate 24 x00 ++ rest.
Proof.
  unfold read_one. destruct (Z.ltb_spec (vec_len b) WAL_RECORD_HEADER_LEN) as [|Hb]; [done|].
  destruct (zero_header _) eqn:Hz.
  - intros _. exists (drop 24 b). rewrite <- (take_drop 24 b) at 1. f_equal.
    apply zero_header_bytes, Hz. rewrite length_take. unfold vec_len, WAL_RECORD_HEADER_LEN in Hb. lia.
  - destruct (isize_max <? _); [done|]. destruct (_ <? _); [done|]. by destruct (negb _).
Qed.

Lemma read_one_zeros path k :
  (24 <= k)%nat -> read_one path (replicate k x00) = Some (Ok None).
Proof.
  intros Hk. replace k with (24 + (k - 24))%nat by lia. rewrite replicate_add. unfold read_one.
  rewrite take_app_length' by by rewrite length_replicate.
  rewrite (proj2 (Z.ltb_ge _ _)); [by vm_compute|].
  unfold vec_len, WAL_RECORD_HEADER_LEN. rewrite length_app, length_replicate. lia.
Qed.

(** What follows the records of an intact segment. *)
Definition clean_tail (l : list byte) : Prop := l = [] \/ exists rest, l = replicate 24 x00 ++ rest.

Lemma read_records_sound fuel path b rs :
  (length b <= fuel)%nat -> read_records fuel path b = Some (Ok rs) ->
  exists tail, b = encode_records rs ++ tail /\ clean_tail tail /\ Forall record_ok rs.
Proof.
  revert b rs. induction fuel as [|fuel IH]; intros b rs Hf Hr.
  { destruct b; [|cbn in Hf; lia]. injection Hr as <-. exists []. by split; [|split; [left|]]. }
  destruct b as [|x b]; [injection Hr as <-; exists []; by split; [|split; [left|]]|].
  cbn [read_records] in Hr. destruct (read_one path (x :: b)) as [[[[r rest]|]|e]|] eqn:E; try done.
  - apply read_one_decodes in E as [E Hi]. pose proof (decode_one_shrinks _ _ _ E) as Hs.
    destruct (read_records fuel path rest) as [[rs'|]|] eqn:E'; try done. injection Hr as <-.
    apply IH in E' as (tail & -> & Ht & Hok); [|cbn in *; lia].
    apply decode_one_inv in E as (-> & Hu & _). exists tail. split_and!; [|done|by constructor].
    cbn [encode_records List.flat_map]. by rewrite <- app_assoc.
  - injection Hr as <-. apply read_one_zero in E as [rest E]. exists (x :: b).
    split_and!; [done| |done]. right. by exists rest.
Qed.

Lemma read_records_encoded fuel path rs tail :
  Forall record_ok rs -> (length (encode_records rs ++ tail) <= fuel)%nat ->
  tail = [] \/ (exists k, (24 <= k)%nat /\ tail = replicate k x00) ->
  read_records fuel path (encode_records rs ++ tail) = Some (Ok rs).
Proof.
  intros Hrs. revert fuel. induction Hrs as [|r rs Hr _ IH]; intros fuel Hf Ht.
  - destruct Ht as [->|(k & Hk & ->)]; [by destruct fuel|]. cbn [encode_records List.flat_map app] in *.
    pose proof (read_one_zeros path k Hk) as E. destruct fuel as [|fuel].
    { rewrite length_replicate in Hf. lia. }
    destruct (replicate k x00) as [|x l] eqn:El; [done|]. cbn [read_records]. by rewrite E.
  - change (encode_records (r :: rs)) with (encode_record r ++ encode_records rs) in *.
    rewrite <- app_assoc in *. pose proof (length_encode_record r) as Hl. rewrite length_app in Hf.
    destruct fuel as [|fuel]; [lia|].
    pose proof (read_one_encoded path r (encode_records rs ++ tail) Hr) as E.
    destruct (encode_record r ++ _) as [|x l] eqn:El.
    { apply app_nil in El as [El _]. by apply encode_record_nonempty in El. }
    cbn [read_records]. rewrite E, IH; [done|lia|done].
Qed.

(** ** The tolerant reader *)

Definition zeros (l : list byte) : bool := List.forallb (fun b => byte_val b =? 0) l.

(** What recovery reports as torn: nothing for a preallocated zero tail. *)
Definition torn_bytes (junk : list byte) : Z :=
  if (WAL_RECORD_HEADER_LEN <=? vec_len junk) && zeros junk then 0 else vec_len junk.

Lemma zeros_replicate l : zeros l = true -> l = replicate (length l) x00.
Proof.
  induction l as [|b l IH]; [done|]. cbn. intros [Hb Hl]%andb_true_iff.
  rewrite <- (IH Hl). f_equal. by destruct b.
Qed.

Lemma zeros_zero_header b :
  24 <= vec_len b -> zeros b = true -> zero_header (parse_header (take 24 b)) = true.
Proof.
  intros Hb Hz. rewrite (zeros_replicate b Hz), take_replicate.
  replace (24 `min` length b)%nat with 24%nat by (unfold vec_len in Hb; lia). by vm_compute.
Qed.

Lemma empty_checksum : (wal_record_checksum 0 0 [] =? 0) = false.
Proof. by vm_compute. Qed.

Lemma decode_one_zero_header b r rest :
  zero_header (parse_header (take 24 b)) = true -> decode_one b <> Ok (r, rest).
Proof.
  intros Hz. unfold decode_one. destruct (_ <? _); [done|].
  unfold zero_header in Hz. apply andb_true_iff in Hz as [Hz Hc%Z.eqb_eq].
  apply andb_true_iff in Hz as [Ht%Z.eqb_eq Hl%Z.eqb_eq]. cbv zeta. rewrite Ht, Hl, Hc.
  destruct (_ <? _); [done|]. change (take (Z.to_nat 0) _) with (@nil byte).
  by rewrite empty_checksum.
Qed.

Lemma recover_step fuel path tail acc off b r rest :
  decode_one b = Ok (r, rest) ->
  recover_loop (S fuel) path tail acc off b =
  recover_loop fuel path tail (acc ++ [r]) (off + vec_len (encode_record r)) rest.
Proof.
  intros E. pose proof (decode_one_inv _ _ _ E) as (Hb & _).
  destruct (zero_header (parse_header (take 24 b))) eqn:Hz; [by apply (decode_one_zero_header _ r rest) in Hz|].
  destruct b as [|x b]; [done|]. cbn [recover_loop]. rewrite Hz. cbn [andb].
  unfold decode_one in E. destruct (Z.ltb_spec (vec_len (x :: b)) WAL_RECORD_HEADER_LEN) as [|Hlen]; [done|].
  destruct (Z.ltb_spec (vec_len (drop 24 (x :: b))) (h_len (parse_header (take 24 (x :: b))))) as [|Hp]; [done|].
  destruct (negb _) eqn:Hck; [done|].
  apply negb_false_iff, Z.eqb_eq in Hck.
  destruct (checked_record (x :: b) _ Hlen Hp eq_refl Hck) as (_ & _ & Hpl).
  rewrite vec_len_encode_record. unfold encoded_record_len.
  apply Ok_inj, pair_equal_spec in E as [Er Erest]. rewrite Er in Hpl |- *.
  by rewrite Hpl, Erest, Z.add_assoc.
Qed.

Lemma recover_stop fuel path tail acc off b e :
  b <> [] -> decode_one b = Err e ->
  if off <? tail then exists e', recover_loop (S fuel) path tail acc off b = Err e'
  else recover_loop (S fuel) path tail acc off b = Ok (mkSegmentRecovery acc off (torn_bytes b)).
Proof.
  intros Hne E. unfold decode_one in E. destruct b as [|x b]; [done|]. clear Hne. cbn [recover_loop].
  unfold torn_bytes. fold (zeros (x :: b)).
  destruct (Z.ltb_spec (vec_len (x :: b)) WAL_RECORD_HEADER_LEN) as [Hs|Hlen].
  { rewrite (proj2 (Z.leb_gt _ _)) by done. destruct (off <? tail); [by eexists|done]. }
  rewrite (proj2 (Z.leb_le _ _)) by done. cbn [andb].
  destruct (zeros (x :: b)) eqn:Hz.
  - rewrite (zeros_zero_header _ Hlen Hz). destruct (off <? tail); [|done]. cbn [negb andb].
    destruct (_ <? _); [by eexists|]. destruct (negb _); [by eexists|done].
  - rewrite andb_false_r. destruct (_ <? h_len _); [by destruct (off <? tail); [eexists|]|].
    destruct (negb _); [by destruct (off <? tail); [eexists|]|done].
Qed.

Lemma recover_loop_spec b fuel path tail acc off :
  (length b <= fuel)%nat ->
  let '(rs, junk) := valid_prefix b in
  let v := off + vec_len (encode_records rs) in
  if v <? tail then exists e, recover_loop fuel path tail acc off b = Err e
  else recover_loop fuel path tail acc off b = Ok (mkSegmentRecovery (acc ++ rs) v (torn_bytes junk)).
Proof.
  revert fuel acc off. induction b as [b r rest E IH|b e E] using run_ind; intros fuel acc off Hf.
  - pose proof (decode_one_shrinks _ _ _ E). rewrite (valid_prefix_step _ _ _ E).
    destruct fuel as [|fuel]; [lia|]. rewrite (recover_step _ _ _ _ _ _ _ _ E).
    specialize (IH fuel (acc ++ [r]) (off + vec_len (encode_record r)) ltac:(lia)).
    destruct (valid_prefix rest) as [rs junk]. cbn [fst snd].
    change (encode_records (r :: rs)) with (encode_record r ++ encode_records rs).
    rewrite vec_len_app, Z.add_assoc.
    by replace (acc ++ r :: rs) with ((acc ++ [r]) ++ rs) by by rewrite <- app_assoc.
  - rewrite (valid_prefix_stop _ _ E). change (vec_len (encode_records [])) with 0.
    rewrite Z.add_0_r, app_nil_r. destruct b as [|x b].
    + destruct fuel; cbn [recover_loop]; (destruct (off <? tail); [by eexists|done]).
    + destruct fuel as [|fuel]; [cbn in Hf; lia|]. by eapply recover_stop.
Qed.

Lemma valid_prefix_clean tail : clean_tail tail -> valid_prefix tail = ([], tail).
Proof.
  intros [->|[rest ->]]; [done|].
  destruct (decode_one (replicate 24 x00 ++ rest)) as [[r rest']|e] eqn:E;
    [|by apply valid_prefix_stop in E].
  exfalso. revert E. apply decode_one_zero_header. by rewrite take_app_length'.
Qed.

(** ** Truncated segments *)

Lemma decode_truncated r n :
  record_ok r -> (n < length (encode_record r))%nat -> exists e, decode_one (take n (encode_record r)) = Err e.
Proof.
  intros Hr Hn. destruct (decode_one (take n (encode_record r))) as [[r' rest]|e] eqn:E; [|by eexists].
  exfalso. apply decode_one_inv in E as (E & Hu & _).
  assert (length (encode_record r') + length rest = n)%nat as Hl
    by (rewrite <- length_app, <- E, length_take; lia).
  assert (record_ok r') as Hr'.
  { split; [done|]. destruct Hr as [_ Hr]. pose proof (vec_len_encode_record r).
    pose proof (vec_len_encode_record r'). unfold encoded_record_len, vec_len in *. lia. }
  pose proof (decode_one_encoded r [] Hr) as E1.
  rewrite app_nil_r, <- (take_drop n (encode_record r)), E, <- app_assoc in E1.
  rewrite decode_one_encoded in E1 by done. injection E1 as -> Hnil.
  apply app_nil in Hnil as [-> Hnil]. apply (f_equal length) in Hnil.
  rewrite length_drop in Hnil. cbn in Hnil. lia.
Qed.

Lemma torn_truncated r n :
  record_ok r -> (n < length (encode_record r))%nat ->
  torn_bytes (take n (encode_record r)) = vec_len (take n (encode_record r)).
Proof.
  intros Hr Hn. unfold torn_bytes. destruct (Z.leb_spec WAL_RECORD_HEADER_LEN
    (vec_len (take n (encode_record r)))) as [Hl|]; [|done].
  destruct (zeros _) eqn:Hz; [|done]. exfalso. apply zeros_zero_header in Hz; [|done].
  unfold vec_len, WAL_RECORD_HEADER_LEN in Hl. rewrite length_take in Hl.
  rewrite take_take, Nat.min_l in Hz by lia.
  rewrite <- (app_nil_r (encode_record r)), (proj1 (take_drop_encoded r [])) in Hz.
  by rewrite encoded_not_zero in Hz.
Qed.

Lemma valid_prefix_truncated rs n :
  Forall record_ok rs -> (n <= length (encode_records rs))%nat ->
  exists k junk, valid_prefix (take n (encode_records rs)) = (take k rs, junk) /\
    torn_bytes junk = vec_len junk /\ (k <= length rs)%nat /\
    ((k < length rs)%nat -> (n < length (encode_records (take (S k) rs)))%nat).
Proof.
  intros Hrs. revert n. induction Hrs as [|r rs Hr _ IH]; intros n Hn.
  { exists 0%nat, []. change (encode_records []) with (@nil byte). rewrite !take_nil.
    split_and!; [done|done|done|cbn; lia]. }
  change (encode_records (r :: rs)) with (encode_record r ++ encode_records rs) in *.
  rewrite length_app in Hn. destruct (decide (n < length (encode_record r))%nat) as [Hs|Hs].
  - rewrite take_app_le by lia. destruct (decode_truncated r n Hr Hs) as [e E].
    exists 0%nat, (take n (encode_record r)). rewrite (valid_prefix_stop _ _ E).
    split_and!; [done|by apply torn_truncated|cbn; lia|]. intros _. cbn. by rewrite app_nil_r.
  - rewrite take_app_ge by lia. destruct (IH (n - length (encode_record r))%nat) as (k & junk & E & Ht & Hk & Hmax); [lia|].
    exists (S k), junk. rewrite (valid_prefix_step _ r (take (n - length (encode_record r)) (encode_records rs)))
      by by apply decode_one_encoded.
    rewrite E. split_and!; [done|done|cbn; lia|]. cbn [length]. intros Hlt.
    specialize (Hmax ltac:(lia)). change (take (S (S k)) (r :: rs)) with (r :: take (S k) rs).
    change (encode_records (r :: take (S k) rs)) with (encode_record r ++ encode_records (take (S k) rs)).
    rewrite length_app. lia.
Qed.

(** ** The properties *)

Ltac records_ok :=
  repeat (apply Forall_cons_2; [split; unfold is_u64, isize_max, U64, vec_len; cbn; lia|]);
  apply Forall_nil_2.

Lemma segment_bytes_tail path tail rest :
  recover_wal_segment path tail (Some (WAL_SEGMENT_MAGIC ++ rest)) =
  recover_loop (length (WAL_SEGMENT_MAGIC ++ rest)) path tail [] (vec_len WAL_SEGMENT_MAGIC) rest.
Proof.
  unfold recover_wal_segment. rewrite vec_len_app, (proj2 (Z.ltb_ge _ _)) by (unfold vec_len; lia).
  by rewrite take_app_length, drop_app_length, bool_decide_eq_true_2.
Qed.

Lemma read_segment_tail path rest :
  read_wal_segment path (WAL_SEGMENT_MAGIC ++ rest) =
  read_records (length (WAL_SEGMENT_MAGIC ++ rest)) path rest.
Proof.
  unfold read_wal_segment. rewrite vec_len_app, (proj2 (Z.ltb_ge _ _)) by (unfold vec_len; lia).
  by rewrite take_app_length, drop_app_length, bool_decide_eq_true_2.
Qed.

Lemma read_segment_bytes path rs :
  Forall record_ok rs -> read_wal_segment path (segment_bytes rs) = Some (Ok rs).
Proof.
  intros Hrs. unfold segment_bytes. rewrite <- (app_nil_r (encode_records rs)), read_segment_tail.
  apply read_records_encoded; [done|rewrite !length_app; lia|by left].
Qed.

Lemma read_segment_ok path bytes rs :
  read_wal_segment path bytes = Some (Ok rs) -> Forall record_ok rs.
Proof.
  unfold read_wal_segment. destruct (_ <? _); [done|]. destruct (negb _); [done|]. intros Hr.
  apply read_records_sound in Hr as (_ & _ & _ & Hok); [done|]. rewrite length_drop. lia.
Qed.

Lemma read_segment_magic path bytes rs :
  read_wal_segment path bytes = Some (Ok rs) -> exists rest, bytes = WAL_SEGMENT_MAGIC ++ rest.
Proof.
  unfold read_wal_segment. destruct (_ <? _); [done|]. case_bool_decide as E; [|done]. intros _.
  exists (drop (length WAL_SEGMENT_MAGIC) bytes). rewrite <- E at 1. by rewrite take_drop.
Qed.

Lemma recover_segment_spec path tail rest :
  let '(rs, junk) := valid_prefix rest in
  let v := vec_len (segment_bytes rs) in
  if v <? tail then exists e, recover_wal_segment path tail (Some (WAL_SEGMENT_MAGIC ++ rest)) = Err e
  else recover_wal_segment path tail (Some (WAL_SEGMENT_MAGIC ++ rest)) =
       Ok (mkSegmentRecovery rs v (torn_bytes junk)).
Proof.
  rewrite segment_bytes_tail.
  pose proof (recover_loop_spec rest (length (WAL_SEGMENT_MAGIC ++ rest)) path tail []
    (vec_len WAL_SEGMENT_MAGIC) ltac:(rewrite length_app; lia)) as H.
  destruct (valid_prefix rest) as [rs junk]. unfold segment_bytes. by rewrite vec_len_app.
Qed.

Lemma segment_bytes_len rs : vec_len (segment_bytes rs) = 10 + vec_len (encode_records rs).
Proof. unfold segment_bytes. by rewrite vec_len_app. Qed.

Lemma take_min_length {A} (l : list A) j : take (j `min` length l) l = take j l.
Proof. destruct (Nat.min_spec j (length l)) as [[? ->]|[? ->]]; [done|]. by rewrite !take_ge by lia. Qed.

Lemma segment_bytes_take_mono rs j k :
  (j <= k)%nat -> vec_len (segment_bytes (take j rs)) <= vec_len (segment_bytes (take k rs)).
Proof.
  intros Hjk. unfold segment_bytes. rewrite !vec_len_app.
  rewrite <- (take_drop j (take k rs)), take_take, Nat.min_l, encode_records_app, vec_len_app by lia.
  unfold vec_len. lia.
Qed.

(** A run of records (the payload of a FUA frame) decodes to exactly the records it
    encodes, and the encoding is canonical: a slice that decodes is the encoding of the
    records it decodes to, checksums and lengths included. *)
Theorem record_run_canonical (bytes : list byte) (rs : list WalRecord)
    (Hlen : vec_len bytes <= isize_max) :
  decode_wal_record_run bytes = Ok rs <-> bytes = encode_records rs /\ Forall record_ok rs.
Proof.
  unfold decode_wal_record_run. pose proof (decode_run_prefix (length bytes) bytes ltac:(lia)) as H. split.
  - intros E. rewrite E in H. pose proof (valid_prefix_split bytes) as Hs. rewrite H in Hs.
    destruct Hs as (-> & Hf & _). rewrite app_nil_r in *. split; [done|].
    eapply Forall_impl; [exact Hf|]. intros r [? ?]. split; [done|lia].
  - intros [-> Hrs]. rewrite (valid_prefix_exact rs Hrs) in H.
    destruct (decode_run _ _); [congruence|done].
Qed.

Lemma record_run_canonical_witness :
  decode_wal_record_run (encode_records [mkRecord 7 [x61; x62]; mkRecord 9 []]) =
  Ok [mkRecord 7 [x61; x62]; mkRecord 9 []].
Proof.
  apply (record_run_canonical (encode_records [mkRecord 7 [x61; x62]; mkRecord 9 []])
    [mkRecord 7 [x61; x62]; mkRecord 9 []]).
  - vm_compute. discriminate.
  - split; [done|]. records_ok.
Defined.

(** The strict reader is exact: the bytes of a written segment, followed by nothing or
    by a preallocated zero tail, read back as the records that were written; every file it
    accepts is such a segment; and the tolerant reader returns the same records for it. *)
Theorem strict_reader_exact (path : string) (rs : list WalRecord) (Hrs : Forall record_ok rs) :
  (forall k, k = 0%nat \/ (24 <= k)%nat ->
    read_wal_segment path (segment_bytes rs ++ replicate k x00) = Some (Ok rs)) /\
  (forall bytes, read_wal_segment path bytes = Some (Ok rs) ->
    (exists tail, bytes = segment_bytes rs ++ tail /\ clean_tail tail) /\
    exists torn, recover_wal_segment path 0 (Some bytes) =
      Ok (mkSegmentRecovery rs (vec_len (segment_bytes rs)) torn)).
Proof.
  split.
  - intros k Hk. unfold segment_bytes. rewrite <- app_assoc, read_segment_tail.
    apply read_records_encoded; [done|rewrite !length_app; lia|].
    destruct Hk as [->|Hk]; [by left|right; by exists k].
  - intros bytes Hr. destruct (read_segment_magic _ _ _ Hr) as [rest ->].
    rewrite read_segment_tail in Hr. apply read_records_sound in Hr as (tail & -> & Ht & _);
      [|rewrite length_app; lia].
    split; [exists tail; unfold segment_bytes; by rewrite <- app_assoc|].
    pose proof (recover_segment_spec path 0 (encode_records rs ++ tail)) as H.
    rewrite (valid_prefix_encoded rs tail Hrs), (valid_prefix_clean tail Ht) in H.
    cbn [fst snd] in H. rewrite app_nil_r in H. cbv zeta in H.
    rewrite (proj2 (Z.ltb_ge _ _)) in H by (unfold vec_len; lia). by eexists.
Qed.

Lemma strict_reader_exact_witness :
  read_wal_segment "wal" (segment_bytes [mkRecord 7 [x61]] ++ replicate 30 x00) = Some (Ok [mkRecord 7 [x61]]).
Proof.
  refine (proj1 (strict_reader_exact "wal" [mkRecord 7 [x61]] _) 30%nat _); [|lia].
  records_ok.
Defined.

(** [C22] Crash recovery returns the longest run of valid records at the start of the
    segment: nothing intact is dropped and nothing invalid is returned.  It fails exactly
    when that run ends before the recorded durable tail; otherwise [valid_bytes] is the
    length of the run on disk, and [discarded_torn_bytes] counts what follows it, a
    preallocated zero tail excepted. *)
Theorem recover_longest_prefix (path : string) (recorded_tail : Z) (body : list byte) :
  let '(rs, junk) := valid_prefix body in
  body = encode_records rs ++ junk /\
  (forall rs' junk', Forall record_ok rs' -> body = encode_records rs' ++ junk' -> rs' `prefix_of` rs) /\
  let v := vec_len (segment_bytes rs) in
  if v <? recorded_tail then
    exists e, recover_wal_segment path recorded_tail (Some (WAL_SEGMENT_MAGIC ++ body)) = Err e
  else recover_wal_segment path recorded_tail (Some (WAL_SEGMENT_MAGIC ++ body)) =
       Ok (mkSegmentRecovery rs v (torn_bytes junk)).
Proof.
  pose proof (recover_segment_spec path recorded_tail body) as Hspec.
  pose proof (valid_prefix_split body) as Hs.
  destruct (valid_prefix body) as [rs junk] eqn:E. destruct Hs as (Hb & _ & _).
  split_and!; [done| |done]. intros rs' junk' Hok E'.
  rewrite E', valid_prefix_encoded in E by done. injection E as <- _.
  by apply prefix_app_r.
Qed.

(** A crash that leaves any number of bytes of the log on disk, at or beyond the
    recorded durable tail, loses no durable record: recovery succeeds with exactly the
    records whose bytes were completely written, which include the durable ones, and
    reports the rest as torn. *)
Theorem crash_recovers_written (path : string) (rs : list WalRecord) (durable n : nat)
    (Hrs : Forall record_ok rs)
    (Hdur : vec_len (segment_bytes (take durable rs)) <= Z.of_nat n)
    (Hn : Z.of_nat n <= vec_len (segment_bytes rs)) :
  exists k, (durable `min` length rs <= k <= length rs)%nat /\
    vec_len (segment_bytes (take k rs)) <= Z.of_nat n /\
    ((k < length rs)%nat -> Z.of_nat n < vec_len (segment_bytes (take (S k) rs))) /\
    recover_wal_segment path (vec_len (segment_bytes (take durable rs)))
      (Some (take n (segment_bytes rs))) =
    Ok (mkSegmentRecovery (take k rs) (vec_len (segment_bytes (take k rs)))
         (Z.of_nat n - vec_len (segment_bytes (take k rs)))).
Proof.
  pose proof (segment_bytes_len rs) as Hl. pose proof (segment_bytes_len (take durable rs)) as Hld.
  replace (take n (segment_bytes rs)) with (WAL_SEGMENT_MAGIC ++ take (n - 10) (encode_records rs))
    by (unfold segment_bytes; rewrite take_app_ge; [done|cbn; unfold vec_len in *; lia]).
  destruct (valid_prefix_truncated rs (n - 10) Hrs ltac:(unfold vec_len in *; lia))
    as (k & junk & E & Ht & Hk & Hmax).
  pose proof (segment_bytes_len (take k rs)) as Hlk.
  pose proof (valid_prefix_split (take (n - 10) (encode_records rs))) as Hs. rewrite E in Hs.
  destruct Hs as (Hs & _ & _). apply (f_equal vec_len) in Hs. rewrite vec_len_app in Hs.
  assert (vec_len (take (n - 10) (encode_records rs)) = Z.of_nat n - 10) as Hlt
    by (unfold vec_len in *; rewrite length_take; lia).
  assert ((k < length rs)%nat -> Z.of_nat n < vec_len (segment_bytes (take (S k) rs))) as Hnext.
  { intros Hlk'. rewrite segment_bytes_len. specialize (Hmax Hlk'). unfold vec_len in *. lia. }
  assert (durable `min` length rs <= k)%nat as Hdk.
  { destruct (decide (durable `min` length rs <= k)%nat) as [|Hc]; [done|].
    pose proof (segment_bytes_take_mono rs (S k) durable ltac:(lia)). specialize (Hnext ltac:(lia)). lia. }
  pose proof (segment_bytes_take_mono rs (durable `min` length rs) k Hdk) as Hmono.
  rewrite take_min_length in Hmono.
  pose proof (recover_segment_spec path (vec_len (segment_bytes (take durable rs)))
    (take (n - 10) (encode_records rs))) as Hspec.
  rewrite E in Hspec. cbv zeta in Hspec. rewrite (proj2 (Z.ltb_ge _ _)) in Hspec by lia.
  exists k. split_and!; [lia|lia|unfold vec_len in *; lia|done|].
  rewrite Hspec, Ht. do 2 f_equal. lia.
Qed.

Lemma crash_recovers_written_witness :
  let rs := [mkRecord 1 [x61]; mkRecord 2 []] in
  exists k, (1 <= k <= 2)%nat /\
    recover_wal_segment "wal" 35 (Some (take 50 (segment_bytes rs))) =
    Ok (mkSegmentRecovery (take k rs) (vec_len (segment_bytes (take k rs)))
         (50 - vec_len (segment_bytes (take k rs)))).
Proof.
  intros rs. destruct (crash_recovers_written "wal" rs 1 50) as (k & Hk & _ & _ & E).
  - records_ok.
  - vm_compute. discriminate.
  - vm_compute. discriminate.
  - exists k. split; [exact Hk|exact E].
Defined.

(** A header with a payload length beyond [isize::MAX] makes the strict reader panic while
    allocating the payload buffer, where the tolerant reader reports a torn tail. *)
Lemma corrupt_length_panics :
  let bytes := WAL_SEGMENT_MAGIC ++ to_le_bytes 8 1 ++ to_le_bytes 8 isize_max ++ to_le_bytes 8 0 in
  let bytes' := WAL_SEGMENT_MAGIC ++ to_le_bytes 8 1 ++ to_le_bytes 8 (isize_max + 1) ++ to_le_bytes 8 0 in
  (exists e, read_wal_segment "wal" bytes = Some (Err e)) /\
  read_wal_segment "wal" bytes' = None /\
  recover_wal_segment "wal" 0 (Some bytes') = Ok (mkSegmentRecovery [] 10 24).
Proof. split_and!; [eexists|..]; by vm_compute. Qed.

End WalProps.
