(* ===== verification/Sidecar.v ===== *)
(** * Control-file helpers of the WAL (crates/wal/src/sidecar_checksum.rs and lib.rs)

    The SHA-256 trailer of checksummed control files, [key=value] lines, and the advisory
    tail-offset sidecar of a live segment.  [sha256] is the digest of the [sha2] crate. *)

From stdpp Require Import base gmap strings list pretty.
From Stdlib Require Import Strings.Ascii.
From S2P Require Import Prelude Types Bytes Text Paths WalSegment.

Module Sidecar.
Import Text Paths.

Section sha256.
Context (sha256 : list byte -> list byte).

(** ** SHA-256 trailers *)

Definition append_sha256_trailer (body : string) : string :=
  body +:+ "sha256=" +:+ hex (sha256 (as_bytes body)) +:+ newline.

Definition verify_sha256_trailer (body : string) (path : Path) : result string EngineError :=
  let shown := display path in
  match rsplit_at "sha256=" body with
  | None =>
      Err (Durability ("checksummed durability artifact " +:+ shown +:+ " has no SHA-256 trailer"))
  | Some (protected, trailer) =>
      if negb (bool_decide (protected = EmptyString)) &&
         negb (bool_decide (last_char protected = Some nl)) then
        Err (Durability ("malformed SHA-256 trailer in " +:+ shown))
      else
        match strip_prefix "sha256=" trailer with
        | None => Err (Durability EmptyString)
        | Some raw =>
            match strip_suffix_char nl raw with
            | None => Err (Durability ("unterminated SHA-256 trailer in " +:+ shown))
            | Some raw =>
                if negb (str_len raw =? 64) || negb (all_chars is_ascii_hexdigit raw) then
                  Err (Durability ("invalid SHA-256 trailer in " +:+ shown))
                else
                  let expected := hex (sha256 (as_bytes protected)) in
                  if negb (eq_ignore_ascii_case raw expected) then
                    Err (Durability ("SHA-256 checksum mismatch in " +:+ shown))
                  else Ok protected
            end
        end
  end.

End sha256.

(** ** [key=value] lines *)

Definition parse_control_value (line : option string) (key : string) (path : Path)
    : result string EngineError :=
  match line with
  | None => Err (Durability ("missing WAL control field " +:+ key +:+ " in " +:+ display path))
  | Some line =>
      ok_or (strip_prefix (key +:+ "=") line)
        (Durability ("invalid WAL control field " +:+ key +:+ " in " +:+ display path))
  end.

(** ** The tail-offset sidecar *)

Definition WAL_TAIL_MAGIC : string := "GPUDBWALTAIL1".

Definition wal_tail_offset_path (segment_path : Path) : Path :=
  with_file_name segment_path (default "wal.segment" (file_name segment_path) +:+ ".tail").

Definition temporary_control_path (pid : Z) (path : Path) : Path :=
  with_file_name path ("." +:+ default "wal.control" (file_name path) +:+ ".tmp." +:+ pretty pid).

Definition write_wal_tail_offset (pid : Z) (fs : Fs) (segment_path : Path) (durable_bytes : Z) : Fs :=
  let path := wal_tail_offset_path segment_path in
  let tmp_path := temporary_control_path pid path in
  let body := WAL_TAIL_MAGIC +:+ newline +:+ pretty durable_bytes +:+ newline in
  install fs tmp_path path (as_bytes body).

Definition read_wal_tail_offset (fs : Fs) (segment_path : Path) : Z :=
  match read_to_string fs (wal_tail_offset_path segment_path) with
  | Err _ => 0
  | Ok body =>
      match lines body with
      | magic :: rest =>
          if negb (bool_decide (magic = WAL_TAIL_MAGIC)) then 0
          else
            match rest with
            | raw :: _ => default 0 (ok (parse_u64 raw))
            | [] => 0
            end
      | [] => 0
      end
  end.

(** [recover_wal_segment] with its two files. *)
Definition recover_live_segment (fs : Fs) (path : Path) : result Wal.WalSegmentRecovery EngineError :=
  Wal.recover_wal_segment (display path) (read_wal_tail_offset fs path) (fs !! path).

End Sidecar.

(** * Facts about control files

    Texts made of clean lines split back into them, a SHA-256 trailer verifies, and the
    tail-offset sidecar reads back what was written. *)

Module SidecarFacts.
Import Text Paths Sidecar.

#[local] Arguments bool_decide : simpl never.
#[local] Arguments String.append !_ _ : simpl nomatch.

(** ** UTF-8 of concatenations *)

Lemma utf8_append_at n : forall a b o o', (length a <= n)%nat ->
  run_utf8_validation o a = None -> (forall o, run_utf8_validation o b = None) ->
  run_utf8_validation o' (a ++ b) = None.
Proof.
  induction n as [|n IH]; intros a b o o' Hn Ha Hb; [destruct a; [apply Hb|cbn in Hn; lia]|].
  destruct a as [|b1 a]; [apply Hb|]. cbn [app run_utf8_validation length] in *.
  destruct (_ =? 1); [eapply IH; [lia|exact Ha|done]|]. destruct (_ =? 0); [done|].
  destruct a as [|b2 a]; [done|]. cbn [app length] in *.
  destruct (_ =? 2).
  { destruct (continuation _); [|done]. eapply IH; [lia|exact Ha|done]. }
  destruct (negb (second_ok _ _)); [done|]. destruct a as [|b3 a]; [done|]. cbn [app length] in *.
  destruct (negb (continuation _)); [done|]. destruct (_ =? 3); [eapply IH; [lia|exact Ha|done]|].
  destruct a as [|b4 a]; [done|]. cbn [app length] in *.
  destruct (continuation _); [|done]. eapply IH; [lia|exact Ha|done].
Qed.

Lemma utf8_offset o o' v : run_utf8_validation o v = None -> run_utf8_validation o' v = None.
Proof. intros Hv. rewrite <- (app_nil_r v). by eapply utf8_append_at. Qed.

Lemma as_bytes_app s t : as_bytes (s +:+ t) = as_bytes s ++ as_bytes t.
Proof. unfold as_bytes. induction s as [|a s IH]; [done|]. cbn. f_equal. exact IH. Qed.

Lemma utf8_valid_app s t : utf8_valid s -> utf8_valid t -> utf8_valid (s +:+ t).
Proof.
  unfold utf8_valid. intros Hs Ht. rewrite as_bytes_app. eapply utf8_append_at; [done|exact Hs|].
  intros o. by eapply utf8_offset.
Qed.

(** Seven-bit text is UTF-8. *)
Definition is_ascii (a : ascii) : bool := char_val a <? 128.

(** ** Lines *)

Definition unlines (l : list string) : string :=
  List.fold_right (fun s t => s +:+ String nl t) EmptyString l.

Lemma lines_unlines l : Forall clean_line l -> lines (unlines l) = l.
Proof.
  induction 1 as [|s l Hs _ IH]; [done|]. cbn [unlines List.fold_right]. rewrite lines_cons by done.
  by f_equal.
Qed.

(** The first line of any text, and how many lines there are behind a line feed. *)
Lemma lines_first s t : contains_char nl s = false -> lines (s +:+ String nl t) = strip_cr s :: lines t.
Proof.
  intros Hn. unfold lines. rewrite split_char_app by done.
  pose proof (split_char_nonempty nl t). by destruct (split_char nl t).
Qed.

Lemma first_line s : contains_char nl s = true -> exists a b, s = a +:+ String nl b /\ contains_char nl a = false.
Proof.
  induction s as [|x s IH]; [done|]. cbn. case_bool_decide as E; [subst; intros _; by exists EmptyString, s|].
  intros (a & b & -> & Ha)%IH. exists (String x a), b. split; [done|]. cbn. by rewrite bool_decide_eq_false_2.
Qed.

Lemma lines_longer s t : (S (length (lines t)) <= length (lines (s +:+ String nl t)))%nat.
Proof.
  remember (String.length s) as n eqn:E. revert s E. induction (lt_wf n) as [n _ IH]; intros s ->.
  destruct (contains_char nl s) eqn:Hs; [|by rewrite lines_first].
  destruct (first_line s Hs) as (a & b & -> & Ha).
  assert ((a +:+ String nl b) +:+ String nl t = a +:+ String nl (b +:+ String nl t)) as -> by (by rewrite string_app_assoc).
  rewrite lines_first by done. cbn [length]. apply le_S, (IH (String.length b)); [rewrite length_append; cbn; lia|done].
Qed.

Lemma string_app_cons a (s t : string) : String a s +:+ t = String a (s +:+ t).
Proof. done. Qed.

Lemma string_app_nil (t : string) : EmptyString +:+ t = t.
Proof. done. Qed.

(** Normal form of concatenations: literals as characters, everything to the right. *)
Ltac text_norm := repeat rewrite ?string_app_assoc, ?string_app_cons, ?string_app_nil.

Lemma unlines_app l1 l2 : unlines (l1 ++ l2) = unlines l1 +:+ unlines l2.
Proof.
  induction l1 as [|s l1 IH]; [done|].
  change (unlines ((s :: l1) ++ l2)) with (s +:+ String nl (unlines (l1 ++ l2))).
  change (unlines (s :: l1)) with (s +:+ String nl (unlines l1)).
  rewrite IH, string_app_assoc. done.
Qed.

Lemma clean_line_app s t : clean_line s -> clean_line t -> clean_line (s +:+ t).
Proof. intros [??] [??]. split; rewrite contains_char_app; by apply orb_false_iff. Qed.

Lemma clean_pretty z : 0 <= z -> clean_line (pretty z).
Proof. intros Hz. split; by apply pretty_lacks. Qed.

Lemma last_char_app s a : last_char (s +:+ String a EmptyString) = Some a.
Proof. induction s as [|b s IH]; [done|]. cbn. by destruct (s +:+ _) eqn:E; [destruct s|]. Qed.

Lemma unlines_last l : l <> [] -> last_char (unlines l) = Some nl.
Proof.
  intros Hl. destruct l as [|s l _] using rev_ind; [done|]. rewrite unlines_app. cbn.
  rewrite <- string_app_assoc. apply last_char_app.
Qed.

(** ** Trailers *)

Lemma rsplit_at_app p s t :
  rsplit_at p t = Some (EmptyString, t) -> rsplit_at p (s +:+ t) = Some (s, t).
Proof. intros Ht. induction s as [|a s IH]; cbn; [done|]. by rewrite IH. Qed.

Lemma rsplit_at_none a p s : contains_char a s = false -> rsplit_at (String a p) s = None.
Proof.
  induction s as [|b s IH]; [done|]. cbn. intros [Hb Hs]%orb_false_iff. rewrite IH by done.
  unfold starts_with. cbn. rewrite bool_decide_eq_false_2; [done|].
  intros ->. by rewrite bool_decide_eq_true_2 in Hb.
Qed.

Lemma rsplit_at_head p a s :
  rsplit_at p s = None -> starts_with p (String a s) = true ->
  rsplit_at p (String a s) = Some (EmptyString, String a s).
Proof. intros Hs Hp. cbn. by rewrite Hs, Hp. Qed.

Lemma hex_byte_digits b : all_chars is_ascii_hexdigit (hex_byte b) = true.
Proof. by destruct b. Qed.

Lemma hex_digits l : all_chars is_ascii_hexdigit (hex l) = true.
Proof.
  induction l as [|b l IH]; [done|].
  change (hex (b :: l)) with (hex_byte b +:+ hex l). by rewrite all_chars_app, hex_byte_digits.
Qed.

Lemma str_len_app s t : str_len (s +:+ t) = str_len s + str_len t.
Proof. unfold str_len. induction s as [|a s IH]; cbn; [done|]. cbn in IH. lia. Qed.

Lemma hex_len l : str_len (hex l) = 2 * vec_len l.
Proof.
  induction l as [|b l IH]; [done|].
  change (hex (b :: l)) with (hex_byte b +:+ hex l). rewrite str_len_app, IH.
  unfold vec_len. cbn [length]. change (str_len (hex_byte b)) with 2. lia.
Qed.

Lemma strip_suffix_app s c : strip_suffix_char c (s +:+ String c EmptyString) = Some s.
Proof.
  induction s as [|a s IH]; cbn; [by rewrite bool_decide_eq_true_2|].
  destruct (s +:+ String c EmptyString) eqn:E; [by destruct s|]. by rewrite IH.
Qed.

Lemma trailer_round_trip sha256 body path :
  (forall l, length (sha256 l) = 32%nat) -> body = EmptyString \/ last_char body = Some nl ->
  verify_sha256_trailer sha256 (append_sha256_trailer sha256 body) path = Ok body.
Proof.
  intros Hsha Hbody. unfold append_sha256_trailer.
  set (digest := hex (sha256 (as_bytes body))).
  assert (all_chars is_ascii_hexdigit digest = true) as Hdig by apply hex_digits.
  assert (str_len digest = 64) as Hlen.
  { unfold digest. rewrite hex_len. unfold vec_len. by rewrite Hsha. }
  assert (contains_char "s" ("ha256=" +:+ digest +:+ newline) = false) as Hs.
  { rewrite !contains_char_app. rewrite (contains_char_all "s" is_ascii_hexdigit digest) by done. done. }
  unfold verify_sha256_trailer. rewrite (rsplit_at_app _ body ("sha256=" +:+ digest +:+ newline)).
  2: { apply (rsplit_at_head "sha256=" "s" ("ha256=" +:+ digest +:+ newline)); [by apply rsplit_at_none|].
       unfold starts_with.
       change (String "s" ("ha256=" +:+ digest +:+ newline)) with ("sha256=" +:+ digest +:+ newline).
       by rewrite strip_prefix_app. }
  rewrite strip_prefix_app. unfold newline at 1. rewrite strip_suffix_app.
  replace (negb (bool_decide (body = EmptyString)) && negb (bool_decide (last_char body = Some nl))) with false.
  2: { destruct Hbody as [-> | ->]; [done|]. by rewrite (bool_decide_eq_true_2 (Some nl = Some nl)), andb_false_r. }
  rewrite Hlen, Hdig. cbn [Z.eqb negb orb].
  unfold eq_ignore_ascii_case. by rewrite bool_decide_eq_true_2.
Qed.

Lemma byte_of_ascii_val a : byte_val (byte_of_ascii a) = char_val a.
Proof. by destruct a as [[] [] [] [] [] [] [] []]. Qed.

Lemma utf8_ascii s : all_chars is_ascii s = true -> utf8_valid s.
Proof.
  unfold utf8_valid. generalize 0. induction s as [|a s IH]; intros o; [done|].
  cbn [all_chars]. intros [Ha Hs]%andb_true_iff.
  change (as_bytes (String a s)) with (byte_of_ascii a :: as_bytes s). cbn [run_utf8_validation].
  unfold utf8_char_width. rewrite byte_of_ascii_val. unfold is_ascii in Ha. rewrite Ha. cbn [Z.eqb].
  by apply IH.
Qed.

Lemma all_chars_impl p q s :
  (forall a, p a = true -> q a = true) -> all_chars p s = true -> all_chars q s = true.
Proof.
  intros Hpq. induction s as [|a s IH]; [done|]. cbn. intros [Ha Hs]%andb_true_iff.
  rewrite (Hpq _ Ha). by apply IH.
Qed.

Lemma utf8_pretty z : 0 <= z -> utf8_valid (pretty z).
Proof.
  intros Hz. apply utf8_ascii. eapply all_chars_impl; [|by apply pretty_digits].
  intros a. unfold is_digit, between, is_ascii. rewrite andb_true_iff, !Z.leb_le, Z.ltb_lt. lia.
Qed.

Lemma utf8_hex l : utf8_valid (hex l).
Proof.
  apply utf8_ascii. eapply all_chars_impl; [|apply hex_digits].
  intros a. unfold is_ascii_hexdigit, between, is_ascii.
  rewrite !orb_true_iff, !andb_true_iff, !Z.leb_le, Z.ltb_lt. lia.
Qed.

Lemma utf8_unlines l : Forall utf8_valid l -> utf8_valid (unlines l).
Proof.
  induction 1 as [|s l Hs _ IH]; [done|]. cbn. apply utf8_valid_app; [done|].
  change (String nl (List.fold_right (fun s t => s +:+ String nl t) EmptyString l))
    with (String nl EmptyString +:+ unlines l). by apply utf8_valid_app.
Qed.

Lemma utf8_trailer sha256 body : utf8_valid body -> utf8_valid (append_sha256_trailer sha256 body).
Proof.
  intros Hb. unfold append_sha256_trailer.
  repeat apply utf8_valid_app; [done|by apply utf8_ascii|apply utf8_hex|by apply utf8_ascii].
Qed.

(** Reading back a file that was just installed. *)
Lemma read_installed fs tmp path body :
  utf8_valid body -> read_to_string (install fs tmp path (as_bytes body)) path = Ok body.
Proof.
  intros Hb. unfold read_to_string, install. by rewrite lookup_insert_eq, from_utf8_as_bytes.
Qed.

(** The tail offset that was recorded is the one recovery reads. *)
Lemma tail_offset_round_trip pid fs path n :
  is_u64 n -> read_wal_tail_offset (write_wal_tail_offset pid fs path n) path = n.
Proof.
  intros Hn. unfold read_wal_tail_offset, write_wal_tail_offset.
  assert (0 <= n) by apply Hn.
  change (WAL_TAIL_MAGIC +:+ newline +:+ pretty n +:+ newline) with (unlines [WAL_TAIL_MAGIC; pretty n]).
  rewrite read_installed, lines_unlines.
  - rewrite bool_decide_eq_true_2 by done. cbn. by rewrite parse_pretty.
  - repeat constructor; by apply pretty_lacks.
  - apply utf8_unlines. repeat constructor. by apply utf8_pretty.
Qed.

End SidecarFacts.
