(* ===== verification/Archive.v ===== *)
(** * The WAL archive (crates/wal/src/lib.rs)

    Archived segments with their text manifest: rendering and reading the manifest,
    validating it against the segments, point-in-time reads by transaction and by
    timestamp, retention plans, and ingestion of a further segment.  Files are an explicit
    [Fs]; [None] is a panic. *)

From stdpp Require Import base gmap strings list pretty.
From Stdlib Require Import Strings.Ascii.
From S2P Require Import Prelude Types Bytes Text Paths WalSegment Sidecar.

Module Archive.
Import Text Paths Wal Sidecar.

(** The [?] operator of code that may also panic. *)
Declare Scope panic_scope.
Notation "'let!' x := e 'in' k" :=
  (match e with
   | None => None
   | Some (Err err) => Some (Err err)
   | Some (Ok x) => k
   end)
  (at level 10, x pattern, e at level 100, k at level 200) : panic_scope.
Open Scope panic_scope.

Definition fallible (A : Type) : Type := option (result A EngineError).

Definition fail {A} (msg : string) : fallible A := Some (Err (Durability msg)).

Definition WAL_ARCHIVE_MANIFEST_MAGIC_V1 : string := "GPUDBWALARCHIVE1".
Definition WAL_ARCHIVE_MANIFEST_MAGIC : string := "GPUDBWALARCHIVE2".

Record WalCheckpointMeta := mkMeta {
  durable_record_count : Z;
  last_durable_txn_id : option Z;
}.

Record WalArchiveSegment := mkSegment {
  segment_path : Path;
  record_count : Z;
  first_txn_id : option Z;
  last_txn_id : option Z;
}.

Record WalArchiveRecordTimestamp := mkTimestamp {
  ts_txn_id : Z;
  timestamp_micros : Z;
}.

Record WalArchiveManifest := mkManifest {
  segments : list WalArchiveSegment;
  checkpoint : WalCheckpointMeta;
  record_timestamps : list WalArchiveRecordTimestamp;
}.

Record WalArchiveRecoveryTarget := mkTarget {
  target_txn_id : Z;
  recovered_record_count : Z;
  last_recovered_txn_id : Z;
}.

Record WalArchiveTimestampRecoveryTarget := mkTimestampTarget {
  tt_timestamp_micros : Z;
  tt_txn_id : Z;
  tt_recovered_record_count : Z;
  tt_last_recovered_txn_id : Z;
}.

Record WalArchiveRetentionPlan := mkPlan {
  plan_target_txn_id : Z;
  retained_record_count : Z;
  removed_record_count : Z;
  retained_manifest : WalArchiveManifest;
  removed_segments : list Path;
}.

(** ** Rendering the manifest *)

Definition format_optional_txn (txn : option Z) : string :=
  match txn with Some t => pretty t | None => "none" end.

Definition render_segment (s : WalArchiveSegment) : string :=
  "segment=" +:+ display (segment_path s) +:+ "|" +:+ pretty (record_count s) +:+ "|" +:+
  format_optional_txn (first_txn_id s) +:+ "|" +:+ format_optional_txn (last_txn_id s) +:+ newline.

Fixpoint render_segments (l : list WalArchiveSegment) : result string EngineError :=
  match l with
  | [] => Ok EmptyString
  | s :: l =>
      if contains_char "|" (display (segment_path s)) then
        Err (Durability ("WAL archive segment path contains unsupported delimiter: " +:+
                         display (segment_path s)))
      else
        let? rest := render_segments l in
        Ok (render_segment s +:+ rest)
  end.

Definition render_timestamp (t : WalArchiveRecordTimestamp) : string :=
  "record_timestamp=" +:+ pretty (ts_txn_id t) +:+ "|" +:+ pretty (timestamp_micros t) +:+ newline.

Definition render_timestamps (l : list WalArchiveRecordTimestamp) : string :=
  List.fold_right (fun t s => render_timestamp t +:+ s) EmptyString l.

Definition render_wal_archive_manifest_body (m : WalArchiveManifest) : result string EngineError :=
  let header :=
    WAL_ARCHIVE_MANIFEST_MAGIC +:+ newline +:+
    "durable_record_count=" +:+ pretty (durable_record_count (checkpoint m)) +:+ newline +:+
    "last_durable_txn_id=" +:+ format_optional_txn (last_durable_txn_id (checkpoint m)) +:+ newline +:+
    "segments=" +:+ pretty (vec_len (segments m)) +:+ newline in
  let? segs := render_segments (segments m) in
  Ok (header +:+ segs +:+ render_timestamps (record_timestamps m)).

(** ** Validation *)

Definition record_txn (r : WalRecord) : Z := Wal.txn_id r.

Definition first_txn (l : list WalRecord) : option Z := record_txn <$> head l.
Definition last_txn (l : list WalRecord) : option Z := record_txn <$> last l.

(** The first pair of neighbours that satisfies [bad], as [windows(2)] meets them. *)
Fixpoint bad_window {A} (bad : A -> A -> bool) (l : list A) : option (A * A) :=
  match l with
  | x :: ((y :: _) as rest) => if bad x y then Some (x, y) else bad_window bad rest
  | _ => None
  end.

(** [Iterator::sum] on [usize]. *)
Definition sum_counts (l : list WalArchiveSegment) : Z :=
  List.fold_left (fun acc s => u64_add acc (record_count s)) l 0.

Definition validate_archive_manifest_shape (manifest_path : Path) (m : WalArchiveManifest)
    : result unit EngineError :=
  let shown := display manifest_path in
  let segment_records := sum_counts (segments m) in
  let durable := durable_record_count (checkpoint m) in
  if negb (segment_records =? durable) then
    Err (Durability ("WAL archive " +:+ shown +:+ " expected " +:+ pretty durable +:+
      " durable records but manifest segments describe " +:+ pretty segment_records))
  else if (vec_len (segments m) =? 0) && bool_decide (last_durable_txn_id (checkpoint m) <> None) then
    Err (Durability ("WAL archive " +:+ shown +:+
      " has no segments but records a last durable transaction"))
  else if negb (vec_len (record_timestamps m) =? 0) &&
          negb (vec_len (record_timestamps m) =? durable) then
    Err (Durability ("WAL archive " +:+ shown +:+ " expected " +:+ pretty durable +:+
      " timestamp records but manifest contains " +:+ pretty (vec_len (record_timestamps m))))
  else Ok tt.

Definition not_increasing (a b : WalRecord) : bool := record_txn b <=? record_txn a.

Definition validate_archive_ingest_continuity (manifest_path : Path) (m : WalArchiveManifest)
    (segment_records : list WalRecord) : result unit EngineError :=
  let shown := display manifest_path in
  match first_txn segment_records with
  | None => Ok tt
  | Some first =>
      let? _ :=
        match last_durable_txn_id (checkpoint m) with
        | Some durable =>
            if first <=? durable then
              Err (Durability ("WAL archive " +:+ shown +:+ " ingest segment starts at transaction " +:+
                pretty first +:+ " not after durable transaction " +:+ pretty durable))
            else Ok tt
        | None => Ok tt
        end in
      match bad_window not_increasing segment_records with
      | Some (a, b) =>
          Err (Durability ("WAL archive " +:+ shown +:+
            " ingest segment has non-increasing transaction order at " +:+ pretty (record_txn a) +:+
            " then " +:+ pretty (record_txn b)))
      | None => Ok tt
      end
  end.

(** The loop of [validate_timestamp_metadata] over the zipped lists. *)
Fixpoint check_timestamps (shown : string) (rs : list WalRecord) (ts : list WalArchiveRecordTimestamp)
    : result unit EngineError :=
  match rs, ts with
  | r :: rs, t :: ts =>
      if negb (record_txn r =? ts_txn_id t) then
        Err (Durability ("WAL archive " +:+ shown +:+ " timestamp metadata transaction " +:+
          pretty (ts_txn_id t) +:+ " does not match record transaction " +:+ pretty (record_txn r)))
      else check_timestamps shown rs ts
  | _, _ => Ok tt
  end.

Definition validate_timestamp_metadata (manifest_path : Path) (records : list WalRecord)
    (ts : list WalArchiveRecordTimestamp) : result unit EngineError :=
  let shown := display manifest_path in
  if vec_len ts =? 0 then Ok tt
  else if negb (vec_len ts =? vec_len records) then
    Err (Durability ("WAL archive " +:+ shown +:+ " expected " +:+ pretty (vec_len records) +:+
      " timestamp records but received " +:+ pretty (vec_len ts)))
  else check_timestamps shown records ts.

Definition validate_archive_ingest_timestamps (manifest_path : Path) (m : WalArchiveManifest)
    (segment_records : list WalRecord) (ts : list WalArchiveRecordTimestamp) : result unit EngineError :=
  let shown := display manifest_path in
  let? _ :=
    match vec_len (record_timestamps m) =? 0, durable_record_count (checkpoint m) =? 0, vec_len ts =? 0 with
    | true, true, _ => Ok tt
    | true, _, true => Ok tt
    | true, _, false =>
        Err (Durability ("WAL archive " +:+ shown +:+
          " cannot add timestamp metadata to an existing archive without timestamps"))
    | false, _, true =>
        Err (Durability ("WAL archive " +:+ shown +:+
          " requires timestamp metadata for ingested segment"))
    | false, _, false => Ok tt
    end in
  let? _ := validate_timestamp_metadata manifest_path segment_records ts in
  match timestamp_micros <$> last (record_timestamps m), timestamp_micros <$> head ts with
  | Some existing_last, Some appended_first =>
      if appended_first <? existing_last then
        Err (Durability ("WAL archive " +:+ shown +:+ " ingest segment timestamp " +:+
          pretty appended_first +:+ " is before last archived timestamp " +:+ pretty existing_last))
      else Ok tt
  | _, _ => Ok tt
  end.

Definition validate_archive_segment (manifest_path : Path) (s : WalArchiveSegment)
    (records : list WalRecord) : result unit EngineError :=
  let shown := display manifest_path in
  if negb (vec_len records =? record_count s) then
    Err (Durability ("WAL archive " +:+ shown +:+ " segment " +:+ display (segment_path s) +:+
      " expected " +:+ pretty (record_count s) +:+ " records but contains " +:+ pretty (vec_len records)))
  else
    let actual_first := first_txn records in
    let actual_last := last_txn records in
    if negb (bool_decide (actual_first = first_txn_id s)) ||
       negb (bool_decide (actual_last = last_txn_id s)) then
      Err (Durability ("WAL archive " +:+ shown +:+ " segment " +:+ display (segment_path s) +:+
        " expected txn range " +:+ debug_option (first_txn_id s) +:+ ".." +:+
        debug_option (last_txn_id s) +:+ " but contains " +:+ debug_option actual_first +:+ ".." +:+
        debug_option actual_last))
    else Ok tt.

Definition validate_archive_records (manifest_path : Path) (m : WalArchiveManifest)
    (records : list WalRecord) : result unit EngineError :=
  let shown := display manifest_path in
  let durable := durable_record_count (checkpoint m) in
  if negb (vec_len records =? durable) then
    Err (Durability ("WAL archive " +:+ shown +:+ " expected " +:+ pretty durable +:+
      " durable records but read " +:+ pretty (vec_len records)))
  else
    let actual_last := last_txn records in
    if negb (bool_decide (actual_last = last_durable_txn_id (checkpoint m))) then
      Err (Durability ("WAL archive " +:+ shown +:+ " expected last durable txn " +:+
        debug_option (last_durable_txn_id (checkpoint m)) +:+ " but read " +:+ debug_option actual_last))
    else
      match bad_window not_increasing records with
      | Some (a, b) =>
          Err (Durability ("WAL archive " +:+ shown +:+
            " has non-increasing transaction order at " +:+ pretty (record_txn a) +:+ " then " +:+
            pretty (record_txn b)))
      | None => Ok tt
      end.

Definition decreasing_time (a b : WalArchiveRecordTimestamp) : bool :=
  timestamp_micros b <? timestamp_micros a.

Definition validate_archive_timestamps (manifest_path : Path) (m : WalArchiveManifest)
    (records : list WalRecord) : result unit EngineError :=
  let? _ := validate_timestamp_metadata manifest_path records (record_timestamps m) in
  match bad_window decreasing_time (record_timestamps m) with
  | Some (a, b) =>
      Err (Durability ("WAL archive " +:+ display manifest_path +:+ " has decreasing timestamp order at " +:+
        pretty (timestamp_micros a) +:+ " then " +:+ pretty (timestamp_micros b)))
  | None => Ok tt
  end.

(** ** Reading the manifest *)

Definition invalid_number {A} (what : string) (path : Path) (e : IntErrorKind) : result A EngineError :=
  Err (Durability ("invalid WAL archive " +:+ what +:+ " " +:+ display path +:+ ": " +:+
                   IntErrorKind_to_string e)).

(** [.parse().map_err(...)] *)
Definition parse_number (what : string) (path : Path) (raw : string) : result Z EngineError :=
  match parse_u64 raw with
  | Ok n => Ok n
  | Err e => invalid_number what path e
  end.

Definition parse_optional_txn (raw field : string) (path : Path) : result (option Z) EngineError :=
  if bool_decide (raw = "none") then Ok None
  else let? n := parse_number field path raw in Ok (Some n).

Definition missing {A} (what : string) (path : Path) : result A EngineError :=
  Err (Durability ("missing WAL archive " +:+ what +:+ " in " +:+ display path)).

(** One [segment=] line, after the key: [parts] is [raw.split('|')]. *)
Definition parse_segment (raw : string) (path : Path) : result WalArchiveSegment EngineError :=
  match split_char "|" raw with
  | [] => Err (Durability ("invalid WAL archive segment in " +:+ display path))
  | [_] => missing "segment record count" path
  | seg :: count :: parts =>
      let? record_count := parse_number "segment record count" path count in
      match parts with
      | [] => missing "segment first txn" path
      | first :: parts =>
          let? first_txn_id := parse_optional_txn first "segment first txn" path in
          match parts with
          | [] => missing "segment last txn" path
          | last :: parts =>
              let? last_txn_id := parse_optional_txn last "segment last txn" path in
              match parts with
              | [] => Ok (mkSegment (from_str seg) record_count first_txn_id last_txn_id)
              | _ => Err (Durability ("invalid WAL archive segment field count in " +:+ display path))
              end
          end
      end
  end.

(** [for _ in 0..segment_count], each turn taking the next line. *)
Fixpoint parse_segments (ls : list string) (count : Z) (path : Path)
    : result (list WalArchiveSegment * list string) EngineError :=
  if count <=? 0 then Ok ([], ls)
  else
    match ls with
    | [] => let? _ := parse_control_value None "segment" path in Ok ([], ls)
    | line :: ls =>
        let? raw := parse_control_value (Some line) "segment" path in
        let? segment := parse_segment raw path in
        let? (rest, ls) := parse_segments ls (count - 1) path in
        Ok (segment :: rest, ls)
    end.

(** One [record_timestamp=] line, after the key. *)
Definition parse_timestamp (raw : string) (path : Path) : result WalArchiveRecordTimestamp EngineError :=
  match split_char "|" raw with
  | [] => missing "record timestamp txn" path
  | txn :: parts =>
      let? txn_id := parse_number "record timestamp txn" path txn in
      match parts with
      | [] => missing "record timestamp value" path
      | micros :: parts =>
          let? timestamp_micros := parse_number "record timestamp value" path micros in
          match parts with
          | [] => Ok (mkTimestamp txn_id timestamp_micros)
          | _ =>
              Err (Durability ("invalid WAL archive record timestamp field count in " +:+ display path))
          end
      end
  end.

Fixpoint parse_timestamps (ls : list string) (path : Path)
    : result (list WalArchiveRecordTimestamp) EngineError :=
  match ls with
  | [] => Ok []
  | line :: ls =>
      let? raw := parse_control_value (Some line) "record_timestamp" path in
      let? t := parse_timestamp raw path in
      let? rest := parse_timestamps ls path in
      Ok (t :: rest)
  end.

(** [size_of::<WalArchiveSegment>()]: a [PathBuf], a [usize] and two [Option<u64>]. *)
Definition size_of_segment : Z := 64.

Definition bad_header {A} (path : Path) : result A EngineError :=
  Err (Durability ("invalid WAL archive manifest header " +:+ display path)).

(** The body after the header line; [None] is the capacity overflow of
    [Vec::with_capacity(segment_count)]. *)
Definition parse_manifest_lines (ls : list string) (path : Path) : fallible WalArchiveManifest :=
  let! durable := Some (
    let? raw := parse_control_value (ls !! 0%nat) "durable_record_count" path in
    parse_number "durable_record_count" path raw) in
  let! last_durable := Some (
    let? raw := parse_control_value (ls !! 1%nat) "last_durable_txn_id" path in
    parse_optional_txn raw "last_durable_txn_id" path) in
  let! segment_count := Some (
    let? raw := parse_control_value (ls !! 2%nat) "segments" path in
    parse_number "segments" path raw) in
  if isize_max <? segment_count * size_of_segment then None
  else
    let! (segs, rest) := Some (parse_segments (drop 3 ls) segment_count path) in
    let! ts := Some (parse_timestamps rest path) in
    let manifest := mkManifest segs (mkMeta durable last_durable) ts in
    let! _ := Some (validate_archive_manifest_shape path manifest) in
    Some (Ok manifest).

Definition parse_manifest (body : string) (path : Path) : fallible WalArchiveManifest :=
  match lines body with
  | magic :: ls =>
      if bool_decide (magic = WAL_ARCHIVE_MANIFEST_MAGIC) ||
         bool_decide (magic = WAL_ARCHIVE_MANIFEST_MAGIC_V1) then parse_manifest_lines ls path
      else Some (bad_header path)
  | [] => Some (bad_header path)
  end.

Section archive.
Context (sha256 : list byte -> list byte).

Definition read_wal_archive_manifest (fs : Fs) (path : Path) : fallible WalArchiveManifest :=
  match read_to_string fs path with
  | Err e => fail ("failed to read WAL archive manifest " +:+ display path +:+ ": " +:+ e)
  | Ok body =>
      let! body := Some (
        match head (lines body) with
        | Some magic =>
            if bool_decide (magic = WAL_ARCHIVE_MANIFEST_MAGIC) then
              verify_sha256_trailer sha256 body path
            else if bool_decide (magic = WAL_ARCHIVE_MANIFEST_MAGIC_V1) then Ok body
            else bad_header path
        | None => bad_header path
        end) in
      parse_manifest body path
  end.

(** Every directory of the path exists or can be created. *)
Definition write_wal_archive_manifest (pid : Z) (fs : Fs) (path : Path) (m : WalArchiveManifest)
    : result Fs EngineError :=
  let? rendered := render_wal_archive_manifest_body m in
  let body := append_sha256_trailer sha256 rendered in
  Ok (install fs (temporary_control_path pid path) path (as_bytes body)).

(** ** Reading the archive *)

Definition resolve_manifest_path (manifest_path data_path : Path) : Path :=
  if absolute data_path then data_path
  else join (default (from_str ".") (parent manifest_path)) data_path.

Definition read_segment_file (fs : Fs) (path : Path) : fallible (list WalRecord) :=
  match fs !! path with
  | None => fail ("failed to open WAL segment " +:+ display path +:+ ": " +:+ not_found)
  | Some bytes => read_wal_segment (display path) bytes
  end.

Fixpoint read_segments (fs : Fs) (manifest_path : Path) (segs : list WalArchiveSegment)
    : fallible (list WalRecord) :=
  match segs with
  | [] => Some (Ok [])
  | s :: segs =>
      let! segment_records := read_segment_file fs (resolve_manifest_path manifest_path (segment_path s)) in
      let! _ := Some (validate_archive_segment manifest_path s segment_records) in
      let! rest := read_segments fs manifest_path segs in
      Some (Ok (segment_records ++ rest))
  end.

Definition read_wal_archive (fs : Fs) (manifest_path : Path)
    : fallible (WalArchiveManifest * list WalRecord) :=
  let! manifest := read_wal_archive_manifest fs manifest_path in
  let! records := read_segments fs manifest_path (segments manifest) in
  let! _ := Some (validate_archive_records manifest_path manifest records) in
  let! _ := Some (validate_archive_timestamps manifest_path manifest records) in
  Some (Ok (manifest, records)).

(** ** Point-in-time reads *)

(** [take_while(|record| record.txn_id <= target)] *)
Fixpoint take_to_txn (target : Z) (l : list WalRecord) : list WalRecord :=
  match l with
  | r :: l => if record_txn r <=? target then r :: take_to_txn target l else []
  | [] => []
  end.

Definition read_wal_archive_to_txn (fs : Fs) (manifest_path : Path) (target_txn_id : Z)
    : fallible (WalArchiveManifest * WalArchiveRecoveryTarget * list WalRecord) :=
  let shown := display manifest_path in
  let! (manifest, records) := read_wal_archive fs manifest_path in
  match first_txn records with
  | None =>
      fail ("WAL archive " +:+ shown +:+ " has no records for target transaction " +:+ pretty target_txn_id)
  | Some first_txn_id =>
      if target_txn_id <? first_txn_id then
        fail ("WAL archive " +:+ shown +:+ " target transaction " +:+ pretty target_txn_id +:+
              " is before first archived transaction " +:+ pretty first_txn_id)
      else if default 0 (last_durable_txn_id (checkpoint manifest)) <? target_txn_id then
        fail ("WAL archive " +:+ shown +:+ " target transaction " +:+ pretty target_txn_id +:+
              " is beyond last durable transaction " +:+
              debug_option (last_durable_txn_id (checkpoint manifest)))
      else
        let recovered_record_count := length (take_to_txn target_txn_id records) in
        let last_recovered := record_txn <$> records !! (recovered_record_count - 1)%nat in
        if negb (bool_decide (last_recovered = Some target_txn_id)) then
          fail ("WAL archive " +:+ shown +:+ " does not contain target transaction " +:+
                pretty target_txn_id)
        else
          Some (Ok (manifest,
                    mkTarget target_txn_id (Z.of_nat recovered_record_count) target_txn_id,
                    take recovered_record_count records))
  end.

(** The indexes [filter_map] collects: [i] is the index of the head. *)
Fixpoint matching_indexes (i : nat) (target : Z) (l : list WalArchiveRecordTimestamp) : list nat :=
  match l with
  | t :: l =>
      if timestamp_micros t =? target then i :: matching_indexes (S i) target l
      else matching_indexes (S i) target l
  | [] => []
  end.

Definition read_wal_archive_to_timestamp_micros (fs : Fs) (manifest_path : Path) (target : Z)
    : fallible (WalArchiveManifest * WalArchiveTimestampRecoveryTarget * list WalRecord) :=
  let shown := display manifest_path in
  let! (manifest, records) := read_wal_archive fs manifest_path in
  if vec_len records =? 0 then
    fail ("WAL archive " +:+ shown +:+ " has no records for target timestamp " +:+ pretty target)
  else
    match timestamp_micros <$> head (record_timestamps manifest),
          timestamp_micros <$> last (record_timestamps manifest) with
    | Some first_timestamp, Some last_timestamp =>
        if target <? first_timestamp then
          fail ("WAL archive " +:+ shown +:+ " target timestamp " +:+ pretty target +:+
                " is before first archived timestamp " +:+ pretty first_timestamp)
        else if last_timestamp <? target then
          fail ("WAL archive " +:+ shown +:+ " target timestamp " +:+ pretty target +:+
                " is beyond last durable timestamp " +:+ pretty last_timestamp)
        else
          match matching_indexes 0 target (record_timestamps manifest) with
          | [] =>
              fail ("WAL archive " +:+ shown +:+ " target timestamp " +:+ pretty target +:+
                    " falls between archived transaction boundaries")
          | [idx] =>
              match records !! idx with
              | None => None
              | Some r =>
                  Some (Ok (manifest,
                    mkTimestampTarget target (record_txn r) (Z.of_nat idx + 1) (record_txn r),
                    take (S idx) records))
              end
          | _ =>
              fail ("WAL archive " +:+ shown +:+ " target timestamp " +:+ pretty target +:+
                    " is ambiguous across multiple transaction boundaries")
          end
    | _, _ =>
        fail ("WAL archive " +:+ shown +:+ " has no timestamp metadata for target timestamp " +:+
              pretty target)
    end.

(** ** Retention plans *)

(** [slice::chunks(n)] for a positive [n]. *)
Fixpoint chunks {A} (fuel n : nat) (l : list A) : list (list A) :=
  match fuel, l with
  | S fuel, _ :: _ => take n l :: chunks fuel n (drop n l)
  | _, _ => []
  end.

Definition records_chunks (records_per_segment : Z) (records : list WalRecord) : list (list WalRecord) :=
  chunks (length records) (Z.to_nat records_per_segment) records.

(** [{:04}] *)
Definition pad4 (n : Z) : string :=
  let s := pretty n in
  String.concat EmptyString (replicate (4 - String.length s) "0") +:+ s.

Definition segment_file_name (index : nat) : string := "segment-" +:+ pad4 (Z.of_nat index + 1) +:+ ".wal".

(** The path a segment file is written to, and the path its manifest entry names. *)
Definition segment_file_path (segment_dir : Path) (index : nat) : Path :=
  join segment_dir (from_str (segment_file_name index)).

Definition manifest_segment_path (manifest_path segment_path : Path) : Path :=
  default segment_path
    (path_strip_prefix segment_path (default (from_str ".") (parent manifest_path))).

Definition chunk_segment (manifest_path segment_dir : Path) (index : nat) (chunk : list WalRecord)
    : WalArchiveSegment :=
  mkSegment (manifest_segment_path manifest_path (segment_file_path segment_dir index))
    (vec_len chunk) (first_txn chunk) (last_txn chunk).

Definition build_wal_archive_manifest (manifest_path segment_dir : Path) (records : list WalRecord)
    (records_per_segment : Z) (ts : list WalArchiveRecordTimestamp) : WalArchiveManifest :=
  mkManifest (imap (chunk_segment manifest_path segment_dir) (records_chunks records_per_segment records))
    (mkMeta (vec_len records) (last_txn records)) ts.

Definition archive_records_per_segment (manifest_path : Path) (m : WalArchiveManifest)
    : result Z EngineError :=
  let failure := Durability ("WAL archive " +:+ display manifest_path +:+
                             " has no segment sizing for retention") in
  match head (segments m) with
  | Some s => if 0 <? record_count s then Ok (record_count s) else Err failure
  | None => Err failure
  end.

Definition archive_segment_dir (manifest_path : Path) (m : WalArchiveManifest) : result Path EngineError :=
  match head (segments m) with
  | None =>
      Err (Durability ("WAL archive " +:+ display manifest_path +:+
                       " has no segment directory for retention"))
  | Some s =>
      Ok (default (from_str ".") (parent (resolve_manifest_path manifest_path (segment_path s))))
  end.

Definition segment_paths (manifest_path : Path) (m : WalArchiveManifest) : list Path :=
  (fun s => resolve_manifest_path manifest_path (segment_path s)) <$> segments m.

(** The segments of [old] no segment of [retained] is stored at. *)
Definition obsolete_segments (manifest_path : Path) (old retained : WalArchiveManifest) : list Path :=
  let retained_paths := segment_paths manifest_path retained in
  List.filter (fun p => negb (bool_decide (p ∈ retained_paths))) (segment_paths manifest_path old).

(** The part the three planners share. *)
Definition plan_retention (manifest_path : Path) (manifest : WalArchiveManifest) (target : Z)
    (retained : list WalRecord) (ts : list WalArchiveRecordTimestamp) (removed : Z)
    : result WalArchiveRetentionPlan EngineError :=
  let? records_per_segment := archive_records_per_segment manifest_path manifest in
  let? segment_dir := archive_segment_dir manifest_path manifest in
  let retained_manifest :=
    build_wal_archive_manifest manifest_path segment_dir retained records_per_segment ts in
  Ok (mkPlan target (vec_len retained) removed retained_manifest
        (obsolete_segments manifest_path manifest retained_manifest)).

Definition plan_wal_archive_retention_to_txn (fs : Fs) (manifest_path : Path) (target_txn_id : Z)
    : fallible WalArchiveRetentionPlan :=
  let! (manifest, target, retained) := read_wal_archive_to_txn fs manifest_path target_txn_id in
  Some (plan_retention manifest_path manifest target_txn_id retained
    (take (Z.to_nat (recovered_record_count target)) (record_timestamps manifest))
    (saturating_sub (durable_record_count (checkpoint manifest)) (recovered_record_count target))).

Definition plan_wal_archive_retention_to_timestamp_micros (fs : Fs) (manifest_path : Path) (micros : Z)
    : fallible WalArchiveRetentionPlan :=
  let! (manifest, target, retained) := read_wal_archive_to_timestamp_micros fs manifest_path micros in
  Some (plan_retention manifest_path manifest (tt_txn_id target) retained
    (take (Z.to_nat (tt_recovered_record_count target)) (record_timestamps manifest))
    (saturating_sub (durable_record_count (checkpoint manifest)) (tt_recovered_record_count target))).

(** [position(|record| record.txn_id == base)] *)
Fixpoint position_txn (base : Z) (l : list WalRecord) : option nat :=
  match l with
  | r :: l => if record_txn r =? base then Some 0%nat else S <$> position_txn base l
  | [] => None
  end.

Definition plan_wal_archive_retention_from_txn (fs : Fs) (manifest_path : Path) (base_txn_id : Z)
    : fallible WalArchiveRetentionPlan :=
  let shown := display manifest_path in
  let! (manifest, records) := read_wal_archive fs manifest_path in
  match first_txn records with
  | None =>
      fail ("WAL archive " +:+ shown +:+ " has no records for base transaction " +:+ pretty base_txn_id)
  | Some first =>
      if base_txn_id <? first then
        fail ("WAL archive " +:+ shown +:+ " base transaction " +:+ pretty base_txn_id +:+
              " is before first archived transaction " +:+ pretty first)
      else
        match last_durable_txn_id (checkpoint manifest) with
        | None =>
            fail ("WAL archive " +:+ shown +:+ " has no durable transaction for base transaction " +:+
                  pretty base_txn_id)
        | Some last =>
            if last <? base_txn_id then
              fail ("WAL archive " +:+ shown +:+ " base transaction " +:+ pretty base_txn_id +:+
                    " is beyond last durable transaction " +:+ pretty last)
            else
              match position_txn base_txn_id records with
              | None =>
                  fail ("WAL archive " +:+ shown +:+
                        " does not contain base backup transaction boundary " +:+ pretty base_txn_id)
              | Some start =>
                  Some (plan_retention manifest_path manifest base_txn_id (drop start records)
                    (drop start (record_timestamps manifest)) (Z.of_nat start))
              end
        end
  end.

(** ** Ingestion *)

Definition append_wal_archive_segment_with_timestamps (pid : Z) (fs : Fs)
    (manifest_path segment_path : Path) (ts : list WalArchiveRecordTimestamp)
    : fallible (WalArchiveManifest * Fs) :=
  let! (manifest, records) := read_wal_archive fs manifest_path in
  let! segment_records := read_segment_file fs segment_path in
  if vec_len segment_records =? 0 then
    fail ("WAL archive " +:+ display manifest_path +:+ " cannot ingest empty segment " +:+
          display segment_path)
  else
    let! _ := Some (validate_archive_ingest_timestamps manifest_path manifest segment_records ts) in
    let! _ := Some (validate_archive_ingest_continuity manifest_path manifest segment_records) in
    let all_records := records ++ segment_records in
    let combined := record_timestamps manifest ++ ts in
    let! _ := Some (validate_timestamp_metadata manifest_path all_records combined) in
    let entry := mkSegment (manifest_segment_path manifest_path segment_path)
      (vec_len segment_records) (first_txn segment_records) (last_txn segment_records) in
    let appended := mkManifest (segments manifest ++ [entry])
      (mkMeta (vec_len all_records) (last_txn all_records)) combined in
    let! _ := Some (validate_archive_manifest_shape manifest_path appended) in
    let! _ := Some (validate_archive_records manifest_path appended all_records) in
    let! _ := Some (validate_archive_timestamps manifest_path appended all_records) in
    let! fs' := Some (write_wal_archive_manifest pid fs manifest_path appended) in
    Some (Ok (appended, fs')).

Definition append_wal_archive_segment (pid : Z) (fs : Fs) (manifest_path segment_path : Path)
    : fallible (WalArchiveManifest * Fs) :=
  append_wal_archive_segment_with_timestamps pid fs manifest_path segment_path [].

End archive.

End Archive.
