(* ===== verification/ArchiveFacts.v ===== *)
(** * Facts about the WAL archive

    The manifest text reads back; the validators as propositions; what a read of the
    archive guarantees. *)

From stdpp Require Import base gmap strings list sorting pretty.
From Stdlib Require Import Strings.Ascii.
From S2P Require Import Prelude Types Bytes Text Paths WalSegment WalProps Sidecar Archive.

Module ArchiveFacts.
Import Text Paths Wal Sidecar SidecarFacts Archive.

#[local] Arguments bool_decide : simpl never.
#[local] Arguments String.append !_ _ : simpl nomatch.

(** ** Manifests with a faithful text *)

(** The path survives its text, and the text fits a field of a manifest line. *)
Definition path_ok (p : Path) : Prop :=
  from_str (display p) = p /\ clean_line (display p) /\
  contains_char "|" (display p) = false /\ utf8_valid (display p).

Definition option_ok (o : option Z) : Prop := match o with Some t => is_u64 t | None => True end.

Definition segment_ok (s : WalArchiveSegment) : Prop :=
  path_ok (segment_path s) /\ is_u64 (record_count s) /\
  option_ok (first_txn_id s) /\ option_ok (last_txn_id s).

Definition timestamp_ok (t : WalArchiveRecordTimestamp) : Prop :=
  is_u64 (ts_txn_id t) /\ is_u64 (timestamp_micros t).

Record manifest_ok (m : WalArchiveManifest) : Prop := mkManifestOk {
  ok_segments : Forall segment_ok (segments m);
  ok_timestamps : Forall timestamp_ok (record_timestamps m);
  ok_count : is_u64 (durable_record_count (checkpoint m));
  ok_last : option_ok (last_durable_txn_id (checkpoint m));
  ok_capacity : vec_len (segments m) * size_of_segment <= isize_max;
}.

(** ** Fields *)

Lemma format_optional_clean o : option_ok o -> clean_line (format_optional_txn o).
Proof. destruct o; cbn; [intros []; by apply clean_pretty|done]. Qed.

Lemma format_optional_no_bar o : option_ok o -> contains_char "|" (format_optional_txn o) = false.
Proof. destruct o; cbn; [intros []; by apply pretty_lacks|done]. Qed.

Lemma format_optional_utf8 o : option_ok o -> utf8_valid (format_optional_txn o).
Proof. destruct o; cbn; [intros []; by apply utf8_pretty|done]. Qed.

Lemma parse_number_pretty what path z : is_u64 z -> parse_number what path (pretty z) = Ok z.
Proof. intros Hz. unfold parse_number. by rewrite parse_pretty. Qed.

Lemma parse_optional_format o field path :
  option_ok o -> parse_optional_txn (format_optional_txn o) field path = Ok o.
Proof.
  destruct o as [t|]; cbn; [|done]. intros Ht. unfold parse_optional_txn.
  rewrite bool_decide_eq_false_2, parse_number_pretty by
    (done || intros E; pose proof (pretty_digits t ltac:(apply Ht)) as Hd; by rewrite E in Hd).
  done.
Qed.

Lemma parse_control_Some key v path line :
  line = (key +:+ "=") +:+ v -> parse_control_value (Some line) key path = Ok v.
Proof. intros ->. unfold parse_control_value. by rewrite strip_prefix_app. Qed.

(** ** Lines *)

Definition segment_text (s : WalArchiveSegment) : string :=
  display (segment_path s) +:+ String "|" (pretty (record_count s) +:+ String "|"
    (format_optional_txn (first_txn_id s) +:+ String "|" (format_optional_txn (last_txn_id s)))).

Definition segment_line (s : WalArchiveSegment) : string := "segment=" +:+ segment_text s.

Definition timestamp_text (t : WalArchiveRecordTimestamp) : string :=
  pretty (ts_txn_id t) +:+ String "|" (pretty (timestamp_micros t)).

Definition timestamp_line (t : WalArchiveRecordTimestamp) : string := "record_timestamp=" +:+ timestamp_text t.

Definition manifest_lines (m : WalArchiveManifest) : list string :=
  WAL_ARCHIVE_MANIFEST_MAGIC ::
  ("durable_record_count=" +:+ pretty (durable_record_count (checkpoint m))) ::
  ("last_durable_txn_id=" +:+ format_optional_txn (last_durable_txn_id (checkpoint m))) ::
  ("segments=" +:+ pretty (vec_len (segments m))) ::
  (segment_line <$> segments m) ++ (timestamp_line <$> record_timestamps m).

Lemma render_segments_ok l :
  Forall segment_ok l -> render_segments l = Ok (unlines (segment_line <$> l)).
Proof.
  induction 1 as [|s l Hs _ IH]; [done|]. cbn [render_segments fmap list_fmap].
  destruct Hs as ((_ & _ & Hbar & _) & _). rewrite Hbar, IH.
  change (unlines (segment_line s :: _)) with (segment_line s +:+ String nl (unlines (segment_line <$> l))).
  unfold render_segment, segment_line, segment_text, newline. cbn [unlines List.fold_right fmap list_fmap].
  by text_norm.
Qed.

Lemma render_timestamps_lines l : render_timestamps l = unlines (timestamp_line <$> l).
Proof.
  induction l as [|t l IH]; [done|].
  change (render_timestamps (t :: l)) with (render_timestamp t +:+ render_timestamps l). rewrite IH.
  unfold render_timestamp, timestamp_line, timestamp_text, newline. cbn [unlines List.fold_right fmap list_fmap].
  by text_norm.
Qed.

Lemma render_manifest_lines m :
  manifest_ok m -> render_wal_archive_manifest_body m = Ok (unlines (manifest_lines m)).
Proof.
  intros Hm. unfold render_wal_archive_manifest_body. rewrite render_segments_ok by apply Hm.
  rewrite render_timestamps_lines. f_equal. unfold manifest_lines.
  change (?a :: ?b :: ?c :: ?d :: ?l) with ([a; b; c; d] ++ l). rewrite !unlines_app.
  unfold newline. cbn [unlines List.fold_right]. by text_norm.
Qed.

Lemma clean_cons a s : clean_line (String a EmptyString) -> clean_line s -> clean_line (String a s).
Proof. apply (clean_line_app (String a EmptyString)). Qed.

Lemma utf8_cons a s : is_ascii a = true -> utf8_valid s -> utf8_valid (String a s).
Proof.
  intros Ha. apply (utf8_valid_app (String a EmptyString)). apply utf8_ascii. cbn. by rewrite Ha.
Qed.

(** Well-formedness of a concatenation, piece by piece. *)
Ltac text_ok :=
  repeat match goal with
  | |- clean_line (_ +:+ _) => apply clean_line_app
  | |- utf8_valid (_ +:+ _) => apply utf8_valid_app
  | |- clean_line (pretty _) => apply clean_pretty
  | |- utf8_valid (pretty _) => apply utf8_pretty
  | |- clean_line (format_optional_txn _) => by apply format_optional_clean
  | |- utf8_valid (format_optional_txn _) => by apply format_optional_utf8
  | |- clean_line (String "|" _) => apply clean_cons; [split; reflexivity|]
  | |- utf8_valid (String "|" _) => apply utf8_cons; [reflexivity|]
  | |- clean_line (String _ _) => split; reflexivity
  | |- utf8_valid (String _ _) => apply utf8_ascii; reflexivity
  | H : is_u64 ?z |- 0 <= ?z => apply H
  end.

Lemma segment_line_ok s : segment_ok s -> clean_line (segment_line s) /\ utf8_valid (segment_line s).
Proof.
  intros ((_ & Hc & _ & Hu) & Hn & Hf & Hl). unfold segment_line, segment_text.
  split; text_ok; done.
Qed.

Lemma timestamp_line_ok t : timestamp_ok t -> clean_line (timestamp_line t) /\ utf8_valid (timestamp_line t).
Proof. intros (Ht & Hm). unfold timestamp_line, timestamp_text. split; text_ok; done. Qed.

Lemma manifest_lines_ok m :
  manifest_ok m -> Forall clean_line (manifest_lines m) /\ Forall utf8_valid (manifest_lines m).
Proof.
  intros [Hs Ht Hc Hl _]. assert (0 <= vec_len (segments m)) by (unfold vec_len; lia).
  unfold manifest_lines. rewrite !Forall_cons, !Forall_app, !Forall_fmap.
  unfold WAL_ARCHIVE_MANIFEST_MAGIC.
  split_and!; try (text_ok; done); (eapply Forall_impl; [eassumption|]); intros x Hx.
  1,3: by apply segment_line_ok. all: by apply timestamp_line_ok.
Qed.

(** ** Parsing back *)

Lemma parse_segment_text s path : segment_ok s -> parse_segment (segment_text s) path = Ok s.
Proof.
  intros ((Hp & _ & Hb & _) & Hn & Hf & Hl). unfold parse_segment, segment_text.
  rewrite split_char_app by done. rewrite split_char_app by (apply pretty_lacks; [apply Hn|done]).
  rewrite split_char_app by by apply format_optional_no_bar.
  rewrite split_char_none by by apply format_optional_no_bar.
  rewrite parse_number_pretty, !parse_optional_format, Hp by done. by destruct s.
Qed.

Lemma parse_timestamp_text t path : timestamp_ok t -> parse_timestamp (timestamp_text t) path = Ok t.
Proof.
  intros (Ht & Hm). unfold parse_timestamp, timestamp_text.
  rewrite split_char_app by (apply pretty_lacks; [apply Ht|done]).
  rewrite split_char_none by (apply pretty_lacks; [apply Hm|done]).
  rewrite !parse_number_pretty by done. by destruct t.
Qed.

Lemma parse_segments_lines l rest path :
  Forall segment_ok l ->
  parse_segments ((segment_line <$> l) ++ rest) (vec_len l) path = Ok (l, rest).
Proof.
  induction 1 as [|s l Hs _ IH]; [by destruct rest|].
  cbn [fmap list_fmap app parse_segments].
  rewrite (proj2 (Z.leb_gt _ _)) by (unfold vec_len; cbn; lia).
  rewrite (parse_control_Some _ (segment_text s)) by done. rewrite parse_segment_text by done.
  replace (vec_len (s :: l) - 1) with (vec_len l) by (unfold vec_len; cbn; lia). by rewrite IH.
Qed.

Lemma parse_timestamps_lines l path :
  Forall timestamp_ok l -> parse_timestamps (timestamp_line <$> l) path = Ok l.
Proof.
  induction 1 as [|t l Ht _ IH]; [done|]. cbn [fmap list_fmap parse_timestamps].
  rewrite (parse_control_Some _ (timestamp_text t)) by done. by rewrite parse_timestamp_text, IH.
Qed.

Lemma parse_manifest_rendered m path :
  manifest_ok m -> validate_archive_manifest_shape path m = Ok tt ->
  parse_manifest (unlines (manifest_lines m)) path = Some (Ok m).
Proof.
  intros Hm Hshape. unfold parse_manifest. rewrite lines_unlines by by apply manifest_lines_ok.
  unfold manifest_lines. rewrite bool_decide_eq_true_2 by done. cbn [orb].
  destruct Hm as [Hs Ht Hc Hl Hcap]. unfold parse_manifest_lines. cbn [lookup list_lookup drop].
  rewrite (parse_control_Some _ (pretty (durable_record_count (checkpoint m)))) by done.
  rewrite parse_number_pretty by done.
  rewrite (parse_control_Some _ (format_optional_txn (last_durable_txn_id (checkpoint m)))) by done.
  rewrite parse_optional_format by done.
  rewrite (parse_control_Some _ (pretty (vec_len (segments m)))) by done.
  rewrite parse_number_pretty by (unfold is_u64, size_of_segment, isize_max, U64, vec_len in *; lia).
  rewrite (proj2 (Z.ltb_ge _ _)) by done.
  rewrite drop_0, parse_segments_lines, parse_timestamps_lines by done.
  destruct m as [segs [n l] ts]. cbn in *. by rewrite Hshape.
Qed.

Lemma read_manifest_installed sha256 pid fs path m :
  (forall l, length (sha256 l) = 32%nat) -> manifest_ok m ->
  validate_archive_manifest_shape path m = Ok tt ->
  exists body, write_wal_archive_manifest sha256 pid fs path m =
    Ok (install fs (temporary_control_path pid path) path body) /\
  forall fs', fs' !! path = Some body -> read_wal_archive_manifest sha256 fs' path = Some (Ok m).
Proof.
  intros Hsha Hm Hshape. unfold write_wal_archive_manifest. rewrite render_manifest_lines by done.
  eexists. split; [reflexivity|]. intros fs' Hfs. unfold read_wal_archive_manifest, read_to_string.
  rewrite Hfs, from_utf8_as_bytes by (apply utf8_trailer, utf8_unlines, manifest_lines_ok, Hm).
  replace (head (lines (append_sha256_trailer sha256 (unlines (manifest_lines m)))))
    with (Some WAL_ARCHIVE_MANIFEST_MAGIC).
  2: { unfold append_sha256_trailer, manifest_lines. cbn [unlines List.fold_right].
       rewrite string_app_assoc, string_app_cons, lines_cons; [done|by split]. }
  rewrite bool_decide_eq_true_2 by done.
  rewrite trailer_round_trip by (done || right; by apply unlines_last).
  by apply parse_manifest_rendered.
Qed.

(** ** Validators as propositions *)

Definition increasing (l : list WalRecord) : Prop :=
  StronglySorted (fun a b => record_txn a < record_txn b) l.

Definition times_sorted (l : list WalArchiveRecordTimestamp) : Prop :=
  StronglySorted (fun a b => timestamp_micros a <= timestamp_micros b) l.

Lemma bad_window_Sorted {A} (bad : A -> A -> bool) l :
  bad_window bad l = None <-> Sorted (fun a b => bad a b = false) l.
Proof.
  induction l as [|x l IH]; [split; [constructor|done]|]. destruct l as [|y l].
  { split; [by repeat constructor|done]. }
  change (bad_window bad (x :: y :: l)) with (if bad x y then Some (x, y) else bad_window bad (y :: l)).
  destruct (bad x y) eqn:E.
  - split; [done|]. intros Hs. apply Sorted_inv in Hs as [_ Hh]. inversion Hh. congruence.
  - rewrite IH. split; intros Hs; [constructor; [done|by constructor]|by apply Sorted_inv in Hs as [? _]].
Qed.

Lemma bad_window_StronglySorted {A} (bad : A -> A -> bool) (R : A -> A -> Prop) l :
  (forall a b, bad a b = false <-> R a b) -> Transitive R ->
  bad_window bad l = None <-> StronglySorted R l.
Proof.
  intros Hb HR. rewrite bad_window_Sorted. split.
  - intros Hs. apply Sorted_StronglySorted; [done|]. induction Hs as [|x l Hs IH Hh]; constructor; [done|].
    destruct Hh; constructor. by apply Hb.
  - intros Hs%StronglySorted_Sorted. induction Hs as [|x l Hs IH Hh]; constructor; [done|].
    destruct Hh; constructor. by apply Hb.
Qed.

Lemma increasing_windows l : bad_window not_increasing l = None <-> increasing l.
Proof.
  apply bad_window_StronglySorted; [|intros a b c; lia].
  intros a b. unfold not_increasing. rewrite Z.leb_gt. done.
Qed.

Lemma times_windows l : bad_window decreasing_time l = None <-> times_sorted l.
Proof.
  apply bad_window_StronglySorted; [|intros a b c; lia].
  intros a b. unfold decreasing_time. rewrite Z.ltb_ge. done.
Qed.

Lemma validate_records_Ok path m rs :
  validate_archive_records path m rs = Ok tt <->
  vec_len rs = durable_record_count (checkpoint m) /\
  last_txn rs = last_durable_txn_id (checkpoint m) /\ increasing rs.
Proof.
  unfold validate_archive_records. rewrite <- increasing_windows.
  destruct (Z.eqb_spec (vec_len rs) (durable_record_count (checkpoint m))) as [|]; cbn [negb];
    [|split; [done|by intros (? & _)]].
  case_bool_decide; cbn [negb]; [|split; [done|by intros (_ & ? & _)]].
  destruct (bad_window _ _) as [[]|]; split; try done; by intros (_ & _ & ?).
Qed.

(** Timestamp metadata is absent, or names each record in order. *)
Definition timestamps_match (rs : list WalRecord) (ts : list WalArchiveRecordTimestamp) : Prop :=
  ts = [] \/ record_txn <$> rs = ts_txn_id <$> ts.

Lemma check_timestamps_Ok shown rs ts :
  length ts = length rs -> check_timestamps shown rs ts = Ok tt <-> record_txn <$> rs = ts_txn_id <$> ts.
Proof.
  revert ts. induction rs as [|r rs IH]; intros [|t ts]; try done. cbn [length]. intros [= Hl].
  cbn [check_timestamps]. rewrite !fmap_cons.
  destruct (Z.eqb_spec (record_txn r) (ts_txn_id t)) as [E|E]; cbn [negb].
  - rewrite IH by done. rewrite E. split; [by intros -> | by intros [= ->]].
  - split; [done|by intros [= ? _]].
Qed.

Lemma validate_metadata_Ok path rs ts :
  validate_timestamp_metadata path rs ts = Ok tt <-> timestamps_match rs ts.
Proof.
  unfold validate_timestamp_metadata, timestamps_match. unfold vec_len.
  destruct (Z.eqb_spec (Z.of_nat (length ts)) 0) as [E|E].
  { split; [|done]. intros _. left. destruct ts; [done|cbn in E; lia]. }
  destruct (Z.eqb_spec (Z.of_nat (length ts)) (Z.of_nat (length rs))) as [El|El]; cbn [negb].
  - rewrite check_timestamps_Ok by lia. split; [by right|]. intros [->|?]; [by cbn in E|done].
  - split; [done|]. intros [->|Hm]; [by cbn in E|]. apply (f_equal length) in Hm.
    rewrite !length_fmap in Hm. lia.
Qed.

Lemma validate_timestamps_Ok path m rs :
  validate_archive_timestamps path m rs = Ok tt <->
  timestamps_match rs (record_timestamps m) /\ times_sorted (record_timestamps m).
Proof.
  unfold validate_archive_timestamps. rewrite <- validate_metadata_Ok with (path := path), <- times_windows.
  destruct (validate_timestamp_metadata _ _ _) as [[]|]; [|by split; [|intros [? _]]].
  destruct (bad_window _ _) as [[]|]; split; try done; by intros [_ ?].
Qed.

(** ** What a successful read of the archive says *)

Record archive_read (sha256 : list byte -> list byte) (fs : Fs) (mp : Path) (m : WalArchiveManifest)
    (rs : list WalRecord) : Prop := mkArchiveRead {
  ar_manifest : read_wal_archive_manifest sha256 fs mp = Some (Ok m);
  ar_segments : read_segments fs mp (segments m) = Some (Ok rs);
  ar_count : vec_len rs = durable_record_count (checkpoint m);
  ar_last : last_txn rs = last_durable_txn_id (checkpoint m);
  ar_increasing : increasing rs;
  ar_match : timestamps_match rs (record_timestamps m);
  ar_times : times_sorted (record_timestamps m);
}.

Lemma read_archive_iff sha256 fs mp m rs :
  read_wal_archive sha256 fs mp = Some (Ok (m, rs)) <-> archive_read sha256 fs mp m rs.
Proof.
  unfold read_wal_archive. split.
  - destruct (read_wal_archive_manifest sha256 fs mp) as [[m'|]|] eqn:Em; try done.
    destruct (read_segments fs mp (segments m')) as [[rs'|]|] eqn:Es; try done.
    destruct (validate_archive_records mp m' rs') as [[]|] eqn:Er; try done.
    destruct (validate_archive_timestamps mp m' rs') as [[]|] eqn:Et; try done.
    intros [= -> ->]. apply validate_records_Ok in Er as (? & ? & ?).
    by apply validate_timestamps_Ok in Et as (? & ?).
  - intros [-> Hs Hc Hl Hi Hm Ht]. rewrite Hs.
    rewrite (proj2 (validate_records_Ok mp m rs)) by done.
    by rewrite (proj2 (validate_timestamps_Ok mp m rs)).
Qed.

End ArchiveFacts.
