(* ===== verification/ArchiveReads.v ===== *)
(** * Reading archives and planning retention

    The point-in-time reads in terms of the log they select from, the chunks a manifest is
    built from, the paths their files are stored at, and what a retention plan keeps. *)

From stdpp Require Import base gmap strings list sorting pretty.
From Stdlib Require Import Strings.Ascii.
From S2P Require Import Prelude Types Bytes Text Paths WalSegment WalProps Sidecar Archive ArchiveFacts.

Module ArchiveReads.
Import Text Paths Wal Sidecar SidecarFacts Archive ArchiveFacts.

(** ** Prefixes of sorted logs *)

Definition at_or_before (target : Z) (r : WalRecord) : bool := record_txn r <=? target.
Definition at_or_after (base : Z) (r : WalRecord) : bool := base <=? record_txn r.

Lemma filter_none {A} (p : A -> bool) l : Forall (fun x => p x = false) l -> List.filter p l = [].
Proof. induction 1 as [|x l Hx _ IH]; [done|]. cbn. by rewrite Hx. Qed.

Lemma filter_all {A} (p : A -> bool) l : Forall (fun x => p x = true) l -> List.filter p l = l.
Proof. induction 1 as [|x l Hx _ IH]; [done|]. cbn. by rewrite Hx, IH. Qed.

(** A predicate that holds exactly of the first [n] elements, or of all but them. *)
Lemma filter_is_take {A} (p : A -> bool) l n :
  (forall k x, l !! k = Some x -> p x = bool_decide (k < n)%nat) -> List.filter p l = take n l.
Proof.
  intros Hp. rewrite <- (take_drop n l) at 1. rewrite List.filter_app, filter_all, filter_none, app_nil_r; [done|..].
  - apply Forall_lookup. intros k x Hx. rewrite lookup_drop in Hx. apply Hp in Hx as ->.
    apply bool_decide_eq_false_2. lia.
  - apply Forall_lookup. intros k x Hx. apply lookup_take_Some in Hx as [Hx Hk]. apply Hp in Hx as ->.
    by apply bool_decide_eq_true_2.
Qed.

Lemma filter_is_drop {A} (p : A -> bool) l n :
  (forall k x, l !! k = Some x -> p x = bool_decide (n <= k)%nat) -> List.filter p l = drop n l.
Proof.
  intros Hp. rewrite <- (take_drop n l) at 1. rewrite List.filter_app, filter_none, filter_all; [done|..].
  - apply Forall_lookup. intros k x Hx. rewrite lookup_drop in Hx. apply Hp in Hx as ->.
    apply bool_decide_eq_true_2. lia.
  - apply Forall_lookup. intros k x Hx. apply lookup_take_Some in Hx as [Hx Hk]. apply Hp in Hx as ->.
    apply bool_decide_eq_false_2. lia.
Qed.

Lemma take_to_txn_filter t rs : increasing rs -> take_to_txn t rs = List.filter (at_or_before t) rs.
Proof.
  induction 1 as [|r rs _ IH Hf]; [done|]. cbn. unfold at_or_before at 1.
  destruct (Z.leb_spec (record_txn r) t) as [|Hlt]; [by rewrite IH|].
  symmetry. apply filter_none. eapply Forall_impl; [exact Hf|]. intros r' Hr'. cbn in Hr'.
  unfold at_or_before. apply Z.leb_gt. lia.
Qed.

Lemma take_to_txn_take t rs : take (length (take_to_txn t rs)) rs = take_to_txn t rs.
Proof. induction rs as [|r rs IH]; [done|]. cbn. destruct (_ <=? _); [|done]. cbn. by rewrite IH. Qed.

Lemma take_to_txn_lookup t rs k :
  (k < length (take_to_txn t rs))%nat -> rs !! k = take_to_txn t rs !! k.
Proof.
  intros Hk. symmetry. etrans; [|apply lookup_take_lt, Hk]. by rewrite take_to_txn_take.
Qed.

Lemma last_of_prefix t rs :
  (0 < length (take_to_txn t rs))%nat ->
  record_txn <$> rs !! (length (take_to_txn t rs) - 1)%nat = last_txn (take_to_txn t rs).
Proof.
  intros Hl. rewrite (take_to_txn_lookup t) by lia. unfold last_txn. rewrite last_lookup.
  by rewrite Nat.sub_1_r.
Qed.

Lemma take_to_txn_last t rs :
  increasing rs -> t ∈ record_txn <$> rs -> last_txn (take_to_txn t rs) = Some t.
Proof.
  intros Hi (r & -> & Hr)%list_elem_of_fmap. rewrite take_to_txn_filter by done.
  apply list_elem_of_split in Hr as (l1 & l2 & ->). apply StronglySorted_app in Hi as (Hx & _ & Hi2).
  inversion Hi2 as [|? ? _ Hf]; subst.
  rewrite List.filter_app. cbn. unfold at_or_before at 2. rewrite Z.leb_refl.
  rewrite (filter_none _ l2); [unfold last_txn; by rewrite last_snoc|].
  eapply Forall_impl; [exact Hf|]. intros r' Hr'. cbn in Hr'. unfold at_or_before. apply Z.leb_gt. lia.
Qed.

Lemma first_txn_le rs t first :
  increasing rs -> first_txn rs = Some first -> t ∈ record_txn <$> rs -> first <= t.
Proof.
  intros Hi Hf (r & -> & Hr)%list_elem_of_fmap. destruct rs as [|r0 rs]; [done|]. injection Hf as <-.
  inversion Hi as [|? ? _ Hall]; subst. apply elem_of_cons in Hr as [->|Hr]; [done|].
  rewrite Forall_forall in Hall. specialize (Hall _ Hr). cbn in Hall. lia.
Qed.

Lemma last_txn_ge rs t last :
  increasing rs -> last_txn rs = Some last -> t ∈ record_txn <$> rs -> t <= last.
Proof.
  intros Hi Hl (r & -> & Hr)%list_elem_of_fmap. destruct rs as [|r1 rs _] using rev_ind; [done|].
  unfold last_txn in Hl. rewrite last_snoc in Hl. injection Hl as <-.
  apply StronglySorted_app in Hi as (Hx & _ & _). apply elem_of_app in Hr as [Hr|Hr%list_elem_of_singleton].
  - specialize (Hx r r1 Hr ltac:(by left)). cbn in Hx. lia.
  - by subst.
Qed.

(** ** Point-in-time reads *)

Lemma take_length_take {A} (l : list A) n : take (length (take n l)) l = take n l.
Proof. rewrite length_take. apply WalProps.take_min_length. Qed.

Section reads.
Context (sha256 : list byte -> list byte) (fs : Fs) (mp : Path).
Context (m : WalArchiveManifest) (rs : list WalRecord).
Context (Hread : archive_read sha256 fs mp m rs).

Lemma read_archive_here : read_wal_archive sha256 fs mp = Some (Ok (m, rs)).
Proof. by apply read_archive_iff. Qed.

Lemma read_to_txn_spec target :
  match read_wal_archive_to_txn sha256 fs mp target with
  | Some (Ok (m', tgt, got)) =>
      m' = m /\ tgt = mkTarget target (vec_len got) target /\
      got = List.filter (at_or_before target) rs /\ last_txn got = Some target
  | Some (Err _) => target ∉ record_txn <$> rs
  | None => False
  end.
Proof.
  pose proof (ar_increasing _ _ _ _ _ Hread) as Hi. pose proof (ar_last _ _ _ _ _ Hread) as Hl.
  unfold read_wal_archive_to_txn, fail. rewrite read_archive_here. cbv beta iota zeta. rewrite <- Hl.
  destruct (first_txn rs) as [first|] eqn:Ef.
  2: { destruct rs; [apply not_elem_of_nil|done]. }
  destruct (Z.ltb_spec target first) as [|Hfirst].
  { intros Ht. pose proof (first_txn_le _ _ _ Hi Ef Ht). lia. }
  destruct (last_txn rs) as [last|] eqn:El.
  2: { unfold last_txn in El. destruct rs; [done|]. by rewrite last_cons in El; destruct (list.last _). }
  cbn [default from_option id]. change (id last) with last. destruct (Z.ltb_spec last target) as [|Hlast].
  { intros Ht. pose proof (last_txn_ge _ _ _ Hi El Ht). lia. }
  rewrite last_of_prefix.
  2: { destruct rs as [|r rs']; [done|]. injection Ef as <-. cbn. rewrite (proj2 (Z.leb_le _ _)) by done.
       cbn. lia. }
  case_bool_decide as E; cbn [negb].
  - rewrite take_to_txn_take. split_and!; try done. by apply take_to_txn_filter.
  - intros Ht. by apply E, take_to_txn_last.
Qed.

(** The records whose timestamp is at or before the target. *)
Definition recorded_by (target : Z) (l : list (WalRecord * WalArchiveRecordTimestamp)) : list WalRecord :=
  (List.filter (fun p => timestamp_micros p.2 <=? target) l).*1.

Definition stamped_at (target : Z) (ts : list WalArchiveRecordTimestamp) : list WalArchiveRecordTimestamp :=
  List.filter (fun t => timestamp_micros t =? target) ts.

Lemma length_matching i t l : length (matching_indexes i t l) = length (stamped_at t l).
Proof.
  revert i. induction l as [|x l IH]; intros i; [done|]. unfold stamped_at. cbn.
  destruct (_ =? _); cbn; by rewrite IH.
Qed.

Lemma elem_of_matching i t l j :
  j ∈ matching_indexes i t l <-> exists k x, j = (i + k)%nat /\ l !! k = Some x /\ timestamp_micros x = t.
Proof.
  revert i. induction l as [|x l IH]; intros i.
  { split; [by intros ?%not_elem_of_nil|by intros (k & x & _ & H & _)]. }
  assert (j ∈ matching_indexes (S i) t l <->
    exists k y, j = (i + S k)%nat /\ l !! k = Some y /\ timestamp_micros y = t) as IH'.
  { rewrite IH. by setoid_rewrite Nat.add_succ_comm. }
  cbn. destruct (Z.eqb_spec (timestamp_micros x) t) as [E|E]; rewrite ?elem_of_cons, IH'; split.
  - intros [-> |(k & y & H)]; [exists 0%nat, x; split_and!; [lia|done|done]|by exists (S k), y].
  - intros ([|k] & y & -> & H & Ht); [left; lia|right; by exists k, y].
  - intros (k & y & H). by exists (S k), y.
  - intros ([|k] & y & -> & H & Ht); [injection H as ->; done|by exists k, y].
Qed.

Lemma times_sorted_lookup ts i j x y :
  times_sorted ts -> ts !! i = Some x -> ts !! j = Some y -> (i <= j)%nat ->
  timestamp_micros x <= timestamp_micros y.
Proof.
  intros Hs Hx Hy Hij. destruct (decide (i = j)) as [->|]; [by simplify_eq|].
  rewrite <- (take_drop_middle ts i x Hx) in Hs, Hy.
  apply StronglySorted_app in Hs as (_ & _ & Hs). inversion Hs as [|? ? _ Hf]; subst.
  assert (length (take i ts) = i) as Hl.
  { rewrite length_take. apply lookup_lt_Some in Hx. lia. }
  rewrite lookup_app_r in Hy by lia. rewrite Hl in Hy.
  destruct (j - i)%nat as [|d] eqn:Ed; [lia|]. cbn in Hy. rewrite Forall_forall in Hf.
  apply Hf. by eapply list_elem_of_lookup_2.
Qed.

(** With sorted timestamps, one of which is the target, the records up to it. *)
Lemma recorded_by_take target idx (l : list WalRecord) ts x :
  length l = length ts -> times_sorted ts -> ts !! idx = Some x -> timestamp_micros x = target ->
  (forall j y, ts !! j = Some y -> timestamp_micros y = target -> j = idx) ->
  recorded_by target (zip l ts) = take (S idx) l.
Proof.
  intros Hl Hs Hx Ht Hu. unfold recorded_by. rewrite (filter_is_take _ _ (S idx)).
  - rewrite fmap_take, fst_zip by lia. done.
  - intros k [r y] Hk. apply lookup_zip_Some in Hk as [_ Hy]. cbn.
    destruct (decide (k < S idx)%nat) as [Hlt|Hge].
    + rewrite bool_decide_eq_true_2 by done. apply Z.leb_le.
      pose proof (times_sorted_lookup _ _ _ _ _ Hs Hy Hx ltac:(lia)). lia.
    + rewrite bool_decide_eq_false_2 by done. apply Z.leb_gt.
      pose proof (times_sorted_lookup _ _ _ _ _ Hs Hx Hy ltac:(lia)).
      destruct (decide (timestamp_micros y = target)) as [E|]; [|lia]. apply Hu in Hy; [lia|done].
Qed.

Lemma stamped_at_none target ts :
  (forall t, t ∈ ts -> timestamp_micros t <> target) -> stamped_at target ts = [].
Proof.
  intros H. apply filter_none, Forall_forall. intros t Ht. apply Z.eqb_neq. by apply H.
Qed.

Lemma read_to_timestamp_spec target :
  match read_wal_archive_to_timestamp_micros sha256 fs mp target with
  | Some (Ok (m', tgt, got)) =>
      m' = m /\ length (stamped_at target (record_timestamps m)) = 1%nat /\
      got = recorded_by target (zip rs (record_timestamps m)) /\ got = take (length got) rs /\
      exists txn, last_txn got = Some txn /\ tgt = mkTimestampTarget target txn (vec_len got) txn
  | Some (Err _) => length (stamped_at target (record_timestamps m)) <> 1%nat
  | None => False
  end.
Proof.
  pose proof (ar_match _ _ _ _ _ Hread) as Hm. pose proof (ar_times _ _ _ _ _ Hread) as Hs.
  unfold read_wal_archive_to_timestamp_micros, fail. rewrite read_archive_here. cbv beta iota zeta.
  set (ts := record_timestamps m) in *.
  assert (ts = [] \/ length rs = length ts) as Hlen.
  { destruct Hm as [->|Hm]; [by left|right]. apply (f_equal length) in Hm. by rewrite !length_fmap in Hm. }
  destruct (Z.eqb_spec (vec_len rs) 0) as [E|E].
  { assert (ts = []) as ->; [|done]. destruct Hlen as [|Hlen]; [done|]. apply length_zero_iff_nil.
    unfold vec_len in E. lia. }
  destruct (head ts) as [t0|] eqn:E0; [|by destruct ts]. cbn [fmap option_fmap option_map].
  destruct (last ts) as [tl|] eqn:El; [|by apply last_None in El as ->]. cbn [fmap option_fmap option_map].
  destruct Hlen as [->|Hlen]; [done|].
  destruct (Z.ltb_spec target (timestamp_micros t0)) as [Hlo|Hlo].
  { rewrite stamped_at_none; [done|]. intros t (i & Hi)%list_elem_of_lookup.
    rewrite head_lookup in E0. pose proof (times_sorted_lookup _ 0 i _ _ Hs E0 Hi ltac:(lia)). lia. }
  destruct (Z.ltb_spec (timestamp_micros tl) target) as [Hhi|Hhi].
  { rewrite stamped_at_none; [done|]. intros t (i & Hi)%list_elem_of_lookup.
    rewrite last_lookup in El. pose proof (lookup_lt_Some _ _ _ Hi).
    pose proof (times_sorted_lookup _ i _ _ _ Hs Hi El ltac:(lia)). lia. }
  pose proof (length_matching 0 target ts) as Hlm. pose proof (elem_of_matching 0 target ts) as Hem.
  destruct (matching_indexes 0 target ts) as [|idx [|i2 l]]; cbn in Hlm; [lia| |lia].
  destruct (proj1 (Hem idx) ltac:(by left)) as (k & x & -> & Hx & Ht). cbn [Nat.add].
  destruct (rs !! k) as [r|] eqn:Hr.
  2: { apply lookup_ge_None in Hr. apply lookup_lt_Some in Hx. lia. }
  assert (forall j y, ts !! j = Some y -> timestamp_micros y = target -> j = k) as Hu.
  { intros j y Hj Hy. specialize (proj2 (Hem j) (ex_intro _ j (ex_intro _ y (conj eq_refl (conj Hj Hy))))).
    by intros ?%list_elem_of_singleton. }
  pose proof (lookup_lt_Some _ _ _ Hr).
  split_and!; [done|done|by rewrite (recorded_by_take _ k _ _ x)|by rewrite take_length_take|]. exists (record_txn r). split.
  - unfold last_txn. by rewrite (take_S_r _ _ _ Hr), last_snoc.
  - f_equal. unfold vec_len. rewrite length_take. lia.
Qed.

End reads.

Lemma Forall_removelast {A} (P : A -> Prop) l : Forall P l -> Forall P (removelast l).
Proof. induction 1 as [|x [|y l] Hx Hl IH]; [done|constructor|]. by constructor. Qed.

(** ** Chunks *)

Lemma concat_chunks {A} fuel n (l : list A) :
  (0 < n)%nat -> (length l <= fuel)%nat -> concat (chunks fuel n l) = l.
Proof.
  intros Hn. revert l. induction fuel as [|fuel IH]; intros [|x l] Hl; cbn in *; try done; [lia|].
  destruct n as [|n]; [lia|]. cbn. f_equal. rewrite IH by (rewrite length_drop; lia). apply take_drop.
Qed.

Lemma chunks_Forall {A} (P : A -> Prop) fuel n (l : list A) :
  Forall P l -> Forall (Forall P) (chunks fuel n l).
Proof.
  revert l. induction fuel as [|fuel IH]; intros [|x l] Hl; cbn [chunks]; try constructor.
  - by apply Forall_take.
  - by apply IH, Forall_drop.
Qed.

Lemma chunks_length {A} fuel n (l : list A) : (length (chunks fuel n l) <= fuel)%nat.
Proof. revert l. induction fuel as [|fuel IH]; intros [|x l]; cbn; [lia..|]. specialize (IH (drop n (x :: l))). lia. Qed.

(** ** Segment files *)

Definition normal (p : Path) : Prop := Forall (fun c => c <> ".") (components p).

(** [segment-NNNN.wal] is one component. *)
Definition file_component (name : string) : Prop :=
  from_str name = mkPath false [name] /\ name <> ".".

Lemma pad4_no_slash n : 0 <= n -> contains_char "/" (pad4 n) = false.
Proof.
  intros Hn. unfold pad4. rewrite contains_char_app, (pretty_lacks "/" n) by done.
  rewrite orb_false_r. by destruct (String.length (pretty n)) as [|[|[|[|?]]]].
Qed.

Lemma segment_file_component i : file_component (segment_file_name i).
Proof.
  split; [|done]. unfold from_str. rewrite split_char_none.
  - done.
  - unfold segment_file_name. rewrite !contains_char_app, pad4_no_slash by lia. done.
Qed.

Lemma join_suffix base cs :
  match cs with "." :: _ => False | _ => True end ->
  join base (mkPath false cs) = mkPath (absolute base) (components base ++ cs).
Proof.
  intros Hc. unfold join, is_empty. destruct base as [[] bs]; cbn [absolute components negb andb].
  - by repeat (case_match; try done).
  - case_bool_decide as E; [by rewrite E|]. by repeat (case_match; try done).
Qed.

Lemma segment_file_path_eq dir i :
  segment_file_path dir i = mkPath (absolute dir) (components dir ++ [segment_file_name i]).
Proof.
  unfold segment_file_path. destruct (segment_file_component i) as [-> _]. by apply join_suffix.
Qed.

(** A segment directory the manifest can name: absolute, or below the manifest's own. *)
Definition nameable (mp dir : Path) : Prop :=
  normal dir /\
  (absolute dir = true \/
   exists par rest, parent mp = Some par /\ absolute par = absolute dir /\
     components dir = components par ++ rest).

Lemma normal_suffix l1 l2 : Forall (fun c => c <> ".") (l1 ++ l2) -> match l2 with "." :: _ => False | _ => True end.
Proof. intros [_ H]%Forall_app. destruct H as [|c l Hc _]; [done|]. by repeat (case_match; try done). Qed.

Lemma resolve_segment_path mp dir i :
  nameable mp dir ->
  resolve_manifest_path mp (manifest_segment_path mp (segment_file_path dir i)) = segment_file_path dir i.
Proof.
  intros [Hn Hdir]. unfold manifest_segment_path, resolve_manifest_path, path_strip_prefix.
  set (par := default (from_str ".") (parent mp)).
  assert (normal (segment_file_path dir i)) as Hnf.
  { rewrite segment_file_path_eq. apply Forall_app. split; [done|].
    repeat constructor. apply segment_file_component. }
  destruct (segment_file_path dir i) as [ab cs] eqn:Ef. cbn [absolute components].
  destruct (is_empty par) eqn:Ee.
  { cbn. destruct ab; [done|]. unfold join. cbn. by rewrite Ee. }
  destruct (Bool.eqb ab (absolute par)) eqn:Eab.
  - apply Bool.eqb_prop in Eab as ->. destruct (strip_components (components par) cs) as [rest|] eqn:Es;
      cbn [fmap option_fmap option_map from_option id absolute].
    + apply strip_components_Some in Es as ->. rewrite join_suffix by by eapply normal_suffix.
      by destruct par.
    + rewrite segment_file_path_eq in Ef. injection Ef as Hab Hcs.
      destruct Hdir as [Habs|(par' & rest & Hp & Ha & Hc)]; [by rewrite <- Hab, Habs|].
      exfalso. subst par. rewrite Hp in Es. cbn in Es. rewrite <- Hcs, Hc, <- app_assoc in Es.
      change (id par') with par' in Es. by rewrite strip_components_app in Es.
  - cbn. rewrite segment_file_path_eq in Ef. injection Ef as Hab Hcs.
    destruct Hdir as [Habs|(par' & rest & Hp & Ha & Hc)]; [by rewrite <- Hab, Habs|].
    exfalso. subst par. rewrite Hp in Eab. cbn in Eab. change (id par') with par' in Eab.
    by rewrite Ha, Hab, Bool.eqb_reflx in Eab.
Qed.

(** ** The archive a manifest built from chunks describes *)

Definition stored_chunks (fs : Fs) (dir : Path) (chs : list (list WalRecord)) : Prop :=
  forall i ch, chs !! i = Some ch -> fs !! segment_file_path dir i = Some (segment_bytes ch).

Lemma imap_shift {A B} (f : nat -> A -> B) k l :
  imap ((fun i => f (k + i)%nat) ∘ S) l = imap (fun i => f (S k + i)%nat) l.
Proof. apply imap_ext. intros i x _. cbn. by rewrite Nat.add_succ_r. Qed.

Lemma read_segments_chunks fs mp dir chs k :
  nameable mp dir -> Forall (Forall WalProps.record_ok) chs ->
  (forall i ch, chs !! i = Some ch -> fs !! segment_file_path dir (k + i) = Some (segment_bytes ch)) ->
  read_segments fs mp (imap (fun i => chunk_segment mp dir (k + i)) chs) = Some (Ok (concat chs)).
Proof.
  intros Hn Hok. revert k. induction Hok as [|ch chs Hch _ IH]; intros k Hst; [done|].
  cbn [imap read_segments concat]. unfold read_segment_file.
  rewrite imap_shift, Nat.add_0_r.
  change (segment_path (chunk_segment mp dir k ch)) with (manifest_segment_path mp (segment_file_path dir k)).
  rewrite resolve_segment_path by done.
  pose proof (Hst 0%nat ch eq_refl) as H0. rewrite Nat.add_0_r in H0. rewrite H0.
  rewrite WalProps.read_segment_bytes by done.
  unfold validate_archive_segment. 
  change (record_count (chunk_segment mp dir k ch)) with (vec_len ch).
  change (first_txn_id (chunk_segment mp dir k ch)) with (first_txn ch).
  change (last_txn_id (chunk_segment mp dir k ch)) with (last_txn ch).
  rewrite Z.eqb_refl, !bool_decide_eq_true_2 by done. cbn [negb orb].
  rewrite (IH (S k)); [done|].
  intros i ch' Hi. replace (S k + i)%nat with (k + S i)%nat by lia. by apply Hst.
Qed.

Lemma sum_counts_chunks mp dir chs (k : nat) acc :
  0 <= acc -> acc + vec_len (concat chs) < U64 ->
  List.fold_left (fun acc s => u64_add acc (record_count s)) (imap (fun i => chunk_segment mp dir (k + i)) chs) acc
  = acc + vec_len (concat chs).
Proof.
  revert k acc. induction chs as [|ch chs IH]; intros k acc Ha Hb; [cbn; unfold vec_len; cbn; lia|].
  cbn [concat] in *. rewrite vec_len_app in *. cbn [imap List.fold_left]. rewrite imap_shift.
  assert (0 <= vec_len ch /\ 0 <= vec_len (concat chs)) as [? ?] by (unfold vec_len; lia).
  change (record_count (chunk_segment mp dir (k + 0) ch)) with (vec_len ch).
  rewrite u64_add_small, IH by lia. lia.
Qed.

Section built.
Context (sha256 : list byte -> list byte) (Hsha : forall l, length (sha256 l) = 32%nat).
Context (mp dir : Path) (retained : list WalRecord) (rps : Z) (ts : list WalArchiveRecordTimestamp).
Context (Hrps : 0 < rps) (Hname : nameable mp dir) (Hok : Forall WalProps.record_ok retained).
Context (Hinc : increasing retained) (Hmatch : timestamps_match retained ts) (Htimes : times_sorted ts).
Context (Hsize : vec_len retained * size_of_segment <= isize_max).

Lemma concat_records_chunks : concat (records_chunks rps retained) = retained.
Proof. apply concat_chunks; lia. Qed.

Lemma timestamps_match_length : ts <> [] -> vec_len ts = vec_len retained.
Proof.
  intros Hts. destruct Hmatch as [?|H]; [done|]. apply (f_equal length) in H. rewrite !length_fmap in H.
  unfold vec_len. lia.
Qed.

Lemma built_shape : validate_archive_manifest_shape mp (build_wal_archive_manifest mp dir retained rps ts) = Ok tt.
Proof.
  unfold validate_archive_manifest_shape, build_wal_archive_manifest, sum_counts.
  cbn [segments checkpoint record_timestamps durable_record_count last_durable_txn_id].
  rewrite (sum_counts_chunks mp dir _ 0 0), concat_records_chunks, Z.add_0_l, Z.eqb_refl; cbn [negb].
  2: lia. 2: rewrite concat_records_chunks; unfold size_of_segment, isize_max, U64 in *; lia.
  replace (negb (vec_len ts =? 0) && negb (vec_len ts =? vec_len retained)) with false.
  2: { destruct (decide (ts = [])) as [->|Hts]; [done|].
       by rewrite (timestamps_match_length Hts), Z.eqb_refl, andb_false_r. }
  destruct (Z.eqb_spec (vec_len (imap (chunk_segment mp dir) (records_chunks rps retained))) 0) as [E|]; [|done].
  unfold vec_len in E. rewrite length_imap in E. pose proof concat_records_chunks as Hc.
  destruct (records_chunks rps retained); [|cbn in E; lia]. cbn in Hc. by rewrite <- Hc.
Qed.

Lemma last_txn_u64 l : Forall WalProps.record_ok l -> option_ok (last_txn l) /\ option_ok (first_txn l).
Proof.
  intros Hl. unfold last_txn, first_txn, option_ok. split.
  - destruct (last l) as [r|] eqn:E; [|done]. apply last_Some_elem_of in E. rewrite Forall_forall in Hl. by apply Hl.
  - destruct Hl as [|r l Hr _]; [done|]. apply Hr.
Qed.

Lemma concat_bound {A} (ch : list A) chs : ch ∈ chs -> vec_len ch <= vec_len (concat chs).
Proof.
  induction chs as [|ch' chs IH]; [by intros ?%not_elem_of_nil|].
  cbn [concat]. rewrite elem_of_cons, vec_len_app. intros [->|H%IH]; unfold vec_len in *; lia.
Qed.

Lemma built_ok :
  (forall i, (i < length retained)%nat ->
    path_ok (manifest_segment_path mp (segment_file_path dir i))) ->
  Forall timestamp_ok ts ->
  manifest_ok (build_wal_archive_manifest mp dir retained rps ts).
Proof.
  intros Htext Hts.
  assert (is_u64 (vec_len retained)) as Hu by (unfold is_u64, size_of_segment, isize_max, U64, vec_len in *; lia).
  split; cbn [build_wal_archive_manifest segments record_timestamps checkpoint durable_record_count last_durable_txn_id].
  - apply Forall_lookup. intros i s Hs. apply list_lookup_imap_Some in Hs as (ch & Hch & ->).
    assert (ch ∈ records_chunks rps retained) as Hin by by eapply list_elem_of_lookup_2.
    pose proof (concat_bound _ _ Hin) as Hb. rewrite concat_records_chunks in Hb.
    pose proof (chunks_Forall _ (length retained) (Z.to_nat rps) _ Hok) as Hf. rewrite Forall_forall in Hf.
    specialize (Hf _ Hin). destruct (last_txn_u64 _ Hf) as [Hl Hf'].
    pose proof (chunks_length (length retained) (Z.to_nat rps) retained) as Hcl.
    apply lookup_lt_Some in Hch. unfold records_chunks in Hch.
    split_and!; [apply Htext; lia|change (is_u64 (vec_len ch)); unfold is_u64, vec_len in *; lia|done|done].
  - done.
  - done.
  - by apply last_txn_u64.
  - unfold vec_len. rewrite length_imap. unfold records_chunks.
    pose proof (chunks_length (length retained) (Z.to_nat rps) retained).
    unfold vec_len, size_of_segment in *. lia.
Qed.

(** Once its chunks and its manifest are stored, the archive reads back as the records. *)
Lemma built_reads fs pid fs0 :
  (forall i, (i < length retained)%nat ->
    path_ok (manifest_segment_path mp (segment_file_path dir i))) ->
  Forall timestamp_ok ts ->
  write_wal_archive_manifest sha256 pid fs0 mp (build_wal_archive_manifest mp dir retained rps ts) = Ok fs ->
  stored_chunks fs dir (records_chunks rps retained) ->
  archive_read sha256 fs mp (build_wal_archive_manifest mp dir retained rps ts) retained.
Proof.
  intros Htext Hts Hw Hst.
  destruct (read_manifest_installed sha256 pid fs0 mp _ Hsha (built_ok Htext Hts) built_shape) as (body & Hw' & Hr).
  rewrite Hw in Hw'. injection Hw' as Hfs. split; try done.
  - apply Hr. rewrite Hfs. unfold install. by rewrite lookup_insert_eq.
  - cbn [build_wal_archive_manifest segments]. rewrite <- concat_records_chunks at 2.
    apply (read_segments_chunks fs mp dir _ 0); [done|by apply chunks_Forall|done].
Qed.

End built.

(** ** Numbers that were read are in range *)

Lemma parse_digits_u64 s acc n : is_u64 acc -> parse_digits u64_max acc s = Ok n -> is_u64 n.
Proof.
  revert acc. induction s as [|a s IH]; intros acc Ha; [by intros [= <-]|]. cbn [parse_digits].
  destruct (to_digit a) as [d|] eqn:Ed; [|done].
  destruct (Z.ltb_spec u64_max (acc * 10 + d)) as [|Hmax]; [done|]. apply IH.
  unfold to_digit, between in Ed. destruct (Z.leb_spec 48 (char_val a)); [|done].
  destruct (_ <=? _); [|done]. injection Ed as <-. unfold is_u64, u64_max, U64 in *. lia.
Qed.

Lemma parse_u64_range s n : parse_u64 s = Ok n -> is_u64 n.
Proof.
  assert (is_u64 0) as H0 by (unfold is_u64, U64; lia).
  unfold parse_u64, parse_uint. destruct s as [|a [|b s]]; [done|..]; case_bool_decide; try done; by apply parse_digits_u64.
Qed.

Lemma parse_number_range what path raw n : parse_number what path raw = Ok n -> is_u64 n.
Proof. unfold parse_number. destruct (parse_u64 raw) eqn:E; [|done]. intros [= <-]. by eapply parse_u64_range. Qed.

Lemma parse_timestamp_ok raw path t : parse_timestamp raw path = Ok t -> timestamp_ok t.
Proof.
  unfold parse_timestamp. destruct (split_char _ _) as [|a parts]; [done|].
  destruct (parse_number _ _ a) eqn:Ea; [|done]. destruct parts as [|b parts]; [done|].
  destruct (parse_number _ _ b) eqn:Eb; [|done]. destruct parts; [|done]. intros [= <-].
  split; by eapply parse_number_range.
Qed.

Lemma parse_timestamps_ok ls path ts : parse_timestamps ls path = Ok ts -> Forall timestamp_ok ts.
Proof.
  revert ts. induction ls as [|l ls IH]; intros ts; cbn [parse_timestamps]; [by intros [= <-]|].
  destruct (parse_control_value _ _ _) as [raw|]; [|done].
  destruct (parse_timestamp raw path) as [t|] eqn:Et; [|done].
  destruct (parse_timestamps ls path); [|done]. intros [= <-]. constructor; [|by apply IH].
  by eapply parse_timestamp_ok.
Qed.

Lemma parse_manifest_lines_timestamps ls path m :
  parse_manifest_lines ls path = Some (Ok m) -> Forall timestamp_ok (record_timestamps m).
Proof.
  unfold parse_manifest_lines. 
  destruct (parse_control_value _ "durable_record_count" _) as [a|]; [|done].
  destruct (parse_number _ _ a); [|done].
  destruct (parse_control_value _ "last_durable_txn_id" _) as [b|]; [|done].
  destruct (parse_optional_txn b _ _); [|done].
  destruct (parse_control_value _ "segments" _) as [c|]; [|done].
  destruct (parse_number _ _ c) as [n|]; [|done]. destruct (isize_max <? _); [done|].
  destruct (parse_segments _ _ _) as [[segs rest]|]; [|done].
  destruct (parse_timestamps rest path) as [ts|] eqn:Et; [|done].
  destruct (validate_archive_manifest_shape _ _) as [[]|]; [|done]. intros [= <-].
  by eapply parse_timestamps_ok.
Qed.

Lemma parse_manifest_timestamps body path m :
  parse_manifest body path = Some (Ok m) -> Forall timestamp_ok (record_timestamps m).
Proof.
  unfold parse_manifest. destruct (lines body) as [|magic ls]; [done|].
  destruct (_ || _); [|done]. apply parse_manifest_lines_timestamps.
Qed.

Lemma read_manifest_timestamps sha256 fs mp m :
  read_wal_archive_manifest sha256 fs mp = Some (Ok m) -> Forall timestamp_ok (record_timestamps m).
Proof.
  unfold read_wal_archive_manifest. destruct (read_to_string fs mp) as [body|]; [|done].
  destruct (head (lines body)) as [magic|]; [|done].
  case_bool_decide; [destruct (verify_sha256_trailer _ _ _) as [body'|]; [|done]|case_bool_decide; [|done]];
    apply parse_manifest_timestamps.
Qed.

Lemma read_segments_record_ok fs mp segs rs :
  read_segments fs mp segs = Some (Ok rs) -> Forall WalProps.record_ok rs.
Proof.
  revert rs. induction segs as [|s segs IH]; intros rs; cbn [read_segments]; [by intros [= <-]|].
  unfold read_segment_file. destruct (fs !! _) as [bytes|]; [|done].
  destruct (read_wal_segment _ bytes) as [[l|]|] eqn:El; try done.
  destruct (validate_archive_segment _ _ _) as [[]|]; [|done].
  destruct (read_segments fs mp segs) as [[rest|]|]; try done. intros [= <-].
  apply Forall_app. split; [by eapply WalProps.read_segment_ok|by apply IH].
Qed.

(** ** Retention *)

Lemma increasing_take n rs : increasing rs -> increasing (take n rs).
Proof. intros Hi. rewrite <- (take_drop n rs) in Hi. by apply StronglySorted_app in Hi as (_ & ? & _). Qed.

Lemma increasing_drop n rs : increasing rs -> increasing (drop n rs).
Proof. intros Hi. rewrite <- (take_drop n rs) in Hi. by apply StronglySorted_app in Hi as (_ & _ & ?). Qed.

Lemma times_take n ts : times_sorted ts -> times_sorted (take n ts).
Proof. intros Hi. rewrite <- (take_drop n ts) in Hi. by apply StronglySorted_app in Hi as (_ & ? & _). Qed.

Lemma times_drop n ts : times_sorted ts -> times_sorted (drop n ts).
Proof. intros Hi. rewrite <- (take_drop n ts) in Hi. by apply StronglySorted_app in Hi as (_ & _ & ?). Qed.

Lemma match_take n rs ts : timestamps_match rs ts -> timestamps_match (take n rs) (take n ts).
Proof.
  intros [->|H]; [left; by rewrite take_nil|right]. by rewrite !fmap_take, H.
Qed.

Lemma match_drop n rs ts : timestamps_match rs ts -> timestamps_match (drop n rs) (drop n ts).
Proof.
  intros [->|H]; [left; by rewrite drop_nil|right]. by rewrite !fmap_drop, H.
Qed.

Lemma position_txn_Some base rs i :
  position_txn base rs = Some i -> exists r, rs !! i = Some r /\ record_txn r = base.
Proof.
  revert i. induction rs as [|r rs IH]; intros i; cbn; [done|].
  destruct (Z.eqb_spec (record_txn r) base) as [E|E]; [intros [= <-]; by exists r|].
  destruct (position_txn base rs) as [j|]; [|done]. intros [= <-]. by apply IH.
Qed.

Lemma increasing_lookup rs i j x y :
  increasing rs -> rs !! i = Some x -> rs !! j = Some y -> (i < j)%nat -> record_txn x < record_txn y.
Proof.
  intros Hs Hx Hy Hij. rewrite <- (take_drop_middle rs i x Hx) in Hs, Hy.
  apply StronglySorted_app in Hs as (_ & _ & Hs). inversion Hs as [|? ? _ Hf]; subst.
  assert (length (take i rs) = i) as Hl.
  { rewrite length_take. apply lookup_lt_Some in Hx. lia. }
  rewrite lookup_app_r in Hy by lia. rewrite Hl in Hy.
  destruct (j - i)%nat as [|d] eqn:Ed; [lia|]. cbn in Hy. rewrite Forall_forall in Hf.
  apply Hf. by eapply list_elem_of_lookup_2.
Qed.

Lemma drop_from_txn base rs i :
  increasing rs -> position_txn base rs = Some i -> List.filter (at_or_after base) rs = drop i rs.
Proof.
  intros Hi (r & Hr & <-)%position_txn_Some. apply filter_is_drop. intros k x Hx. unfold at_or_after.
  destruct (decide (i <= k)%nat) as [Hk|Hk].
  - rewrite bool_decide_eq_true_2 by done. apply Z.leb_le. destruct (decide (i = k)) as [->|]; [by simplify_eq|].
    pose proof (increasing_lookup _ _ _ _ _ Hi Hr Hx ltac:(lia)). lia.
  - rewrite bool_decide_eq_false_2 by done. apply Z.leb_gt.
    pose proof (increasing_lookup _ _ _ _ _ Hi Hx Hr ltac:(lia)). lia.
Qed.

Section plans.
Context (sha256 : list byte -> list byte) (fs : Fs) (mp : Path).
Context (m : WalArchiveManifest) (rs : list WalRecord) (Hread : archive_read sha256 fs mp m rs).

Lemma plan_retention_inv target retained ts removed plan :
  plan_retention mp m target retained ts removed = Ok plan ->
  exists rps dir, archive_records_per_segment mp m = Ok rps /\ archive_segment_dir mp m = Ok dir /\
    plan = mkPlan target (vec_len retained) removed (build_wal_archive_manifest mp dir retained rps ts)
      (obsolete_segments mp m (build_wal_archive_manifest mp dir retained rps ts)).
Proof.
  unfold plan_retention. destruct (archive_records_per_segment mp m) as [rps|]; [|done].
  destruct (archive_segment_dir mp m) as [dir|]; [|done]. intros [= <-]. by exists rps, dir.
Qed.

(** What the three planners keep: a prefix or a suffix of the log with its timestamps. *)
Inductive kept : list WalRecord -> list WalArchiveRecordTimestamp -> Prop :=
| kept_prefix n : kept (take n rs) (take n (record_timestamps m))
| kept_suffix n : kept (drop n rs) (drop n (record_timestamps m)).

Lemma kept_ok retained ts :
  kept retained ts ->
  increasing retained /\ timestamps_match retained ts /\ times_sorted ts /\
  Forall WalProps.record_ok retained /\ Forall timestamp_ok ts /\ vec_len retained <= vec_len rs.
Proof.
  destruct Hread as [Hm Hs _ _ Hi Hma Ht].
  apply read_segments_record_ok in Hs. apply read_manifest_timestamps in Hm. unfold vec_len.
  intros [n|n]; split_and!; auto using increasing_take, increasing_drop, match_take, match_drop,
    times_take, times_drop, Forall_take, Forall_drop.
  - rewrite length_take. lia.
  - rewrite length_drop. lia.
Qed.

Lemma plan_to_txn_kept target plan :
  plan_wal_archive_retention_to_txn sha256 fs mp target = Some (Ok plan) ->
  let retained := List.filter (at_or_before target) rs in
  exists ts, kept retained ts /\
    plan_retention mp m target retained ts (vec_len rs - vec_len retained) = Ok plan.
Proof.
  unfold plan_wal_archive_retention_to_txn. pose proof (read_to_txn_spec _ _ _ _ _ Hread target) as H.
  destruct (read_wal_archive_to_txn sha256 fs mp target) as [[[[m' tgt] got]|]|]; try done.
  destruct H as (-> & -> & Hgot & _). cbn [recovered_record_count]. intros [= Hp].
  assert (got = take (length got) rs) as Htake.
  { rewrite Hgot, <- take_to_txn_filter by apply Hread. by rewrite take_to_txn_take. }
  cbv zeta. rewrite <- Hgot.
  exists (take (length got) (record_timestamps m)). split.
  - rewrite Htake at 1. constructor.
  - rewrite <- Hp. f_equal; [by rewrite WalProps.vec_len_to_nat|].
    rewrite <- (ar_count _ _ _ _ _ Hread). unfold saturating_sub, vec_len. rewrite Htake, length_take. lia.
Qed.

Lemma plan_to_timestamp_kept target plan :
  plan_wal_archive_retention_to_timestamp_micros sha256 fs mp target = Some (Ok plan) ->
  let retained := recorded_by target (zip rs (record_timestamps m)) in
  exists txn ts, kept retained ts /\
    plan_retention mp m txn retained ts (vec_len rs - vec_len retained) = Ok plan.
Proof.
  unfold plan_wal_archive_retention_to_timestamp_micros.
  pose proof (read_to_timestamp_spec _ _ _ _ _ Hread target) as H.
  destruct (read_wal_archive_to_timestamp_micros sha256 fs mp target) as [[[[m' tgt] got]|]|]; try done.
  destruct H as (-> & _ & <- & Htake & txn & _ & ->). cbn [tt_recovered_record_count tt_txn_id]. intros [= Hp].
  exists txn, (take (length got) (record_timestamps m)). split.
  - rewrite Htake at 1. constructor.
  - rewrite <- Hp. f_equal; [by rewrite WalProps.vec_len_to_nat|].
    rewrite <- (ar_count _ _ _ _ _ Hread). unfold saturating_sub, vec_len. rewrite Htake, length_take. lia.
Qed.

Lemma plan_from_txn_kept base plan :
  plan_wal_archive_retention_from_txn sha256 fs mp base = Some (Ok plan) ->
  let retained := List.filter (at_or_after base) rs in
  exists ts, kept retained ts /\
    plan_retention mp m base retained ts (vec_len rs - vec_len retained) = Ok plan.
Proof.
  unfold plan_wal_archive_retention_from_txn, fail. rewrite (read_archive_here _ _ _ _ _ Hread).
  destruct (first_txn rs); [|done]. destruct (_ <? _); [done|].
  destruct (last_durable_txn_id _); [|done]. destruct (_ <? _); [done|].
  destruct (position_txn base rs) as [i|] eqn:Ei; [|done]. intros [= Hp]. cbv zeta.
  rewrite (drop_from_txn _ _ _ (ar_increasing _ _ _ _ _ Hread) Ei). eexists. split; [constructor|].
  rewrite <- Hp. f_equal. apply position_txn_Some in Ei as (r & Hr%lookup_lt_Some & _).
  unfold vec_len. rewrite length_drop. lia.
Qed.

End plans.

End ArchiveReads.
