(* ===== verification/ArchiveProps.v ===== *)
(** * Properties of the WAL archive

    The manifest round-trips through its file; point-in-time reads return exactly the
    records at or before the target; a retention plan describes an archive that reads back
    as the retained records; ingestion appends exactly the new segment. *)

From stdpp Require Import base gmap strings list sorting pretty.
From Stdlib Require Import Strings.Ascii.
From S2P Require Import Prelude Types Bytes Text Paths WalSegment WalProps Sidecar Archive ArchiveFacts ArchiveReads.

Module ArchiveProps.
Import Text Paths Wal Sidecar SidecarFacts Archive ArchiveFacts ArchiveReads.

(** ** An archive for the witnesses: three records in two segments *)

Module Sample.

Definition digest (l : list byte) : list byte := replicate 32 x00.
Definition manifest_path : Path := mkPath true ["wal"; "manifest"].
Definition segment_dir : Path := mkPath true ["wal"; "segments"].
Definition log : list WalRecord := [mkRecord 1 [x61]; mkRecord 2 []; mkRecord 5 [x62; x63]].
Definition times : list WalArchiveRecordTimestamp := [mkTimestamp 1 10; mkTimestamp 2 20; mkTimestamp 5 20].
Definition manifest : WalArchiveManifest := build_wal_archive_manifest manifest_path segment_dir log 2 times.

Definition store (dir : Path) (chs : list (list WalRecord)) : Fs :=
  list_to_map (imap (fun i ch => (segment_file_path dir i, segment_bytes ch)) chs).

(** The further segment for ingestion is stored beside the others. *)
Definition extra_path : Path := mkPath true ["wal"; "segments"; "extra.wal"].
Definition segments_fs : Fs :=
  <[extra_path := segment_bytes [mkRecord 7 []]]> (store segment_dir (records_chunks 2 log)).

Definition fs : Fs :=
  match write_wal_archive_manifest digest 42 segments_fs manifest_path manifest with
  | Ok fs => fs
  | Err _ => ∅
  end.

Ltac in_range := vm_compute; first [exact I|split; [discriminate|reflexivity]|discriminate].

Lemma read_fs : read_wal_archive digest fs manifest_path = Some (Ok (manifest, log)).
Proof. by vm_compute. Qed.

Lemma path_is_ok i :
  (i < 2)%nat -> path_ok (manifest_segment_path manifest_path (segment_file_path segment_dir i)).
Proof. intros Hi. by destruct i as [|[|i]]; [..|lia]; split_and!; vm_compute. Qed.

Lemma manifest_is_ok : manifest_ok manifest.
Proof.
  split.
  - apply Forall_cons_2; [|apply Forall_cons_2; [|apply Forall_nil_2]].
    + split_and!; [by apply (path_is_ok 0); lia|in_range..].
    + split_and!; [by apply (path_is_ok 1); lia|in_range..].
  - repeat (apply Forall_cons_2; [split; in_range|]). apply Forall_nil_2.
  - in_range.
  - in_range.
  - in_range.
Qed.

End Sample.

(** Writing a manifest and reading it back gives the same manifest: rendering
    succeeds, the SHA-256 trailer verifies, every field parses to what was printed and the
    shape check passes; no other file changes except the temporary one. *)
Theorem manifest_round_trip (sha256 : list byte -> list byte)
    (Hsha : forall l, length (sha256 l) = 32%nat)
    (pid : Z) (fs : Fs) (path : Path) (m : WalArchiveManifest)
    (Hm : manifest_ok m) (Hshape : validate_archive_manifest_shape path m = Ok tt) :
  exists fs', write_wal_archive_manifest sha256 pid fs path m = Ok fs' /\
    read_wal_archive_manifest sha256 fs' path = Some (Ok m) /\
    forall p, p <> path -> p <> temporary_control_path pid path -> fs' !! p = fs !! p.
Proof.
  destruct (read_manifest_installed sha256 pid fs path m Hsha Hm Hshape) as (body & Hw & Hr).
  eexists. split; [exact Hw|]. split.
  - apply Hr. unfold install. by rewrite lookup_insert_eq.
  - intros p Hp Ht. unfold install. by rewrite lookup_insert_ne, lookup_delete_ne.
Qed.

Lemma manifest_round_trip_witness :
  exists fs', write_wal_archive_manifest Sample.digest 42 ∅ Sample.manifest_path Sample.manifest = Ok fs' /\
    read_wal_archive_manifest Sample.digest fs' Sample.manifest_path = Some (Ok Sample.manifest).
Proof.
  destruct (manifest_round_trip Sample.digest (fun _ => eq_refl) 42 ∅ Sample.manifest_path Sample.manifest)
    as (fs' & Hw & Hr & _).
  - apply Sample.manifest_is_ok.
  - by vm_compute.
  - by exists fs'.
Defined.

(** [C35] Point-in-time reads of an archive are exact.  They panic or fail when reading the whole
    archive does, with the same error.  On an archive that reads, neither panics.  By transaction:
    the read succeeds iff the target is archived, and returns the records at or before it, the
    target last.  By timestamp: it succeeds iff exactly one record carries the target time, and
    returns the records stamped at or before it. *)
Theorem point_in_time_reads (sha256 : list byte -> list byte) (fs : Fs) (mp : Path) (target : Z) :
  match read_wal_archive sha256 fs mp with
  | None =>
      read_wal_archive_to_txn sha256 fs mp target = None /\
      read_wal_archive_to_timestamp_micros sha256 fs mp target = None
  | Some (Err e) =>
      read_wal_archive_to_txn sha256 fs mp target = Some (Err e) /\
      read_wal_archive_to_timestamp_micros sha256 fs mp target = Some (Err e)
  | Some (Ok (m, rs)) =>
      match read_wal_archive_to_txn sha256 fs mp target with
      | Some (Ok (m', tgt, got)) =>
          m' = m /\ tgt = mkTarget target (vec_len got) target /\
          got = List.filter (at_or_before target) rs /\ last_txn got = Some target
      | Some (Err _) => target ∉ record_txn <$> rs
      | None => False
      end /\
      match read_wal_archive_to_timestamp_micros sha256 fs mp target with
      | Some (Ok (m', tgt, got)) =>
          m' = m /\ length (stamped_at target (record_timestamps m)) = 1%nat /\
          got = recorded_by target (zip rs (record_timestamps m)) /\ got = take (length got) rs /\
          exists txn, last_txn got = Some txn /\ tgt = mkTimestampTarget target txn (vec_len got) txn
      | Some (Err _) => length (stamped_at target (record_timestamps m)) <> 1%nat
      | None => False
      end
  end.
Proof.
  destruct (read_wal_archive sha256 fs mp) as [[[m rs]|e]|] eqn:Hread.
  - apply read_archive_iff in Hread. split; [by apply read_to_txn_spec|by apply read_to_timestamp_spec].
  - unfold read_wal_archive_to_txn, read_wal_archive_to_timestamp_micros. by rewrite Hread.
  - unfold read_wal_archive_to_txn, read_wal_archive_to_timestamp_micros. by rewrite Hread.
Qed.

(** The sample, read to transaction 2 and at a time that two of its records carry. *)
Lemma sample_point_in_time :
  read_wal_archive_to_txn Sample.digest Sample.fs Sample.manifest_path 2 =
    Some (Ok (Sample.manifest, mkTarget 2 2 2, take 2 Sample.log)) /\
  length (stamped_at 20 (record_timestamps Sample.manifest)) = 2%nat.
Proof. by vm_compute. Qed.

(** ** Retention *)

Lemma archive_dir_nameable mp m dir :
  normal mp -> components mp <> [] ->
  Forall (fun s => normal (segment_path s) /\ components (segment_path s) <> []) (segments m) ->
  archive_segment_dir mp m = Ok dir -> nameable mp dir.
Proof.
  intros Hmp Hne Hsegs Hdir. unfold archive_segment_dir in Hdir.
  destruct Hsegs as [|s l [Hn Hc] _]; [done|]. cbn in Hdir. injection Hdir as <-.
  assert (exists par, parent mp = Some par /\ normal par) as (par & Hp & Hnp).
  { unfold parent. destruct (components mp) as [|c cs] eqn:E; [done|]. eexists. split; [done|].
    unfold normal in *. cbn [components]. rewrite E in Hmp. by apply Forall_removelast. }
  unfold resolve_manifest_path. rewrite Hp. change (from_option id (from_str ".") (Some par)) with par.
  destruct (segment_path s) as [[] cs]; cbn [absolute components] in *.
  - unfold parent. cbn [components]. destruct cs as [|c cs]; [done|]. split; [by apply Forall_removelast|by left].
  - rewrite join_suffix by (by apply (normal_suffix [])). unfold parent. cbn [components absolute].
    destruct (components par ++ cs) as [|c0 l0] eqn:El; [by apply app_nil in El as [_ ?]|].
    change (from_option id (from_str ".") (Some ?p)) with p.
    rewrite <- El, removelast_app by done. split.
    + apply Forall_app. split; [done|by apply Forall_removelast].
    + right. exists par, (removelast cs). done.
Qed.

(** The retained records of the three kinds of plan. *)
Inductive planned (sha256 : list byte -> list byte) (fs : Fs) (mp : Path) (m : WalArchiveManifest)
    (rs : list WalRecord) (plan : WalArchiveRetentionPlan) : list WalRecord -> Prop :=
| planned_to_txn target :
    plan_wal_archive_retention_to_txn sha256 fs mp target = Some (Ok plan) ->
    planned sha256 fs mp m rs plan (List.filter (at_or_before target) rs)
| planned_to_timestamp target :
    plan_wal_archive_retention_to_timestamp_micros sha256 fs mp target = Some (Ok plan) ->
    planned sha256 fs mp m rs plan (recorded_by target (zip rs (record_timestamps m)))
| planned_from_txn base :
    plan_wal_archive_retention_from_txn sha256 fs mp base = Some (Ok plan) ->
    planned sha256 fs mp m rs plan (List.filter (at_or_after base) rs).

Lemma planned_kept sha256 fs mp m rs plan retained :
  archive_read sha256 fs mp m rs -> planned sha256 fs mp m rs plan retained ->
  exists target ts, kept m rs retained ts /\
    plan_retention mp m target retained ts (vec_len rs - vec_len retained) = Ok plan.
Proof.
  intros Hread [target H|target H|base H].
  - destruct (plan_to_txn_kept _ _ _ _ _ Hread _ _ H) as (ts & ?). by exists target, ts.
  - by destruct (plan_to_timestamp_kept _ _ _ _ _ Hread _ _ H) as (txn & ts & ?); exists txn, ts.
  - destruct (plan_from_txn_kept _ _ _ _ _ Hread _ _ H) as (ts & ?). by exists base, ts.
Qed.

Lemma obsolete_disjoint mp old new p :
  p ∈ obsolete_segments mp old new -> p ∈ segment_paths mp old /\ p ∉ segment_paths mp new.
Proof.
  unfold obsolete_segments. rewrite list_elem_of_In, List.filter_In, <- list_elem_of_In.
  intros [Hp Hn]. split; [done|]. by case_bool_decide.
Qed.

(** [C34] A retention plan is sound for every way of cutting the log (up to a transaction,
    up to a timestamp, from a transaction on): the counts add up, no file the retained
    manifest names is scheduled for removal, and once the retained chunks and the retained
    manifest are stored the archive reads back as exactly the retained records. *)
Theorem retention_plan_sound (sha256 : list byte -> list byte)
    (Hsha : forall l, length (sha256 l) = 32%nat) (fs : Fs) (mp : Path) (m : WalArchiveManifest)
    (rs retained : list WalRecord) (plan : WalArchiveRetentionPlan) (dir : Path) (rps : Z)
    (Hread : read_wal_archive sha256 fs mp = Some (Ok (m, rs)))
    (Hplan : planned sha256 fs mp m rs plan retained)
    (Hdir : archive_segment_dir mp m = Ok dir)
    (Hrps : archive_records_per_segment mp m = Ok rps)
    (Hmp : normal mp /\ components mp <> [])
    (Hsegs : Forall (fun s => normal (segment_path s) /\ components (segment_path s) <> []) (segments m))
    (Htext : forall i, (i < length retained)%nat ->
      path_ok (manifest_segment_path mp (segment_file_path dir i)))
    (Hsize : vec_len rs * size_of_segment <= isize_max) :
  retained_record_count plan = vec_len retained /\
  removed_record_count plan = vec_len rs - vec_len retained /\
  (forall p, p ∈ removed_segments plan ->
    p ∈ segment_paths mp m /\ p ∉ segment_paths mp (retained_manifest plan)) /\
  forall pid fs0 fs', write_wal_archive_manifest sha256 pid fs0 mp (retained_manifest plan) = Ok fs' ->
    stored_chunks fs' dir (records_chunks rps retained) ->
    read_wal_archive sha256 fs' mp = Some (Ok (retained_manifest plan, retained)).
Proof.
  apply read_archive_iff in Hread.
  destruct (planned_kept _ _ _ _ _ _ _ Hread Hplan) as (target & ts & Hk & Hp).
  apply plan_retention_inv in Hp as (rps' & dir' & Hr' & Hd' & ->).
  rewrite Hr' in Hrps. rewrite Hd' in Hdir. injection Hrps as ->. injection Hdir as ->.
  split_and!; [done|done|intros p; apply obsolete_disjoint|].
  intros pid fs0 fs' Hw Hst. apply read_archive_iff.
  destruct (kept_ok _ _ _ _ _ Hread _ _ Hk) as (Hi & Hma & Hti & Hok & Hts & Hle).
  eapply built_reads; eauto.
  - unfold archive_records_per_segment in Hr'. destruct (head (segments m)) as [s|]; [|done].
    destruct (Z.ltb_spec 0 (record_count s)); [|done]. by injection Hr' as <-.
  - eapply archive_dir_nameable; [apply Hmp|apply Hmp|done|done].
  - unfold size_of_segment in *. lia.
Qed.

Lemma retention_plan_sound_witness :
  exists plan, plan_wal_archive_retention_to_txn Sample.digest Sample.fs Sample.manifest_path 2 = Some (Ok plan) /\
    retained_record_count plan = 2 /\ removed_record_count plan = 1.
Proof.
  pose (retained := mkManifest [chunk_segment Sample.manifest_path Sample.segment_dir 0 (take 2 Sample.log)]
    (mkMeta 2 (Some 2)) (take 2 Sample.times)).
  pose (plan := mkPlan 2 2 1 retained [segment_file_path Sample.segment_dir 1]).
  assert (plan_wal_archive_retention_to_txn Sample.digest Sample.fs Sample.manifest_path 2 = Some (Ok plan))
    as Hp by by vm_compute.
  exists plan. split; [exact Hp|].
  destruct (retention_plan_sound Sample.digest (fun _ => eq_refl) Sample.fs Sample.manifest_path
    Sample.manifest Sample.log _ plan Sample.segment_dir 2 Sample.read_fs
    (planned_to_txn _ _ _ _ _ _ 2 Hp)) as (H1 & H2 & _).
  - by vm_compute.
  - by vm_compute.
  - split; [|done]. by repeat constructor.
  - by repeat constructor.
  - intros i Hi. apply Sample.path_is_ok, Hi.
  - by vm_compute.
  - split; [exact H1|exact H2].
Defined.

(** ** Ingestion *)

Lemma read_segments_app fs mp l1 l2 rs1 rs2 :
  read_segments fs mp l1 = Some (Ok rs1) -> read_segments fs mp l2 = Some (Ok rs2) ->
  read_segments fs mp (l1 ++ l2) = Some (Ok (rs1 ++ rs2)).
Proof.
  revert rs1. induction l1 as [|s l1 IH]; intros rs1; [by intros [= <-]|]. cbn [app read_segments].
  destruct (read_segment_file _ _) as [[rs|]|]; try done.
  destruct (validate_archive_segment _ _ _) as [[]|]; [|done].
  destruct (read_segments fs mp l1) as [[rs'|]|]; try done. intros [= <-] H2.
  by rewrite (IH _ eq_refl H2), app_assoc.
Qed.

Lemma read_segments_ext fs fs' mp l :
  (forall s, s ∈ l -> fs' !! resolve_manifest_path mp (segment_path s) = fs !! resolve_manifest_path mp (segment_path s)) ->
  read_segments fs' mp l = read_segments fs mp l.
Proof.
  induction l as [|s l IH]; intros H; [done|]. cbn [read_segments]. unfold read_segment_file.
  rewrite (H s) by by left. rewrite IH; [done|]. intros s' Hs'. apply H. by right.
Qed.

(** The manifest an ingestion installs. *)
Definition appended_manifest (m : WalArchiveManifest) (entry : WalArchiveSegment) (all : list WalRecord)
    (ts : list WalArchiveRecordTimestamp) : WalArchiveManifest :=
  mkManifest (segments m ++ [entry]) (mkMeta (vec_len all) (last_txn all)) (record_timestamps m ++ ts).

Lemma append_inv sha256 pid fs mp sp ts m rs new m' fs' :
  read_wal_archive sha256 fs mp = Some (Ok (m, rs)) -> read_segment_file fs sp = Some (Ok new) ->
  append_wal_archive_segment_with_timestamps sha256 pid fs mp sp ts = Some (Ok (m', fs')) ->
  new <> [] /\
  m' = appended_manifest m (mkSegment (manifest_segment_path mp sp) (vec_len new) (first_txn new) (last_txn new))
         (rs ++ new) ts /\
  validate_archive_manifest_shape mp m' = Ok tt /\
  validate_archive_records mp m' (rs ++ new) = Ok tt /\
  validate_archive_timestamps mp m' (rs ++ new) = Ok tt /\
  write_wal_archive_manifest sha256 pid fs mp m' = Ok fs'.
Proof.
  intros Hread Hnew. unfold append_wal_archive_segment_with_timestamps. rewrite Hread, Hnew.
  destruct (Z.eqb_spec (vec_len new) 0) as [|Hne]; [done|].
  destruct (validate_archive_ingest_timestamps _ _ _ _) as [[]|]; [|done].
  destruct (validate_archive_ingest_continuity _ _ _) as [[]|]; [|done].
  destruct (validate_timestamp_metadata _ _ _) as [[]|]; [|done].
  fold (appended_manifest m (mkSegment (manifest_segment_path mp sp) (vec_len new) (first_txn new) (last_txn new))
    (rs ++ new) ts).
  destruct (validate_archive_manifest_shape _ _) as [[]|] eqn:E1; [|done].
  destruct (validate_archive_records _ _ _) as [[]|] eqn:E2; [|done].
  destruct (validate_archive_timestamps _ _ _) as [[]|] eqn:E3; [|done].
  destruct (write_wal_archive_manifest _ _ _ _ _) as [fs1|] eqn:E4; [|done].
  intros [= <- <-]. split_and!; try done. by intros ->.
Qed.

(** Ingesting a segment appends exactly its records: when the ingestion succeeds, the
    archive it leaves on disk reads back as the old records followed by those of the
    segment, in increasing transaction order, under the manifest it returned. *)
Theorem ingest_appends (sha256 : list byte -> list byte)
    (Hsha : forall l, length (sha256 l) = 32%nat) (pid : Z) (fs fs' : Fs) (mp sp : Path)
    (ts : list WalArchiveRecordTimestamp) (m m' : WalArchiveManifest) (rs new : list WalRecord)
    (Hread : read_wal_archive sha256 fs mp = Some (Ok (m, rs)))
    (Hnew : read_segment_file fs sp = Some (Ok new))
    (Happ : append_wal_archive_segment_with_timestamps sha256 pid fs mp sp ts = Some (Ok (m', fs')))
    (Hname : resolve_manifest_path mp (manifest_segment_path mp sp) = sp)
    (Hok : manifest_ok m')
    (Hfiles : forall p, p ∈ segment_paths mp m' -> p <> mp /\ p <> temporary_control_path pid mp) :
  read_wal_archive sha256 fs' mp = Some (Ok (m', rs ++ new)) /\
  new <> [] /\ StronglySorted (fun a b => record_txn a < record_txn b) (rs ++ new).
Proof.
  destruct (append_inv _ _ _ _ _ _ _ _ _ _ _ Hread Hnew Happ) as (Hne & Em & Hs & Hr & Ht & Hw).
  apply read_archive_iff in Hread. apply validate_records_Ok in Hr as (Hc & Hl & Hi).
  apply validate_timestamps_Ok in Ht as (Hma & Hti). split_and!; [|done|done].
  destruct (read_manifest_installed sha256 pid fs mp m' Hsha Hok Hs) as (body & Hw' & Hrd).
  rewrite Hw in Hw'. injection Hw' as ->. apply read_archive_iff. split; try done.
  - apply Hrd. unfold install. by rewrite lookup_insert_eq.
  - rewrite (read_segments_ext fs).
    2: { intros s Hin. destruct (Hfiles (resolve_manifest_path mp (segment_path s))) as [H1 H2].
         - unfold segment_paths. by apply (list_elem_of_fmap_2 (fun s => resolve_manifest_path mp (segment_path s))).
         - unfold install. by rewrite lookup_insert_ne, lookup_delete_ne. }
    rewrite Em. cbn [appended_manifest segments]. apply read_segments_app; [apply Hread|].
    cbn [read_segments segment_path]. rewrite Hname, Hnew.
    unfold validate_archive_segment. cbn [record_count first_txn_id last_txn_id].
    rewrite Z.eqb_refl, !bool_decide_eq_true_2 by done. cbn. by rewrite app_nil_r.
Qed.

(** The example archive with the further segment ingested. *)
Definition example_appended : WalArchiveManifest :=
  appended_manifest Sample.manifest
    (mkSegment (mkPath false ["segments"; "extra.wal"]) 1 (Some 7) (Some 7))
    (Sample.log ++ [mkRecord 7 []]) [mkTimestamp 7 30].

Lemma example_appended_ok : manifest_ok example_appended.
Proof.
  pose proof Sample.manifest_is_ok as [Hs Ht _ _ _]. split.
  - apply Forall_app. split; [exact Hs|]. apply Forall_cons_2; [|apply Forall_nil_2].
    split_and!; [by split_and!; vm_compute|Sample.in_range..].
  - apply Forall_app. split; [exact Ht|]. apply Forall_cons_2; [|apply Forall_nil_2].
    split; Sample.in_range.
  - Sample.in_range.
  - Sample.in_range.
  - Sample.in_range.
Qed.

(** The first component of a successful result, by evaluation. *)
Lemma fallible_fst {A B} (x : fallible (A * B)) (a : A) :
  option_map (fun r => match r with Ok (a, _) => Some a | Err _ => None end) x = Some (Some a) ->
  exists b, x = Some (Ok (a, b)).
Proof. destruct x as [[[a' b]|]|]; intros [= ->]. by exists b. Qed.

Lemma ingest_appends_witness :
  exists fs', read_wal_archive Sample.digest fs' Sample.manifest_path =
    Some (Ok (example_appended, Sample.log ++ [mkRecord 7 []])).
Proof.
  destruct (fallible_fst (append_wal_archive_segment_with_timestamps Sample.digest 42 Sample.fs
    Sample.manifest_path Sample.extra_path [mkTimestamp 7 30]) example_appended) as (fs' & E).
  { by vm_compute. }
  exists fs'.
  refine (proj1 (ingest_appends Sample.digest (fun _ => eq_refl) 42 Sample.fs fs' Sample.manifest_path
    Sample.extra_path [mkTimestamp 7 30] Sample.manifest example_appended Sample.log [mkRecord 7 []]
    Sample.read_fs _ E _ example_appended_ok _)).
  - by vm_compute.
  - by vm_compute.
  - intros p Hp. apply (Forall_forall (fun p => p <> Sample.manifest_path /\
      p <> temporary_control_path 42 Sample.manifest_path) (segment_paths Sample.manifest_path example_appended)); [|exact Hp].
    repeat (apply Forall_cons_2; [split; by vm_compute|]). apply Forall_nil_2.
Defined.

End ArchiveProps.
