(* ===== verification/Codec.v ===== *)
(** * Fixed layouts (crates/wal/src/canonical.rs, canonical/generation_terminal.rs)

    The bounded writer that fills a buffer of a known length field by field, and the cursor
    that reads the same fields back.  The canonical envelope and the generation descriptor have
    one of each, alike but for the texts of their errors, which are the record [CodecErrors].
    A writer is its capacity and what it has put in the buffer; a cursor is the bytes that
    remain.  Offsets of slices in memory do not reach [2^64], so the overflow checks on them
    never fire. *)

From stdpp Require Import base strings list.
From S2P Require Import Prelude Types Bytes.

Module Codec.

Record CodecErrors := mkCodecErrors {
  e_room : EngineError;
  e_unwritten : EngineError;
  e_truncated : EngineError;
  e_trailing : EngineError;
}.

(** ** Writing *)

Record Writer := mkWriter { w_cap : Z; w_out : list byte }.

Definition writer_new (cap : Z) : Writer := mkWriter cap [].

Section codec.
Context (E : CodecErrors).

Definition w_bytes (w : Writer) (value : list byte) : result Writer EngineError :=
  if vec_len (w_out w) + vec_len value <=? w_cap w
  then Ok (mkWriter (w_cap w) (w_out w ++ value))
  else Err (e_room E).

Definition w_uint (n : nat) (w : Writer) (value : Z) : result Writer EngineError :=
  w_bytes w (to_le_bytes n value).

Definition w_finish (w : Writer) : result (list byte) EngineError :=
  if vec_len (w_out w) =? w_cap w then Ok (w_out w) else Err (e_unwritten E).

(** ** Reading *)

Definition r_take (bytes : list byte) (len : Z) : result (list byte * list byte) EngineError :=
  if len <=? vec_len bytes then Ok (take (Z.to_nat len) bytes, drop (Z.to_nat len) bytes)
  else Err (e_truncated E).

Definition r_uint (n : nat) (bytes : list byte) : result (Z * list byte) EngineError :=
  let? (value, bytes) := r_take bytes (Z.of_nat n) in Ok (from_le_bytes value, bytes).

Definition r_finish (bytes : list byte) : result unit EngineError :=
  match bytes with [] => Ok tt | _ => Err (e_trailing E) end.

End codec.

(** [[0; n]]. *)
Definition zeros (n : nat) : list byte := replicate n x00.

#[global] Arguments zeros : simpl never.

Definition all_zero (l : list byte) : bool := List.forallb (fun b => byte_val b =? 0) l.

(** A value of an unsigned type of [n] bytes. *)
Definition fits (n : nat) (z : Z) : Prop := 0 <= z < 2 ^ (Z.of_nat n * 8).

#[global] Arguments fits : simpl never.
#[global] Arguments vec_len : simpl never.

#[global] Instance fits_dec n z : Decision (fits n z).
Proof. unfold fits. apply _. Defined.

(** ** Lemmas *)

Lemma length_zeros n : length (zeros n) = n.
Proof. apply length_replicate. Qed.

Lemma vec_len_length {A} (l : list A) n : vec_len l = Z.of_nat n <-> length l = n.
Proof. unfold vec_len. lia. Qed.

Lemma vec_len_le_bytes n z : vec_len (to_le_bytes n z) = Z.of_nat n.
Proof. unfold vec_len. by rewrite length_to_le_bytes. Qed.

Lemma vec_len_zeros n : vec_len (zeros n) = Z.of_nat n.
Proof. unfold vec_len. by rewrite length_zeros. Qed.

Lemma vec_len_nil {A} : vec_len (@nil A) = 0.
Proof. done. Qed.

Lemma byte_val_zero b : byte_val b = 0 <-> b = x00.
Proof. split; [|by intros ->]. destruct b; vm_compute; intros [=]; reflexivity. Qed.

Lemma all_zero_spec l : all_zero l = true <-> l = zeros (length l).
Proof.
  unfold all_zero, zeros. induction l as [|b l IH]; cbn; [done|].
  rewrite andb_true_iff, Z.eqb_eq, byte_val_zero, IH. split.
  - intros [-> H]. by rewrite <- H.
  - intros [= -> H]. by rewrite <- H.
Qed.

Section facts.
Context (E : CodecErrors).

Lemma w_bytes_ok w v :
  vec_len (w_out w) + vec_len v <= w_cap w ->
  w_bytes E w v = Ok (mkWriter (w_cap w) (w_out w ++ v)).
Proof. unfold w_bytes. intros H. by rewrite (proj2 (Z.leb_le _ _) H). Qed.

Lemma w_finish_ok w : vec_len (w_out w) = w_cap w -> w_finish E w = Ok (w_out w).
Proof. unfold w_finish. intros H. by rewrite (proj2 (Z.eqb_eq _ _) H). Qed.

Lemma r_take_app v r len : vec_len v = len -> r_take E (v ++ r) len = Ok (v, r).
Proof.
  intros <-. unfold r_take. rewrite vec_len_app.
  rewrite (proj2 (Z.leb_le _ _)) by (pose proof (vec_len_nonneg r); lia).
  unfold vec_len. by rewrite Nat2Z.id, take_app_length, drop_app_length.
Qed.

Lemma r_take_all v len : vec_len v = len -> r_take E v len = Ok (v, []).
Proof. intros H. rewrite <- (app_nil_r v) at 1. by apply r_take_app. Qed.

Lemma r_take_Ok bytes len v r :
  0 <= len -> r_take E bytes len = Ok (v, r) <-> bytes = v ++ r /\ vec_len v = len.
Proof.
  intros Hlen. split.
  - unfold r_take. destruct (Z.leb_spec len (vec_len bytes)) as [Hle|]; [|done]. intros [= <- <-].
    split; [by rewrite take_drop|]. unfold vec_len in *. rewrite length_take. lia.
  - intros [-> Hv]. by apply r_take_app.
Qed.

Lemma r_uint_app n z r : fits n z -> r_uint E n (to_le_bytes n z ++ r) = Ok (z, r).
Proof.
  intros Hz. unfold r_uint. rewrite r_take_app by apply vec_len_le_bytes.
  by rewrite from_to_le_bytes.
Qed.

Lemma r_uint_all n z : fits n z -> r_uint E n (to_le_bytes n z) = Ok (z, []).
Proof. intros H. rewrite <- (app_nil_r (to_le_bytes n z)). by apply r_uint_app. Qed.

Lemma r_uint_Ok n bytes z r :
  r_uint E n bytes = Ok (z, r) <-> bytes = to_le_bytes n z ++ r /\ fits n z.
Proof.
  split.
  - unfold r_uint. destruct (r_take E bytes (Z.of_nat n)) as [[v r']|] eqn:H; [|done].
    intros [= <- <-]. apply r_take_Ok in H as [-> Hv]; [|lia]. apply vec_len_length in Hv.
    rewrite to_from_le_bytes by done. split; [done|]. unfold fits.
    rewrite <- Hv, Z.mul_comm. apply from_le_bytes_range.
  - intros [-> Hz]. by apply r_uint_app.
Qed.

Lemma r_finish_Ok bytes u : r_finish E bytes = Ok u <-> bytes = [].
Proof. destruct bytes, u; cbn; split; done. Qed.

End facts.

End Codec.

(** Evaluate the fields of a writer into one list: lengths of symbolic fields are hypotheses. *)
#[export] Hint Rewrite @vec_len_app Codec.vec_len_le_bytes Codec.vec_len_zeros @Codec.vec_len_nil : codec_len.

Ltac len_solve :=
  cbn [Codec.w_out Codec.w_cap Codec.writer_new]; autorewrite with codec_len; unfold vec_len in *; lia.

Ltac write_fields :=
  unfold Codec.w_uint;
  repeat (rewrite Codec.w_bytes_ok by len_solve; cbn [Codec.w_out Codec.w_cap Codec.writer_new]).

(** Invert one step of a decoder that succeeded. *)
Ltac dec_field Hr :=
  first
    [ apply Codec.r_uint_Ok in Hr as [-> Hr]
    | apply Codec.r_take_Ok in Hr as [-> Hr]; [|first [lia | apply vec_len_nonneg | match goal with H : Codec.fits _ ?n |- 0 <= ?n => apply H end]]
    | apply Codec.r_finish_Ok in Hr; subst
    | idtac ].

Ltac dec_step H :=
  match type of H with
  | match ?e with Ok _ => _ | Err _ => _ end = Ok _ =>
      let Hr := fresh "Hr" in
      destruct e as [?|?] eqn:Hr; [|discriminate H];
      repeat match type of H with
             | match ?p with (_, _) => _ end = Ok _ => destruct p as [? ?]
             end;
      dec_field Hr
  | (if negb ?b then _ else _) = Ok _ =>
      let Hb := fresh "Hb" in destruct b eqn:Hb; cbn [negb] in H; [|discriminate H]
  | (if ?b then Err _ else _) = Ok _ =>
      let Hb := fresh "Hb" in destruct b eqn:Hb; cbn iota in H; [discriminate H|]
  end; cbn beta iota zeta in H.

Ltac bools :=
  repeat match goal with
         | u : unit |- _ => destruct u
         | H : bool_decide _ = true |- _ => apply bool_decide_eq_true_1 in H
         | H : bool_decide _ = false |- _ => apply bool_decide_eq_false_1 in H
         | H : (_ || _)%bool = false |- _ => apply orb_false_iff in H as [? ?]
         | H : (_ && _)%bool = true |- _ => apply andb_true_iff in H as [? ?]
         | H : negb _ = false |- _ => apply negb_false_iff in H
         | H : negb _ = true |- _ => apply negb_true_iff in H
         | H : (_ =? _) = true |- _ => apply Z.eqb_eq in H
         | H : (_ =? _) = false |- _ => apply Z.eqb_neq in H
         | H : (_ <? _) = true |- _ => apply Z.ltb_lt in H
         | H : (_ <? _) = false |- _ => apply Z.ltb_ge in H
         | H : (_ <=? _) = true |- _ => apply Z.leb_le in H
         | H : (_ <=? _) = false |- _ => apply Z.leb_gt in H
         end.

(** Read one field of an encoding. *)
Ltac fits_solve := assumption || (vm_compute; split; [discriminate|reflexivity]).
Ltac field_len := reflexivity || (unfold vec_len; cbn -[Z.of_nat]; lia).

Ltac read_field :=
  first
    [ rewrite Codec.r_uint_app by fits_solve
    | rewrite Codec.r_take_app by field_len
    | rewrite Codec.r_uint_all by fits_solve
    | rewrite Codec.r_take_all by field_len ];
  cbn beta iota zeta.

(** Pass a check of an encoding. *)
Ltac read_check :=
  first
    [ rewrite Z.eqb_refl
    | rewrite (bool_decide_eq_true_2 _ eq_refl)
    | rewrite (proj2 (Z.ltb_ge _ _)) by (assumption || lia) ];
  cbn [negb orb andb]; cbn beta iota zeta.

Ltac read_go := repeat first [read_check | read_field].
