(* ===== verification/Canonical.v ===== *)
(** * Canonical transaction envelope: its parts (crates/wal/src/canonical.rs)

    The identity and the outcome-free header of a transaction, fragment kinds, terminal
    outcomes, the physical coordinates, one physical frame with its digest, and the framing
    arithmetic.  The envelope built from them is in [Envelope].  Arrays are byte lists of the
    length their well-formedness predicate states.  [sha256] is the digest of the [sha2]
    crate. *)

From stdpp Require Import base strings list pretty.
From S2P Require Import Prelude Types Bytes Codec WalSegment.

Module Canonical.
Import Codec.

Definition durability (message : string) : EngineError :=
  Durability ("canonical WAL: " +:+ message).

Definition codec_errors : CodecErrors :=
  mkCodecErrors (durability "fixed encoder buffer length mismatch")
    (durability "fixed encoder leaves unwritten bytes")
    (durability "truncated encoding") (durability "trailing bytes").

Notation put := (w_bytes codec_errors).
Notation put8 := (w_uint codec_errors 1).
Notation put16 := (w_uint codec_errors 2).
Notation put32 := (w_uint codec_errors 4).
Notation put64 := (w_uint codec_errors 8).
Notation get := (r_take codec_errors).
Notation get8 := (r_uint codec_errors 1).
Notation get16 := (r_uint codec_errors 2).
Notation get32 := (r_uint codec_errors 4).
Notation get64 := (r_uint codec_errors 8).

(** ** Constants *)

Definition HEADER_MAGIC : list byte := as_bytes "GPUDBCANHDR1" ++ zeros 4.
Definition FRAME_MAGIC : list byte := as_bytes "GPUDBCANWAL1" ++ zeros 4.
Definition RECORD_MAGIC : list byte := as_bytes "GPUDBCANREC1" ++ zeros 4.
Definition FORMAT_VERSION : Z := 1.
Definition SEMANTICS_VERSION : Z := 1.
Definition MIN_READER_VERSION : Z := 1.
Definition MAX_READER_VERSION : Z := 1.
Definition FRAME_FRAGMENT : Z := 1.
Definition FRAME_MARKER : Z := 2.
Definition FRAME_FIXED_BYTES : Z := 244.
Definition FRAME_DIGEST_BYTES : Z := 32.
Definition PREAPPLY_HEADER_BYTES : Z := 240.
Definition CANONICAL_OUTCOME_BYTES : Z := 92.
Definition PACKED_RECORD_PREFIX_BYTES : Z := 20.
Definition PACKED_FRAME_LENGTH_BYTES : Z := 4.
Definition MAX_FRAGMENT_BYTES : Z := 16 * 1024 * 1024.
Definition MAX_ENVELOPE_BYTES : Z := 64 * 1024 * 1024.

Definition PREAPPLY_DOMAIN : list byte := as_bytes "gpu-db/adr014/preapply/v1".
Definition FRAGMENT_LEAF_DOMAIN : list byte := as_bytes "gpu-db/adr014/fragment-leaf/v1".
Definition FRAGMENT_ROOT_DOMAIN : list byte := as_bytes "gpu-db/adr014/fragment-root/v1".
Definition FINAL_DOMAIN : list byte := as_bytes "gpu-db/adr014/final-outcome/v1".
Definition FRAME_DOMAIN : list byte := as_bytes "gpu-db/adr014/physical-frame/v1".

Definition u32_max : Z := 4294967295.

(** ** Framing arithmetic *)

Record CanonicalWalFootprint := mkFootprint {
  fp_fragment_count : Z;
  fp_frame_count : Z;
  fragment_body_bytes : Z;
  preapply_bytes : Z;
  fragment_frame_bytes : Z;
  marker_frame_bytes : Z;
  fragment_packed_bytes : Z;
  marker_packed_bytes : Z;
  packed_record_bytes : Z;
  serialized_record_bytes : Z;
}.

(** A chain of [checked_add]s on [u64]. *)
Definition checked_sum (parts : list Z) : option Z :=
  match parts with
  | [] => Some 0
  | first :: parts =>
      List.fold_left
        (fun acc part => match acc with Some acc => checked_add64 acc part | None => None end)
        parts (Some first)
  end.

(** [for index in 0..fragment_len]: the sums of the bodies and of the frames. *)
Fixpoint footprint_loop (n : nat) (index : Z) (body_len : Z -> result Z EngineError)
    (bodies frames : Z) : result (Z * Z) EngineError :=
  match n with
  | O => Ok (bodies, frames)
  | S n =>
      let? body := body_len index in
      if MAX_FRAGMENT_BYTES <? body then
        Err (durability ("fragment " +:+ pretty index +:+ " exceeds byte bound"))
      else
        let? bodies := ok_or (checked_add64 bodies body) (durability "fragment body byte sum overflows") in
        let header := if index =? 0 then PREAPPLY_HEADER_BYTES else 0 in
        let? frame := ok_or (checked_sum [FRAME_FIXED_BYTES; header; body; FRAME_DIGEST_BYTES])
          (durability "fragment frame byte length overflows") in
        let? frames := ok_or (checked_add64 frames frame) (durability "fragment frame byte sum overflows") in
        footprint_loop n (index + 1) body_len bodies frames
  end.

Definition canonical_wal_footprint_by_index_with_marker (fragment_len : Z)
    (body_len : Z -> result Z EngineError) (terminal_marker_bytes : Z)
    : result CanonicalWalFootprint EngineError :=
  if u32_max <? fragment_len then Err (durability "fragment count exceeds u32 framing")
  else if (fragment_len =? 0) || (fragment_len =? u32_max) then
    Err (durability "fragment count must be in 1..u32::MAX")
  else
    let fragment_count := fragment_len in
    let frame_count := fragment_count + 1 in
    let? (bodies, frames) := footprint_loop (Z.to_nat fragment_len) 0 body_len 0 0 in
    let? preapply := ok_or (checked_add64 PREAPPLY_HEADER_BYTES bodies)
      (durability "pre-apply envelope byte length overflows") in
    if MAX_ENVELOPE_BYTES <? preapply then Err (durability "envelope exceeds byte bound")
    else
      let? marker_frame := ok_or (checked_sum [FRAME_FIXED_BYTES; terminal_marker_bytes; FRAME_DIGEST_BYTES])
        (durability "marker frame byte length overflows") in
      if MAX_ENVELOPE_BYTES <? marker_frame then
        Err (durability "terminal marker frame exceeds byte bound")
      else
        let? fragment_packed := ok_or (checked_add64 frames (PACKED_FRAME_LENGTH_BYTES * fragment_count))
          (durability "fragment packed byte sum overflows") in
        let? marker_packed := ok_or (checked_add64 PACKED_FRAME_LENGTH_BYTES marker_frame)
          (durability "marker packed byte length overflows") in
        let? packed := ok_or (checked_sum [PACKED_RECORD_PREFIX_BYTES; fragment_packed; marker_packed])
          (durability "canonical record byte length overflow") in
        if MAX_ENVELOPE_BYTES + 1024 * 1024 <? packed then
          Err (durability "canonical record exceeds byte bound")
        else
          let? serialized := ok_or (checked_add64 packed Wal.WAL_RECORD_HEADER_LEN)
            (durability "serialized record byte length overflow") in
          Ok (mkFootprint fragment_count frame_count bodies preapply frames marker_frame
                fragment_packed marker_packed packed serialized).

Definition canonical_wal_footprint_by_index (fragment_len : Z)
    (body_len : Z -> result Z EngineError) : result CanonicalWalFootprint EngineError :=
  canonical_wal_footprint_by_index_with_marker fragment_len body_len CANONICAL_OUTCOME_BYTES.

(** Index [i] of a slice the caller bounds by its length. *)
Definition at_index (l : list Z) (i : Z) : Z := default 0 (l !! Z.to_nat i).

Definition canonical_wal_footprint (fragment_body_lengths : list Z)
    : result CanonicalWalFootprint EngineError :=
  canonical_wal_footprint_by_index (vec_len fragment_body_lengths)
    (fun index => Ok (at_index fragment_body_lengths index)).

(** ** Identity *)

Record CanonicalIdentity := mkIdentity {
  database_id : list byte;
  cluster_id : list byte;
  timeline_id : list byte;
  format_epoch : Z;
}.

#[export] Instance CanonicalIdentity_eq_dec : EqDecision CanonicalIdentity.
Proof. solve_decision. Defined.

Definition nonzero_identity (value : list byte) (field : string) : result unit EngineError :=
  if all_zero value then Err (durability (field +:+ " must not be all zero")) else Ok tt.

Definition validate_identity (i : CanonicalIdentity) : result unit EngineError :=
  let? _ := nonzero_identity (database_id i) "database id" in
  let? _ := nonzero_identity (cluster_id i) "cluster id" in
  let? _ := nonzero_identity (timeline_id i) "timeline id" in
  if format_epoch i =? 0 then Err (durability "format epoch zero is reserved") else Ok tt.

(** ** The pre-apply header *)

Inductive CanonicalIsolation := ReadCommitted | RepeatableRead | System.

#[export] Instance CanonicalIsolation_eq_dec : EqDecision CanonicalIsolation.
Proof. solve_decision. Defined.

Definition isolation_code (i : CanonicalIsolation) : Z :=
  match i with ReadCommitted => 1 | RepeatableRead => 2 | System => 3 end.

Definition decode_isolation (value : Z) : result CanonicalIsolation EngineError :=
  if value =? 1 then Ok ReadCommitted
  else if value =? 2 then Ok RepeatableRead
  else if value =? 3 then Ok System
  else Err (durability ("unsupported isolation code " +:+ pretty value)).

Record CanonicalPreApplyHeader := mkPreApply {
  identity : CanonicalIdentity;
  leader_epoch : Z;
  commit_seq : Z;
  stable_transaction_id : Z;
  request_digest : list byte;
  isolation : CanonicalIsolation;
  flags : Z;
  catalog_before_epoch : Z;
  catalog_after_epoch : Z;
  catalog_before_digest : list byte;
  catalog_after_digest : list byte;
  operation_count : Z;
  table_block_count : Z;
  allocator_high_water : Z;
}.

#[export] Instance CanonicalPreApplyHeader_eq_dec : EqDecision CanonicalPreApplyHeader.
Proof. solve_decision. Defined.

Definition validate_header (h : CanonicalPreApplyHeader) : result unit EngineError :=
  let? _ := validate_identity (identity h) in
  if leader_epoch h =? 0 then Err (durability "leader/log epoch zero is reserved")
  else if (commit_seq h =? 0) || (commit_seq h =? u64_max) then
    Err (durability "commit sequence must be in 1..=u64::MAX-1")
  else if stable_transaction_id h =? 0 then Err (durability "stable transaction id zero is reserved")
  else if operation_count h =? 0 then Err (durability "operation count must be non-zero")
  else if catalog_after_epoch h <? catalog_before_epoch h then Err (durability "catalog epoch regressed")
  else Ok tt.

(** What [encode_into] puts in a buffer of [len] bytes. *)
Definition encode_header_into (len : Z) (h : CanonicalPreApplyHeader) : result (list byte) EngineError :=
  let? _ := validate_header h in
  let w := writer_new len in
  let? w := put w HEADER_MAGIC in
  let? w := put16 w FORMAT_VERSION in
  let? w := put16 w SEMANTICS_VERSION in
  let? w := put16 w MIN_READER_VERSION in
  let? w := put16 w MAX_READER_VERSION in
  let? w := put w (database_id (identity h)) in
  let? w := put w (cluster_id (identity h)) in
  let? w := put w (timeline_id (identity h)) in
  let? w := put64 w (format_epoch (identity h)) in
  let? w := put64 w (leader_epoch h) in
  let? w := put64 w (commit_seq h) in
  let? w := put64 w (stable_transaction_id h) in
  let? w := put w (request_digest h) in
  let? w := put8 w (isolation_code (isolation h)) in
  let? w := put w (zeros 3) in
  let? w := put32 w (flags h) in
  let? w := put64 w (catalog_before_epoch h) in
  let? w := put64 w (catalog_after_epoch h) in
  let? w := put w (catalog_before_digest h) in
  let? w := put w (catalog_after_digest h) in
  let? w := put32 w (operation_count h) in
  let? w := put32 w (table_block_count h) in
  let? w := put64 w (allocator_high_water h) in
  w_finish codec_errors w.

Definition encode_header (h : CanonicalPreApplyHeader) : result (list byte) EngineError :=
  encode_header_into PREAPPLY_HEADER_BYTES h.

Definition decode_identity (c : list byte) : result (CanonicalIdentity * list byte) EngineError :=
  let? (database_id, c) := get c 16 in
  let? (cluster_id, c) := get c 16 in
  let? (timeline_id, c) := get c 16 in
  let? (format_epoch, c) := get64 c in
  Ok (mkIdentity database_id cluster_id timeline_id format_epoch, c).

Definition decode_header (bytes : list byte) : result CanonicalPreApplyHeader EngineError :=
  let c := bytes in
  let? (magic, c) := get c (vec_len HEADER_MAGIC) in
  if negb (bool_decide (magic = HEADER_MAGIC)) then Err (durability "invalid pre-apply header magic")
  else
    let? (format, c) := get16 c in
    let? (semantics, c) := get16 c in
    let? (min_reader, c) := get16 c in
    let? (max_reader, c) := get16 c in
    if negb (format =? FORMAT_VERSION) || negb (semantics =? SEMANTICS_VERSION) ||
       (FORMAT_VERSION <? min_reader) || (max_reader <? FORMAT_VERSION) then
      Err (durability ("unsupported header versions format=" +:+ pretty format +:+ " semantics=" +:+
             pretty semantics +:+ " reader=" +:+ pretty min_reader +:+ "..=" +:+ pretty max_reader))
    else
      let? (identity, c) := decode_identity c in
      let? (leader_epoch, c) := get64 c in
      let? (commit_seq, c) := get64 c in
      let? (stable_transaction_id, c) := get64 c in
      let? (request_digest, c) := get c 32 in
      let? (code, c) := get8 c in
      let? isolation := decode_isolation code in
      let? (reserved, c) := get c 3 in
      if negb (bool_decide (reserved = zeros 3)) then Err (durability "non-zero reserved header bytes")
      else
        let? (flags, c) := get32 c in
        let? (catalog_before_epoch, c) := get64 c in
        let? (catalog_after_epoch, c) := get64 c in
        let? (catalog_before_digest, c) := get c 32 in
        let? (catalog_after_digest, c) := get c 32 in
        let? (operation_count, c) := get32 c in
        let? (table_block_count, c) := get32 c in
        let? (allocator_high_water, c) := get64 c in
        let? _ := r_finish codec_errors c in
        let header := mkPreApply identity leader_epoch commit_seq stable_transaction_id request_digest
          isolation flags catalog_before_epoch catalog_after_epoch catalog_before_digest
          catalog_after_digest operation_count table_block_count allocator_high_water in
        let? _ := validate_header header in
        Ok header.

(** ** Fragments *)

Inductive CanonicalFragmentKind :=
| RowMutation
| CatalogMutation
| TableReset
| TableRewrite
| SequenceValueTransition
| PrivateSequenceChild
| AllocatorLease
| TransactionClaimStatus.

#[export] Instance CanonicalFragmentKind_eq_dec : EqDecision CanonicalFragmentKind.
Proof. solve_decision. Defined.

Definition kind_code (k : CanonicalFragmentKind) : Z :=
  match k with
  | RowMutation => 1
  | CatalogMutation => 2
  | TableReset => 3
  | TableRewrite => 4
  | SequenceValueTransition => 5
  | PrivateSequenceChild => 6
  | AllocatorLease => 7
  | TransactionClaimStatus => 8
  end.

Definition decode_kind (value : Z) : result CanonicalFragmentKind EngineError :=
  match value with
  | 1 => Ok RowMutation
  | 2 => Ok CatalogMutation
  | 3 => Ok TableReset
  | 4 => Ok TableRewrite
  | 5 => Ok SequenceValueTransition
  | 6 => Ok PrivateSequenceChild
  | 7 => Ok AllocatorLease
  | 8 => Ok TransactionClaimStatus
  | other => Err (durability ("unsupported fragment kind " +:+ pretty other))
  end.

Record CanonicalFragment := mkFragment { kind : CanonicalFragmentKind; body : list byte }.

#[export] Instance CanonicalFragment_eq_dec : EqDecision CanonicalFragment.
Proof. solve_decision. Defined.

(** ** Outcomes *)

Inductive CanonicalOutcomeKind := CommitSuccess | CommitNoOp | AbortError.

#[export] Instance CanonicalOutcomeKind_eq_dec : EqDecision CanonicalOutcomeKind.
Proof. solve_decision. Defined.

Definition outcome_code (k : CanonicalOutcomeKind) : Z :=
  match k with CommitSuccess => 1 | CommitNoOp => 2 | AbortError => 3 end.

Definition decode_outcome_kind (value : Z) : result CanonicalOutcomeKind EngineError :=
  match value with
  | 1 => Ok CommitSuccess
  | 2 => Ok CommitNoOp
  | 3 => Ok AbortError
  | other => Err (durability ("unsupported outcome kind " +:+ pretty other))
  end.

Record CanonicalOutcome := mkOutcome {
  outcome_kind : CanonicalOutcomeKind;
  affected_rows : Z;
  sqlstate : option (list byte);
  constraint_id : Z;
  target_digest : list byte;
  returning_digest : list byte;
}.

#[export] Instance CanonicalOutcome_eq_dec : EqDecision CanonicalOutcome.
Proof. solve_decision. Defined.

Definition is_ascii_digit (b : byte) : bool := between 48 57 (byte_val b).
Definition is_ascii_uppercase (b : byte) : bool := between 65 90 (byte_val b).
Definition is_ascii_alphanumeric (b : byte) : bool :=
  is_ascii_digit b || is_ascii_uppercase b || between 97 122 (byte_val b).

Definition validate_outcome (o : CanonicalOutcome) : result unit EngineError :=
  match outcome_kind o, sqlstate o with
  | AbortError, Some state =>
      if List.forallb is_ascii_alphanumeric state then Ok tt
      else Err (durability "AbortError requires an ASCII SQLSTATE")
  | AbortError, None => Err (durability "AbortError requires an ASCII SQLSTATE")
  | _, None => Ok tt
  | _, Some _ => Err (durability "successful outcome must not carry SQLSTATE")
  end.

Definition encode_outcome_into (len : Z) (o : CanonicalOutcome) : result (list byte) EngineError :=
  let? _ := validate_outcome o in
  let w := writer_new len in
  let? w := put8 w (outcome_code (outcome_kind o)) in
  let? w := put8 w (match sqlstate o with Some _ => 1 | None => 0 end) in
  let? w := put w (zeros 2) in
  let? w := put64 w (affected_rows o) in
  let? w := put64 w (constraint_id o) in
  let? w := put w (default (zeros 5) (sqlstate o)) in
  let? w := put w (zeros 3) in
  let? w := put w (target_digest o) in
  let? w := put w (returning_digest o) in
  w_finish codec_errors w.

Definition encode_outcome (o : CanonicalOutcome) : result (list byte) EngineError :=
  encode_outcome_into CANONICAL_OUTCOME_BYTES o.

(** [encode_canonical_outcome_into_exact]: its buffer has the exact length by its type. *)
Definition encode_canonical_outcome_into_exact (o : CanonicalOutcome) : result (list byte) EngineError :=
  encode_outcome_into CANONICAL_OUTCOME_BYTES o.

Definition decode_outcome (bytes : list byte) : result CanonicalOutcome EngineError :=
  let c := bytes in
  let? (code, c) := get8 c in
  let? kind := decode_outcome_kind code in
  let? (flag, c) := get8 c in
  let? has_sqlstate :=
    match flag with
    | 0 => Ok false
    | 1 => Ok true
    | other => Err (durability ("invalid SQLSTATE flag " +:+ pretty other))
    end in
  let? (reserved, c) := get c 2 in
  if negb (bool_decide (reserved = zeros 2)) then Err (durability "non-zero outcome reserved bytes")
  else
    let? (affected_rows, c) := get64 c in
    let? (constraint_id, c) := get64 c in
    let? (state, c) := get c 5 in
    if negb has_sqlstate && negb (bool_decide (state = zeros 5)) then
      Err (durability "non-zero absent outcome SQLSTATE")
    else
      let? (padding, c) := get c 3 in
      if negb (bool_decide (padding = zeros 3)) then Err (durability "non-zero outcome padding")
      else
        let? (target_digest, c) := get c 32 in
        let? (returning_digest, c) := get c 32 in
        let? _ := r_finish codec_errors c in
        let outcome := mkOutcome kind affected_rows (if has_sqlstate then Some state else None)
          constraint_id target_digest returning_digest in
        let? _ := validate_outcome outcome in
        Ok outcome.

Definition decode_canonical_outcome_exact (bytes : list byte) : result CanonicalOutcome EngineError :=
  if negb (vec_len bytes =? CANONICAL_OUTCOME_BYTES) then
    Err (durability ("canonical outcome length " +:+ pretty (vec_len bytes) +:+
           " does not match exact width " +:+ pretty CANONICAL_OUTCOME_BYTES))
  else decode_outcome bytes.

(** ** Physical coordinates *)

Record CanonicalPhysicalRange := mkPhysical {
  log_epoch : Z;
  lane_id : Z;
  segment_id : Z;
  first_frame_ordinal : Z;
}.

#[export] Instance CanonicalPhysicalRange_eq_dec : EqDecision CanonicalPhysicalRange.
Proof. solve_decision. Defined.

Definition validate_physical (p : CanonicalPhysicalRange) (frame_count : Z) : result unit EngineError :=
  if (log_epoch p =? 0) || (segment_id p =? 0) then
    Err (durability "log epoch and segment id must be non-zero")
  else
    let? _ := ok_or (checked_add64 (first_frame_ordinal p) frame_count)
      (durability "physical frame ordinal overflow") in
    Ok tt.

(** ** Frames *)

Definition canonical_frame_encoded_len (header_len body_len : Z) : result Z EngineError :=
  ok_or (checked_sum [FRAME_FIXED_BYTES; header_len; body_len; FRAME_DIGEST_BYTES])
    (durability "physical frame byte length overflow").

Record DecodedFrame := mkFrame {
  frame_type : Z;
  frame_identity : CanonicalIdentity;
  frame_physical : CanonicalPhysicalRange;
  frame_stable_transaction_id : Z;
  frame_commit_seq : Z;
  frame_index : Z;
  fragment_count : Z;
  frame_kind : Z;
  header_digest : list byte;
  root : list byte;
  leaf_or_final : list byte;
  header_bytes : list byte;
  frame_body : list byte;
}.

#[export] Instance DecodedFrame_eq_dec : EqDecision DecodedFrame.
Proof. solve_decision. Defined.

Section digest.
Context (sha256 : list byte -> list byte).

(** One length-prefixed part of the hashed material. *)
Definition digest_part (part : list byte) : list byte := to_le_bytes 8 (vec_len part) ++ part.

Definition digest_parts (domain : list byte) (parts : list (list byte)) : list byte :=
  sha256 (digest_part domain ++ List.flat_map digest_part parts).

Definition canonical_request_digest (request : list byte) : list byte :=
  digest_parts (as_bytes "gpu-db/adr014/request/v1") [request].

(** What [encode_frame_into] puts in a frame buffer of [len] bytes. *)
Definition encode_frame_into (len frame_type : Z) (physical : CanonicalPhysicalRange)
    (header : CanonicalPreApplyHeader) (frame_index fragment_count kind : Z)
    (header_bytes body header_digest root leaf_or_final : list byte)
    : result (list byte) EngineError :=
  if u32_max <? vec_len header_bytes then Err (durability "pre-apply header length overflow")
  else if u32_max <? vec_len body then Err (durability "frame body overflow")
  else
    let? expected := canonical_frame_encoded_len (vec_len header_bytes) (vec_len body) in
    if negb (len =? expected) then Err (durability "exact physical frame buffer length mismatch")
    else
      let w := writer_new (expected - FRAME_DIGEST_BYTES) in
      let? w := put w FRAME_MAGIC in
      let? w := put16 w FORMAT_VERSION in
      let? w := put16 w SEMANTICS_VERSION in
      let? w := put8 w frame_type in
      let? w := put w (zeros 3) in
      let? w := put w (database_id (identity header)) in
      let? w := put w (cluster_id (identity header)) in
      let? w := put w (timeline_id (identity header)) in
      let? w := put64 w (format_epoch (identity header)) in
      let? w := put64 w (log_epoch physical) in
      let? w := put32 w (lane_id physical) in
      let? w := put32 w 0 in
      let? w := put64 w (segment_id physical) in
      let? w := put64 w (first_frame_ordinal physical) in
      let? w := put64 w (stable_transaction_id header) in
      let? w := put64 w (commit_seq header) in
      let? w := put32 w frame_index in
      let? w := put32 w fragment_count in
      let? w := put16 w kind in
      let? w := put16 w 0 in
      let? w := put32 w (vec_len header_bytes) in
      let? w := put32 w (vec_len body) in
      let? w := put w header_digest in
      let? w := put w root in
      let? w := put w leaf_or_final in
      let? w := put w header_bytes in
      let? w := put w body in
      let? without_digest := w_finish codec_errors w in
      Ok (without_digest ++ digest_parts FRAME_DOMAIN [without_digest]).

Definition encode_frame (frame_type : Z) (physical : CanonicalPhysicalRange)
    (header : CanonicalPreApplyHeader) (frame_index fragment_count kind : Z)
    (header_bytes body header_digest root leaf_or_final : list byte)
    : result (list byte) EngineError :=
  let? frame_len := canonical_frame_encoded_len (vec_len header_bytes) (vec_len body) in
  encode_frame_into frame_len frame_type physical header frame_index fragment_count kind
    header_bytes body header_digest root leaf_or_final.

Definition decode_physical (c : list byte) : result (CanonicalPhysicalRange * list byte) EngineError :=
  let? (log_epoch, c) := get64 c in
  let? (lane_id, c) := get32 c in
  let? (padding, c) := get32 c in
  if negb (padding =? 0) then Err (durability "non-zero lane padding")
  else
    let? (segment_id, c) := get64 c in
    let? (first_frame_ordinal, c) := get64 c in
    Ok (mkPhysical log_epoch lane_id segment_id first_frame_ordinal, c).

(** The fields of a frame once its digest has been checked. *)
Definition decode_frame_fields (c : list byte) : result DecodedFrame EngineError :=
  let? (magic, c) := get c (vec_len FRAME_MAGIC) in
  if negb (bool_decide (magic = FRAME_MAGIC)) then Err (durability "invalid physical frame magic")
  else
    let? (format, c) := get16 c in
    let? (semantics, c) := get16 c in
    if negb (format =? FORMAT_VERSION) || negb (semantics =? SEMANTICS_VERSION) then
      Err (durability ("unsupported frame versions format=" +:+ pretty format +:+ " semantics=" +:+
             pretty semantics))
    else
      let? (frame_type, c) := get8 c in
      if negb ((frame_type =? FRAME_FRAGMENT) || (frame_type =? FRAME_MARKER)) then
        Err (durability ("unsupported physical frame type " +:+ pretty frame_type))
      else
        let? (reserved, c) := get c 3 in
        if negb (bool_decide (reserved = zeros 3)) then Err (durability "non-zero frame reserved bytes")
        else
          let? (identity, c) := decode_identity c in
          let? _ := validate_identity identity in
          let? (physical, c) := decode_physical c in
          let? (stable_transaction_id, c) := get64 c in
          let? (commit_seq, c) := get64 c in
          let? (frame_index, c) := get32 c in
          let? (fragment_count, c) := get32 c in
          let? (kind, c) := get16 c in
          let? (padding, c) := get16 c in
          if negb (padding =? 0) then Err (durability "non-zero frame kind padding")
          else
            let? (header_len, c) := get32 c in
            let? (body_len, c) := get32 c in
            let? (header_digest, c) := get c 32 in
            let? (root, c) := get c 32 in
            let? (leaf_or_final, c) := get c 32 in
            let? (header_bytes, c) := get c header_len in
            let? (body, c) := get c body_len in
            let? _ := r_finish codec_errors c in
            Ok (mkFrame frame_type identity physical stable_transaction_id commit_seq frame_index
                  fragment_count kind header_digest root leaf_or_final header_bytes body).

Definition decode_frame (frame : list byte) : result DecodedFrame EngineError :=
  if vec_len frame <? FRAME_FIXED_BYTES + FRAME_DIGEST_BYTES then
    Err (durability "truncated physical frame")
  else
    let at_ := Z.to_nat (vec_len frame - FRAME_DIGEST_BYTES) in
    let without_digest := take at_ frame in
    if negb (bool_decide (drop at_ frame = digest_parts FRAME_DOMAIN [without_digest])) then
      Err (durability "physical frame digest mismatch")
    else decode_frame_fields without_digest.

End digest.

#[export] Hint Rewrite (eq_refl : vec_len HEADER_MAGIC = 16) (eq_refl : vec_len FRAME_MAGIC = 16)
  (eq_refl : vec_len RECORD_MAGIC = 16) : codec_len.

(** ** Well-formed values

    What the Rust types say of a value: the lengths of its arrays and the widths of its
    integers. *)

Definition wf_identity (i : CanonicalIdentity) : Prop :=
  length (database_id i) = 16%nat /\ length (cluster_id i) = 16%nat /\
  length (timeline_id i) = 16%nat /\ fits 8 (format_epoch i).

Record wf_header (h : CanonicalPreApplyHeader) : Prop := mkWfHeader {
  wfh_identity : wf_identity (identity h);
  wfh_leader : fits 8 (leader_epoch h);
  wfh_seq : fits 8 (commit_seq h);
  wfh_txn : fits 8 (stable_transaction_id h);
  wfh_request : length (request_digest h) = 32%nat;
  wfh_flags : fits 4 (flags h);
  wfh_before : fits 8 (catalog_before_epoch h);
  wfh_after : fits 8 (catalog_after_epoch h);
  wfh_before_digest : length (catalog_before_digest h) = 32%nat;
  wfh_after_digest : length (catalog_after_digest h) = 32%nat;
  wfh_operations : fits 4 (operation_count h);
  wfh_blocks : fits 4 (table_block_count h);
  wfh_high_water : fits 8 (allocator_high_water h);
}.

Record wf_outcome (o : CanonicalOutcome) : Prop := mkWfOutcome {
  wfo_rows : fits 8 (affected_rows o);
  wfo_state : forall state, sqlstate o = Some state -> length state = 5%nat;
  wfo_constraint : fits 8 (constraint_id o);
  wfo_target : length (target_digest o) = 32%nat;
  wfo_returning : length (returning_digest o) = 32%nat;
}.

Definition wf_physical (p : CanonicalPhysicalRange) : Prop :=
  fits 8 (log_epoch p) /\ fits 4 (lane_id p) /\ fits 8 (segment_id p) /\
  fits 8 (first_frame_ordinal p).

Record wf_frame (f : DecodedFrame) : Prop := mkWfFrame {
  wff_type : fits 1 (frame_type f);
  wff_identity : wf_identity (frame_identity f);
  wff_physical : wf_physical (frame_physical f);
  wff_txn : fits 8 (frame_stable_transaction_id f);
  wff_seq : fits 8 (frame_commit_seq f);
  wff_index : fits 4 (frame_index f);
  wff_count : fits 4 (fragment_count f);
  wff_kind : fits 2 (frame_kind f);
  wff_header_digest : length (header_digest f) = 32%nat;
  wff_root : length (root f) = 32%nat;
  wff_leaf : length (leaf_or_final f) = 32%nat;
  wff_header : fits 4 (vec_len (header_bytes f));
  wff_body : fits 4 (vec_len (frame_body f));
}.

End Canonical.
