(* ===== verification/CanonicalFacts.v ===== *)
(** * Canonical envelope parts: their codecs are exact

    The layouts of a header, an outcome and a frame, and that each encoder writes its layout
    and each decoder accepts exactly the layouts of well-formed valid values. *)

From stdpp Require Import base strings list pretty.
From S2P Require Import Prelude Types Bytes Codec Canonical WalSegment.

Module CanonicalFacts.
Import Codec Canonical.

Definition identity_layout (i : CanonicalIdentity) : list byte :=
  database_id i ++ cluster_id i ++ timeline_id i ++ to_le_bytes 8 (format_epoch i).

(** The header with the reader versions it declares. *)
Definition header_layout (min_reader max_reader : Z) (h : CanonicalPreApplyHeader) : list byte :=
  HEADER_MAGIC ++ to_le_bytes 2 FORMAT_VERSION ++ to_le_bytes 2 SEMANTICS_VERSION ++
  to_le_bytes 2 min_reader ++ to_le_bytes 2 max_reader ++ identity_layout (identity h) ++
  to_le_bytes 8 (leader_epoch h) ++ to_le_bytes 8 (commit_seq h) ++
  to_le_bytes 8 (stable_transaction_id h) ++ request_digest h ++
  to_le_bytes 1 (isolation_code (isolation h)) ++ zeros 3 ++ to_le_bytes 4 (flags h) ++
  to_le_bytes 8 (catalog_before_epoch h) ++ to_le_bytes 8 (catalog_after_epoch h) ++
  catalog_before_digest h ++ catalog_after_digest h ++ to_le_bytes 4 (operation_count h) ++
  to_le_bytes 4 (table_block_count h) ++ to_le_bytes 8 (allocator_high_water h).

#[global] Arguments header_layout : simpl never.

Lemma decode_isolation_code i : decode_isolation (isolation_code i) = Ok i.
Proof. by destruct i. Qed.

Lemma decode_isolation_Ok v i : decode_isolation v = Ok i -> v = isolation_code i.
Proof.
  unfold decode_isolation.
  destruct (Z.eqb_spec v 1), (Z.eqb_spec v 2), (Z.eqb_spec v 3); intros [=]; by subst.
Qed.

Lemma isolation_fits i : fits 1 (isolation_code i).
Proof. destruct i; unfold fits; cbn; lia. Qed.

Lemma decode_identity_app i r :
  wf_identity i -> decode_identity (identity_layout i ++ r) = Ok (i, r).
Proof.
  intros (H1 & H2 & H3 & H4). unfold decode_identity, identity_layout. rewrite <- !app_assoc.
  do 4 read_field. by destruct i.
Qed.

Lemma decode_identity_Ok c i r :
  decode_identity c = Ok (i, r) <-> c = identity_layout i ++ r /\ wf_identity i.
Proof.
  split.
  - unfold decode_identity, identity_layout, wf_identity. intros H. repeat dec_step H.
    injection H as <- <-. cbn. rewrite <- !app_assoc. unfold vec_len in *. repeat split; lia || done || apply Hr2.
  - intros [-> Hi]. by apply decode_identity_app.
Qed.

Lemma length_header_layout a b h : wf_header h -> vec_len (header_layout a b h) = PREAPPLY_HEADER_BYTES.
Proof.
  intros [(? & ? & ? & ?) ? ? ? ? ? ? ? ? ? ? ? ?]. unfold header_layout, identity_layout, PREAPPLY_HEADER_BYTES.
  len_solve.
Qed.

Lemma encode_header_Ok h bytes :
  wf_header h ->
  encode_header h = Ok bytes <-> validate_header h = Ok tt /\ bytes = header_layout 1 1 h.
Proof.
  intros Hwf. unfold encode_header, encode_header_into.
  destruct (validate_header h) as [[]|]; [|by split; [|intros [? _]]].
  pose proof (length_header_layout 1 1 h Hwf) as Hlen.
  destruct Hwf as [(? & ? & ? & ?) ? ? ? ? ? ? ? ? ? ? ? ?].
  unfold PREAPPLY_HEADER_BYTES. write_fields.
  rewrite w_finish_ok by len_solve. cbn [w_out].
  match goal with |- Ok ?l = _ <-> _ => assert (l = header_layout 1 1 h) as -> end.
  { unfold header_layout, identity_layout. rewrite <- !app_assoc. reflexivity. }
  split; [by intros [= <-]|by intros [_ ->]].
Qed.

Lemma decode_header_Ok bytes h :
  decode_header bytes = Ok h <->
  exists min_reader max_reader,
    bytes = header_layout min_reader max_reader h /\ fits 2 min_reader /\ fits 2 max_reader /\
    min_reader <= FORMAT_VERSION <= max_reader /\ wf_header h /\ validate_header h = Ok tt.
Proof.
  split.
  - unfold decode_header. cbv zeta. intros H. repeat dec_step H. injection H as <-. bools. subst.
    match goal with H : decode_identity _ = _ |- _ => apply decode_identity_Ok in H as [-> ?] end.
    match goal with H : decode_isolation _ = _ |- _ => apply decode_isolation_Ok in H as -> end.
    eexists _, _. split; [unfold header_layout; rewrite app_nil_r; reflexivity|].
    do 3 (split; [done|]). split; [|done]. constructor; cbn; try done; by apply (vec_len_length _ 32).
  - intros (lo & hi & -> & Hlo & Hhi & Hv & Hwf & Hok). unfold decode_header, header_layout. cbv zeta.
    destruct Hwf as [Hi ? ? ? ? ? ? ? ? ? ? ? ?]. destruct Hv as [Hv1 Hv2].
    pose proof (isolation_fits (isolation h)). read_go.
    rewrite decode_identity_app by done. read_go. rewrite decode_isolation_code.
    read_go. cbn [r_finish].
    destruct h. cbn in *. by rewrite Hok.
Qed.

(** ** Outcomes *)

Definition outcome_layout (o : CanonicalOutcome) : list byte :=
  to_le_bytes 1 (outcome_code (outcome_kind o)) ++
  to_le_bytes 1 (match sqlstate o with Some _ => 1 | None => 0 end) ++ zeros 2 ++
  to_le_bytes 8 (affected_rows o) ++ to_le_bytes 8 (constraint_id o) ++
  default (zeros 5) (sqlstate o) ++ zeros 3 ++ target_digest o ++ returning_digest o.

#[global] Arguments outcome_layout : simpl never.

Lemma decode_outcome_kind_Ok v k : decode_outcome_kind v = Ok k -> v = outcome_code k.
Proof. unfold decode_outcome_kind. repeat case_match; intros [= <-]; done. Qed.

Lemma decode_outcome_code k : decode_outcome_kind (outcome_code k) = Ok k.
Proof. by destruct k. Qed.

Lemma outcome_fits k : fits 1 (outcome_code k).
Proof. destruct k; unfold fits; cbn; lia. Qed.

Lemma decode_kind_Ok v k : decode_kind v = Ok k -> v = kind_code k.
Proof. unfold decode_kind. repeat case_match; intros [= <-]; done. Qed.

Lemma decode_kind_code k : decode_kind (kind_code k) = Ok k.
Proof. by destruct k. Qed.

Lemma kind_fits k : fits 2 (kind_code k).
Proof. destruct k; unfold fits; cbn; lia. Qed.

Lemma length_state o : wf_outcome o -> length (default (zeros 5) (sqlstate o)) = 5%nat.
Proof. intros [_ H _ _ _]. destruct (sqlstate o) as [s|]; cbn; [by apply H|done]. Qed.

Lemma length_outcome_layout o : wf_outcome o -> vec_len (outcome_layout o) = CANONICAL_OUTCOME_BYTES.
Proof.
  intros Hwf. pose proof (length_state o Hwf). destruct Hwf. unfold outcome_layout, CANONICAL_OUTCOME_BYTES.
  destruct o as [k rows [st|] c t r]; cbn in *; len_solve.
Qed.

Lemma encode_outcome_Ok o bytes :
  wf_outcome o ->
  encode_outcome o = Ok bytes <-> validate_outcome o = Ok tt /\ bytes = outcome_layout o.
Proof.
  intros Hwf. unfold encode_outcome, encode_outcome_into.
  destruct (validate_outcome o) as [[]|]; [|by split; [|intros [? _]]].
  pose proof (length_state o Hwf) as Hst. destruct Hwf. unfold CANONICAL_OUTCOME_BYTES.
  write_fields.
  rewrite w_finish_ok by len_solve. cbn [w_out]. rewrite <- !app_assoc. cbn [app].
  change (to_le_bytes 1 (outcome_code _) ++ _) with (outcome_layout o).
  split; [by intros [= <-]|by intros [_ ->]].
Qed.

Lemma decode_outcome_Ok bytes o :
  decode_canonical_outcome_exact bytes = Ok o <->
  bytes = outcome_layout o /\ wf_outcome o /\ validate_outcome o = Ok tt.
Proof.
  split.
  - unfold decode_canonical_outcome_exact, decode_outcome. cbv zeta. intros H. repeat dec_step H.
    injection H as <-. bools.
    match goal with H : decode_outcome_kind _ = _ |- _ => apply decode_outcome_kind_Ok in H as -> end.
    match goal with
    | H : match ?z with _ => _ end = Ok ?b |- _ =>
        assert (z = if b then 1 else 0) as -> by (repeat case_match; simplify_eq; done)
    end.
    match goal with b : bool |- _ => destruct b; cbn [negb andb] in *; bools; subst end;
      (split; [unfold outcome_layout; cbn; by rewrite app_nil_r|split; [|done]]);
      constructor; cbn; try done; try (by apply (vec_len_length _ 32)); intros ? [= <-];
      by apply (vec_len_length _ 5).
  - intros (-> & Hwf & Hok). pose proof (length_outcome_layout o Hwf) as Hlen.
    unfold decode_canonical_outcome_exact. rewrite Hlen. read_check. unfold decode_outcome, outcome_layout.
    pose proof (length_state o Hwf) as Hst. destruct Hwf as [? _ ? ? ?].
    destruct o as [k rows st c t r]; cbn in *.
    pose proof (outcome_fits k). read_field. rewrite decode_outcome_code.
    destruct st as [st|]; cbn in *; read_go; cbn [r_finish]; by rewrite Hok.
Qed.

(** ** Frames *)

(** A frame without its digest. *)
Definition frame_layout (f : DecodedFrame) : list byte :=
  FRAME_MAGIC ++ to_le_bytes 2 FORMAT_VERSION ++ to_le_bytes 2 SEMANTICS_VERSION ++
  to_le_bytes 1 (frame_type f) ++ zeros 3 ++ identity_layout (frame_identity f) ++
  to_le_bytes 8 (log_epoch (frame_physical f)) ++ to_le_bytes 4 (lane_id (frame_physical f)) ++
  to_le_bytes 4 0 ++ to_le_bytes 8 (segment_id (frame_physical f)) ++
  to_le_bytes 8 (first_frame_ordinal (frame_physical f)) ++
  to_le_bytes 8 (frame_stable_transaction_id f) ++ to_le_bytes 8 (frame_commit_seq f) ++
  to_le_bytes 4 (frame_index f) ++ to_le_bytes 4 (fragment_count f) ++
  to_le_bytes 2 (frame_kind f) ++ to_le_bytes 2 0 ++ to_le_bytes 4 (vec_len (header_bytes f)) ++
  to_le_bytes 4 (vec_len (frame_body f)) ++ header_digest f ++ root f ++ leaf_or_final f ++
  header_bytes f ++ frame_body f.

#[global] Arguments frame_layout : simpl never.

Lemma length_frame_layout f :
  wf_frame f ->
  vec_len (frame_layout f) = FRAME_FIXED_BYTES + vec_len (header_bytes f) + vec_len (frame_body f).
Proof.
  intros [? (? & ? & ? & ?) ? ? ? ? ? ? ? ? ? ? ?]. unfold frame_layout, identity_layout, FRAME_FIXED_BYTES.
  len_solve.
Qed.

Lemma checked_sum4 a b c d :
  0 <= a -> 0 <= b -> 0 <= c -> 0 <= d -> a + b + c + d <= u64_max ->
  checked_sum [a; b; c; d] = Some (a + b + c + d).
Proof.
  intros ? ? ? ? ?. unfold checked_sum. cbn. unfold checked_add64.
  repeat rewrite (proj2 (Z.leb_le _ _)) by lia. reflexivity.
Qed.

Lemma checked_sum3 a b c n :
  0 <= a -> 0 <= b -> 0 <= c -> checked_sum [a; b; c] = Some n <-> n = a + b + c /\ a + b + c <= u64_max.
Proof.
  intros ? ? ?. unfold checked_sum. cbn [List.fold_left]. unfold checked_add64 at 1.
  destruct (Z.leb_spec (a + b) u64_max).
  - apply checked_add64_Some.
  - split; [done|]. lia.
Qed.

Lemma ok_or_Ok {A E} (o : option A) (e : E) a : ok_or o e = Ok a <-> o = Some a.
Proof. destruct o; cbn; split; congruence. Qed.

Lemma ok_add {E} a b (e : E) : a + b <= u64_max -> ok_or (checked_add64 a b) e = Ok (a + b).
Proof. intros Hab. by apply ok_or_Ok, checked_add64_Some. Qed.

Lemma ok_sum3 {E} a b c (e : E) :
  0 <= a -> 0 <= b -> 0 <= c -> a + b + c <= u64_max -> ok_or (checked_sum [a; b; c]) e = Ok (a + b + c).
Proof. intros ? ? ? Habc. by apply ok_or_Ok, checked_sum3. Qed.

Lemma frame_len_ok h b :
  fits 4 h -> fits 4 b -> canonical_frame_encoded_len h b = Ok (FRAME_FIXED_BYTES + h + b + FRAME_DIGEST_BYTES).
Proof.
  unfold fits. intros ? ?. unfold canonical_frame_encoded_len.
  rewrite checked_sum4; unfold FRAME_FIXED_BYTES, FRAME_DIGEST_BYTES, u64_max; cbn in *; done || lia.
Qed.

Lemma decode_physical_app p r :
  wf_physical p ->
  decode_physical (to_le_bytes 8 (log_epoch p) ++ to_le_bytes 4 (lane_id p) ++ to_le_bytes 4 0 ++
    to_le_bytes 8 (segment_id p) ++ to_le_bytes 8 (first_frame_ordinal p) ++ r) = Ok (p, r).
Proof. intros (? & ? & ? & ?). unfold decode_physical. read_go. by destruct p. Qed.

Lemma decode_physical_Ok c p r :
  decode_physical c = Ok (p, r) ->
  c = to_le_bytes 8 (log_epoch p) ++ to_le_bytes 4 (lane_id p) ++ to_le_bytes 4 0 ++
      to_le_bytes 8 (segment_id p) ++ to_le_bytes 8 (first_frame_ordinal p) ++ r /\ wf_physical p.
Proof. unfold decode_physical. intros H. repeat dec_step H. injection H as <- <-. bools. by subst. Qed.

(** A frame type the decoder knows. *)
Definition known_type (f : DecodedFrame) : Prop :=
  frame_type f = FRAME_FRAGMENT \/ frame_type f = FRAME_MARKER.

Lemma decode_frame_fields_Ok bytes f :
  decode_frame_fields bytes = Ok f <->
  bytes = frame_layout f /\ wf_frame f /\ known_type f /\ validate_identity (frame_identity f) = Ok tt.
Proof.
  split.
  - unfold decode_frame_fields. intros H. repeat dec_step H. injection H as <-. bools. subst.
    repeat match goal with
           | H : decode_identity _ = _ |- _ => apply decode_identity_Ok in H as [-> ?]
           | H : decode_physical _ = _ |- _ => apply decode_physical_Ok in H as [-> ?]
           end.
    split; [unfold frame_layout; cbn; by rewrite app_nil_r|].
    split; [constructor; cbn; done || by apply (vec_len_length _ 32)|].
    split; [|done]. unfold known_type. cbn.
    match goal with H : (_ || _)%bool = true |- _ => apply orb_true_iff in H as [H|H] end; bools; auto.
  - intros (-> & Hwf & Hty & Hid).
    destruct Hwf as [? Hi Hp ? ? ? ? ? ? ? ? ? ?]. unfold decode_frame_fields, frame_layout.
    read_go. rewrite (proj2 (orb_true_iff _ _)) by (rewrite !Z.eqb_eq; exact Hty). read_go.
    rewrite decode_identity_app by done. rewrite Hid. rewrite decode_physical_app by done. read_go.
    cbn [r_finish]. by destruct f.
Qed.

Section digests.
Context (sha256 : list byte -> list byte) (sha256_len : forall l, length (sha256 l) = 32%nat).

Definition sealed (f : DecodedFrame) : list byte :=
  frame_layout f ++ digest_parts sha256 FRAME_DOMAIN [frame_layout f].

Lemma vec_len_digest d ps : vec_len (digest_parts sha256 d ps) = 32.
Proof. unfold vec_len, digest_parts. by rewrite sha256_len. Qed.

Lemma encode_frame_sealed ty p h i n k hb b hd r l :
  let f := mkFrame ty (identity h) p (stable_transaction_id h) (commit_seq h) i n k hd r l hb b in
  wf_frame f -> encode_frame sha256 ty p h i n k hb b hd r l = Ok (sealed f).
Proof.
  intros f Hwf. pose proof (length_frame_layout f Hwf) as Hlen.
  destruct Hwf as [? (? & ? & ? & ?) ? ? ? ? ? ? ? ? ? Hh Hb]. cbn in *.
  unfold encode_frame. rewrite frame_len_ok by done. unfold encode_frame_into.
  rewrite (proj2 (Z.ltb_ge _ _)), (proj2 (Z.ltb_ge _ _)) by (unfold fits, u32_max in *; cbn in *; lia).
  rewrite frame_len_ok by done. read_check.
  unfold FRAME_FIXED_BYTES, FRAME_DIGEST_BYTES. write_fields.
  rewrite w_finish_ok by len_solve. cbn [w_out]. cbv beta iota zeta.
  match goal with |- Ok (?l ++ _) = _ => assert (l = frame_layout f) as -> end.
  { unfold frame_layout, identity_layout, f. cbn. rewrite <- !app_assoc. reflexivity. }
  reflexivity.
Qed.

Lemma decode_frame_Ok bytes f :
  decode_frame sha256 bytes = Ok f <->
  bytes = sealed f /\ wf_frame f /\ known_type f /\ validate_identity (frame_identity f) = Ok tt.
Proof.
  unfold decode_frame. split.
  - intros H. repeat dec_step H. bools. apply decode_frame_fields_Ok in H as (Hl & Hrest).
    split; [|done]. unfold sealed. rewrite <- Hl.
    match goal with H : drop _ _ = _ |- _ => rewrite <- H end. by rewrite take_drop.
  - intros (-> & Hwf & Hrest). unfold sealed.
    pose proof (length_frame_layout f Hwf) as Hlen. rewrite vec_len_app, vec_len_digest.
    rewrite (proj2 (Z.ltb_ge _ _)).
    2:{ pose proof (vec_len_nonneg (header_bytes f)). pose proof (vec_len_nonneg (frame_body f)).
        unfold FRAME_FIXED_BYTES, FRAME_DIGEST_BYTES in *. lia. }
    replace (Z.to_nat _) with (length (frame_layout f)) by (unfold vec_len, FRAME_DIGEST_BYTES; lia).
    rewrite take_app_length, drop_app_length. read_check. by apply decode_frame_fields_Ok.
Qed.

End digests.

End CanonicalFacts.
