(* ===== verification/GenTerminal.v ===== *)
(** * Generation terminal markers (crates/wal/src/canonical/generation_terminal.rs)

    The terminal marker of a canonical envelope: a bare outcome, or an outcome followed by the
    descriptor of the table and index generations the transaction publishes.  The descriptor's
    grammar, its semantic checks, its exact length, and its codec.  [try_reserve_exact n] tells
    whether the allocator grants a vector of [n] elements. *)

From stdpp Require Import base strings list pretty.
From S2P Require Import Prelude Types Bytes Codec Canonical.

Module GenTerminal.
Import Codec Canonical.

Definition GENERATION_TERMINAL_EXTENSION_MAGIC : list byte := as_bytes "GPUDBGENROOT1" ++ zeros 3.
Definition GENERATION_TERMINAL_EXTENSION_VERSION : Z := 1.
Definition GENERATION_TERMINAL_EXTENSION_PREFIX_BYTES : Z := 24.
Definition GENERATION_TERMINAL_DESCRIPTOR_FIXED_BYTES : Z := 204.
Definition GENERATION_TABLE_TRANSITION_FIXED_BYTES : Z := 120.
Definition GENERATION_INDEX_MANIFEST_BYTES : Z := 80.
Definition RUNTIME_TERMINAL_DOMAIN : list byte :=
  as_bytes "gpu-db/runtime-generation/terminal-envelope/v1".

Definition descriptor_error (message : string) : EngineError :=
  durability ("runtime generation terminal: " +:+ message).

Definition descriptor_errors : CodecErrors :=
  mkCodecErrors (descriptor_error "descriptor write exceeds buffer")
    (descriptor_error "descriptor did not fill exact buffer")
    (descriptor_error "descriptor is truncated") (descriptor_error "descriptor has trailing bytes").

Notation dput := (w_bytes descriptor_errors).
Notation dput8 := (w_uint descriptor_errors 1).
Notation dput16 := (w_uint descriptor_errors 2).
Notation dput32 := (w_uint descriptor_errors 4).
Notation dput64 := (w_uint descriptor_errors 8).
Notation dget := (r_take descriptor_errors).
Notation dget8 := (r_uint descriptor_errors 1).
Notation dget16 := (r_uint descriptor_errors 2).
Notation dget32 := (r_uint descriptor_errors 4).
Notation dget64 := (r_uint descriptor_errors 8).

Definition nonzero_digest (value : list byte) (label : string) : result unit EngineError :=
  if bool_decide (value = zeros 32) then Err (descriptor_error (label +:+ " must not be zero"))
  else Ok tt.

Definition nonzero_id (value : Z) (label : string) : result unit EngineError :=
  if value =? 0 then Err (descriptor_error (label +:+ " zero is reserved")) else Ok tt.

(** ** Data *)

Inductive GenerationPublicationFormV1 := PrebuiltResolved | WalFirstTerminalRoots.

Definition form_code (f : GenerationPublicationFormV1) : Z :=
  match f with PrebuiltResolved => 1 | WalFirstTerminalRoots => 2 end.

Definition decode_form (value : Z) : result GenerationPublicationFormV1 EngineError :=
  match value with
  | 1 => Ok PrebuiltResolved
  | 2 => Ok WalFirstTerminalRoots
  | other => Err (descriptor_error ("unsupported publication form " +:+ pretty other))
  end.

Inductive GenerationTableDeltaKindV1 := RowSet | CreateEmpty | Drop | ResetEmpty | Rebuild.

Definition delta_code (k : GenerationTableDeltaKindV1) : Z :=
  match k with RowSet => 1 | CreateEmpty => 2 | Drop => 3 | ResetEmpty => 4 | Rebuild => 5 end.

Definition decode_delta (value : Z) : result GenerationTableDeltaKindV1 EngineError :=
  match value with
  | 1 => Ok RowSet
  | 2 => Ok CreateEmpty
  | 3 => Ok Drop
  | 4 => Ok ResetEmpty
  | 5 => Ok Rebuild
  | other => Err (descriptor_error ("unsupported table transition kind " +:+ pretty other))
  end.

Record GenerationIndexManifestV1 := mkIndex {
  stable_index_id : Z;
  index_shape_root : list byte;
  index_generation : Z;
  index_root : list byte;
}.

Record GenerationTableSideV1 := mkSide {
  data_generation : Z;
  table_root : list byte;
  logical_row_count : Z;
  indexes : list GenerationIndexManifestV1;
}.

Record GenerationTableTransitionV1 := mkTransition {
  delta_kind : GenerationTableDeltaKindV1;
  stable_table_id : Z;
  before : option GenerationTableSideV1;
  after : option GenerationTableSideV1;
}.

Record GenerationTerminalDescriptorV1 := mkDescriptor {
  publication_form : GenerationPublicationFormV1;
  initial_database_root : list byte;
  d_catalog_before_epoch : Z;
  d_catalog_before_digest : list byte;
  d_catalog_after_epoch : Z;
  d_catalog_after_digest : list byte;
  d_stable_transaction_id : Z;
  commit_sequence : Z;
  runtime_generation_input_digest : list byte;
  final_database_root : list byte;
  table_transitions : list GenerationTableTransitionV1;
}.

Inductive CanonicalTerminalMarker :=
| Legacy (outcome : CanonicalOutcome)
| GenerationV1 (outcome : CanonicalOutcome) (descriptor : GenerationTerminalDescriptorV1).

Record CanonicalTerminalMarkerMeasure := mkMeasure {
  marker_bytes : Z;
  descriptor_bytes : option Z;
}.

Definition marker_outcome (m : CanonicalTerminalMarker) : CanonicalOutcome :=
  match m with Legacy outcome | GenerationV1 outcome _ => outcome end.

#[export] Instance GenerationPublicationFormV1_eq_dec : EqDecision GenerationPublicationFormV1.
Proof. solve_decision. Defined.
#[export] Instance GenerationTableDeltaKindV1_eq_dec : EqDecision GenerationTableDeltaKindV1.
Proof. solve_decision. Defined.
#[export] Instance GenerationIndexManifestV1_eq_dec : EqDecision GenerationIndexManifestV1.
Proof. solve_decision. Defined.
#[export] Instance GenerationTableSideV1_eq_dec : EqDecision GenerationTableSideV1.
Proof. solve_decision. Defined.
#[export] Instance GenerationTableTransitionV1_eq_dec : EqDecision GenerationTableTransitionV1.
Proof. solve_decision. Defined.
#[export] Instance GenerationTerminalDescriptorV1_eq_dec : EqDecision GenerationTerminalDescriptorV1.
Proof. solve_decision. Defined.
#[export] Instance CanonicalTerminalMarker_eq_dec : EqDecision CanonicalTerminalMarker.
Proof. solve_decision. Defined.

(** ** Semantic checks *)

Definition validate_index (i : GenerationIndexManifestV1) : result unit EngineError :=
  let? _ := nonzero_id (stable_index_id i) "stable index id" in
  let? _ := nonzero_id (index_generation i) "index generation" in
  let? _ := nonzero_digest (index_shape_root i) "index shape root" in
  nonzero_digest (index_root i) "index root".

(** [previous >= Some(id)], where [None] is below every [Some]. *)
Definition not_ascending (previous : option Z) (id : Z) : bool :=
  match previous with Some previous => id <=? previous | None => false end.

Fixpoint validate_indexes (previous : option Z) (l : list GenerationIndexManifestV1)
    : result unit EngineError :=
  match l with
  | [] => Ok tt
  | index :: l =>
      let? _ := validate_index index in
      if not_ascending previous (stable_index_id index) then
        Err (descriptor_error "table indexes are not strictly stable-index-id ascending")
      else validate_indexes (Some (stable_index_id index)) l
  end.

Definition validate_side (s : GenerationTableSideV1) : result unit EngineError :=
  let? _ := nonzero_id (data_generation s) "table data generation" in
  let? _ := nonzero_digest (table_root s) "table root" in
  validate_indexes None (indexes s).

Definition validate_optional_side (s : option GenerationTableSideV1) : result unit EngineError :=
  match s with Some s => validate_side s | None => Ok tt end.

Definition validate_basic (t : GenerationTableTransitionV1) : result unit EngineError :=
  let? _ := nonzero_id (stable_table_id t) "stable table id" in
  let? _ := validate_optional_side (before t) in
  validate_optional_side (after t).

Definition required_sides (t : GenerationTableTransitionV1)
    : result (GenerationTableSideV1 * GenerationTableSideV1) EngineError :=
  match before t, after t with
  | Some before, Some after => Ok (before, after)
  | _, _ => Err (descriptor_error "table transition sides")
  end.

Definition same_shape (before after : GenerationIndexManifestV1) : bool :=
  (stable_index_id before =? stable_index_id after) &&
  bool_decide (index_shape_root before = index_shape_root after).

Definition validate_row_set_index_shape_vector (before after : GenerationTableSideV1)
    : result unit EngineError :=
  if negb (vec_len (indexes before) =? vec_len (indexes after)) ||
     List.existsb (fun p => negb (same_shape p.1 p.2)) (zip (indexes before) (indexes after)) then
    Err (descriptor_error "RowSet index ID/shape vector")
  else Ok tt.

Definition same_index_facts (before after : GenerationIndexManifestV1) : bool :=
  (stable_index_id before =? stable_index_id after) &&
  bool_decide (index_shape_root before = index_shape_root after) &&
  (index_generation before =? index_generation after) &&
  bool_decide (index_root before = index_root after).

Definition table_manifest_facts_unchanged (before after : GenerationTableSideV1) : bool :=
  bool_decide (table_root before = table_root after) &&
  (logical_row_count before =? logical_row_count after) &&
  (vec_len (indexes before) =? vec_len (indexes after)) &&
  List.forallb (fun p => same_index_facts p.1 p.2) (zip (indexes before) (indexes after)).

Definition generation_precedes_commit (generation commit_sequence : Z) (label : string)
    : result unit EngineError :=
  if commit_sequence <=? generation then
    Err (descriptor_error (label +:+ " must precede commit sequence"))
  else Ok tt.

Definition generation_matches_commit (generation commit_sequence : Z) (label : string)
    : result unit EngineError :=
  if negb (generation =? commit_sequence) then
    Err (descriptor_error (label +:+ " must equal commit sequence"))
  else Ok tt.

Fixpoint prior_indexes_precede (commit_sequence : Z) (l : list GenerationIndexManifestV1)
    : result unit EngineError :=
  match l with
  | [] => Ok tt
  | index :: l =>
      let? _ := generation_precedes_commit (index_generation index) commit_sequence
        "prior index generation" in
      prior_indexes_precede commit_sequence l
  end.

(** [while before_index.peek().is_some_and(..) { before_index.next(); }] *)
Fixpoint skip_below (id : Z) (l : list GenerationIndexManifestV1) : list GenerationIndexManifestV1 :=
  match l with
  | index :: l' => if stable_index_id index <? id then skip_below id l' else l
  | [] => []
  end.

(** The check of one final index against the prior index of the same identity. *)
Definition index_evolution (commit_sequence : Z) (before : option GenerationIndexManifestV1)
    (index : GenerationIndexManifestV1) : result unit EngineError :=
  match before with
  | None => generation_matches_commit (index_generation index) commit_sequence "new index generation"
  | Some before =>
      if bool_decide (index_root before = index_root index) &&
         bool_decide (index_shape_root before = index_shape_root index) then
        if negb (index_generation index =? index_generation before) then
          Err (descriptor_error "unchanged index generation")
        else Ok tt
      else generation_matches_commit (index_generation index) commit_sequence "changed index generation"
  end.

(** The merge of the two ordered index vectors. *)
Fixpoint indexes_evolution (commit_sequence : Z) (prior final : list GenerationIndexManifestV1)
    : result unit EngineError :=
  match final with
  | [] => Ok tt
  | index :: final =>
      let prior := skip_below (stable_index_id index) prior in
      match prior with
      | before :: prior' =>
          if stable_index_id before =? stable_index_id index then
            let? _ := index_evolution commit_sequence (Some before) index in
            indexes_evolution commit_sequence prior' final
          else
            let? _ := index_evolution commit_sequence None index in
            indexes_evolution commit_sequence prior final
      | [] =>
          let? _ := index_evolution commit_sequence None index in
          indexes_evolution commit_sequence prior final
      end
  end.

Definition validate_generation_evolution (t : GenerationTableTransitionV1) (commit_sequence : Z)
    : result unit EngineError :=
  let? _ :=
    match before t with
    | Some before =>
        let? _ := generation_precedes_commit (data_generation before) commit_sequence
          "prior table generation" in
        prior_indexes_precede commit_sequence (indexes before)
    | None => Ok tt
    end in
  match after t with
  | None => Ok tt
  | Some after =>
      let? _ :=
        match before t with
        | None => generation_matches_commit (data_generation after) commit_sequence "new table generation"
        | Some before =>
            if table_manifest_facts_unchanged before after then
              if negb (data_generation after =? data_generation before) then
                Err (descriptor_error "unchanged table generation")
              else Ok tt
            else
              generation_matches_commit (data_generation after) commit_sequence
                "changed table generation"
        end in
      indexes_evolution commit_sequence
        (match before t with Some before => indexes before | None => [] end) (indexes after)
  end.

Definition validate_delta (t : GenerationTableTransitionV1) (commit_sequence : Z)
    : result unit EngineError :=
  match delta_kind t with
  | RowSet =>
      let? (before, after) := required_sides t in
      let? _ := validate_row_set_index_shape_vector before after in
      let? _ := generation_matches_commit (data_generation after) commit_sequence
        "RowSet final table generation" in
      if bool_decide (table_root before = table_root after) then
        Err (descriptor_error "RowSet table root")
      else Ok tt
  | CreateEmpty =>
      match after t with
      | None => Err (descriptor_error "CreateEmpty table sides")
      | Some after =>
          match before t with
          | Some _ => Err (descriptor_error "CreateEmpty table sides")
          | None =>
              if negb (logical_row_count after =? 0) then
                Err (descriptor_error "CreateEmpty final row count")
              else Ok tt
          end
      end
  | Drop =>
      match before t, after t with
      | Some _, None => Ok tt
      | _, _ => Err (descriptor_error "Drop table sides")
      end
  | ResetEmpty =>
      let? (before, after) := required_sides t in
      if (logical_row_count before =? 0) || negb (logical_row_count after =? 0) then
        Err (descriptor_error "ResetEmpty row counts")
      else Ok tt
  | Rebuild =>
      match after t with
      | None => Err (descriptor_error "Rebuild missing final table")
      | Some after =>
          if logical_row_count after =? 0 then Err (descriptor_error "Rebuild final row count")
          else Ok tt
      end
  end.

Definition validate_transition (t : GenerationTableTransitionV1) (commit_sequence : Z)
    : result unit EngineError :=
  let? _ := validate_basic t in
  let? _ := validate_delta t commit_sequence in
  validate_generation_evolution t commit_sequence.

Fixpoint validate_transitions (commit_sequence : Z) (previous : option Z)
    (l : list GenerationTableTransitionV1) : result unit EngineError :=
  match l with
  | [] => Ok tt
  | t :: l =>
      let? _ := validate_transition t commit_sequence in
      if not_ascending previous (stable_table_id t) then
        Err (descriptor_error "table transitions are not strictly stable-table-id ascending")
      else validate_transitions commit_sequence (Some (stable_table_id t)) l
  end.

Definition validate_descriptor (d : GenerationTerminalDescriptorV1) : result unit EngineError :=
  let? _ := nonzero_digest (initial_database_root d) "initial database root" in
  let? _ := nonzero_digest (final_database_root d) "final database root" in
  let? _ := nonzero_digest (d_catalog_before_digest d) "catalog before digest" in
  let? _ := nonzero_digest (d_catalog_after_digest d) "catalog after digest" in
  let? _ := nonzero_digest (runtime_generation_input_digest d) "runtime generation input digest" in
  let? _ := nonzero_id (d_stable_transaction_id d) "stable transaction id" in
  if (commit_sequence d =? 0) || (commit_sequence d =? u64_max) then
    Err (descriptor_error "commit sequence outside v1 domain")
  else if d_catalog_after_epoch d <? d_catalog_before_epoch d then
    Err (descriptor_error "catalog epoch regressed")
  else
    let? _ := validate_transitions (commit_sequence d) None (table_transitions d) in
    if bool_decide (table_transitions d = []) &&
       negb (bool_decide (initial_database_root d = final_database_root d)) then
      Err (descriptor_error "zero-transition descriptor changes database data root")
    else Ok tt.

Definition validate_for_outcome (d : GenerationTerminalDescriptorV1) (o : CanonicalOutcome)
    : result unit EngineError :=
  let? _ := validate_descriptor d in
  if bool_decide (outcome_kind o = CommitSuccess) then Ok tt
  else if negb (bool_decide (initial_database_root d = final_database_root d)) then
    Err (descriptor_error "non-success descriptor changes database data root")
  else if negb (d_catalog_before_epoch d =? d_catalog_after_epoch d) ||
          negb (bool_decide (d_catalog_before_digest d = d_catalog_after_digest d)) then
    Err (descriptor_error "non-success descriptor changes catalog identity")
  else if negb (bool_decide (table_transitions d = [])) then
    Err (descriptor_error "non-success descriptor has table transitions")
  else Ok tt.

Definition validate_generation_outcome_shape (o : CanonicalOutcome) : result unit EngineError :=
  match outcome_kind o with
  | CommitSuccess =>
      if constraint_id o =? 0 then Ok tt else Err (descriptor_error "commit outcome shape")
  | CommitNoOp =>
      if (constraint_id o =? 0) && (affected_rows o =? 0) then Ok tt
      else Err (descriptor_error "commit outcome shape")
  | AbortError =>
      match sqlstate o with
      | None => Err (descriptor_error "AbortError SQLSTATE")
      | Some sqlstate =>
          if List.existsb (fun b => negb (is_ascii_uppercase b) && negb (is_ascii_digit b)) sqlstate then
            Err (descriptor_error "AbortError SQLSTATE bytes")
          else if negb (affected_rows o =? 0) then Err (descriptor_error "AbortError affected rows")
          else Ok tt
      end
  end.

Definition validate_marker (m : CanonicalTerminalMarker) : result unit EngineError :=
  match m with
  | Legacy outcome => validate_outcome outcome
  | GenerationV1 outcome descriptor =>
      let? _ := validate_outcome outcome in
      let? _ := validate_generation_outcome_shape outcome in
      validate_for_outcome descriptor outcome
  end.

Definition validate_for_header (m : CanonicalTerminalMarker) (h : CanonicalPreApplyHeader)
    : result unit EngineError :=
  let? _ := validate_marker m in
  match m with
  | GenerationV1 _ d =>
      if negb (d_catalog_before_epoch d =? catalog_before_epoch h) ||
         negb (bool_decide (d_catalog_before_digest d = catalog_before_digest h)) ||
         negb (d_catalog_after_epoch d =? catalog_after_epoch h) ||
         negb (bool_decide (d_catalog_after_digest d = catalog_after_digest h)) ||
         negb (d_stable_transaction_id d =? stable_transaction_id h) ||
         negb (commit_sequence d =? commit_seq h) then
        Err (descriptor_error "terminal descriptor does not match canonical pre-apply header")
      else Ok tt
  | Legacy _ => Ok tt
  end.

(** ** Lengths *)

Definition sides (t : GenerationTableTransitionV1) : list GenerationTableSideV1 :=
  option_list (before t) ++ option_list (after t).

Fixpoint add_index_bytes (total : Z) (l : list GenerationTableSideV1) : result Z EngineError :=
  match l with
  | [] => Ok total
  | side :: l =>
      let? total := ok_or (checked_add64 total (vec_len (indexes side) * GENERATION_INDEX_MANIFEST_BYTES))
        (descriptor_error "table transition byte length overflow") in
      add_index_bytes total l
  end.

Definition transition_encoded_len (t : GenerationTableTransitionV1) : result Z EngineError :=
  let? _ := validate_basic t in
  add_index_bytes GENERATION_TABLE_TRANSITION_FIXED_BYTES (sides t).

Fixpoint add_transition_bytes (total : Z) (l : list GenerationTableTransitionV1) : result Z EngineError :=
  match l with
  | [] => Ok total
  | t :: l =>
      let? len := transition_encoded_len t in
      let? total := ok_or (checked_add64 total len) (descriptor_error "descriptor byte length overflow") in
      add_transition_bytes total l
  end.

Definition descriptor_encoded_len (d : GenerationTerminalDescriptorV1) : result Z EngineError :=
  let? _ := validate_descriptor d in
  let? transitions := add_transition_bytes GENERATION_TERMINAL_DESCRIPTOR_FIXED_BYTES (table_transitions d) in
  if u32_max <? transitions then Err (descriptor_error "descriptor byte length exceeds u32")
  else Ok transitions.

Definition measure_canonical_terminal_marker (m : CanonicalTerminalMarker)
    : result CanonicalTerminalMarkerMeasure EngineError :=
  let? _ := validate_marker m in
  match m with
  | Legacy _ => Ok (mkMeasure CANONICAL_OUTCOME_BYTES None)
  | GenerationV1 _ descriptor =>
      let? descriptor_bytes := descriptor_encoded_len descriptor in
      let? marker_bytes := ok_or
        (checked_sum [CANONICAL_OUTCOME_BYTES; GENERATION_TERMINAL_EXTENSION_PREFIX_BYTES; descriptor_bytes])
        (descriptor_error "terminal marker byte length overflow") in
      Ok (mkMeasure marker_bytes (Some descriptor_bytes))
  end.

(** ** Encoding *)

Definition write_table_side_scalars (w : Writer) (side : option GenerationTableSideV1)
    : result Writer EngineError :=
  match side with
  | Some side =>
      let? _ := validate_side side in
      let? w := dput64 w (data_generation side) in
      let? w := dput w (table_root side) in
      dput64 w (logical_row_count side)
  | None =>
      let? w := dput64 w 0 in
      let? w := dput w (zeros 32) in
      dput64 w 0
  end.

Fixpoint write_index_list (w : Writer) (l : list GenerationIndexManifestV1) : result Writer EngineError :=
  match l with
  | [] => Ok w
  | index :: l =>
      let? w := dput64 w (stable_index_id index) in
      let? w := dput w (index_shape_root index) in
      let? w := dput64 w (index_generation index) in
      let? w := dput w (index_root index) in
      write_index_list w l
  end.

Definition side_indexes (side : option GenerationTableSideV1) : list GenerationIndexManifestV1 :=
  match side with Some side => indexes side | None => [] end.

Definition write_table_indexes (w : Writer) (side : option GenerationTableSideV1)
    : result Writer EngineError :=
  let indexes := side_indexes side in
  if u32_max <? vec_len indexes then Err (descriptor_error "index count exceeds u32")
  else
    let? w := dput32 w (vec_len indexes) in
    write_index_list w indexes.

Definition present_code (side : option GenerationTableSideV1) : Z :=
  match side with Some _ => 1 | None => 0 end.

Definition encode_transition_into (w : Writer) (t : GenerationTableTransitionV1)
    : result Writer EngineError :=
  let? _ := validate_basic t in
  let? w := dput8 w (delta_code (delta_kind t)) in
  let? w := dput64 w (stable_table_id t) in
  let? w := dput8 w (present_code (before t)) in
  let? w := dput8 w (present_code (after t)) in
  let? w := dput w (zeros 5) in
  let? w := write_table_side_scalars w (before t) in
  let? w := write_table_side_scalars w (after t) in
  let? w := write_table_indexes w (before t) in
  write_table_indexes w (after t).

Fixpoint encode_transitions_into (w : Writer) (l : list GenerationTableTransitionV1)
    : result Writer EngineError :=
  match l with
  | [] => Ok w
  | t :: l => let? w := encode_transition_into w t in encode_transitions_into w l
  end.

Definition encode_descriptor_into (len : Z) (d : GenerationTerminalDescriptorV1)
    : result (list byte) EngineError :=
  let? _ := validate_descriptor d in
  let? expected := descriptor_encoded_len d in
  if negb (len =? expected) then
    Err (descriptor_error ("descriptor buffer must be exactly " +:+ pretty expected +:+ " bytes, got " +:+
           pretty len))
  else
    let w := writer_new len in
    let? w := dput16 w GENERATION_TERMINAL_EXTENSION_VERSION in
    let? w := dput8 w (form_code (publication_form d)) in
    let? w := dput w (zeros 5) in
    let? w := dput w (initial_database_root d) in
    let? w := dput64 w (d_catalog_before_epoch d) in
    let? w := dput w (d_catalog_before_digest d) in
    let? w := dput64 w (d_catalog_after_epoch d) in
    let? w := dput w (d_catalog_after_digest d) in
    let? w := dput64 w (d_stable_transaction_id d) in
    let? w := dput64 w (commit_sequence d) in
    let? w := dput w (runtime_generation_input_digest d) in
    let? w := dput w (final_database_root d) in
    if u32_max <? vec_len (table_transitions d) then
      Err (descriptor_error "table transition count exceeds u32")
    else
      let? w := dput32 w (vec_len (table_transitions d)) in
      let? w := encode_transitions_into w (table_transitions d) in
      w_finish descriptor_errors w.

(** What [encode_canonical_terminal_marker_into] puts in a buffer of [len] bytes.  The slices
    it copies into are in range because the length has been checked; [descriptor.encode_into]
    gets the rest of the buffer. *)
Definition encode_canonical_terminal_marker_into (m : CanonicalTerminalMarker) (len : Z)
    : result (list byte) EngineError :=
  let? measure := measure_canonical_terminal_marker m in
  if negb (len =? marker_bytes measure) then
    Err (descriptor_error ("terminal marker buffer must be exactly " +:+ pretty (marker_bytes measure) +:+
           " bytes, got " +:+ pretty len))
  else
    let? outcome := encode_canonical_outcome_into_exact (marker_outcome m) in
    match m with
    | Legacy _ => Ok outcome
    | GenerationV1 _ descriptor =>
        let prefix := GENERATION_TERMINAL_EXTENSION_MAGIC ++
          to_le_bytes 2 GENERATION_TERMINAL_EXTENSION_VERSION ++ zeros 2 ++
          to_le_bytes 4 (default 0 (descriptor_bytes measure)) in
        let? rest := encode_descriptor_into (len - vec_len outcome - vec_len prefix) descriptor in
        Ok (outcome ++ prefix ++ rest)
    end.

(** ** Decoding *)

Section reserve.
Context (try_reserve_exact : Z -> bool).

Definition read_flag (label : string) (c : list byte) : result (bool * list byte) EngineError :=
  let? (value, c) := dget8 c in
  match value with
  | 0 => Ok (false, c)
  | 1 => Ok (true, c)
  | other => Err (descriptor_error ("invalid " +:+ label +:+ " flag " +:+ pretty other))
  end.

Definition read_table_side_scalars (c : list byte) (present : bool)
    : result (option GenerationTableSideV1 * list byte) EngineError :=
  let? (data_generation, c) := dget64 c in
  let? (table_root, c) := dget c 32 in
  let? (logical_row_count, c) := dget64 c in
  if negb present then
    if negb (data_generation =? 0) || negb (bool_decide (table_root = zeros 32)) ||
       negb (logical_row_count =? 0) then
      Err (descriptor_error "absent table side carries data")
    else Ok (None, c)
  else Ok (Some (mkSide data_generation table_root logical_row_count []), c).

(** [for _ in 0..index_count]. *)
Fixpoint read_index_list (n : nat) (c : list byte)
    : result (list GenerationIndexManifestV1 * list byte) EngineError :=
  match n with
  | O => Ok ([], c)
  | S n =>
      let? (stable_index_id, c) := dget64 c in
      let? (index_shape_root, c) := dget c 32 in
      let? (index_generation, c) := dget64 c in
      let? (index_root, c) := dget c 32 in
      let? (l, c) := read_index_list n c in
      Ok (mkIndex stable_index_id index_shape_root index_generation index_root :: l, c)
  end.

Definition read_table_indexes (c : list byte) (side : option GenerationTableSideV1)
    : result (option GenerationTableSideV1 * list byte) EngineError :=
  let? (index_count, c) := dget32 c in
  match side with
  | None =>
      if negb (index_count =? 0) then Err (descriptor_error "absent table side carries indexes")
      else Ok (None, c)
  | Some side =>
      if Z.quot (vec_len c) GENERATION_INDEX_MANIFEST_BYTES <? index_count then
        Err (descriptor_error "index count exceeds remaining descriptor geometry")
      else if negb (try_reserve_exact index_count) then
        Err (descriptor_error "unable to reserve decoded indexes")
      else
        let? (indexes, c) := read_index_list (Z.to_nat index_count) c in
        let side := mkSide (data_generation side) (table_root side) (logical_row_count side) indexes in
        let? _ := validate_side side in
        Ok (Some side, c)
  end.

Definition decode_transition (c : list byte)
    : result (GenerationTableTransitionV1 * list byte) EngineError :=
  let? (code, c) := dget8 c in
  let? kind := decode_delta code in
  let? (stable_table_id, c) := dget64 c in
  let? (before_present, c) := read_flag "before table presence" c in
  let? (after_present, c) := read_flag "after table presence" c in
  let? (reserved, c) := dget c 5 in
  if negb (bool_decide (reserved = zeros 5)) then
    Err (descriptor_error "non-zero table transition reserved bytes")
  else
    let? (before, c) := read_table_side_scalars c before_present in
    let? (after, c) := read_table_side_scalars c after_present in
    let? (before, c) := read_table_indexes c before in
    let? (after, c) := read_table_indexes c after in
    let result := mkTransition kind stable_table_id before after in
    let? _ := validate_basic result in
    Ok (result, c).

(** [for _ in 0..count]. *)
Fixpoint decode_transitions (n : nat) (c : list byte)
    : result (list GenerationTableTransitionV1 * list byte) EngineError :=
  match n with
  | O => Ok ([], c)
  | S n =>
      let? (t, c) := decode_transition c in
      let? (l, c) := decode_transitions n c in
      Ok (t :: l, c)
  end.

Definition decode_descriptor (bytes : list byte) : result GenerationTerminalDescriptorV1 EngineError :=
  let c := bytes in
  let? (version, c) := dget16 c in
  if negb (version =? GENERATION_TERMINAL_EXTENSION_VERSION) then
    Err (descriptor_error ("unsupported descriptor version " +:+ pretty version))
  else
    let? (code, c) := dget8 c in
    let? publication_form := decode_form code in
    let? (reserved, c) := dget c 5 in
    if negb (bool_decide (reserved = zeros 5)) then
      Err (descriptor_error "non-zero descriptor reserved bytes")
    else
      let? (initial_database_root, c) := dget c 32 in
      let? (catalog_before_epoch, c) := dget64 c in
      let? (catalog_before_digest, c) := dget c 32 in
      let? (catalog_after_epoch, c) := dget64 c in
      let? (catalog_after_digest, c) := dget c 32 in
      let? (stable_transaction_id, c) := dget64 c in
      let? (commit_sequence, c) := dget64 c in
      let? (runtime_generation_input_digest, c) := dget c 32 in
      let? (final_database_root, c) := dget c 32 in
      let? (count, c) := dget32 c in
      if Z.quot (vec_len c) GENERATION_TABLE_TRANSITION_FIXED_BYTES <? count then
        Err (descriptor_error "table transition count exceeds remaining descriptor geometry")
      else if negb (try_reserve_exact count) then
        Err (descriptor_error "unable to reserve decoded table transitions")
      else
        let? (table_transitions, c) := decode_transitions (Z.to_nat count) c in
        let? _ := r_finish descriptor_errors c in
        let descriptor := mkDescriptor publication_form initial_database_root catalog_before_epoch
          catalog_before_digest catalog_after_epoch catalog_after_digest stable_transaction_id
          commit_sequence runtime_generation_input_digest final_database_root table_transitions in
        let? _ := validate_descriptor descriptor in
        Ok descriptor.

Definition decode_canonical_terminal_marker (bytes : list byte)
    : result CanonicalTerminalMarker EngineError :=
  if vec_len bytes <? CANONICAL_OUTCOME_BYTES then
    Err (descriptor_error "terminal marker truncates canonical outcome")
  else
    let? outcome := decode_canonical_outcome_exact (take (Z.to_nat CANONICAL_OUTCOME_BYTES) bytes) in
    if vec_len bytes =? CANONICAL_OUTCOME_BYTES then Ok (Legacy outcome)
    else
      let extension := drop (Z.to_nat CANONICAL_OUTCOME_BYTES) bytes in
      if vec_len extension <? GENERATION_TERMINAL_EXTENSION_PREFIX_BYTES then
        Err (descriptor_error "terminal extension prefix is truncated")
      else
        let c := extension in
        let? (magic, c) := dget c (vec_len GENERATION_TERMINAL_EXTENSION_MAGIC) in
        if negb (bool_decide (magic = GENERATION_TERMINAL_EXTENSION_MAGIC)) then
          Err (descriptor_error "terminal extension magic")
        else
          let? (version, c) := dget16 c in
          if negb (version =? GENERATION_TERMINAL_EXTENSION_VERSION) then
            Err (descriptor_error ("unsupported terminal extension version " +:+ pretty version))
          else
            let? (reserved, c) := dget c 2 in
            if negb (bool_decide (reserved = zeros 2)) then
              Err (descriptor_error "non-zero terminal extension reserved bytes")
            else
              let? (descriptor_bytes, c) := dget32 c in
              if negb (vec_len c =? descriptor_bytes) then
                Err (descriptor_error "terminal extension descriptor length")
              else
                let? (raw, c) := dget c descriptor_bytes in
                let? descriptor := decode_descriptor raw in
                let? _ := r_finish descriptor_errors c in
                let marker := GenerationV1 outcome descriptor in
                let? _ := validate_marker marker in
                Ok marker.

End reserve.

(** ** The terminal digest *)

Definition canonical_terminal_marker_digest_from_encoded (sha256 : list byte -> list byte)
    (header_bytes ordered_fragment_root : list byte) (m : CanonicalTerminalMarker)
    (bytes : list byte) : result (list byte) EngineError :=
  let? measure := measure_canonical_terminal_marker m in
  if negb (vec_len bytes =? marker_bytes measure) then
    Err (descriptor_error "terminal marker bytes do not match measured geometry")
  else
    let domain := match m with Legacy _ => FINAL_DOMAIN | GenerationV1 _ _ => RUNTIME_TERMINAL_DOMAIN end in
    Ok (digest_parts sha256 domain [header_bytes; ordered_fragment_root; bytes]).

(** ** Well-formed values *)

Definition wf_index (i : GenerationIndexManifestV1) : Prop :=
  fits 8 (stable_index_id i) /\ length (index_shape_root i) = 32%nat /\
  fits 8 (index_generation i) /\ length (index_root i) = 32%nat.

Definition wf_side (s : GenerationTableSideV1) : Prop :=
  fits 8 (data_generation s) /\ length (table_root s) = 32%nat /\ fits 8 (logical_row_count s) /\
  Forall wf_index (indexes s).

Definition wf_optional_side (s : option GenerationTableSideV1) : Prop :=
  match s with Some s => wf_side s | None => True end.

Definition wf_transition (t : GenerationTableTransitionV1) : Prop :=
  fits 8 (stable_table_id t) /\ wf_optional_side (before t) /\ wf_optional_side (after t).

Record wf_descriptor (d : GenerationTerminalDescriptorV1) : Prop := mkWfDescriptor {
  wfd_initial : length (initial_database_root d) = 32%nat;
  wfd_before : fits 8 (d_catalog_before_epoch d);
  wfd_before_digest : length (d_catalog_before_digest d) = 32%nat;
  wfd_after : fits 8 (d_catalog_after_epoch d);
  wfd_after_digest : length (d_catalog_after_digest d) = 32%nat;
  wfd_txn : fits 8 (d_stable_transaction_id d);
  wfd_seq : fits 8 (commit_sequence d);
  wfd_input : length (runtime_generation_input_digest d) = 32%nat;
  wfd_final : length (final_database_root d) = 32%nat;
  wfd_transitions : Forall wf_transition (table_transitions d);
}.

Definition wf_marker (m : CanonicalTerminalMarker) : Prop :=
  match m with
  | Legacy outcome => wf_outcome outcome
  | GenerationV1 outcome descriptor => wf_outcome outcome /\ wf_descriptor descriptor
  end.

End GenTerminal.
