(* ===== verification/GenTerminalFacts.v ===== *)
(** * Generation terminal markers: the codec is exact

    The layout of a descriptor, its measured length, that the encoder writes the layout, and
    that the decoder accepts exactly the layouts of well-formed valid markers. *)

From stdpp Require Import base strings list pretty.
From S2P Require Import Prelude Types Bytes Codec Canonical CanonicalFacts GenTerminal.

Module GenTerminalFacts.
Import Codec Canonical CanonicalFacts GenTerminal.

(** ** Layouts *)

Definition scalars_layout (s : option GenerationTableSideV1) : list byte :=
  match s with
  | Some s => to_le_bytes 8 (data_generation s) ++ table_root s ++ to_le_bytes 8 (logical_row_count s)
  | None => to_le_bytes 8 0 ++ zeros 32 ++ to_le_bytes 8 0
  end.

Definition index_layout (i : GenerationIndexManifestV1) : list byte :=
  to_le_bytes 8 (stable_index_id i) ++ index_shape_root i ++ to_le_bytes 8 (index_generation i) ++
  index_root i.

Definition index_list_layout (l : list GenerationIndexManifestV1) : list byte :=
  List.flat_map index_layout l.

Definition indexes_layout (s : option GenerationTableSideV1) : list byte :=
  to_le_bytes 4 (vec_len (side_indexes s)) ++ index_list_layout (side_indexes s).

Definition transition_layout (t : GenerationTableTransitionV1) : list byte :=
  to_le_bytes 1 (delta_code (delta_kind t)) ++ to_le_bytes 8 (stable_table_id t) ++
  to_le_bytes 1 (present_code (before t)) ++ to_le_bytes 1 (present_code (after t)) ++ zeros 5 ++
  scalars_layout (before t) ++ scalars_layout (after t) ++
  indexes_layout (before t) ++ indexes_layout (after t).

Definition transitions_layout (l : list GenerationTableTransitionV1) : list byte :=
  List.flat_map transition_layout l.

Definition descriptor_layout (d : GenerationTerminalDescriptorV1) : list byte :=
  to_le_bytes 2 GENERATION_TERMINAL_EXTENSION_VERSION ++ to_le_bytes 1 (form_code (publication_form d)) ++
  zeros 5 ++ initial_database_root d ++ to_le_bytes 8 (d_catalog_before_epoch d) ++
  d_catalog_before_digest d ++ to_le_bytes 8 (d_catalog_after_epoch d) ++ d_catalog_after_digest d ++
  to_le_bytes 8 (d_stable_transaction_id d) ++ to_le_bytes 8 (commit_sequence d) ++
  runtime_generation_input_digest d ++ final_database_root d ++
  to_le_bytes 4 (vec_len (table_transitions d)) ++ transitions_layout (table_transitions d).

Definition extension_layout (d : GenerationTerminalDescriptorV1) : list byte :=
  GENERATION_TERMINAL_EXTENSION_MAGIC ++ to_le_bytes 2 GENERATION_TERMINAL_EXTENSION_VERSION ++ zeros 2 ++
  to_le_bytes 4 (vec_len (descriptor_layout d)) ++ descriptor_layout d.

Definition marker_layout (m : CanonicalTerminalMarker) : list byte :=
  outcome_layout (marker_outcome m) ++
  match m with Legacy _ => [] | GenerationV1 _ d => extension_layout d end.

#[global] Arguments descriptor_layout : simpl never.
#[global] Arguments marker_layout : simpl never.

(** ** Lengths *)

Lemma vec_len_cons {A} (x : A) l : vec_len (x :: l) = 1 + vec_len l.
Proof. unfold vec_len. cbn. lia. Qed.

Lemma index_list_cons i l : index_list_layout (i :: l) = index_layout i ++ index_list_layout l.
Proof. done. Qed.

Lemma transitions_cons t l : transitions_layout (t :: l) = transition_layout t ++ transitions_layout l.
Proof. done. Qed.

Lemma length_index_list l :
  Forall wf_index l -> vec_len (index_list_layout l) = GENERATION_INDEX_MANIFEST_BYTES * vec_len l.
Proof.
  induction 1 as [|i l (? & ? & ? & ?) Hl IH]; [done|].
  rewrite index_list_cons, vec_len_app, IH, vec_len_cons.
  unfold index_layout, GENERATION_INDEX_MANIFEST_BYTES. len_solve.
Qed.

Lemma wf_side_indexes s : wf_optional_side s -> Forall wf_index (side_indexes s).
Proof. destruct s as [s|]; cbn; [by intros (_ & _ & _ & ?)|constructor]. Qed.

Lemma length_scalars s : wf_optional_side s -> vec_len (scalars_layout s) = 48.
Proof. destruct s as [s|]; cbn; [intros (? & ? & ? & ?)|intros _]; unfold scalars_layout; len_solve. Qed.

Lemma length_indexes s :
  wf_optional_side s ->
  vec_len (indexes_layout s) = 4 + GENERATION_INDEX_MANIFEST_BYTES * vec_len (side_indexes s).
Proof.
  intros H%wf_side_indexes. unfold indexes_layout. rewrite vec_len_app, vec_len_le_bytes.
  by rewrite length_index_list.
Qed.

Definition transition_size (t : GenerationTableTransitionV1) : Z :=
  GENERATION_TABLE_TRANSITION_FIXED_BYTES +
  GENERATION_INDEX_MANIFEST_BYTES * vec_len (side_indexes (before t)) +
  GENERATION_INDEX_MANIFEST_BYTES * vec_len (side_indexes (after t)).

Lemma length_transition t : wf_transition t -> vec_len (transition_layout t) = transition_size t.
Proof.
  intros (? & Hb & Ha). unfold transition_layout, transition_size, GENERATION_TABLE_TRANSITION_FIXED_BYTES.
  rewrite !vec_len_app, !length_scalars, !length_indexes by done. autorewrite with codec_len. lia.
Qed.

Lemma transitions_ge l :
  Forall wf_transition l ->
  GENERATION_TABLE_TRANSITION_FIXED_BYTES * vec_len l <= vec_len (transitions_layout l).
Proof.
  induction 1 as [|t l Ht Hl IH]; [done|].
  rewrite transitions_cons, vec_len_app, vec_len_cons, length_transition by done.
  unfold transition_size, GENERATION_TABLE_TRANSITION_FIXED_BYTES, GENERATION_INDEX_MANIFEST_BYTES in *.
  pose proof (vec_len_nonneg (side_indexes (before t))).
  pose proof (vec_len_nonneg (side_indexes (after t))). lia.
Qed.

Lemma length_descriptor d :
  wf_descriptor d ->
  vec_len (descriptor_layout d) =
  GENERATION_TERMINAL_DESCRIPTOR_FIXED_BYTES + vec_len (transitions_layout (table_transitions d)).
Proof.
  intros [? ? ? ? ? ? ? ? ? ?]. unfold descriptor_layout, GENERATION_TERMINAL_DESCRIPTOR_FIXED_BYTES. len_solve.
Qed.

(** ** The measured length *)

Lemma bind_checked_add {A E} a b (e : E) (k : Z -> result A E) r :
  (let? total := ok_or (checked_add64 a b) e in k total) = Ok r <-> a + b <= u64_max /\ k (a + b) = Ok r.
Proof.
  unfold checked_add64. destruct (Z.leb_spec (a + b) u64_max); cbn; split; try done; [by intros [_ ?]|lia].
Qed.

Lemma transition_len_Ok t n :
  wf_transition t ->
  transition_encoded_len t = Ok n <->
  validate_basic t = Ok tt /\ n = transition_size t /\ n <= u64_max.
Proof.
  intros Hwf. unfold transition_encoded_len.
  destruct (validate_basic t) as [[]|]; [|by split; [|intros [? _]]].
  transitivity (n = transition_size t /\ n <= u64_max); [|by split; [|intros [_ ?]]].
  unfold transition_size, GENERATION_TABLE_TRANSITION_FIXED_BYTES, GENERATION_INDEX_MANIFEST_BYTES, sides.
  destruct (before t) as [b|], (after t) as [a|];
    cbn -[Z.mul Z.add vec_len u64_max checked_add64 ok_or];
    unfold GENERATION_TABLE_TRANSITION_FIXED_BYTES, GENERATION_INDEX_MANIFEST_BYTES;
    try pose proof (vec_len_nonneg (indexes b)); try pose proof (vec_len_nonneg (indexes a));
    rewrite ?bind_checked_add, ?vec_len_nil; split.
  all: intros ?; destruct_and?; simplify_eq; unfold u64_max, vec_len in *; cbn [length] in *; repeat split;
    try lia; f_equal; lia.
Qed.

Lemma add_transitions_Ok total l n :
  Forall wf_transition l -> 0 <= total <= u64_max ->
  add_transition_bytes total l = Ok n <->
  Forall (fun t => validate_basic t = Ok tt) l /\ n = total + vec_len (transitions_layout l) /\ n <= u64_max.
Proof.
  intros Hl. revert total. induction Hl as [|t l Ht Hl IH]; intros total Htotal.
  { cbn. rewrite vec_len_nil. split; [intros [= <-]; split; [constructor|lia]|intros (_ & -> & _); f_equal; lia]. }
  rewrite transitions_cons, vec_len_app, length_transition by done. cbn [add_transition_bytes].
  pose proof (transitions_ge l Hl) as Hge. pose proof (vec_len_nonneg l).
  assert (0 <= transition_size t) as Hsize.
  { rewrite <- length_transition by done. apply vec_len_nonneg. }
  unfold GENERATION_TABLE_TRANSITION_FIXED_BYTES in Hge. split.
  - destruct (transition_encoded_len t) as [len|] eqn:Hlen; [|done].
    apply transition_len_Ok in Hlen as (Hv & -> & _); [|done]. rewrite bind_checked_add.
    intros [Hb Hr]. apply IH in Hr as (Hvs & -> & Hle); [|lia]. split; [by constructor|lia].
  - intros (Hvs & -> & Hle). inversion Hvs; subst.
    rewrite (proj2 (transition_len_Ok t (transition_size t) Ht)) by (repeat split; done || lia).
    rewrite bind_checked_add. split; [lia|]. apply IH; [lia|]. split; [done|lia].
Qed.

Lemma validate_transitions_basic seq previous l :
  validate_transitions seq previous l = Ok tt -> Forall (fun t => validate_basic t = Ok tt) l.
Proof.
  revert previous. induction l as [|t l IH]; intros previous; cbn; [constructor|].
  unfold validate_transition. destruct (validate_basic t) as [[]|] eqn:Hb; [|done].
  destruct (validate_delta t seq) as [[]|]; [|done].
  destruct (validate_generation_evolution t seq) as [[]|]; [|done].
  destruct (not_ascending _ _); [done|]. constructor; [done|by eapply IH].
Qed.

Lemma validate_descriptor_basic d :
  validate_descriptor d = Ok tt -> Forall (fun t => validate_basic t = Ok tt) (table_transitions d).
Proof. unfold validate_descriptor. intros H. repeat dec_step H. bools. by eapply validate_transitions_basic. Qed.

Lemma descriptor_len_Ok d n :
  wf_descriptor d ->
  descriptor_encoded_len d = Ok n <->
  validate_descriptor d = Ok tt /\ n = vec_len (descriptor_layout d) /\ n <= u32_max.
Proof.
  intros Hwf. unfold descriptor_encoded_len. rewrite length_descriptor by done.
  destruct Hwf as [_ _ _ _ _ _ _ _ _ Ht]. split.
  - intros H. do 2 dec_step H. dec_step H. injection H as <-. bools.
    match goal with H : add_transition_bytes _ _ = _ |- _ => apply add_transitions_Ok in H as (_ & -> & _) end;
      [done|done|vm_compute; split; discriminate].
  - intros (Hv & -> & Hle). rewrite Hv.
    set (n := GENERATION_TERMINAL_DESCRIPTOR_FIXED_BYTES + _) in *.
    assert (add_transition_bytes GENERATION_TERMINAL_DESCRIPTOR_FIXED_BYTES (table_transitions d) = Ok n) as ->.
    { apply add_transitions_Ok; [done|vm_compute; split; discriminate|].
      split; [by apply validate_descriptor_basic|]. split; [reflexivity|]. unfold u32_max, u64_max in *. lia. }
    by rewrite (proj2 (Z.ltb_ge _ _)).
Qed.

(** ** Encoding *)

Definition extend (w : Writer) (l : list byte) : Writer := mkWriter (w_cap w) (w_out w ++ l).

Definition has_room (w : Writer) (n : Z) : Prop := vec_len (w_out w) + n <= w_cap w.

Lemma extend_app w a b : extend (extend w a) b = extend w (a ++ b).
Proof. unfold extend. cbn. by rewrite app_assoc. Qed.

Lemma extend_room w a n : has_room w (vec_len a + n) -> has_room (extend w a) n.
Proof. unfold has_room, extend. cbn. rewrite vec_len_app. lia. Qed.

Ltac room := unfold has_room, extend, GENERATION_INDEX_MANIFEST_BYTES in *; cbn [w_out w_cap] in *; len_solve.

Ltac writes :=
  unfold w_uint;
  repeat (rewrite w_bytes_ok by room; fold (extend : Writer -> list byte -> Writer);
          match goal with |- context [mkWriter (w_cap ?w) (w_out ?w ++ ?l)] =>
            change (mkWriter (w_cap w) (w_out w ++ l)) with (extend w l) end; cbn beta iota).

Lemma write_scalars_ok w s :
  wf_optional_side s -> validate_optional_side s = Ok tt -> has_room w 48 ->
  write_table_side_scalars w s = Ok (extend w (scalars_layout s)).
Proof.
  destruct s as [s|]; cbn; [intros (? & ? & ? & ?) ->|intros _ _]; intros Hroom; writes;
    by rewrite !extend_app, <- ?app_assoc.
Qed.

Lemma write_index_list_ok w l :
  Forall wf_index l -> has_room w (GENERATION_INDEX_MANIFEST_BYTES * vec_len l) ->
  write_index_list w l = Ok (extend w (index_list_layout l)).
Proof.
  intros Hl. revert w. induction Hl as [|i l Hi Hl IH]; intros w Hroom.
  { cbn. unfold extend. rewrite app_nil_r. by destruct w. }
  rewrite vec_len_cons in Hroom. pose proof (vec_len_nonneg l).
  destruct Hi as (? & ? & ? & ?). cbn [write_index_list]. unfold GENERATION_INDEX_MANIFEST_BYTES in *. writes.
  rewrite !extend_app, <- ?app_assoc. rewrite IH by (apply extend_room; room).
  by rewrite index_list_cons, extend_app.
Qed.

Lemma write_indexes_ok w s :
  wf_optional_side s -> fits 4 (vec_len (side_indexes s)) ->
  has_room w (4 + GENERATION_INDEX_MANIFEST_BYTES * vec_len (side_indexes s)) ->
  write_table_indexes w s = Ok (extend w (indexes_layout s)).
Proof.
  intros Hwf%wf_side_indexes Hfit Hroom. unfold write_table_indexes.
  pose proof (vec_len_nonneg (side_indexes s)). unfold GENERATION_INDEX_MANIFEST_BYTES in *.
  rewrite (proj2 (Z.ltb_ge _ _)) by (unfold fits, u32_max in *; cbn in *; lia). writes.
  rewrite write_index_list_ok by (done || room). by rewrite extend_app.
Qed.

(** The counts of the vectors fit their [u32] fields. *)
Definition counts_fit (t : GenerationTableTransitionV1) : Prop :=
  fits 4 (vec_len (side_indexes (before t))) /\ fits 4 (vec_len (side_indexes (after t))).

Lemma validate_basic_Ok t :
  validate_basic t = Ok tt <->
  stable_table_id t <> 0 /\ validate_optional_side (before t) = Ok tt /\
  validate_optional_side (after t) = Ok tt.
Proof.
  unfold validate_basic, nonzero_id. destruct (Z.eqb_spec (stable_table_id t) 0).
  { split; [done|]. by intros [? _]. }
  destruct (validate_optional_side (before t)) as [[]|]; [|split; [done|by intros (_ & ? & _)]].
  split; [done|by intros (_ & _ & ?)].
Qed.

Lemma encode_transition_ok w t :
  wf_transition t -> validate_basic t = Ok tt -> counts_fit t -> has_room w (transition_size t) ->
  encode_transition_into w t = Ok (extend w (transition_layout t)).
Proof.
  intros (? & Hb & Ha) Hv (Hcb & Hca) Hroom. unfold encode_transition_into. rewrite Hv.
  apply validate_basic_Ok in Hv as (_ & Hvb & Hva).
  unfold transition_size, GENERATION_TABLE_TRANSITION_FIXED_BYTES in Hroom.
  pose proof (length_scalars _ Hb). pose proof (length_scalars _ Ha).
  pose proof (length_indexes _ Hb) as Hlb. pose proof (length_indexes _ Ha) as Hla.
  pose proof (vec_len_nonneg (indexes_layout (before t))). pose proof (vec_len_nonneg (indexes_layout (after t))).
  writes. rewrite write_scalars_ok by (done || room).
  rewrite write_scalars_ok by (done || room). rewrite write_indexes_ok by (done || room).
  rewrite write_indexes_ok by (done || room). rewrite !extend_app, <- ?app_assoc. done.
Qed.

Lemma encode_transitions_ok w l :
  Forall wf_transition l -> Forall (fun t => validate_basic t = Ok tt) l -> Forall counts_fit l ->
  has_room w (vec_len (transitions_layout l)) ->
  encode_transitions_into w l = Ok (extend w (transitions_layout l)).
Proof.
  intros Hl. revert w. induction Hl as [|t l Ht Hl IH]; intros w Hv Hc Hroom.
  { cbn. unfold extend. rewrite app_nil_r. by destruct w. }
  rewrite transitions_cons, vec_len_app in Hroom.
  inversion Hv; inversion Hc; subst. cbn [encode_transitions_into].
  pose proof (vec_len_nonneg (transitions_layout l)).
  rewrite encode_transition_ok by (done || (rewrite <- length_transition by done; room)).
  rewrite IH by (done || apply extend_room; done). by rewrite transitions_cons, extend_app.
Qed.

Lemma transitions_counts_fit l :
  Forall wf_transition l -> vec_len (transitions_layout l) <= u32_max -> Forall counts_fit l.
Proof.
  induction 1 as [|t l Ht Hl IH]; intros Hle; [constructor|].
  rewrite transitions_cons, vec_len_app, length_transition in Hle by done.
  pose proof (vec_len_nonneg (transitions_layout l)).
  pose proof (vec_len_nonneg (side_indexes (before t))). pose proof (vec_len_nonneg (side_indexes (after t))).
  unfold transition_size, GENERATION_TABLE_TRANSITION_FIXED_BYTES, GENERATION_INDEX_MANIFEST_BYTES, u32_max in *.
  constructor; [unfold counts_fit, fits; cbn; lia|]. apply IH. lia.
Qed.

(** A descriptor short enough for its length field has counts short enough for theirs. *)
Lemma descriptor_counts_fit d :
  wf_descriptor d -> vec_len (descriptor_layout d) <= u32_max ->
  Forall counts_fit (table_transitions d) /\ fits 4 (vec_len (table_transitions d)).
Proof.
  intros Hwf Hle. rewrite length_descriptor in Hle by done. pose proof (wfd_transitions d Hwf) as Ht.
  unfold GENERATION_TERMINAL_DESCRIPTOR_FIXED_BYTES in Hle. split.
  - apply transitions_counts_fit; [done|lia].
  - pose proof (transitions_ge _ Ht) as Hge. unfold GENERATION_TABLE_TRANSITION_FIXED_BYTES in Hge.
    pose proof (vec_len_nonneg (table_transitions d)). unfold fits, u32_max in *. cbn. lia.
Qed.

Lemma encode_descriptor_Ok len d bytes :
  wf_descriptor d ->
  encode_descriptor_into len d = Ok bytes <->
  validate_descriptor d = Ok tt /\ bytes = descriptor_layout d /\ len = vec_len bytes /\ len <= u32_max.
Proof.
  intros Hwf. unfold encode_descriptor_into. destruct (validate_descriptor d) as [[]|] eqn:Hv; [|by split; [|intros [? _]]].
  destruct (descriptor_encoded_len d) as [n|] eqn:Hn.
  2:{ split; [done|]. intros (_ & -> & -> & Hle). exfalso.
      assert (descriptor_encoded_len d = Ok (vec_len (descriptor_layout d))) as Hk by (by apply descriptor_len_Ok).
      by rewrite Hk in Hn. }
  apply descriptor_len_Ok in Hn as (_ & -> & Hle); [|done].
  destruct (Z.eqb_spec len (vec_len (descriptor_layout d))) as [->|Hne]; cbn [negb].
  2:{ split; [done|]. by intros (_ & -> & ? & _). }
  destruct (descriptor_counts_fit d Hwf Hle) as [Hc Hcount].
  pose proof (length_descriptor d Hwf) as Hlen. pose proof (vec_len_nonneg (transitions_layout (table_transitions d))).
  pose proof (validate_descriptor_basic d Hv) as Hvb. destruct Hwf as [? ? ? ? ? ? ? ? ? Ht].
  set (w := writer_new (vec_len (descriptor_layout d))).
  assert (has_room w (204 + vec_len (transitions_layout (table_transitions d)))) as Hroom.
  { unfold has_room, w. cbn [writer_new w_out w_cap]. rewrite Hlen, vec_len_nil.
    unfold GENERATION_TERMINAL_DESCRIPTOR_FIXED_BYTES. lia. }
  assert (w_out w = []) as Hout by done. assert (w_cap w = vec_len (descriptor_layout d)) as Hcap by done.
  clearbody w. writes.
  rewrite (proj2 (Z.ltb_ge _ _)) by (unfold fits, u32_max in *; cbn in *; lia). writes.
  rewrite encode_transitions_ok by (done || room). rewrite !extend_app.
  fold (descriptor_layout d). rewrite w_finish_ok; cbn [w_out w_cap extend]; rewrite Hout; [|by rewrite Hcap].
  cbn [app]. split; [intros [= <-]; by repeat split|by intros (_ & -> & _)].
Qed.

(** ** Markers *)

Definition marker_fits (m : CanonicalTerminalMarker) : Prop :=
  match m with Legacy _ => True | GenerationV1 _ d => vec_len (descriptor_layout d) <= u32_max end.

Definition marker_measure (m : CanonicalTerminalMarker) : CanonicalTerminalMarkerMeasure :=
  mkMeasure (vec_len (marker_layout m))
    (match m with Legacy _ => None | GenerationV1 _ d => Some (vec_len (descriptor_layout d)) end).

Lemma wf_marker_outcome m : wf_marker m -> wf_outcome (marker_outcome m).
Proof. destruct m; cbn; [done|by intros [? _]]. Qed.

Lemma validate_marker_outcome m : validate_marker m = Ok tt -> validate_outcome (marker_outcome m) = Ok tt.
Proof. destruct m; cbn; [done|]. by destruct (validate_outcome _) as [[]|]. Qed.

Lemma validate_marker_descriptor o d : validate_marker (GenerationV1 o d) = Ok tt -> validate_descriptor d = Ok tt.
Proof.
  cbn. intros H. do 2 dec_step H. unfold validate_for_outcome in H. dec_step H. by destruct a1.
Qed.

Lemma extension_split out d :
  out ++ (GENERATION_TERMINAL_EXTENSION_MAGIC ++ to_le_bytes 2 GENERATION_TERMINAL_EXTENSION_VERSION ++
    zeros 2 ++ to_le_bytes 4 (vec_len (descriptor_layout d))) ++ descriptor_layout d
  = out ++ extension_layout d.
Proof.
  unfold extension_layout. generalize GENERATION_TERMINAL_EXTENSION_MAGIC (descriptor_layout d). intros.
  by rewrite <- !app_assoc.
Qed.

Lemma length_extension d :
  vec_len (extension_layout d) = GENERATION_TERMINAL_EXTENSION_PREFIX_BYTES + vec_len (descriptor_layout d).
Proof.
  unfold extension_layout, GENERATION_TERMINAL_EXTENSION_PREFIX_BYTES.
  assert (vec_len GENERATION_TERMINAL_EXTENSION_MAGIC = 16) as Hm by done. autorewrite with codec_len. lia.
Qed.

Lemma length_marker m :
  wf_marker m ->
  vec_len (marker_layout m) = CANONICAL_OUTCOME_BYTES +
    match m with
    | Legacy _ => 0
    | GenerationV1 _ d => GENERATION_TERMINAL_EXTENSION_PREFIX_BYTES + vec_len (descriptor_layout d)
    end.
Proof.
  intros Hwf. unfold marker_layout. rewrite vec_len_app, length_outcome_layout by by apply wf_marker_outcome.
  destruct m; [by rewrite vec_len_nil|by rewrite length_extension].
Qed.

Lemma measure_Ok m ms :
  wf_marker m ->
  measure_canonical_terminal_marker m = Ok ms <->
  validate_marker m = Ok tt /\ marker_fits m /\ ms = marker_measure m.
Proof.
  intros Hwf. unfold measure_canonical_terminal_marker.
  destruct (validate_marker m) as [[]|] eqn:Hv; [|by split; [|intros [? _]]].
  unfold marker_measure. rewrite length_marker by done. destruct m as [o|o d]; cbn [marker_fits].
  { rewrite Z.add_0_r. split; [by intros [= <-]|by intros (_ & _ & ->)]. }
  destruct Hwf as [_ Hwd]. split.
  - intros H. dec_step H. apply descriptor_len_Ok in Hr as (_ & -> & Hle); [|done]. dec_step H.
    injection H as <-. apply ok_or_Ok, checked_sum3 in Hr as [-> _]; [|done|done|apply vec_len_nonneg].
    repeat split; [done|]. by rewrite Z.add_assoc.
  - intros (_ & Hle & ->).
    assert (descriptor_encoded_len d = Ok (vec_len (descriptor_layout d))) as ->.
    { apply descriptor_len_Ok; [done|]. split; [by eapply validate_marker_descriptor|done]. }
    rewrite Z.add_assoc. set (total := CANONICAL_OUTCOME_BYTES + _ + _).
    assert (checked_sum [CANONICAL_OUTCOME_BYTES; GENERATION_TERMINAL_EXTENSION_PREFIX_BYTES;
      vec_len (descriptor_layout d)] = Some total) as ->; [|done].
    apply checked_sum3; [done|done|apply vec_len_nonneg|]. split; [done|].
    unfold CANONICAL_OUTCOME_BYTES, GENERATION_TERMINAL_EXTENSION_PREFIX_BYTES, u32_max, u64_max in *. lia.
Qed.

Lemma encode_marker_Ok m bytes :
  wf_marker m ->
  (exists ms, measure_canonical_terminal_marker m = Ok ms /\
    encode_canonical_terminal_marker_into m (marker_bytes ms) = Ok bytes) <->
  validate_marker m = Ok tt /\ marker_fits m /\ bytes = marker_layout m.
Proof.
  intros Hwf. split.
  - intros (ms & Hms & H). unfold encode_canonical_terminal_marker_into in H. rewrite Hms in H.
    apply measure_Ok in Hms as (Hv & Hfit & ->); [|done]. rewrite Z.eqb_refl in H. cbn [negb] in H.
    split; [done|]. split; [done|]. unfold marker_layout.
    pose proof (wf_marker_outcome m Hwf) as Hwo. dec_step H.
    apply (encode_outcome_Ok _ _ Hwo) in Hr as [_ ->].
    destruct m as [o|o d]; [injection H as <-; by rewrite app_nil_r|].
    destruct Hwf as [_ Hwd]. dec_step H. apply Ok_inj in H as <-.
    apply (encode_descriptor_Ok _ _ _ Hwd) in Hr as (_ & -> & _). apply extension_split.
  - intros (Hv & Hfit & ->). exists (marker_measure m).
    assert (measure_canonical_terminal_marker m = Ok (marker_measure m)) as Hms by (by apply measure_Ok).
    split; [done|]. unfold encode_canonical_terminal_marker_into. rewrite Hms, Z.eqb_refl. cbn [negb].
    pose proof (wf_marker_outcome m Hwf) as Hwo.
    assert (encode_canonical_outcome_into_exact (marker_outcome m) = Ok (outcome_layout (marker_outcome m))) as ->.
    { apply (encode_outcome_Ok _ _ Hwo). split; [by apply validate_marker_outcome|done]. }
    unfold marker_layout. destruct m as [o|o d]; [by rewrite app_nil_r|]. destruct Hwf as [_ Hwd]. cbn [marker_outcome] in *.
    match goal with |- context [encode_descriptor_into ?len d] => set (n := len) end.
    assert (encode_descriptor_into n d = Ok (descriptor_layout d)) as ->.
    { apply (encode_descriptor_Ok _ _ _ Hwd). cbn in Hfit.
      assert (n = vec_len (descriptor_layout d)) as ->; [|by repeat split; [eapply validate_marker_descriptor|]].
      unfold n. cbn [marker_measure marker_bytes]. unfold marker_layout. cbn [marker_outcome].
      rewrite vec_len_app, length_extension. unfold GENERATION_TERMINAL_EXTENSION_PREFIX_BYTES.
      autorewrite with codec_len. change (vec_len GENERATION_TERMINAL_EXTENSION_MAGIC) with 16. lia. }
    exact (f_equal Ok (extension_split _ d)).
Qed.

(** ** Decoding *)

Lemma decode_delta_Ok v k : decode_delta v = Ok k <-> v = delta_code k.
Proof. split; [unfold decode_delta; repeat case_match; by intros [= <-]|intros ->; by destruct k]. Qed.

Lemma decode_form_Ok v f : decode_form v = Ok f <-> v = form_code f.
Proof. split; [unfold decode_form; repeat case_match; by intros [= <-]|intros ->; by destruct f]. Qed.

Lemma delta_fits k : fits 1 (delta_code k).
Proof. destruct k; unfold fits; cbn; lia. Qed.

Lemma form_fits f : fits 1 (form_code f).
Proof. destruct f; unfold fits; cbn; lia. Qed.

Definition present (s : option GenerationTableSideV1) : bool :=
  match s with Some _ => true | None => false end.

(** A side before its index vector is read. *)
Definition bare (s : option GenerationTableSideV1) : option GenerationTableSideV1 :=
  (fun s => mkSide (data_generation s) (table_root s) (logical_row_count s) []) <$> s.

Lemma read_flag_Ok label c b r :
  read_flag label c = Ok (b, r) <-> c = to_le_bytes 1 (if b then 1 else 0) ++ r.
Proof.
  unfold read_flag. split.
  - intros H. dec_step H. assert (z = if b then 1 else 0) as -> by (repeat case_match; simplify_eq; done).
    repeat case_match; by simplify_eq.
  - intros ->. destruct b; by rewrite r_uint_app by (vm_compute; split; [discriminate|reflexivity]).
Qed.

Lemma read_flag_app label s r :
  read_flag label (to_le_bytes 1 (present_code s) ++ r) = Ok (present s, r).
Proof. apply read_flag_Ok. by destruct s. Qed.

Lemma read_scalars_app s r :
  wf_optional_side s -> read_table_side_scalars (scalars_layout s ++ r) (present s) = Ok (bare s, r).
Proof.
  destruct s as [s|]; cbn [wf_optional_side]; [intros (? & ? & ? & ?)|intros _];
    unfold read_table_side_scalars, scalars_layout; rewrite <- !app_assoc; read_go; done.
Qed.

Lemma read_scalars_Ok c p s r :
  read_table_side_scalars c p = Ok (s, r) ->
  c = scalars_layout s ++ r /\ p = present s /\ wf_optional_side s /\ bare s = s.
Proof.
  unfold read_table_side_scalars. intros H. repeat dec_step H. destruct p; cbn [negb] in H.
  - injection H as <- <-. unfold scalars_layout. rewrite <- !app_assoc. split; [done|]. split; [done|].
    split; [|done]. split; [done|]. split; [by apply (vec_len_length _ 32)|]. by split.
  - dec_step H. injection H as <- <-. bools. subst. unfold scalars_layout. by rewrite <- !app_assoc.
Qed.

Lemma read_index_list_Ok n c l r :
  read_index_list n c = Ok (l, r) <-> c = index_list_layout l ++ r /\ length l = n /\ Forall wf_index l.
Proof.
  revert c l r. induction n as [|n IH]; intros c l r.
  { cbn. split; [by intros [= <- <-]|]. intros (-> & Hl & _). by destruct l. }
  cbn [read_index_list]. split.
  - intros H. repeat dec_step H. injection H as <- <-.
    match goal with H : read_index_list _ _ = _ |- _ => apply IH in H as (-> & Hl & Hwf) end.
    rewrite index_list_cons. unfold index_layout. cbn [stable_index_id index_shape_root index_generation index_root].
    rewrite <- !app_assoc. split; [done|]. split; [cbn; by rewrite Hl|]. constructor; [|done].
    do 3 (split; [done || by apply (vec_len_length _ 32)|]). by apply (vec_len_length _ 32).
  - intros (-> & Hl & Hwf). destruct Hwf as [|i l (? & ? & ? & ?) Hwf]; [done|].
    rewrite index_list_cons. unfold index_layout. rewrite <- !app_assoc. read_go.
    rewrite (proj2 (IH _ l r)); [by destruct i|]. split; [done|]. cbn in Hl. split; [lia|done].
Qed.

Lemma quot_ge n a b : 0 < b -> b * n <= a -> 0 <= a -> (Z.quot a b <? n) = false.
Proof.
  intros Hb Hle Ha. apply Z.ltb_ge. rewrite Z.quot_div_nonneg by lia. by apply Z.div_le_lower_bound.
Qed.

Section reserve.
Context (try_reserve_exact : Z -> bool).

Lemma read_indexes_Ok c s0 s r :
  wf_optional_side s0 -> bare s0 = s0 ->
  read_table_indexes try_reserve_exact c s0 = Ok (s, r) ->
  c = indexes_layout s ++ r /\ s0 = bare s /\ wf_optional_side s /\ validate_optional_side s = Ok tt /\
  fits 4 (vec_len (side_indexes s)).
Proof.
  intros Hwf Hbare. unfold read_table_indexes, indexes_layout. intros H. dec_step H. destruct s0 as [s0|].
  - repeat dec_step H. injection H as <- <-. bools.
    match goal with H : read_index_list _ _ = _ |- _ => apply read_index_list_Ok in H as (-> & Hl & Hi) end.
    cbn [side_indexes indexes bare fmap option_fmap option_map].
    assert (vec_len l0 = z) as -> by (unfold vec_len; destruct Hr; lia).
    rewrite <- app_assoc. destruct Hwf as (? & ? & ? & _).
    split; [done|]. split; [by rewrite <- Hbare|]. by repeat (split; [done|]).
  - dec_step H. injection H as <- <-. bools. subst. by rewrite <- app_assoc.
Qed.

Context (reserve_ok : forall n, try_reserve_exact n = true).

Lemma read_indexes_app s r :
  wf_optional_side s -> validate_optional_side s = Ok tt -> fits 4 (vec_len (side_indexes s)) ->
  read_table_indexes try_reserve_exact (indexes_layout s ++ r) (bare s) = Ok (s, r).
Proof.
  intros Hwf Hv Hfit. unfold read_table_indexes, indexes_layout. rewrite <- app_assoc. read_field.
  destruct s as [s|]; [|done]. cbn [bare fmap option_fmap option_map side_indexes] in *.
  destruct Hwf as (? & ? & ? & Hi). rewrite quot_ge, reserve_ok.
  - cbn [negb]. rewrite (proj2 (read_index_list_Ok (Z.to_nat (vec_len (indexes s))) _ (indexes s) r)).
    2:{ split; [done|]. split; [unfold vec_len; lia|done]. }
    cbn [data_generation table_root logical_row_count]. destruct s as [g t n l]. cbn in *. by rewrite Hv.
  - done.
  - rewrite vec_len_app, length_index_list by done. pose proof (vec_len_nonneg r). lia.
  - apply vec_len_nonneg.
Qed.

Lemma decode_transition_app t r :
  wf_transition t -> validate_basic t = Ok tt -> counts_fit t ->
  decode_transition try_reserve_exact (transition_layout t ++ r) = Ok (t, r).
Proof.
  intros (? & Hb & Ha) Hv (Hcb & Hca). unfold decode_transition, transition_layout.
  pose proof (delta_fits (delta_kind t)). rewrite <- !app_assoc. read_field.
  rewrite (proj2 (decode_delta_Ok _ (delta_kind t)) eq_refl). read_field.
  rewrite !read_flag_app.
  read_go. rewrite !read_scalars_app by done.
  pose proof Hv as (_ & Hvb & Hva)%validate_basic_Ok.
  rewrite !read_indexes_app by done. destruct t as [k i b a]. cbn in *. by rewrite Hv.
Qed.

End reserve.

Lemma scalars_bare s : scalars_layout (bare s) = scalars_layout s.
Proof. by destruct s. Qed.

Lemma decode_transition_Ok tr c t r :
  decode_transition tr c = Ok (t, r) ->
  c = transition_layout t ++ r /\ wf_transition t /\ validate_basic t = Ok tt /\ counts_fit t.
Proof.
  unfold decode_transition. intros H. repeat dec_step H. injection H as <- <-. bools. subst.
  repeat match goal with
         | H : decode_delta _ = _ |- _ => apply decode_delta_Ok in H as ->
         | H : read_flag _ _ = _ |- _ => apply read_flag_Ok in H as ->
         | H : read_table_side_scalars _ _ = _ |- _ => apply read_scalars_Ok in H as (-> & -> & ? & ?)
         | H : read_table_indexes _ _ _ = _ |- _ =>
             apply read_indexes_Ok in H as (-> & -> & ? & ? & ?); [|done|done]
         end.
  unfold transition_layout, counts_fit, wf_transition. cbn [delta_kind stable_table_id before after].
  rewrite !scalars_bare. split; [|split; [by split; [|split]|by split; [|split]]].
  repeat match goal with b : option GenerationTableSideV1 |- _ => destruct b end;
    cbn [present present_code bare fmap option_fmap option_map]; by rewrite <- !app_assoc.
Qed.

Lemma decode_transitions_Ok tr n c l r :
  decode_transitions tr n c = Ok (l, r) ->
  c = transitions_layout l ++ r /\ length l = n /\ Forall wf_transition l /\
  Forall (fun t => validate_basic t = Ok tt) l /\ Forall counts_fit l.
Proof.
  revert c l r. induction n as [|n IH]; intros c l r; cbn [decode_transitions].
  { intros [= <- <-]. by repeat split. }
  intros H. repeat dec_step H. injection H as <- <-.
  match goal with H : decode_transition _ _ = _ |- _ => apply decode_transition_Ok in H as (-> & ? & ? & ?) end.
  match goal with H : decode_transitions _ _ _ = _ |- _ => apply IH in H as (-> & <- & ? & ? & ?) end.
  rewrite transitions_cons, <- app_assoc. split; [done|]. split; [done|]. split; [by constructor|]. split; by constructor.
Qed.

Lemma decode_transitions_app tr l r :
  (forall n, tr n = true) -> Forall wf_transition l -> Forall (fun t => validate_basic t = Ok tt) l ->
  Forall counts_fit l -> decode_transitions tr (length l) (transitions_layout l ++ r) = Ok (l, r).
Proof.
  intros Htr. induction l as [|t l IH]; intros Hwf Hv Hc; [done|].
  inversion Hwf; inversion Hv; inversion Hc; subst. rewrite transitions_cons, <- app_assoc.
  cbn [length decode_transitions]. rewrite decode_transition_app by done. by rewrite IH.
Qed.

Lemma decode_descriptor_Ok tr bytes d :
  decode_descriptor tr bytes = Ok d ->
  bytes = descriptor_layout d /\ wf_descriptor d /\ validate_descriptor d = Ok tt.
Proof.
  unfold decode_descriptor. cbv zeta. intros H. repeat dec_step H. injection H as <-. bools. subst.
  match goal with H : decode_form _ = _ |- _ => apply decode_form_Ok in H as -> end.
  match goal with H : decode_transitions _ _ _ = _ |- _ => apply decode_transitions_Ok in H as (-> & Hl & ? & _) end.
  match type of Hl with length ?l = Z.to_nat ?z =>
    assert (z = vec_len l) as -> by (unfold vec_len; match goal with H : fits 4 z |- _ => destruct H end; lia) end.
  split; [unfold descriptor_layout; cbn; by rewrite app_nil_r|]. split; [|done].
  constructor; cbn; done || by apply (vec_len_length _ 32).
Qed.

Lemma decode_descriptor_app tr d :
  (forall n, tr n = true) -> wf_descriptor d -> validate_descriptor d = Ok tt ->
  vec_len (descriptor_layout d) <= u32_max -> decode_descriptor tr (descriptor_layout d) = Ok d.
Proof.
  intros Htr Hwf Hv Hle. destruct (descriptor_counts_fit d Hwf Hle) as [Hc Hcount].
  pose proof (validate_descriptor_basic d Hv) as Hvb. unfold decode_descriptor, descriptor_layout.
  destruct Hwf as [? ? ? ? ? ? ? ? ? Ht]. pose proof (form_fits (publication_form d)).
  cbv zeta. read_field. read_check. read_field.
  rewrite (proj2 (decode_form_Ok _ (publication_form d)) eq_refl). cbv beta iota. read_go.
  pose proof (transitions_ge _ Ht) as Hge.
  rewrite quot_ge, Htr by (done || apply vec_len_nonneg). cbn [negb].
  replace (Z.to_nat (vec_len (table_transitions d))) with (length (table_transitions d)) by (unfold vec_len; lia).
  rewrite <- (app_nil_r (transitions_layout _)). rewrite decode_transitions_app by done. cbn [r_finish].
  destruct d. cbn in *. by rewrite Hv.
Qed.

(** The decoder accepts exactly the layouts of well-formed valid markers. *)
Lemma decode_marker_Ok tr bytes m :
  (forall n, tr n = true) ->
  decode_canonical_terminal_marker tr bytes = Ok m <->
  bytes = marker_layout m /\ wf_marker m /\ validate_marker m = Ok tt /\ marker_fits m.
Proof.
  intros Htr. unfold decode_canonical_terminal_marker. split.
  - intros H. do 2 dec_step H. apply decode_outcome_Ok in Hr as (Ht & Hwo & Hvo).
    destruct (Z.eqb_spec (vec_len bytes) CANONICAL_OUTCOME_BYTES) as [Hlen|Hlen].
    + injection H as <-. rewrite take_ge in Ht by (unfold vec_len, CANONICAL_OUTCOME_BYTES in *; lia).
      split; [|done]. unfold marker_layout. by rewrite app_nil_r.
    + remember (drop _ bytes) as ext eqn:Hext. cbv zeta in H. repeat dec_step H. apply Ok_inj in H as <-. bools. subst.
      match goal with H : decode_descriptor _ _ = _ |- _ => apply decode_descriptor_Ok in H as (-> & Hwd & Hvd) end.
      split; [|split; [by split|split; [done|]]].
      * rewrite <- (take_drop (Z.to_nat CANONICAL_OUTCOME_BYTES) bytes), Ht, <- Hext.
        unfold marker_layout, extension_layout. by rewrite app_nil_r.
      * cbn. unfold fits, u32_max in *. cbn in *. lia.
  - intros (-> & Hwf & Hv & Hfit). pose proof (wf_marker_outcome m Hwf) as Hwo.
    pose proof (length_outcome_layout _ Hwo) as Hlo. pose proof (length_marker m Hwf) as Hlm.
    pose proof (proj2 (decode_outcome_Ok _ (marker_outcome m)) (conj eq_refl (conj Hwo (validate_marker_outcome m Hv)))) as Hd.
    assert (CANONICAL_OUTCOME_BYTES <= vec_len (marker_layout m)) as Hge.
    { unfold marker_layout. rewrite vec_len_app, Hlo. pose proof (vec_len_nonneg
        (match m with Legacy _ => [] | GenerationV1 _ d => extension_layout d end)). lia. }
    assert (Z.to_nat CANONICAL_OUTCOME_BYTES = length (outcome_layout (marker_outcome m))) as Hn
      by (unfold vec_len in Hlo; lia).
    assert (take (Z.to_nat CANONICAL_OUTCOME_BYTES) (marker_layout m) = outcome_layout (marker_outcome m)) as ->
      by (rewrite Hn; apply take_app_length).
    assert (drop (Z.to_nat CANONICAL_OUTCOME_BYTES) (marker_layout m) =
      match m with Legacy _ => [] | GenerationV1 _ d => extension_layout d end) as ->
      by (rewrite Hn; apply drop_app_length).
    rewrite (proj2 (Z.ltb_ge _ _) Hge), Hd, Hlm. destruct m as [o|o d]; [done|].
    pose proof (vec_len_nonneg (descriptor_layout d)). destruct Hwf as [_ Hwd]. cbn in Hfit.
    rewrite (proj2 (Z.eqb_neq _ _)) by (unfold GENERATION_TERMINAL_EXTENSION_PREFIX_BYTES; lia). cbv zeta.
    rewrite length_extension, (proj2 (Z.ltb_ge _ _)) by lia. unfold extension_layout.
    assert (fits 4 (vec_len (descriptor_layout d))) by (unfold fits, u32_max in *; cbn; lia).
    read_go. rewrite decode_descriptor_app by (done || by eapply validate_marker_descriptor).
    cbn [r_finish marker_outcome]. by rewrite Hv.
Qed.

End GenTerminalFacts.
