(* ===== verification/GenEvolution.v ===== *)
(** * Generation evolution of a table transition

    The single pass over the two ordered index vectors decides what a lookup per final index
    would: a table or index whose facts did not change keeps its generation, any other one takes
    the commit sequence. *)

From stdpp Require Import base strings list sorting pretty.
From S2P Require Import Prelude Types Bytes Codec Canonical CanonicalFacts GenTerminal.

Module GenEvolution.
Import Codec Canonical CanonicalFacts GenTerminal.

(** The generations a transition must carry. *)
Definition expected_index (commit_sequence : Z) (prior : list GenerationIndexManifestV1)
    (index : GenerationIndexManifestV1) : Z :=
  match List.find (fun b => stable_index_id b =? stable_index_id index) prior with
  | Some before =>
      if bool_decide (index_root before = index_root index /\ index_shape_root before = index_shape_root index)
      then index_generation before else commit_sequence
  | None => commit_sequence
  end.

Definition expected_table (commit_sequence : Z) (prior : option GenerationTableSideV1)
    (side : GenerationTableSideV1) : Z :=
  match prior with
  | Some before =>
      if table_manifest_facts_unchanged before side then data_generation before else commit_sequence
  | None => commit_sequence
  end.

Definition prior_indexes (t : GenerationTableTransitionV1) : list GenerationIndexManifestV1 :=
  match before t with Some before => indexes before | None => [] end.

(** What the evolution check stands for. *)
Record evolves (t : GenerationTableTransitionV1) (commit_sequence : Z) : Prop := mkEvolves {
  ev_before : forall b, before t = Some b ->
    data_generation b < commit_sequence /\
    Forall (fun i => index_generation i < commit_sequence) (indexes b);
  ev_after : forall a, after t = Some a ->
    data_generation a = expected_table commit_sequence (before t) a /\
    Forall (fun i => index_generation i = expected_index commit_sequence (prior_indexes t) i) (indexes a);
}.

(** Strictly ascending identities above [lo]. *)
Fixpoint ascending_from (lo : option Z) (l : list GenerationIndexManifestV1) : Prop :=
  match l with
  | [] => True
  | i :: l => (forall p, lo = Some p -> p < stable_index_id i) /\ ascending_from (Some (stable_index_id i)) l
  end.

Lemma precedes_Ok g cs l : generation_precedes_commit g cs l = Ok tt <-> g < cs.
Proof. unfold generation_precedes_commit. destruct (Z.leb_spec cs g); split; (done || lia). Qed.

Lemma matches_Ok g cs l : generation_matches_commit g cs l = Ok tt <-> g = cs.
Proof. unfold generation_matches_commit. destruct (Z.eqb_spec g cs); cbn; split; (done || lia). Qed.

Lemma seq_Ok {A} (r : result unit EngineError) (k : result A EngineError) v :
  (let? _ := r in k) = Ok v <-> r = Ok tt /\ k = Ok v.
Proof. destruct r as [[]|]; naive_solver. Qed.

Lemma validate_indexes_ascending lo l : validate_indexes lo l = Ok tt -> ascending_from lo l.
Proof.
  revert lo. induction l as [|i l IH]; intros lo; cbn [validate_indexes ascending_from]; [done|].
  rewrite seq_Ok. intros [_ H]. destruct (not_ascending lo _) eqn:Hn; [done|]. split; [|by apply IH].
  intros p ->. cbn in Hn. lia.
Qed.

Lemma prior_precede_Ok cs l :
  prior_indexes_precede cs l = Ok tt <-> Forall (fun i => index_generation i < cs) l.
Proof.
  induction l as [|i l IH]; cbn [prior_indexes_precede]; [by split|].
  by rewrite seq_Ok, precedes_Ok, Forall_cons, IH.
Qed.

Lemma index_evolution_Ok cs prior i :
  index_evolution cs (List.find (fun b => stable_index_id b =? stable_index_id i) prior) i = Ok tt <->
  index_generation i = expected_index cs prior i.
Proof.
  unfold index_evolution, expected_index. destruct (List.find _ prior) as [b|]; [|apply matches_Ok].
  destruct (decide (index_root b = index_root i)) as [H1|H1], (decide (index_shape_root b = index_shape_root i)) as [H2|H2];
    repeat (rewrite bool_decide_eq_true_2 by tauto) || rewrite (bool_decide_eq_false_2 _) by tauto; cbn [andb];
    repeat (rewrite bool_decide_eq_true_2 by tauto) || rewrite (bool_decide_eq_false_2 _) by tauto; try apply matches_Ok.
  destruct (Z.eqb_spec (index_generation i) (index_generation b)); cbn; split; done.
Qed.

(** Entries below the least identity still to come are never looked up again. *)
Lemma find_skip id' id l : id <= id' ->
  List.find (fun b => stable_index_id b =? id') (skip_below id l) = List.find (fun b => stable_index_id b =? id') l.
Proof.
  intros Hle. induction l as [|b l IH]; [done|]. cbn [skip_below List.find].
  destruct (Z.ltb_spec (stable_index_id b) id); [|done]. by rewrite (proj2 (Z.eqb_neq _ _)) by lia.
Qed.

Lemma ascending_weaken lo lo' l :
  (forall p, lo' = Some p -> exists q, lo = Some q /\ p <= q) -> ascending_from lo l -> ascending_from lo' l.
Proof.
  destruct l as [|i l]; [done|]. intros Hlo [H1 H2]. split; [|done].
  intros p Hp. destruct (Hlo p Hp) as (q & Hq & ?). specialize (H1 q Hq). lia.
Qed.

Lemma ascending_skip lo id l : ascending_from lo l -> ascending_from lo (skip_below id l).
Proof.
  revert lo. induction l as [|b l IH]; intros lo; [done|]. cbn [skip_below].
  destruct (Z.ltb_spec (stable_index_id b) id); [|done]. intros [H1 H2]. apply IH.
  apply (ascending_weaken (Some (stable_index_id b)) lo); [|done]. intros p ->. eexists. split; [done|].
  specialize (H1 p eq_refl). lia.
Qed.

Lemma skip_head id l b l' : skip_below id l = b :: l' -> id <= stable_index_id b.
Proof.
  induction l as [|c l IH]; [done|]. cbn [skip_below]. destruct (Z.ltb_spec (stable_index_id c) id); [done|].
  by intros [= <- <-].
Qed.

Lemma find_above id lo l : ascending_from lo l -> lo = Some id -> List.find (fun b => stable_index_id b =? id) l = None.
Proof.
  revert lo. induction l as [|b l IH]; intros lo; [done|]. intros [H1 H2] ->. specialize (H1 id eq_refl).
  cbn [List.find]. rewrite (proj2 (Z.eqb_neq _ _)) by lia.
  apply (IH (Some id)); [|done]. apply (ascending_weaken (Some (stable_index_id b))); [|done].
  intros p [= ->]. eexists. split; [done|lia].
Qed.

Lemma ascending_all p l : ascending_from (Some p) l -> Forall (fun i => p < stable_index_id i) l.
Proof.
  revert p. induction l as [|b l IH]; intros p; [constructor|]. intros [H1 H2]. specialize (H1 p eq_refl).
  constructor; [done|]. apply (Forall_impl _ _ _ (IH _ H2)). lia.
Qed.

(** Each final index is checked against the prior index of the same identity. *)
Definition checked_by_lookup (cs : Z) (prior final : list GenerationIndexManifestV1) : Prop :=
  Forall (fun i => index_evolution cs (List.find (fun b => stable_index_id b =? stable_index_id i) prior) i = Ok tt) final.

Lemma checked_by_lookup_ext cs prior prior' p final :
  ascending_from (Some p) final ->
  (forall id, p < id -> List.find (fun b => stable_index_id b =? id) prior = List.find (fun b => stable_index_id b =? id) prior') ->
  checked_by_lookup cs prior final <-> checked_by_lookup cs prior' final.
Proof.
  intros Hasc Heq. unfold checked_by_lookup. rewrite !Forall_forall.
  pose proof (ascending_all p final Hasc) as Hall. rewrite Forall_forall in Hall.
  split; intros H i Hi; specialize (H i Hi); specialize (Hall i Hi); by rewrite Heq in H || rewrite <- Heq in H.
Qed.

Lemma merge_is_lookup cs lo lo' prior final :
  ascending_from lo prior -> ascending_from lo' final ->
  indexes_evolution cs prior final = Ok tt <-> checked_by_lookup cs prior final.
Proof.
  revert lo lo' prior. induction final as [|i final IH]; intros lo lo' prior Hp Hf; cbn [indexes_evolution].
  { split; [intros _; constructor|done]. }
  destruct Hf as [_ Hf]. set (id := stable_index_id i) in *.
  unfold checked_by_lookup. rewrite Forall_cons. fold (checked_by_lookup cs prior final). fold id.
  rewrite <- (find_skip id id prior) by done. apply (ascending_skip _ id) in Hp.
  assert (forall k, id < k -> List.find (fun b => stable_index_id b =? k) prior
    = List.find (fun b => stable_index_id b =? k) (skip_below id prior)) as Hskip by (intros k Hk; by rewrite find_skip by lia).
  rewrite (checked_by_lookup_ext cs prior (skip_below id prior) id) by done.
  destruct (skip_below id prior) as [|b rest] eqn:Hsk.
  { rewrite seq_Ok. cbn [List.find]. by rewrite (IH lo _ [] I Hf). }
  cbn [List.find]. pose proof (skip_head _ _ _ _ Hsk) as Hge. destruct Hp as [Hb Hrest].
  destruct (Z.eqb_spec (stable_index_id b) id) as [He|He].
  - rewrite seq_Ok, (IH (Some (stable_index_id b)) _ rest Hrest Hf).
    rewrite (checked_by_lookup_ext cs (b :: rest) rest id); [done..|].
    intros k Hk. cbn [List.find]. by rewrite (proj2 (Z.eqb_neq _ _)) by lia.
  - rewrite seq_Ok, (IH lo _ (b :: rest) (conj Hb Hrest) Hf).
    rewrite (find_above id (Some id) rest); [done| |done].
    apply (ascending_weaken (Some (stable_index_id b))); [|done]. intros p [= <-]. eexists. split; [done|lia].
Qed.

Lemma evolution_of_indexes cs t a :
  validate_basic t = Ok tt -> after t = Some a ->
  indexes_evolution cs (prior_indexes t) (indexes a) = Ok tt <->
  Forall (fun i => index_generation i = expected_index cs (prior_indexes t) i) (indexes a).
Proof.
  unfold validate_basic. rewrite !seq_Ok. intros (_ & Hb & Ha) Hat. rewrite Hat in Ha.
  cbn [validate_optional_side] in Ha. unfold validate_side in Ha. rewrite !seq_Ok in Ha.
  destruct Ha as (_ & _ & Ha%validate_indexes_ascending).
  assert (ascending_from None (prior_indexes t)) as Hp.
  { unfold prior_indexes. destruct (before t) as [b|]; [|done]. cbn [validate_optional_side] in Hb.
    unfold validate_side in Hb. rewrite !seq_Ok in Hb. by destruct Hb as (_ & _ & Hb%validate_indexes_ascending). }
  rewrite (merge_is_lookup cs None None _ _ Hp Ha). unfold checked_by_lookup.
  apply Forall_proper; [|done]. intros i. apply index_evolution_Ok.
Qed.

Lemma table_evolution_Ok cs t a :
  match before t with
  | None => generation_matches_commit (data_generation a) cs "new table generation"
  | Some before =>
      if table_manifest_facts_unchanged before a then
        if negb (data_generation a =? data_generation before) then
          Err (descriptor_error "unchanged table generation")
        else Ok tt
      else generation_matches_commit (data_generation a) cs "changed table generation"
  end = Ok tt <-> data_generation a = expected_table cs (before t) a.
Proof.
  unfold expected_table. destruct (before t) as [b|]; [|apply matches_Ok].
  destruct (table_manifest_facts_unchanged b a); [|apply matches_Ok].
  destruct (Z.eqb_spec (data_generation a) (data_generation b)); cbn; split; done.
Qed.

(** The check accepts exactly the transitions that carry the expected generations. *)
Lemma evolution_exact t cs :
  validate_basic t = Ok tt -> validate_generation_evolution t cs = Ok tt <-> evolves t cs.
Proof.
  intros Hv. unfold validate_generation_evolution. rewrite seq_Ok.
  assert (match before t with
          | Some before =>
              let? _ := generation_precedes_commit (data_generation before) cs "prior table generation" in
              prior_indexes_precede cs (indexes before)
          | None => Ok tt
          end = Ok tt <->
    (forall b, before t = Some b -> data_generation b < cs /\ Forall (fun i => index_generation i < cs) (indexes b))) as ->.
  { destruct (before t) as [b|]; [|by split]. rewrite seq_Ok, precedes_Ok, prior_precede_Ok. naive_solver. }
  destruct (after t) as [a|] eqn:Ha.
  - rewrite seq_Ok, table_evolution_Ok. fold (prior_indexes t). rewrite evolution_of_indexes by done.
    split; [intros (H1 & H2 & H3); split; [done|]|intros [H1 H2]; by rewrite Ha in H2; specialize (H2 a eq_refl)].
    rewrite Ha. by intros ? [= <-].
  - split; [intros [H1 _]; split; [done|by rewrite Ha]|by intros [H1 _]].
Qed.

End GenEvolution.
