(* ===== verification/Envelope.v ===== *)
(** * Canonical transaction envelope (crates/wal/src/canonical.rs)

    The complete envelope: fragment leaves and their ordered root, the frames of a transaction,
    the packed record payload, and the decoder that accepts only a complete ordered range of
    frames.  The prepared record that the WAL buffer takes is here too; the encoder into
    caller-owned buffers is in [EnvelopeExact]. *)

From stdpp Require Import base strings list pretty.
From S2P Require Import Prelude Types Bytes Codec Canonical GenTerminal WalSegment.

Module Envelope.
Import Codec Canonical GenTerminal.

Record CanonicalEnvelope := mkEnvelope {
  physical : CanonicalPhysicalRange;
  header : CanonicalPreApplyHeader;
  fragments : list CanonicalFragment;
  terminal_marker : CanonicalTerminalMarker;
  outcome : CanonicalOutcome;
  ordered_fragment_root : list byte;
  final_digest : list byte;
}.

Record EncodedCanonicalEnvelope := mkEncoded {
  frames : list (list byte);
  e_ordered_fragment_root : list byte;
  e_final_digest : list byte;
  e_header : CanonicalPreApplyHeader;
}.

Record CanonicalCatalogTail := mkTail {
  tail_identity : CanonicalIdentity;
  tail_catalog_after_epoch : Z;
  tail_catalog_after_digest : list byte;
}.

(** A fragment's kind and body, as its leaf hashes them. *)
Definition canonical_body (f : CanonicalFragment) : list byte :=
  to_le_bytes 2 (kind_code (kind f)) ++ body f.

(** One entry of the root material. *)
Definition root_entry (index : Z) (canonical leaf : list byte) : list byte :=
  to_le_bytes 4 index ++ to_le_bytes 8 (vec_len canonical) ++ leaf.

Fixpoint root_entries (index : Z) (l : list (list byte * list byte)) : list byte :=
  match l with
  | [] => []
  | (canonical, leaf) :: l => root_entry index canonical leaf ++ root_entries (index + 1) l
  end.

Definition body_length (fragments : list CanonicalFragment) (index : Z) : result Z EngineError :=
  Ok (at_index ((fun f => vec_len (body f)) <$> fragments) index).

Definition verify_common_frame (frame first : DecodedFrame) : result unit EngineError :=
  if negb (bool_decide (frame_physical frame = frame_physical first)) ||
     negb (bool_decide (frame_identity frame = frame_identity first)) ||
     negb (frame_stable_transaction_id frame =? frame_stable_transaction_id first) ||
     negb (frame_commit_seq frame =? frame_commit_seq first) ||
     negb (fragment_count frame =? fragment_count first) ||
     negb (bool_decide (header_digest frame = header_digest first)) ||
     negb (bool_decide (root frame = root first)) then
    Err (durability "frame mapping/header metadata mismatch")
  else Ok tt.

(** [iter().map(f).collect::<Result<Vec<_>, _>>()]. *)
Fixpoint collect {A B} (f : A -> result B EngineError) (l : list A) : result (list B) EngineError :=
  match l with
  | [] => Ok []
  | x :: l =>
      let? y := f x in
      let? ys := collect f l in
      Ok (y :: ys)
  end.

Section envelope.
Context (sha256 : list byte -> list byte) (try_reserve_exact : Z -> bool).

Definition leaf_digest (header_digest : list byte) (index : Z) (canonical : list byte) : list byte :=
  digest_parts sha256 FRAGMENT_LEAF_DOMAIN
    [header_digest; to_le_bytes 4 index; to_le_bytes 8 (vec_len canonical); canonical].

(** ** Encoding *)

(** The loop that builds the canonical bodies and their leaves. *)
Fixpoint build_leaves (header_digest : list byte) (index total : Z) (l : list CanonicalFragment)
    : result (list (list byte * list byte)) EngineError :=
  match l with
  | [] => Ok []
  | fragment :: l =>
      if MAX_FRAGMENT_BYTES <? vec_len (body fragment) then
        Err (durability ("fragment " +:+ pretty index +:+ " exceeds byte bound"))
      else
        let? total := ok_or (checked_add64 total (vec_len (body fragment)))
          (durability "envelope byte overflow") in
        if MAX_ENVELOPE_BYTES <? total then Err (durability "envelope exceeds byte bound")
        else
          let canonical := canonical_body fragment in
          let leaf := leaf_digest header_digest index canonical in
          let? rest := build_leaves header_digest (index + 1) total l in
          Ok ((canonical, leaf) :: rest)
  end.

(** The fragment frames, the header in the first one only. *)
Fixpoint fragment_frames (physical : CanonicalPhysicalRange) (header : CanonicalPreApplyHeader)
    (count index : Z) (header_bytes header_digest root : list byte)
    (l : list CanonicalFragment) (leaves : list (list byte)) : result (list (list byte)) EngineError :=
  match l, leaves with
  | fragment :: l, leaf :: leaves =>
      let? frame := encode_frame sha256 FRAME_FRAGMENT physical header index count
        (kind_code (kind fragment)) (if index =? 0 then header_bytes else []) (body fragment)
        header_digest root leaf in
      let? rest := fragment_frames physical header count (index + 1) header_bytes header_digest
        root l leaves in
      Ok (frame :: rest)
  | _, _ => Ok []
  end.

Definition encode_canonical_envelope_with_terminal_marker (physical : CanonicalPhysicalRange)
    (header : CanonicalPreApplyHeader) (fragments : list CanonicalFragment)
    (marker : CanonicalTerminalMarker) : result EncodedCanonicalEnvelope EngineError :=
  let count := vec_len fragments in
  if (count =? 0) || (u32_max - 1 <? count) then Err (durability "fragment count must be in 1..u32::MAX")
  else
    let? _ := validate_for_header marker header in
    if negb (operation_count header =? count) then
      Err (durability ("header operation count " +:+ pretty (operation_count header) +:+
             " does not match " +:+ pretty count +:+ " fragments"))
    else
      let? marker_measure := measure_canonical_terminal_marker marker in
      let? _ := canonical_wal_footprint_by_index_with_marker count (body_length fragments)
        (marker_bytes marker_measure) in
      let frame_count := count + 1 in
      let? _ := validate_physical physical frame_count in
      let? header_bytes := encode_header header in
      let header_digest := digest_parts sha256 PREAPPLY_DOMAIN [header_bytes] in
      let? leaves := build_leaves header_digest 0 (vec_len header_bytes) fragments in
      let root_material := to_le_bytes 4 count ++ root_entries 0 leaves in
      let root := digest_parts sha256 FRAGMENT_ROOT_DOMAIN [root_material] in
      let? marker_raw := encode_canonical_terminal_marker_into marker (marker_bytes marker_measure) in
      let? final_digest := canonical_terminal_marker_digest_from_encoded sha256 header_bytes root
        marker marker_raw in
      let? fragment_part := fragment_frames physical header count 0 header_bytes header_digest root
        fragments leaves.*2 in
      let? marker_frame := encode_frame sha256 FRAME_MARKER physical header count count 0 [] marker_raw
        header_digest root final_digest in
      Ok (mkEncoded (fragment_part ++ [marker_frame]) root final_digest header).

Definition encode_canonical_envelope (physical : CanonicalPhysicalRange)
    (header : CanonicalPreApplyHeader) (fragments : list CanonicalFragment)
    (outcome : CanonicalOutcome) : result EncodedCanonicalEnvelope EngineError :=
  encode_canonical_envelope_with_terminal_marker physical header fragments (Legacy outcome).

(** The [total] of [pack_canonical_record_payload]. *)
Fixpoint packed_total (total : Z) (frames : list (list byte)) : result Z EngineError :=
  match frames with
  | [] => Ok total
  | frame :: frames =>
      let? total := ok_or (checked_sum [total; 4; vec_len frame])
        (durability "canonical record byte length overflow") in
      packed_total total frames
  end.

Fixpoint pack_frames (frames : list (list byte)) : result (list byte) EngineError :=
  match frames with
  | [] => Ok []
  | frame :: frames =>
      if u32_max <? vec_len frame then Err (durability "canonical physical frame length overflow")
      else
        let? rest := pack_frames frames in
        Ok (to_le_bytes 4 (vec_len frame) ++ frame ++ rest)
  end.

Definition pack_canonical_record_payload (encoded : EncodedCanonicalEnvelope)
    : result (list byte) EngineError :=
  let frame_count := vec_len (frames encoded) in
  if u32_max <? frame_count then Err (durability "canonical record frame count overflow")
  else
    let? total := packed_total (vec_len RECORD_MAGIC + 4) (frames encoded) in
    if MAX_ENVELOPE_BYTES + 1024 * 1024 <? total then
      Err (durability "canonical record exceeds byte bound")
    else
      let? packed := pack_frames (frames encoded) in
      Ok (RECORD_MAGIC ++ to_le_bytes 4 frame_count ++ packed).

(** ** Decoding *)

(** The loop over [decoded[..fragment_count]]: the fragments and the root entries. *)
Fixpoint verify_fragments (first : DecodedFrame) (digest : list byte) (index : Z)
    (l : list DecodedFrame) : result (list CanonicalFragment * list byte) EngineError :=
  match l with
  | [] => Ok ([], [])
  | frame :: l =>
      let? _ := verify_common_frame frame first in
      if negb (frame_type frame =? FRAME_FRAGMENT) || negb (frame_index frame =? index) then
        Err (durability ("fragment frame " +:+ pretty index +:+ " is reordered"))
      else if negb (index =? 0) && negb (bool_decide (header_bytes frame = [])) then
        Err (durability "pre-apply header repeated outside ordinal zero")
      else
        let? kind := decode_kind (frame_kind frame) in
        let fragment := mkFragment kind (frame_body frame) in
        let canonical := canonical_body fragment in
        let expected_leaf := leaf_digest digest index canonical in
        if negb (bool_decide (expected_leaf = leaf_or_final frame)) then
          Err (durability ("fragment " +:+ pretty index +:+ " leaf digest mismatch"))
        else
          let? (fragments, entries) := verify_fragments first digest (index + 1) l in
          Ok (fragment :: fragments, root_entry index canonical expected_leaf ++ entries)
  end.

(** The checks after all frames are decoded. *)
Definition decode_frames (decoded : list DecodedFrame) (first : DecodedFrame)
    : result CanonicalEnvelope EngineError :=
  let count := fragment_count first in
  if (count =? 0) || negb (vec_len decoded =? count + 1) then
    Err (durability "physical frame count does not match fragment count")
  else if negb (frame_type first =? FRAME_FRAGMENT) || negb (frame_index first =? 0) ||
          bool_decide (header_bytes first = []) then
    Err (durability "ordinal-zero mapping/header frame is absent")
  else
    let? header := decode_header (header_bytes first) in
    let physical := frame_physical first in
    let? _ := validate_physical physical (vec_len decoded) in
    if negb (log_epoch physical =? leader_epoch header) then
      Err (durability "physical log epoch does not match the pre-apply leader epoch")
    else
      let? encoded_header := encode_header header in
      let digest := digest_parts sha256 PREAPPLY_DOMAIN [encoded_header] in
      if negb (bool_decide (digest = header_digest first)) then
        Err (durability "pre-apply header digest mismatch")
      else
        let? (fragments, entries) := verify_fragments first digest 0 (take (Z.to_nat count) decoded) in
        let expected_root := digest_parts sha256 FRAGMENT_ROOT_DOMAIN [to_le_bytes 4 count ++ entries] in
        if negb (bool_decide (expected_root = root first)) then
          Err (durability "ordered fragment root mismatch")
        else
          match decoded !! Z.to_nat count with
          | None => Err (durability EmptyString)
          | Some marker =>
              let? _ := verify_common_frame marker first in
              if negb (frame_type marker =? FRAME_MARKER) || negb (frame_index marker =? count) ||
                 negb (frame_kind marker =? 0) || negb (bool_decide (header_bytes marker = [])) then
                Err (durability "terminal marker is absent or malformed")
              else
                let? terminal_marker := decode_canonical_terminal_marker try_reserve_exact
                  (frame_body marker) in
                let? _ := validate_for_header terminal_marker header in
                let? final_digest := canonical_terminal_marker_digest_from_encoded sha256
                  encoded_header expected_root terminal_marker (frame_body marker) in
                if negb (bool_decide (leaf_or_final marker = final_digest)) then
                  Err (durability "terminal outcome digest mismatch")
                else
                  Ok (mkEnvelope physical header fragments terminal_marker
                        (marker_outcome terminal_marker) expected_root final_digest)
          end.

Definition decode_canonical_envelope_with_terminal_marker (frames : list (list byte))
    : result CanonicalEnvelope EngineError :=
  if (vec_len frames <? 2) || (u32_max <? vec_len frames) then
    Err (durability "envelope requires fragments plus one marker")
  else
    let? decoded := collect (decode_frame sha256) frames in
    match decoded with
    | first :: _ => decode_frames decoded first
    | [] => Err (durability EmptyString)
    end.

Definition decode_canonical_envelope (frames : list (list byte)) : result CanonicalEnvelope EngineError :=
  let? envelope := decode_canonical_envelope_with_terminal_marker frames in
  match terminal_marker envelope with
  | Legacy _ => Ok envelope
  | _ => Err (durability "root-format-v1 terminal descriptor requires its authenticated generation decoder")
  end.

(** [for _ in 0..frame_count]. *)
Fixpoint unpack_frames (n : nat) (c : list byte) : result (list (list byte) * list byte) EngineError :=
  match n with
  | O => Ok ([], c)
  | S n =>
      let? (len, c) := get32 c in
      if MAX_ENVELOPE_BYTES <? len then Err (durability "canonical record frame exceeds byte bound")
      else
        let? (frame, c) := get c len in
        let? (frames, c) := unpack_frames n c in
        Ok (frame :: frames, c)
  end.

Definition starts_with_magic (payload : list byte) : bool :=
  bool_decide (take (length RECORD_MAGIC) payload = RECORD_MAGIC).

Definition decode_canonical_record_payload (payload : list byte)
    : result (option CanonicalEnvelope) EngineError :=
  if negb (starts_with_magic payload) then Ok None
  else
    let? (frame_count, c) := get32 (drop (length RECORD_MAGIC) payload) in
    if frame_count <? 2 then Err (durability "canonical record omits fragment or terminal marker")
    else
      let? (frames, c) := unpack_frames (Z.to_nat frame_count) c in
      let? _ := r_finish codec_errors c in
      let? envelope := decode_canonical_envelope frames in
      Ok (Some envelope).

(** ** Accounting *)

Fixpoint logical_total (index total : Z) (l : list CanonicalFragment) : result Z EngineError :=
  match l with
  | [] => Ok total
  | fragment :: l =>
      if MAX_FRAGMENT_BYTES <? vec_len (body fragment) then
        Err (durability ("fragment " +:+ pretty index +:+ " exceeds byte bound"))
      else
        let? total := ok_or (checked_sum [total; 2; vec_len (body fragment)])
          (durability "logical intent byte length overflow") in
        logical_total (index + 1) total l
  end.

Definition canonical_logical_intent_outcome_bytes (fragments : list CanonicalFragment)
    (outcome : CanonicalOutcome) : result Z EngineError :=
  if bool_decide (fragments = []) then Err (durability "logical byte accounting requires a fragment")
  else
    let? total := logical_total 0 0 fragments in
    let? outcome := encode_outcome outcome in
    ok_or (checked_add64 total (vec_len outcome))
      (durability "logical intent/outcome byte length overflow").

End envelope.

Definition header_tail (h : CanonicalPreApplyHeader) : CanonicalCatalogTail :=
  mkTail (identity h) (catalog_after_epoch h) (catalog_after_digest h).

End Envelope.
