(* ===== verification/EnvelopeFacts.v ===== *)
(** * Canonical envelope: encoder and decoder agree

    The frames an envelope stands for, that the encoder writes them, and that the decoder
    accepts nothing else. *)

From stdpp Require Import base strings list sets pretty.
From S2P Require Import Prelude Types Bytes Codec Canonical CanonicalFacts GenTerminal GenTerminalFacts Envelope.

Module EnvelopeFacts.
Import Codec Canonical CanonicalFacts GenTerminal GenTerminalFacts Envelope.

(** What the frames state beside the envelope: the identity, transaction and sequence repeated in
    every frame, and the reader versions of the header. *)
Record Stamp := mkStamp {
  st_identity : CanonicalIdentity;
  st_txn : Z;
  st_seq : Z;
  st_min_reader : Z;
  st_max_reader : Z;
}.

(** The stamp the encoder uses. *)
Definition own_stamp (h : CanonicalPreApplyHeader) : Stamp :=
  mkStamp (identity h) (stable_transaction_id h) (commit_seq h) 1 1.

Record wf_stamp (st : Stamp) : Prop := mkWfStamp {
  wfs_identity : wf_identity (st_identity st);
  wfs_valid : validate_identity (st_identity st) = Ok tt;
  wfs_txn : fits 8 (st_txn st);
  wfs_seq : fits 8 (st_seq st);
  wfs_min : fits 2 (st_min_reader st);
  wfs_max : fits 2 (st_max_reader st);
  wfs_range : st_min_reader st <= FORMAT_VERSION <= st_max_reader st;
}.

Section facts.
Context (sha256 : list byte -> list byte).

(** ** The digests of an envelope *)

Definition envelope_header_digest (h : CanonicalPreApplyHeader) : list byte :=
  digest_parts sha256 PREAPPLY_DOMAIN [header_layout 1 1 h].

(** Canonical bodies with their leaves, from fragment [i] on. *)
Fixpoint leaves_from (hd : list byte) (i : Z) (fs : list CanonicalFragment) : list (list byte * list byte) :=
  match fs with
  | [] => []
  | f :: fs => (canonical_body f, leaf_digest sha256 hd i (canonical_body f)) :: leaves_from hd (i + 1) fs
  end.

Definition envelope_root (h : CanonicalPreApplyHeader) (fs : list CanonicalFragment) : list byte :=
  digest_parts sha256 FRAGMENT_ROOT_DOMAIN
    [to_le_bytes 4 (vec_len fs) ++ root_entries 0 (leaves_from (envelope_header_digest h) 0 fs)].

Definition marker_domain (m : CanonicalTerminalMarker) : list byte :=
  match m with Legacy _ => FINAL_DOMAIN | GenerationV1 _ _ => RUNTIME_TERMINAL_DOMAIN end.

Definition envelope_final (h : CanonicalPreApplyHeader) (fs : list CanonicalFragment)
    (m : CanonicalTerminalMarker) : list byte :=
  digest_parts sha256 (marker_domain m) [header_layout 1 1 h; envelope_root h fs; marker_layout m].

(** ** The frames of an envelope *)

Section frames.
Context (st : Stamp) (p : CanonicalPhysicalRange) (h : CanonicalPreApplyHeader).
Context (fs : list CanonicalFragment) (m : CanonicalTerminalMarker).

Definition fragment_frame (i : Z) (f : CanonicalFragment) (leaf : list byte) : DecodedFrame :=
  mkFrame FRAME_FRAGMENT (st_identity st) p (st_txn st) (st_seq st) i (vec_len fs) (kind_code (kind f))
    (envelope_header_digest h) (envelope_root h fs) leaf
    (if i =? 0 then header_layout (st_min_reader st) (st_max_reader st) h else []) (body f).

Fixpoint fragment_frames_from (i : Z) (l : list CanonicalFragment) : list DecodedFrame :=
  match l with
  | [] => []
  | f :: l =>
      fragment_frame i f (leaf_digest sha256 (envelope_header_digest h) i (canonical_body f))
        :: fragment_frames_from (i + 1) l
  end.

Definition marker_frame : DecodedFrame :=
  mkFrame FRAME_MARKER (st_identity st) p (st_txn st) (st_seq st) (vec_len fs) (vec_len fs) 0
    (envelope_header_digest h) (envelope_root h fs) (envelope_final h fs m) [] (marker_layout m).

Definition decoded_frames : list DecodedFrame := fragment_frames_from 0 fs ++ [marker_frame].

Definition envelope_frames : list (list byte) := sealed sha256 <$> decoded_frames.

End frames.

Definition envelope_of (p : CanonicalPhysicalRange) (h : CanonicalPreApplyHeader)
    (fs : list CanonicalFragment) (m : CanonicalTerminalMarker) : CanonicalEnvelope :=
  mkEnvelope p h fs m (marker_outcome m) (envelope_root h fs) (envelope_final h fs m).

(** Values the layouts of the frames hold. *)
Record framable (st : Stamp) (p : CanonicalPhysicalRange) (h : CanonicalPreApplyHeader)
    (fs : list CanonicalFragment) (m : CanonicalTerminalMarker) : Prop := mkFramable {
  fr_stamp : wf_stamp st;
  fr_physical : wf_physical p;
  fr_header : wf_header h;
  fr_count : 1 <= vec_len fs < u32_max;
  fr_bodies : Forall (fun f => fits 4 (vec_len (body f))) fs;
  fr_marker : wf_marker m;
  fr_marker_len : fits 4 (vec_len (marker_layout m));
}.

(** What a decodable envelope satisfies. *)
Record valid_envelope (st : Stamp) (p : CanonicalPhysicalRange) (h : CanonicalPreApplyHeader)
    (fs : list CanonicalFragment) (m : CanonicalTerminalMarker) : Prop := mkValidEnvelope {
  ve_framable : framable st p h fs m;
  ve_physical_ok : validate_physical p (vec_len fs + 1) = Ok tt;
  ve_epoch : log_epoch p = leader_epoch h;
  ve_header_ok : validate_header h = Ok tt;
  ve_marker_ok : validate_for_header m h = Ok tt;
  ve_marker_fits : marker_fits m;
}.

Context (sha256_len : forall l, length (sha256 l) = 32%nat).

Lemma length_digest d ps : length (digest_parts sha256 d ps) = 32%nat.
Proof. apply sha256_len. Qed.

Lemma header_layout_nonempty a b h : header_layout a b h <> [].
Proof. unfold header_layout, HEADER_MAGIC. cbn. discriminate. Qed.

Section valid.
Context (st : Stamp) (p : CanonicalPhysicalRange) (h : CanonicalPreApplyHeader).
Context (fs : list CanonicalFragment) (m : CanonicalTerminalMarker).
Context (Hve : framable st p h fs m).

Lemma fragment_frame_wf i f leaf :
  0 <= i < u32_max -> f ∈ fs -> length leaf = 32%nat ->
  wf_frame (fragment_frame st p h fs i f leaf).
Proof.
  intros Hi Hf Hleaf. destruct Hve as [[] ? ? ? Hb ? ?].
  rewrite Forall_forall in Hb. specialize (Hb f Hf). pose proof (kind_fits (kind f)).
  assert (fits 4 (vec_len fs)) by (unfold fits, u32_max in *; cbn; lia).
  assert (fits 4 i) by (unfold fits, u32_max in *; cbn; lia).
  constructor; cbn; try done; try apply length_digest.
  destruct (i =? 0); [rewrite length_header_layout by done|]; fits_solve.
Qed.

Lemma marker_frame_wf : wf_frame (marker_frame st p h fs m).
Proof.
  destruct Hve as [[] ? ? ? Hb ? ?].
  assert (fits 4 (vec_len fs)) by (unfold fits, u32_max in *; cbn; lia).
  constructor; cbn; try done; try apply length_digest; fits_solve.
Qed.

Lemma decoded_frames_Ok :
  collect (decode_frame sha256) (envelope_frames st p h fs m) = Ok (decoded_frames st p h fs m).
Proof.
  assert (forall l, Forall (fun f => decode_frame sha256 (sealed sha256 f) = Ok f) l ->
    collect (decode_frame sha256) (sealed sha256 <$> l) = Ok l) as Hall.
  { induction 1 as [|f l Hf Hl IH]; [done|]. cbn. by rewrite Hf, IH. }
  unfold envelope_frames. apply Hall. unfold decoded_frames. apply Forall_app.
  destruct Hve as [[] ? ? ? Hb ? ?]. split.
  - assert (forall l i, 0 <= i -> i + vec_len l <= vec_len fs -> l ⊆ fs ->
      Forall (fun f => decode_frame sha256 (sealed sha256 f) = Ok f) (fragment_frames_from st p h fs i l)) as Hf.
    { induction l as [|f l IH]; intros i Hi Hle Hsub; cbn; [constructor|].
      rewrite vec_len_cons in Hle. pose proof (vec_len_nonneg l). constructor.
      - apply decode_frame_Ok; [done|]. split; [done|]. split; [|split; [by left|done]].
        apply fragment_frame_wf; [lia|set_solver|apply length_digest].
      - apply IH; [lia|lia|set_solver]. }
    apply Hf; [lia|lia|done].
  - constructor; [|constructor]. apply decode_frame_Ok; [done|]. split; [done|].
    split; [apply marker_frame_wf|split; [by right|done]].
Qed.

End valid.

(** ** Verifying fragments *)

Lemma verify_common_Ok f first :
  verify_common_frame f first = Ok tt <->
  frame_physical f = frame_physical first /\ frame_identity f = frame_identity first /\
  frame_stable_transaction_id f = frame_stable_transaction_id first /\
  frame_commit_seq f = frame_commit_seq first /\ fragment_count f = fragment_count first /\
  header_digest f = header_digest first /\ root f = root first.
Proof.
  unfold verify_common_frame. split.
  - intros H. dec_step H. by bools.
  - intros (-> & -> & -> & -> & -> & -> & ->). by rewrite !Z.eqb_refl, !bool_decide_eq_true_2.
Qed.

(** A fragment frame with the metadata of the first frame. *)
Definition rebuilt (first : DecodedFrame) (digest : list byte) (i : Z) (f : CanonicalFragment)
    (hb : list byte) : DecodedFrame :=
  mkFrame FRAME_FRAGMENT (frame_identity first) (frame_physical first) (frame_stable_transaction_id first)
    (frame_commit_seq first) i (fragment_count first) (kind_code (kind f)) (header_digest first) (root first)
    (leaf_digest sha256 digest i (canonical_body f)) hb (body f).

Fixpoint rebuilt_from (first : DecodedFrame) (digest : list byte) (i : Z) (fs : list CanonicalFragment)
    : list DecodedFrame :=
  match fs with
  | [] => []
  | f :: fs =>
      rebuilt first digest i f (if i =? 0 then header_bytes first else []) :: rebuilt_from first digest (i + 1) fs
  end.

Lemma verify_fragments_app first digest i fs :
  0 <= i ->
  verify_fragments sha256 first digest i (rebuilt_from first digest i fs)
  = Ok (fs, root_entries i (leaves_from digest i fs)).
Proof.
  revert i. induction fs as [|f fs IH]; intros i Hi; [done|]. cbn [rebuilt_from verify_fragments].
  rewrite (proj2 (verify_common_Ok _ first)) by done. cbn [rebuilt frame_type frame_index header_bytes frame_kind
    frame_body leaf_or_final]. rewrite Z.eqb_refl. cbn [negb orb Z.eqb FRAME_FRAGMENT Pos.eqb].
  rewrite decode_kind_code, IH by lia. destruct f as [k b]. cbn [kind body].
  destruct (i =? 0); cbn [negb andb]; repeat rewrite (bool_decide_eq_true_2 _ eq_refl); by rewrite Z.eqb_refl.
Qed.

Lemma verify_fragments_Ok first digest i l fs entries :
  0 <= i -> (i = 0 -> head l = Some first) ->
  verify_fragments sha256 first digest i l = Ok (fs, entries) ->
  l = rebuilt_from first digest i fs /\ entries = root_entries i (leaves_from digest i fs) .
Proof.
  revert i fs entries. induction l as [|frame l IH]; intros i fs entries Hi Hfirst; cbn [verify_fragments].
  { by intros [= <- <-]. }
  intros H. repeat dec_step H. injection H as <- <-. bools.
  match goal with H : verify_common_frame _ _ = _ |- _ =>
    apply verify_common_Ok in H as (Hp & Hid & Htxn & Hseq & Hcount & Hhd & Hroot) end.
  match goal with H : decode_kind _ = _ |- _ => apply decode_kind_Ok in H as Hk end.
  match goal with H : verify_fragments _ _ _ _ _ = _ |- _ => apply IH in H as [-> ->]; [|lia|lia] end.
  cbn [rebuilt_from leaves_from root_entries]. split; [|done]. f_equal.
  assert (header_bytes frame = if i =? 0 then header_bytes first else []) as Hhb.
  { destruct (Z.eqb_spec i 0) as [->|]; cbn in *; [by injection (Hfirst eq_refl) as ->|].
    by match goal with H : negb (bool_decide _) = false |- _ => apply negb_false_iff, bool_decide_eq_true_1 in H end. }
  rewrite <- Hhb. unfold rebuilt. cbn [kind body]. destruct frame; cbn in *; by subst.
Qed.

(** ** The envelope decoder *)

(** The metadata every frame of an envelope shares. *)
Record shares (first : DecodedFrame) (st : Stamp) (p : CanonicalPhysicalRange)
    (h : CanonicalPreApplyHeader) (fs : list CanonicalFragment) : Prop := mkShares {
  sh_identity : frame_identity first = st_identity st;
  sh_physical : frame_physical first = p;
  sh_txn : frame_stable_transaction_id first = st_txn st;
  sh_seq : frame_commit_seq first = st_seq st;
  sh_count : fragment_count first = vec_len fs;
  sh_digest : header_digest first = envelope_header_digest h;
  sh_root : root first = envelope_root h fs;
}.

Lemma rebuilt_fragment_frames first st p h fs i l :
  shares first st p h fs -> header_bytes first = header_layout (st_min_reader st) (st_max_reader st) h ->
  rebuilt_from first (envelope_header_digest h) i l = fragment_frames_from st p h fs i l.
Proof.
  intros [Hi Hp Ht Hs Hc Hd Hr] Hb. revert i. induction l as [|g l IH]; intros i; [done|].
  cbn [rebuilt_from fragment_frames_from]. rewrite IH. unfold rebuilt, fragment_frame.
  by rewrite Hi, Hp, Ht, Hs, Hc, Hd, Hr, Hb.
Qed.

Lemma length_rebuilt first digest i l : length (rebuilt_from first digest i l) = length l.
Proof. revert i. induction l as [|g l IH]; intros i; [done|]. cbn. by rewrite IH. Qed.

Lemma rebuilt_bodies (P : DecodedFrame -> Prop) first digest i l :
  (forall f, P f -> fits 4 (vec_len (frame_body f))) -> Forall P (rebuilt_from first digest i l) ->
  Forall (fun f => fits 4 (vec_len (body f))) l.
Proof.
  intros HP. revert i. induction l as [|g l IH]; intros i; [constructor|]. cbn [rebuilt_from]. inversion 1; subst.
  constructor; [|by eapply IH]. by apply (HP (rebuilt first digest i g (if i =? 0 then header_bytes first else []))).
Qed.

Lemma length_fragment_frames st p h fs i l : length (fragment_frames_from st p h fs i l) = length l.
Proof. revert i. induction l as [|g l IH]; intros i; [done|]. cbn. by rewrite IH. Qed.

Lemma length_decoded st p h fs m : vec_len (decoded_frames st p h fs m) = vec_len fs + 1.
Proof. unfold decoded_frames. rewrite vec_len_app. unfold vec_len. rewrite length_fragment_frames. done. Qed.

Lemma terminal_digest_Ok hb r m bytes d :
  wf_marker m -> bytes = marker_layout m ->
  canonical_terminal_marker_digest_from_encoded sha256 hb r m bytes = Ok d <->
  validate_marker m = Ok tt /\ marker_fits m /\ d = digest_parts sha256 (marker_domain m) [hb; r; bytes].
Proof.
  intros Hwf ->. unfold canonical_terminal_marker_digest_from_encoded. split.
  - intros H. dec_step H. apply measure_Ok in Hr as (? & ? & ->); [|done]. dec_step H. apply Ok_inj in H as <-. by destruct m.
  - intros (Hv & Hfit & ->).
    assert (measure_canonical_terminal_marker m = Ok (marker_measure m)) as -> by (by apply measure_Ok).
    rewrite Z.eqb_refl. by destruct m.
Qed.

Lemma validate_for_header_marker m h : validate_for_header m h = Ok tt -> validate_marker m = Ok tt.
Proof. unfold validate_for_header. by destruct (validate_marker m) as [[]|]. Qed.

(** A marker frame that shares the metadata and carries the terminal digest. *)
Record is_marker (first marker : DecodedFrame) (h : CanonicalPreApplyHeader) (fs : list CanonicalFragment)
    (m : CanonicalTerminalMarker) : Prop := mkIsMarker {
  im_common : verify_common_frame marker first = Ok tt;
  im_type : frame_type marker = FRAME_MARKER;
  im_index : frame_index marker = vec_len fs;
  im_kind : frame_kind marker = 0;
  im_header : header_bytes marker = [];
  im_body : frame_body marker = marker_layout m;
  im_final : leaf_or_final marker = envelope_final h fs m;
}.

Lemma decoded_rebuilt decoded first marker st p h fs m :
  vec_len decoded = vec_len fs + 1 -> shares first st p h fs ->
  header_bytes first = header_layout (st_min_reader st) (st_max_reader st) h ->
  take (Z.to_nat (vec_len fs)) decoded = rebuilt_from first (envelope_header_digest h) 0 fs ->
  decoded !! Z.to_nat (vec_len fs) = Some marker -> is_marker first marker h fs m ->
  decoded = decoded_frames st p h fs m.
Proof.
  intros Hlen Hsh Hhb Hfr Hm [Hc ? ? ? ? ? ?]. unfold decoded_frames.
  rewrite <- (take_drop_middle decoded _ _ Hm), Hfr, (rebuilt_fragment_frames first st p h fs) by done.
  rewrite drop_ge by (unfold vec_len in *; lia). do 2 f_equal.
  apply verify_common_Ok in Hc as (Hp & Hi & Ht & Hs & Hn & Hd & Hr). destruct Hsh.
  destruct marker; cbn in *. unfold marker_frame. f_equal; congruence.
Qed.

Section decode.
Context (try_reserve_exact : Z -> bool) (reserve_ok : forall n, try_reserve_exact n = true).

Lemma decode_frames_app st p h f fs m leaf :
  valid_envelope st p h (f :: fs) m ->
  let first := fragment_frame st p h (f :: fs) 0 f leaf in
  leaf = leaf_digest sha256 (envelope_header_digest h) 0 (canonical_body f) ->
  decode_frames sha256 try_reserve_exact (decoded_frames st p h (f :: fs) m) first
  = Ok (envelope_of p h (f :: fs) m).
Proof.
  intros Hve first Hleaf. pose proof Hve as [[Hst Hp Hh Hcount Hb Hm Hml] Hpok Hep Hhok Hmok Hmf].
  unfold decode_frames. rewrite length_decoded. cbn [first fragment_frame fragment_count frame_type frame_index header_bytes].
  rewrite (proj2 (Z.eqb_neq (vec_len (f :: fs)) 0)), Z.eqb_refl by lia. cbn [negb orb Z.eqb].
  rewrite (bool_decide_eq_false_2 _ (header_layout_nonempty _ _ h)). cbn [orb FRAME_FRAGMENT Z.eqb Pos.eqb negb].
  assert (decode_header (header_layout (st_min_reader st) (st_max_reader st) h) = Ok h) as ->.
  { apply decode_header_Ok. destruct Hst. by eexists _, _. }
  change (frame_physical first) with p. rewrite Hpok, Hep, Z.eqb_refl. cbn [negb].
  assert (encode_header h = Ok (header_layout 1 1 h)) as -> by (by apply encode_header_Ok).
  fold (envelope_header_digest h). change (header_digest first) with (envelope_header_digest h). rewrite (bool_decide_eq_true_2 _ eq_refl). cbn [negb].
  replace (Z.to_nat (vec_len (f :: fs))) with (length (fragment_frames_from st p h (f :: fs) 0 (f :: fs)))
    by (rewrite length_fragment_frames; unfold vec_len; lia).
  unfold decoded_frames at 1. rewrite take_app_length. fold first.
  assert (shares first st p h (f :: fs)) as Hsh by done.
  rewrite <- (rebuilt_fragment_frames first), verify_fragments_app by (done || lia).
  fold (envelope_root h (f :: fs)). change (root first) with (envelope_root h (f :: fs)). rewrite (bool_decide_eq_true_2 _ eq_refl). cbn [negb].
  unfold decoded_frames. rewrite <- (rebuilt_fragment_frames first) by done.
  rewrite list_lookup_middle by done. rewrite (proj2 (verify_common_Ok _ first)) by done.
  cbn [marker_frame frame_type frame_index frame_kind header_bytes frame_body leaf_or_final].
  rewrite Z.eqb_refl, (bool_decide_eq_true_2 _ eq_refl). cbn [FRAME_MARKER Z.eqb Pos.eqb negb orb].
  pose proof (validate_for_header_marker m h Hmok) as Hmv.
  assert (decode_canonical_terminal_marker try_reserve_exact (marker_layout m) = Ok m) as ->
    by (by apply decode_marker_Ok). rewrite Hmok.
  assert (canonical_terminal_marker_digest_from_encoded sha256 (header_layout 1 1 h) (envelope_root h (f :: fs)) m
    (marker_layout m) = Ok (envelope_final h (f :: fs) m)) as -> by (by apply terminal_digest_Ok).
  by rewrite (bool_decide_eq_true_2 _ eq_refl), Z.eqb_refl.
Qed.

Lemma decoded_inv decoded frames :
  collect (decode_frame sha256) frames = Ok decoded ->
  frames = sealed sha256 <$> decoded /\
  Forall (fun f => wf_frame f /\ validate_identity (frame_identity f) = Ok tt) decoded.
Proof.
  revert decoded. induction frames as [|b frames IH]; intros decoded; cbn [collect].
  { intros [= <-]. split; [done|constructor]. }
  intros H. repeat dec_step H. apply Ok_inj in H as <-.
  match goal with H : decode_frame _ _ = _ |- _ => apply decode_frame_Ok in H as (-> & ? & ? & ?); [|done] end.
  destruct (IH _ eq_refl) as [-> ?].
  split; [done|]. by constructor.
Qed.

Lemma decode_frames_Ok decoded first e :
  head decoded = Some first -> vec_len decoded <= u32_max ->
  Forall (fun f => wf_frame f /\ validate_identity (frame_identity f) = Ok tt) decoded ->
  decode_frames sha256 try_reserve_exact decoded first = Ok e ->
  exists st p h fs m, valid_envelope st p h fs m /\ decoded = decoded_frames st p h fs m /\ e = envelope_of p h fs m.
Proof.
  intros Hhd Hlen Hwf. destruct decoded as [|d0 ds]; [done|]. injection Hhd as ->.
  pose proof (Forall_inv Hwf) as [Hwf0 Hid0]. pose proof (wff_count _ Hwf0) as [Hc0 _].
  set (decoded := first :: ds) in *.
  unfold decode_frames. intros H. repeat dec_step H.
  destruct (decoded !! Z.to_nat (fragment_count first)) as [marker|] eqn:Hm; [|done].
  repeat dec_step H. apply Ok_inj in H as <-. bools.
  match goal with H : decode_header _ = _ |- _ => apply decode_header_Ok in H as (lo & hi & Hhb & Hlo & Hhi & Hr' & Hwh & Hvh) end.
  match goal with H : encode_header _ = _ |- _ => apply (encode_header_Ok _ _ Hwh) in H as [_ ->] end.
  match goal with H : verify_fragments _ _ _ _ _ = _ |- _ => apply verify_fragments_Ok in H as [Hfr ->]; [|done|] end.
  2:{ intros _. unfold decoded. by destruct (Z.to_nat (fragment_count first)) eqn:?; [lia|]. }
  fold (envelope_header_digest a) in *.
  assert (fragment_count first = vec_len l) as Hcl.
  { apply (f_equal length) in Hfr. rewrite length_rebuilt, length_take in Hfr. unfold vec_len in *. lia. }
  rewrite Hcl in *. fold (envelope_root a l) in *.
  match goal with H : decode_canonical_terminal_marker _ _ = _ |- _ =>
    apply decode_marker_Ok in H as (Hmb & Hwm & Hvm & Hfm); [|done] end.
  match goal with H : canonical_terminal_marker_digest_from_encoded _ _ _ _ _ = _ |- _ =>
    apply terminal_digest_Ok in H as (_ & _ & ->); [|done|done] end.
  set (st := mkStamp (frame_identity first) (frame_stable_transaction_id first) (frame_commit_seq first) lo hi).
  assert (shares first st (frame_physical first) a l) as Hsh by (by split).
  exists st, (frame_physical first), a, l, a3.
  assert (decoded = decoded_frames st (frame_physical first) a l a3) as Hdec.
  { apply (decoded_rebuilt _ first marker); try done. split; try done.
    unfold envelope_final. by rewrite <- Hmb. }
  pose proof (proj1 (Forall_forall _ _) Hwf marker (list_elem_of_lookup_2 _ _ _ Hm)) as [Hwm0 _].
  split; [|split; [done|by rewrite Hmb]]. destruct Hwf0. constructor; [constructor| ..]; try done.
  - unfold vec_len in *. lia.
  - apply (rebuilt_bodies (fun f => wf_frame f /\ validate_identity (frame_identity f) = Ok tt) first
      (envelope_header_digest a) 0); [by intros f [[] _]|]. rewrite <- Hfr. by apply Forall_take.
  - rewrite <- Hmb. apply Hwm0.
  - by rewrite <- H7.
Qed.

(** The decoder accepts exactly the frames of valid envelopes. *)
Lemma decode_envelope_Ok frames e :
  decode_canonical_envelope_with_terminal_marker sha256 try_reserve_exact frames = Ok e <->
  exists st p h fs m,
    valid_envelope st p h fs m /\ frames = envelope_frames st p h fs m /\ e = envelope_of p h fs m.
Proof.
  unfold decode_canonical_envelope_with_terminal_marker. split.
  - intros H. repeat dec_step H. bools. apply decoded_inv in Hr as [-> Hwf].
    destruct a as [|first decoded]; [done|].
    apply decode_frames_Ok in H as (st & p & h & fs & m & Hv & -> & ->); try done; [by eexists _, _, _, _, _|].
    unfold vec_len in *. by rewrite length_fmap in *.
  - intros (st & p & h & fs & m & Hv & -> & ->).
    assert (vec_len (envelope_frames st p h fs m) = vec_len fs + 1) as Hlen.
    { rewrite <- (length_decoded st p h fs m). unfold vec_len, envelope_frames. by rewrite length_fmap. }
    pose proof (fr_count _ _ _ _ _ (ve_framable _ _ _ _ _ Hv)) as Hcount.
    rewrite Hlen, (proj2 (Z.ltb_ge _ _)), (proj2 (Z.ltb_ge _ _)) by lia. cbn [orb].
    rewrite decoded_frames_Ok by apply Hv. destruct fs as [|f fs]; [unfold vec_len in Hcount; cbn in Hcount; lia|].
    change (decoded_frames st p h (f :: fs) m) with
      (fragment_frame st p h (f :: fs) 0 f (leaf_digest sha256 (envelope_header_digest h) 0 (canonical_body f))
        :: (fragment_frames_from st p h (f :: fs) 1 fs ++ [marker_frame st p h (f :: fs) m])).
    by apply decode_frames_app.
Qed.

End decode.

End facts.

End EnvelopeFacts.
