(* ===== verification/EnvelopeEncode.v ===== *)
(** * Canonical envelope: what the encoder writes

    The framing arithmetic gives the exact lengths; the encoder writes the frames of its
    envelope; packing and unpacking are inverse. *)

From stdpp Require Import base strings list sets pretty.
From S2P Require Import Prelude Types Bytes WalSegment Codec Canonical CanonicalFacts GenTerminal GenTerminalFacts Envelope EnvelopeFacts.

Module EnvelopeEncode.
Import Codec Canonical CanonicalFacts GenTerminal GenTerminalFacts Envelope EnvelopeFacts.

(** ** Framing arithmetic *)

Definition sum (l : list Z) : Z := foldr Z.add 0 l.

(** The bytes of the fragment frames whose bodies have the lengths [l], the first one carrying
    the header. *)
Definition frame_bytes (l : list Z) : Z :=
  (FRAME_FIXED_BYTES + FRAME_DIGEST_BYTES) * vec_len l + sum l.

(** The footprint as a closed formula. *)
Definition footprint_of (l : list Z) (marker : Z) : CanonicalWalFootprint :=
  let frames := PREAPPLY_HEADER_BYTES + frame_bytes l in
  let marker_frame := FRAME_FIXED_BYTES + marker + FRAME_DIGEST_BYTES in
  let packed := PACKED_RECORD_PREFIX_BYTES + (frames + PACKED_FRAME_LENGTH_BYTES * vec_len l) +
                (PACKED_FRAME_LENGTH_BYTES + marker_frame) in
  mkFootprint (vec_len l) (vec_len l + 1) (sum l) (PREAPPLY_HEADER_BYTES + sum l) frames marker_frame
    (frames + PACKED_FRAME_LENGTH_BYTES * vec_len l) (PACKED_FRAME_LENGTH_BYTES + marker_frame) packed
    (packed + Wal.WAL_RECORD_HEADER_LEN).

(** The bounds the encoder enforces. *)
Record within_bounds (l : list Z) (marker : Z) : Prop := mkWithin {
  wb_count : 1 <= vec_len l < u32_max;
  wb_bodies : Forall (fun n => n <= MAX_FRAGMENT_BYTES) l;
  wb_envelope : PREAPPLY_HEADER_BYTES + sum l <= MAX_ENVELOPE_BYTES;
  wb_marker : FRAME_FIXED_BYTES + marker + FRAME_DIGEST_BYTES <= MAX_ENVELOPE_BYTES;
  wb_packed : packed_record_bytes (footprint_of l marker) <= MAX_ENVELOPE_BYTES + 1024 * 1024;
}.

Lemma at_index_app pre n l : at_index (pre ++ n :: l) (vec_len pre) = n.
Proof. unfold at_index, vec_len. rewrite Nat2Z.id. by rewrite list_lookup_middle. Qed.

Lemma sum_cons n l : sum (n :: l) = n + sum l.
Proof. done. Qed.

Lemma sum_nonneg l : Forall (fun n => 0 <= n) l -> 0 <= sum l.
Proof. induction 1; [done|]. rewrite sum_cons. lia. Qed.

Lemma footprint_loop_Ok pre l bodies frames r :
  0 <= bodies -> 0 <= frames -> Forall (fun n => 0 <= n) l ->
  footprint_loop (length l) (vec_len pre) (fun i => Ok (at_index (pre ++ l) i)) bodies frames = Ok r ->
  Forall (fun n => n <= MAX_FRAGMENT_BYTES) l /\
  r = (bodies + sum l, frames + frame_bytes l +
       if bool_decide (pre = []) && negb (bool_decide (l = [])) then PREAPPLY_HEADER_BYTES else 0).
Proof.
  revert pre bodies frames. induction l as [|n l IH]; intros pre bodies frames Hb Hf Hl; cbn [length footprint_loop].
  { intros [= <-]. split; [constructor|]. cbn. rewrite andb_false_r. unfold frame_bytes, vec_len. cbn. f_equal; lia. }
  inversion Hl; subst. rewrite at_index_app. intros H. repeat dec_step H. bools.
  replace (pre ++ n :: l) with ((pre ++ [n]) ++ l) in H by (by rewrite <- app_assoc).
  replace (vec_len pre + 1) with (vec_len (pre ++ [n])) in H by (rewrite vec_len_app; done).
  repeat match goal with H : ok_or _ _ = Ok _ |- _ => apply ok_or_Ok in H end.
  set (hdr := if vec_len pre =? 0 then PREAPPLY_HEADER_BYTES else 0) in *.
  assert (0 <= hdr <= 240) as Hhdr by (unfold hdr; destruct (_ =? _); vm_compute; split; discriminate).
  match goal with H : checked_sum _ = _ |- _ => rewrite checked_sum4 in H end;
    try (unfold FRAME_FIXED_BYTES, FRAME_DIGEST_BYTES, MAX_FRAGMENT_BYTES, u64_max in *; lia). simplify_eq.
  repeat match goal with H : checked_add64 _ _ = Some _ |- _ => apply checked_add64_Some in H as [-> ?] end.
  apply IH in H as [Hall ->]; [|unfold FRAME_FIXED_BYTES, FRAME_DIGEST_BYTES in *; lia..|done].
  split; [by constructor|]. rewrite sum_cons. unfold frame_bytes. rewrite vec_len_cons, sum_cons.
  rewrite (bool_decide_eq_false_2 (n :: l = [])) by done. rewrite (bool_decide_eq_false_2 (pre ++ [n] = [])) by (by destruct pre).
  cbn [andb negb]. rewrite andb_true_r.
  assert ((if bool_decide (pre = []) then PREAPPLY_HEADER_BYTES else 0) = hdr) as ->; [|f_equal; lia].
  unfold hdr. destruct pre as [|x pre]; [done|]. rewrite (bool_decide_eq_false_2 _) by done.
  rewrite vec_len_cons. pose proof (vec_len_nonneg pre). by rewrite (proj2 (Z.eqb_neq _ _)) by lia.
Qed.

Lemma footprint_Ok l marker fp :
  Forall (fun n => 0 <= n) l -> 0 <= marker ->
  canonical_wal_footprint_by_index_with_marker (vec_len l) (fun i => Ok (at_index l i)) marker = Ok fp ->
  within_bounds l marker /\ fp = footprint_of l marker.
Proof.
  intros Hl Hm. unfold canonical_wal_footprint_by_index_with_marker. intros H. do 2 dec_step H. bools. cbv zeta in H.
  dec_step H. replace (Z.to_nat (vec_len l)) with (length l) in Hr by (unfold vec_len; lia).
  apply (footprint_loop_Ok [] l) in Hr as [Hall Heq]; [|done..].
  rewrite (bool_decide_eq_true_2 ([] = [])), (bool_decide_eq_false_2 (l = [])) in Heq by (done || by intros ->).
  cbn [andb negb] in Heq. injection Heq as -> ->.
  pose proof (sum_nonneg l Hl). pose proof (vec_len_nonneg l).
  assert (0 <= frame_bytes l) by (unfold frame_bytes, FRAME_FIXED_BYTES, FRAME_DIGEST_BYTES; lia).
  repeat dec_step H. apply Ok_inj in H as <-. bools.
  repeat match goal with H : ok_or _ _ = Ok _ |- _ => apply ok_or_Ok in H end.
  repeat match goal with
         | H : checked_add64 _ _ = Some _ |- _ => apply checked_add64_Some in H as [-> ?]
         | H : checked_sum [FRAME_FIXED_BYTES; _; _] = Some _ |- _ => apply checked_sum3 in H as [-> ?]; [|done..]
         end.
  match goal with H : checked_sum _ = Some _ |- _ => apply checked_sum3 in H as [-> ?] end;
    [|unfold PREAPPLY_HEADER_BYTES, PACKED_RECORD_PREFIX_BYTES, PACKED_FRAME_LENGTH_BYTES, FRAME_FIXED_BYTES,
       FRAME_DIGEST_BYTES in *; lia..].
  rewrite !Z.add_0_l in *. rewrite (Z.add_comm (frame_bytes l) PREAPPLY_HEADER_BYTES) in *.
  split; [|done]. split; [lia|done..].
Qed.

Lemma footprint_loop_total pre l bodies frames :
  0 <= bodies -> 0 <= frames -> Forall (fun n => 0 <= n) l -> Forall (fun n => n <= MAX_FRAGMENT_BYTES) l ->
  bodies + sum l <= u64_max -> frames + 516 * vec_len l + sum l <= u64_max ->
  exists r, footprint_loop (length l) (vec_len pre) (fun i => Ok (at_index (pre ++ l) i)) bodies frames = Ok r.
Proof.
  revert pre bodies frames. induction l as [|n l IH]; intros pre bodies frames Hb Hf Hl Hmax Hs Hfr; [by eexists|].
  inversion Hl; inversion Hmax; subst. cbn [length footprint_loop]. rewrite at_index_app.
  rewrite sum_cons in Hs, Hfr. rewrite vec_len_cons in Hfr.
  pose proof (sum_nonneg l ltac:(done)). pose proof (vec_len_nonneg l).
  rewrite (proj2 (Z.ltb_ge _ _)) by lia.
  assert (checked_add64 bodies n = Some (bodies + n)) as -> by (apply checked_add64_Some; split; [done|lia]).
  cbn [ok_or]. set (hdr := if vec_len pre =? 0 then PREAPPLY_HEADER_BYTES else 0).
  assert (0 <= hdr <= 240) as Hhdr by (unfold hdr; destruct (_ =? _); vm_compute; split; discriminate).
  rewrite checked_sum4 by (unfold FRAME_FIXED_BYTES, FRAME_DIGEST_BYTES, MAX_FRAGMENT_BYTES, u64_max in *; lia).
  cbn [ok_or]. set (fb := FRAME_FIXED_BYTES + hdr + n + FRAME_DIGEST_BYTES).
  assert (checked_add64 frames fb = Some (frames + fb)) as ->.
  { apply checked_add64_Some. split; [done|].
    unfold fb, FRAME_FIXED_BYTES, FRAME_DIGEST_BYTES, PREAPPLY_HEADER_BYTES in *. lia. }
  cbn [ok_or]. replace (pre ++ n :: l) with ((pre ++ [n]) ++ l) by (by rewrite <- app_assoc).
  replace (vec_len pre + 1) with (vec_len (pre ++ [n])) by (rewrite vec_len_app; done).
  apply IH; try done; unfold fb, FRAME_FIXED_BYTES, FRAME_DIGEST_BYTES in *; lia.
Qed.

Lemma footprint_total l marker :
  Forall (fun n => 0 <= n) l -> 0 <= marker -> within_bounds l marker ->
  canonical_wal_footprint_by_index_with_marker (vec_len l) (fun i => Ok (at_index l i)) marker
  = Ok (footprint_of l marker).
Proof.
  intros Hl Hm [Hc Hb He Hmk Hp]. pose proof (sum_nonneg l Hl).
  assert (l <> []) by (intros ->; unfold vec_len in Hc; cbn in Hc; lia).
  unfold canonical_wal_footprint_by_index_with_marker.
  rewrite (proj2 (Z.ltb_ge _ _)), (proj2 (Z.eqb_neq _ _)), (proj2 (Z.eqb_neq _ _)) by lia. cbn [orb].
  cbn [footprint_of packed_record_bytes] in Hp. unfold frame_bytes in Hp.
  assert (exists r, footprint_loop (length l) 0 (fun i => Ok (at_index l i)) 0 0 = Ok r) as [r Hr].
  { apply (footprint_loop_total []); try done;
      unfold PREAPPLY_HEADER_BYTES, PACKED_RECORD_PREFIX_BYTES, PACKED_FRAME_LENGTH_BYTES, FRAME_FIXED_BYTES,
        FRAME_DIGEST_BYTES, MAX_ENVELOPE_BYTES, u64_max in *; lia. }
  pose proof Hr as Hr'. apply (footprint_loop_Ok [] l) in Hr' as [_ ->]; [|done..].
  replace (Z.to_nat (vec_len l)) with (length l) by (unfold vec_len; lia). rewrite Hr.
  rewrite (bool_decide_eq_true_2 ([] = [])), (bool_decide_eq_false_2 (l = [])) by done.
  cbn [andb negb]. rewrite !Z.add_0_l.
  assert (u64_max = 18446744073709551615) as Hu by done.
  unfold footprint_of, frame_bytes, PREAPPLY_HEADER_BYTES, PACKED_RECORD_PREFIX_BYTES,
    PACKED_FRAME_LENGTH_BYTES, FRAME_FIXED_BYTES, FRAME_DIGEST_BYTES, MAX_ENVELOPE_BYTES,
    Wal.WAL_RECORD_HEADER_LEN in *.
  rewrite ok_add by lia. cbv beta iota. rewrite (proj2 (Z.ltb_ge _ _)) by lia.
  rewrite ok_sum3 by lia. cbv beta iota. rewrite (proj2 (Z.ltb_ge _ _)) by lia.
  rewrite ok_add by lia. cbv beta iota. rewrite ok_add by lia. cbv beta iota.
  rewrite ok_sum3 by lia. cbv beta iota. rewrite (proj2 (Z.ltb_ge _ _)) by lia.
  rewrite ok_add by lia. cbv beta iota.
  f_equal. f_equal; lia.
Qed.

(** ** Encoding *)

Definition body_lengths (fs : list CanonicalFragment) : list Z := (fun f => vec_len (body f)) <$> fs.

Lemma body_lengths_nonneg fs : Forall (fun n => 0 <= n) (body_lengths fs).
Proof. unfold body_lengths. apply Forall_fmap, Forall_true. intros f. apply vec_len_nonneg. Qed.

Lemma vec_len_body_lengths fs : vec_len (body_lengths fs) = vec_len fs.
Proof. unfold vec_len, body_lengths. by rewrite length_fmap. Qed.

(** What the encoder accepts. *)
Record encodable (p : CanonicalPhysicalRange) (h : CanonicalPreApplyHeader)
    (fs : list CanonicalFragment) (m : CanonicalTerminalMarker) : Prop := mkEncodable {
  en_header : validate_header h = Ok tt;
  en_operations : operation_count h = vec_len fs;
  en_physical : validate_physical p (vec_len fs + 1) = Ok tt;
  en_marker : validate_for_header m h = Ok tt;
  en_fits : marker_fits m;
  en_bounds : within_bounds (body_lengths fs) (vec_len (marker_layout m));
}.

Lemma bounded_bodies fs :
  Forall (fun n => n <= MAX_FRAGMENT_BYTES) (body_lengths fs) ->
  Forall (fun f => fits 4 (vec_len (body f))) fs.
Proof.
  unfold body_lengths. rewrite Forall_fmap. intros H. apply (Forall_impl _ _ _ H). intros f Hf. cbn in Hf.
  pose proof (vec_len_nonneg (body f)). unfold fits, MAX_FRAGMENT_BYTES in *. cbn. lia.
Qed.

Section encode.
Context (sha256 : list byte -> list byte) (sha256_len : forall l, length (sha256 l) = 32%nat).

Lemma build_leaves_ok hd i total l :
  Forall (fun n => n <= MAX_FRAGMENT_BYTES) (body_lengths l) -> 0 <= total ->
  total + sum (body_lengths l) <= MAX_ENVELOPE_BYTES ->
  build_leaves sha256 hd i total l = Ok (leaves_from sha256 hd i l).
Proof.
  revert i total. induction l as [|f l IH]; intros i total Hb Ht Hle; [done|].
  change (body_lengths (f :: l)) with (vec_len (body f) :: body_lengths l) in *. rewrite sum_cons in Hle.
  inversion Hb; subst. cbn [build_leaves]. pose proof (vec_len_nonneg (body f)).
  pose proof (sum_nonneg _ (body_lengths_nonneg l)).
  rewrite (proj2 (Z.ltb_ge _ _)) by lia.
  assert (checked_add64 total (vec_len (body f)) = Some (total + vec_len (body f))) as ->.
  { apply checked_add64_Some. split; [done|]. unfold MAX_ENVELOPE_BYTES, u64_max in *. lia. }
  cbn [ok_or]. rewrite (proj2 (Z.ltb_ge _ _)) by lia. rewrite IH by (done || lia). done.
Qed.

Section frames.
Context (p : CanonicalPhysicalRange) (h : CanonicalPreApplyHeader).
Context (fs : list CanonicalFragment) (m : CanonicalTerminalMarker).
Context (Hfr : framable (own_stamp h) p h fs m).

Lemma fragment_frames_ok i l :
  0 <= i -> i + vec_len l <= vec_len fs -> l ⊆ fs ->
  fragment_frames sha256 p h (vec_len fs) i (header_layout 1 1 h) (envelope_header_digest sha256 h)
    (envelope_root sha256 h fs) l (leaves_from sha256 (envelope_header_digest sha256 h) i l).*2
  = Ok (sealed sha256 <$> fragment_frames_from sha256 (own_stamp h) p h fs i l).
Proof.
  revert i. induction l as [|f l IH]; intros i Hi Hle Hsub; [done|].
  rewrite vec_len_cons in Hle. pose proof (vec_len_nonneg l).
  cbn [leaves_from fmap list_fmap snd fragment_frames fragment_frames_from].
  pose proof (fr_count _ _ _ _ _ Hfr).
  rewrite encode_frame_sealed.
  2:{ apply (fragment_frame_wf sha256 sha256_len (own_stamp h) p h fs m Hfr i f); [lia|set_solver|by apply length_digest]. }
  rewrite IH by (lia || set_solver). done.
Qed.

Lemma marker_frame_ok :
  encode_frame sha256 FRAME_MARKER p h (vec_len fs) (vec_len fs) 0 [] (marker_layout m)
    (envelope_header_digest sha256 h) (envelope_root sha256 h fs) (envelope_final sha256 h fs m)
  = Ok (sealed sha256 (marker_frame sha256 (own_stamp h) p h fs m)).
Proof. apply encode_frame_sealed. exact (marker_frame_wf sha256 sha256_len _ p h fs m Hfr). Qed.

End frames.

Lemma encodable_framable p h fs m :
  wf_physical p -> wf_header h -> wf_marker m -> encodable p h fs m -> framable (own_stamp h) p h fs m.
Proof.
  intros Hp Hh Hm [Hv _ _ _ _ [Hc Hb _ Hmk _]]. rewrite vec_len_body_lengths in Hc. constructor; try done.
  - destruct Hh. constructor; try done; try fits_solve.
    unfold validate_header in Hv. cbn. by destruct (validate_identity (identity h)) as [[]|].
  - by apply bounded_bodies.
  - pose proof (vec_len_nonneg (marker_layout m)).
    unfold fits, FRAME_FIXED_BYTES, FRAME_DIGEST_BYTES, MAX_ENVELOPE_BYTES in *. cbn. lia.
Qed.

Lemma body_length_index fs : body_length fs = fun i => Ok (at_index (body_lengths fs) i).
Proof. done. Qed.

Lemma encode_rejects p h fs m enc :
  wf_header h -> wf_marker m ->
  encode_canonical_envelope_with_terminal_marker sha256 p h fs m = Ok enc -> encodable p h fs m.
Proof.
  intros Hh Hm H. unfold encode_canonical_envelope_with_terminal_marker in H. repeat dec_step H. bools.
  match goal with H : measure_canonical_terminal_marker _ = _ |- _ => apply measure_Ok in H as (? & ? & ->); [|done] end.
  match goal with H : canonical_wal_footprint_by_index_with_marker _ _ _ = _ |- _ =>
    rewrite body_length_index, <- vec_len_body_lengths in H;
    apply footprint_Ok in H as [? _]; [|apply body_lengths_nonneg|apply vec_len_nonneg] end.
  match goal with H : encode_header _ = _ |- _ => apply encode_header_Ok in H as [? _]; [|done] end.
  by constructor.
Qed.

Lemma encode_accepts p h fs m :
  wf_physical p -> wf_header h -> wf_marker m -> encodable p h fs m ->
  encode_canonical_envelope_with_terminal_marker sha256 p h fs m =
  Ok (mkEncoded (envelope_frames sha256 (own_stamp h) p h fs m) (envelope_root sha256 h fs)
        (envelope_final sha256 h fs m) h).
Proof.
  intros Hp Hh Hm He. pose proof (encodable_framable p h fs m Hp Hh Hm He) as Hfr.
  destruct He as [Hv Hop Hph Hmk Hfit Hb]. pose proof (fr_count _ _ _ _ _ Hfr) as Hc.
  pose proof (validate_for_header_marker m h Hmk) as Hmv.
  unfold encode_canonical_envelope_with_terminal_marker.
  rewrite (proj2 (Z.eqb_neq _ _)), (proj2 (Z.ltb_ge _ _)) by lia. cbn [orb].
  rewrite Hmk, Hop, Z.eqb_refl. cbn [negb].
  assert (measure_canonical_terminal_marker m = Ok (marker_measure m)) as Hms by (by apply measure_Ok). rewrite Hms.
  cbn [marker_measure marker_bytes]. rewrite body_length_index, <- vec_len_body_lengths, footprint_total
    by (apply body_lengths_nonneg || apply vec_len_nonneg || done). rewrite vec_len_body_lengths, Hph.
  assert (encode_header h = Ok (header_layout 1 1 h)) as -> by (by apply encode_header_Ok).
  fold (envelope_header_digest sha256 h). destruct Hb as [_ Hbb Hbe _ _].
  rewrite build_leaves_ok; [|done|apply vec_len_nonneg|rewrite length_header_layout by done; exact Hbe].
  fold (envelope_root sha256 h fs).
  assert (encode_canonical_terminal_marker_into m (vec_len (marker_layout m)) = Ok (marker_layout m)) as ->.
  { destruct (proj2 (encode_marker_Ok m (marker_layout m) Hm)) as (ms & Hms' & Hen); [done|].
    rewrite Hms in Hms'. by apply Ok_inj in Hms' as <-. }
  assert (canonical_terminal_marker_digest_from_encoded sha256 (header_layout 1 1 h) (envelope_root sha256 h fs) m
    (marker_layout m) = Ok (envelope_final sha256 h fs m)) as -> by (by apply terminal_digest_Ok).
  rewrite fragment_frames_ok with (m := m) by (done || lia).
  rewrite marker_frame_ok by done. unfold envelope_frames, decoded_frames. by rewrite fmap_app.
Qed.

(** The encoder accepts exactly the encodable envelopes and writes their frames. *)
Lemma encode_envelope_Ok p h fs m enc :
  wf_physical p -> wf_header h -> wf_marker m ->
  encode_canonical_envelope_with_terminal_marker sha256 p h fs m = Ok enc <->
  encodable p h fs m /\
  enc = mkEncoded (envelope_frames sha256 (own_stamp h) p h fs m) (envelope_root sha256 h fs)
          (envelope_final sha256 h fs m) h.
Proof.
  intros Hp Hh Hm. split.
  - intros H. pose proof (encode_rejects _ _ _ _ _ Hh Hm H) as He. split; [done|].
    rewrite encode_accepts in H by done. by apply Ok_inj in H.
  - intros [He ->]. by apply encode_accepts.
Qed.

End encode.

End EnvelopeEncode.

(** * Canonical envelope: the packed record payload

    Packing and unpacking of frames are inverse, the packed payload has the length the footprint
    predicts, and the payload decoder accepts exactly the packed frames of valid envelopes with a
    legacy outcome marker. *)

Module EnvelopePack.
Import Codec Canonical CanonicalFacts GenTerminal GenTerminalFacts Envelope EnvelopeFacts EnvelopeEncode.

(** Frames with their lengths before them. *)
Definition packed_frames (l : list (list byte)) : list byte :=
  concat ((fun f => to_le_bytes 4 (vec_len f) ++ f) <$> l).

Definition payload_layout (l : list (list byte)) : list byte :=
  RECORD_MAGIC ++ to_le_bytes 4 (vec_len l) ++ packed_frames l.

Definition lengths (l : list (list byte)) : list Z := vec_len <$> l.

Lemma lengths_nonneg l : Forall (fun n => 0 <= n) (lengths l).
Proof. unfold lengths. apply Forall_fmap, Forall_true. intros f. apply vec_len_nonneg. Qed.

Lemma packed_frames_cons f l : packed_frames (f :: l) = to_le_bytes 4 (vec_len f) ++ f ++ packed_frames l.
Proof. unfold packed_frames. cbn [fmap list_fmap concat]. by rewrite <- app_assoc. Qed.

Lemma lengths_cons f l : lengths (f :: l) = vec_len f :: lengths l.
Proof. done. Qed.

Lemma length_packed_frames l : vec_len (packed_frames l) = 4 * vec_len l + sum (lengths l).
Proof.
  induction l as [|f l IH]; [done|]. rewrite packed_frames_cons, lengths_cons, sum_cons, vec_len_cons,
    !vec_len_app, IH, vec_len_le_bytes. lia.
Qed.

Lemma length_payload l : vec_len (payload_layout l) = 20 + 4 * vec_len l + sum (lengths l).
Proof.
  unfold payload_layout. rewrite !vec_len_app, length_packed_frames, vec_len_le_bytes.
  change (vec_len RECORD_MAGIC) with 16. lia.
Qed.

Lemma pack_frames_Ok l : Forall (fun f => vec_len f <= u32_max) l -> pack_frames l = Ok (packed_frames l).
Proof.
  induction 1 as [|f l Hf Hl IH]; [done|]. cbn [pack_frames]. rewrite (proj2 (Z.ltb_ge _ _)), IH by lia.
  by rewrite packed_frames_cons.
Qed.

Lemma packed_total_Ok total l :
  0 <= total -> total + 4 * vec_len l + sum (lengths l) <= u64_max ->
  packed_total total l = Ok (total + 4 * vec_len l + sum (lengths l)).
Proof.
  revert total. induction l as [|f l IH]; intros total Ht Hle; cbn [packed_total].
  { f_equal. unfold vec_len. cbn. lia. }
  rewrite lengths_cons, sum_cons, vec_len_cons in *. pose proof (vec_len_nonneg f). pose proof (vec_len_nonneg l).
  pose proof (sum_nonneg _ (lengths_nonneg l)).
  rewrite ok_sum3 by lia. cbv beta iota. rewrite IH by lia. f_equal. lia.
Qed.

Lemma pack_payload_Ok enc :
  Forall (fun f => vec_len f <= u32_max) (frames enc) -> vec_len (frames enc) <= u32_max ->
  vec_len (payload_layout (frames enc)) <= MAX_ENVELOPE_BYTES + 1024 * 1024 ->
  pack_canonical_record_payload enc = Ok (payload_layout (frames enc)).
Proof.
  intros Hf Hn Hle. rewrite length_payload in Hle. unfold pack_canonical_record_payload.
  rewrite (proj2 (Z.ltb_ge _ _)) by lia. change (vec_len RECORD_MAGIC + 4) with 20.
  rewrite packed_total_Ok; [|lia|unfold MAX_ENVELOPE_BYTES, u64_max in *; lia].
  rewrite (proj2 (Z.ltb_ge _ _)) by lia. by rewrite pack_frames_Ok.
Qed.

Lemma unpack_frames_Ok n c l r :
  unpack_frames n c = Ok (l, r) <->
  length l = n /\ Forall (fun f => vec_len f <= MAX_ENVELOPE_BYTES) l /\ c = packed_frames l ++ r.
Proof.
  revert c l. induction n as [|n IH]; intros c l; cbn [unpack_frames].
  { split; [by intros [= <- <-]|]. intros (Hn & _ & ->). apply nil_length_inv in Hn as ->. done. }
  split.
  - intros H. repeat dec_step H. injection H as <- <-. bools.
    apply IH in Hr1 as (<- & ? & ->). subst z.
    split; [done|]. split; [by constructor|]. rewrite packed_frames_cons. by rewrite <- !app_assoc.
  - intros (Hn & Hf & ->). destruct l as [|f l]; [done|]. injection Hn as Hn. inversion Hf; subst.
    rewrite packed_frames_cons, <- !app_assoc. pose proof (vec_len_nonneg f).
    rewrite r_uint_app by (unfold fits, MAX_ENVELOPE_BYTES in *; cbn; lia).
    rewrite (proj2 (Z.ltb_ge _ _)) by lia. rewrite r_take_app by done.
    assert (unpack_frames (length l) (packed_frames l ++ r) = Ok (l, r)) as -> by (by apply IH). done.
Qed.

Lemma starts_with_magic_spec payload :
  starts_with_magic payload = true <-> exists r, payload = RECORD_MAGIC ++ r.
Proof.
  unfold starts_with_magic. rewrite bool_decide_eq_true. split.
  - intros H. exists (drop (length RECORD_MAGIC) payload). rewrite <- H at 1. by rewrite take_drop.
  - intros [r ->]. by rewrite take_app_length.
Qed.

Section packed.
Context (sha256 : list byte -> list byte) (sha256_len : forall l, length (sha256 l) = 32%nat).

Lemma length_envelope_frames st p h fs m : vec_len (envelope_frames sha256 st p h fs m) = vec_len fs + 1.
Proof. rewrite <- (length_decoded sha256 st p h fs m). unfold vec_len, envelope_frames. by rewrite length_fmap. Qed.

(** ** The payload decoder *)

Section decode.
Context (try_reserve_exact : Z -> bool) (reserve_ok : forall n, try_reserve_exact n = true).

Lemma decode_legacy_Ok frames e :
  decode_canonical_envelope sha256 try_reserve_exact frames = Ok e <->
  exists st p h fs o,
    valid_envelope st p h fs (Legacy o) /\ frames = envelope_frames sha256 st p h fs (Legacy o) /\
    e = envelope_of sha256 p h fs (Legacy o).
Proof.
  unfold decode_canonical_envelope. split.
  - intros H. dec_step H. apply decode_envelope_Ok in Hr as (st & p & h & fs & m & Hv & -> & ->); [|done..].
    destruct m as [o|]; [|done]. apply Ok_inj in H as <-. by exists st, p, h, fs, o.
  - intros (st & p & h & fs & o & Hv & -> & ->).
    assert (decode_canonical_envelope_with_terminal_marker sha256 try_reserve_exact
      (envelope_frames sha256 st p h fs (Legacy o)) = Ok (envelope_of sha256 p h fs (Legacy o))) as ->; [|done].
    apply decode_envelope_Ok; [done..|]. by exists st, p, h, fs, (Legacy o).
Qed.

(** A payload without the magic is not an envelope; one with it decodes exactly when it packs the
    frames of a valid envelope. *)
Lemma decode_payload_Ok payload e :
  decode_canonical_record_payload sha256 try_reserve_exact payload = Ok (Some e) <->
  exists st p h fs o, let fr := envelope_frames sha256 st p h fs (Legacy o) in
    valid_envelope st p h fs (Legacy o) /\ Forall (fun f => vec_len f <= MAX_ENVELOPE_BYTES) fr /\
    payload = payload_layout fr /\ e = envelope_of sha256 p h fs (Legacy o).
Proof.
  unfold decode_canonical_record_payload. split.
  - intros H. do 1 dec_step H. bools. apply starts_with_magic_spec in Hb as [r ->].
    rewrite drop_app_length in H. repeat dec_step H. apply Ok_inj in H as [= <-].
    apply unpack_frames_Ok in Hr0 as (Hn & Hf & ->).
    apply decode_legacy_Ok in Hr1 as (st & p & h & fs & o & Hv & -> & ->).
    exists st, p, h, fs, o. split; [done|]. split; [done|]. split; [|done]. unfold payload_layout. rewrite app_nil_r.
    do 3 f_equal. unfold vec_len. destruct Hr. lia.
  - intros (st & p & h & fs & o & Hv & Hf & -> & ->). set (fr := envelope_frames sha256 st p h fs (Legacy o)) in *.
    assert (vec_len fr = vec_len fs + 1) as Hlen by apply length_envelope_frames.
    pose proof (fr_count _ _ _ _ _ (ve_framable _ _ _ _ _ Hv)) as Hc.
    rewrite (proj2 (starts_with_magic_spec _)) by (by eexists). cbn [negb]. unfold payload_layout.
    rewrite drop_app_length, r_uint_app by (unfold fits, u32_max in *; cbn; lia).
    rewrite (proj2 (Z.ltb_ge _ _)) by lia.
    assert (unpack_frames (Z.to_nat (vec_len fr)) (packed_frames fr) = Ok (fr, [])) as ->.
    { apply unpack_frames_Ok. rewrite app_nil_r. split; [unfold vec_len; lia|done]. }
    cbn [r_finish].
    assert (decode_canonical_envelope sha256 try_reserve_exact fr = Ok (envelope_of sha256 p h fs (Legacy o))) as ->.
    { apply decode_legacy_Ok. by exists st, p, h, fs, o. }
    done.
Qed.

End decode.

(** ** The packed length *)

Lemma length_sealed f : wf_frame f ->
  vec_len (sealed sha256 f) = FRAME_FIXED_BYTES + vec_len (header_bytes f) + vec_len (frame_body f) + FRAME_DIGEST_BYTES.
Proof. intros Hf. unfold sealed. rewrite vec_len_app, length_frame_layout, vec_len_digest by done. done. Qed.

Section frames.
Context (st : Stamp) (p : CanonicalPhysicalRange) (h : CanonicalPreApplyHeader).
Context (fs : list CanonicalFragment) (m : CanonicalTerminalMarker).
Context (Hfr : framable st p h fs m).

Lemma lengths_fragment_frames i l :
  0 <= i -> i + vec_len l <= vec_len fs -> l ⊆ fs ->
  sum (lengths (sealed sha256 <$> fragment_frames_from sha256 st p h fs i l)) =
  frame_bytes (body_lengths l) + if (i =? 0) && negb (bool_decide (l = [])) then PREAPPLY_HEADER_BYTES else 0.
Proof.
  revert i. induction l as [|f l IH]; intros i Hi Hle Hsub.
  { cbn. by rewrite andb_false_r. }
  rewrite vec_len_cons in Hle. pose proof (vec_len_nonneg l). pose proof (fr_count _ _ _ _ _ Hfr).
  cbn [fragment_frames_from fmap list_fmap]. rewrite lengths_cons, sum_cons, IH by (lia || set_solver).
  rewrite length_sealed.
  2:{ apply (fragment_frame_wf sha256 sha256_len st p h fs m Hfr i f); [lia|set_solver|by apply length_digest]. }
  cbn [fragment_frame header_bytes frame_body].
  rewrite (proj2 (Z.eqb_neq (i + 1) 0)), (bool_decide_eq_false_2 (f :: l = [])) by (done || lia). cbn [andb negb].
  rewrite andb_true_r. change (body_lengths (f :: l)) with (vec_len (body f) :: body_lengths l).
  unfold frame_bytes. rewrite vec_len_cons, sum_cons. pose proof (fr_header _ _ _ _ _ Hfr).
  destruct (i =? 0); [rewrite length_header_layout by done|rewrite vec_len_nil]; lia.
Qed.

Lemma lengths_envelope :
  20 + 4 * vec_len (envelope_frames sha256 st p h fs m) + sum (lengths (envelope_frames sha256 st p h fs m)) =
  packed_record_bytes (footprint_of (body_lengths fs) (vec_len (marker_layout m))).
Proof.
  rewrite length_envelope_frames. unfold envelope_frames, decoded_frames. rewrite fmap_app.
  assert (forall a b, sum (lengths (a ++ b)) = sum (lengths a) + sum (lengths b)) as Happ.
  { induction a as [|x a IH]; intros b; [done|]. cbn [app]. rewrite !lengths_cons, !sum_cons, IH. lia. }
  rewrite Happ, lengths_fragment_frames by (done || lia). cbn [fmap list_fmap]. rewrite lengths_cons, sum_cons.
  rewrite length_sealed by (by apply marker_frame_wf). cbn [marker_frame header_bytes frame_body].
  pose proof (fr_count _ _ _ _ _ Hfr). rewrite bool_decide_eq_false_2
    by (intros ->; unfold vec_len in *; cbn in *; lia).
  cbn [footprint_of packed_record_bytes andb negb Z.eqb]. rewrite vec_len_body_lengths, vec_len_nil.
  unfold PACKED_FRAME_LENGTH_BYTES, PACKED_RECORD_PREFIX_BYTES. cbn [lengths fmap list_fmap sum foldr]. lia.
Qed.

Lemma frames_bounded :
  Forall (fun n => n <= MAX_FRAGMENT_BYTES) (body_lengths fs) ->
  FRAME_FIXED_BYTES + vec_len (marker_layout m) + FRAME_DIGEST_BYTES <= MAX_ENVELOPE_BYTES ->
  Forall (fun f => vec_len f <= MAX_ENVELOPE_BYTES) (envelope_frames sha256 st p h fs m).
Proof.
  unfold body_lengths. rewrite Forall_fmap, Forall_forall. intros Hb Hm. pose proof (fr_count _ _ _ _ _ Hfr).
  unfold envelope_frames. apply Forall_fmap. unfold decoded_frames. apply Forall_app. split.
  - assert (forall l i, 0 <= i -> i + vec_len l <= vec_len fs -> l ⊆ fs ->
      Forall ((fun f => vec_len f <= MAX_ENVELOPE_BYTES) ∘ sealed sha256) (fragment_frames_from sha256 st p h fs i l)) as Hl.
    { induction l as [|f l IH]; intros i Hi Hle Hsub; cbn [fragment_frames_from]; [constructor|].
      rewrite vec_len_cons in Hle. pose proof (vec_len_nonneg l).
      constructor; [|apply IH; [lia|lia|set_solver]].
      cbn [compose]. unfold compose. rewrite length_sealed.
      2:{ apply (fragment_frame_wf sha256 sha256_len st p h fs m Hfr i f); [lia|set_solver|by apply length_digest]. }
      cbn [fragment_frame header_bytes frame_body]. specialize (Hb f ltac:(set_solver)). cbn in Hb.
      pose proof (fr_header _ _ _ _ _ Hfr).
      destruct (i =? 0); [rewrite length_header_layout by done|rewrite vec_len_nil];
        unfold FRAME_FIXED_BYTES, FRAME_DIGEST_BYTES, PREAPPLY_HEADER_BYTES, MAX_FRAGMENT_BYTES, MAX_ENVELOPE_BYTES in *; lia. }
    apply Hl; [lia|lia|done].
  - constructor; [|constructor]. unfold compose. rewrite length_sealed by (by apply marker_frame_wf).
    cbn [marker_frame header_bytes frame_body]. rewrite vec_len_nil. lia.
Qed.

End frames.

(** What the encoder writes is packed at the length its footprint gives. *)
Lemma pack_encoded p h fs m root final :
  wf_physical p -> wf_header h -> wf_marker m -> encodable p h fs m ->
  let fr := envelope_frames sha256 (own_stamp h) p h fs m in
  pack_canonical_record_payload (mkEncoded fr root final h) = Ok (payload_layout fr) /\
  vec_len (payload_layout fr) = packed_record_bytes (footprint_of (body_lengths fs) (vec_len (marker_layout m))) /\
  Forall (fun f => vec_len f <= MAX_ENVELOPE_BYTES) fr.
Proof.
  intros Hp Hh Hm He fr. pose proof (encodable_framable p h fs m Hp Hh Hm He) as Hfr.
  pose proof (en_bounds _ _ _ _ He) as [Hc Hb _ Hmk Hpk].
  assert (vec_len (payload_layout fr) =
    packed_record_bytes (footprint_of (body_lengths fs) (vec_len (marker_layout m)))) as Hlen.
  { rewrite length_payload. by apply lengths_envelope. }
  assert (Forall (fun f => vec_len f <= MAX_ENVELOPE_BYTES) fr) as Hall by (by apply frames_bounded).
  split; [|done]. apply (pack_payload_Ok (mkEncoded fr root final h)); cbn [frames].
  - apply (Forall_impl _ _ _ Hall). intros f Hf. unfold MAX_ENVELOPE_BYTES, u32_max in *. lia.
  - unfold fr. rewrite length_envelope_frames. rewrite vec_len_body_lengths in Hc. lia.
  - by rewrite Hlen.
Qed.

(** The encoder's envelope is valid for the decoder when the epochs agree. *)
Lemma encodable_valid p h fs m :
  wf_physical p -> wf_header h -> wf_marker m -> encodable p h fs m -> log_epoch p = leader_epoch h ->
  valid_envelope (own_stamp h) p h fs m.
Proof. intros Hp Hh Hm He Hep. pose proof (encodable_framable p h fs m Hp Hh Hm He). by destruct He. Qed.

End packed.

End EnvelopePack.
