(* ===== verification/EnvelopeExact.v ===== *)
(** * Encoding into caller-owned buffers (crates/wal/src/canonical/exact.rs, canonical.rs)

    The encoder that writes the packed payload and the outer WAL record into two reserved buffers,
    and the prepared record sealed from them.  A buffer cell is [None] while it is uninitialised,
    as the encoder is handed [MaybeUninit] allocations; a panic (an index out of range, an
    [expect], an [assert]) or a read of an uninitialised cell is [None] in the option monad.  The
    [probe-timing] feature, off by default, is left out. *)

From stdpp Require Import base option strings list pretty.
From S2P Require Import Prelude Types Bytes Codec Canonical GenTerminal Envelope WalSegment.

Module EnvelopeExact.
Import Codec Canonical GenTerminal Envelope.

Definition INLINE_FRAGMENT_LEAVES : Z := 5.

Record ExactCanonicalRecordEncoding := mkExact {
  footprint : CanonicalWalFootprint;
  x_ordered_fragment_root : list byte;
  x_final_digest : list byte;
}.

Record CanonicalFragmentRef := mkFragmentRef {
  ref_kind : CanonicalFragmentKind;
  ref_body : list byte;
}.

(** [trait CanonicalFragmentSource]. *)
Class CanonicalFragmentSource (F : Type) := {
  source_kind : F -> CanonicalFragmentKind;
  source_body : F -> list byte;
}.

#[export] Instance fragment_source : CanonicalFragmentSource CanonicalFragment :=
  {| source_kind := kind; source_body := body |}.

#[export] Instance fragment_ref_source : CanonicalFragmentSource CanonicalFragmentRef :=
  {| source_kind := ref_kind; source_body := ref_body |}.

(** ** Buffers *)

Notation cells := (list (option byte)).

(** [expect] on a result, [u32::try_from(_).expect(_)]. *)
Definition expect {A E} (r : result A E) : option A :=
  match r with Ok a => Some a | Err _ => None end.

Definition expect_u32 (n : Z) : option Z := if n <=? u32_max then Some n else None.

(** [buffer[offset..offset + bytes.len()].copy_from_slice(bytes)]. *)
Definition splice (buffer : cells) (offset : Z) (bytes : list byte) : option cells :=
  if offset + vec_len bytes <=? vec_len buffer then
    Some (take (Z.to_nat offset) buffer ++ (Some <$> bytes) ++
          drop (Z.to_nat (offset + vec_len bytes)) buffer)
  else None.

(** [buffer[offset..].copy_from_slice(bytes)]. *)
Definition splice_tail (buffer : cells) (offset : Z) (bytes : list byte) : option cells :=
  if offset + vec_len bytes =? vec_len buffer then
    Some (take (Z.to_nat offset) buffer ++ (Some <$> bytes))
  else None.

(** The bytes of a buffer all of whose cells are initialised. *)
Definition assume_init (buffer : cells) : option (list byte) := mapM id buffer.

Definition put_u32_slice (buffer : cells) (offset value : Z) : option cells :=
  splice buffer offset (to_le_bytes 4 value).

(** ** Measuring *)

Definition measure_exact_with_lengths (physical : CanonicalPhysicalRange)
    (header : CanonicalPreApplyHeader) (fragment_count : Z) (body_len : Z -> result Z EngineError)
    (outcome : CanonicalOutcome) : result CanonicalWalFootprint EngineError :=
  if negb (operation_count header =? fragment_count) then
    Err (durability ("header operation count " +:+ pretty (operation_count header) +:+
           " does not match " +:+ pretty fragment_count +:+ " fragments"))
  else
    let? footprint := canonical_wal_footprint_by_index fragment_count body_len in
    let? _ := validate_physical physical (fp_frame_count footprint) in
    let? _ := validate_header header in
    let? _ := validate_outcome outcome in
    Ok footprint.

Definition measure_canonical_exact_buffers (physical : CanonicalPhysicalRange)
    (header : CanonicalPreApplyHeader) (fragment_body_lengths : list Z) (outcome : CanonicalOutcome)
    : result CanonicalWalFootprint EngineError :=
  measure_exact_with_lengths physical header (vec_len fragment_body_lengths)
    (fun index => Ok (at_index fragment_body_lengths index)) outcome.

Definition source_lengths {F} `{CanonicalFragmentSource F} (fragments : list F) : list Z :=
  (fun f => vec_len (source_body f)) <$> fragments.

Definition measure_canonical_exact_buffers_from_fragments (physical : CanonicalPhysicalRange)
    (header : CanonicalPreApplyHeader) (fragments : list CanonicalFragment) (outcome : CanonicalOutcome)
    : result CanonicalWalFootprint EngineError :=
  measure_exact_with_lengths physical header (vec_len fragments)
    (fun index => Ok (at_index (source_lengths fragments) index)) outcome.

Definition require_exact_buffer (actual expected : Z) (label : string) : result unit EngineError :=
  if negb (actual =? expected) then
    Err (durability (label +:+ " buffer must be exactly " +:+ pretty expected +:+ " bytes, got " +:+
           pretty actual))
  else Ok tt.

(** ** Streaming digests: the state of the hasher is the bytes fed to it *)

Definition begin_digest (domain : list byte) (first_part_len : Z) : list byte :=
  to_le_bytes 8 (vec_len domain) ++ domain ++
  (if negb (first_part_len =? 0) then to_le_bytes 8 first_part_len else []).

Definition append_part (hash part : list byte) : list byte :=
  hash ++ to_le_bytes 8 (vec_len part) ++ part.

Definition checked_mul64 (a b : Z) : option Z := if a * b <=? u64_max then Some (a * b) else None.

Section exact.
Context (sha256 : list byte -> list byte).

Section source.
Context {F : Type} `{CanonicalFragmentSource F}.

Definition fragment_leaf (header_digest : list byte) (index : Z) (fragment : F) : option (list byte) :=
  canonical_len ← checked_add64 (vec_len (source_body fragment)) 2;
  let hash := begin_digest FRAGMENT_LEAF_DOMAIN 0 in
  let hash := append_part hash header_digest in
  index ← expect_u32 index;
  let hash := append_part hash (to_le_bytes 4 index) in
  let hash := append_part hash (to_le_bytes 8 canonical_len) in
  let hash := hash ++ to_le_bytes 8 canonical_len in
  let hash := hash ++ to_le_bytes 2 (kind_code (source_kind fragment)) in
  let hash := hash ++ source_body fragment in
  Some (sha256 hash).

(** The loop of [ordered_fragment_root]. *)
Fixpoint root_loop (header_digest hash : list byte) (index : Z) (fragments : list F) : option (list byte) :=
  match fragments with
  | [] => Some hash
  | fragment :: fragments =>
      leaf ← fragment_leaf header_digest index fragment;
      canonical_len ← checked_add64 (vec_len (source_body fragment)) 2;
      i ← expect_u32 index;
      root_loop header_digest (hash ++ to_le_bytes 4 i ++ to_le_bytes 8 canonical_len ++ leaf)
        (index + 1) fragments
  end.

Definition ordered_fragment_root (header_digest : list byte) (fragments : list F) : option (list byte) :=
  bytes ← checked_mul64 (vec_len fragments) 44;
  root_material_len ← checked_add64 bytes 4;
  let hash := begin_digest FRAGMENT_ROOT_DOMAIN root_material_len in
  count ← expect_u32 (vec_len fragments);
  hash ← root_loop header_digest (hash ++ to_le_bytes 4 count) 0 fragments;
  Some (sha256 hash).

(** The loop of [ordered_fragment_root_from_leaves], over the zip of fragments and leaves. *)
Fixpoint root_loop_from_leaves (hash : list byte) (index : Z) (l : list (F * list byte)) : option (list byte) :=
  match l with
  | [] => Some hash
  | (fragment, leaf) :: l =>
      canonical_len ← checked_add64 (vec_len (source_body fragment)) 2;
      i ← expect_u32 index;
      root_loop_from_leaves (hash ++ to_le_bytes 4 i ++ to_le_bytes 8 canonical_len ++ leaf) (index + 1) l
  end.

Definition ordered_fragment_root_from_leaves (fragments : list F) (leaves : list (list byte))
    : option (list byte) :=
  bytes ← checked_mul64 (vec_len leaves) 44;
  root_material_len ← checked_add64 bytes 4;
  let hash := begin_digest FRAGMENT_ROOT_DOMAIN root_material_len in
  count ← expect_u32 (vec_len leaves);
  hash ← root_loop_from_leaves (hash ++ to_le_bytes 4 count) 0 (zip fragments leaves);
  Some (sha256 hash).

(** The loop that fills [inline_leaves]. *)
Fixpoint fill_leaves (header_digest : list byte) (index : Z) (fragments : list F)
    (inline_leaves : list (list byte)) : option (list (list byte)) :=
  match fragments with
  | [] => Some inline_leaves
  | fragment :: fragments =>
      leaf ← fragment_leaf header_digest index fragment;
      if index <? vec_len inline_leaves then
        fill_leaves header_digest (index + 1) fragments (<[Z.to_nat index := leaf]> inline_leaves)
      else None
  end.

Definition cache_leaves (header_digest : list byte) (fragments : list F)
    : option (option (list (list byte))) :=
  let inline_leaves := replicate (Z.to_nat INLINE_FRAGMENT_LEAVES) (zeros 32) in
  if vec_len fragments <=? vec_len inline_leaves then
    inline_leaves ← fill_leaves header_digest 0 fragments inline_leaves;
    Some (Some (take (length fragments) inline_leaves))
  else Some None.

(** ** Filling the buffers *)

(** The fragment loop of [write_packed_payload]: the buffer and the offset after it. *)
Fixpoint write_fragments (physical : CanonicalPhysicalRange) (header : CanonicalPreApplyHeader)
    (count : Z) (header_bytes header_digest root : list byte) (cached_leaves : option (list (list byte)))
    (packed_payload : cells) (offset index : Z) (fragments : list F) : option (cells * Z) :=
  match fragments with
  | [] => Some (packed_payload, offset)
  | fragment :: fragments =>
      frame_len ← expect (canonical_frame_encoded_len (if index =? 0 then PREAPPLY_HEADER_BYTES else 0)
        (vec_len (source_body fragment)));
      len ← expect_u32 frame_len;
      packed_payload ← put_u32_slice packed_payload offset len;
      let offset := offset + PACKED_FRAME_LENGTH_BYTES in
      i ← expect_u32 index;
      count' ← expect_u32 count;
      leaf ← match cached_leaves with
             | None => fragment_leaf header_digest index fragment
             | Some leaves => leaves !! Z.to_nat index
             end;
      frame ← expect (encode_frame_into sha256 frame_len FRAME_FRAGMENT physical header i count'
        (kind_code (source_kind fragment)) (if index =? 0 then header_bytes else [])
        (source_body fragment) header_digest root leaf);
      packed_payload ← splice packed_payload offset frame;
      write_fragments physical header count header_bytes header_digest root cached_leaves packed_payload
        (offset + frame_len) (index + 1) fragments
  end.

Definition write_packed_payload (packed_payload : cells) (physical : CanonicalPhysicalRange)
    (header : CanonicalPreApplyHeader) (fragments : list F)
    (header_bytes outcome_bytes header_digest root final_digest : list byte)
    (cached_leaves : option (list (list byte))) : option cells :=
  packed_payload ← splice packed_payload 0 RECORD_MAGIC;
  let offset := vec_len RECORD_MAGIC in
  count ← expect_u32 (vec_len fragments + 1);
  packed_payload ← put_u32_slice packed_payload offset count;
  let offset := offset + PACKED_FRAME_LENGTH_BYTES in
  '(packed_payload, offset) ← write_fragments physical header (vec_len fragments) header_bytes
    header_digest root cached_leaves packed_payload offset 0 fragments;
  marker_len ← expect (canonical_frame_encoded_len 0 CANONICAL_OUTCOME_BYTES);
  len ← expect_u32 marker_len;
  packed_payload ← put_u32_slice packed_payload offset len;
  let offset := offset + PACKED_FRAME_LENGTH_BYTES in
  count ← expect_u32 (vec_len fragments);
  marker ← expect (encode_frame_into sha256 marker_len FRAME_MARKER physical header count count 0 []
    outcome_bytes header_digest root final_digest);
  packed_payload ← splice packed_payload offset marker;
  let offset := offset + marker_len in
  if offset =? vec_len packed_payload then Some packed_payload else None.

Definition write_serialized_record (serialized_record : cells) (txn_id : Z) (packed_payload : cells)
    : option cells :=
  packed_payload ← assume_init packed_payload;
  let payload_len := vec_len packed_payload in
  let checksum := Wal.wal_record_checksum txn_id payload_len packed_payload in
  serialized_record ← splice serialized_record 0 (to_le_bytes 8 txn_id);
  serialized_record ← splice serialized_record 8 (to_le_bytes 8 payload_len);
  serialized_record ← splice serialized_record 16 (to_le_bytes 8 checksum);
  splice_tail serialized_record Wal.WAL_RECORD_HEADER_LEN packed_payload.

(** The writes after every input and both lengths have been checked. *)
Definition fill_exact_buffers (footprint : CanonicalWalFootprint) (txn_id : Z)
    (physical : CanonicalPhysicalRange) (header : CanonicalPreApplyHeader) (fragments : list F)
    (outcome : CanonicalOutcome) (packed_payload serialized_record : cells)
    : option (ExactCanonicalRecordEncoding * (cells * cells)) :=
  header_bytes ← expect (encode_header header);
  let header_digest := digest_parts sha256 PREAPPLY_DOMAIN [header_bytes] in
  cached_leaves ← cache_leaves header_digest fragments;
  root ← match cached_leaves with
         | Some leaves => ordered_fragment_root_from_leaves fragments leaves
         | None => ordered_fragment_root header_digest fragments
         end;
  outcome_bytes ← expect (encode_canonical_outcome_into_exact outcome);
  let final_digest := digest_parts sha256 FINAL_DOMAIN [header_bytes; root; outcome_bytes] in
  packed_payload ← write_packed_payload packed_payload physical header fragments header_bytes
    outcome_bytes header_digest root final_digest cached_leaves;
  serialized_record ← write_serialized_record serialized_record txn_id packed_payload;
  Some (mkExact footprint root final_digest, (packed_payload, serialized_record)).

(** The result and the two buffers, which an error leaves as they were. *)
Definition encode_canonical_record_exact_from_source (txn_id : Z) (physical : CanonicalPhysicalRange)
    (header : CanonicalPreApplyHeader) (fragments : list F) (outcome : CanonicalOutcome)
    (packed_payload serialized_record : cells)
    : option (result ExactCanonicalRecordEncoding EngineError * (cells * cells)) :=
  let checked :=
    let? footprint := measure_exact_with_lengths physical header (vec_len fragments)
      (fun index => Ok (at_index (source_lengths fragments) index)) outcome in
    let? _ := require_exact_buffer (vec_len packed_payload) (packed_record_bytes footprint)
      "packed canonical record" in
    let? _ := require_exact_buffer (vec_len serialized_record) (serialized_record_bytes footprint)
      "serialized canonical record" in
    Ok footprint in
  match checked with
  | Err e => Some (Err e, (packed_payload, serialized_record))
  | Ok footprint =>
      '(encoding, buffers) ← fill_exact_buffers footprint txn_id physical header fragments outcome
        packed_payload serialized_record;
      Some (Ok encoding, buffers)
  end.

End source.

Definition encode_canonical_record_exact_into (txn_id : Z) (physical : CanonicalPhysicalRange)
    (header : CanonicalPreApplyHeader) (fragments : list CanonicalFragment) (outcome : CanonicalOutcome)
    (packed_payload serialized_record : cells) :=
  encode_canonical_record_exact_from_source txn_id physical header fragments outcome packed_payload
    serialized_record.

Definition encode_canonical_record_exact_from_borrowed (txn_id : Z) (physical : CanonicalPhysicalRange)
    (header : CanonicalPreApplyHeader) (fragments : list CanonicalFragmentRef) (outcome : CanonicalOutcome)
    (packed_payload serialized_record : cells) :=
  encode_canonical_record_exact_from_source txn_id physical header fragments outcome packed_payload
    serialized_record.

End exact.

(** ** Prepared records *)

Record ExactCanonicalRecordAuthority := mkAuthority {
  packed_payload : list byte;
  serialized_record : list byte;
  encoding : ExactCanonicalRecordEncoding;
  a_physical : CanonicalPhysicalRange;
  a_header : CanonicalPreApplyHeader;
}.

Record PreparedCanonicalWalRecord := mkPrepared {
  record : Wal.WalRecord;
  tail : CanonicalCatalogTail;
  exact : option ExactCanonicalRecordAuthority;
}.

Definition into_prepared_record (encoded : EncodedCanonicalEnvelope) (txn_id : Z)
    : result PreparedCanonicalWalRecord EngineError :=
  let tail := header_tail (e_header encoded) in
  let? payload := pack_canonical_record_payload encoded in
  Ok (mkPrepared (Wal.mkRecord txn_id payload) tail None).

Definition seal_exact_canonical_wal_record (txn_id : Z) (physical : CanonicalPhysicalRange)
    (header : CanonicalPreApplyHeader) (encoding : ExactCanonicalRecordEncoding)
    (packed serialized : list byte) : result PreparedCanonicalWalRecord EngineError :=
  Ok (mkPrepared (Wal.mkRecord txn_id packed) (header_tail header)
        (Some (mkAuthority packed serialized encoding physical header))).

Definition exact_encoding (p : PreparedCanonicalWalRecord) : option ExactCanonicalRecordEncoding :=
  encoding <$> exact p.

Definition exact_serialized_record (p : PreparedCanonicalWalRecord) : option (list byte) :=
  serialized_record <$> exact p.

Definition exact_packed_payload (p : PreparedCanonicalWalRecord) : option (list byte) :=
  (fun _ => Wal.payload (record p)) <$> exact p.

(** An [Arc] allocation and whether it is the only handle to it. *)
Record ArcBuffer := mkArc {
  unique : bool;
  arc_cells : cells;
}.

Definition get_mut (a : ArcBuffer) : option cells := if unique a then Some (arc_cells a) else None.

Section prepare.
Context (sha256 : list byte -> list byte) (try_reserve_exact : Z -> bool).

Definition exact_authority_buffer (len : Z) (label : string) : result cells EngineError :=
  if negb (try_reserve_exact len) then
    Err (durability ("unable to reserve exact " +:+ label +:+
           " authority before replication proposal"))
  else Ok (replicate (Z.to_nat len) (Some x00)).

(** After a successful encoding the buffers are retyped as bytes and sealed. *)
Definition seal_encoded (txn_id : Z) (physical : CanonicalPhysicalRange)
    (header : CanonicalPreApplyHeader)
    (r : result ExactCanonicalRecordEncoding EngineError * (cells * cells))
    : option (result PreparedCanonicalWalRecord EngineError) :=
  match r with
  | (Err e, _) => Some (Err e)
  | (Ok encoding, (packed, serialized)) =>
      packed ← assume_init packed;
      serialized ← assume_init serialized;
      Some (seal_exact_canonical_wal_record txn_id physical header encoding packed serialized)
  end.

Definition prepare_exact_canonical_wal_record (txn_id : Z) (physical : CanonicalPhysicalRange)
    (header : CanonicalPreApplyHeader) (fragments : list CanonicalFragment) (outcome : CanonicalOutcome)
    : option (result PreparedCanonicalWalRecord EngineError) :=
  let buffers :=
    let? footprint := measure_canonical_exact_buffers_from_fragments physical header fragments outcome in
    let? packed := exact_authority_buffer (packed_record_bytes footprint) "packed canonical record" in
    let? serialized := exact_authority_buffer (serialized_record_bytes footprint)
      "serialized canonical record" in
    Ok (packed, serialized) in
  match buffers with
  | Err e => Some (Err e)
  | Ok (packed, serialized) =>
      r ← encode_canonical_record_exact_into sha256 txn_id physical header fragments outcome packed serialized;
      seal_encoded txn_id physical header r
  end.

Definition prepare_exact_canonical_wal_record_from_borrowed_buffers (txn_id : Z)
    (physical : CanonicalPhysicalRange) (header : CanonicalPreApplyHeader)
    (fragments : list CanonicalFragmentRef) (outcome : CanonicalOutcome) (packed serialized : list byte)
    : option (result PreparedCanonicalWalRecord EngineError) :=
  r ← encode_canonical_record_exact_from_borrowed sha256 txn_id physical header fragments outcome
    (Some <$> packed) (Some <$> serialized);
  seal_encoded txn_id physical header r.

Definition prepare_exact_canonical_wal_record_from_borrowed_uninit_arc_buffers (txn_id : Z)
    (physical : CanonicalPhysicalRange) (header : CanonicalPreApplyHeader)
    (fragments : list CanonicalFragmentRef) (outcome : CanonicalOutcome) (packed serialized : ArcBuffer)
    : option (result PreparedCanonicalWalRecord EngineError) :=
  match get_mut packed, get_mut serialized with
  | None, _ => Some (Err (durability "uninitialized exact packed authority must be uniquely owned"))
  | _, None => Some (Err (durability "uninitialized exact serialized authority must be uniquely owned"))
  | Some packed, Some serialized =>
      r ← encode_canonical_record_exact_from_borrowed sha256 txn_id physical header fragments outcome
        packed serialized;
      seal_encoded txn_id physical header r
  end.

End prepare.

End EnvelopeExact.
