(* ===== verification/EnvelopeExactFacts.v ===== *)
(** * The exact encoder writes what the allocating encoder writes

    Streaming digests equal the part-wise ones, writing into a buffer of the measured length
    leaves the packed frames there whatever the buffer held, and no step panics or reads an
    uninitialised cell. *)

From stdpp Require Import base option strings list sets pretty.
From S2P Require Import Prelude Types Bytes Codec Canonical CanonicalFacts GenTerminal GenTerminalFacts Envelope EnvelopeFacts EnvelopeEncode EnvelopeExact WalSegment.

Module EnvelopeExactFacts.
Import Codec Canonical CanonicalFacts GenTerminal GenTerminalFacts Envelope EnvelopeFacts EnvelopeEncode EnvelopePack EnvelopeExact.

(** ** The option monad *)

Lemma expect_Ok {A E} (a : A) : expect (@Ok A E a) = Some a.
Proof. done. Qed.

Lemma bind_Some_l {A B} (a : A) (f : A -> option B) : (Some a ≫= f) = f a.
Proof. done. Qed.

(** Go on after a step that returns. *)
Ltac step := repeat (rewrite bind_Some_l; cbv beta zeta).

(** ** Buffers *)

Lemma expect_u32_Some n : n <= u32_max -> expect_u32 n = Some n.
Proof. intros. unfold expect_u32. by rewrite (proj2 (Z.leb_le _ _)). Qed.

Lemma assume_init_Some bytes : assume_init (Some <$> bytes) = Some bytes.
Proof.
  unfold assume_init. apply mapM_Some. apply Forall2_fmap_l. apply Forall_Forall2_diag, Forall_true. done.
Qed.

(** A buffer of [n] cells whose first cells hold [done]. *)
Definition holds (n : Z) (buffer : cells) (done : list byte) : Prop :=
  vec_len buffer = n /\ exists rest, buffer = (Some <$> done) ++ rest.

Lemma vec_len_some (l : list byte) : vec_len (Some <$> l) = vec_len l.
Proof. unfold vec_len. by rewrite length_fmap. Qed.

Lemma holds_start (buffer : cells) : holds (vec_len buffer) buffer [].
Proof. split; [done|]. by exists buffer. Qed.

Lemma holds_end n buffer done : holds n buffer done -> vec_len done = n -> buffer = Some <$> done.
Proof.
  intros [Hn [rest ->]] Hd. rewrite vec_len_app, vec_len_some in Hn.
  assert (rest = []) as -> by (destruct rest; [done|rewrite vec_len_cons in Hn; pose proof (vec_len_nonneg rest); lia]).
  by rewrite app_nil_r.
Qed.

(** A write at the end of the initialised prefix extends it. *)
Lemma splice_holds n buffer done bytes :
  holds n buffer done -> vec_len done + vec_len bytes <= n ->
  exists buffer', splice buffer (vec_len done) bytes = Some buffer' /\ holds n buffer' (done ++ bytes).
Proof.
  intros [<- [rest ->]] Hle. unfold splice. rewrite (proj2 (Z.leb_le _ _)) by done. eexists. split; [done|].
  pose proof (vec_len_nonneg bytes).
  replace (Z.to_nat (vec_len done)) with (length (Some <$> done)) by (rewrite length_fmap; unfold vec_len; lia).
  rewrite take_app_length. replace (Z.to_nat (vec_len done + vec_len bytes)) with (length (Some <$> done) + length bytes)%nat
    by (rewrite length_fmap; unfold vec_len; lia).
  rewrite drop_app_add. split; [|exists (drop (length bytes) rest); rewrite fmap_app; by rewrite <- app_assoc].
  rewrite !vec_len_app, !vec_len_some in *. unfold vec_len in *. rewrite length_drop. lia.
Qed.

Lemma put_u32_holds n buffer done v :
  holds n buffer done -> vec_len done + 4 <= n ->
  exists buffer', put_u32_slice buffer (vec_len done) v = Some buffer' /\ holds n buffer' (done ++ to_le_bytes 4 v).
Proof. intros Hh Hle. apply splice_holds; [done|]. by rewrite vec_len_le_bytes. Qed.

(** ** Streaming digests *)

Section facts.
Context (sha256 : list byte -> list byte) (sha256_len : forall l, length (sha256 l) = 32%nat).
Context {F : Type} `{CanonicalFragmentSource F}.

(** The owned fragment a source stands for. *)
Definition as_fragment (f : F) : CanonicalFragment := mkFragment (source_kind f) (source_body f).

Definition as_fragments (l : list F) : list CanonicalFragment := as_fragment <$> l.

Definition small (f : F) : Prop := vec_len (source_body f) <= MAX_FRAGMENT_BYTES.

Lemma source_lengths_body l : source_lengths l = body_lengths (as_fragments l).
Proof. unfold source_lengths, body_lengths, as_fragments. by rewrite <- list_fmap_compose. Qed.

Lemma canonical_len_ok (f : F) : small f ->
  checked_add64 (vec_len (source_body f)) 2 = Some (vec_len (canonical_body (as_fragment f))).
Proof.
  intros Hs. apply checked_add64_Some. unfold small, MAX_FRAGMENT_BYTES, u64_max in *. unfold canonical_body.
  rewrite vec_len_app, vec_len_le_bytes. cbn [body as_fragment]. lia.
Qed.

Lemma fragment_leaf_ok hd i (f : F) : small f -> i <= u32_max ->
  fragment_leaf sha256 hd i f = Some (leaf_digest sha256 hd i (canonical_body (as_fragment f))).
Proof.
  intros Hs Hi. unfold fragment_leaf. rewrite canonical_len_ok by done. step.
  rewrite expect_u32_Some by done. step. f_equal. unfold leaf_digest, digest_parts. f_equal.
  unfold append_part, begin_digest, digest_part. cbn [List.flat_map negb Z.eqb]. rewrite !app_nil_r.
  unfold canonical_body at 2. cbn [kind body as_fragment].
  rewrite !vec_len_le_bytes. generalize FRAGMENT_LEAF_DOMAIN as dom. intros dom. by rewrite <- !app_assoc.
Qed.

Lemma root_loop_ok hd hash i (l : list F) :
  Forall small l -> i + vec_len l <= u32_max ->
  root_loop sha256 hd hash i l = Some (hash ++ root_entries i (leaves_from sha256 hd i (as_fragments l))).
Proof.
  revert hash i. induction l as [|f l IH]; intros hash i Hs Hi; cbn [root_loop]; [by rewrite app_nil_r|].
  inversion Hs; subst. rewrite vec_len_cons in Hi. pose proof (vec_len_nonneg l).
  rewrite fragment_leaf_ok by (done || lia). step. rewrite canonical_len_ok by done. step.
  rewrite expect_u32_Some by lia. step. rewrite IH by (done || lia). f_equal.
  cbn [as_fragments fmap list_fmap leaves_from root_entries]. unfold root_entry. by rewrite <- !app_assoc.
Qed.

Lemma length_leaves hd i l : length (leaves_from sha256 hd i l) = length l.
Proof. revert i. induction l as [|f l IH]; intros i; [done|]. cbn. by rewrite IH. Qed.

Lemma length_root_entries hd i l :
  vec_len (root_entries i (leaves_from sha256 hd i l)) = 44 * vec_len l.
Proof.
  revert i. induction l as [|f l IH]; intros i; [done|]. cbn [leaves_from root_entries]. unfold root_entry.
  rewrite !vec_len_app, IH, !vec_len_le_bytes, vec_len_cons. unfold leaf_digest. rewrite vec_len_digest by done. lia.
Qed.

(** The material of the root, hashed after its length. *)
Lemma root_digest_ok hd n (l : list CanonicalFragment) :
  n = vec_len l ->
  sha256 ((begin_digest FRAGMENT_ROOT_DOMAIN (n * 44 + 4) ++ to_le_bytes 4 n)
            ++ root_entries 0 (leaves_from sha256 hd 0 l))
  = digest_parts sha256 FRAGMENT_ROOT_DOMAIN [to_le_bytes 4 n ++ root_entries 0 (leaves_from sha256 hd 0 l)].
Proof.
  intros ->. unfold digest_parts, begin_digest, digest_part. cbn [List.flat_map]. pose proof (vec_len_nonneg l).
  rewrite (proj2 (Z.eqb_neq _ 0)) by lia. cbn [negb]. rewrite vec_len_app, length_root_entries, vec_len_le_bytes.
  replace (Z.of_nat 4 + 44 * vec_len l) with (vec_len l * 44 + 4) by lia.
  generalize FRAGMENT_ROOT_DOMAIN as dom. intros dom. rewrite app_nil_r. by rewrite <- !app_assoc.
Qed.

(** The ordered root over fragments. *)
Definition root_of (hd : list byte) (l : list CanonicalFragment) : list byte :=
  digest_parts sha256 FRAGMENT_ROOT_DOMAIN
    [to_le_bytes 4 (vec_len l) ++ root_entries 0 (leaves_from sha256 hd 0 l)].

Lemma vec_len_as_fragments (l : list F) : vec_len (as_fragments l) = vec_len l.
Proof. unfold vec_len, as_fragments. by rewrite length_fmap. Qed.

Lemma material_len n : 0 <= n <= u32_max -> checked_mul64 n 44 = Some (n * 44) /\ checked_add64 (n * 44) 4 = Some (n * 44 + 4).
Proof.
  intros Hn. split; [unfold checked_mul64; by rewrite (proj2 (Z.leb_le _ _)) by (unfold u32_max, u64_max in *; lia)|].
  apply checked_add64_Some. split; [done|]. unfold u32_max, u64_max in *. lia.
Qed.

Lemma ordered_root_ok hd (l : list F) :
  Forall small l -> vec_len l <= u32_max -> ordered_fragment_root sha256 hd l = Some (root_of hd (as_fragments l)).
Proof.
  intros Hs Hn. unfold ordered_fragment_root. pose proof (vec_len_nonneg l).
  destruct (material_len (vec_len l)) as [-> Hadd]; [lia|]. step. rewrite Hadd. step.
  rewrite expect_u32_Some by done. step. rewrite root_loop_ok by (done || lia). step. f_equal.
  unfold root_of. rewrite <- vec_len_as_fragments. by apply root_digest_ok.
Qed.

Lemma root_loop_leaves_ok hd hash i (l : list F) :
  Forall small l -> i + vec_len l <= u32_max ->
  root_loop_from_leaves hash i (zip l (leaves_from sha256 hd i (as_fragments l)).*2)
  = Some (hash ++ root_entries i (leaves_from sha256 hd i (as_fragments l))).
Proof.
  revert hash i. induction l as [|f l IH]; intros hash i Hs Hi; [cbn; by rewrite app_nil_r|].
  inversion Hs; subst. rewrite vec_len_cons in Hi. pose proof (vec_len_nonneg l).
  cbn [as_fragments fmap list_fmap leaves_from snd zip zip_with root_loop_from_leaves root_entries].
  rewrite canonical_len_ok by done. step.
  rewrite expect_u32_Some by lia. step. fold (as_fragments l). rewrite IH by (done || lia). f_equal.
  unfold root_entry. by rewrite <- !app_assoc.
Qed.

Lemma ordered_root_leaves_ok hd (l : list F) :
  Forall small l -> vec_len l <= u32_max ->
  ordered_fragment_root_from_leaves sha256 l (leaves_from sha256 hd 0 (as_fragments l)).*2
  = Some (root_of hd (as_fragments l)).
Proof.
  intros Hs Hn. unfold ordered_fragment_root_from_leaves. pose proof (vec_len_nonneg l).
  assert (vec_len (leaves_from sha256 hd 0 (as_fragments l)).*2 = vec_len l) as ->.
  { unfold vec_len, as_fragments. by rewrite length_fmap, length_leaves, length_fmap. }
  destruct (material_len (vec_len l)) as [-> Hadd]; [lia|]. step. rewrite Hadd. step.
  rewrite expect_u32_Some by done. step. rewrite root_loop_leaves_ok by (done || lia).
  step. f_equal. unfold root_of. rewrite <- vec_len_as_fragments. by apply root_digest_ok.
Qed.

(** ** Cached leaves *)

Lemma fill_leaves_ok hd (pre rest : list (list byte)) (l : list F) :
  Forall small l -> (length l <= length rest)%nat -> vec_len (pre ++ rest) <= u32_max ->
  fill_leaves sha256 hd (vec_len pre) l (pre ++ rest)
  = Some (pre ++ (leaves_from sha256 hd (vec_len pre) (as_fragments l)).*2 ++ drop (length l) rest).
Proof.
  revert pre rest. induction l as [|f l IH]; intros pre rest Hs Hle Hn; cbn [fill_leaves]; [done|].
  inversion Hs; subst. destruct rest as [|x rest]; [cbn in Hle; lia|]. cbn [length] in Hle.
  rewrite vec_len_app, vec_len_cons in Hn. pose proof (vec_len_nonneg rest).
  rewrite fragment_leaf_ok by (done || lia). step.
  rewrite vec_len_app, vec_len_cons, (proj2 (Z.ltb_lt _ _)) by lia.
  set (leaf := leaf_digest _ _ _ _).
  replace (Z.to_nat (vec_len pre)) with (length pre + 0)%nat by (unfold vec_len; lia).
  rewrite insert_app_r. cbn [insert list_insert].
  replace (pre ++ leaf :: rest) with ((pre ++ [leaf]) ++ rest) by (by rewrite <- app_assoc).
  replace (vec_len pre + 1) with (vec_len (pre ++ [leaf])) by (rewrite vec_len_app; done).
  rewrite IH by (done || lia || (rewrite !vec_len_app, vec_len_cons, vec_len_nil; lia)).
  rewrite vec_len_app. cbn [as_fragments fmap list_fmap leaves_from snd length drop].
  change (vec_len [leaf]) with 1. f_equal. by rewrite <- app_assoc.
Qed.

(** Up to five leaves are kept; they are the leaves of the fragments. *)
Lemma cache_leaves_ok hd (l : list F) :
  Forall small l ->
  cache_leaves sha256 hd l = Some (if vec_len l <=? INLINE_FRAGMENT_LEAVES
    then Some (leaves_from sha256 hd 0 (as_fragments l)).*2 else None).
Proof.
  intros Hs. unfold cache_leaves. change (vec_len (replicate _ _)) with INLINE_FRAGMENT_LEAVES.
  destruct (Z.leb_spec (vec_len l) INLINE_FRAGMENT_LEAVES) as [Hle|]; [|done].
  set (zs := replicate _ _). change (fill_leaves sha256 hd 0 l zs) with (fill_leaves sha256 hd (vec_len (@nil (list byte))) l ([] ++ zs)).
  rewrite fill_leaves_ok; [|done|change (length zs) with 5%nat; unfold vec_len, INLINE_FRAGMENT_LEAVES in Hle; lia|done].
  step. cbn [app]. do 2 f_equal. apply take_app_length'.
  unfold as_fragments. by rewrite length_fmap, length_leaves, length_fmap.
Qed.

(** ** Filling the buffers *)

Lemma frame_into_ok ty p h i n k hb b hd r l :
  let f := mkFrame ty (identity h) p (stable_transaction_id h) (commit_seq h) i n k hd r l hb b in
  wf_frame f ->
  canonical_frame_encoded_len (vec_len hb) (vec_len b) = Ok (vec_len (sealed sha256 f)) /\
  encode_frame_into sha256 (vec_len (sealed sha256 f)) ty p h i n k hb b hd r l = Ok (sealed sha256 f).
Proof.
  intros f Hwf. assert (canonical_frame_encoded_len (vec_len hb) (vec_len b) = Ok (vec_len (sealed sha256 f))) as Hlen.
  { rewrite (length_sealed sha256 sha256_len f Hwf). apply frame_len_ok; apply Hwf. }
  split; [done|]. pose proof (encode_frame_sealed sha256 ty p h i n k hb b hd r l Hwf) as He.
  unfold encode_frame in He. by rewrite Hlen in He.
Qed.

Section fill.
Context (p : CanonicalPhysicalRange) (h : CanonicalPreApplyHeader) (fs : list F) (o : CanonicalOutcome).
Local Abbreviation FS := (as_fragments fs).
Local Abbreviation hd := (envelope_header_digest sha256 h).
Local Abbreviation root := (envelope_root sha256 h FS).
Context (Hfr : framable (own_stamp h) p h FS (Legacy o)).
Context (Hfit : Forall (fun f => vec_len f <= MAX_ENVELOPE_BYTES) (envelope_frames sha256 (own_stamp h) p h FS (Legacy o))).

(** The frames from fragment [i] on. *)
Definition frames_from (i : Z) (l : list F) : list (list byte) :=
  sealed sha256 <$> fragment_frames_from sha256 (own_stamp h) p h FS i (as_fragments l).

Definition frame_at (i : Z) (f : F) : list byte :=
  sealed sha256 (fragment_frame sha256 (own_stamp h) p h FS i (as_fragment f)
    (leaf_digest sha256 hd i (canonical_body (as_fragment f)))).

Lemma frames_from_cons i f l : frames_from i (f :: l) = frame_at i f :: frames_from (i + 1) l.
Proof. reflexivity. Qed.

(** The cache, if there is one, holds the leaves of the fragments from [i] on. *)
Definition cache_ok (cached : option (list (list byte))) (i : Z) (l : list F) : Prop :=
  match cached with
  | None => True
  | Some leaves => drop (Z.to_nat i) leaves = (leaves_from sha256 hd i (as_fragments l)).*2
  end.

Lemma list_subseteq_cons_l {A} (x : A) l k : x :: l ⊆ k -> x ∈ k /\ l ⊆ k.
Proof. intros Hs. split; [apply Hs; by left|intros y Hy; apply Hs; by right]. Qed.

Lemma cache_leaf cached i f (l : list F) :
  0 <= i <= u32_max -> small f -> cache_ok cached i (f :: l) ->
  match cached with None => fragment_leaf sha256 hd i f | Some leaves => leaves !! Z.to_nat i end
  = Some (leaf_digest sha256 hd i (canonical_body (as_fragment f))) /\ cache_ok cached (i + 1) l.
Proof.
  intros Hi Hs. unfold cache_ok. destruct cached as [leaves|]; [|intros _; split; [apply fragment_leaf_ok; [done|lia]|done]].
  cbn [as_fragments fmap list_fmap leaves_from snd]. intros Hd. split.
  - rewrite <- (Nat.add_0_r (Z.to_nat i)), <- lookup_drop, Hd. done.
  - replace (Z.to_nat (i + 1)) with (Z.to_nat i + 1)%nat by lia. by rewrite <- drop_drop, Hd.
Qed.

(** The frame of fragment [i], at the length and with the bytes the layout gives. *)
Lemma fragment_into_ok i f :
  0 <= i < u32_max -> f ∈ fs ->
  let leaf := leaf_digest sha256 hd i (canonical_body (as_fragment f)) in
  canonical_frame_encoded_len (if i =? 0 then PREAPPLY_HEADER_BYTES else 0) (vec_len (source_body f))
    = Ok (vec_len (frame_at i f)) /\
  encode_frame_into sha256 (vec_len (frame_at i f)) FRAME_FRAGMENT p h i (vec_len fs) (kind_code (source_kind f))
    (if i =? 0 then header_layout 1 1 h else []) (source_body f) hd root leaf = Ok (frame_at i f).
Proof.
  intros Hi Hf leaf. rewrite <- (vec_len_as_fragments fs).
  destruct (frame_into_ok FRAME_FRAGMENT p h i (vec_len FS) (kind_code (source_kind f))
    (if i =? 0 then header_layout 1 1 h else []) (source_body f) hd root leaf) as [Hlen Henc].
  { apply (fragment_frame_wf sha256 sha256_len (own_stamp h) p h FS (Legacy o) Hfr i (as_fragment f) leaf);
      [done| |by apply length_digest].
    unfold as_fragments. by apply list_elem_of_fmap_2. }
  split; [|exact Henc]. etrans; [|exact Hlen]. f_equal.
  destruct (i =? 0); [by rewrite length_header_layout by apply Hfr|done].
Qed.

Lemma write_fragments_ok n cached buffer (done : list byte) i (l : list F) :
  0 <= i -> i + vec_len l <= vec_len fs -> l ⊆ fs -> Forall small l -> cache_ok cached i l ->
  holds n buffer done -> vec_len done + vec_len (packed_frames (frames_from i l)) <= n ->
  Forall (fun f => vec_len f <= MAX_ENVELOPE_BYTES) (frames_from i l) ->
  exists buffer',
    write_fragments sha256 p h (vec_len fs) (header_layout 1 1 h) hd root cached buffer (vec_len done) i l
    = Some (buffer', vec_len (done ++ packed_frames (frames_from i l))) /\
    holds n buffer' (done ++ packed_frames (frames_from i l)).
Proof.
  revert buffer done i. induction l as [|f l IH]; intros buffer done i Hi Hle Hsub Hs Hc Hh Hroom Hfits.
  { exists buffer. cbn. by rewrite app_nil_r. }
  inversion Hs; subst. rewrite vec_len_cons in Hle. pose proof (vec_len_nonneg l).
  pose proof (fr_count _ _ _ _ _ Hfr) as Hcount. rewrite vec_len_as_fragments in Hcount.
  destruct (cache_leaf cached i f l) as [Hleaf Hc']; [lia|done|done|].
  apply list_subseteq_cons_l in Hsub as [Hf Hsub].
  destruct (fragment_into_ok i f) as [Hlen Henc]; [lia|done|].
  rewrite frames_from_cons in *. set (frame := frame_at i f) in *. clearbody frame.
  rewrite packed_frames_cons, !vec_len_app, vec_len_le_bytes in Hroom. inversion Hfits as [|? ? Hframe Hfits']; subst.
  pose proof (vec_len_nonneg frame). pose proof (vec_len_nonneg (packed_frames (frames_from (i + 1) l))).
  cbn [write_fragments]. rewrite Hlen. rewrite expect_Ok. step.
  rewrite (expect_u32_Some (vec_len frame)) by (unfold MAX_ENVELOPE_BYTES, u32_max in *; lia). step.
  destruct (put_u32_holds n buffer done (vec_len frame)) as (b1 & -> & Hh1); [done|lia|]. step.
  rewrite (expect_u32_Some i), (expect_u32_Some (vec_len fs)) by lia. step.
  rewrite Hleaf. step. rewrite Henc. rewrite expect_Ok. step.
  replace (vec_len done + PACKED_FRAME_LENGTH_BYTES) with (vec_len (done ++ to_le_bytes 4 (vec_len frame)))
    by (by rewrite vec_len_app, vec_len_le_bytes).
  destruct (splice_holds n b1 (done ++ to_le_bytes 4 (vec_len frame)) frame) as (b2 & -> & Hh2);
    [done|rewrite vec_len_app, vec_len_le_bytes; lia|]. step. rewrite <- vec_len_app.
  destruct (IH b2 ((done ++ to_le_bytes 4 (vec_len frame)) ++ frame) (i + 1)) as (b3 & -> & Hh3);
    [lia|lia|done|done|done|done|rewrite !vec_len_app, vec_len_le_bytes; lia|done|].
  assert (done ++ packed_frames (frame :: frames_from (i + 1) l) =
    ((done ++ to_le_bytes 4 (vec_len frame)) ++ frame) ++ packed_frames (frames_from (i + 1) l)) as ->
    by (rewrite packed_frames_cons; by rewrite <- !app_assoc).
  exists b3. split; [reflexivity|exact Hh3].
Qed.

Lemma envelope_frames_split :
  envelope_frames sha256 (own_stamp h) p h FS (Legacy o)
  = frames_from 0 fs ++ [sealed sha256 (marker_frame sha256 (own_stamp h) p h FS (Legacy o))].
Proof. unfold envelope_frames, decoded_frames, frames_from. by rewrite fmap_app. Qed.

Lemma packed_frames_app a b : packed_frames (a ++ b) = packed_frames a ++ packed_frames b.
Proof. unfold packed_frames. by rewrite fmap_app, concat_app. Qed.

(** The marker frame and its length. *)
Lemma marker_into_ok :
  let marker := sealed sha256 (marker_frame sha256 (own_stamp h) p h FS (Legacy o)) in
  canonical_frame_encoded_len 0 CANONICAL_OUTCOME_BYTES = Ok (vec_len marker) /\
  encode_frame_into sha256 (vec_len marker) FRAME_MARKER p h (vec_len fs) (vec_len fs) 0 [] (outcome_layout o)
    hd root (envelope_final sha256 h FS (Legacy o)) = Ok marker.
Proof.
  intros marker. rewrite <- (vec_len_as_fragments fs).
  destruct (frame_into_ok FRAME_MARKER p h (vec_len FS) (vec_len FS) 0 [] (marker_layout (Legacy o)) hd root
    (envelope_final sha256 h FS (Legacy o))) as [Hlen Henc].
  { apply (marker_frame_wf sha256 sha256_len (own_stamp h) p h FS (Legacy o) Hfr). }
  rewrite length_marker in Hlen by apply Hfr. split; [exact Hlen|].
  unfold marker_layout in Henc. rewrite app_nil_r in Henc. cbn [marker_outcome] in Henc.
  etrans; [|etrans; [exact Henc|]]; unfold marker, marker_frame, marker_layout; cbn [marker_outcome]; by rewrite ?app_nil_r.
Qed.

Lemma length_frames_from : vec_len (frames_from 0 fs) = vec_len fs.
Proof. unfold frames_from, vec_len, as_fragments. by rewrite length_fmap, length_fragment_frames, length_fmap. Qed.

Lemma payload_split mf :
  payload_layout (frames_from 0 fs ++ [mf]) =
  ((RECORD_MAGIC ++ to_le_bytes 4 (vec_len fs + 1)) ++ packed_frames (frames_from 0 fs)) ++
    to_le_bytes 4 (vec_len mf) ++ mf /\
  vec_len (payload_layout (frames_from 0 fs ++ [mf])) =
  16 + 4 + vec_len (packed_frames (frames_from 0 fs)) + 4 + vec_len mf.
Proof.
  assert (payload_layout (frames_from 0 fs ++ [mf]) = ((RECORD_MAGIC ++ to_le_bytes 4 (vec_len fs + 1)) ++
    packed_frames (frames_from 0 fs)) ++ to_le_bytes 4 (vec_len mf) ++ mf) as Hpl.
  { unfold payload_layout. rewrite packed_frames_app, packed_frames_cons, vec_len_app, length_frames_from.
    change (packed_frames []) with (@nil byte). change (vec_len [mf]) with 1. generalize RECORD_MAGIC as rm. intros rm.
    rewrite app_nil_r. by rewrite <- !app_assoc. }
  split; [done|]. rewrite Hpl, !vec_len_app, !vec_len_le_bytes. change (vec_len RECORD_MAGIC) with 16. lia.
Qed.

(** Any buffer of the measured length ends up holding the packed payload. *)
Lemma write_packed_ok (buffer : cells) cached :
  Forall small fs -> cache_ok cached 0 fs ->
  let fr := envelope_frames sha256 (own_stamp h) p h FS (Legacy o) in
  vec_len buffer = vec_len (payload_layout fr) ->
  write_packed_payload sha256 buffer p h fs (header_layout 1 1 h) (outcome_layout o) hd root
    (envelope_final sha256 h FS (Legacy o)) cached
  = Some (Some <$> payload_layout fr).
Proof.
  intros Hs Hc fr Hlen. pose proof (fr_count _ _ _ _ _ Hfr) as Hcount.
  rewrite vec_len_as_fragments in Hcount.
  destruct marker_into_ok as [Hml Henc]. unfold fr in *. clear fr. rewrite envelope_frames_split in *.
  pose proof Hfit as Hfit'. apply Forall_app in Hfit' as [Hfit1 Hfit2].
  set (mf := sealed sha256 (marker_frame _ _ _ _ _ _)) in *. apply Forall_inv in Hfit2.
  pose proof (holds_start buffer) as Hh. rewrite Hlen in Hh. destruct (payload_split mf) as [Hpl Hn].
  rewrite Hpl in *. clear Hpl. set (n := vec_len _) in Hh, Hn.
  pose proof (vec_len_nonneg mf). pose proof (vec_len_nonneg (packed_frames (frames_from 0 fs))). clearbody n mf.
  unfold write_packed_payload.
  destruct (splice_holds n buffer [] RECORD_MAGIC) as (b1 & Hsp & Hh1); [done|change (vec_len RECORD_MAGIC) with 16; change (vec_len []) with 0; lia|].
  change (vec_len []) with 0 in Hsp. rewrite Hsp. clear Hsp. step. cbn [app].
  rewrite (expect_u32_Some (vec_len fs + 1)) by lia. step.
  destruct (put_u32_holds n b1 RECORD_MAGIC (vec_len fs + 1)) as (b2 & -> & Hh2); [done|change (vec_len RECORD_MAGIC) with 16; lia|].
  step.
  replace (vec_len RECORD_MAGIC + PACKED_FRAME_LENGTH_BYTES)
    with (vec_len (RECORD_MAGIC ++ to_le_bytes 4 (vec_len fs + 1))) by (by rewrite vec_len_app, vec_len_le_bytes).
  destruct (write_fragments_ok n cached b2 (RECORD_MAGIC ++ to_le_bytes 4 (vec_len fs + 1)) 0 fs)
    as (b3 & -> & Hh3); [done|lia|done|done|done|done| |done|].
  { rewrite vec_len_app, vec_len_le_bytes. change (vec_len RECORD_MAGIC) with 16. lia. }
  step. rewrite Hml, expect_Ok. step.
  set (front := (RECORD_MAGIC ++ _) ++ _) in *.
  assert (vec_len front = n - 4 - vec_len mf) as Hfront.
  { unfold front. rewrite !vec_len_app, vec_len_le_bytes. change (vec_len RECORD_MAGIC) with 16. lia. }
  clearbody front. rewrite (expect_u32_Some (vec_len mf)) by (unfold MAX_ENVELOPE_BYTES, u32_max in *; lia). step.
  destruct (put_u32_holds n b3 front (vec_len mf)) as (b4 & -> & Hh4); [done|lia|]. step.
  rewrite (expect_u32_Some (vec_len fs)) by lia. step. rewrite Henc, expect_Ok. step.
  replace (vec_len front + PACKED_FRAME_LENGTH_BYTES) with (vec_len (front ++ to_le_bytes 4 (vec_len mf)))
    by (by rewrite vec_len_app, vec_len_le_bytes).
  destruct (splice_holds n b4 (front ++ to_le_bytes 4 (vec_len mf)) mf) as (b5 & -> & Hh5);
    [done|rewrite vec_len_app, vec_len_le_bytes; lia|]. step.
  rewrite <- app_assoc in Hh5. pose proof (proj1 Hh5) as Hb5.
  rewrite Hb5, (proj2 (Z.eqb_eq _ _)) by (rewrite vec_len_app, vec_len_le_bytes; lia). f_equal.
  apply (holds_end n); [done|]. rewrite !vec_len_app, vec_len_le_bytes. lia.
Qed.

Lemma write_serialized_ok (buffer : cells) txn payload :
  vec_len buffer = Wal.WAL_RECORD_HEADER_LEN + vec_len payload ->
  write_serialized_record buffer txn (Some <$> payload) = Some (Some <$> Wal.encode_wal_record_parts txn payload).
Proof.
  intros Hlen. unfold write_serialized_record. rewrite assume_init_Some. step.
  set (ck := Wal.wal_record_checksum _ _ _). pose proof (holds_start buffer) as Hh. rewrite Hlen in Hh.
  set (n := Wal.WAL_RECORD_HEADER_LEN + vec_len payload) in *. pose proof (vec_len_nonneg payload).
  assert (n = 24 + vec_len payload) as Hn by done. clearbody n.
  destruct (splice_holds n buffer [] (to_le_bytes 8 txn)) as (b1 & Hs1 & Hh1); [done|rewrite vec_len_le_bytes, vec_len_nil; lia|].
  rewrite vec_len_nil in Hs1. rewrite Hs1. step. cbn [app] in Hh1.
  destruct (splice_holds n b1 _ (to_le_bytes 8 (vec_len payload)) Hh1) as (b2 & Hs2 & Hh2); [rewrite !vec_len_le_bytes; lia|].
  rewrite vec_len_le_bytes in Hs2. change (Z.of_nat 8) with 8 in Hs2. rewrite Hs2. step.
  destruct (splice_holds n b2 _ (to_le_bytes 8 ck) Hh2) as (b3 & Hs3 & Hh3); [rewrite !vec_len_app, !vec_len_le_bytes; lia|].
  rewrite vec_len_app, !vec_len_le_bytes in Hs3. change (Z.of_nat 8 + Z.of_nat 8) with 16 in Hs3. rewrite Hs3. step.
  destruct Hh3 as [Hb3 [rest ->]]. unfold splice_tail. rewrite Hb3.
  rewrite (proj2 (Z.eqb_eq _ _)) by (unfold Wal.WAL_RECORD_HEADER_LEN; lia). f_equal.
Qed.

(** ** The encoder *)

Lemma outcome_layout_fits : encode_canonical_outcome_into_exact o = Ok (outcome_layout o) <-> validate_outcome o = Ok tt.
Proof.
  pose proof (fr_marker _ _ _ _ _ Hfr) as Hwf. cbn [wf_marker] in Hwf.
  rewrite (encode_outcome_Ok o (outcome_layout o) Hwf). tauto.
Qed.

Lemma fill_exact_ok fp txn (packed serialized : cells) :
  Forall small fs -> validate_header h = Ok tt -> validate_outcome o = Ok tt ->
  let payload := payload_layout (envelope_frames sha256 (own_stamp h) p h FS (Legacy o)) in
  vec_len packed = vec_len payload -> vec_len serialized = Wal.WAL_RECORD_HEADER_LEN + vec_len payload ->
  fill_exact_buffers sha256 fp txn p h fs o packed serialized =
  Some (mkExact fp root (envelope_final sha256 h FS (Legacy o)),
        (Some <$> payload, Some <$> Wal.encode_wal_record_parts txn payload)).
Proof.
  intros Hs Hh Ho payload Hp Hser. pose proof (fr_count _ _ _ _ _ Hfr) as Hcount. rewrite vec_len_as_fragments in Hcount.
  unfold fill_exact_buffers.
  assert (encode_header h = Ok (header_layout 1 1 h)) as -> by (apply encode_header_Ok; [apply Hfr|done]).
  rewrite expect_Ok. step. fold hd. rewrite cache_leaves_ok by done. step.
  set (cached := if vec_len fs <=? INLINE_FRAGMENT_LEAVES then Some (leaves_from sha256 hd 0 FS).*2 else None).
  assert (match cached with
          | Some leaves => ordered_fragment_root_from_leaves sha256 fs leaves
          | None => ordered_fragment_root sha256 hd fs
          end = Some root) as ->.
  { unfold cached. destruct (_ <=? _); [apply ordered_root_leaves_ok|apply ordered_root_ok]; done || lia. }
  step. rewrite (proj2 outcome_layout_fits Ho), expect_Ok. step.
  assert (digest_parts sha256 FINAL_DOMAIN [header_layout 1 1 h; root; outcome_layout o]
    = envelope_final sha256 h FS (Legacy o)) as ->.
  { unfold envelope_final, marker_layout. cbn [marker_outcome]. by rewrite app_nil_r. }
  rewrite write_packed_ok by (done || unfold cached; by destruct (_ <=? _)). step. fold payload.
  rewrite write_serialized_ok by done. by step.
Qed.

End fill.

(** ** Measuring *)

Section measure.
Context (p : CanonicalPhysicalRange) (h : CanonicalPreApplyHeader) (fs : list F) (o : CanonicalOutcome).
Context (Hp : wf_physical p) (Hh : wf_header h) (Ho : wf_outcome o).
Local Abbreviation FS := (as_fragments fs).
Local Abbreviation lens := (fun index => Ok (at_index (source_lengths fs) index)).

Lemma length_legacy : vec_len (marker_layout (Legacy o)) = CANONICAL_OUTCOME_BYTES.
Proof. by rewrite length_marker. Qed.

Lemma measure_exact_Ok fp :
  measure_exact_with_lengths p h (vec_len fs) lens o = Ok fp <->
  encodable p h FS (Legacy o) /\ fp = footprint_of (body_lengths FS) CANONICAL_OUTCOME_BYTES.
Proof.
  unfold measure_exact_with_lengths, canonical_wal_footprint_by_index.
  rewrite source_lengths_body, <- (vec_len_as_fragments fs), <- (vec_len_body_lengths FS). split.
  - intros H0. repeat dec_step H0. apply Ok_inj in H0 as <-. bools.
    apply footprint_Ok in Hr as [Hbd ->]; [|apply body_lengths_nonneg|done]. split; [|done].
    cbn [footprint_of fp_frame_count] in Hr0. rewrite vec_len_body_lengths in *. rewrite <- length_legacy in Hbd.
    constructor; try done.
    unfold validate_for_header, validate_marker. by rewrite Hr2.
  - intros [[Hv Hop Hph Hmk _ Hb] ->]. rewrite length_legacy in Hb.
    rewrite footprint_total by (done || apply body_lengths_nonneg). rewrite vec_len_body_lengths, Hop, Z.eqb_refl.
    cbn [negb footprint_of fp_frame_count]. rewrite vec_len_body_lengths, Hph, Hv.
    unfold validate_for_header, validate_marker in Hmk. by destruct (validate_outcome o) as [[]|].
Qed.

Lemma require_exact_Ok a e l : require_exact_buffer a e l = Ok tt <-> a = e.
Proof. unfold require_exact_buffer. destruct (Z.eqb_spec a e); cbn; split; congruence. Qed.

Lemma encodable_small : encodable p h FS (Legacy o) -> Forall small fs.
Proof.
  intros [_ _ _ _ _ [_ Hb _ _ _]]. unfold body_lengths, as_fragments in Hb. by rewrite !Forall_fmap in Hb.
Qed.

(** The buffers have the measured lengths. *)
Definition exact_lengths (packed serialized : cells) : Prop :=
  let fp := footprint_of (body_lengths FS) CANONICAL_OUTCOME_BYTES in
  vec_len packed = packed_record_bytes fp /\ vec_len serialized = serialized_record_bytes fp.

(** With encodable inputs and buffers of the measured lengths both buffers are filled. *)
Lemma exact_accepts txn (packed serialized : cells) :
  encodable p h FS (Legacy o) -> exact_lengths packed serialized ->
  let payload := payload_layout (envelope_frames sha256 (own_stamp h) p h FS (Legacy o)) in
  encode_canonical_record_exact_from_source sha256 txn p h fs o packed serialized =
  Some (Ok (mkExact (footprint_of (body_lengths FS) CANONICAL_OUTCOME_BYTES) (envelope_root sha256 h FS)
              (envelope_final sha256 h FS (Legacy o))),
        (Some <$> payload, Some <$> Wal.encode_wal_record_parts txn payload)).
Proof.
  intros He [Hpk Hser] payload. unfold encode_canonical_record_exact_from_source.
  assert (measure_exact_with_lengths p h (vec_len fs) lens o =
    Ok (footprint_of (body_lengths FS) CANONICAL_OUTCOME_BYTES)) as -> by (by apply measure_exact_Ok).
  rewrite (proj2 (require_exact_Ok _ _ _) Hpk), (proj2 (require_exact_Ok _ _ _) Hser).
  destruct (pack_encoded sha256 sha256_len p h FS (Legacy o) (envelope_root sha256 h FS)
    (envelope_final sha256 h FS (Legacy o)) Hp Hh Ho He) as (_ & Hlen & Hfit). rewrite length_legacy in Hlen.
  pose proof (encodable_framable p h FS (Legacy o) Hp Hh Ho He) as Hfr. pose proof (encodable_small He) as Hs.
  destruct He as [Hv _ _ Hmk _ _].
  rewrite (fill_exact_ok p h fs o Hfr Hfit); [by step|done|done|by apply validate_for_header_marker in Hmk| |].
  - by rewrite Hpk, Hlen.
  - rewrite Hlen, Hser. cbn [footprint_of serialized_record_bytes packed_record_bytes]. lia.
Qed.

(** Otherwise an error is returned and neither buffer is touched. *)
Lemma exact_rejects txn (packed serialized : cells) :
  ~ (encodable p h FS (Legacy o) /\ exact_lengths packed serialized) ->
  exists e, encode_canonical_record_exact_from_source sha256 txn p h fs o packed serialized
            = Some (Err e, (packed, serialized)).
Proof.
  intros Hn. unfold encode_canonical_record_exact_from_source.
  destruct (measure_exact_with_lengths _ _ _ _ _) as [fp|e] eqn:Hm; [|by eexists].
  apply measure_exact_Ok in Hm as [He ->].
  destruct (require_exact_buffer (vec_len packed) _ _) as [[]|e] eqn:H1; [|by eexists].
  destruct (require_exact_buffer (vec_len serialized) _ _) as [[]|e] eqn:H2; [|by eexists].
  exfalso. apply require_exact_Ok in H1, H2. by apply Hn.
Qed.

End measure.

End facts.

End EnvelopeExactFacts.
