(* ===== verification/EnvelopeBinding.v ===== *)
(** * Canonical envelope: what the terminal digest binds

    Digests of length-prefixed parts determine the parts, so equal terminal digests mean equal
    headers, fragments and markers, or that among the inputs hashed for the two envelopes there
    are two distinct ones with the same SHA-256 digest. *)

From stdpp Require Import base strings list sets pretty.
From S2P Require Import Prelude Types Bytes Codec Canonical CanonicalFacts GenTerminal GenTerminalFacts Envelope EnvelopeFacts EnvelopeEncode.

Module EnvelopeBinding.
Import Codec Canonical CanonicalFacts GenTerminal GenTerminalFacts Envelope EnvelopeFacts EnvelopeEncode.

(** Two distinct inputs, one of each list, with one digest. *)
Definition collision (sha256 : list byte -> list byte) (l k : list (list byte)) : Prop :=
  exists x y, x ∈ l /\ y ∈ k /\ x <> y /\ sha256 x = sha256 y.

(** The input hashed for a domain and its parts. *)
Definition material (d : list byte) (ps : list (list byte)) : list byte :=
  digest_part d ++ List.flat_map digest_part ps.

(** ** Parts *)

Lemma le_bytes_app_inj n a b r s :
  fits n a -> fits n b -> to_le_bytes n a ++ r = to_le_bytes n b ++ s -> a = b /\ r = s.
Proof.
  intros Ha Hb H. apply app_inj_1 in H as [H ->]; [|by rewrite !length_to_le_bytes]. split; [|done].
  rewrite <- (from_to_le_bytes n a Ha), <- (from_to_le_bytes n b Hb). by rewrite H.
Qed.

Lemma digest_part_app_inj a b r s :
  fits 8 (vec_len a) -> fits 8 (vec_len b) -> digest_part a ++ r = digest_part b ++ s -> a = b /\ r = s.
Proof.
  intros Ha Hb H. unfold digest_part in H. rewrite <- !app_assoc in H.
  apply le_bytes_app_inj in H as [Hl H]; [|done..]. apply app_inj_1 in H; [done|]. unfold vec_len in Hl. lia.
Qed.

Lemma digest_material_inj ps qs :
  length ps = length qs -> Forall (fun p => fits 8 (vec_len p)) ps -> Forall (fun p => fits 8 (vec_len p)) qs ->
  List.flat_map digest_part ps = List.flat_map digest_part qs -> ps = qs.
Proof.
  revert qs. induction ps as [|p ps IH]; intros [|q qs] Hlen Hp Hq H; try done.
  inversion Hp; inversion Hq; subst. cbn [List.flat_map] in H. apply digest_part_app_inj in H as [-> H]; [|done..].
  f_equal. apply IH; [by injection Hlen|done..].
Qed.

Section binding.
Context (sha256 : list byte -> list byte) (sha256_len : forall l, length (sha256 l) = 32%nat).

Lemma digest_parts_bind d e ps qs :
  length ps = length qs -> Forall (fun p => fits 8 (vec_len p)) (d :: ps) ->
  Forall (fun p => fits 8 (vec_len p)) (e :: qs) ->
  digest_parts sha256 d ps = digest_parts sha256 e qs ->
  (d = e /\ ps = qs) \/ collision sha256 [material d ps] [material e qs].
Proof.
  intros Hlen Hp Hq H. destruct (decide (material d ps = material e qs)) as [Hm|Hm]; [left|right].
  - assert (d :: ps = e :: qs) as [= -> ->]; [|done].
    apply digest_material_inj; [by cbn; rewrite Hlen|done..].
  - exists (material d ps), (material e qs). split; [by left|]. split; [by left|done].
Qed.

Lemma collision_sub l l' k k' : l ⊆ l' -> k ⊆ k' -> collision sha256 l k -> collision sha256 l' k'.
Proof. intros Hl Hk (x & y & Hx & Hy & Hne & Heq). exists x, y. auto. Qed.

Lemma sub_cons (x : list byte) l : l ⊆ x :: l.
Proof. intros y Hy. by right. Qed.

Lemma sub_one (x : list byte) l : [x] ⊆ x :: l.
Proof. intros y Hy. apply list_elem_of_singleton in Hy as ->. by left. Qed.

(** The inputs hashed for the leaves, the root and the terminal digest of an envelope. *)
Definition leaf_material (hd : list byte) (i : Z) (f : CanonicalFragment) : list byte :=
  material FRAGMENT_LEAF_DOMAIN
    [hd; to_le_bytes 4 i; to_le_bytes 8 (vec_len (canonical_body f)); canonical_body f].

Fixpoint leaf_materials (hd : list byte) (i : Z) (fs : list CanonicalFragment) : list (list byte) :=
  match fs with
  | [] => []
  | f :: fs => leaf_material hd i f :: leaf_materials hd (i + 1) fs
  end.

Definition root_material (h : CanonicalPreApplyHeader) (fs : list CanonicalFragment) : list byte :=
  material FRAGMENT_ROOT_DOMAIN
    [to_le_bytes 4 (vec_len fs) ++ root_entries 0 (leaves_from sha256 (envelope_header_digest sha256 h) 0 fs)].

Definition final_material (h : CanonicalPreApplyHeader) (fs : list CanonicalFragment)
    (m : CanonicalTerminalMarker) : list byte :=
  material (marker_domain m) [header_layout 1 1 h; envelope_root sha256 h fs; marker_layout m].

Definition hashed_inputs (h : CanonicalPreApplyHeader) (fs : list CanonicalFragment)
    (m : CanonicalTerminalMarker) : list (list byte) :=
  final_material h fs m :: root_material h fs :: leaf_materials (envelope_header_digest sha256 h) 0 fs.

(** ** Fragments *)

Lemma kind_code_inj k k' : kind_code k = kind_code k' -> k = k'.
Proof. intros H. pose proof (decode_kind_code k) as Hk. rewrite H, decode_kind_code in Hk. by injection Hk. Qed.

Lemma canonical_body_inj f g : canonical_body f = canonical_body g -> f = g.
Proof.
  intros H. unfold canonical_body in H. apply le_bytes_app_inj in H as [Hk Hb]; [|apply kind_fits..].
  apply kind_code_inj in Hk. destruct f, g. cbn in *. by subst.
Qed.

Lemma small_part n (b : list byte) : vec_len b = n -> 0 <= n < 2 ^ 40 -> fits 8 (vec_len b).
Proof. intros -> Hn. unfold fits. cbn. lia. Qed.

Lemma canonical_body_len f : fits 4 (vec_len (body f)) -> fits 8 (vec_len (canonical_body f)).
Proof.
  intros Hf. unfold canonical_body. rewrite vec_len_app, vec_len_le_bytes. unfold fits in *. cbn in *. lia.
Qed.

Lemma leaf_parts hd i n f :
  length hd = 32%nat -> fits 4 (vec_len (body f)) ->
  Forall (fun p => fits 8 (vec_len p))
    (FRAGMENT_LEAF_DOMAIN :: [hd; to_le_bytes 4 i; to_le_bytes 8 n; canonical_body f]).
Proof.
  intros Hhd Hf. rewrite !Forall_cons, Forall_nil. split_and!; [..|done].
  - by eapply small_part.
  - eapply (small_part 32); [by apply (vec_len_length _ 32)|done].
  - eapply small_part; [apply vec_len_le_bytes|done].
  - eapply small_part; [apply vec_len_le_bytes|done].
  - by apply canonical_body_len.
Qed.

Lemma leaf_binds hd i f g :
  length hd = 32%nat -> fits 4 (vec_len (body f)) -> fits 4 (vec_len (body g)) ->
  leaf_digest sha256 hd i (canonical_body f) = leaf_digest sha256 hd i (canonical_body g) ->
  f = g \/ collision sha256 [leaf_material hd i f] [leaf_material hd i g].
Proof.
  intros Hhd Hf Hg H. apply digest_parts_bind in H as [[_ H]|]; [left|by right|done| |].
  - apply canonical_body_inj. exact (f_equal (fun l => List.nth 3 l []) H).
  - by apply leaf_parts.
  - by apply leaf_parts.
Qed.

Lemma entries_bind hd i fs gs :
  length hd = 32%nat -> 0 <= i -> i + vec_len fs < u32_max -> length fs = length gs ->
  Forall (fun f => fits 4 (vec_len (body f))) fs -> Forall (fun f => fits 4 (vec_len (body f))) gs ->
  root_entries i (leaves_from sha256 hd i fs) = root_entries i (leaves_from sha256 hd i gs) ->
  fs = gs \/ collision sha256 (leaf_materials hd i fs) (leaf_materials hd i gs).
Proof.
  intros Hhd. revert i gs. induction fs as [|f fs IH]; intros i [|g gs] Hi Hlt Hlen Hf Hg H; try done; [by left|].
  inversion Hf; inversion Hg; subst. rewrite vec_len_cons in Hlt. pose proof (vec_len_nonneg fs).
  cbn [leaves_from root_entries] in H. unfold root_entry in H. rewrite <- !app_assoc in H.
  apply app_inj_1 in H as [_ H]; [|done].
  apply app_inj_1 in H as [_ H]; [|by rewrite !length_to_le_bytes].
  apply app_inj_1 in H as [Hl H]; [|unfold leaf_digest, digest_parts; by rewrite !sha256_len].
  cbn [leaf_materials]. apply leaf_binds in Hl as [->|Hl]; [| |done..].
  - apply IH in H as [->|H]; [by left| |lia|lia|by injection Hlen|done..].
    right. eapply collision_sub; [| |exact H]; apply sub_cons.
  - right. apply (collision_sub [leaf_material hd i f] _ [leaf_material hd i g]); [apply sub_one|apply sub_one|done].
Qed.

(** ** Envelopes *)

Lemma root_binds h fs gs :
  1 <= vec_len fs < u32_max -> 1 <= vec_len gs < u32_max ->
  Forall (fun f => fits 4 (vec_len (body f))) fs -> Forall (fun f => fits 4 (vec_len (body f))) gs ->
  envelope_root sha256 h fs = envelope_root sha256 h gs ->
  fs = gs \/ collision sha256
    (root_material h fs :: leaf_materials (envelope_header_digest sha256 h) 0 fs)
    (root_material h gs :: leaf_materials (envelope_header_digest sha256 h) 0 gs).
Proof.
  intros Hf Hg Hbf Hbg H. set (hd := envelope_header_digest sha256 h) in *.
  assert (forall l, 1 <= vec_len l < u32_max ->
    fits 8 (vec_len (to_le_bytes 4 (vec_len l) ++ root_entries 0 (leaves_from sha256 hd 0 l)))) as Hlen.
  { intros l Hl. rewrite vec_len_app, vec_len_le_bytes.
    assert (forall i k, vec_len (root_entries i (leaves_from sha256 hd i k)) = 44 * vec_len k) as ->.
    { intros i k. revert i. induction k as [|f k IH]; intros i; [done|]. cbn [leaves_from root_entries]. unfold root_entry.
      rewrite !vec_len_app, IH, !vec_len_le_bytes, vec_len_cons. unfold leaf_digest. rewrite vec_len_digest by done. lia. }
    unfold fits, u32_max in *. cbn in *. lia. }
  apply digest_parts_bind in H as [[_ H]|Hcol]; [| |done| |].
  - apply (f_equal (fun l => List.nth 0 l [])) in H. cbn [List.nth] in H. apply le_bytes_app_inj in H as [Hn H]; [|unfold fits, u32_max in *; cbn; lia..].
    apply entries_bind in H as [->|Hcol]; [by left| |by apply length_digest|done|lia|unfold vec_len in *; lia|done..].
    right. eapply collision_sub; [| |exact Hcol]; apply sub_cons.
  - right. apply (collision_sub [root_material h fs] _ [root_material h gs]); [apply sub_one|apply sub_one|done].
  - constructor; [by eapply small_part|]. constructor; [by apply Hlen|constructor].
  - constructor; [by eapply small_part|]. constructor; [by apply Hlen|constructor].
Qed.

Lemma header_layout_inj h g :
  wf_header h -> wf_header g -> validate_header h = Ok tt -> validate_header g = Ok tt ->
  header_layout 1 1 h = header_layout 1 1 g -> h = g.
Proof.
  intros Hh Hg Hvh Hvg H.
  assert (decode_header (header_layout 1 1 h) = Ok h) as Hd by (apply decode_header_Ok; by eexists 1, 1).
  rewrite H in Hd.
  assert (decode_header (header_layout 1 1 g) = Ok g) as Hd' by (apply decode_header_Ok; by eexists 1, 1).
  congruence.
Qed.

Lemma marker_layout_inj m n :
  wf_marker m -> wf_marker n -> validate_marker m = Ok tt -> validate_marker n = Ok tt ->
  marker_fits m -> marker_fits n -> marker_layout m = marker_layout n -> m = n.
Proof.
  intros Hm Hn Hvm Hvn Hfm Hfn H.
  assert (decode_canonical_terminal_marker (fun _ => true) (marker_layout m) = Ok m) as Hd
    by (by apply decode_marker_Ok).
  rewrite H in Hd.
  assert (decode_canonical_terminal_marker (fun _ => true) (marker_layout n) = Ok n) as Hd'
    by (by apply decode_marker_Ok).
  congruence.
Qed.

Lemma final_parts h fs m :
  wf_header h -> fits 4 (vec_len (marker_layout m)) ->
  Forall (fun p => fits 8 (vec_len p)) (marker_domain m :: [header_layout 1 1 h; envelope_root sha256 h fs; marker_layout m]).
Proof.
  intros Hh Hm. rewrite !Forall_cons, Forall_nil. split_and!; [..|done].
  - destruct m; by eapply small_part.
  - eapply small_part; [by apply length_header_layout|done].
  - eapply small_part; [by apply vec_len_digest|done].
  - unfold fits in *; cbn in *; lia.
Qed.

(** Equal terminal digests of two valid envelopes. *)
Lemma final_binds st p h fs m st' p' h' fs' m' :
  valid_envelope st p h fs m -> valid_envelope st' p' h' fs' m' ->
  envelope_final sha256 h fs m = envelope_final sha256 h' fs' m' ->
  (h = h' /\ fs = fs' /\ m = m') \/ collision sha256 (hashed_inputs h fs m) (hashed_inputs h' fs' m').
Proof.
  intros [[_ _ Hh Hc Hb Hm Hml] _ _ Hvh Hvm Hfm] [[_ _ Hh' Hc' Hb' Hm' Hml'] _ _ Hvh' Hvm' Hfm'] H.
  apply digest_parts_bind in H as [[_ H]|Hcol]; [| |done|by apply final_parts|by apply final_parts].
  2:{ right. apply (collision_sub [final_material h fs m] _ [final_material h' fs' m']); [apply sub_one|apply sub_one|done]. }
  pose proof (f_equal (fun l => List.nth 0 l []) H) as Hhl. pose proof (f_equal (fun l => List.nth 1 l []) H) as Hr.
  pose proof (f_equal (fun l => List.nth 2 l []) H) as Hmk. cbn [List.nth] in Hhl, Hr, Hmk. clear H. apply header_layout_inj in Hhl as ->; [|done..].
  apply root_binds in Hr as [->|Hcol]; [| |done..].
  2:{ right. eapply collision_sub; [| |exact Hcol]; apply sub_cons. }
  left. split; [done|]. split; [done|].
  apply marker_layout_inj; try done; by eapply validate_for_header_marker.
Qed.

End binding.

End EnvelopeBinding.
