(* ===== verification/EnvelopeProps.v ===== *)
(** * Properties of the canonical envelope

    Round trips of envelopes and record payloads, the payloads the reader accepts, what the
    terminal digest binds, the buffers the exact encoder leaves, and the generations a table
    transition must carry. *)

From stdpp Require Import base option strings list sets pretty.
From S2P Require Import Prelude Types Bytes Codec Canonical CanonicalFacts GenTerminal GenTerminalFacts GenEvolution Envelope EnvelopeFacts EnvelopeEncode EnvelopeExact EnvelopeExactFacts EnvelopeBinding WalSegment.

Module EnvelopeProps.
Import Codec Canonical CanonicalFacts GenTerminal GenTerminalFacts GenEvolution.
Import Envelope EnvelopeFacts EnvelopeEncode EnvelopePack EnvelopeExact EnvelopeExactFacts EnvelopeBinding.

Section props.
Context (sha256 : list byte -> list byte).
Context (try_reserve_exact : Z -> bool).

(** ** Shared lemmas *)

Lemma payload_layout_inj a b :
  Forall (fun f => vec_len f <= MAX_ENVELOPE_BYTES) a -> Forall (fun f => vec_len f <= MAX_ENVELOPE_BYTES) b ->
  vec_len a <= u32_max -> vec_len b <= u32_max -> payload_layout a = payload_layout b -> a = b.
Proof.
  intros Ha Hb Hla Hlb H. unfold payload_layout in H. apply app_inv_head in H.
  apply le_bytes_app_inj in H as [Hn H];
    [|unfold fits, u32_max in *; pose proof (vec_len_nonneg a); pose proof (vec_len_nonneg b); cbn; lia..].
  assert (unpack_frames (length a) (packed_frames a ++ []) = Ok (a, [])) as Hu by (by apply unpack_frames_Ok).
  rewrite H in Hu. apply unpack_frames_Ok in Hu as (_ & _ & Hp).
  assert (unpack_frames (length a) (packed_frames b ++ []) = Ok (b, [])) as Hu'.
  { apply unpack_frames_Ok. split; [unfold vec_len in Hn; lia|done]. }
  assert (unpack_frames (length a) (packed_frames b ++ []) = Ok (a, [])) as Hu''.
  { rewrite <- H. by apply unpack_frames_Ok. }
  congruence.
Qed.

Lemma envelope_frames_inj (sha256_len : forall l, length (sha256 l) = 32%nat) st p h fs m st' p' h' fs' m' :
  framable st p h fs m -> framable st' p' h' fs' m' -> validate_header h = Ok tt -> validate_header h' = Ok tt ->
  envelope_frames sha256 st p h fs m = envelope_frames sha256 st' p' h' fs' m' -> p = p' /\ h = h'.
Proof.
  intros Hf Hf' Hv Hv' H. pose proof (decoded_frames_Ok sha256 sha256_len st p h fs m Hf) as Hd.
  rewrite H, (decoded_frames_Ok sha256 sha256_len st' p' h' fs' m' Hf') in Hd. apply Ok_inj in Hd.
  pose proof (fr_count _ _ _ _ _ Hf) as Hc. pose proof (fr_count _ _ _ _ _ Hf') as Hc'.
  destruct fs as [|f fs]; [unfold vec_len in Hc; cbn in Hc; lia|].
  destruct fs' as [|f' fs']; [unfold vec_len in Hc'; cbn in Hc'; lia|].
  pose proof (f_equal (fun l => default p (frame_physical <$> head l)) Hd) as Hp.
  pose proof (f_equal (fun l => default [] (header_bytes <$> head l)) Hd) as Hh. clear Hd H.
  change (p' = p) in Hp. change (header_layout (st_min_reader st') (st_max_reader st') h' =
    header_layout (st_min_reader st) (st_max_reader st) h) in Hh. split; [done|].
  pose proof (fr_stamp _ _ _ _ _ Hf) as []. pose proof (fr_stamp _ _ _ _ _ Hf') as [].
  assert (decode_header (header_layout (st_min_reader st) (st_max_reader st) h) = Ok h) as Hd1.
  { apply decode_header_Ok. pose proof (fr_header _ _ _ _ _ Hf). by eexists _, _. }
  assert (decode_header (header_layout (st_min_reader st') (st_max_reader st') h') = Ok h') as Hd2.
  { apply decode_header_Ok. pose proof (fr_header _ _ _ _ _ Hf'). by eexists _, _. }
  congruence.
Qed.

(** From here on allocations succeed. *)
Context (sha256_len : forall l, length (sha256 l) = 32%nat).
Context (reserve_ok : forall n, try_reserve_exact n = true).

Lemma reference_payload p h fs o :
  wf_physical p -> wf_header h -> wf_outcome o -> encodable p h fs (Legacy o) ->
  exists enc, encode_canonical_envelope sha256 p h fs o = Ok enc /\
    e_ordered_fragment_root enc = envelope_root sha256 h fs /\
    e_final_digest enc = envelope_final sha256 h fs (Legacy o) /\
    pack_canonical_record_payload enc
      = Ok (payload_layout (envelope_frames sha256 (own_stamp h) p h fs (Legacy o))) /\
    vec_len (payload_layout (envelope_frames sha256 (own_stamp h) p h fs (Legacy o)))
      = packed_record_bytes (footprint_of (body_lengths fs) CANONICAL_OUTCOME_BYTES).
Proof.
  intros Hp Hh Ho He. eexists. split; [by apply encode_accepts|]. split; [done|]. split; [done|].
  destruct (pack_encoded sha256 sha256_len p h fs (Legacy o) (envelope_root sha256 h fs)
    (envelope_final sha256 h fs (Legacy o)) Hp Hh Ho He) as (Hpk & Hlen & _).
  rewrite (length_legacy o Ho) in Hlen. done.
Qed.

(** The reference encoder gives a payload, and the buffers have its length and that of its
    record. *)
Definition reference_fits {F} `{CanonicalFragmentSource F} p h (fs : list F) o (packed serialized : cells) : Prop :=
  exists enc payload,
    encode_canonical_envelope sha256 p h (as_fragments fs) o = Ok enc /\
    pack_canonical_record_payload enc = Ok payload /\
    vec_len packed = vec_len payload /\
    vec_len serialized = Wal.WAL_RECORD_HEADER_LEN + vec_len payload.

Lemma reference_fits_encodable {F} `{CanonicalFragmentSource F} p h (fs : list F) o packed serialized :
  wf_physical p -> wf_header h -> wf_outcome o -> reference_fits p h fs o packed serialized ->
  encodable p h (as_fragments fs) (Legacy o) /\ exact_lengths fs packed serialized.
Proof.
  intros Hp Hh Ho (enc & payload & Henc & Hpk & Hl1 & Hl2).
  pose proof Henc as Henc0. apply encode_envelope_Ok in Henc0 as [He _]; [|done..]. split; [done|].
  destruct (reference_payload p h (as_fragments fs) o Hp Hh Ho He) as (enc' & Henc' & _ & _ & Hpk' & Hlen).
  rewrite Henc' in Henc. apply Ok_inj in Henc as <-. rewrite Hpk' in Hpk. apply Ok_inj in Hpk as <-.
  split; [by rewrite Hl1|]. rewrite Hl2, Hlen. cbn [footprint_of serialized_record_bytes packed_record_bytes]. lia.
Qed.

(** The exact encoder fills both buffers or leaves both. *)
Lemma exact_outcome {F} `{CanonicalFragmentSource F} txn p h (fs : list F) o packed serialized :
  wf_physical p -> wf_header h -> wf_outcome o ->
  (encodable p h (as_fragments fs) (Legacy o) /\ exact_lengths fs packed serialized /\
   encode_canonical_record_exact_from_source sha256 txn p h fs o packed serialized =
   let payload := payload_layout (envelope_frames sha256 (own_stamp h) p h (as_fragments fs) (Legacy o)) in
   Some (Ok (mkExact (footprint_of (body_lengths (as_fragments fs)) CANONICAL_OUTCOME_BYTES)
               (envelope_root sha256 h (as_fragments fs)) (envelope_final sha256 h (as_fragments fs) (Legacy o))),
         (Some <$> payload, Some <$> Wal.encode_wal_record_parts txn payload))) \/
  (~ (encodable p h (as_fragments fs) (Legacy o) /\ exact_lengths fs packed serialized) /\
   exists e, encode_canonical_record_exact_from_source sha256 txn p h fs o packed serialized
             = Some (Err e, (packed, serialized))).
Proof.
  intros Hp Hh Ho.
  destruct (measure_exact_with_lengths p h (vec_len fs) (fun index => Ok (at_index (source_lengths fs) index)) o)
    as [fp|e] eqn:Hm.
  - apply measure_exact_Ok in Hm as [He ->]; [|done..].
    destruct (decide (vec_len packed = packed_record_bytes (footprint_of (body_lengths (as_fragments fs)) CANONICAL_OUTCOME_BYTES)
      /\ vec_len serialized = serialized_record_bytes (footprint_of (body_lengths (as_fragments fs)) CANONICAL_OUTCOME_BYTES))) as [Hl|Hl].
    + left. split; [done|]. split; [done|]. by apply exact_accepts.
    + right. assert (~ (encodable p h (as_fragments fs) (Legacy o) /\ exact_lengths fs packed serialized)) as Hn by (by intros [_ ?]).
      split; [done|]. by apply exact_rejects.
  - right. assert (~ (encodable p h (as_fragments fs) (Legacy o) /\ exact_lengths fs packed serialized)) as Hn.
    { intros [He _]. assert (measure_exact_with_lengths p h (vec_len fs) (fun index => Ok (at_index (source_lengths fs) index)) o
        = Ok (footprint_of (body_lengths (as_fragments fs)) CANONICAL_OUTCOME_BYTES)) as Hm' by (by apply measure_exact_Ok).
      congruence. }
    split; [done|]. by apply exact_rejects.
Qed.

(** ** Properties *)

(** [C23] An envelope the encoder accepts, with a legacy or a generation marker, is decoded from its
    frames to the same range, header, fragments and marker with the root and terminal digest the
    encoder reported, provided the physical log epoch is the leader epoch of the header and the
    allocations of the decoder succeed. *)
Theorem envelope_round_trip p h fs m enc :
  wf_physical p -> wf_header h -> wf_marker m -> log_epoch p = leader_epoch h ->
  encode_canonical_envelope_with_terminal_marker sha256 p h fs m = Ok enc ->
  decode_canonical_envelope_with_terminal_marker sha256 try_reserve_exact (frames enc)
  = Ok (mkEnvelope p h fs m (marker_outcome m) (e_ordered_fragment_root enc) (e_final_digest enc)).
Proof.
  intros Hp Hh Hm Hep H. apply encode_envelope_Ok in H as [He ->]; [|done..].
  apply decode_envelope_Ok; [done..|]. exists (own_stamp h), p, h, fs, m.
  split; [by apply encodable_valid|]. split; [done|done].
Qed.

(** [C25] A packed record payload has exactly the length its footprint predicts and decodes to the
    envelope it was packed from when the physical log epoch is the leader epoch of the header;
    when the epochs differ the encoder still accepts and packs the envelope, and the reader
    rejects the payload.  Allocations of the decoder succeed. *)
Theorem record_payload_round_trip p h fs o enc :
  wf_physical p -> wf_header h -> wf_outcome o ->
  encode_canonical_envelope sha256 p h fs o = Ok enc ->
  exists payload fp,
    pack_canonical_record_payload enc = Ok payload /\
    canonical_wal_footprint (body_lengths fs) = Ok fp /\ vec_len payload = packed_record_bytes fp /\
    (log_epoch p = leader_epoch h ->
     decode_canonical_record_payload sha256 try_reserve_exact payload
     = Ok (Some (mkEnvelope p h fs (Legacy o) o (e_ordered_fragment_root enc) (e_final_digest enc)))) /\
    (log_epoch p <> leader_epoch h ->
     exists e, decode_canonical_record_payload sha256 try_reserve_exact payload = Err e).
Proof.
  intros Hp Hh Ho H. apply encode_envelope_Ok in H as [He ->]; [|done..].
  destruct (pack_encoded sha256 sha256_len p h fs (Legacy o) (envelope_root sha256 h fs)
    (envelope_final sha256 h fs (Legacy o)) Hp Hh Ho He) as (Hpk & Hlen & Hfit).
  rewrite (length_legacy o Ho) in Hlen.
  exists (payload_layout (envelope_frames sha256 (own_stamp h) p h fs (Legacy o))),
    (footprint_of (body_lengths fs) CANONICAL_OUTCOME_BYTES).
  split; [done|]. split; [|split; [done|split]].
  - apply footprint_total; [apply body_lengths_nonneg|done|]. rewrite <- (length_legacy o Ho). apply He.
  - intros Hep. apply decode_payload_Ok; [done..|]. exists (own_stamp h), p, h, fs, o.
    split; [by apply encodable_valid|done].
  - intros Hep. destruct (decode_canonical_record_payload _ _ _) as [[e|]|err] eqn:Hd; [| |by eexists].
    + exfalso. apply decode_payload_Ok in Hd as (st & p' & h' & fs' & o' & Hv & Hfit' & Heq & _); [|done..].
      pose proof (encodable_framable p h fs (Legacy o) Hp Hh Ho He) as Hfr.
      pose proof (fr_count _ _ _ _ _ Hfr). pose proof (fr_count _ _ _ _ _ (ve_framable _ _ _ _ _ Hv)).
      apply payload_layout_inj in Heq; [|done|done|rewrite length_envelope_frames; lia..].
      apply envelope_frames_inj in Heq as [-> ->]; [|done|done|apply Hv|apply He|apply Hv].
      by apply Hep, Hv.
    + exfalso. unfold decode_canonical_record_payload in Hd.
      rewrite (proj2 (starts_with_magic_spec _)) in Hd by (by eexists). cbn [negb] in Hd. by repeat dec_step Hd.
Qed.


(** [C27] Two envelopes accepted by the decoder with the same terminal digest have the same header,
    fragments and terminal marker, unless two different inputs among those hashed for them (their
    leaves, roots and terminal digests) have the same SHA-256 digest.  Allocations of the decoder
    succeed. *)
Theorem terminal_digest_binds frames1 frames2 e1 e2 :
  decode_canonical_envelope_with_terminal_marker sha256 try_reserve_exact frames1 = Ok e1 ->
  decode_canonical_envelope_with_terminal_marker sha256 try_reserve_exact frames2 = Ok e2 ->
  final_digest e1 = final_digest e2 ->
  (header e1 = header e2 /\ fragments e1 = fragments e2 /\ terminal_marker e1 = terminal_marker e2) \/
  collision sha256 (hashed_inputs sha256 (header e1) (fragments e1) (terminal_marker e1))
    (hashed_inputs sha256 (header e2) (fragments e2) (terminal_marker e2)).
Proof.
  intros H1 H2 Heq.
  apply decode_envelope_Ok in H1 as (st & p & h & fs & m & Hv & _ & ->); [|done..].
  apply decode_envelope_Ok in H2 as (st' & p' & h' & fs' & m' & Hv' & _ & ->); [|done..].
  exact (final_binds sha256 sha256_len _ _ _ _ _ _ _ _ _ _ Hv Hv' Heq).
Qed.

(** [C28] The exact encoder never panics and never reads an uninitialised cell.  It succeeds exactly
    when the allocating encoder succeeds on the same inputs and the two buffers have the lengths of
    the packed payload and of its outer record; it then reports the same root and terminal digest
    and leaves, whatever the buffers held, the packed payload in one and its WAL record in the
    other.  On an error neither buffer has changed. *)
Theorem exact_encoder_is_reference {F} `{CanonicalFragmentSource F} txn p h (fs : list F) o packed serialized :
  wf_physical p -> wf_header h -> wf_outcome o ->
  exists r buffers,
    encode_canonical_record_exact_from_source sha256 txn p h fs o packed serialized = Some (r, buffers) /\
    match r with
    | Ok x => exists enc payload,
        encode_canonical_envelope sha256 p h (as_fragments fs) o = Ok enc /\
        pack_canonical_record_payload enc = Ok payload /\
        vec_len packed = vec_len payload /\
        vec_len serialized = Wal.WAL_RECORD_HEADER_LEN + vec_len payload /\
        x_ordered_fragment_root x = e_ordered_fragment_root enc /\
        x_final_digest x = e_final_digest enc /\
        packed_record_bytes (footprint x) = vec_len payload /\
        buffers = (Some <$> payload, Some <$> Wal.encode_wal_record_parts txn payload)
    | Err _ =>
        buffers = (packed, serialized) /\
        ~ reference_fits p h fs o packed serialized
    end.
Proof.
  intros Hp Hh Ho. destruct (exact_outcome txn p h fs o packed serialized Hp Hh Ho) as [(He & Hl & Hok)|(Hn & e & Herr)].
  - eexists _, _. split; [exact Hok|]. destruct (reference_payload p h (as_fragments fs) o Hp Hh Ho He) as (enc & Henc & Hr & Hf & Hpk & Hlen).
    exists enc, (payload_layout (envelope_frames sha256 (own_stamp h) p h (as_fragments fs) (Legacy o))).
    destruct Hl as [Hl1 Hl2]. split; [done|]. split; [done|]. rewrite Hlen, Hr, Hf. split; [done|]. split; [|done].
    rewrite Hl2. cbn [footprint_of serialized_record_bytes packed_record_bytes]. lia.
  - eexists _, _. split; [exact Herr|]. split; [done|]. intros Hfits. by apply Hn, reference_fits_encodable.
Qed.

(** A prepared record sealed from uninitialised allocations reads no uninitialised cell.  When it
    is built, its WAL record and catalog tail are those of the record packed from the allocating
    encoder, and the outer bytes it carries are the serialization of that WAL record.  It is built
    whenever both allocations are uniquely owned, the allocating encoder accepts the inputs and the
    allocations have the lengths of its payload and of the record. *)
Theorem prepared_record_is_reference txn p h (fs : list CanonicalFragmentRef) o packed serialized :
  wf_physical p -> wf_header h -> wf_outcome o ->
  exists r,
    prepare_exact_canonical_wal_record_from_borrowed_uninit_arc_buffers sha256 txn p h fs o packed serialized
    = Some r /\
    match r with
    | Ok prepared => exists enc reference,
        encode_canonical_envelope sha256 p h (as_fragments fs) o = Ok enc /\
        into_prepared_record enc txn = Ok reference /\
        record prepared = record reference /\ EnvelopeExact.tail prepared = EnvelopeExact.tail reference /\
        exact_packed_payload prepared = Some (Wal.payload (record prepared)) /\
        exact_serialized_record prepared = Some (Wal.encode_record (record prepared))
    | Err _ =>
        unique packed = false \/ unique serialized = false \/
        ~ reference_fits p h fs o (arc_cells packed) (arc_cells serialized)
    end.
Proof.
  intros Hp Hh Ho. unfold prepare_exact_canonical_wal_record_from_borrowed_uninit_arc_buffers.
  unfold get_mut. destruct (unique packed); [|eexists; split; [done|by left]].
  destruct (unique serialized); [|eexists; split; [by cbn|by right; left]].
  unfold encode_canonical_record_exact_from_borrowed.
  destruct (exact_outcome txn p h fs o (arc_cells packed) (arc_cells serialized) Hp Hh Ho) as [(He & _ & ->)|(Hn & e & ->)].
  2:{ eexists. split; [done|]. right; right. intros Hfits. by apply Hn, reference_fits_encodable. }
  destruct (reference_payload p h (as_fragments fs) o Hp Hh Ho He) as (enc & Henc & _ & _ & Hpk & _).
  cbv zeta. step. unfold seal_encoded. rewrite !assume_init_Some. step. eexists. split; [done|].
  exists enc. unfold into_prepared_record. rewrite Hpk. eexists. split; [done|]. split; [done|].
  split; [done|]. apply encode_envelope_Ok in Henc as [_ ->]; [|done..]. split; [done|]. split; [done|].
  cbn [exact_serialized_record exact fmap option_fmap option_map serialized_record]. by f_equal.
Qed.

End props.

(** [C29] For a transition whose sides are well formed, the evolution check accepts exactly the
    transitions in which every prior generation precedes the commit sequence, the table keeps its
    generation when its facts are unchanged and takes the commit sequence otherwise, and each
    final index does the same with respect to the prior index of the same identity: the one-pass
    merge of the ordered index vectors agrees with a lookup per index. *)
Theorem generation_evolution_exact t commit_sequence :
  validate_basic t = Ok tt ->
  validate_generation_evolution t commit_sequence = Ok tt <-> evolves t commit_sequence.
Proof. apply evolution_exact. Qed.

(** ** Witnesses *)

(** A stand-in for SHA-256: the last 32 bytes, reversed and padded. *)
Definition toy_sha (l : list byte) : list byte := take 32 (rev l ++ zeros 32).

Lemma toy_sha_len l : length (toy_sha l) = 32%nat.
Proof. unfold toy_sha, zeros. rewrite length_take, length_app, length_replicate. lia. Qed.

Definition digest_of (b : byte) : list byte := replicate 32 b.

Definition sample_identity : CanonicalIdentity :=
  mkIdentity (replicate 16 x01) (replicate 16 x02) (replicate 16 x03) 1.

Definition sample_header : CanonicalPreApplyHeader :=
  mkPreApply sample_identity 7 42 9 (digest_of x0a) ReadCommitted 0 3 4 (digest_of x0b) (digest_of x0c) 2 1 100.

Definition sample_range (epoch : Z) : CanonicalPhysicalRange := mkPhysical epoch 0 5 12.

Definition sample_fragments : list CanonicalFragment :=
  [mkFragment RowMutation [x61; x62; x63]; mkFragment TransactionClaimStatus []].

Definition sample_refs : list CanonicalFragmentRef :=
  [mkFragmentRef RowMutation [x61; x62; x63]; mkFragmentRef TransactionClaimStatus []].

Definition sample_outcome : CanonicalOutcome :=
  mkOutcome CommitSuccess 1 None 0 (digest_of x0d) (digest_of x0e).

Definition sample_before : GenerationTableSideV1 :=
  mkSide 40 (digest_of x21) 3
    [mkIndex 1 (digest_of x31) 40 (digest_of x41); mkIndex 2 (digest_of x32) 39 (digest_of x42);
     mkIndex 5 (digest_of x35) 38 (digest_of x45)].

(** Index 1 is dropped, 2 unchanged, 3 new, 5 changed. *)
Definition sample_after : GenerationTableSideV1 :=
  mkSide 42 (digest_of x22) 4
    [mkIndex 2 (digest_of x32) 39 (digest_of x42); mkIndex 3 (digest_of x33) 42 (digest_of x43);
     mkIndex 5 (digest_of x35) 42 (digest_of x46)].

Definition sample_transition : GenerationTableTransitionV1 :=
  mkTransition Rebuild 8 (Some sample_before) (Some sample_after).

Definition sample_marker : CanonicalTerminalMarker :=
  GenerationV1 sample_outcome
    (mkDescriptor PrebuiltResolved (digest_of x51) 3 (digest_of x0b) 4 (digest_of x0c) 9 42
       (digest_of x52) (digest_of x53) [sample_transition]).

Definition encoded_or_empty (r : result EncodedCanonicalEnvelope EngineError) : EncodedCanonicalEnvelope :=
  match r with Ok enc => enc | Err _ => mkEncoded [] [] [] sample_header end.

Definition sample_generation_encoded : EncodedCanonicalEnvelope :=
  encoded_or_empty
    (encode_canonical_envelope_with_terminal_marker toy_sha (sample_range 7) sample_header sample_fragments sample_marker).

Definition sample_encoded (epoch : Z) : EncodedCanonicalEnvelope :=
  encoded_or_empty (encode_canonical_envelope toy_sha (sample_range epoch) sample_header sample_fragments sample_outcome).

Ltac wf_solve :=
  repeat first [ assumption | match goal with |- fits _ _ => vm_compute; split; [discriminate|reflexivity] end
               | reflexivity | discriminate | constructor | intros ].

Lemma sample_range_wf epoch : fits 8 epoch -> wf_physical (sample_range epoch).
Proof. intros. unfold wf_physical. wf_solve. Qed.

Lemma sample_header_wf : wf_header sample_header.
Proof. wf_solve. Qed.

Lemma sample_outcome_wf : wf_outcome sample_outcome.
Proof. wf_solve. Qed.

Lemma sample_marker_wf : wf_marker sample_marker.
Proof. split; [apply sample_outcome_wf|]. wf_solve. Qed.

Lemma envelope_round_trip_witness :
  decode_canonical_envelope_with_terminal_marker toy_sha (fun _ => true) (frames sample_generation_encoded)
  = Ok (mkEnvelope (sample_range 7) sample_header sample_fragments sample_marker sample_outcome
          (e_ordered_fragment_root sample_generation_encoded) (e_final_digest sample_generation_encoded)).
Proof.
  apply (envelope_round_trip toy_sha (fun _ => true) toy_sha_len (fun _ => eq_refl) (sample_range 7) sample_header
    sample_fragments sample_marker sample_generation_encoded).
  - apply sample_range_wf. vm_compute. split; [discriminate|reflexivity].
  - apply sample_header_wf.
  - apply sample_marker_wf.
  - reflexivity.
  - vm_compute. reflexivity.
Defined.

Definition sample_payload (epoch : Z) : list byte :=
  match pack_canonical_record_payload (sample_encoded epoch) with Ok payload => payload | Err _ => [] end.

Definition sample_envelope : CanonicalEnvelope :=
  mkEnvelope (sample_range 7) sample_header sample_fragments (Legacy sample_outcome) sample_outcome
    (e_ordered_fragment_root (sample_encoded 7)) (e_final_digest (sample_encoded 7)).

(** The log epoch 7 of the leader is read back, the epoch 8 is packed and rejected. *)
Lemma record_payload_round_trip_witness :
  (exists payload, pack_canonical_record_payload (sample_encoded 7) = Ok payload /\
     decode_canonical_record_payload toy_sha (fun _ => true) payload = Ok (Some sample_envelope)) /\
  (exists payload e, pack_canonical_record_payload (sample_encoded 8) = Ok payload /\
     decode_canonical_record_payload toy_sha (fun _ => true) payload = Err e).
Proof.
  split.
  - destruct (record_payload_round_trip toy_sha (fun _ => true) toy_sha_len (fun _ => eq_refl) (sample_range 7)
      sample_header sample_fragments sample_outcome (sample_encoded 7)) as (payload & fp & Hp & _ & _ & Hd & _).
    + apply sample_range_wf. vm_compute. split; [discriminate|reflexivity].
    + apply sample_header_wf.
    + apply sample_outcome_wf.
    + vm_compute. reflexivity.
    + exists payload. split; [exact Hp|exact (Hd eq_refl)].
  - destruct (record_payload_round_trip toy_sha (fun _ => true) toy_sha_len (fun _ => eq_refl) (sample_range 8)
      sample_header sample_fragments sample_outcome (sample_encoded 8)) as (payload & fp & Hp & _ & _ & _ & Hd).
    + apply sample_range_wf. vm_compute. split; [discriminate|reflexivity].
    + apply sample_header_wf.
    + apply sample_outcome_wf.
    + vm_compute. reflexivity.
    + destruct (Hd ltac:(discriminate)) as [e He]. exists payload, e. split; [exact Hp|exact He].
Defined.


(** The same transaction at two physical places. *)
Definition moved_encoded : EncodedCanonicalEnvelope :=
  encoded_or_empty (encode_canonical_envelope toy_sha (mkPhysical 7 3 6 99) sample_header sample_fragments sample_outcome).

Definition moved_envelope : CanonicalEnvelope :=
  mkEnvelope (mkPhysical 7 3 6 99) sample_header sample_fragments (Legacy sample_outcome) sample_outcome
    (e_ordered_fragment_root moved_encoded) (e_final_digest moved_encoded).

Lemma terminal_digest_binds_witness :
  frames (sample_encoded 7) <> frames moved_encoded /\
  ((header sample_envelope = header moved_envelope /\ fragments sample_envelope = fragments moved_envelope /\
    terminal_marker sample_envelope = terminal_marker moved_envelope) \/
   collision toy_sha (hashed_inputs toy_sha sample_header sample_fragments (Legacy sample_outcome))
     (hashed_inputs toy_sha sample_header sample_fragments (Legacy sample_outcome))).
Proof.
  split; [vm_compute; discriminate|].
  apply (terminal_digest_binds toy_sha (fun _ => true) toy_sha_len (fun _ => eq_refl) (frames (sample_encoded 7))
    (frames moved_encoded) sample_envelope moved_envelope); vm_compute; reflexivity.
Defined.

Definition fresh_cells (n : Z) : cells := replicate (Z.to_nat n) None.

Definition sample_cells : cells := fresh_cells (vec_len (sample_payload 7)).
Definition sample_record_cells : cells := fresh_cells (24 + vec_len (sample_payload 7)).

Lemma sample_reference_fits :
  reference_fits toy_sha (sample_range 7) sample_header sample_refs sample_outcome sample_cells sample_record_cells.
Proof. exists (sample_encoded 7), (sample_payload 7). repeat split; vm_compute; reflexivity. Qed.

Lemma exact_encoder_is_reference_witness :
  exists x, encode_canonical_record_exact_from_source toy_sha 9 (sample_range 7) sample_header sample_refs
      sample_outcome sample_cells sample_record_cells
    = Some (Ok x, (Some <$> sample_payload 7, Some <$> Wal.encode_wal_record_parts 9 (sample_payload 7))).
Proof.
  destruct (exact_encoder_is_reference toy_sha toy_sha_len 9 (sample_range 7) sample_header sample_refs sample_outcome
    sample_cells sample_record_cells) as (r & buffers & Hr & Hrest).
  - apply sample_range_wf. vm_compute. split; [discriminate|reflexivity].
  - apply sample_header_wf.
  - apply sample_outcome_wf.
  - destruct r as [x|e]; [|destruct Hrest as [_ Hn]; destruct (Hn sample_reference_fits)].
    destruct Hrest as (enc & payload & Henc & Hpk & _ & _ & _ & _ & _ & ->). exists x. rewrite Hr.
    assert (encode_canonical_envelope toy_sha (sample_range 7) sample_header (as_fragments sample_refs) sample_outcome
      = Ok (sample_encoded 7)) as Henc' by (vm_compute; reflexivity).
    rewrite Henc' in Henc. apply Ok_inj in Henc as <-.
    assert (pack_canonical_record_payload (sample_encoded 7) = Ok (sample_payload 7)) as Hpk' by (vm_compute; reflexivity).
    rewrite Hpk' in Hpk. by apply Ok_inj in Hpk as <-.
Defined.

Lemma prepared_record_is_reference_witness :
  exists prepared,
    prepare_exact_canonical_wal_record_from_borrowed_uninit_arc_buffers toy_sha 9 (sample_range 7) sample_header
      sample_refs sample_outcome (mkArc true sample_cells) (mkArc true sample_record_cells) = Some (Ok prepared) /\
    exact_serialized_record prepared = Some (Wal.encode_record (record prepared)).
Proof.
  destruct (prepared_record_is_reference toy_sha toy_sha_len 9 (sample_range 7) sample_header sample_refs sample_outcome
    (mkArc true sample_cells) (mkArc true sample_record_cells)) as (r & Hr & Hrest).
  - apply sample_range_wf. vm_compute. split; [discriminate|reflexivity].
  - apply sample_header_wf.
  - apply sample_outcome_wf.
  - destruct r as [prepared|e].
    + exists prepared. split; [exact Hr|]. by destruct Hrest as (enc & ref & _ & _ & _ & _ & _ & Hs).
    + destruct Hrest as [|[|Hn]]; [done|done|]. destruct (Hn sample_reference_fits).
Defined.

Lemma generation_evolution_exact_witness : evolves sample_transition 42.
Proof. apply (generation_evolution_exact sample_transition 42); vm_compute; reflexivity. Defined.

End EnvelopeProps.
