(* ===== verification/Effects.v ===== *)
(** * Effects: state, errors, panics and waiting

    The monad in which the stateful code of the WAL buffer is written.  A computation reads and
    writes a state; it ends with a [Result], panics, or waits on a condition variable for another
    thread.  [wp] is its weakest precondition: the code does not panic, and if it does not wait
    it ends in a state that satisfies the postcondition. *)

From stdpp Require Import base list option.
From S2P Require Import Prelude.

Module Effects.

Inductive exec (S E A : Type) : Type :=
| Panic
| Wait
| Done (s : S) (r : result A E).
Arguments Panic {S E A}.
Arguments Wait {S E A}.
Arguments Done {S E A} s r.

Definition M (S E A : Type) : Type := S -> exec S E A.

Section monad.
Context {S E : Type}.

Definition ret {A} (a : A) : M S E A := fun s => Done s (Ok a).

Definition throw {A} (e : E) : M S E A := fun s => Done s (Err e).

Definition panic {A} : M S E A := fun _ => Panic.

Definition wait {A} : M S E A := fun _ => Wait.

Definition get : M S E S := fun s => Done s (Ok s).

Definition modify (f : S -> S) : M S E unit := fun s => Done (f s) (Ok tt).

(** The [?] operator: an error ends the computation, keeping what it did to the state. *)
Definition bind {A B} (m : M S E A) (f : A -> M S E B) : M S E B := fun s =>
  match m s with
  | Panic => Panic
  | Wait => Wait
  | Done s (Ok a) => f a s
  | Done s (Err e) => Done s (Err e)
  end.

(** Run [m] and look at its [Result]. *)
Definition attempt {A} (m : M S E A) : M S E (result A E) := fun s =>
  match m s with
  | Panic => Panic
  | Wait => Wait
  | Done s r => Done s (Ok r)
  end.

Definition of_result {A} (r : result A E) : M S E A := fun s => Done s r.

(** [Option::expect]. *)
Definition expect {A} (o : option A) : M S E A :=
  match o with Some a => ret a | None => panic end.

(** [assert!]. *)
Definition assert (b : bool) : M S E unit := if b then ret tt else panic.

End monad.

(** [Result::map_err]. *)
Definition map_err {S E E' A} (f : E -> E') (m : M S E A) : M S E' A := fun s =>
  match m s with
  | Panic => Panic
  | Wait => Wait
  | Done s (Ok a) => Done s (Ok a)
  | Done s (Err e) => Done s (Err (f e))
  end.

(** Run a computation on a part of the state. *)
Definition zoom {S T E A} (part : T -> S) (put : S -> T -> T) (m : M S E A) : M T E A := fun t =>
  match m (part t) with
  | Panic => Panic
  | Wait => Wait
  | Done s r => Done (put s t) r
  end.

Declare Scope effect_scope.
Delimit Scope effect_scope with eff.
Global Open Scope effect_scope.

Notation "'let!' x := m 'in' k" := (bind m (fun x => k))
  (at level 10, x pattern, m at level 100, k at level 200) : effect_scope.

Notation "m ;; k" := (bind m (fun _ => k)) (at level 100, k at level 200, right associativity)
  : effect_scope.

Definition wp {S E A} (m : M S E A) (Q : S -> result A E -> Prop) (s : S) : Prop :=
  match m s with
  | Panic => False
  | Wait => True
  | Done s r => Q s r
  end.

Lemma wp_bind {S E A B} (m : M S E A) (f : A -> M S E B) Q s :
  wp (bind m f) Q s <->
  wp m (fun s r => match r with Ok a => wp (f a) Q s | Err e => Q s (Err e) end) s.
Proof. unfold wp, bind. by destruct (m s) as [| |s' [a|e]]. Qed.

Lemma wp_mono {S E A} (m : M S E A) (Q Q' : S -> result A E -> Prop) s :
  wp m Q s -> (forall s' r, Q s' r -> Q' s' r) -> wp m Q' s.
Proof. unfold wp. destruct (m s); auto. Qed.

Lemma wp_ret {S E A} (a : A) (Q : S -> result A E -> Prop) s : Q s (Ok a) -> wp (ret a) Q s.
Proof. done. Qed.

Lemma wp_throw {S E A} (e : E) (Q : S -> result A E -> Prop) s : Q s (Err e) -> wp (throw e) Q s.
Proof. done. Qed.

Lemma wp_get {S E} (Q : S -> result S E -> Prop) s : Q s (Ok s) -> wp get Q s.
Proof. done. Qed.

Lemma wp_modify {S E} f (Q : S -> result unit E -> Prop) s : Q (f s) (Ok tt) -> wp (modify f) Q s.
Proof. done. Qed.

Lemma wp_of_result {S E A} (r : result A E) (Q : S -> result A E -> Prop) s :
  Q s r -> wp (of_result r) Q s.
Proof. done. Qed.

Lemma wp_attempt {S E A} (m : M S E A) (Q : S -> result (result A E) E -> Prop) s :
  wp m (fun s r => Q s (Ok r)) s -> wp (attempt m) Q s.
Proof. unfold wp, attempt. by destruct (m s). Qed.

Lemma wp_map_err {S E E' A} (f : E -> E') (m : M S E A) (Q : S -> result A E' -> Prop) s :
  wp m (fun s r => Q s (match r with Ok a => Ok a | Err e => Err (f e) end)) s -> wp (map_err f m) Q s.
Proof. unfold wp, map_err. by destruct (m s) as [| |s' [a|e]]. Qed.

Lemma wp_zoom {S T E A} (part : T -> S) put (m : M S E A) (Q : T -> result A E -> Prop) t :
  wp m (fun s r => Q (put s t) r) (part t) -> wp (zoom part put m) Q t.
Proof. unfold wp, zoom. by destruct (m (part t)). Qed.

Lemma wp_expect {S E A} (o : option A) a (Q : S -> result A E -> Prop) s :
  o = Some a -> Q s (Ok a) -> wp (expect o) Q s.
Proof. by intros ->. Qed.

Lemma wp_assert {S E} b (Q : S -> result unit E -> Prop) s : b = true -> Q s (Ok tt) -> wp (assert b) Q s.
Proof. by intros ->. Qed.

(** What a run gives is what its weakest precondition says. *)
Lemma wp_Done {S E A} (m : M S E A) Q s s' r : m s = Done s' r -> wp m Q s -> Q s' r.
Proof. unfold wp. by intros ->. Qed.

(** One step of a weakest precondition. *)
Ltac wp_step :=
  lazymatch goal with
  | |- wp (bind _ _) _ _ => apply wp_bind
  | |- wp (ret _) _ _ => apply wp_ret
  | |- wp (throw _) _ _ => apply wp_throw
  | |- wp get _ _ => apply wp_get
  | |- wp (modify _) _ _ => apply wp_modify
  | |- wp (of_result _) _ _ => apply wp_of_result
  | |- wp (map_err _ _) _ _ => apply wp_map_err
  | |- wp (attempt _) _ _ => apply wp_attempt
  | |- wp (zoom _ _ _) _ _ => apply wp_zoom
  | |- wp wait _ _ => exact I
  end.

End Effects.
