(* ===== verification/Disk.v ===== *)
(** * Files that survive a crash

    The part of the operating system the WAL buffer relies on.  A file is what the kernel holds
    of it and the number of leading bytes that are certainly on the device: [fsync] raises that
    number to the length, a write at an offset lowers it to the offset.  A created, renamed or
    removed name is certain only once its directory is synced; until then a crash may still find
    what the name held before.  Each call may fail as the [faults] of the world say, a write after
    having transferred a part. *)

From stdpp Require Import base gmap strings list pretty.
From S2P Require Import Prelude Types Bytes Text Paths Effects.

Module Disk.
Import Text Paths Effects.

(** [synced] bytes are certain to be on the disk; [exact] says that the contents and the length
    both are, and nothing was changed since. *)
Record Inode := mkNode { data : list byte; synced : Z; exact : bool }.

Abbreviation mkInode d n := (mkNode d n false).

Record OsFault := mkOsFault { os_error : string; transferred : Z }.

(** [faults] lists the outcomes of the coming calls; calls beyond the list succeed. *)
Record World := mkWorld {
  names : gmap Path Inode;
  unsynced_names : gmap Path (list (option Inode));
  faults : list (option OsFault);
}.

(** ** Crashes *)

(** What a crash may find under a name. *)
Definition versions (w : World) (p : Path) : list (option Inode) :=
  names w !! p :: default [] (unsynced_names w !! p).

(** Only the synced prefix of a file is certain, unless all of it is. *)
Definition survives (v : option Inode) (found : option (list byte)) : Prop :=
  match v, found with
  | None, None => True
  | Some i, Some d => take (Z.to_nat (synced i)) d = take (Z.to_nat (synced i)) (data i) /\ (exact i = true -> d = data i)
  | _, _ => False
  end.

Definition crash (w : World) (fs : Fs) : Prop :=
  forall p, exists v, v ∈ versions w p /\ survives v (fs !! p).

(** The files as a running process sees them. *)
Definition visible (w : World) : Fs := data <$> names w.

(** ** Files *)

Definition overwrite (l : list byte) (offset : Z) (bytes : list byte) : list byte :=
  let n := Z.to_nat offset in
  take n (l ++ replicate (n - length l) x00) ++ bytes ++ drop (n + length bytes) l.

Definition write_inode (i : Inode) (offset : Z) (bytes : list byte) : Inode :=
  mkInode (overwrite (data i) offset bytes) (Z.min (synced i) offset).

Definition resize (l : list byte) (n : Z) : list byte :=
  take (Z.to_nat n) l ++ replicate (Z.to_nat n - length l) x00.

Definition set_names (w : World) (m : gmap Path Inode) : World :=
  mkWorld m (unsynced_names w) (faults w).

Definition set_inode (w : World) (p : Path) (i : Inode) : World := set_names w (<[p := i]> (names w)).

(** The name [p] now holds [v], which is not certain yet. *)
Definition set_name (w : World) (p : Path) (v : option Inode) : World :=
  mkWorld (partial_alter (fun _ => v) p (names w))
    (<[p := versions w p]> (unsynced_names w)) (faults w).

Notation IO := (M World string).

(** The outcome of the next call. *)
Definition next_fault : IO (option OsFault) := fun w =>
  match faults w with
  | [] => Done w (Ok None)
  | f :: fs => Done (mkWorld (names w) (unsynced_names w) fs) (Ok f)
  end.

(** A call without effect on failure. *)
Definition fallible : IO unit :=
  let! f := next_fault in
  match f with
  | Some f => throw (os_error f)
  | None => ret tt
  end.

(** [File::create]. *)
Definition create (p : Path) : IO unit :=
  fallible ;;
  modify (fun w =>
    match names w !! p with
    | Some i => set_inode w p (mkInode [] 0)
    | None => set_name w p (Some (mkInode [] 0))
    end).

(** [OpenOptions::open] without [create]. *)
Definition open (p : Path) : IO unit :=
  fallible ;;
  let! w := get in
  match names w !! p with
  | Some _ => ret tt
  | None => throw not_found
  end.

(** [write_all] or [write_all_at] at [offset] on an open file; a closed or unlinked handle does
    not occur in the sources. *)
Definition write_all_at (p : Path) (offset : Z) (bytes : list byte) : IO unit :=
  let! f := next_fault in
  let! w := get in
  match names w !! p, f with
  | None, _ => throw not_found
  | Some i, None => modify (fun w => set_inode w p (write_inode i offset bytes))
  | Some i, Some f =>
      modify (fun w => set_inode w p (write_inode i offset (take (Z.to_nat (transferred f)) bytes))) ;;
      throw (os_error f)
  end.

Definition file_len (w : World) (p : Path) : Z :=
  match names w !! p with Some i => vec_len (data i) | None => 0 end.

(** [write_all] at the end of a file that is only appended to. *)
Definition append_all (p : Path) (bytes : list byte) : IO unit :=
  let! w := get in
  write_all_at p (file_len w p) bytes.

(** [sync_all] and [sync_data]. *)
Definition sync_file (p : Path) : IO unit :=
  fallible ;;
  let! w := get in
  match names w !! p with
  | Some i => modify (fun w => set_inode w p (mkNode (data i) (vec_len (data i)) true))
  | None => throw not_found
  end.

(** [File::set_len]. *)
Definition set_len (p : Path) (n : Z) : IO unit :=
  fallible ;;
  let! w := get in
  match names w !! p with
  | Some i => modify (fun w => set_inode w p (mkInode (resize (data i) n) (Z.min (synced i) n)))
  | None => throw not_found
  end.

(** [fs::rename]. *)
Definition rename (from to : Path) : IO unit :=
  fallible ;;
  let! w := get in
  match names w !! from with
  | Some i => modify (fun w => set_name (set_name w to (Some i)) from None)
  | None => throw not_found
  end.

(** [fs::remove_file], its result discarded. *)
Definition remove_file (p : Path) : IO unit := fun w =>
  match attempt (fallible ;; modify (fun w => if names w !! p then set_name w p None else w)) w with
  | Done w _ => Done w (Ok tt)
  | Panic => Panic
  | Wait => Wait
  end.

(** [fs::remove_file]. *)
Definition unlink (p : Path) : IO unit :=
  fallible ;;
  let! w := get in
  match names w !! p with
  | Some _ => modify (fun w => set_name w p None)
  | None => throw not_found
  end.

(** [fs::read_to_string]. *)
Definition read_string (p : Path) : IO string :=
  fallible ;;
  let! w := get in
  of_result (read_to_string (visible w) p).

(** [sync_all] on an open directory: the names in it are certain. *)
Definition in_directory (d p : Path) : bool := bool_decide (parent p = Some d).

Definition sync_dir (d : Path) : IO unit :=
  fallible ;;
  modify (fun w =>
    mkWorld (names w) (filter (fun kv => in_directory d kv.1 = false) (unsynced_names w)) (faults w)).

(** ** Lemmas *)

Lemma overwrite_prefix l offset bytes k :
  0 <= k <= offset -> k <= vec_len l ->
  take (Z.to_nat k) (overwrite l offset bytes) = take (Z.to_nat k) l.
Proof.
  intros Hk Hl. unfold overwrite, vec_len in *. rewrite take_app_le by (rewrite length_take, length_app, length_replicate; lia).
  rewrite take_take, Nat.min_l by lia. by rewrite take_app_le by lia.
Qed.

Lemma overwrite_at l offset bytes :
  0 <= offset <= vec_len l ->
  overwrite l offset bytes
  = take (Z.to_nat offset) l ++ bytes ++ drop (Z.to_nat offset + length bytes) l.
Proof. intros. unfold overwrite, vec_len in *. by rewrite take_app_le by lia. Qed.

Lemma length_overwrite l offset bytes :
  0 <= offset <= vec_len l -> vec_len (overwrite l offset bytes) = Z.max (vec_len l) (offset + vec_len bytes).
Proof.
  intros. rewrite overwrite_at by done. unfold vec_len in *.
  rewrite !length_app, length_take, length_drop. lia.
Qed.

(** A write split in two. *)
Lemma overwrite_overwrite l offset a b :
  0 <= offset <= vec_len l ->
  overwrite (overwrite l offset a) (offset + vec_len a) b = overwrite l offset (a ++ b).
Proof.
  intros. rewrite !overwrite_at by (rewrite ?length_overwrite by done; unfold vec_len in *; lia).
  unfold vec_len in *.
  replace (Z.to_nat (offset + Z.of_nat (length a))) with (length (take (Z.to_nat offset) l ++ a))
    by (rewrite length_app, length_take; lia).
  rewrite !(app_assoc (take (Z.to_nat offset) l) a), take_app_length, <- !app_assoc. do 3 f_equal.
  rewrite app_assoc, drop_app_ge by lia. rewrite drop_drop, !length_app, length_take. f_equal. lia.
Qed.

Lemma overwrite_nil l offset : 0 <= offset <= vec_len l -> overwrite l offset [] = l.
Proof. intros. rewrite overwrite_at by done. cbn. by rewrite Nat.add_0_r, take_drop. Qed.

Lemma versions_set_inode w p i q :
  versions (set_inode w p i) q
  = if decide (p = q) then Some i :: default [] (unsynced_names w !! q) else versions w q.
Proof. unfold versions, set_inode. cbn. case_decide; [subst; by rewrite lookup_insert_eq|by rewrite lookup_insert_ne]. Qed.

Lemma versions_set_name w p v q :
  versions (set_name w p v) q = if decide (p = q) then v :: versions w q else versions w q.
Proof.
  unfold versions, set_name. cbn. case_decide.
  - subst. by rewrite lookup_partial_alter_eq, lookup_insert_eq.
  - by rewrite lookup_partial_alter_ne, lookup_insert_ne by done.
Qed.

End Disk.
