(* ===== verification/Identity.v ===== *)
(** * The durable identity anchor (crates/wal/src/identity.rs)

    The control file beside a log that names the one database, cluster and timeline its canonical
    records belong to: how it is written, read and required, and the scan that finds the identity
    of a run of records.  [pid] is the process id in the names of temporary files. *)

From stdpp Require Import base gmap strings list pretty.
From Stdlib Require Import Strings.Ascii.
From S2P Require Import Prelude Types Bytes Text Paths Effects Disk Sidecar WalSegment Uuid Codec Canonical GenTerminal Envelope.

Module Identity.
Import Text Paths Effects Disk Sidecar Canonical Envelope.

(** A call of the operating system whose error becomes a durability error. *)
Definition os {A} (message : string -> string) (m : IO A) : M World EngineError A :=
  map_err (fun err => Durability (message err)) m.

(** [create_wal_dir_all]: directories are not part of the model, so its only effect is that it
    may fail; the fault carries its message. *)
Definition create_wal_dir_all (path : Path) : M World EngineError unit := os id fallible.

(** [parent().filter(|p| !p.as_os_str().is_empty())]. *)
Definition nonempty_parent (path : Path) : option Path :=
  match parent path with
  | Some d => if is_empty d then None else Some d
  | None => None
  end.

Definition sync_segment_parent_dir (segment_path : Path) : M World EngineError unit :=
  match nonempty_parent segment_path with
  | None => ret tt
  | Some d =>
      os (fun err => "failed to open WAL segment directory for fsync " +:+ display d +:+ ": " +:+ err)
        fallible ;;
      os (fun err => "failed to fsync WAL segment directory " +:+ display d +:+ ": " +:+ err)
        (sync_dir d)
  end.

Definition IDENTITY_MAGIC : string := "GPUDBIDENTITY2".

Definition durable_identity_path (base : Path) : Path :=
  with_file_name base (default "wal.segment" (file_name base) +:+ ".identity").

(** [encode_id] writes each byte with [{byte:02x}]. *)
Definition encode_id (id : list byte) : string := hex id.

Definition decode_id (raw : string) (path : Path) : result (list byte) EngineError :=
  let invalid := Durability ("invalid durable identity in " +:+ display path) in
  if negb (str_len raw =? 32) || negb (all_chars is_ascii_hexdigit raw) then Err invalid
  else ok_or (Uuid.decode_pairs (as_bytes raw)) invalid.

Section sha256.
Context (sha256 : list byte -> list byte) (pid : Z).

Definition identity_body (identity : CanonicalIdentity) : string :=
  append_sha256_trailer sha256
    (IDENTITY_MAGIC +:+ newline +:+
     "database_id=" +:+ encode_id (database_id identity) +:+ newline +:+
     "cluster_id=" +:+ encode_id (cluster_id identity) +:+ newline +:+
     "timeline_id=" +:+ encode_id (timeline_id identity) +:+ newline +:+
     "format_epoch=" +:+ pretty (format_epoch identity) +:+ newline).

Definition write_durable_identity (base : Path) (identity : CanonicalIdentity)
    : M World EngineError unit :=
  let path := durable_identity_path base in
  (match nonempty_parent path with
   | Some d => create_wal_dir_all d
   | None => ret tt
   end) ;;
  let temp := temporary_control_path pid path in
  let! write := attempt
    (os (fun err => "failed to create durable identity " +:+ display temp +:+ ": " +:+ err) (create temp) ;;
     os (fun err => "failed to write durable identity " +:+ display temp +:+ ": " +:+ err)
       (append_all temp (as_bytes (identity_body identity))) ;;
     os (fun err => "failed to sync durable identity " +:+ display temp +:+ ": " +:+ err) (sync_file temp) ;;
     os (fun err => "failed to install durable identity " +:+ display path +:+ ": " +:+ err)
       (rename temp path) ;;
     sync_segment_parent_dir path) in
  match write with
  | Ok _ => ret tt
  | Err e => os id (remove_file temp) ;; throw e
  end.

(** The fields of an anchor, from its text. *)
Definition parse_identity (body : string) (path : Path) : result CanonicalIdentity EngineError :=
  if negb (bool_decide (head (lines body) = Some IDENTITY_MAGIC)) then
    Err (Durability ("invalid durable identity header " +:+ display path))
  else
    let? verified := verify_sha256_trailer sha256 body path in
    let ls := lines verified in
    let? raw := parse_control_value (ls !! 1%nat) "database_id" path in
    let? database_id := decode_id raw path in
    let? raw := parse_control_value (ls !! 2%nat) "cluster_id" path in
    let? cluster_id := decode_id raw path in
    let? raw := parse_control_value (ls !! 3%nat) "timeline_id" path in
    let? timeline_id := decode_id raw path in
    let? raw := parse_control_value (ls !! 4%nat) "format_epoch" path in
    match parse_u64 raw with
    | Err err =>
        Err (Durability ("invalid durable identity format epoch " +:+ display path +:+ ": " +:+
               IntErrorKind_to_string err))
    | Ok format_epoch =>
        if bool_decide (is_Some (ls !! 5%nat)) || Codec.all_zero database_id ||
           Codec.all_zero cluster_id || Codec.all_zero timeline_id || (format_epoch =? 0) then
          Err (Durability ("invalid durable identity fields " +:+ display path))
        else Ok (mkIdentity database_id cluster_id timeline_id format_epoch)
    end.

Definition read_durable_identity (base : Path) : M World EngineError (option CanonicalIdentity) :=
  let path := durable_identity_path base in
  let! body := map_err (fun err => Durability err) (attempt (read_string path)) in
  match body with
  | Err err =>
      if bool_decide (err = not_found) then ret None
      else throw (Durability ("failed to read durable identity " +:+ display path +:+ ": " +:+ err))
  | Ok body => let! identity := of_result (parse_identity body path) in ret (Some identity)
  end.

Definition belongs_to_another (base : Path) : EngineError :=
  Durability ("durable identity anchor beside " +:+ display base +:+
              " belongs to another database/timeline").

Definition require_durable_identity (base : Path) (identity : CanonicalIdentity)
    : M World EngineError unit :=
  let! existing := read_durable_identity base in
  match existing with
  | Some existing => if bool_decide (existing = identity) then ret tt else throw (belongs_to_another base)
  | None =>
      throw (Durability ("canonical WAL exists beside " +:+ display base +:+
                         " but its durable identity anchor is missing"))
  end.

Definition check_or_install_durable_identity (base : Path) (identity : CanonicalIdentity)
    : M World EngineError unit :=
  let! existing := read_durable_identity base in
  match existing with
  | Some existing =>
      if bool_decide (existing = identity) then sync_segment_parent_dir (durable_identity_path base)
      else throw (belongs_to_another base)
  | None => write_durable_identity base identity
  end.

(** ** The identity of a run of records *)

Context (try_reserve_exact : Z -> bool).

Definition many_identities : EngineError :=
  Durability "canonical WAL records span multiple durable identities".

(** The loop over the records, from the identity known so far. *)
Fixpoint identity_through (identity : option CanonicalIdentity) (records : list Wal.WalRecord)
    : result (option CanonicalIdentity) EngineError :=
  match records with
  | [] => Ok identity
  | record :: records =>
      let? envelope := decode_canonical_record_payload sha256 try_reserve_exact (Wal.payload record) in
      match envelope with
      | None => identity_through identity records
      | Some envelope =>
          let found := Canonical.identity (header envelope) in
          match identity with
          | None => identity_through (Some found) records
          | Some expected =>
              if bool_decide (expected = found) then identity_through identity records
              else Err many_identities
          end
      end
  end.

Definition bind_or_install_durable_identity (base : Path) (records : list Wal.WalRecord)
    : M World EngineError unit :=
  let! identity := of_result (identity_through None records) in
  match identity with
  | None => ret tt
  | Some identity => check_or_install_durable_identity base identity
  end.

End sha256.

End Identity.
