(* ===== verification/WalCore.v ===== *)
(** * The durable core of a WAL buffer (crates/wal/src/buffer.rs, WalDurableCore; lib.rs)

    The append-only segment file behind a serial WAL buffer: creation, preallocation, the
    recorded tail, and the rewriting of a segment.  A file handle is the path it is open on: the
    sources close it before the name is given to another file.  [chunk] is the preallocation
    chunk that [wal_prealloc_chunk_bytes] reads from the environment. *)

From stdpp Require Import base gmap strings list pretty.
From S2P Require Import Prelude Types Bytes Text Paths Effects Disk Sidecar WalSegment Canonical Envelope Identity.

Module WalCore.
Import Text Paths Canonical Sidecar Effects Disk Identity.

(** ** State *)

Record WalGroupCommitStats := mkStats {
  flush_groups : Z;
  durable_records : Z;
  max_group_size : Z;
}.

Record WalDurableState := mkState {
  file : option Path;
  prealloc_bytes : Z;
  durable_bytes : Z;
  flushed_records : Z;
  segment_base_records : Z;
  tail_offset_recorded : Z;
  io_in_flight : bool;
  poisoned : option string;
  stats : WalGroupCommitStats;
}.

Record WalDurableCore := mkCore {
  segment_path : Path;
  state : WalDurableState;
  fixed_poison : Poison.DurabilityPoison;
}.

Definition set_file (s : WalDurableState) (f : option Path) : WalDurableState :=
  mkState f (prealloc_bytes s) (durable_bytes s) (flushed_records s) (segment_base_records s)
    (tail_offset_recorded s) (io_in_flight s) (poisoned s) (stats s).

Definition set_prealloc_bytes (s : WalDurableState) (n : Z) : WalDurableState :=
  mkState (file s) n (durable_bytes s) (flushed_records s) (segment_base_records s)
    (tail_offset_recorded s) (io_in_flight s) (poisoned s) (stats s).

Definition set_durable_bytes (s : WalDurableState) (n : Z) : WalDurableState :=
  mkState (file s) (prealloc_bytes s) n (flushed_records s) (segment_base_records s)
    (tail_offset_recorded s) (io_in_flight s) (poisoned s) (stats s).

Definition set_flushed_records (s : WalDurableState) (n : Z) : WalDurableState :=
  mkState (file s) (prealloc_bytes s) (durable_bytes s) n (segment_base_records s)
    (tail_offset_recorded s) (io_in_flight s) (poisoned s) (stats s).

Definition set_segment_base_records (s : WalDurableState) (n : Z) : WalDurableState :=
  mkState (file s) (prealloc_bytes s) (durable_bytes s) (flushed_records s) n
    (tail_offset_recorded s) (io_in_flight s) (poisoned s) (stats s).

Definition set_tail_offset_recorded (s : WalDurableState) (n : Z) : WalDurableState :=
  mkState (file s) (prealloc_bytes s) (durable_bytes s) (flushed_records s) (segment_base_records s)
    n (io_in_flight s) (poisoned s) (stats s).

Definition set_io_in_flight (s : WalDurableState) (b : bool) : WalDurableState :=
  mkState (file s) (prealloc_bytes s) (durable_bytes s) (flushed_records s) (segment_base_records s)
    (tail_offset_recorded s) b (poisoned s) (stats s).

Definition set_poisoned (s : WalDurableState) (p : option string) : WalDurableState :=
  mkState (file s) (prealloc_bytes s) (durable_bytes s) (flushed_records s) (segment_base_records s)
    (tail_offset_recorded s) (io_in_flight s) p (stats s).

Definition set_stats (s : WalDurableState) (x : WalGroupCommitStats) : WalDurableState :=
  mkState (file s) (prealloc_bytes s) (durable_bytes s) (flushed_records s) (segment_base_records s)
    (tail_offset_recorded s) (io_in_flight s) (poisoned s) x.

Definition set_state (c : WalDurableCore) (s : WalDurableState) : WalDurableCore :=
  mkCore (segment_path c) s (fixed_poison c).

Definition set_fixed_poison (c : WalDurableCore) (p : Poison.DurabilityPoison) : WalDurableCore :=
  mkCore (segment_path c) (state c) p.

Definition fresh (segment_path : Path) : WalDurableCore :=
  mkCore segment_path (mkState None 0 0 0 0 0 false None (mkStats 0 0 0)) Poison.DurabilityPoison_new.

Definition fixed_fault (c : WalDurableCore) : option DurabilityFault := Poison.snapshot (fixed_poison c).

Definition install_fixed_fault (c : WalDurableCore) (fault : DurabilityFault)
    : WalDurableCore * option DurabilityFault :=
  let '(p, first) := Poison.install (fixed_poison c) fault in (set_fixed_poison c p, first).

Definition poisoned_error (c : WalDurableCore) (reason : string) : EngineError :=
  match fixed_fault c with
  | Some fault => DurabilityFaultError fault
  | None =>
      Durability ("WAL segment " +:+ display (segment_path c) +:+
        " is poisoned by an earlier flush failure (" +:+ reason +:+
        "); restart to recover from the durable prefix")
  end.

(** [note_group]. *)
Definition note_group (s : WalDurableState) (group_size target_records : Z) : WalDurableState :=
  let x := stats s in
  set_stats (set_flushed_records s target_records)
    (mkStats (u64_add (flush_groups x) 1) (u64_add (durable_records x) group_size)
       (Z.max (max_group_size x) group_size)).

(** [GPU_DB_WAL_PREALLOC_BYTES], when it is set. *)
Definition wal_prealloc_chunk_bytes (env : option string) : Z :=
  match env with
  | Some v =>
      match parse_u64 v with
      | Ok v => Z.max v (1024 * 1024)
      | Err _ => 64 * 1024 * 1024
      end
  | None => 64 * 1024 * 1024
  end.

(** ** Preallocation *)

Definition ZEROS : Z := 1024 * 1024.

Fixpoint zero_fill (fuel : nat) (p : Path) (offset to : Z) : IO unit :=
  if offset <? to then
    match fuel with
    | O => panic
    | S fuel =>
        let n := Z.min (to - offset) ZEROS in
        write_all_at p offset (replicate (Z.to_nat n) x00) ;;
        zero_fill fuel p (offset + n) to
    end
  else ret tt.

Definition zero_fill_extend (p : Path) (from to : Z) : IO unit :=
  zero_fill (Z.to_nat ((to - from) / ZEROS + 1)) p from to ;; sync_file p.

(** ** Control and segment files *)

Section core.
Context (sha256 : list byte -> list byte) (pid : Z) (try_reserve_exact : Z -> bool) (chunk : Z).

Definition write_wal_tail_offset (segment_path : Path) (durable_bytes : Z) : M World EngineError unit :=
  let path := wal_tail_offset_path segment_path in
  let tmp_path := temporary_control_path pid path in
  let body := WAL_TAIL_MAGIC +:+ newline +:+ pretty durable_bytes +:+ newline in
  os (fun err => "failed to write WAL tail-offset file " +:+ display tmp_path +:+ ": " +:+ err)
    (create tmp_path ;; append_all tmp_path (as_bytes body)) ;;
  let! renamed := attempt
    (os (fun err => "failed to install WAL tail-offset file " +:+ display path +:+ ": " +:+ err)
       (rename tmp_path path)) in
  match renamed with
  | Ok _ => ret tt
  | Err e => os id (remove_file tmp_path) ;; throw e
  end.

Definition temporary_segment_path (path : Path) : Path :=
  with_file_name path ("." +:+ default "wal.segment" (file_name path) +:+ ".tmp." +:+ pretty pid).

Definition create_segment_dir (d : Path) : M World EngineError unit :=
  map_err (fun err => Durability ("failed to create WAL segment directory " +:+ display d +:+ ": " +:+
                                  EngineError_to_string err)) (create_wal_dir_all d).

Fixpoint write_records (p : Path) (records : list Wal.WalRecord) : M World EngineError unit :=
  match records with
  | [] => ret tt
  | record :: records =>
      os (fun err => "failed to write WAL record: " +:+ err) (append_all p (Wal.encode_record record)) ;;
      write_records p records
  end.

Definition write_wal_segment_after_identity_check (path : Path) (records : list Wal.WalRecord)
    : M World EngineError unit :=
  (match parent path with Some d => create_segment_dir d | None => ret tt end) ;;
  let tmp_path := temporary_segment_path path in
  let! write_result := attempt
    (os (fun err => "failed to create WAL segment " +:+ display tmp_path +:+ ": " +:+ err)
       (create tmp_path) ;;
     os (fun err => "failed to write WAL segment header " +:+ display tmp_path +:+ ": " +:+ err)
       (append_all tmp_path Wal.WAL_SEGMENT_MAGIC) ;;
     write_records tmp_path records ;;
     os (fun err => "failed to sync WAL segment " +:+ display tmp_path +:+ ": " +:+ err)
       (sync_file tmp_path)) in
  match write_result with
  | Err e => os id (remove_file tmp_path) ;; throw e
  | Ok _ =>
      let! renamed := attempt
        (os (fun err => "failed to install WAL segment " +:+ display path +:+ ": " +:+ err)
           (rename tmp_path path)) in
      match renamed with
      | Err e => os id (remove_file tmp_path) ;; throw e
      | Ok _ => sync_segment_parent_dir path
      end
  end.

Definition write_wal_segment (path : Path) (records : list Wal.WalRecord) : M World EngineError unit :=
  bind_or_install_durable_identity sha256 pid try_reserve_exact path records ;;
  write_wal_segment_after_identity_check path records.

Definition rewrite_wal_segment_requiring_durable_identity (path : Path)
    (records : list Wal.WalRecord) (identity : CanonicalIdentity) : M World EngineError unit :=
  require_durable_identity sha256 path identity ;;
  write_wal_segment_after_identity_check path records.

(** ** Operations on the core *)

Abbreviation CoreM := (M (WalDurableCore * World) EngineError).

Definition on_world {A} (m : M World EngineError A) : CoreM A :=
  zoom snd (fun w t => (t.1, w)) m.

Definition get_state : CoreM WalDurableState := let! t := get in ret (state t.1).

Definition put_state (f : WalDurableState -> WalDurableState) : CoreM unit :=
  modify (fun t => (set_state t.1 (f (state t.1)), t.2)).

Definition get_path : CoreM Path := let! t := get in ret (segment_path t.1).

Definition record_tail_offset : CoreM unit :=
  let! s := get_state in
  if tail_offset_recorded s =? durable_bytes s then ret tt
  else
    let! seg := get_path in
    on_world (write_wal_tail_offset seg (durable_bytes s)) ;;
    put_state (fun s => set_tail_offset_recorded s (durable_bytes s)).

(** The new segment: no stale tail, the magic, a synced name, a write handle and the first
    preallocated chunk. *)
Definition create_segment (seg : Path) : M World EngineError unit :=
  os id (remove_file (wal_tail_offset_path seg)) ;;
  (match nonempty_parent seg with
   | Some d => create_segment_dir d
   | None => ret tt
   end) ;;
  os (fun err => "failed to create WAL segment " +:+ display seg +:+ ": " +:+ err) (create seg) ;;
  os (fun err => "failed to write WAL segment " +:+ display seg +:+ ": " +:+ err)
    (append_all seg Wal.WAL_SEGMENT_MAGIC ;; sync_file seg) ;;
  sync_segment_parent_dir seg ;;
  os (fun err => "failed to reopen WAL segment for positional IO " +:+ display seg +:+ ": " +:+ err)
    (open seg) ;;
  os (fun err => "failed to preallocate WAL segment " +:+ display seg +:+ ": " +:+ err)
    (zero_fill_extend seg (vec_len Wal.WAL_SEGMENT_MAGIC) chunk).

Definition ensure_created : CoreM unit :=
  let! s := get_state in
  match file s with
  | Some _ => ret tt
  | None =>
      let! seg := get_path in
      on_world (create_segment seg) ;;
      put_state (fun s => set_durable_bytes (set_file (set_prealloc_bytes s chunk) (Some seg))
                            (vec_len Wal.WAL_SEGMENT_MAGIC)) ;;
      record_tail_offset
  end.

Definition ensure_preallocated_through (write_end : Z) : CoreM unit :=
  let! s := get_state in
  if write_end <=? prealloc_bytes s then ret tt
  else
    let new_prealloc :=
      Z.max (Z.max write_end (saturating_add64 (prealloc_bytes s) chunk)) chunk in
    match file s with
    | None => throw (Durability "WAL preallocation requires an open segment handle")
    | Some f =>
        let! seg := get_path in
        on_world (os (fun err => "failed to extend WAL segment preallocation " +:+ display seg +:+
                                 ": " +:+ err)
          (zero_fill_extend f (prealloc_bytes s) new_prealloc)) ;;
        put_state (fun s => set_prealloc_bytes s new_prealloc)
    end.

(** [Drop for WalDurableCore]: the state it leaves is gone with the core. *)
Definition drop_core : CoreM unit :=
  let! s := get_state in
  if tail_offset_recorded s =? durable_bytes s then ret tt
  else
    let! seg := get_path in
    let! _ := attempt (on_world (write_wal_tail_offset seg (durable_bytes s))) in
    ret tt.

End core.

End WalCore.
