(* ===== verification/WalGroup.v ===== *)
(** * Scatter groups (crates/wal/src/buffer/group.rs)

    The records of one durability group, the two descriptor slots and the admission credits of
    exact records, and the positional scatter write with its partial-write cursor.

    An [Arc<[u8]>] is its address and its bytes.  The kernel answers each system call from a
    script: a count, of which no more than the offered bytes are taken, or an error number.  A
    loop whose script ends is still waiting for an answer. *)

From stdpp Require Import base gmap strings list pretty.
From S2P Require Import Prelude Types Bytes Paths Effects Disk WalSegment.

Module WalGroup.
Import Paths Effects Disk.

Record Arc := mkArc { addr : Z; bytes : list byte }.

(** [Arc::ptr_eq]. *)
Definition ptr_eq (a b : Arc) : bool := addr a =? addr b.

(** A [WalRecord], whose payload is shared. *)
Record SharedRecord := mkShared { txn_id : Z; payload : Arc }.

Definition erase (r : SharedRecord) : Wal.WalRecord := Wal.mkRecord (txn_id r) (bytes (payload r)).

Definition MAX_WAL_GROUP_WIRE_BYTES : Z := 65 * 1024 * 1024 + Wal.WAL_RECORD_HEADER_LEN.
Definition MAX_WAL_GROUP_RECORDS : Z := 1024.
Definition GROUP_DESCRIPTOR_SLOTS : Z := 2.
Definition MAX_WRITE_IOVECS : Z := 128.
Definition SERIAL_SEGMENT_ID : Z := 0.

(** ** Credits *)

Record TypedExactCreditState := mkCredits { credit_records : Z; credit_bytes : Z }.

Record TypedExactPendingCredit := mkCredit { held_bytes : Z; active : bool }.

(** [TypedExactPendingCredit::release], also run when a credit is dropped; [None] is an underflow
    panic. *)
Definition release (c : TypedExactPendingCredit) (pool : TypedExactCreditState)
    : option (TypedExactPendingCredit * TypedExactCreditState) :=
  if negb (active c) then Some (c, pool)
  else if (credit_records pool <? 1) || (credit_bytes pool <? held_bytes c) then None
  else Some (mkCredit (held_bytes c) false,
             mkCredits (credit_records pool - 1) (credit_bytes pool - held_bytes c)).

(** ** Exact wire records (crates/wal/src/buffer/typed_exact.rs) *)

Inductive ExactTypedWireState := Tentative | ClaimedPending | InFlight.

#[export] Instance ExactTypedWireState_eq_dec : EqDecision ExactTypedWireState.
Proof. solve_decision. Defined.

Record ExactTypedWireRecord := mkWire {
  record_index : Z;
  packed_payload : Arc;
  serialized_record : Arc;
  wire_state : ExactTypedWireState;
  pending_group_credit : TypedExactPendingCredit;
}.

Definition serialized_len (w : ExactTypedWireRecord) : Z := vec_len (bytes (serialized_record w)).

Definition is_tentative (w : ExactTypedWireRecord) : bool := bool_decide (wire_state w = Tentative).

Definition is_claimed_pending (w : ExactTypedWireRecord) : bool :=
  bool_decide (wire_state w = ClaimedPending).

Definition set_wire_state (w : ExactTypedWireRecord) (s : ExactTypedWireState) : ExactTypedWireRecord :=
  mkWire (record_index w) (packed_payload w) (serialized_record w) s (pending_group_credit w).

(** [mark_in_flight]; [None] is its failed assertion. *)
Definition mark_in_flight (w : ExactTypedWireRecord) : option ExactTypedWireRecord :=
  if is_claimed_pending w then Some (set_wire_state w InFlight) else None.

(** ** Groups *)

Inductive GroupEntry :=
| Exact (record : ExactTypedWireRecord)
| Legacy (header : list byte) (payload : Arc).

Definition region (e : GroupEntry) (part : nat) : option (list byte) :=
  match e, part with
  | Exact record, 0%nat => Some (bytes (serialized_record record))
  | Legacy header _, 0%nat => Some header
  | Legacy _ payload, 1%nat => Some (bytes payload)
  | _, _ => None
  end.

Definition parts (e : GroupEntry) : nat :=
  match e with
  | Exact _ => 1
  | Legacy _ payload => if bool_decide (bytes payload = []) then 1 else 2
  end.

Record WalGroupPrefix := mkPrefix {
  px_first_record : Z;
  px_target_records : Z;
  px_wire_bytes : Z;
  px_exact_records : Z;
}.

Definition group_size (p : WalGroupPrefix) : Z := px_target_records p - px_first_record p.

(** A live group: the slot it was acquired from and its entries. *)
Record PreparedWalGroup := mkGroup {
  slot : nat;
  entries : list GroupEntry;
  wire_bytes : Z;
  first_record : Z;
  target_records : Z;
  contains_exact : bool;
}.

Definition push_exact (g : PreparedWalGroup) (record : ExactTypedWireRecord) : option PreparedWalGroup :=
  if negb (vec_len (entries g) <? MAX_WAL_GROUP_RECORDS) then None
  else
    total ← checked_add64 (wire_bytes g) (serialized_len record);
    Some (mkGroup (slot g) (entries g ++ [Exact record]) total (first_record g) (target_records g)
            (contains_exact g)).

Definition push_legacy (g : PreparedWalGroup) (record : SharedRecord) : option PreparedWalGroup :=
  if negb (vec_len (entries g) <? MAX_WAL_GROUP_RECORDS) then None
  else
    let header := Wal.encode_record_header (erase record) in
    total ← checked_add64 (wire_bytes g) (Wal.WAL_RECORD_HEADER_LEN + vec_len (bytes (payload record)));
    Some (mkGroup (slot g) (entries g ++ [Legacy header (payload record)]) total (first_record g)
            (target_records g) (contains_exact g)).

Definition finish_formation (g : PreparedWalGroup) (p : WalGroupPrefix) : option PreparedWalGroup :=
  if negb (vec_len (entries g) =? group_size p) || negb (wire_bytes g =? px_wire_bytes p) then None
  else Some (mkGroup (slot g) (entries g) (wire_bytes g) (px_first_record p) (px_target_records p)
               (negb (px_exact_records p =? 0))).

Definition fault (g : PreparedWalGroup) (stage : DurabilityStage) (raw_os_error : option Z)
    : DurabilityFault :=
  DurabilityFault_new SerialWal stage raw_os_error SERIAL_SEGMENT_ID (first_record g).

(** ** Slots *)

(** The descriptor vector a slot keeps is empty and permanent. *)
Inductive GroupSlotState :=
| Idle
| Busy
| Poisoned (f : DurabilityFault).

Record WalPreparedGroupArena := mkArena {
  slots : list GroupSlotState;
  typed_exact_credits : TypedExactCreditState;
}.

Definition arena_default : WalPreparedGroupArena :=
  mkArena (replicate (Z.to_nat GROUP_DESCRIPTOR_SLOTS) Idle) (mkCredits 0 0).

Definition set_slot (a : WalPreparedGroupArena) (k : nat) (s : GroupSlotState) : WalPreparedGroupArena :=
  mkArena (<[k := s]> (slots a)) (typed_exact_credits a).

Definition set_credits (a : WalPreparedGroupArena) (c : TypedExactCreditState) : WalPreparedGroupArena :=
  mkArena (slots a) c.

Definition reserve_typed_exact_credit (a : WalPreparedGroupArena) (bytes : Z)
    : WalPreparedGroupArena * result TypedExactPendingCredit EngineError :=
  if MAX_WAL_GROUP_WIRE_BYTES <? bytes then
    (a, Err (ProposalFailed ("typed exact WAL record of " +:+ pretty bytes +:+
       " bytes exceeds the configured " +:+ pretty MAX_WAL_GROUP_WIRE_BYTES +:+ "-byte group bound")))
  else
    let state := typed_exact_credits a in
    let max_records := MAX_WAL_GROUP_RECORDS * GROUP_DESCRIPTOR_SLOTS in
    let max_bytes := MAX_WAL_GROUP_WIRE_BYTES * GROUP_DESCRIPTOR_SLOTS in
    match checked_add64 (credit_records state) 1, checked_add64 (credit_bytes state) bytes with
    | None, _ => (a, Err (ProposalFailed "typed exact WAL group-record credit overflow"))
    | Some _, None => (a, Err (ProposalFailed "typed exact WAL group-byte credit overflow"))
    | Some next_records, Some next_bytes =>
        if (max_records <? next_records) || (max_bytes <? next_bytes) then
          (a, Err (ProposalFailed ("typed exact WAL group credit is busy (pending records=" +:+
             pretty (credit_records state) +:+ "/" +:+ pretty (credit_bytes state) +:+ ", bytes=" +:+
             pretty max_records +:+ "/" +:+ pretty max_bytes +:+ ")")))
        else (set_credits a (mkCredits next_records next_bytes), Ok (mkCredit bytes true))
    end.

(** The loop of [WalPreparedGroupArena::try_acquire] over the slots from the [k]-th on. *)
Fixpoint acquire_slot (k : nat) (l : list GroupSlotState) : result (option nat) EngineError :=
  match l with
  | [] => Ok None
  | Idle :: _ => Ok (Some k)
  | Busy :: l => acquire_slot (S k) l
  | Poisoned f :: _ => Err (DurabilityFaultError f)
  end.

Definition try_acquire (a : WalPreparedGroupArena)
    : WalPreparedGroupArena * result (option PreparedWalGroup) EngineError :=
  match acquire_slot 0 (slots a) with
  | Err e => (a, Err e)
  | Ok None => (a, Ok None)
  | Ok (Some k) => (set_slot a k Busy, Ok (Some (mkGroup k [] 0 0 0 false)))
  end.

(** [entries.clear()] drops the exact records and with them their credits. *)
Fixpoint drop_entries (es : list GroupEntry) (pool : TypedExactCreditState)
    : option TypedExactCreditState :=
  match es with
  | [] => Some pool
  | Exact record :: es => '(_, pool) ← release (pending_group_credit record) pool; drop_entries es pool
  | Legacy _ _ :: es => drop_entries es pool
  end.

Definition settle (a : WalPreparedGroupArena) (g : PreparedWalGroup) (s : GroupSlotState)
    : option WalPreparedGroupArena :=
  pool ← drop_entries (entries g) (typed_exact_credits a);
  Some (set_slot (set_credits a pool) (slot g) s).

Definition finish_success (a : WalPreparedGroupArena) (g : PreparedWalGroup)
    : option WalPreparedGroupArena := settle a g Idle.

Definition poison (a : WalPreparedGroupArena) (g : PreparedWalGroup) (f : DurabilityFault)
    : option WalPreparedGroupArena := settle a g (Poisoned f).

(** [Drop for PreparedWalGroup]. *)
Definition drop_group (a : WalPreparedGroupArena) (g : PreparedWalGroup)
    : option WalPreparedGroupArena := settle a g (Poisoned (fault g DescriptorPoison None)).

(** ** System calls *)

Inductive Answer := Returns (n : Z) | Fails (errno : Z).

Definition EINTR : Z := 4.
Definition EOVERFLOW : Z := 75.
Definition i64_max : Z := 9223372036854775807.

Inductive SerialWriteOutcome := Written (n : Z) | Interrupted | OffsetOverflow | Errno (e : Z).

Definition write_file (w : World) (f : Path) (offset : Z) (b : list byte) : World :=
  match names w !! f with
  | Some i => set_inode w f (write_inode i offset b)
  | None => w
  end.

Definition pwritev_once (answer : Answer) (w : World) (f : Path) (iovecs : list (list byte))
    (offset : Z) : World * SerialWriteOutcome :=
  if i64_max <? offset then (w, OffsetOverflow)
  else
    match answer with
    | Fails e => (w, if e =? EINTR then Interrupted else Errno e)
    | Returns n =>
        let taken := take (Z.to_nat n) (concat iovecs) in
        (write_file w f offset taken, Written (vec_len taken))
    end.

Inductive SerialSyncOutcome := Complete | SyncInterrupted | SyncErrno (e : Z).

Definition sync_data_once (answer : Answer) (w : World) (f : Path) : World * SerialSyncOutcome :=
  match answer with
  | Fails e => (w, if e =? EINTR then SyncInterrupted else SyncErrno e)
  | Returns _ =>
      (match names w !! f with
       | Some i => set_inode w f (mkInode (data i) (vec_len (data i)))
       | None => w
       end, Complete)
  end.

(** [sync_data_retry_interrupted]; [None] is a call without an answer yet. *)
Fixpoint sync_data_retry_interrupted (script : list Answer) (w : World) (f : Path)
    (g : PreparedWalGroup) : World * option (result unit DurabilityFault) :=
  match script with
  | [] => (w, None)
  | answer :: script =>
      let '(w, outcome) := sync_data_once answer w f in
      match outcome with
      | Complete => (w, Some (Ok tt))
      | SyncInterrupted => sync_data_retry_interrupted script w f g
      | SyncErrno e => (w, Some (Err (fault g SyncData (Some e))))
      end
  end.

(** ** The scatter write *)

(** The inner loop that collects the io-vectors; [None] is a broken cursor. *)
Fixpoint gather (fuel : nat) (es : list GroupEntry) (entry part : nat) (part_offset : Z)
    (cursor_entry cursor_part : nat) (count : Z) : option (list (list byte)) :=
  if (cursor_entry <? length es)%nat && (count <? MAX_WRITE_IOVECS) then
    match fuel with
    | O => None
    | S fuel =>
        current ← es !! cursor_entry;
        b ← region current cursor_part;
        let start := if (cursor_entry =? entry)%nat && (cursor_part =? part)%nat then part_offset else 0 in
        let '(next_entry, next_part) :=
          if (S cursor_part =? parts current)%nat then (S cursor_entry, 0%nat)
          else (cursor_entry, S cursor_part) in
        if start <? vec_len b then
          rest ← gather fuel es entry part part_offset next_entry next_part (count + 1);
          Some (drop (Z.to_nat start) b :: rest)
        else gather fuel es entry part part_offset next_entry next_part count
    end
  else Some [].

(** The inner loop that moves the cursor over [advanced] written bytes. *)
Fixpoint advance (fuel : nat) (es : list GroupEntry) (entry part : nat) (part_offset advanced : Z)
    : option (nat * nat * Z) :=
  if advanced =? 0 then Some (entry, part, part_offset)
  else
    match fuel with
    | O => None
    | S fuel =>
        current ← es !! entry;
        b ← region current part;
        if vec_len b <? part_offset then None
        else
          let available := vec_len b - part_offset in
          if available =? 0 then None
          else
            let step := Z.min available advanced in
            let part_offset := part_offset + step in
            let advanced := advanced - step in
            if part_offset =? vec_len b then
              if (S part =? parts current)%nat then advance fuel es (S entry) 0 0 advanced
              else advance fuel es entry (S part) 0 advanced
            else advance fuel es entry part part_offset advanced
    end.

Fixpoint write_loop (script : list Answer) (w : World) (f : Path) (g : PreparedWalGroup)
    (entry part : nat) (part_offset file_offset remaining : Z)
    : World * option (result unit DurabilityFault) :=
  if remaining =? 0 then (w, Some (Ok tt))
  else
    match script with
    | [] => (w, None)
    | answer :: script =>
        match gather (2 * length (entries g)) (entries g) entry part part_offset entry part 0 with
        | None | Some [] => (w, Some (Err (fault g PositionalWriteInvariant None)))
        | Some iovecs =>
            let '(w, outcome) := pwritev_once answer w f iovecs file_offset in
            match outcome with
            | Interrupted => write_loop script w f g entry part part_offset file_offset remaining
            | OffsetOverflow => (w, Some (Err (fault g PositionalWriteOverflow (Some EOVERFLOW))))
            | Errno e => (w, Some (Err (fault g PositionalWrite (Some e))))
            | Written written =>
                if written =? 0 then (w, Some (Err (fault g PositionalWriteZero None)))
                else if remaining <? written then (w, Some (Err (fault g PositionalWriteOverflow None)))
                else
                  match checked_add64 file_offset written with
                  | None => (w, Some (Err (fault g PositionalWriteOverflow None)))
                  | Some next_file_offset =>
                      match advance (Z.to_nat written) (entries g) entry part part_offset written with
                      | None => (w, Some (Err (fault g PositionalWriteInvariant None)))
                      | Some (entry, part, part_offset) =>
                          write_loop script w f g entry part part_offset next_file_offset
                            (remaining - written)
                      end
                  end
            end
        end
    end.

Definition write_all_vectored_at (script : list Answer) (w : World) (f : Path)
    (g : PreparedWalGroup) (offset : Z) : World * option (result unit DurabilityFault) :=
  write_loop script w f g 0 0 0 offset (wire_bytes g).

(** What the group writes. *)
Definition entry_bytes (e : GroupEntry) : list byte :=
  match e with
  | Exact record => bytes (serialized_record record)
  | Legacy header payload => header ++ bytes payload
  end.

Definition group_bytes (es : list GroupEntry) : list byte := concat (entry_bytes <$> es).

End WalGroup.
