(* ===== verification/WalScatter.v ===== *)
(** * The scatter write

    The io-vectors offered to the kernel are the next regions of the group, the cursor stays on
    the first byte that is not written, and whatever the kernel answers the file receives a prefix
    of the bytes of the group at the offset and nothing else. *)

From stdpp Require Import base gmap strings list pretty.
From S2P Require Import Prelude Types Bytes Paths Effects Disk WalSegment WalGroup.

Module WalScatter.
Import Paths Disk WalGroup.

(** ** Regions and cursors *)

Definition entry_regions (e : GroupEntry) : list (list byte) :=
  match e with
  | Exact record => [bytes (serialized_record record)]
  | Legacy header payload =>
      if bool_decide (bytes payload = []) then [header] else [header; bytes payload]
  end.

(** Every entry starts with at least a header. *)
Definition entry_ok (e : GroupEntry) : Prop :=
  match e with
  | Exact record => bytes (serialized_record record) <> []
  | Legacy header _ => header <> []
  end.

Definition regions (es : list GroupEntry) : list (list byte) := es ≫= entry_regions.

Lemma parts_regions e : parts e = length (entry_regions e).
Proof. destruct e; cbn; [done|]. by case_bool_decide. Qed.

Lemma region_lookup e part b : entry_regions e !! part = Some b -> region e part = Some b.
Proof.
  destruct e; cbn [entry_regions region]; [|case_bool_decide as E]; destruct part as [|[|]]; intros H;
    (discriminate H || exact H || done).
Qed.

Lemma entry_regions_nonempty e : entry_ok e -> Forall (fun b => b <> []) (entry_regions e).
Proof. destruct e; cbn; intros; [|case_bool_decide]; repeat constructor; done. Qed.

Lemma entry_regions_length e : (1 <= length (entry_regions e) <= 2)%nat.
Proof. destruct e; cbn; [lia|]. case_bool_decide; cbn; lia. Qed.

Lemma concat_entry_regions e : concat (entry_regions e) = entry_bytes e.
Proof.
  destruct e; cbn; [by rewrite app_nil_r|]. case_bool_decide as E; cbn; rewrite ?E, !app_nil_r; done.
Qed.

Lemma concat_app_l {A} (l k : list (list A)) : concat (l ++ k) = concat l ++ concat k.
Proof. apply concat_app. Qed.

Lemma regions_cons e es : regions (e :: es) = entry_regions e ++ regions es.
Proof. done. Qed.

Lemma concat_regions es : concat (regions es) = group_bytes es.
Proof.
  unfold group_bytes. induction es as [|e es IH]; [done|].
  rewrite regions_cons, concat_app, concat_entry_regions, IH. done.
Qed.

(** What is left to write from a cursor. *)
Definition from_cursor (es : list GroupEntry) (entry part : nat) (offset : Z) : list (list byte) :=
  match drop part (default [] (entry_regions <$> es !! entry)) with
  | [] => []
  | b :: bs => drop (Z.to_nat offset) b :: bs ++ regions (drop (S entry) es)
  end.

(** A cursor on a byte, or at the end. *)
Definition cursor_ok (es : list GroupEntry) (entry part : nat) (offset : Z) : Prop :=
  (entry = length es /\ part = 0%nat /\ offset = 0) \/
  exists e b, es !! entry = Some e /\ entry_regions e !! part = Some b /\ 0 <= offset < vec_len b.

Section entries.
Context (es : list GroupEntry) (Hes : Forall entry_ok es).

Lemma from_cursor_at entry part offset e b :
  es !! entry = Some e -> entry_regions e !! part = Some b ->
  from_cursor es entry part offset
  = drop (Z.to_nat offset) b :: drop (S part) (entry_regions e) ++ regions (drop (S entry) es).
Proof. intros He Hb. unfold from_cursor. rewrite He. cbn. by rewrite (drop_S _ b). Qed.

Lemma from_cursor_end offset : from_cursor es (length es) 0 offset = [].
Proof. unfold from_cursor. by rewrite lookup_ge_None_2. Qed.

Lemma region_nonempty entry e part b :
  es !! entry = Some e -> entry_regions e !! part = Some b -> 0 < vec_len b.
Proof.
  intros He Hb. apply list_elem_of_lookup_2 in He. rewrite Forall_forall in Hes.
  pose proof (entry_regions_nonempty e (Hes _ He)) as Hn. rewrite Forall_forall in Hn.
  specialize (Hn b (list_elem_of_lookup_2 _ _ _ Hb)). unfold vec_len. destruct b; [done|cbn; lia].
Qed.

(** The cursor after a whole region. *)
Definition next_region (entry part : nat) (e : GroupEntry) : nat * nat :=
  if (S part =? parts e)%nat then (S entry, 0%nat) else (entry, S part).

Lemma regions_from_cursor entry :
  (entry <= length es)%nat -> from_cursor es entry 0 0 = regions (drop entry es) /\ cursor_ok es entry 0 0.
Proof.
  intros Hle. destruct (es !! entry) as [e|] eqn:He.
  - destruct (entry_regions e) as [|b bs] eqn:Er; [pose proof (entry_regions_length e); rewrite Er in *; cbn in *; lia|].
    assert (entry_regions e !! 0%nat = Some b) as Hb by by rewrite Er.
    split.
    + rewrite (from_cursor_at _ _ _ e b He Hb), (drop_S es e entry He), regions_cons, Er. done.
    + right. exists e, b. split_and!; [done|done|done|]. by eapply region_nonempty.
  - apply lookup_ge_None_1 in He. replace entry with (length es) by lia. split; [|by left].
    rewrite from_cursor_end. by rewrite drop_ge by lia.
Qed.

Lemma next_region_ok entry part e b entry' part' :
  es !! entry = Some e -> entry_regions e !! part = Some b -> next_region entry part e = (entry', part') ->
  cursor_ok es entry' part' 0 /\
  from_cursor es entry' part' 0 = drop (S part) (entry_regions e) ++ regions (drop (S entry) es).
Proof.
  intros He Hb. unfold next_region. rewrite parts_regions.
  pose proof (lookup_lt_Some _ _ _ Hb) as Hlt. pose proof (lookup_lt_Some _ _ _ He) as Hle.
  destruct (Nat.eqb_spec (S part) (length (entry_regions e))) as [Hp|Hp]; intros [= <- <-].
  - destruct (regions_from_cursor (S entry)) as [-> ?]; [lia|]. split; [done|]. by rewrite (drop_ge (entry_regions e)) by lia.
  - destruct (lookup_lt_is_Some_2 (entry_regions e) (S part)) as [b' Hb']; [lia|]. split.
    + right. exists e, b'. split_and!; [done|done|done|]. by eapply region_nonempty.
    + rewrite (from_cursor_at _ _ _ e b' He Hb'). cbn [Z.to_nat]. by rewrite (drop_S _ b' (S part)).
Qed.

Lemma from_cursor_length entry part offset :
  cursor_ok es entry part offset -> (length (from_cursor es entry part offset) <= 2 * (length es - entry))%nat.
Proof.
  intros [(-> & -> & ->)|(e & b & He & Hb & Ho)]; [rewrite from_cursor_end; cbn; lia|].
  rewrite (from_cursor_at _ _ _ e b He Hb). cbn [length]. rewrite length_app, length_drop.
  pose proof (entry_regions_length e). pose proof (lookup_lt_Some _ _ _ Hb).
  pose proof (lookup_lt_Some _ _ _ He).
  assert (forall l, (length (regions l) <= 2 * length l)%nat) as Hr.
  { induction l as [|x l IH]; [done|]. rewrite regions_cons, length_app. pose proof (entry_regions_length x). cbn. lia. }
  specialize (Hr (drop (S entry) es)). rewrite length_drop in Hr. lia.
Qed.

(** ** The loops *)

(** Past the first region the start of the cursor no longer matters. *)
Lemma gather_from fuel entry part offset ce cp count :
  (entry < ce \/ entry = ce /\ part < cp)%nat -> cursor_ok es ce cp 0 -> 0 <= count <= MAX_WRITE_IOVECS ->
  (length (from_cursor es ce cp 0) <= fuel)%nat ->
  gather fuel es entry part offset ce cp count
  = Some (take (Z.to_nat (MAX_WRITE_IOVECS - count)) (from_cursor es ce cp 0)).
Proof.
  revert ce cp count. induction fuel as [|fuel IH]; intros ce cp count Hpast Hc Hcount Hfuel; cbn [gather];
    destruct Hc as [(-> & -> & _)|(e & b & He & Hb & Ho)].
  1, 3: rewrite Nat.ltb_irrefl, from_cursor_end, take_nil; done.
  - rewrite (from_cursor_at _ _ _ e b He Hb) in Hfuel. cbn in Hfuel. lia.
  - pose proof (lookup_lt_Some _ _ _ He) as Hlt. rewrite (proj2 (Nat.ltb_lt _ _) Hlt). cbn [andb].
    destruct (Z.ltb_spec count MAX_WRITE_IOVECS) as [Hlim|Hlim].
    2: { replace (MAX_WRITE_IOVECS - count) with 0 by lia. done. }
    rewrite He. cbn [mbind option_bind]. rewrite (region_lookup e cp b Hb). cbn [mbind option_bind].
    replace ((ce =? entry)%nat && (cp =? part)%nat) with false
      by (destruct (Nat.eqb_spec ce entry), (Nat.eqb_spec cp part); cbn; lia || done).
    cbn zeta. rewrite (proj2 (Z.ltb_lt 0 (vec_len b))) by (by eapply region_nonempty).
    destruct (next_region ce cp e) as [ne np] eqn:En.
    pose proof (next_region_ok _ _ _ _ _ _ He Hb En) as [Hok Hfrom].
    unfold next_region in En. rewrite En. rewrite (from_cursor_at _ _ _ e b He Hb) in Hfuel |- *.
    rewrite <- Hfrom in Hfuel |- *. cbn [length] in Hfuel.
    rewrite IH by (try done; try lia; destruct (S cp =? parts e)%nat; injection En as <- <-; lia).
    cbn [mbind option_bind]. replace (Z.to_nat (MAX_WRITE_IOVECS - count))
      with (S (Z.to_nat (MAX_WRITE_IOVECS - (count + 1)))) by lia. done.
Qed.

Lemma gather_spec entry part offset :
  cursor_ok es entry part offset ->
  gather (2 * length es) es entry part offset entry part 0
  = Some (take (Z.to_nat MAX_WRITE_IOVECS) (from_cursor es entry part offset)).
Proof.
  intros Hc. pose proof (from_cursor_length _ _ _ Hc) as Hlen.
  destruct Hc as [(-> & -> & ->)|(e & b & He & Hb & Ho)].
  { rewrite from_cursor_end. destruct (2 * length es)%nat; cbn [gather]; by rewrite Nat.ltb_irrefl. }
  pose proof (lookup_lt_Some _ _ _ He) as Hlt. rewrite (from_cursor_at _ _ _ e b He Hb) in Hlen |- *.
  destruct (2 * length es)%nat as [|fuel] eqn:Ef; [lia|]. cbn [gather].
  rewrite (proj2 (Nat.ltb_lt _ _) Hlt), He. cbn [andb mbind option_bind].
  rewrite (region_lookup e part b Hb), !Nat.eqb_refl. cbn [mbind option_bind andb].
  change (0 <? MAX_WRITE_IOVECS) with true. cbn iota. rewrite (proj2 (Z.ltb_lt offset (vec_len b))) by lia.
  destruct (next_region entry part e) as [ne np] eqn:En.
  pose proof (next_region_ok _ _ _ _ _ _ He Hb En) as [Hok Hfrom].
  unfold next_region in En. rewrite En, <- Hfrom in *. cbn [length] in Hlen.
  rewrite gather_from by (try done; try (unfold MAX_WRITE_IOVECS; lia); try lia;
    destruct (S part =? parts e)%nat; injection En as <- <-; lia).
  cbn [mbind option_bind]. done.
Qed.

Lemma advance_spec fuel entry part offset advanced :
  cursor_ok es entry part offset -> 0 <= advanced <= vec_len (concat (from_cursor es entry part offset)) ->
  (Z.to_nat advanced <= fuel)%nat ->
  exists entry' part' offset',
    advance fuel es entry part offset advanced = Some (entry', part', offset') /\
    cursor_ok es entry' part' offset' /\
    concat (from_cursor es entry' part' offset')
    = drop (Z.to_nat advanced) (concat (from_cursor es entry part offset)).
Proof.
  revert entry part offset advanced.
  induction fuel as [|fuel IH]; intros entry part offset advanced Hc Ha Hf; cbn [advance];
    (destruct (Z.eqb_spec advanced 0) as [->|Hne]; [eexists _, _, _; split_and!; [done|done|done]|]); [lia|].
  pose proof Hc as Hc0. destruct Hc as [(-> & -> & ->)|(e & b & He & Hb & Ho)].
  { rewrite from_cursor_end in Ha. unfold vec_len in Ha; cbn in Ha. lia. }
  rewrite He. cbn [mbind option_bind]. rewrite (region_lookup e part b Hb). cbn [mbind option_bind].
  rewrite (proj2 (Z.ltb_ge _ _)) by lia. cbn zeta. rewrite (proj2 (Z.eqb_neq (vec_len b - offset) 0)) by lia.
  set (step := Z.min (vec_len b - offset) advanced) in *.
  rewrite (from_cursor_at _ _ _ e b He Hb) in Ha |- *. cbn [concat] in Ha |- *. rewrite vec_len_app in Ha.
  assert (vec_len (drop (Z.to_nat offset) b) = vec_len b - offset) as Hd
    by (unfold vec_len in *; rewrite length_drop; lia).
  destruct (Z.eqb_spec (offset + step) (vec_len b)) as [Hend|Hend].
  - destruct (next_region entry part e) as [ne np] eqn:En.
    pose proof (next_region_ok _ _ _ _ _ _ He Hb En) as [Hok Hfrom].
    destruct (IH ne np 0 (advanced - step)) as (e' & p' & o' & Hadv & Hok' & Hrest);
      [done|rewrite Hfrom; lia|lia|].
    exists e', p', o'. split_and!; [|done|].
    + unfold next_region in En. by destruct (S part =? parts e)%nat; injection En as <- <-.
    + rewrite Hrest, Hfrom, drop_app_ge by (unfold vec_len in *; lia). f_equal. unfold vec_len in *. lia.
  - destruct (IH entry part (offset + step) (advanced - step)) as (e' & p' & o' & Hadv & Hok' & Hrest).
    + right. exists e, b. split_and!; [done|done|lia|lia].
    + rewrite (from_cursor_at _ _ _ e b He Hb). cbn [concat]. rewrite vec_len_app.
      unfold vec_len in *. rewrite length_drop. lia.
    + lia.
    + exists e', p', o'. split_and!; [done|done|].
      rewrite Hrest, (from_cursor_at _ _ _ e b He Hb). cbn [concat].
      rewrite !drop_app_le by (unfold vec_len in *; rewrite ?length_drop; lia).
      rewrite !drop_drop. do 2 f_equal. unfold vec_len in *. lia.
Qed.

End entries.

(** ** The file *)

(** [w] after the first [d] bytes of [b] were written at [offset] of the file [f]: the bytes before
    the offset that were certain still are. *)
Definition written_state (w : World) (f : Path) (i : Inode) (offset : Z) (b : list byte) (d : Z) (s : Z * bool) : World :=
  set_inode w f (mkNode (overwrite (data i) offset (take (Z.to_nat d) b)) s.1 s.2).

(** A kernel that always takes something. *)
Definition progressing (script : list Answer) : Prop :=
  Forall (fun a => exists n, a = Returns n /\ 1 <= n) script.

Lemma take_more {A} (b : list A) d n :
  0 <= d <= vec_len b ->
  take (Z.to_nat d) b ++ take n (drop (Z.to_nat d) b)
  = take (Z.to_nat (d + vec_len (take n (drop (Z.to_nat d) b)))) b.
Proof.
  intros Hd. rewrite take_take_drop. unfold vec_len in *. rewrite length_take, length_drop.
  destruct (decide (n <= length b - Z.to_nat d)%nat).
  - f_equal. lia.
  - rewrite !take_ge by lia. done.
Qed.

Lemma write_progress w f i offset b d s n taken :
  0 <= offset <= vec_len (data i) -> 0 <= d <= vec_len b -> taken = take n (drop (Z.to_nat d) b) ->
  write_file (written_state w f i offset b d s) f (offset + d) taken
  = written_state w f i offset b (d + vec_len taken) (Z.min s.1 (offset + d), false).
Proof.
  intros Ho Hd ->. unfold write_file, written_state, set_inode, set_names. cbn [names].
  rewrite lookup_insert_eq. unfold set_inode, set_names, write_inode. cbn [names data synced unsynced_names faults].
  rewrite insert_insert_eq, <- take_more by done.
  assert (vec_len (take (Z.to_nat d) b) = d) as Hl by (unfold vec_len in *; rewrite length_take; lia).
  rewrite <- (overwrite_overwrite (data i) offset (take (Z.to_nat d) b)) by done. by rewrite Hl.
Qed.

Lemma concat_take_prefix {A} (l : list (list A)) k n :
  take n (concat (take k l)) = take (n `min` length (concat (take k l))) (concat l).
Proof.
  pose proof (concat_app (take k l) (drop k l)) as E. rewrite take_drop in E. rewrite E.
  set (x := concat (take k l)). rewrite take_app_le by lia.
  destruct (Nat.min_spec n (length x)) as [[? ->]|[? ->]]; [done|]. by rewrite !take_ge by lia.
Qed.

Section write.
Context (f : Path) (g : PreparedWalGroup) (w : World) (i : Inode) (offset : Z).
Context (Hes : Forall entry_ok (entries g)) (Hfile : names w !! f = Some i).
Context (Hoffset : 0 <= offset <= vec_len (data i)).

Abbreviation B := (group_bytes (entries g)).
Context (Hend : offset + vec_len B <= u64_max).

(** One call: what it leaves in the file, and what it reports. *)
Lemma pwritev_spec answer iovecs k d s :
  0 <= d <= vec_len B -> Z.min (synced i) offset <= s.1 <= synced i -> concat iovecs = take k (drop (Z.to_nat d) B) ->
  exists d' s' outcome,
    pwritev_once answer (written_state w f i offset B d s) f iovecs (offset + d)
    = (written_state w f i offset B d' s', outcome) /\
    d <= d' <= vec_len B /\ Z.min (synced i) offset <= s'.1 <= synced i /\
    match outcome with
    | Written n => n = d' - d
    | _ => d' = d /\ s' = s
    end /\
    (offset + vec_len B <= i64_max -> concat iovecs <> [] -> (exists n, answer = Returns n /\ 1 <= n) ->
     exists n, outcome = Written n /\ 1 <= n).
Proof.
  intros Hd Hs Hio. unfold pwritev_once. destruct (Z.ltb_spec i64_max (offset + d)) as [Hov|Hov].
  { eexists d, s, _. split_and!; try done; try lia. }
  destruct answer as [n|e].
  - pose proof (write_progress w f i offset B d s (Z.to_nat n `min` k) (take (Z.to_nat n) (concat iovecs)) Hoffset Hd) as Hw.
    rewrite Hw by (by rewrite Hio, take_take).
    assert (vec_len (concat iovecs) <= vec_len B - d) as Hle.
    { rewrite Hio. unfold vec_len in *. rewrite length_take, length_drop. lia. }
    eexists _, _, _. split; [done|]. cbn [fst]. split_and!; try lia.
    + unfold vec_len in *. rewrite length_take. lia.
    + unfold vec_len in *. rewrite length_take. lia.
    + intros _ Hne (n' & [= <-] & Hn). eexists. split; [done|]. unfold vec_len. rewrite length_take.
      destruct (concat iovecs); [done|cbn; lia].
  - destruct (e =? EINTR); eexists d, s, _; (split_and!; [done|lia|lia|lia|lia|done|]).
    all: by intros _ _ (n & [=] & _).
Qed.

(** The bytes offered are the next ones of the group, and there are some. *)
Lemma offered_spec entry part po d :
  0 <= d < vec_len B -> cursor_ok (entries g) entry part po ->
  concat (from_cursor (entries g) entry part po) = drop (Z.to_nat d) B ->
  exists x xs k,
    gather (2 * length (entries g)) (entries g) entry part po entry part 0 = Some (x :: xs) /\
    concat (x :: xs) = take k (drop (Z.to_nat d) B) /\ concat (x :: xs) <> [].
Proof.
  intros Hd Hc Hfrom. rewrite gather_spec by done.
  destruct Hc as [(-> & -> & ->)|(e & b & He & Hb & Hpo)].
  { rewrite from_cursor_end in Hfrom. apply (f_equal length) in Hfrom. rewrite length_drop in Hfrom.
    unfold vec_len in Hd. cbn in Hfrom. lia. }
  rewrite <- Hfrom, (from_cursor_at _ _ _ _ e b He Hb). change (Z.to_nat MAX_WRITE_IOVECS) with (S 127).
  set (xs := drop (S part) (entry_regions e) ++ regions (drop (S entry) (entries g))).
  eexists _, _, _. split; [done|]. split.
  - pose proof (concat_take_prefix (drop (Z.to_nat po) b :: xs) (S 127)
      (length (concat (take (S 127) (drop (Z.to_nat po) b :: xs))))) as H.
    rewrite Nat.min_id, take_ge in H by lia. exact H.
  - cbn [take concat]. intros [H0 _]%app_eq_nil. apply (f_equal length) in H0.
    rewrite length_drop in H0. unfold vec_len in Hpo. cbn in H0. lia.
Qed.

(** What a run of the loop from [d] written bytes leaves. *)
Definition write_outcome (script : list Answer) (d d' : Z) (s' : Z * bool) (r : option (result unit DurabilityFault)) : Prop :=
  d <= d' <= vec_len B /\ Z.min (synced i) offset <= s'.1 <= synced i /\
  (r = Some (Ok tt) -> d' = vec_len B) /\
  (forall e, r = Some (Err e) -> fault_stage e <> PositionalWriteInvariant) /\
  (progressing script -> vec_len B - d <= Z.of_nat (length script) -> offset + vec_len B <= i64_max ->
   r = Some (Ok tt)).

Lemma write_loop_spec script entry part po d s :
  0 <= d <= vec_len B -> Z.min (synced i) offset <= s.1 <= synced i ->
  cursor_ok (entries g) entry part po -> concat (from_cursor (entries g) entry part po) = drop (Z.to_nat d) B ->
  exists d' s' r,
    write_loop script (written_state w f i offset B d s) f g entry part po (offset + d) (vec_len B - d)
    = (written_state w f i offset B d' s', r) /\ write_outcome script d d' s' r.
Proof.
  unfold write_outcome. revert entry part po d s.
  induction script as [|answer script IH]; intros entry part po d s Hd Hs Hc Hfrom;
    cbn [write_loop]; destruct (Z.eqb_spec (vec_len B - d) 0) as [E|E].
  1, 3: eexists d, s, _; split_and!; (done || lia || by intros).
  { eexists d, s, _. split_and!; try done; try lia. intros _ Hlen. cbn in Hlen. lia. }
  destruct (offered_spec entry part po d) as (x & xs & k & -> & Hcat & Hne); [lia|done..|].
  destruct (pwritev_spec answer (x :: xs) k d s Hd Hs Hcat) as (d' & s' & outcome & -> & Hd' & Hs' & Hout & Hlive).
  cbn zeta. destruct outcome as [n| | |e].
  - subst n. destruct (Z.eqb_spec (d' - d) 0) as [E0|E0].
    { eexists d', s', _. split_and!; try done; try lia; [by intros e [= <-]|]. intros Hp _ Hi.
      apply Forall_cons_1 in Hp as [Ha _]. destruct (Hlive Hi Hne Ha) as (n & [= <-] & ?). lia. }
    rewrite (proj2 (Z.ltb_ge _ _)) by lia.
    rewrite (proj2 (checked_add64_Some _ _ (offset + d'))) by lia.
    destruct (advance_spec (entries g) Hes (Z.to_nat (d' - d)) entry part po (d' - d)) as (en & pn & on & -> & Hcn & Hfn);
      [done| |lia|].
    { rewrite Hfrom. unfold vec_len in *. rewrite length_drop. lia. }
    replace (vec_len B - d - (d' - d)) with (vec_len B - d') by lia.
    destruct (IH en pn on d' s') as (d2 & s2 & r & -> & ? & ? & ? & ? & Hl2); [lia|lia|done| |].
    { rewrite Hfn, Hfrom, drop_drop. f_equal. lia. }
    exists d2, s2, r. split_and!; try done; try lia. intros Hp Hn Hi. apply Forall_cons_1 in Hp as [_ Hp].
    apply Hl2; [done| |done]. cbn [length] in Hn. lia.
  - destruct Hout as [-> ->]. destruct (IH entry part po d s Hd Hs Hc Hfrom) as (d2 & s2 & r & -> & ? & ? & ? & ? & Hl2).
    exists d2, s2, r. split_and!; try done; try lia. intros Hp _ Hi. apply Forall_cons_1 in Hp as [Ha _].
    by destruct (Hlive Hi Hne Ha) as (n & [=] & _).
  - destruct Hout as [-> ->]. eexists d, s, _. split_and!; try done; try lia; [by intros e [= <-]|].
    intros Hp _ Hi. apply Forall_cons_1 in Hp as [Ha _]. by destruct (Hlive Hi Hne Ha) as (n & [=] & _).
  - destruct Hout as [-> ->]. eexists d, s, _. split_and!; try done; try lia; [by intros e' [= <-]|].
    intros Hp _ Hi. apply Forall_cons_1 in Hp as [Ha _]. by destruct (Hlive Hi Hne Ha) as (n & [=] & _).
Qed.

Lemma write_all_spec script :
  wire_bytes g = vec_len B ->
  exists d s r,
    write_all_vectored_at script w f g offset = (written_state w f i offset B d s, r) /\
    write_outcome script 0 d s r.
Proof.
  intros Hwire. unfold write_all_vectored_at. rewrite Hwire.
  destruct (regions_from_cursor (entries g) Hes 0) as [Hr Hc]; [lia|].
  destruct (write_loop_spec script 0 0 0 0 (synced i, exact i)) as (d & s & r & Hw & Ho); [unfold vec_len; lia|cbn; lia|done| |].
  { rewrite Hr. cbn [Z.to_nat drop]. by rewrite concat_regions. }
  exists d, s, r. split; [|done]. rewrite Z.add_0_r, Z.sub_0_r in Hw. rewrite <- Hw. f_equal.
  unfold written_state. cbn [Z.to_nat take]. rewrite overwrite_nil by done.
  unfold set_inode, set_names. destruct i as [di si xi]. cbn [data synced exact fst snd]. rewrite insert_id by done. by destruct w.
Qed.
End write.

End WalScatter.
