(* ===== verification/WalBuffer.v ===== *)
(** * The WAL buffer (crates/wal/src/buffer.rs, buffer/typed_exact.rs, buffer/group.rs)

    The logical record history with its serial or in-memory backing, group flushes, the
    reservation, tentative append, rollback and claim of exact records, truncation and rotation.
    Buffers with the FUA backend are not modelled: [fua] is [None].

    An operation runs under the buffer's outer lock, on the buffer and the world; the jobs it hands
    out finish on the core and the arena the buffer shares with them.  [binary_search_by_key] is a
    search for the key: the wire records are sorted by their index. *)

From stdpp Require Import base gmap strings list pretty.
From S2P Require Import Prelude Types Bytes Text Paths Effects Disk Sidecar WalSegment Canonical Envelope EnvelopeExact Identity LocalRepl WalCore WalGroup Archive.

Module WalBuffer.
Import Text Paths Canonical Envelope Sidecar Disk Effects Identity WalCore WalGroup.

#[local] Existing Instance Wal.WalRecord_eq_dec.

(** ** State *)

(** A [Vec] with its capacity. *)
Record Vec (A : Type) := mkVec { elems : list A; capacity : Z }.
Arguments mkVec {A}.
Arguments elems {A}.
Arguments capacity {A}.

Definition vec_new {A} : Vec A := mkVec [] 0.

Definition vec_push `{VecAlloc} {A} (v : Vec A) (x : A) : Vec A :=
  mkVec (elems v ++ [x]) (vec_grow (vec_len (elems v)) (capacity v) 1).

Definition with_elems {A} (v : Vec A) (l : list A) : Vec A := mkVec l (capacity v).

Record DurableIdentityBinding := mkBinding {
  binding_identity : option CanonicalIdentity;
  verified_records : Z;
}.

#[export] Instance DurableIdentityBinding_eq_dec : EqDecision DurableIdentityBinding.
Proof. solve_decision. Defined.

Inductive CanonicalCatalogTailCache :=
| Known (record_count : Z) (tail : option CanonicalCatalogTail)
| Dirty.

Record WalBuffer := mkBuffer {
  records : Vec SharedRecord;
  exact_typed_wire_records : Vec ExactTypedWireRecord;
  typed_exact_tentative_count : Z;
  highest_claimed_typed_exact_record : option Z;
  typed_exact_handoff_cursor : Z;
  prepared_group_arena : WalPreparedGroupArena;
  canonical_append_reservation_generation : Z;
  canonical_append_reservation_owner_id : Z;
  canonical_catalog_tail : CanonicalCatalogTailCache;
  durable_identity_binding : DurableIdentityBinding;
  flushed_memory : Z;
  fail_next_flush : bool;
  durable : option WalDurableCore;
}.

Definition set_records (b : WalBuffer) x : WalBuffer :=
  mkBuffer x (exact_typed_wire_records b) (typed_exact_tentative_count b)
    (highest_claimed_typed_exact_record b) (typed_exact_handoff_cursor b) (prepared_group_arena b)
    (canonical_append_reservation_generation b) (canonical_append_reservation_owner_id b)
    (canonical_catalog_tail b) (durable_identity_binding b) (flushed_memory b) (fail_next_flush b) (durable b).

Definition set_wires (b : WalBuffer) x : WalBuffer :=
  mkBuffer (records b) x (typed_exact_tentative_count b)
    (highest_claimed_typed_exact_record b) (typed_exact_handoff_cursor b) (prepared_group_arena b)
    (canonical_append_reservation_generation b) (canonical_append_reservation_owner_id b)
    (canonical_catalog_tail b) (durable_identity_binding b) (flushed_memory b) (fail_next_flush b) (durable b).

Definition set_tentative_count (b : WalBuffer) x : WalBuffer :=
  mkBuffer (records b) (exact_typed_wire_records b) x
    (highest_claimed_typed_exact_record b) (typed_exact_handoff_cursor b) (prepared_group_arena b)
    (canonical_append_reservation_generation b) (canonical_append_reservation_owner_id b)
    (canonical_catalog_tail b) (durable_identity_binding b) (flushed_memory b) (fail_next_flush b) (durable b).

Definition set_highest_claimed (b : WalBuffer) x : WalBuffer :=
  mkBuffer (records b) (exact_typed_wire_records b) (typed_exact_tentative_count b)
    x (typed_exact_handoff_cursor b) (prepared_group_arena b)
    (canonical_append_reservation_generation b) (canonical_append_reservation_owner_id b)
    (canonical_catalog_tail b) (durable_identity_binding b) (flushed_memory b) (fail_next_flush b) (durable b).

Definition set_handoff_cursor (b : WalBuffer) x : WalBuffer :=
  mkBuffer (records b) (exact_typed_wire_records b) (typed_exact_tentative_count b)
    (highest_claimed_typed_exact_record b) x (prepared_group_arena b)
    (canonical_append_reservation_generation b) (canonical_append_reservation_owner_id b)
    (canonical_catalog_tail b) (durable_identity_binding b) (flushed_memory b) (fail_next_flush b) (durable b).

Definition set_arena (b : WalBuffer) x : WalBuffer :=
  mkBuffer (records b) (exact_typed_wire_records b) (typed_exact_tentative_count b)
    (highest_claimed_typed_exact_record b) (typed_exact_handoff_cursor b) x
    (canonical_append_reservation_generation b) (canonical_append_reservation_owner_id b)
    (canonical_catalog_tail b) (durable_identity_binding b) (flushed_memory b) (fail_next_flush b) (durable b).

Definition set_generation (b : WalBuffer) x : WalBuffer :=
  mkBuffer (records b) (exact_typed_wire_records b) (typed_exact_tentative_count b)
    (highest_claimed_typed_exact_record b) (typed_exact_handoff_cursor b) (prepared_group_arena b)
    x (canonical_append_reservation_owner_id b)
    (canonical_catalog_tail b) (durable_identity_binding b) (flushed_memory b) (fail_next_flush b) (durable b).

Definition set_catalog_tail (b : WalBuffer) x : WalBuffer :=
  mkBuffer (records b) (exact_typed_wire_records b) (typed_exact_tentative_count b)
    (highest_claimed_typed_exact_record b) (typed_exact_handoff_cursor b) (prepared_group_arena b)
    (canonical_append_reservation_generation b) (canonical_append_reservation_owner_id b)
    x (durable_identity_binding b) (flushed_memory b) (fail_next_flush b) (durable b).

Definition set_binding (b : WalBuffer) x : WalBuffer :=
  mkBuffer (records b) (exact_typed_wire_records b) (typed_exact_tentative_count b)
    (highest_claimed_typed_exact_record b) (typed_exact_handoff_cursor b) (prepared_group_arena b)
    (canonical_append_reservation_generation b) (canonical_append_reservation_owner_id b)
    (canonical_catalog_tail b) x (flushed_memory b) (fail_next_flush b) (durable b).

Definition set_flushed_memory (b : WalBuffer) x : WalBuffer :=
  mkBuffer (records b) (exact_typed_wire_records b) (typed_exact_tentative_count b)
    (highest_claimed_typed_exact_record b) (typed_exact_handoff_cursor b) (prepared_group_arena b)
    (canonical_append_reservation_generation b) (canonical_append_reservation_owner_id b)
    (canonical_catalog_tail b) (durable_identity_binding b) x (fail_next_flush b) (durable b).

Definition set_fail_next_flush (b : WalBuffer) x : WalBuffer :=
  mkBuffer (records b) (exact_typed_wire_records b) (typed_exact_tentative_count b)
    (highest_claimed_typed_exact_record b) (typed_exact_handoff_cursor b) (prepared_group_arena b)
    (canonical_append_reservation_generation b) (canonical_append_reservation_owner_id b)
    (canonical_catalog_tail b) (durable_identity_binding b) (flushed_memory b) x (durable b).

Definition set_durable (b : WalBuffer) x : WalBuffer :=
  mkBuffer (records b) (exact_typed_wire_records b) (typed_exact_tentative_count b)
    (highest_claimed_typed_exact_record b) (typed_exact_handoff_cursor b) (prepared_group_arena b)
    (canonical_append_reservation_generation b) (canonical_append_reservation_owner_id b)
    (canonical_catalog_tail b) (durable_identity_binding b) (flushed_memory b) (fail_next_flush b) x.

(** [next_canonical_append_reservation_owner_id]: the counter and the id it gave. *)
Definition next_canonical_append_reservation_owner_id (counter : Z) : option (Z * Z) :=
  if counter =? 0 then None else Some (u64_add counter 1, counter).

(** [WalBuffer::default] with its owner id. *)
Definition buffer_default (owner_id : Z) : WalBuffer :=
  mkBuffer vec_new vec_new 0 None 0 arena_default 0 owner_id (Known 0 None) (mkBinding None 0) 0 false None.

Definition with_durable_segment (owner_id : Z) (segment_path : Path) : WalBuffer :=
  set_durable (buffer_default owner_id) (Some (fresh segment_path)).

(** ** Queries *)

Definition len (b : WalBuffer) : Z := vec_len (elems (records b)).

Definition logical_records (b : WalBuffer) : list Wal.WalRecord := erase <$> elems (records b).

Definition flushed_count (b : WalBuffer) : Z :=
  match durable b with
  | Some core => flushed_records (state core)
  | None => flushed_memory b
  end.

Definition unflushed_count (b : WalBuffer) : Z := saturating_sub (len b) (flushed_count b).

(** [&self.records[..flushed]]; [None] is an index out of range. *)
Definition flushed_slice (b : WalBuffer) : option (list SharedRecord) :=
  if flushed_count b <=? len b then Some (take (Z.to_nat (flushed_count b)) (elems (records b))) else None.

Definition checkpoint_meta (b : WalBuffer) : option Archive.WalCheckpointMeta :=
  flushed ← flushed_slice b;
  Some (Archive.mkMeta (flushed_count b) (txn_id <$> last flushed)).

Definition durable_segment_bytes (b : WalBuffer) : Z :=
  match durable b with Some core => durable_bytes (state core) | None => 0 end.

Definition durable_segment_base_records (b : WalBuffer) : Z :=
  match durable b with Some core => segment_base_records (state core) | None => 0 end.

Definition group_commit_stats (b : WalBuffer) : WalGroupCommitStats :=
  match durable b with Some core => stats (state core) | None => mkStats 0 0 0 end.

(** ** Prepared records

    A [PreparedCanonicalWalRecord] whose byte buffers are shared allocations. *)

Record ExactAuthority := mkExactAuthority {
  xa_packed : Arc;
  xa_serialized : Arc;
  xa_encoding : EnvelopeExact.ExactCanonicalRecordEncoding;
  xa_header : CanonicalPreApplyHeader;
}.

Record Prepared := mkPreparedRecord {
  p_record : SharedRecord;
  p_tail : CanonicalCatalogTail;
  p_exact : option ExactAuthority;
}.

(** The prepared record with the addresses of its two allocations; the packed payload of the
    authority is that of the record. *)
Definition allocate (packed serialized : Z) (p : EnvelopeExact.PreparedCanonicalWalRecord) : Prepared :=
  let shared := mkArc packed (Wal.payload (EnvelopeExact.record p)) in
  mkPreparedRecord (mkShared (Wal.txn_id (EnvelopeExact.record p)) shared) (EnvelopeExact.tail p)
    ((fun x => mkExactAuthority (mkArc packed (EnvelopeExact.packed_payload x))
        (mkArc serialized (EnvelopeExact.serialized_record x)) (EnvelopeExact.encoding x)
        (EnvelopeExact.a_header x)) <$> EnvelopeExact.exact p).

(** [exact_packed_payload]. *)
Definition exact_packed (p : Prepared) : option Arc := (fun _ => payload (p_record p)) <$> p_exact p.

(** ** Operations *)

Abbreviation BufM := (M (WalBuffer * World) EngineError).

Definition buffer : BufM WalBuffer := let! s := get in ret s.1.

Definition update (f : WalBuffer -> WalBuffer) : BufM unit := modify (fun s => (f s.1, s.2)).

Definition on_disk {A} (m : M World EngineError A) : BufM A := zoom snd (fun w s => (s.1, w)) m.

(** Run [m] on the durable core, which the caller knows to exist. *)
Definition on_core {A} (m : M (WalDurableCore * World) EngineError A) : BufM A := fun s =>
  match durable s.1 with
  | None => Panic
  | Some core =>
      match m (core, s.2) with
      | Panic => Panic
      | Wait => Wait
      | Done (core, w) r => Done (set_durable s.1 (Some core), w) r
      end
  end.

(** Lift a change of the arena; [None] is a panic. *)
Definition update_arena (f : WalPreparedGroupArena -> option WalPreparedGroupArena) : BufM unit :=
  let! b := buffer in
  let! a := expect (f (prepared_group_arena b)) in
  update (fun b => set_arena b a).

(** A credit that goes out of scope. *)
Definition drop_credit (c : TypedExactPendingCredit) : BufM unit :=
  update_arena (fun a => '(_, pool) ← release c (typed_exact_credits a); Some (set_credits a pool)).

Fixpoint drop_wires (wires : list ExactTypedWireRecord) : BufM unit :=
  match wires with
  | [] => ret tt
  | wire :: wires => drop_credit (pending_group_credit wire) ;; drop_wires wires
  end.

Fixpoint take_while {A} (p : A -> bool) (l : list A) : list A :=
  match l with
  | x :: l => if p x then x :: take_while p l else []
  | [] => []
  end.

Definition wires (b : WalBuffer) : list ExactTypedWireRecord := elems (exact_typed_wire_records b).

Definition invalidate_canonical_append_reservations : BufM unit :=
  let! b := buffer in
  let! g := expect (checked_add64 (canonical_append_reservation_generation b) 1) in
  update (fun b => set_generation b g).

Definition prune_durable_typed_exact_wire_records : BufM unit :=
  let! b := buffer in
  let retired := take_while (fun wire => record_index wire <? flushed_count b) (wires b) in
  update (fun b => set_wires b (with_elems (exact_typed_wire_records b)
                                  (drop (length retired) (wires b)))) ;;
  drop_wires retired.

Definition require_no_unclaimed_typed_exact_tail : BufM unit :=
  let! b := buffer in
  if negb (typed_exact_tentative_count b =? 0) then
    throw (Durability "cannot flush an unclaimed tentative typed exact WAL tail")
  else ret tt.

Definition has_typed_exact_wire_at_or_after (b : WalBuffer) (len : Z) : bool :=
  existsb (fun wire => len <=? record_index wire) (wires b).

(** [binary_search_by_key]. *)
Definition find_wire (b : WalBuffer) (index : Z) : option ExactTypedWireRecord :=
  List.find (fun wire => record_index wire =? index) (wires b).

Definition exact_wire_for_group (b : WalBuffer) (index : Z) (record : SharedRecord)
    : result (option ExactTypedWireRecord) EngineError :=
  match find_wire b index with
  | None => Ok None
  | Some wire =>
      if is_claimed_pending wire then
        if negb (ptr_eq (packed_payload wire) (payload record)) then
          Err (Durability "typed exact WAL wire authority diverged from its packed record")
        else Ok (Some wire)
      else Err (Durability "attempted to form a WAL group around a non-claimed typed exact record")
  end.

Definition exact_wire_prefix_count (b : WalBuffer) (end_ : Z) : result Z EngineError :=
  let prefix := take_while (fun wire => record_index wire <? end_) (wires b) in
  if forallb is_claimed_pending prefix then Ok (vec_len prefix)
  else Err (Durability "attempted to hand off a non-claimed typed exact WAL owner").

(** ** Group formation *)

Definition legacy_len (record : SharedRecord) : Z :=
  Wal.WAL_RECORD_HEADER_LEN + vec_len (bytes (payload record)).

(** The loop of [select_prepared_group_prefix]: [rest] are the records from [target_records] on. *)
Fixpoint select_loop (b : WalBuffer) (first_record : Z) (serial_free_bytes : option Z)
    (rest : list SharedRecord) (target_records wire_bytes : Z) (includes_exact : bool)
    : result (Z * Z) EngineError :=
  match rest with
  | [] => Ok (target_records, wire_bytes)
  | record :: rest =>
      if negb (target_records - first_record <? MAX_WAL_GROUP_RECORDS) then Ok (target_records, wire_bytes)
      else
        let? exact := exact_wire_for_group b target_records record in
        if includes_exact && negb (bool_decide (is_Some exact)) then Ok (target_records, wire_bytes)
        else
          let? record_bytes :=
            match exact with
            | Some exact => Ok (serialized_len exact)
            | None =>
                ok_or (checked_add64 Wal.WAL_RECORD_HEADER_LEN (vec_len (bytes (payload record))))
                  (Durability "WAL legacy record byte length overflows group accounting")
            end in
          let? next_bytes :=
            ok_or (checked_add64 wire_bytes record_bytes)
              (Durability "WAL group byte accounting overflows") in
          let exceeds_extent :=
            match serial_free_bytes with Some free => free <? next_bytes | None => false end in
          if (MAX_WAL_GROUP_WIRE_BYTES <? next_bytes) || exceeds_extent then
            if target_records =? first_record then
              Err (Durability ("WAL record of " +:+ pretty record_bytes +:+
                " bytes exceeds its configured group or preallocated serial extent bound"))
            else Ok (target_records, wire_bytes)
          else
            select_loop b first_record serial_free_bytes rest (target_records + 1) next_bytes
              (includes_exact || bool_decide (is_Some exact))
  end.

Definition select_prepared_group_prefix (b : WalBuffer) (first_record : Z) (serial_free_bytes : option Z)
    : result (option WalGroupPrefix) EngineError :=
  if len b <=? first_record then Ok None
  else
    let? (target_records, wire_bytes) :=
      select_loop b first_record serial_free_bytes (drop (Z.to_nat first_record) (elems (records b)))
        first_record 0 false in
    let? exact_records := exact_wire_prefix_count b target_records in
    Ok (Some (mkPrefix first_record target_records wire_bytes exact_records)).

(** The loop that moves the records of the prefix into the group: [exact] are the wire records
    drained from the buffer.  [None] is a panic. *)
Fixpoint fill_group (index : Z) (l : list SharedRecord) (exact : list ExactTypedWireRecord)
    (g : PreparedWalGroup) : option (PreparedWalGroup * list ExactTypedWireRecord) :=
  match l with
  | [] => Some (g, exact)
  | record :: l =>
      match exact with
      | wire :: exact' =>
          if record_index wire =? index then
            wire ← mark_in_flight wire;
            g ← push_exact g wire;
            fill_group (index + 1) l exact' g
          else g ← push_legacy g record; fill_group (index + 1) l exact g
      | [] => g ← push_legacy g record; fill_group (index + 1) l exact g
      end
  end.

Definition handoff_prepared_group (prefix : WalGroupPrefix) : BufM (option PreparedWalGroup) :=
  let! b := buffer in
  let '(arena, acquired) := try_acquire (prepared_group_arena b) in
  update (fun b => set_arena b arena) ;;
  let! acquired := of_result acquired in
  match acquired with
  | None => ret None
  | Some group =>
      match exact_wire_prefix_count b (px_target_records prefix) with
      | Err e => update_arena (fun a => drop_group a group) ;; throw e
      | Ok exact_count =>
          if negb (exact_count =? px_exact_records prefix) then
            update_arena (fun a => drop_group a group) ;;
            throw (Durability "WAL exact-owner prefix drifted after group preflight")
          else
            let drained := take (Z.to_nat exact_count) (wires b) in
            let range := take (Z.to_nat (group_size prefix))
                           (drop (Z.to_nat (px_first_record prefix)) (elems (records b))) in
            let! filled := expect (fill_group (px_first_record prefix) range drained group) in
            let '(group, undrained) := filled in
            update (fun b => set_wires b (with_elems (exact_typed_wire_records b)
                                            (drop (Z.to_nat exact_count) (wires b)))) ;;
            drop_wires undrained ;;
            let! group := expect (finish_formation group prefix) in
            (if negb (px_exact_records prefix =? 0) then
               update (fun b => set_handoff_cursor b
                 (Z.max (typed_exact_handoff_cursor b) (px_target_records prefix)))
             else ret tt) ;;
            ret (Some group)
      end
  end.

(** ** Lineage *)

Section operations.
Context {alloc : VecAlloc}.
Context (sha256 : list byte -> list byte) (pid : Z) (try_reserve_exact : Z -> bool) (chunk : Z).

(** [&records[a..z]]; [None] is an index out of range. *)
Definition slice {A} (l : list A) (a z : Z) : option (list A) :=
  if (a <=? z) && (z <=? vec_len l) then Some (take (Z.to_nat (z - a)) (drop (Z.to_nat a) l)) else None.

(** [DurableIdentityBinding::verify_through] on the buffer's binding and records. *)
Definition verify_through (base : Path) (target : Z) : BufM unit :=
  let! b := buffer in
  let binding := durable_identity_binding b in
  if verified_records binding =? target then ret tt
  else
    let! unverified := expect (slice (logical_records b) (verified_records binding) target) in
    let! identity := of_result
      (identity_through sha256 try_reserve_exact (binding_identity binding) unverified) in
    (match identity with
     | Some identity =>
         if bool_decide (is_Some (binding_identity binding)) then
           on_disk (require_durable_identity sha256 base identity)
         else on_disk (check_or_install_durable_identity sha256 pid base identity)
     | None => ret tt
     end) ;;
    update (fun b => set_binding b (mkBinding identity target)).

(** [for_recovered_history]. *)
Definition for_recovered_history (base : Path) (records : list Wal.WalRecord)
    : M World EngineError DurableIdentityBinding :=
  let! identity := of_result (identity_through sha256 try_reserve_exact None records) in
  match identity with
  | None => ret (mkBinding None (vec_len records))
  | Some identity =>
      require_durable_identity sha256 base identity ;;
      ret (mkBinding (Some identity) (vec_len records))
  end.

Definition validate_recovered_records (records : list Wal.WalRecord) (identity : CanonicalIdentity)
    : result unit EngineError :=
  let? found := identity_through sha256 try_reserve_exact None records in
  match found with
  | Some found =>
      if negb (bool_decide (found = identity)) then
        Err (Durability "recovered canonical WAL records do not match the durable identity anchor")
      else Ok tt
  | None => Ok tt
  end.

(** ** Construction *)

Definition with_durable_segment_bound_to_identity (owner_id : Z) (segment_path : Path)
    (identity : CanonicalIdentity) : M World EngineError WalBuffer :=
  require_durable_identity sha256 segment_path identity ;;
  ret (set_binding (with_durable_segment owner_id segment_path) (mkBinding (Some identity) 0)).

Definition validate_recovered_segment_history (records : list Wal.WalRecord)
    (recovery : Wal.WalSegmentRecovery) : result unit EngineError :=
  let suffix := Wal.records recovery in
  if (vec_len records <? vec_len suffix) ||
     negb (bool_decide (drop (length records - length suffix) records = suffix)) then
    Err (Durability
      "recovered logical WAL history must end with the exact recovered segment suffix")
  else Ok tt.

(** The segment of a recovered core: cut to its valid bytes and preallocated again. *)
Definition reopen_segment (recovery : Wal.WalSegmentRecovery) : M (WalDurableCore * World) EngineError unit :=
  if 0 <? Wal.valid_bytes recovery then
    let valid := Wal.valid_bytes recovery in
    let! seg := get_path in
    on_world (os (fun err => "failed to open WAL segment for positional IO " +:+ display seg +:+ ": " +:+ err)
      (open seg)) ;;
    let prealloc_to := Z.max (Z.max valid chunk) (valid + Z.quot chunk 2) in
    on_world (os (fun err => "failed to truncate/preallocate WAL segment tail " +:+ display seg +:+ ": " +:+ err)
      (set_len seg valid ;; sync_file seg ;; zero_fill_extend seg valid prealloc_to)) ;;
    put_state (fun s => set_durable_bytes (set_file (set_prealloc_bytes s prealloc_to) (Some seg)) valid) ;;
    record_tail_offset pid
  else ret tt.

(** [base] and [count] are the records before the segment and in all. *)
Definition recovered_core (segment_path : Path) (base count : Z) (recovery : Wal.WalSegmentRecovery)
    : M World EngineError WalDurableCore := fun w =>
  match (reopen_segment recovery ;;
         put_state (fun s => set_flushed_records (set_segment_base_records s base) count))
        (fresh segment_path, w) with
  | Panic => Panic
  | Wait => Wait
  | Done (core, w) (Ok _) => Done w (Ok core)
  | Done s (Err e) =>
      match drop_core pid s with
      | Done (_, w) _ => Done w (Err e)
      | Panic => Panic
      | Wait => Wait
      end
  end.

Definition with_recovered_durable_segment_with_binding (owner_id : Z) (segment_path : Path)
    (records : Vec SharedRecord) (recovery : Wal.WalSegmentRecovery) (binding : DurableIdentityBinding)
    : M World EngineError WalBuffer :=
  let count := vec_len (elems records) in
  let! core := recovered_core segment_path (count - vec_len (Wal.records recovery)) count recovery in
  ret (mkBuffer records vec_new 0 (if 0 <? count then Some (count - 1) else None) count arena_default
         0 owner_id Dirty binding 0 false (Some core)).

Definition with_recovered_durable_segment (owner_id : Z) (segment_path : Path)
    (records : Vec SharedRecord) (recovery : Wal.WalSegmentRecovery) : M World EngineError WalBuffer :=
  let history := erase <$> elems records in
  of_result (validate_recovered_segment_history history recovery) ;;
  let! binding := for_recovered_history segment_path history in
  with_recovered_durable_segment_with_binding owner_id segment_path records recovery binding.

Definition with_recovered_durable_segment_bound_to_identity (owner_id : Z) (segment_path : Path)
    (records : Vec SharedRecord) (recovery : Wal.WalSegmentRecovery) (identity : CanonicalIdentity)
    : M World EngineError WalBuffer :=
  let history := erase <$> elems records in
  of_result (validate_recovered_segment_history history recovery) ;;
  require_durable_identity sha256 segment_path identity ;;
  of_result (validate_recovered_records history identity) ;;
  with_recovered_durable_segment_with_binding owner_id segment_path records recovery
    (mkBinding (Some identity) (vec_len history)).

(** ** Appends *)

Definition append (rec : SharedRecord) : BufM unit :=
  prune_durable_typed_exact_wire_records ;;
  update (fun b => set_catalog_tail (set_records b (vec_push (records b) rec)) Dirty) ;;
  invalidate_canonical_append_reservations.

Definition append_canonical (prepared : Prepared) : BufM unit :=
  prune_durable_typed_exact_wire_records ;;
  assert (negb (bool_decide (is_Some (p_exact prepared)))) ;;
  update (fun b => set_records b (vec_push (records b) (p_record prepared))) ;;
  update (fun b => set_catalog_tail b (Known (len b) (Some (p_tail prepared)))) ;;
  invalidate_canonical_append_reservations.

(** The wires the buffer held are dropped by [clear]. *)
Definition reinstate_durable_records (l : Vec SharedRecord) : BufM unit :=
  let! b := buffer in
  let old := wires b in
  let count := vec_len (elems l) in
  update (fun b => set_wires (set_records (set_flushed_memory b count) l)
                     (with_elems (exact_typed_wire_records b) [])) ;;
  drop_wires old ;;
  update (fun b => set_catalog_tail
    (set_handoff_cursor
       (set_highest_claimed (set_tentative_count b 0) (if 0 <? count then Some (count - 1) else None))
       count) Dirty) ;;
  invalidate_canonical_append_reservations.

(** [canonical_catalog_tail]. *)
Definition read_canonical_catalog_tail : BufM (option CanonicalCatalogTail) :=
  let! b := buffer in
  let decode :=
    match last (elems (records b)) with
    | None => update (fun b => set_catalog_tail b (Known 0 None)) ;; ret None
    | Some record =>
        update (fun b => set_catalog_tail b Dirty) ;;
        let! envelope := of_result
          (decode_canonical_record_payload sha256 try_reserve_exact (bytes (payload record))) in
        let tail := (fun e => header_tail (header e)) <$> envelope in
        update (fun b => set_catalog_tail b (Known (len b) tail)) ;;
        ret tail
    end in
  match canonical_catalog_tail b with
  | Known record_count tail => if record_count =? len b then ret tail else decode
  | Dirty => decode
  end.

(** ** Admission of exact records *)

Fixpoint tail_wire_bytes (b : WalBuffer) (index : Z) (rest : list SharedRecord) (total : Z)
    : result Z EngineError :=
  match rest with
  | [] => Ok total
  | record :: rest =>
      let? record_bytes :=
        match find_wire b index with
        | Some wire => Ok (serialized_len wire)
        | None =>
            ok_or (checked_add64 Wal.WAL_RECORD_HEADER_LEN (vec_len (bytes (payload record))))
              (Durability "WAL admission legacy record bytes overflow")
        end in
      let? total := ok_or (checked_add64 total record_bytes)
        (Durability "WAL admission tail bytes overflow") in
      tail_wire_bytes b (index + 1) rest total
  end.

Definition current_tail_wire_bytes_for_admission (b : WalBuffer) (first_record : Z) : result Z EngineError :=
  tail_wire_bytes b first_record (drop (Z.to_nat first_record) (elems (records b))) 0.

Fixpoint legacy_geometry (b : WalBuffer) (index : Z) (rest : list SharedRecord) : result unit EngineError :=
  match rest with
  | [] => Ok tt
  | record :: rest =>
      match find_wire b index with
      | Some _ => legacy_geometry b (index + 1) rest
      | None =>
          let? bytes :=
            ok_or (checked_add64 Wal.WAL_RECORD_HEADER_LEN (vec_len (bytes (payload record))))
              (Durability "pending legacy WAL record byte length overflows group accounting") in
          if MAX_WAL_GROUP_WIRE_BYTES <? bytes then
            Err (ProposalFailed ("typed exact WAL admission is blocked by a pre-existing " +:+
              pretty bytes +:+ "-byte legacy record beyond the configured " +:+
              pretty MAX_WAL_GROUP_WIRE_BYTES +:+ "-byte group bound"))
          else legacy_geometry b (index + 1) rest
      end
  end.

Definition validate_pending_legacy_group_geometry (b : WalBuffer) (first_record : Z)
    : result unit EngineError :=
  legacy_geometry b first_record (drop (Z.to_nat first_record) (elems (records b))).

Definition preverify_typed_exact_lineage (base : Path) (exact_identity : CanonicalIdentity)
    : BufM DurableIdentityBinding :=
  let! b := buffer in
  verify_through base (len b) ;;
  let! b := buffer in
  let prior := durable_identity_binding b in
  (match binding_identity prior with
   | Some identity =>
       if negb (bool_decide (identity = exact_identity)) then
         throw (Durability "typed exact WAL identity diverges from the preverified logical lineage")
       else on_disk (require_durable_identity sha256 base identity)
   | None => on_disk (check_or_install_durable_identity sha256 pid base exact_identity)
   end) ;;
  ret prior.

(** The faults that refuse every later flush. *)
Definition require_unpoisoned (core : WalDurableCore) : BufM unit :=
  match fixed_fault core with
  | Some fault => throw (DurabilityFaultError fault)
  | None =>
      match poisoned (state core) with
      | Some reason => throw (poisoned_error core reason)
      | None => ret tt
      end
  end.

(** The end of the tail with one more record of [expected_serialized_len] bytes. *)
Definition prospective_end (b : WalBuffer) (core : WalDurableCore) (expected_serialized_len : Z)
    (overflow : string) : result Z EngineError :=
  let first := flushed_records (state core) in
  let? _ := validate_pending_legacy_group_geometry b first in
  let? pending := current_tail_wire_bytes_for_admission b first in
  ok_or (tail ← checked_add64 (durable_bytes (state core)) pending;
         checked_add64 tail expected_serialized_len) (Durability overflow).

Definition preflight_typed_exact_serial_admission (expected_serialized_len : Z)
    (exact_identity : CanonicalIdentity) : BufM DurableIdentityBinding :=
  let! b := buffer in
  match durable b with
  | None => ret (durable_identity_binding b)
  | Some core =>
      require_unpoisoned core ;;
      on_core (ensure_created pid chunk) ;;
      let! b := buffer in
      let! core := expect (durable b) in
      let! end_ := of_result (prospective_end b core expected_serialized_len
        "typed exact WAL prospective tail overflows u64") in
      (if prealloc_bytes (state core) <? end_ then
         if io_in_flight (state core) then wait
         else
           require_unpoisoned core ;;
           let! end_ := of_result (prospective_end b core expected_serialized_len
             "typed exact WAL prospective tail overflows after serial wait") in
           on_core (ensure_preallocated_through chunk end_)
       else ret tt) ;;
      preverify_typed_exact_lineage (segment_path core) exact_identity
  end.

(** ** The life of an exact record *)

Inductive TypedExactAppendState :=
| StatePrepared
| StateTentative (position expected_generation : Z).

Record WalTypedExactAppendReservation := mkReservation {
  expected_owner_id : Z;
  expected_records_len : Z;
  expected_records_capacity : Z;
  expected_exact_wire_len : Z;
  expected_exact_wire_capacity : Z;
  expected_generation : Z;
  expected_serialized_len : Z;
  prior_catalog_tail : CanonicalCatalogTailCache;
  prior_durable_identity_binding : DurableIdentityBinding;
  rollback_authority : option ExactAuthority;
  prepared : option Prepared;
  reserved_credit : option TypedExactPendingCredit;
  reservation_state : TypedExactAppendState;
}.

Definition replication_payload (r : WalTypedExactAppendReservation) : result Arc EngineError :=
  let? p := ok_or (prepared r)
    (ProposalFailed "typed exact WAL replication payload was consumed before proposal") in
  ok_or (exact_packed p)
    (ProposalFailed "typed exact WAL reservation lost its packed replication payload").

Definition drop_reservation (r : WalTypedExactAppendReservation) : BufM unit :=
  match reserved_credit r with
  | Some c => drop_credit c
  | None => ret tt
  end.

Definition reserve_credit (bytes : Z) : BufM TypedExactPendingCredit :=
  let! b := buffer in
  let '(arena, credit) := reserve_typed_exact_credit (prepared_group_arena b) bytes in
  update (fun b => set_arena b arena) ;;
  of_result credit.

(** [try_reserve_exact(1)] on the two vectors. *)
Definition reserve_slots : BufM unit :=
  let! b := buffer in
  match vec_try_reserve_exact (vec_len (elems (records b))) (capacity (records b)) 1 with
  | None => throw (Durability "unable to reserve a typed exact WAL record slot before WAL")
  | Some cap => update (fun b => set_records b (mkVec (elems (records b)) cap))
  end ;;
  let! b := buffer in
  match vec_try_reserve_exact (vec_len (wires b)) (capacity (exact_typed_wire_records b)) 1 with
  | None => throw (Durability "unable to reserve typed exact WAL wire-slot capacity before WAL")
  | Some cap => update (fun b => set_wires b (mkVec (wires b) cap))
  end.

Definition reserve_typed_exact_append (p : Prepared) : BufM WalTypedExactAppendReservation :=
  prune_durable_typed_exact_wire_records ;;
  let! b := buffer in
  if negb (typed_exact_tentative_count b =? 0) then
    throw (ProposalFailed
      "typed exact WAL group admission is busy behind a tentative pre-claim owner")
  else
    match p_exact p with
    | None =>
        throw (Durability "typed exact WAL reservation requires a prebuilt exact canonical record")
    | Some exact =>
        let expected := serialized_record_bytes (EnvelopeExact.footprint (xa_encoding exact)) in
        if negb (vec_len (bytes (xa_serialized exact)) =? expected) ||
           negb (ptr_eq (xa_packed exact) (payload (p_record p))) ||
           negb (stable_transaction_id (xa_header exact) =? txn_id (p_record p)) then
          throw (Durability "typed exact canonical record binding diverged before WAL reservation")
        else
          let! credit := reserve_credit expected in
          let! rest := attempt
            (reserve_slots ;;
             let! prior := preflight_typed_exact_serial_admission expected
               (Canonical.identity (xa_header exact)) in
             let! b := buffer in
             ret (mkReservation (canonical_append_reservation_owner_id b) (len b)
                    (capacity (records b)) (vec_len (wires b)) (capacity (exact_typed_wire_records b))
                    (canonical_append_reservation_generation b) expected
                    (canonical_catalog_tail b) prior (Some exact) (Some p) (Some credit) StatePrepared)) in
          match rest with
          | Ok r => ret r
          | Err e => drop_credit credit ;; throw e
          end
    end.

(** The reservation without what it gave away. *)
Definition set_reservation (r : WalTypedExactAppendReservation) (p : option Prepared)
    (credit : option TypedExactPendingCredit) (st : TypedExactAppendState) : WalTypedExactAppendReservation :=
  mkReservation (expected_owner_id r) (expected_records_len r) (expected_records_capacity r)
    (expected_exact_wire_len r) (expected_exact_wire_capacity r) (expected_generation r)
    (expected_serialized_len r) (prior_catalog_tail r) (prior_durable_identity_binding r)
    (rollback_authority r) p credit st.

Definition is_state_prepared (st : TypedExactAppendState) : bool :=
  match st with StatePrepared => true | StateTentative _ _ => false end.

(** The frontiers of the buffer are those the reservation was made for. *)
Definition append_state_drifted (b : WalBuffer) (r : WalTypedExactAppendReservation) : bool :=
  negb (canonical_append_reservation_owner_id b =? expected_owner_id r) ||
  negb (len b =? expected_records_len r) ||
  negb (capacity (records b) =? expected_records_capacity r) ||
  negb (vec_len (wires b) =? expected_exact_wire_len r) ||
  negb (capacity (exact_typed_wire_records b) =? expected_exact_wire_capacity r) ||
  negb (typed_exact_tentative_count b =? 0) ||
  negb (canonical_append_reservation_generation b =? expected_generation r) ||
  negb (is_state_prepared (reservation_state r)).

Definition binding_drifted (r : WalTypedExactAppendReservation) (record : SharedRecord)
    (exact : ExactAuthority) : bool :=
  negb (vec_len (bytes (xa_serialized exact)) =? expected_serialized_len r) ||
  negb (ptr_eq (xa_packed exact) (payload record)) ||
  negb (stable_transaction_id (xa_header exact) =? txn_id record) ||
  match rollback_authority r with
  | None => true
  | Some authority => negb (ptr_eq (xa_serialized authority) (xa_serialized exact))
  end.

(** The two pushes into reserved capacity and the frontiers they move. *)
Definition push_tentative (record : SharedRecord) (tail : CanonicalCatalogTail) (exact : ExactAuthority)
    (credit : TypedExactPendingCredit) : BufM unit :=
  let! b := buffer in
  update (fun b => set_records b (vec_push (records b) record)) ;;
  update (fun b => set_wires b (vec_push (exact_typed_wire_records b)
    (mkWire (len b - 1) (xa_packed exact) (xa_serialized exact) Tentative credit))) ;;
  let! b' := buffer in
  assert (capacity (records b') =? capacity (records b)) ;;
  assert (capacity (exact_typed_wire_records b') =? capacity (exact_typed_wire_records b)) ;;
  update (fun b => set_binding (set_catalog_tail b (Known (len b) (Some tail)))
    (mkBinding (Some (Canonical.identity (xa_header exact))) (len b))) ;;
  invalidate_canonical_append_reservations ;;
  update (fun b => set_tentative_count b 1).

(** The reservation is borrowed: its new value is returned with the [Result]. *)
Definition append_typed_exact_tentative (r : WalTypedExactAppendReservation)
    : BufM (WalTypedExactAppendReservation * result unit EngineError) :=
  let! b := buffer in
  if append_state_drifted b r then
    ret (r, Err (Durability "typed exact WAL append state drifted before tentative consumption"))
  else
    match prepared r, reserved_credit r with
    | None, _ => ret (r, Err (Durability "typed exact WAL record was already consumed"))
    | Some _, None =>
        ret (set_reservation r None None (reservation_state r),
             Err (Durability "typed exact WAL append lost its pre-proposal bounded group credit"))
    | Some p, Some credit =>
        let r := set_reservation r None None (reservation_state r) in
        let refuse e := drop_credit credit ;; ret (r, Err (Durability e)) in
        match p_exact p with
        | None => refuse "typed exact WAL record lost its outer wire authority"
        | Some exact =>
            if binding_drifted r (p_record p) exact then
              refuse "typed exact WAL record binding drifted before tentative append"
            else if negb (bool_decide (durable_identity_binding b = prior_durable_identity_binding r)) then
              refuse "typed exact WAL lineage verification frontier drifted before tentative append"
            else
              push_tentative (p_record p) (p_tail p) exact credit ;;
              let! b := buffer in
              ret (set_reservation r None None
                     (StateTentative (len b - 1) (canonical_append_reservation_generation b)), Ok tt)
        end
    end.

(** What rollback and claim require of the frontiers. *)
Definition tentative_drifted (b : WalBuffer) (r : WalTypedExactAppendReservation)
    (position generation : Z) : bool :=
  negb (canonical_append_reservation_owner_id b =? expected_owner_id r) ||
  negb (bool_decide (checked_add64 position 1 = Some (len b))) ||
  negb (vec_len (wires b) =? saturating_add64 (expected_exact_wire_len r) 1) ||
  negb (canonical_append_reservation_generation b =? generation) ||
  negb (typed_exact_tentative_count b =? 1).

Definition wire_drifted (r : WalTypedExactAppendReservation) (position : Z)
    (wire : ExactTypedWireRecord) (record : SharedRecord) (authority : ExactAuthority) : bool :=
  negb (record_index wire =? position) || negb (is_tentative wire) ||
  negb (serialized_len wire =? expected_serialized_len r) ||
  negb (ptr_eq (packed_payload wire) (payload record)) ||
  negb (ptr_eq (packed_payload wire) (xa_packed authority)) ||
  negb (ptr_eq (serialized_record wire) (xa_serialized authority)).

(** The mutations of a rollback, once everything is validated. *)
Definition pop_tentative (r : WalTypedExactAppendReservation) : BufM unit :=
  update (fun b => set_wires (set_records b (with_elems (records b) (removelast (elems (records b)))))
                     (with_elems (exact_typed_wire_records b) (removelast (wires b)))) ;;
  update (fun b => set_binding (set_catalog_tail b (prior_catalog_tail r)) (prior_durable_identity_binding r)) ;;
  invalidate_canonical_append_reservations ;;
  update (fun b => set_tentative_count b 0).

Definition rollback_typed_exact_append (r : WalTypedExactAppendReservation)
    : BufM (WalTypedExactAppendReservation * result unit EngineError) :=
  match reservation_state r with
  | StatePrepared => ret (r, Ok tt)
  | StateTentative position generation =>
      let! b := buffer in
      let refuse e := ret (r, Err (Durability e)) in
      if tentative_drifted b r position generation then
        refuse "typed exact WAL rollback state drifted after proposal"
      else
        match last (wires b) with
        | None => refuse "typed exact WAL rollback lost its serialized-byte authority"
        | Some wire =>
            match canonical_catalog_tail b with
            | Known record_count (Some tail) =>
                if negb (record_count =? position + 1) then
                  refuse "typed exact WAL catalog-tail frontier drifted before rollback"
                else
                  let! record := expect (last (elems (records b))) in
                  match rollback_authority r with
                  | None => refuse "typed exact WAL rollback lost its immutable authority"
                  | Some authority =>
                      if wire_drifted r position wire record authority then
                        refuse "claimed or drifted typed exact WAL position cannot be rolled back"
                      else
                        pop_tentative r ;;
                        let! b := buffer in
                        ret (mkReservation (expected_owner_id r) (len b) (capacity (records b))
                               (vec_len (wires b)) (capacity (exact_typed_wire_records b))
                               (canonical_append_reservation_generation b) (expected_serialized_len r)
                               (prior_catalog_tail r) (prior_durable_identity_binding r) None
                               (Some (mkPreparedRecord record tail (Some authority)))
                               (Some (pending_group_credit wire)) StatePrepared, Ok tt)
                  end
            | _ => refuse "typed exact WAL catalog-tail frontier drifted before rollback"
            end
        end
  end.

(** The reservation is consumed; when the claim is refused it is dropped. *)
Definition claim_typed_exact_append (r : WalTypedExactAppendReservation) : BufM Z :=
  let refuse e := drop_reservation r ;; throw (Durability e) in
  match reservation_state r with
  | StatePrepared => refuse "typed exact WAL claim requires a tentative append"
  | StateTentative position generation =>
      let! b := buffer in
      if tentative_drifted b r position generation then
        refuse "typed exact WAL claim state drifted after proposal"
      else
        match last (wires b) with
        | None => refuse "typed exact WAL claim lost its serialized-byte authority"
        | Some wire =>
            if negb (record_index wire =? position) || negb (is_tentative wire) then
              refuse "typed exact WAL position was already claimed"
            else
              update (fun b => set_wires b (with_elems (exact_typed_wire_records b)
                (removelast (wires b) ++ [set_wire_state wire ClaimedPending]))) ;;
              update (fun b => set_highest_claimed (set_tentative_count b 0)
                (Some (match highest_claimed_typed_exact_record b with
                       | Some prior => Z.max prior position
                       | None => position
                       end))) ;;
              drop_reservation r ;;
              ret (position + 1)
        end
  end.

(** ** Group flushes *)

Record SerialFlushJob := mkJob {
  job_file : Path;
  job_offset : Z;
  job_target_records : Z;
  job_group_size : Z;
  job_group : PreparedWalGroup;
}.

Inductive WalGroupFlushBegin :=
| Job (job : SerialFlushJob)
| Clean (flushed_records : Z)
| BeginBusy.

Definition begin_in_memory : BufM WalGroupFlushBegin :=
  let! b := buffer in
  let! selected := of_result (select_prepared_group_prefix b (flushed_memory b) None) in
  match selected with
  | None => ret (Clean (flushed_memory b))
  | Some prefix =>
      let! group := handoff_prepared_group prefix in
      match group with
      | None => ret BeginBusy
      | Some group =>
          update (fun b => set_flushed_memory b (px_target_records prefix)) ;;
          update_arena (fun a => finish_success a group) ;;
          ret (Clean (px_target_records prefix))
      end
  end.

(** The prefix of a serial group; one with exact records stays inside the preallocated extent. *)
Definition serial_prefix (b : WalBuffer) (s : WalDurableState) : result (option WalGroupPrefix) EngineError :=
  let? natural := select_prepared_group_prefix b (flushed_records s) None in
  match natural with
  | None => Ok None
  | Some natural =>
      if px_exact_records natural =? 0 then Ok (Some natural)
      else if prealloc_bytes s <? durable_bytes s then
        Err (Durability "serial WAL preallocation frontier is behind its durable tail")
      else
        let? capped := select_prepared_group_prefix b (flushed_records s)
          (Some (prealloc_bytes s - durable_bytes s)) in
        match capped with
        | None => Ok None
        | Some prefix =>
            if negb (px_exact_records prefix =? 0) &&
               (negb (bool_decide (is_Some (file s))) ||
                match checked_add64 (durable_bytes s) (px_wire_bytes prefix) with
                | None => true
                | Some end_ => prealloc_bytes s <? end_
                end) then
              Err (Durability "claimed typed exact WAL group escaped its pre-proposal serial extent")
            else Ok (Some prefix)
        end
  end.

(** The extent of a group without exact records: created on demand, unless an exact record waits
    behind it, whose reservation created the extent. *)
Definition legacy_extent (prefix : WalGroupPrefix) : BufM unit :=
  let! b := buffer in
  if negb (px_exact_records prefix =? 0) then ret tt
  else if bool_decide (wires b = []) then
    on_core
      (ensure_created pid chunk ;;
       let! s := get_state in
       let! write_end := of_result (ok_or (checked_add64 (durable_bytes s) (px_wire_bytes prefix))
         (Durability "WAL group preallocation overflow")) in
       ensure_preallocated_through chunk write_end)
  else
    let! core := expect (durable b) in
    let s := state core in
    let! write_end := of_result (ok_or (checked_add64 (durable_bytes s) (px_wire_bytes prefix))
      (Durability "WAL group extent validation overflow")) in
    if negb (bool_decide (is_Some (file s))) || (prealloc_bytes s <? write_end) then
      throw (Durability
        "legacy prefix before a claimed typed exact WAL owner escaped its pre-proposal serial extent")
    else ret tt.

Definition begin_serial (core : WalDurableCore) : BufM WalGroupFlushBegin :=
  match fixed_fault core with
  | Some fault => throw (DurabilityFaultError fault)
  | None =>
      let s := state core in
      if io_in_flight s then ret BeginBusy
      else
        match poisoned s with
        | Some reason => throw (poisoned_error core reason)
        | None =>
            let! b := buffer in
            let! selected := of_result (serial_prefix b s) in
            match selected with
            | None => ret (Clean (flushed_records s))
            | Some prefix =>
                (if bool_decide (wires b = []) then
                   verify_through (segment_path core) (px_target_records prefix)
                 else ret tt) ;;
                legacy_extent prefix ;;
                let! b := buffer in
                let! core := expect (durable b) in
                let! f := expect (file (state core)) in
                let! group := handoff_prepared_group prefix in
                match group with
                | None => ret BeginBusy
                | Some group =>
                    on_core (put_state (fun s => set_io_in_flight s true)) ;;
                    ret (Job (mkJob f (durable_bytes (state core)) (px_target_records prefix)
                                (group_size prefix) group))
                end
            end
        end
  end.

Definition begin_group_flush : BufM WalGroupFlushBegin :=
  prune_durable_typed_exact_wire_records ;;
  require_no_unclaimed_typed_exact_tail ;;
  let! b := buffer in
  if fail_next_flush b then
    update (fun b => set_fail_next_flush b false) ;;
    throw (Durability "simulated wal flush failure")
  else
    match durable b with
    | None => begin_in_memory
    | Some core => begin_serial core
    end.

(** ** Jobs *)

(** The write and the sync of a job, as far as the kernel answered. *)
Definition job_io (writes syncs : list Answer) (job : SerialFlushJob) (w : World)
    : World * option (result unit DurabilityFault) :=
  match write_all_vectored_at writes w (job_file job) (job_group job) (job_offset job) with
  | (w, Some (Ok _)) => sync_data_retry_interrupted syncs w (job_file job) (job_group job)
  | (w, r) => (w, r)
  end.

(** [serial_exact_fault]. *)
Definition serial_exact_fault (g : PreparedWalGroup) (f : DurabilityFault) : BufM Z :=
  let! first := on_core (fun s =>
    let '(core, first) := install_fixed_fault s.1 f in Done (core, s.2) (Ok first)) in
  let! first := expect first in
  update_arena (fun a => poison a g first) ;;
  on_core (put_state (fun s => set_io_in_flight s false)) ;;
  throw (DurabilityFaultError first).

(** The end of the group, when it is where the job was started and within the extent. *)
Definition settled_end (s : WalDurableState) (job : SerialFlushJob) : option Z :=
  end_ ← checked_add64 (job_offset job) (wire_bytes (job_group job));
  if (durable_bytes s =? job_offset job) && (end_ <=? prealloc_bytes s) then Some end_ else None.

(** The new frontier after a group of [job] is durable up to [end_]. *)
Definition advance_frontier (job : SerialFlushJob) (end_ : Z) (s : WalDurableState) : WalDurableState :=
  set_io_in_flight
    (note_group (set_durable_bytes s end_) (job_group_size job) (job_target_records job)) false.

(** What [serial_exact_post_handoff] does once the input and output has ended. *)
Definition serial_exact_post_handoff (job : SerialFlushJob) (io : result unit DurabilityFault) : BufM Z :=
  let g := job_group job in
  match io with
  | Err f => serial_exact_fault g f
  | Ok _ =>
      let! b := buffer in
      let! core := expect (durable b) in
      match settled_end (state core) job with
      | None => serial_exact_fault g (fault g FrontierDrift None)
      | Some end_ =>
          on_core (put_state (advance_frontier job end_)) ;;
          update_arena (fun a => finish_success a g) ;;
          ret (job_target_records job)
      end
  end.

(** What [serial_legacy_post_handoff] does once the input and output has ended. *)
Definition serial_legacy_post_handoff (job : SerialFlushJob) (io : result unit DurabilityFault) : BufM Z :=
  let g := job_group job in
  on_core (put_state (fun s => set_io_in_flight s false)) ;;
  let! b := buffer in
  let! core := expect (durable b) in
  let shown := display (segment_path core) in
  match io with
  | Ok _ =>
      match settled_end (state core) job with
      | Some end_ =>
          on_core (put_state (advance_frontier job end_)) ;;
          update_arena (fun a => finish_success a g) ;;
          ret (job_target_records job)
      | None =>
          let f := fault g FrontierDrift None in
          update_arena (fun a => poison a g f) ;;
          on_core (put_state (fun s => set_poisoned s
            (Some ("serial WAL group frontier drifted (" +:+ DurabilityFault_fmt f +:+ ")")))) ;;
          throw (Durability ("serial WAL group frontier drifted for " +:+ shown +:+ ": " +:+
                             DurabilityFault_fmt f))
      end
  | Err f =>
      update_arena (fun a => poison a g f) ;;
      on_core (put_state (fun s => set_poisoned s
        (Some ("group flush failed (" +:+ DurabilityFault_fmt f +:+ ")")))) ;;
      throw (Durability ("failed to flush WAL segment group " +:+ shown +:+ ": " +:+
                         DurabilityFault_fmt f))
  end.

(** [SerialFlushJob::commit] once the input and output has ended. *)
Definition finish_job (job : SerialFlushJob) (io : result unit DurabilityFault) : BufM Z :=
  if contains_exact (job_group job) then serial_exact_post_handoff job io
  else serial_legacy_post_handoff job io.

(** [WalGroupFlushJob::commit]; it waits when the kernel has not answered. *)
Definition commit (writes syncs : list Answer) (job : SerialFlushJob) : BufM Z := fun s =>
  match job_io writes syncs job s.2 with
  | (w, Some io) => finish_job job io (s.1, w)
  | (_, None) => Wait
  end.

(** [Drop for WalGroupFlushJob]: [SerialFlushJob::abandon]. *)
Definition abandon (job : SerialFlushJob) : BufM unit :=
  let g := job_group job in
  let f := fault g Abandoned None in
  if contains_exact g then
    let! first := on_core (fun s =>
      let '(core, first) := install_fixed_fault s.1 f in Done (core, s.2) (Ok first)) in
    let! first := expect first in
    update_arena (fun a => poison a g first) ;;
    on_core (put_state (fun s => set_io_in_flight s false))
  else
    update_arena (fun a => poison a g f) ;;
    on_core (put_state (fun s => set_poisoned (set_io_in_flight s false)
      (Some "group flush abandoned mid-IO"))).

(** The loop of [flush_all]; [answers] are those of the kernel for each job in turn.  Every turn
    makes at least one more record durable, so the number of records is fuel enough. *)
Fixpoint flush_loop (fuel : nat) (answers : list (list Answer * list Answer)) (target : Z) : BufM unit :=
  match fuel with
  | O => panic
  | S fuel =>
      let settle answers :=
        let! b := buffer in
        if target <=? flushed_count b then prune_durable_typed_exact_wire_records
        else flush_loop fuel answers target in
      let! begun := begin_group_flush in
      match begun with
      | Clean flushed_records =>
          if target <=? flushed_records then prune_durable_typed_exact_wire_records else settle answers
      | Job job =>
          match answers with
          | [] => wait
          | (writes, syncs) :: answers => commit writes syncs job ;; settle answers
          end
      | BeginBusy =>
          let! b := buffer in
          match durable b with
          | Some _ => wait
          | None => throw (Durability "in-memory WAL group descriptor remained busy")
          end
      end
  end.

Definition flush_all (answers : list (list Answer * list Answer)) : BufM unit :=
  prune_durable_typed_exact_wire_records ;;
  require_no_unclaimed_typed_exact_tail ;;
  let! b := buffer in
  flush_loop (S (length (elems (records b)))) answers (len b).

(** ** Truncation *)

Definition encoded_len (record : SharedRecord) : Z := Wal.encoded_record_len (erase record).

Definition sum (l : list Z) : Z := List.fold_right Z.add 0 l.

(** A call whose failure poisons the core with a [reason]. *)
Definition or_poison {E A} (reason : E -> string) (fail : E -> EngineError) (m : M World E A)
    : M (WalDurableCore * World) EngineError A := fun t =>
  match m t.2 with
  | Panic => Panic
  | Wait => Wait
  | Done w (Ok a) => Done (t.1, w) (Ok a)
  | Done w (Err e) =>
      Done (set_state t.1 (set_poisoned (state t.1) (Some (reason e))), w) (Err (fail e))
  end.

(** The rewind of the segment when a cut goes below the durable watermark. *)
Definition rewind_segment (new_len disowned_bytes : Z) : M (WalDurableCore * World) EngineError unit :=
  let! s := get_state in
  (match file s with
   | Some f =>
       if 0 <? disowned_bytes then
         let target := saturating_sub (durable_bytes s) disowned_bytes in
         let! cut := attempt
           (or_poison (fun err => "durable-prefix truncate rewind failed (" +:+ err +:+ ")") Durability
              (set_len f target ;; sync_file f)) in
         match cut with
         | Err _ => ret tt
         | Ok _ => put_state (fun s => set_prealloc_bytes (set_durable_bytes s target) target)
         end
       else ret tt
   | None => ret tt
   end) ;;
  put_state (fun s => set_flushed_records s new_len).

Definition truncate_backing (new_len : Z) : BufM unit :=
  let! b := buffer in
  match durable b with
  | None =>
      update (fun b => set_records b (with_elems (records b) (take (Z.to_nat new_len) (elems (records b))))) ;;
      update (fun b => if len b <? flushed_memory b then set_flushed_memory b (len b) else b)
  | Some core =>
      let s := state core in
      (if new_len <? flushed_records s then
         if io_in_flight s then wait
         else
           let! disowned := expect (slice (elems (records b))
             (Z.max new_len (segment_base_records s)) (flushed_records s)) in
           on_core (rewind_segment new_len (sum (encoded_len <$> disowned)))
       else ret tt) ;;
      update (fun b => set_records b (with_elems (records b) (take (Z.to_nat new_len) (elems (records b)))))
  end.

Definition truncate (new_len : Z) : BufM unit :=
  let! b := buffer in
  if len b <=? new_len then ret tt
  else
    assert (match highest_claimed_typed_exact_record b with
            | Some claimed => negb (new_len <=? claimed)
            | None => true
            end) ;;
    assert (negb (has_typed_exact_wire_at_or_after b new_len)) ;;
    update (fun b =>
      let binding := durable_identity_binding b in
      set_binding b (mkBinding (binding_identity binding) (Z.min (verified_records binding) new_len))) ;;
    truncate_backing new_len ;;
    update (fun b => set_catalog_tail b (if bool_decide (elems (records b) = []) then Known 0 None else Dirty)) ;;
    invalidate_canonical_append_reservations.

(** [truncate_durable_segment_prefix] up to the point where the old handle is closed. *)
Definition check_rotation (b : WalBuffer) (core : WalDurableCore) (base : Z) : result unit EngineError :=
  let s := state core in
  match fixed_fault core with
  | Some fault => Err (DurabilityFaultError fault)
  | None =>
      if flushed_records s <? base then
        Err (Durability ("WAL segment prefix truncation boundary " +:+ pretty base +:+
          " exceeds the durable watermark " +:+ pretty (flushed_records s)))
      else if base <? segment_base_records s then
        Err (Durability ("WAL segment prefix truncation boundary " +:+ pretty base +:+
          " precedes the existing checkpoint base " +:+ pretty (segment_base_records s)))
      else Ok tt
  end.

(** The rewrite, reopening and preallocation of the live segment. *)
Definition rotate_segment (retained : list Wal.WalRecord) (bound : option CanonicalIdentity) (base : Z)
    : M (WalDurableCore * World) EngineError unit :=
  let! seg := get_path in
  put_state (fun s => set_file s None) ;;
  or_poison (fun err => "prefix-truncation rewrite failed (" +:+ EngineError_to_string err +:+ ")") id
    (match bound with
     | Some identity => rewrite_wal_segment_requiring_durable_identity sha256 pid seg retained identity
     | None => write_wal_segment sha256 pid try_reserve_exact seg retained
     end) ;;
  or_poison (fun err => "prefix-truncation dir fsync failed (" +:+ EngineError_to_string err +:+ ")") id
    (sync_segment_parent_dir seg) ;;
  or_poison (fun err => "post-truncation reopen failed (" +:+ err +:+ ")")
    (fun err => Durability ("failed to reopen WAL segment after prefix truncation " +:+
                            display seg +:+ ": " +:+ err))
    (open seg) ;;
  let durable_bytes := vec_len Wal.WAL_SEGMENT_MAGIC + sum (Wal.encoded_record_len <$> retained) in
  let prealloc_to := Z.max durable_bytes chunk in
  or_poison (fun err => "post-truncation preallocation failed (" +:+ err +:+ ")")
    (fun err => Durability ("failed to re-preallocate WAL segment after prefix truncation " +:+
                            display seg +:+ ": " +:+ err))
    (zero_fill_extend seg durable_bytes prealloc_to) ;;
  put_state (fun s => set_poisoned (set_segment_base_records
    (set_durable_bytes (set_file (set_prealloc_bytes s prealloc_to) (Some seg)) durable_bytes) base) None) ;;
  record_tail_offset pid.

Definition truncate_durable_segment_prefix (base : Z) : BufM unit :=
  let! b := buffer in
  match durable b with
  | None => throw (Durability "cannot truncate the segment prefix of an in-memory WAL buffer")
  | Some core =>
      if io_in_flight (state core) then wait
      else
        of_result (check_rotation b core base) ;;
        let bound := binding_identity (durable_identity_binding b) in
        (match bound with
         | Some identity => on_disk (require_durable_identity sha256 (segment_path core) identity)
         | None => ret tt
         end) ;;
        let! retained := expect (slice (logical_records b) base (flushed_records (state core))) in
        on_core (rotate_segment retained bound base)
  end.

(** Dropping the buffer drops its core. *)
Definition drop_buffer : BufM unit :=
  let! b := buffer in
  match durable b with
  | None => ret tt
  | Some _ => on_core (drop_core pid)
  end.

End operations.

End WalBuffer.
