(* ===== verification/DiskFacts.v ===== *)
(** * What the calls on one file leave of another

    [frame p w w'] says that between [w] and [w'] the file [p] was not touched; every call on
    other names is framed.  The calls on [p] itself are described by what they leave in it. *)

From stdpp Require Import base gmap strings list pretty.
From S2P Require Import Prelude Types Bytes Text Paths Effects Disk Sidecar WalSegment WalProps Codec Canonical Envelope Identity WalCore.

Module DiskFacts.
Import Paths Disk Effects Identity WalCore.

Definition frame (p : Path) (w w' : World) : Prop :=
  names w' !! p = names w !! p /\
  (unsynced_names w' !! p = unsynced_names w !! p \/ unsynced_names w' !! p = None).

#[export] Instance frame_refl p : Reflexive (frame p).
Proof. intros w. split; auto. Qed.

#[export] Instance frame_trans p : Transitive (frame p).
Proof. intros a b c [H1 H2] [H3 H4]. split; [congruence|]. destruct H2, H4; (left; congruence) || (right; congruence). Qed.

Lemma frame_versions p w w' v : frame p w w' -> v ∈ versions w' p -> v ∈ versions w p.
Proof.
  intros [Hn Hu]. unfold versions. rewrite Hn. rewrite !elem_of_cons. intros [->|Hv]; [by left|].
  destruct Hu as [Hu|Hu]; rewrite Hu in Hv; [by right|]. by apply elem_of_nil in Hv.
Qed.

(** [m] leaves [p] alone. *)
Definition frames {E A} (p : Path) (m : M World E A) : Prop := forall w, wp m (fun w' _ => frame p w w') w.

Lemma frames_ret {E A} p (a : A) : frames (E := E) p (ret a).
Proof. intros w. by apply wp_ret. Qed.

Lemma frames_throw {E A} p (e : E) : frames (A := A) p (throw e).
Proof. intros w. by apply wp_throw. Qed.

Lemma frames_of_result {E A} p (r : result A E) : frames p (of_result r).
Proof. intros w. by apply wp_of_result. Qed.

Lemma frames_get {E} p : frames (E := E) p get.
Proof. intros w. by apply wp_get. Qed.

Lemma frames_bind {E A B} p (m : M World E A) (f : A -> M World E B) :
  frames p m -> (forall a, frames p (f a)) -> frames p (bind m f).
Proof.
  intros Hm Hf w. apply wp_bind. eapply wp_mono; [apply Hm|]. intros w' [a|e] H; [|done].
  eapply wp_mono; [apply Hf|]. intros w'' r H'. by etrans.
Qed.

Lemma frames_map_err {E E' A} p (f : E -> E') (m : M World E A) : frames p m -> frames p (map_err f m).
Proof. intros Hm w. apply wp_map_err. eapply wp_mono; [apply Hm|]. done. Qed.

Lemma frames_attempt {E A} p (m : M World E A) : frames p m -> frames p (attempt m).
Proof. intros Hm w. apply wp_attempt. eapply wp_mono; [apply Hm|]. done. Qed.

Lemma frames_modify {E} p f : (forall w, frame p w (f w)) -> frames (E := E) p (modify f).
Proof. intros Hf w. by apply wp_modify. Qed.

Lemma frame_set_inode p q i w : q <> p -> frame p w (set_inode w q i).
Proof. intros. split; [|by left]. cbn. by rewrite lookup_insert_ne. Qed.

Lemma frame_set_name p q v w : q <> p -> frame p w (set_name w q v).
Proof.
  intros. split; [|left]; cbn; [by rewrite lookup_partial_alter_ne|by rewrite lookup_insert_ne].
Qed.

Lemma frames_next_fault p : frames p next_fault.
Proof. intros w. unfold next_fault, wp. destruct (faults w); split; auto. Qed.

Create HintDb framed discriminated.
#[export] Hint Resolve frames_ret frames_throw frames_of_result frames_get frames_bind frames_map_err
  frames_attempt frames_modify frame_set_inode frame_set_name frames_next_fault : framed.
#[export] Hint Constants Opaque : framed.

Ltac framed_step :=
  lazymatch goal with
  | |- frames _ (match ?x with _ => _ end) => destruct x
  | |- frames _ (if ?b then _ else _) => destruct b
  | |- frames _ (bind _ _) => apply frames_bind; [|intros ?]
  | |- frames _ (attempt _) => apply frames_attempt
  | |- frames _ (map_err _ _) => apply frames_map_err
  | |- frames _ (let '_ := ?x in _) => destruct x
  | |- _ => solve [eauto with framed]
  end.

Ltac framed := repeat framed_step.

Section calls.
Context (p q : Path) (Hne : q <> p).

Lemma frames_fallible : frames p fallible.
Proof. unfold fallible. framed. Qed.
#[local] Hint Resolve frames_fallible : framed.

Lemma frames_create : frames p (create q).
Proof. unfold create. framed. apply frames_modify. intros w. destruct (names w !! q); auto with framed. Qed.

Lemma frames_open : frames p (open q).
Proof. unfold open. framed. Qed.

Lemma frames_write_all_at offset b : frames p (write_all_at q offset b).
Proof. unfold write_all_at. framed. Qed.

Lemma frames_append_all b : frames p (append_all q b).
Proof. unfold append_all. framed. apply frames_write_all_at. Qed.

Lemma frames_sync_file : frames p (sync_file q).
Proof. unfold sync_file. framed. Qed.

Lemma frames_remove_file : frames p (remove_file q).
Proof.
  intros w. unfold wp, remove_file.
  assert (frames p (attempt (fallible ;; modify (fun w => if names w !! q then set_name w q None else w)))) as H.
  { apply frames_attempt. framed. apply frames_modify. intros w'. destruct (names w' !! q); auto with framed. reflexivity. }
  specialize (H w). unfold wp in H. by destruct (attempt _ w).
Qed.

Lemma frames_unlink : frames p (unlink q).
Proof. unfold unlink. framed. Qed.

Lemma frames_rename q' : q' <> p -> frames p (rename q q').
Proof.
  intros Hq'. unfold rename. framed. apply frames_modify. intros w. etrans; by apply frame_set_name.
Qed.

Lemma frames_read_string : frames p (read_string q).
Proof. unfold read_string. framed. Qed.

Lemma frames_sync_dir d : frames p (sync_dir d).
Proof.
  unfold sync_dir. framed. apply frames_modify. intros w. split; [done|]. cbn.
  destruct (filter _ (unsynced_names w) !! p) as [v|] eqn:E; [|by right].
  apply map_lookup_filter_Some in E as [E _]. left. by rewrite E.
Qed.

End calls.

#[export] Hint Resolve frames_fallible frames_create frames_open frames_write_all_at frames_append_all
  frames_sync_file frames_remove_file frames_unlink frames_rename frames_read_string frames_sync_dir : framed.

(** ** Control files *)

Lemma frames_sync_parent p seg : frames p (sync_segment_parent_dir seg).
Proof. unfold sync_segment_parent_dir, os. framed. Qed.

Lemma frames_create_dirs p d : frames p (create_wal_dir_all d).
Proof. unfold create_wal_dir_all, os. framed. Qed.

#[export] Hint Resolve frames_sync_parent frames_create_dirs : framed.

(** The files the buffer keeps beside its segment have names of their own, and the segment is in
    a directory that can be synced. *)
Record own_paths (pid : Z) (seg : Path) : Prop := mkOwnPaths {
  op_tail : Sidecar.wal_tail_offset_path seg <> seg;
  op_tail_temp : Sidecar.temporary_control_path pid (Sidecar.wal_tail_offset_path seg) <> seg;
  op_identity : durable_identity_path seg <> seg;
  op_identity_temp : Sidecar.temporary_control_path pid (durable_identity_path seg) <> seg;
  op_temp : temporary_segment_path pid seg <> seg;
  op_parent : exists d, nonempty_parent seg = Some d;
}.

Section segment.
Context (sha256 : list byte -> list byte) (pid : Z) (try_reserve_exact : Z -> bool) (seg : Path).
Context (Hpaths : own_paths pid seg).

Lemma frames_read_identity : frames seg (read_durable_identity sha256 seg).
Proof. destruct Hpaths. unfold read_durable_identity. framed. Qed.
#[local] Hint Resolve frames_read_identity : framed.

Lemma frames_require_identity id : frames seg (require_durable_identity sha256 seg id).
Proof. unfold require_durable_identity. framed. Qed.

Lemma frames_write_identity id : frames seg (write_durable_identity sha256 pid seg id).
Proof. destruct Hpaths. unfold write_durable_identity, os. framed. Qed.
#[local] Hint Resolve frames_write_identity : framed.

Lemma frames_check_identity id : frames seg (check_or_install_durable_identity sha256 pid seg id).
Proof. unfold check_or_install_durable_identity. framed. Qed.
#[local] Hint Resolve frames_check_identity : framed.

Lemma frames_bind_identity records :
  frames seg (bind_or_install_durable_identity sha256 pid try_reserve_exact seg records).
Proof. unfold bind_or_install_durable_identity. framed. Qed.

Lemma frames_tail n : frames seg (write_wal_tail_offset pid seg n).
Proof. destruct Hpaths. unfold write_wal_tail_offset, os. framed. Qed.

End segment.

(** ** Calls on the file itself *)

(** The file [p] is now [i]; nothing else changed. *)
Definition touched (p : Path) (i : Inode) (w w' : World) : Prop :=
  names w' = <[p := i]> (names w) /\ unsynced_names w' = unsynced_names w.

Lemma touched_lookup p i w w' : touched p i w w' -> names w' !! p = Some i.
Proof. intros [-> _]. by rewrite lookup_insert_eq. Qed.

Lemma touched_trans p i j a b c : touched p i a b -> touched p j b c -> touched p j a c.
Proof. intros [H1 H2] [H3 H4]. split; [by rewrite H3, H1, insert_insert_eq|congruence]. Qed.

Lemma touched_refl p i w : names w !! p = Some i -> touched p i w w.
Proof. intros. split; [by rewrite insert_id|done]. Qed.

Lemma touched_frame p q i w w' : touched p i w w' -> p <> q -> frame q w w'.
Proof. intros [Hn Hu] Hne. split; [by rewrite Hn, lookup_insert_ne|left; by rewrite Hu]. Qed.

Lemma wp_fallible_touch p w i (Q : World -> result unit string -> Prop) :
  names w !! p = Some i ->
  (forall w' r, touched p i w w' -> names w' = names w -> Q w' r) -> wp fallible Q w.
Proof.
  intros Hi HQ. unfold fallible, next_fault, wp, bind. destruct (faults w) as [|[f|] fs]; cbn;
    apply HQ; try done; split; cbn; by rewrite ?insert_id.
Qed.

Lemma wp_write p offset b w i (Q : World -> result unit string -> Prop) :
  names w !! p = Some i ->
  (forall w' bs r, touched p (write_inode i offset bs) w w' -> (is_ok r = true -> bs = b) -> Q w' r) ->
  wp (write_all_at p offset b) Q w.
Proof.
  intros Hi HQ. unfold write_all_at, next_fault, wp, bind, get. destruct (faults w) as [|[f|] fs]; cbn; rewrite Hi; cbn.
  - apply (HQ _ b); [|done]. by split.
  - apply (HQ _ (take (Z.to_nat (transferred f)) b)); [|done]. by split.
  - apply (HQ _ b); [|done]. by split.
Qed.

Lemma wp_sync_exact p w i (Q : World -> result unit string -> Prop) :
  names w !! p = Some i ->
  (forall w' r i', touched p i' w w' -> data i' = data i ->
     (i' = i \/ synced i' = vec_len (data i)) -> (is_ok r = true -> i' = mkNode (data i) (vec_len (data i)) true) -> Q w' r) ->
  wp (sync_file p) Q w.
Proof.
  intros Hi HQ. unfold sync_file, fallible, next_fault, wp, bind, get. destruct (faults w) as [|[f|] fs]; cbn;
    rewrite ?Hi; cbn.
  - eapply (HQ _ _ (mkNode (data i) (vec_len (data i)) true)); auto. split; done.
  - apply (HQ _ _ i); auto; [|done]. split; [by rewrite insert_id|done].
  - eapply (HQ _ _ (mkNode (data i) (vec_len (data i)) true)); auto. split; done.
Qed.

Lemma wp_sync p w i (Q : World -> result unit string -> Prop) :
  names w !! p = Some i ->
  (forall w' r i', touched p i' w w' -> data i' = data i ->
     (i' = i \/ synced i' = vec_len (data i)) -> (is_ok r = true -> synced i' = vec_len (data i)) -> Q w' r) ->
  wp (sync_file p) Q w.
Proof. intros Hi HQ. apply (wp_sync_exact _ _ _ _ Hi). intros w' r i' H1 H2 H3 H4. apply (HQ w' r i'); try done. intros Hr. by rewrite (H4 Hr). Qed.

(** [i'] keeps the first [n] bytes of [i], and those of them that were certain. *)
Definition keeps (n : Z) (i i' : Inode) : Prop :=
  take (Z.to_nat n) (data i') = take (Z.to_nat n) (data i) /\
  vec_len (data i) <= vec_len (data i') /\ Z.min (synced i) n <= synced i' <= vec_len (data i').

Lemma keeps_trans n i j k : keeps n i j -> keeps n j k -> keeps n i k.
Proof. intros (H1 & H2 & H3) (H4 & H5 & H6). split; [congruence|]. lia. Qed.

Lemma keeps_refl n i : synced i <= vec_len (data i) -> keeps n i i.
Proof. intros. split; [done|]. lia. Qed.

Lemma keeps_write n offset bs i :
  0 <= n <= offset -> offset <= vec_len (data i) -> 0 <= synced i -> keeps n i (write_inode i offset bs).
Proof.
  intros Hn Ho Hs. unfold keeps, write_inode. cbn [data synced].
  rewrite overwrite_prefix, length_overwrite by lia. pose proof (vec_len_nonneg bs). split; [done|]. lia.
Qed.

Lemma keeps_sync n i i' :
  synced i <= vec_len (data i) -> data i' = data i -> i' = i \/ synced i' = vec_len (data i) -> keeps n i i'.
Proof. intros Hs Hd Hi. unfold keeps. rewrite Hd. split; [done|]. destruct Hi as [-> | ->]; lia. Qed.

(** ** Preallocation *)

Lemma zero_fill_spec fuel p offset to w i :
  names w !! p = Some i -> 0 <= offset <= vec_len (data i) -> 0 <= synced i <= vec_len (data i) ->
  to - offset <= ZEROS * Z.of_nat fuel ->
  wp (zero_fill fuel p offset to) (fun w' r => exists i',
    touched p i' w w' /\ keeps offset i i' /\ 0 <= synced i' /\ (is_ok r = true -> to <= vec_len (data i'))) w.
Proof.
  revert offset w i. induction fuel as [|fuel IH]; intros offset w i Hi Ho Hs Hf; cbn [zero_fill].
  - destruct (Z.ltb_spec offset to).
    + lia.
    + apply wp_ret. exists i. split_and!; [by apply touched_refl|apply keeps_refl; lia|lia|intros; lia].
  - destruct (Z.ltb_spec offset to).
    2: { apply wp_ret. exists i. split_and!; [by apply touched_refl|apply keeps_refl; lia|lia|intros; lia]. }
    set (n := Z.min (to - offset) ZEROS). apply wp_bind. apply (wp_write _ _ _ _ i); [done|].
    intros w' bs r Ht Hr. pose proof (keeps_write offset offset bs i ltac:(lia) ltac:(lia) ltac:(lia)) as Hk.
    destruct r as [[]|e].
    2: { exists (write_inode i offset bs). split_and!; [done|done| |done]. cbn. lia. }
    specialize (Hr eq_refl) as ->.
    assert (vec_len (replicate (Z.to_nat n) x00) = n) as Hl.
    { unfold vec_len. rewrite length_replicate. unfold n, ZEROS. lia. }
    assert (0 <= synced (write_inode i offset (replicate (Z.to_nat n) x00)) <=
            vec_len (data (write_inode i offset (replicate (Z.to_nat n) x00)))) as Hs'.
    { destruct Hk as (_ & _ & Hk). cbn [synced write_inode] in *. lia. }
    eapply wp_mono; [eapply (IH (offset + n) w' _ (touched_lookup _ _ _ _ Ht))|].
    + cbn [data write_inode]. rewrite length_overwrite by lia. rewrite Hl. unfold n, ZEROS. lia.
    + done.
    + unfold n, ZEROS in *. lia.
    + intros w'' r' (i' & Ht' & Hk' & Hs'' & Hr'). exists i'. split_and!; [by eapply touched_trans| |done|done].
      eapply keeps_trans; [exact Hk|]. destruct Hk' as (H1 & H2 & H3). split_and!; [|done| |lia].
      * apply (f_equal (take (Z.to_nat offset))) in H1. rewrite !take_take, !Nat.min_l in H1 by (unfold n, ZEROS in *; lia). done.
      * unfold n, ZEROS in *. lia.
Qed.

Lemma zero_fill_extend_spec p from to w i :
  names w !! p = Some i -> 0 <= from <= vec_len (data i) -> 0 <= synced i <= vec_len (data i) ->
  wp (zero_fill_extend p from to) (fun w' r => exists i',
    touched p i' w w' /\ keeps from i i' /\ 0 <= synced i' /\
    (is_ok r = true -> to <= vec_len (data i') /\ synced i' = vec_len (data i'))) w.
Proof.
  intros Hi Hf Hs. unfold zero_fill_extend. apply wp_bind. eapply wp_mono; [eapply zero_fill_spec; [done..|]|].
  { pose proof (Z.mul_succ_div_gt (to - from) ZEROS ltac:(done)).
    destruct (Z.le_gt_cases 0 (to - from)); [|unfold ZEROS in *; lia].
    pose proof (Z.div_pos (to - from) ZEROS ltac:(lia) ltac:(done)). lia. }
  intros w' [[]|e] (i' & Ht & Hk & Hs' & Hto).
  - apply (wp_sync _ _ i'); [by eapply touched_lookup|]. intros w'' r i'' Ht' Hd Hor Hok. exists i''.
    assert (synced i' <= vec_len (data i')) as Hle by (by destruct Hk as (_ & _ & _ & ?)).
    split_and!; [by eapply touched_trans| | |].
    + eapply keeps_trans; [exact Hk|]. by apply keeps_sync.
    + destruct Hor as [-> | ->]; [done|]. apply vec_len_nonneg.
    + intros Hr. rewrite Hok by done. rewrite Hd. split; [by apply Hto|done].
  - exists i'. by split_and!.
Qed.

(** ** Writing a whole file *)

Lemma overwrite_end l b : overwrite l (vec_len l) b = l ++ b.
Proof.
  rewrite overwrite_at by (pose proof (vec_len_nonneg l); lia). unfold vec_len. rewrite Nat2Z.id, take_ge by lia.
  by rewrite drop_ge, app_nil_r by lia.
Qed.

Lemma wp_create p w (Q : World -> result unit string -> Prop) :
  (forall w' r, (forall q, q <> p -> frame q w w') -> (is_ok r = true -> names w' !! p = Some (mkInode [] 0)) -> Q w' r) ->
  wp (create p) Q w.
Proof.
  intros HQ. unfold create, fallible, next_fault, wp, bind. destruct (faults w) as [|[f|] fs]; cbn.
  2: { apply HQ; [|done]. intros q _. split; auto. }
  all: apply HQ; [intros q Hq|intros _]; cbn.
  1, 3: destruct (names w !! p); [apply (frame_set_inode q p _ (mkWorld _ _ _))|apply (frame_set_name q p _ (mkWorld _ _ _))]; done.
  all: destruct (names w !! p); cbn; by rewrite ?lookup_insert_eq, ?lookup_partial_alter_eq.
Qed.

Lemma wp_append p b w i (Q : World -> result unit string -> Prop) :
  names w !! p = Some i -> synced i <= vec_len (data i) ->
  (forall w' bs r, touched p (mkInode (data i ++ bs) (synced i)) w w' -> (is_ok r = true -> bs = b) -> Q w' r) ->
  wp (append_all p b) Q w.
Proof.
  intros Hi Hs HQ. unfold append_all. apply wp_bind, wp_get. unfold file_len. rewrite Hi.
  apply (wp_write _ _ _ _ i); [done|]. intros w' bs r Ht Hr. apply (HQ w' bs r); [|done].
  unfold write_inode in Ht. by rewrite overwrite_end, Z.min_l in Ht.
Qed.

Lemma wp_write_records p rs w i (Q : World -> result unit EngineError -> Prop) :
  names w !! p = Some i -> synced i <= vec_len (data i) -> exact i = false ->
  (forall w' bs r, touched p (mkInode (data i ++ bs) (synced i)) w w' ->
     (is_ok r = true -> bs = Wal.encode_records rs) -> Q w' r) ->
  wp (write_records p rs) Q w.
Proof.
  revert w i Q. induction rs as [|record rs IH]; intros w i Q Hi Hs Hx HQ; cbn [write_records].
  - apply wp_ret. apply (HQ w []); [|done]. rewrite app_nil_r. destruct i as [d s x]. cbn in Hx. subst x. by apply touched_refl.
  - apply wp_bind, wp_map_err. apply (wp_append _ _ _ i); [done..|]. intros w' bs [[]|e] Ht Hr.
    2: { by apply (HQ w' bs). }
    rewrite Hr in Ht by done. eapply IH; [by eapply touched_lookup| |done|].
    { cbn. rewrite vec_len_app. pose proof (vec_len_nonneg (Wal.encode_record record)). lia. }
    intros w'' bs' r Ht' Hr'. cbn [data synced] in Ht'. apply (HQ w'' (Wal.encode_record record ++ bs')).
    + rewrite app_assoc. by eapply touched_trans.
    + intros E. by rewrite (Hr' E).
Qed.

Lemma nonempty_parent_Some p d : nonempty_parent p = Some d -> parent p = Some d.
Proof. unfold nonempty_parent. destruct (parent p) as [d'|]; [|done]. destruct (is_empty d'); congruence. Qed.

Lemma wp_sync_dir p d w :
  parent p = Some d ->
  wp (sync_dir d) (fun w' r => frame p w w' /\ (is_ok r = true -> unsynced_names w' !! p = None)) w.
Proof.
  intros Hp. unfold sync_dir. apply wp_bind. eapply wp_mono; [apply frames_fallible|].
  intros w'' [[]|e] Hf'; [|done]. apply wp_modify. split.
  - etrans; [exact Hf'|]. split; [done|]. cbn.
    destruct (filter _ (unsynced_names w'') !! p) as [v|] eqn:E; [|by right].
    apply map_lookup_filter_Some in E as [E _]. left. by rewrite E.
  - intros _. cbn. apply map_lookup_filter_None. right. intros v _. cbn. unfold in_directory.
    rewrite Hp. by rewrite bool_decide_eq_true_2.
Qed.

Lemma wp_sync_parent p w :
  (exists d, nonempty_parent p = Some d) ->
  wp (sync_segment_parent_dir p) (fun w' r => frame p w w' /\ (is_ok r = true -> unsynced_names w' !! p = None)) w.
Proof.
  intros [d Hd]. unfold sync_segment_parent_dir. rewrite Hd.
  apply wp_bind, wp_map_err. eapply wp_mono; [apply frames_fallible|]. intros w' [[]|e] Hf; [|by split].
  apply wp_map_err. eapply wp_mono; [by apply wp_sync_dir, nonempty_parent_Some|].
  intros w'' [[]|e] [Hf' Hu]; (split; [by etrans|done]).
Qed.

(** ** Installing a file

    A file is written under a temporary name, synced and renamed. *)

(** The inode of a completely written and synced file. *)
Definition whole (bytes : list byte) : Inode := mkNode bytes (vec_len bytes) true.

Definition segment_inode (rs : list Wal.WalRecord) : Inode := whole (Wal.segment_bytes rs).

(** A crash finds under [p] what it could find before, or [i]. *)
Definition replaces (p : Path) (i : Inode) (w w' : World) : Prop :=
  forall v, v ∈ versions w' p -> v ∈ versions w p \/ v = Some i.

Lemma frame_replaces p i w w' : frame p w w' -> replaces p i w w'.
Proof. intros Hf v Hv. left. by eapply frame_versions. Qed.

Lemma replaces_frame p i a b c : replaces p i a b -> frame p b c -> replaces p i a c.
Proof. intros H Hf v Hv. apply H. by eapply frame_versions. Qed.

Lemma frame_then_replaces p i a b c : frame p a b -> replaces p i b c -> replaces p i a c.
Proof. intros Hf H v Hv. destruct (H v Hv) as [?|?]; [left|by right]. by eapply frame_versions. Qed.

(** A crash finds [i] under [p]. *)
Definition settled (p : Path) (i : Inode) (w : World) : Prop :=
  names w !! p = Some i /\ unsynced_names w !! p = None.

Lemma settled_versions p i w : settled p i w -> versions w p = [Some i].
Proof. intros [Hn Hu]. unfold versions. by rewrite Hn, Hu. Qed.

Lemma settled_frame p i w w' : settled p i w -> frame p w w' -> settled p i w'.
Proof. intros [Hn Hu] [Hn' Hu']. split; [congruence|]. destruct Hu' as [->| ->]; done. Qed.

Lemma wp_rename tmp p i w (Q : World -> result unit string -> Prop) :
  tmp <> p -> names w !! tmp = Some i ->
  (forall w' r, replaces p i w w' -> (is_ok r = true -> names w' !! p = Some i) -> Q w' r) ->
  wp (rename tmp p) Q w.
Proof.
  intros Hne Hi HQ. unfold rename. apply wp_bind. apply (wp_fallible_touch tmp _ _ _ Hi). intros w1 [[]|e] Ht Hn.
  2: { apply HQ; [|done]. apply frame_replaces. by eapply touched_frame. }
  apply wp_bind, wp_get. rewrite Hn, Hi. apply wp_modify. apply HQ.
  - intros v. rewrite versions_set_name, decide_False by done. rewrite versions_set_name, decide_True by done.
    rewrite elem_of_cons. intros [->|Hv]; [by right|left].
    eapply frame_versions; [by eapply touched_frame|done].
  - intros _. cbn. by rewrite lookup_partial_alter_ne, lookup_partial_alter_eq by done.
Qed.

(** A temporary file with [bytes], up to its sync. *)
Lemma wp_write_whole tmp p bytes w (Q : World -> result unit EngineError -> Prop) m1 m2 m3 :
  tmp <> p ->
  (forall w' r, frame p w w' -> (is_ok r = true -> names w' !! tmp = Some (whole bytes)) -> Q w' r) ->
  wp (os m1 (create tmp) ;; os m2 (append_all tmp bytes) ;; os m3 (sync_file tmp)) Q w.
Proof.
  intros Hne HQ. apply wp_bind, wp_map_err, wp_create. intros w1 [[]|e] Hf1 Hn1; [|apply HQ; [by apply Hf1, not_eq_sym|done]].
  specialize (Hf1 p (not_eq_sym Hne)). specialize (Hn1 eq_refl).
  apply wp_bind, wp_map_err. apply (wp_append _ _ _ _ _ Hn1); [done|]. intros w2 bs [[]|e] Ht2 Hr2.
  2: { apply HQ; [|done]. etrans; [exact Hf1|]. by eapply touched_frame. }
  rewrite Hr2 in Ht2 by done. assert (frame p w w2) as Hf2 by (etrans; [exact Hf1|by eapply touched_frame]).
  apply wp_map_err. apply (wp_sync_exact _ _ _ _ (touched_lookup _ _ _ _ Ht2)). intros w3 r3 i3 Ht3 _ _ Hs3.
  apply HQ; [etrans; [exact Hf2|by eapply touched_frame]|].
  intros Hr. rewrite (touched_lookup _ _ _ _ Ht3). f_equal. rewrite Hs3 by (by destruct r3). done.
Qed.

(** The same in the middle of a sequence. *)
Lemma wp_write_whole_then {A} tmp p bytes w (Q : World -> result A EngineError -> Prop) m1 m2 m3 (rest : M World EngineError A) :
  tmp <> p -> (forall w' e, frame p w w' -> Q w' (Err e)) ->
  (forall w', frame p w w' -> names w' !! tmp = Some (whole bytes) -> wp rest Q w') ->
  wp (os m1 (create tmp) ;; os m2 (append_all tmp bytes) ;; os m3 (sync_file tmp) ;; rest) Q w.
Proof.
  intros Hne HQ Hrest.
  assert (wp (os m1 (create tmp) ;; os m2 (append_all tmp bytes) ;; os m3 (sync_file tmp))
    (fun w' r => match r with Ok _ => wp rest Q w' | Err e => Q w' (Err e) end) w) as H.
  { apply (wp_write_whole _ p); [done|]. intros w' [[]|e] Hf Hn; [by apply Hrest; [|apply Hn]|by apply HQ]. }
  apply (proj1 (wp_bind _ _ _ _)) in H. apply wp_bind. eapply wp_mono; [exact H|]. intros w1 [[]|e]; [|done].
  intros H1. apply (proj1 (wp_bind _ _ _ _)) in H1. apply wp_bind. eapply wp_mono; [exact H1|]. intros w2 [[]|e]; [|done]. intros H2. by apply wp_bind.
Qed.

(** After the parent directory is synced only the new file is left. *)
Lemma wp_sync_installed p i w (Q : World -> result unit EngineError -> Prop) :
  (exists d, nonempty_parent p = Some d) -> names w !! p = Some i ->
  (forall w' r, frame p w w' -> (is_ok r = true -> settled p i w') -> Q w' r) ->
  wp (sync_segment_parent_dir p) Q w.
Proof.
  intros Hd Hi HQ. eapply wp_mono; [by apply wp_sync_parent|]. intros w' r [Hf Hu]. apply HQ; [done|].
  intros Hr. split; [by rewrite (proj1 Hf)|by apply Hu].
Qed.

Section rewrite.
Context (pid : Z) (seg : Path).
Context (Htemp : temporary_segment_path pid seg <> seg) (Hparent : exists d, nonempty_parent seg = Some d).

(** A crash during the rewrite finds the old segment or the whole new one. *)
Abbreviation rewritten rs := (replaces seg (segment_inode rs)).

(** The temporary file up to its sync. *)
Lemma wp_write_temp rs w (Q : World -> result unit EngineError -> Prop) :
  let tmp := temporary_segment_path pid seg in
  (forall w' r, frame seg w w' -> (is_ok r = true -> names w' !! tmp = Some (segment_inode rs)) -> Q w' r) ->
  forall m1 m2 m3,
  wp (os m1 (create tmp) ;; os m2 (append_all tmp Wal.WAL_SEGMENT_MAGIC) ;; write_records tmp rs ;; os m3 (sync_file tmp)) Q w.
Proof.
  intros tmp HQ m1 m2 m3. assert (tmp <> seg) as Hne by done.
  apply wp_bind, wp_map_err, wp_create. intros w1 [[]|e] Hf1 Hn1; [|apply HQ; [by apply Hf1, not_eq_sym|done]].
  specialize (Hf1 seg (not_eq_sym Hne)). specialize (Hn1 eq_refl).
  apply wp_bind, wp_map_err. apply (wp_append _ _ _ _ _ Hn1); [done|]. intros w2 bs [[]|e] Ht2 Hr2.
  2: { apply HQ; [|done]. etrans; [exact Hf1|]. by eapply touched_frame. }
  rewrite Hr2 in Ht2 by done.
  assert (frame seg w w2) as Hf2 by (etrans; [exact Hf1|by eapply touched_frame]).
  apply wp_bind. apply (wp_write_records _ _ _ _ _ (touched_lookup _ _ _ _ Ht2)); [done|done|].
  intros w3 bs3 [[]|e] Ht3 Hr3.
  2: { apply HQ; [|done]. etrans; [exact Hf2|]. by eapply touched_frame. }
  rewrite Hr3 in Ht3 by done.
  apply wp_map_err. apply (wp_sync_exact _ _ _ _ (touched_lookup _ _ _ _ Ht3)). intros w4 r4 i4 Ht4 _ _ Hs4.
  apply HQ.
  - etrans; [exact Hf2|]. etrans; [by eapply touched_frame|]. by eapply touched_frame.
  - intros Hr. rewrite (touched_lookup _ _ _ _ Ht4). f_equal. rewrite Hs4 by (by destruct r4). done.
Qed.

Lemma rewrite_spec rs w :
  wp (write_wal_segment_after_identity_check pid seg rs) (fun w' r =>
    rewritten rs w w' /\ (is_ok r = true -> settled seg (segment_inode rs) w')) w.
Proof.
  unfold write_wal_segment_after_identity_check. apply wp_bind.
  assert (frames seg (match parent seg with Some d => create_segment_dir d | None => ret tt end)) as Hdir.
  { unfold create_segment_dir. destruct (parent seg); framed. }
  eapply wp_mono; [apply Hdir|]. intros w1 [[]|e] Hf1; [|split; [by apply frame_replaces|done]].
  apply wp_bind, wp_attempt. apply wp_write_temp. intros w2 r2 Hf2 Hn2.
  assert (forall (e : EngineError) w3, rewritten rs w w3 ->
    wp (os id (remove_file (temporary_segment_path pid seg)) ;; throw e) (fun w' r =>
      rewritten rs w w' /\ (is_ok (A := unit) r = true -> settled seg (segment_inode rs) w')) w3) as Hcleanup.
  { intros e w3 H3. apply wp_bind, wp_map_err. eapply wp_mono; [by apply frames_remove_file|].
    intros w4 [[]|e'] Hf4; [apply wp_throw|]; (split; [by eapply replaces_frame|done]). }
  destruct r2 as [[]|e]; [|apply Hcleanup, frame_replaces; by etrans].
  specialize (Hn2 eq_refl). apply wp_bind, wp_attempt, wp_map_err. apply (wp_rename _ _ _ _ _ Htemp Hn2).
  intros w3 r3 Hr3 Hn3. apply (frame_then_replaces _ _ w) in Hr3; [|by etrans]. destruct r3 as [[]|e]; [|by apply Hcleanup].
  apply (wp_sync_installed _ (segment_inode rs)); [done|by apply Hn3|]. intros w4 r4 Hf4 Hv4.
  split; [by eapply replaces_frame|done].
Qed.

End rewrite.

End DiskFacts.
