(* ===== verification/WalDurability.v ===== *)
(** * Durability of the live segment

    The invariant that ties the durable core to the disk: while the segment is open, its file
    starts with the magic and the records from the checkpoint base to the durable watermark, and
    those bytes are certain.  When a rotation failed half-way, whatever a crash may find under the
    name of the segment holds the durable records from the old base or from the new one. *)

From stdpp Require Import base gmap strings list pretty.
From S2P Require Import Prelude Types Bytes Text Paths Effects Disk Sidecar WalSegment WalProps Codec Canonical Envelope Identity WalCore WalGroup WalScatter DiskFacts.

Module WalDurability.
Import Paths Disk Effects Identity WalCore DiskFacts.

(** The records from [a] to [z]. *)
Definition sub {A} (l : list A) (a z : Z) : list A := take (Z.to_nat (z - a)) (drop (Z.to_nat a) l).

Lemma sub_app {A} (l : list A) a m z :
  0 <= a <= m -> m <= z <= vec_len l -> sub l a z = sub l a m ++ sub l m z.
Proof.
  intros Ha Hz. unfold sub, vec_len in *.
  replace (Z.to_nat (z - a)) with (Z.to_nat (m - a) + Z.to_nat (z - m))%nat by lia.
  rewrite <- take_take_drop, drop_drop. by replace (Z.to_nat a + Z.to_nat (m - a))%nat with (Z.to_nat m) by lia.
Qed.

Lemma sub_nil {A} (l : list A) a : sub l a a = [].
Proof. unfold sub. by rewrite Z.sub_diag. Qed.

Lemma sub_length {A} (l : list A) a z : 0 <= a <= z -> z <= vec_len l -> vec_len (sub l a z) = z - a.
Proof. intros. unfold sub, vec_len in *. rewrite length_take, length_drop. lia. Qed.

(** A cut or an extension of the history after [z] does not change it. *)
Lemma sub_prefix {A} (l l' : list A) a z :
  0 <= a <= z -> take (Z.to_nat z) l = take (Z.to_nat z) l' -> sub l a z = sub l' a z.
Proof.
  intros Ha E. unfold sub. rewrite !take_drop_commute.
  replace (Z.to_nat a + Z.to_nat (z - a))%nat with (Z.to_nat z) by lia. by rewrite E.
Qed.

(** ** Images *)

(** The file holds the records from [base] to [flushed], and they are certain. *)
Definition image (recs : list Wal.WalRecord) (base flushed : Z) (i : Inode) : Prop :=
  let durable := Wal.segment_bytes (sub recs base flushed) in
  take (length durable) (data i) = durable /\ vec_len durable <= synced i <= vec_len (data i).

(** A file that holds [rs] and nothing else that is valid: recovery returns [rs], unless the
    recorded tail lies beyond it, which is refused. *)
Definition recovers (d : list byte) (rs : list Wal.WalRecord) : Prop :=
  exists torn, forall path tail,
    if vec_len (Wal.segment_bytes rs) <? tail then exists e, Wal.recover_wal_segment path tail (Some d) = Err e
    else Wal.recover_wal_segment path tail (Some d) = Ok (Wal.mkSegmentRecovery rs (vec_len (Wal.segment_bytes rs)) torn).

Lemma segment_bytes_grow rs more : vec_len (Wal.segment_bytes rs) <= vec_len (Wal.segment_bytes (rs ++ more)).
Proof.
  rewrite !WalProps.segment_bytes_len, WalProps.encode_records_app, vec_len_app.
  pose proof (vec_len_nonneg (Wal.encode_records more)). lia.
Qed.

Lemma recovers_within d rs path tail : recovers d rs -> tail <= vec_len (Wal.segment_bytes rs) ->
  exists recovery, Wal.recover_wal_segment path tail (Some d) = Ok recovery /\ Wal.records recovery = rs.
Proof. intros [torn H] Ht. specialize (H path tail). rewrite (proj2 (Z.ltb_ge _ _)) in H by done. by eexists. Qed.

Lemma recovers_beyond d rs path tail : recovers d rs -> vec_len (Wal.segment_bytes rs) < tail ->
  exists e, Wal.recover_wal_segment path tail (Some d) = Err e.
Proof. intros [torn H] Ht. specialize (H path tail). by rewrite (proj2 (Z.ltb_lt _ _)) in H by done. Qed.

(** A crash image holds the records and perhaps more. *)
Lemma image_recovers recs base flushed i d :
  Forall WalProps.record_ok (sub recs base flushed) -> image recs base flushed i ->
  survives (Some i) (Some d) -> exists more, recovers d (sub recs base flushed ++ more).
Proof.
  intros Hok (Hd & Hs) Hcrash. cbn in Hcrash. destruct Hcrash as [Hcrash _]. set (rs := sub recs base flushed) in *.
  assert (take (length (Wal.segment_bytes rs)) d = Wal.segment_bytes rs) as Hpre.
  { apply (f_equal (take (length (Wal.segment_bytes rs)))) in Hcrash.
    rewrite !take_take, !Nat.min_l in Hcrash by (unfold vec_len in Hs; lia). congruence. }
  assert (d = Wal.WAL_SEGMENT_MAGIC ++ (Wal.encode_records rs ++ drop (length (Wal.segment_bytes rs)) d)) as Hdd.
  { rewrite <- (take_drop (length (Wal.segment_bytes rs)) d) at 1. rewrite Hpre. unfold Wal.segment_bytes.
    by rewrite <- app_assoc. }
  set (rest := drop (length (Wal.segment_bytes rs)) d) in *. rewrite Hdd.
  pose proof (WalProps.valid_prefix_encoded rs rest Hok) as Hv.
  destruct (WalProps.valid_prefix rest) as [more junk]. cbn [fst snd] in Hv. exists more. eexists. intros path tail.
  pose proof (WalProps.recover_segment_spec path tail (Wal.encode_records rs ++ rest)) as Hspec. rewrite Hv in Hspec. exact Hspec.
Qed.

Lemma image_keeps recs base flushed i i' n :
  image recs base flushed i -> keeps n i i' -> vec_len (Wal.segment_bytes (sub recs base flushed)) <= n ->
  image recs base flushed i'.
Proof.
  intros (Hd & Hs) (Hk & Hl & Hs') Hn. split; [|unfold vec_len in *; lia].
  rewrite <- Hd at 2. apply (f_equal (take (length (Wal.segment_bytes (sub recs base flushed))))) in Hk.
  rewrite !take_take, !Nat.min_l in Hk by (unfold vec_len in *; lia). done.
Qed.

Lemma image_prefix recs recs' base flushed i :
  0 <= base <= flushed -> take (Z.to_nat flushed) recs = take (Z.to_nat flushed) recs' ->
  image recs base flushed i -> image recs' base flushed i.
Proof. intros Hb E. unfold image. by rewrite (sub_prefix recs recs'). Qed.

Lemma image_segment_inode recs base flushed : image recs base flushed (segment_inode (sub recs base flushed)).
Proof. split; cbn; [by rewrite take_ge|lia]. Qed.

(** ** The invariant *)

(** [covered] is the largest base a rotation was asked for: the caller has made the records below
    it durable elsewhere. *)
Definition good (recs : list Wal.WalRecord) (base flushed covered : Z) (v : option Inode) : Prop :=
  exists i b, v = Some i /\ base <= b <= Z.max base covered /\ b <= flushed /\ image recs b flushed i.

Record open_inv (c : WalDurableCore) (recs : list Wal.WalRecord) (w : World) : Prop := mkOpenInv {
  oi_file : file (state c) = Some (segment_path c);
  oi_name : unsynced_names w !! segment_path c = None;
  oi_image : exists i, names w !! segment_path c = Some i /\
    image recs (segment_base_records (state c)) (flushed_records (state c)) i /\
    prealloc_bytes (state c) <= vec_len (data i);
  oi_durable : durable_bytes (state c)
    = vec_len (Wal.segment_bytes (sub recs (segment_base_records (state c)) (flushed_records (state c))));
  oi_prealloc : durable_bytes (state c) <= prealloc_bytes (state c);
}.

Definition closed_inv (c : WalDurableCore) (recs : list Wal.WalRecord) (covered : Z) (w : World) : Prop :=
  let s := state c in
  file s = None /\ io_in_flight s = false /\
  (flushed_records s = segment_base_records s \/
   poisoned s <> None /\
   forall v, v ∈ versions w (segment_path c) -> good recs (segment_base_records s) (flushed_records s) covered v).

Record disk_inv (c : WalDurableCore) (recs : list Wal.WalRecord) (covered : Z) (w : World) : Prop := mkDiskInv {
  di_bounds : 0 <= segment_base_records (state c) <= flushed_records (state c);
  di_flushed : flushed_records (state c) <= vec_len recs;
  di_open : open_inv c recs w \/ closed_inv c recs covered w;
}.

Section core.
Context (sha256 : list byte -> list byte) (pid : Z) (try_reserve_exact : Z -> bool) (chunk : Z).

(** Everything but the file, the extent and the recorded tail is as before. *)
Record unmoved (c c' : WalDurableCore) : Prop := mkUnmoved {
  um_path : segment_path c' = segment_path c;
  um_fixed : fixed_poison c' = fixed_poison c;
  um_flushed : flushed_records (state c') = flushed_records (state c);
  um_base : segment_base_records (state c') = segment_base_records (state c);
  um_io : io_in_flight (state c') = io_in_flight (state c);
  um_poisoned : poisoned (state c') = poisoned (state c);
  um_stats : stats (state c') = stats (state c);
}.

#[export] Instance unmoved_refl : Reflexive unmoved.
Proof. by constructor. Qed.

#[export] Instance unmoved_trans : Transitive unmoved.
Proof. intros a b c [] []. constructor; congruence. Qed.

Lemma open_frame c recs w w' : open_inv c recs w -> frame (segment_path c) w w' -> open_inv c recs w'.
Proof.
  intros [] [Hn Hu]. constructor; try done; [|by rewrite Hn]. destruct Hu as [->| ->]; done.
Qed.

Lemma closed_frame c recs cov w w' : closed_inv c recs cov w -> frame (segment_path c) w w' -> closed_inv c recs cov w'.
Proof.
  intros (Hf & Hio & H) Hfr. split_and!; [done..|]. destruct H as [H|[Hp H]]; [by left|right].
  split; [done|]. intros v Hv. apply H. by eapply frame_versions.
Qed.

Lemma disk_frame c recs cov w w' : disk_inv c recs cov w -> frame (segment_path c) w w' -> disk_inv c recs cov w'.
Proof.
  intros [? ? [Ho|Hc]] Hf; constructor; try done; [left|right]; [by eapply open_frame|by eapply closed_frame].
Qed.

Context (seg : Path) (Hpaths : own_paths pid seg).

Lemma record_tail_spec c w :
  segment_path c = seg ->
  wp (record_tail_offset pid) (fun t' r =>
    frame seg w t'.2 /\ unmoved c t'.1 /\ file (state t'.1) = file (state c) /\
    prealloc_bytes (state t'.1) = prealloc_bytes (state c) /\ durable_bytes (state t'.1) = durable_bytes (state c)) (c, w).
Proof.
  intros Hseg. unfold record_tail_offset, get_state, get_path. apply wp_bind, wp_bind, wp_get, wp_ret. cbn [fst].
  destruct (_ =? _); [apply wp_ret; by split_and!|].
  apply wp_bind, wp_bind, wp_get, wp_ret. cbn [fst]. rewrite Hseg.
  apply wp_bind, wp_zoom. eapply wp_mono; [by apply frames_tail|]. intros w' [[]|e] Hf; [|by split_and!].
  apply wp_modify. by split_and!.
Qed.

Lemma record_tail_open c recs w :
  segment_path c = seg -> open_inv c recs w ->
  wp (record_tail_offset pid) (fun t' r =>
    open_inv t'.1 recs t'.2 /\ unmoved c t'.1 /\ prealloc_bytes (state t'.1) = prealloc_bytes (state c)) (c, w).
Proof.
  intros Hseg [Of On (i & Hi & Him & Hpre) Od Op]. eapply wp_mono; [by apply record_tail_spec|].
  intros [c' w'] r ([Hn Hu] & Hum & Hf & Hp & Hd). cbn [fst snd] in *. rewrite Hseg in *.
  split_and!; [|done|done]. pose proof Hum as []. constructor; rewrite ?um_path0, ?um_flushed0, ?um_base0, ?Hf, ?Hp, ?Hd, ?Hseg; try done.
  - destruct Hu as [->| ->]; done.
  - exists i. by rewrite Hn.
Qed.

(** A core without a segment of its own asks nothing of the disk. *)
Lemma idle_inv c recs cov w :
  file (state c) = None -> io_in_flight (state c) = false ->
  flushed_records (state c) = segment_base_records (state c) ->
  0 <= segment_base_records (state c) -> flushed_records (state c) <= vec_len recs -> disk_inv c recs cov w.
Proof. intros. constructor; [lia|done|]. right. split_and!; [done..|]. by left. Qed.

(** The file of a new segment: its magic, the preallocated zeros, and a name that is certain. *)
Definition fresh_segment (w : World) : Prop :=
  unsynced_names w !! seg = None /\
  exists i, names w !! seg = Some i /\ take 10 (data i) = Wal.WAL_SEGMENT_MAGIC /\
    10 <= synced i <= vec_len (data i) /\ chunk <= vec_len (data i).

Lemma create_segment_spec w :
  wp (create_segment chunk seg) (fun w' r => is_ok r = true -> fresh_segment w') w.
Proof.
  unfold create_segment. apply wp_bind, wp_map_err. eapply wp_mono; [apply frames_remove_file, Hpaths|].
  intros wa [[]|e] _; [|done]. apply wp_bind.
  assert (frames seg (match nonempty_parent seg with Some d => create_segment_dir d | None => ret tt end)) as Hdir.
  { unfold create_segment_dir. destruct (nonempty_parent seg); framed. }
  eapply wp_mono; [apply Hdir|]. intros wb [[]|e] _; [|done].
  apply wp_bind, wp_map_err, wp_create. intros w1 [[]|e] _ Hn1; [|done].
  specialize (Hn1 eq_refl). apply wp_bind, wp_map_err, wp_bind. apply (wp_append _ _ _ _ _ Hn1); [done|].
  intros w2 bs [[]|e] Ht2 Hr2; [|done]. rewrite Hr2 in Ht2 by done. cbn [data synced app] in Ht2.
  apply (wp_sync _ _ _ _ (touched_lookup _ _ _ _ Ht2)). intros w3 [[]|e] i3 Ht3 Hd3 _ Hs3; [|done].
  cbn [data] in Hd3, Hs3. specialize (Hs3 eq_refl).
  apply wp_bind. eapply wp_mono; [apply wp_sync_parent, Hpaths|]. intros w4 [[]|e] [[Hn4 _] Hu4]; [|done].
  specialize (Hu4 eq_refl). rewrite (touched_lookup _ _ _ _ Ht3) in Hn4.
  apply wp_bind, wp_map_err. unfold open. apply wp_bind. apply (wp_fallible_touch seg _ _ _ Hn4).
  intros w5 [[]|e] Ht5 Hn5; [|done]. apply wp_bind, wp_get. rewrite Hn5, Hn4. apply wp_ret.
  apply wp_map_err. change (vec_len Wal.WAL_SEGMENT_MAGIC) with 10 in *.
  eapply wp_mono; [apply (zero_fill_extend_spec seg 10 chunk w5 i3)|].
  - by rewrite Hn5.
  - rewrite Hd3. done.
  - rewrite Hd3, Hs3. done.
  - intros w6 [[]|e] (i6 & Ht6 & (Hk & Hl & Hs) & _ & Hok); [|done]. intros _. specialize (Hok eq_refl) as [Hto Hs6].
    split.
    + destruct Ht6 as [_ ->], Ht5 as [_ ->]. done.
    + exists i6. split_and!; [by eapply touched_lookup| |lia|lia|done].
      change 10%nat with (Z.to_nat 10). rewrite Hk, Hd3. done.
Qed.

Lemma ensure_created_spec c recs cov w :
  10 <= chunk -> segment_path c = seg -> poisoned (state c) = None -> disk_inv c recs cov w ->
  wp (ensure_created pid chunk) (fun t' r =>
    disk_inv t'.1 recs cov t'.2 /\ unmoved c t'.1 /\ (file (state c) <> None -> t'.1 = c) /\
    (is_ok r = true -> open_inv t'.1 recs t'.2)) (c, w).
Proof.
  intros Hchunk Hseg Hp Hinv. unfold ensure_created, get_state, get_path. apply wp_bind, wp_bind, wp_get, wp_ret. cbn [fst].
  destruct Hinv as [Hb Hfl [Ho|(Hfile & Hio & Hcl)]].
  { rewrite (oi_file _ _ _ Ho). apply wp_ret. split_and!; [by constructor; auto|done|done|done]. }
  rewrite Hfile. assert (flushed_records (state c) = segment_base_records (state c)) as Heq
    by (destruct Hcl as [?|[? _]]; done).
  apply wp_bind, wp_bind, wp_get, wp_ret. cbn [fst]. rewrite Hseg.
  apply wp_bind, wp_zoom. eapply wp_mono; [apply create_segment_spec|]. cbn [fst].
  intros w1 [[]|e] Hfresh; [|split_and!; [apply idle_inv; done || lia|done|done|done]].
  destruct (Hfresh eq_refl) as (Hu & i & Hi & Hmagic & Hs & Hpre). apply wp_bind, wp_modify. cbn [fst snd].
  set (c1 := set_state c _). assert (open_inv c1 recs w1) as Ho.
  { assert (Wal.segment_bytes (sub recs (segment_base_records (state c1)) (flushed_records (state c1)))
      = Wal.WAL_SEGMENT_MAGIC) as E by (cbn; rewrite Heq, sub_nil; done).
    assert (segment_path c1 = seg) as Hseg1 by done.
    constructor; rewrite ?Hseg1, ?E; [done|done| |done|done].
    exists i. split_and!; [done| |done]. unfold image. rewrite E. done. }
  eapply wp_mono; [by apply record_tail_open|]. intros [c2 w2] r (Ho2 & Hum & _). cbn [fst snd] in *.
  assert (unmoved c c1) as Hum1 by done.
  split_and!; [|by etrans|done|done].
  constructor; [| |by left]; destruct Hum; cbn [c1 state] in *; rewrite ?um_base0, ?um_flushed0; done.
Qed.

(** The extent grows behind the durable bytes. *)
Lemma ensure_preallocated_spec c recs w write_end :
  segment_path c = seg -> open_inv c recs w ->
  wp (ensure_preallocated_through chunk write_end) (fun t' r =>
    open_inv t'.1 recs t'.2 /\ unmoved c t'.1 /\ durable_bytes (state t'.1) = durable_bytes (state c) /\
    (is_ok r = true -> write_end <= prealloc_bytes (state t'.1))) (c, w).
Proof.
  intros Hseg Ho. unfold ensure_preallocated_through, get_state, get_path.
  apply wp_bind, wp_bind, wp_get, wp_ret. cbn [fst]. destruct (Z.leb_spec write_end (prealloc_bytes (state c))).
  { apply wp_ret. by split_and!. }
  destruct Ho as [Of On (i & Hi & Him & Hpre) Od Op]. rewrite Of. apply wp_bind, wp_bind, wp_get, wp_ret. cbn [fst].
  apply wp_bind, wp_zoom, wp_map_err. cbn [snd fst]. set (new := Z.max _ chunk).
  assert (0 <= durable_bytes (state c)) by (rewrite Od; apply vec_len_nonneg).
  pose proof Him as (_ & Hs). pose proof (vec_len_nonneg (Wal.segment_bytes (sub recs (segment_base_records (state c)) (flushed_records (state c))))) as Hnn.
  eapply wp_mono; [apply (zero_fill_extend_spec _ _ _ _ i Hi); lia|].
  intros w1 r (i1 & Ht & Hk & Hs1 & Hok).
  assert (open_inv c recs w1) as Ho1.
  { constructor; try done; [destruct Ht as [_ ->]; done|]. exists i1. split_and!.
    - by eapply touched_lookup.
    - eapply image_keeps; [exact Him|exact Hk|]. lia.
    - destruct Hk as (_ & ? & _). lia. }
  destruct r as [[]|e]; [|by split_and!]. apply wp_modify. cbn [fst snd]. specialize (Hok eq_refl) as [Hto _].
  split_and!; [|done|done|intros _; cbn; lia].
  destruct Ho1 as [Of1 On1 (i' & Hi' & Him' & Hpre') Od1 Op1]. constructor; try done.
  - exists i'. split_and!; [done|done|]. cbn. rewrite (touched_lookup _ _ _ _ Ht) in Hi'. injection Hi' as <-. lia.
  - cbn. lia.
Qed.

End core.

End WalDurability.
