(* ===== verification/WalInvariant.v ===== *)
(** * Rotation, reopening and the rewind of the live segment

    [truncate_durable_segment_prefix], the reopening of a recovered segment and the defensive
    rewind keep the durability invariant, whichever of their steps fails. *)

From stdpp Require Import base gmap strings list pretty sorting.
From S2P Require Import Prelude Types LocalRepl Bytes Text Paths WalSegment WalProps Sidecar Codec Canonical Envelope EnvelopeExact Effects Disk Identity WalCore WalGroup WalScatter WalBuffer DiskFacts WalDurability.

Module WalRotation.
Import Paths Disk Effects Identity WalCore DiskFacts WalDurability WalBuffer.

Lemma wp_or_poison {E A} reason fail (m : M World E A) c w (Q : WalDurableCore * World -> result A EngineError -> Prop) :
  wp m (fun w' r =>
    match r with
    | Ok a => Q (c, w') (Ok a)
    | Err e => Q (set_state c (set_poisoned (state c) (Some (reason e))), w') (Err (fail e))
    end) w ->
  wp (or_poison reason fail m) Q (c, w).
Proof. unfold wp, or_poison. cbn [fst snd]. by destruct (m w) as [| |w' [a|e]]. Qed.

Lemma sum_encoded rs : sum (Wal.encoded_record_len <$> rs) = vec_len (Wal.encode_records rs).
Proof.
  induction rs as [|r rs IH]; [done|]. cbn [fmap list_fmap sum List.fold_right] in *.
  change (Wal.encode_records (r :: rs)) with (Wal.encode_record r ++ Wal.encode_records rs).
  rewrite vec_len_app, WalProps.vec_len_encode_record. unfold sum in IH. by rewrite IH.
Qed.

Section rotate.
Context (sha256 : list byte -> list byte) (pid : Z) (try_reserve_exact : Z -> bool) (chunk : Z).
Context (seg : Path) (Hpaths : own_paths pid seg).
Context (recs : list Wal.WalRecord).

(** The core may be closed over this disk once it is poisoned. *)
Definition closable (c : WalDurableCore) (cov : Z) (w : World) : Prop :=
  let s := state c in
  flushed_records s = segment_base_records s \/
  forall v, v ∈ versions w seg -> good recs (segment_base_records s) (flushed_records s) cov v.

Lemma good_mono base flushed cov cov' v : cov <= cov' -> good recs base flushed cov v -> good recs base flushed cov' v.
Proof. intros Hc (i & b & -> & ? & ? & ?). exists i, b. split_and!; try done; lia. Qed.

Lemma disk_closable c cov cov' w :
  segment_path c = seg -> cov <= cov' -> disk_inv c recs cov w -> closable c cov' w.
Proof.
  intros Hseg Hc [Hb _ [Ho|(_ & _ & [H|[_ H]])]].
  - right. destruct Ho as [_ On (i & Hi & Him & _) _ _]. rewrite Hseg in *. intros v.
    unfold versions. rewrite Hi, On. cbn. rewrite elem_of_cons. intros [->|Hv]; [|by apply elem_of_nil in Hv].
    exists i, (segment_base_records (state c)). split_and!; [done|lia|lia|lia|done].
  - by left.
  - right. rewrite Hseg in H. intros v Hv. eapply good_mono; [exact Hc|]. by apply H.
Qed.

(** What a failure after the handle is closed leaves. *)
Lemma poisoned_closed c cov w reason :
  segment_path c = seg -> 0 <= segment_base_records (state c) <= flushed_records (state c) ->
  flushed_records (state c) <= vec_len recs -> io_in_flight (state c) = false -> file (state c) = None ->
  closable c cov w -> disk_inv (set_state c (set_poisoned (state c) (Some reason))) recs cov w.
Proof.
  intros Hseg Hb Hf Hio Hfile Hc. constructor; [done|done|right]. split_and!; [done|done|].
  destruct Hc as [?|Hc]; [by left|right]. split; [done|]. cbn [set_state segment_path]. by rewrite Hseg.
Qed.

Section one.
Context (c : WalDurableCore) (cov base : Z) (w : World).
Context (Hseg : segment_path c = seg) (Hio : io_in_flight (state c) = false).
Context (Hbounds : 0 <= segment_base_records (state c)) (Hrecs : flushed_records (state c) <= vec_len recs).
Context (Hbase : segment_base_records (state c) <= base <= flushed_records (state c)).

Abbreviation flushed := (flushed_records (state c)).
Abbreviation retained := (sub recs base flushed).
Abbreviation cov' := (Z.max cov base).
Abbreviation closed := (set_state c (set_file (state c) None)).

Lemma rewritten_closable w1 w2 : closable closed cov' w1 -> replaces seg (segment_inode retained) w1 w2 -> closable closed cov' w2.
Proof.
  intros [?|H] Hr; [by left|right]. intros v Hv. destruct (Hr v Hv) as [Hv'| ->]; [by apply H|].
  cbn. eexists _, base. split_and!; [done|lia|lia|lia|]. apply image_segment_inode.
Qed.

(** The file under the name is the new segment, perhaps longer. *)
Definition installed (w' : World) : Prop :=
  unsynced_names w' !! seg = None /\ exists i, names w' !! seg = Some i /\ image recs base flushed i.

Lemma installed_closable w' : installed w' -> closable closed cov' w'.
Proof.
  intros (Hu & i & Hi & Him). right. intros v. unfold versions. rewrite Hi, Hu. cbn. rewrite elem_of_cons.
  intros [->|Hv]; [|by apply elem_of_nil in Hv]. eexists _, base. split_and!; [done|lia|lia|lia|done].
Qed.

(** How a rotation may end; a failure leaves what it found or the new segment. *)
Definition rotated (t' : WalDurableCore * World) (r : result unit EngineError) : Prop :=
  (closable closed cov' w \/ is_ok r = true -> disk_inv t'.1 recs cov' t'.2) /\ segment_path t'.1 = seg /\ fixed_poison t'.1 = fixed_poison c /\
  flushed_records (state t'.1) = flushed /\ io_in_flight (state t'.1) = false /\
  (is_ok r = true -> open_inv t'.1 recs t'.2 /\ segment_base_records (state t'.1) = base /\ poisoned (state t'.1) = None).

Lemma rotation_failed w' reason (e : EngineError) :
  (closable closed cov' w -> closable closed cov' w') ->
  rotated (set_state closed (set_poisoned (state closed) (Some reason)), w') (Err e).
Proof.
  intros Hc. split_and!; try done. intros [Hw|?]; [|done]. apply poisoned_closed; try done; [cbn; lia|by apply Hc].
Qed.

Lemma identity_rewrite_spec bound w0 :
  wp (match bound with
      | Some identity => rewrite_wal_segment_requiring_durable_identity sha256 pid seg retained identity
      | None => write_wal_segment sha256 pid try_reserve_exact seg retained
      end) (fun w' r => replaces seg (segment_inode retained) w0 w' /\
        (is_ok r = true -> settled seg (segment_inode retained) w')) w0.
Proof.
  assert (forall (m : M World EngineError unit), frames seg m ->
    wp (m ;; write_wal_segment_after_identity_check pid seg retained) (fun w' r => replaces seg (segment_inode retained) w0 w' /\
        (is_ok r = true -> settled seg (segment_inode retained) w')) w0) as H.
  { intros m Hm. apply wp_bind. eapply wp_mono; [apply Hm|]. intros w1 [[]|e] Hf1; [|split; [by apply frame_replaces|done]].
    eapply wp_mono; [apply rewrite_spec; apply Hpaths|]. intros w2 r [Hr Hok]. split; [|done]. by eapply frame_then_replaces. }
  destruct bound; apply H; [by apply (frames_require_identity sha256 pid)|by apply frames_bind_identity].
Qed.

Lemma rotate_segment_spec bound :
  wp (rotate_segment sha256 pid try_reserve_exact chunk retained bound base) rotated (c, w).
Proof.
  unfold rotate_segment, get_path. apply wp_bind, wp_bind, wp_get, wp_ret. cbn [fst]. rewrite Hseg.
  apply wp_bind, wp_modify. cbn [fst snd].
  apply wp_bind, wp_or_poison. eapply wp_mono; [apply identity_rewrite_spec|]. intros w1 [[]|e] [Hr1 Hok1].
  2: { apply rotation_failed. intros Hcl. by eapply rewritten_closable. }
  destruct (Hok1 eq_refl) as [Hn1 Hu1]. clear Hok1.
  apply wp_bind, wp_or_poison. eapply wp_mono; [apply frames_sync_parent|].
  assert (forall w', frame seg w1 w' -> installed w' /\ names w' !! seg = Some (segment_inode retained)) as Hinst.
  { intros w' [Hn Hu]. rewrite Hn, Hn1. split; [|done]. split; [destruct Hu as [->| ->]; done|].
    eexists. split; [by rewrite Hn, Hn1|]. apply image_segment_inode. }
  intros w2 [[]|e] Hf2; [|apply rotation_failed; intros _; apply installed_closable; by apply Hinst].
  apply wp_bind, wp_or_poison. destruct (Hinst w2 Hf2) as [Hin2 Hn2].
  unfold open. apply wp_bind. apply (wp_fallible_touch seg _ _ _ Hn2). intros w3 [[]|e] Ht3 Hn3.
  2: { apply rotation_failed. intros _. apply installed_closable. destruct Hin2 as (Hu & i & Hi & Him).
       split; [by destruct Ht3 as [_ ->]|]. exists i. by rewrite Hn3. }
  apply wp_bind, wp_get. rewrite Hn3, Hn2. apply wp_ret.
  apply wp_bind, wp_or_poison. rewrite sum_encoded. change (vec_len Wal.WAL_SEGMENT_MAGIC) with 10.
  rewrite <- WalProps.segment_bytes_len. set (durable := vec_len (Wal.segment_bytes retained)).
  assert (0 <= durable) by apply vec_len_nonneg.
  eapply wp_mono; [apply (zero_fill_extend_spec seg durable _ w3 (segment_inode retained)); [by rewrite Hn3|unfold durable in *; cbn [segment_inode whole data synced]; lia..]|].
  intros w4 r4 (i4 & Ht4 & Hk4 & _ & Hok4).
  assert (unsynced_names w4 !! seg = None) as Hu4.
  { destruct Ht4 as [_ ->], Ht3 as [_ ->]. by destruct Hin2. }
  assert (image recs base flushed i4) as Him4.
  { eapply image_keeps; [apply image_segment_inode|exact Hk4|]. unfold durable. lia. }
  pose proof (touched_lookup _ _ _ _ Ht4) as Hn4.
  destruct r4 as [[]|e]; [|apply rotation_failed; intros _; apply installed_closable; split; [done|by exists i4]].
  specialize (Hok4 eq_refl) as [Hto _]. apply wp_bind, wp_modify. cbn [fst snd].
  set (c' := set_state _ _). assert (open_inv c' recs w4) as Ho.
  { constructor; cbn; rewrite ?Hseg; try done; [|lia]. exists i4. by split_and!. }
  eapply wp_mono; [apply (record_tail_open pid seg Hpaths c' recs w4 Hseg Ho)|].
  intros [c5 w5] r5 (Ho5 & Hum & _). cbn [fst snd] in *. destruct Hum.
  split_and!; cbn [fst snd]; rewrite ?um_path0, ?um_fixed0, ?um_flushed0, ?um_io0, ?um_base0, ?um_poisoned0; try done.
  intros _. constructor; [| |by left]; rewrite ?um_base0, ?um_flushed0; cbn; lia.
Qed.

End one.
End rotate.

End WalRotation.

(** * The invariant of a WAL buffer

    The buffer, the world, the job in flight, the credits held by outstanding reservations, and
    the largest base a rotation was asked for.  The exact wire records are those of claimed records
    that no group has taken, at most one of them tentative; credits are accounted for exactly; a
    slot is busy exactly while its group is in flight; and the durable core satisfies
    [disk_inv]. *)

Module WalInvariant.
Import Paths Disk Effects Identity WalCore WalGroup WalScatter DiskFacts WalDurability WalBuffer.

(** ** Credits *)

Definition held (c : TypedExactPendingCredit) : Z * Z :=
  if active c then (1, held_bytes c) else (0, 0).

Definition total (cs : list TypedExactPendingCredit) : Z * Z :=
  List.fold_right (fun c acc => ((held c).1 + acc.1, (held c).2 + acc.2)) (0, 0) cs.

Definition entry_credits (e : GroupEntry) : list TypedExactPendingCredit :=
  match e with Exact r => [pending_group_credit r] | Legacy _ _ => [] end.

Definition job_credits (j : option SerialFlushJob) : list TypedExactPendingCredit :=
  match j with Some j => entries (job_group j) ≫= entry_credits | None => [] end.

Definition wire_credits (b : WalBuffer) : list TypedExactPendingCredit := pending_group_credit <$> wires b.

(** ** Wire records *)

Record wire_ok (b : WalBuffer) (wire : ExactTypedWireRecord) : Prop := mkWireOk {
  wo_index : 0 <= record_index wire < len b;
  wo_record : exists r, elems (records b) !! Z.to_nat (record_index wire) = Some r /\
    payload r = packed_payload wire /\ bytes (serialized_record wire) = Wal.encode_record (erase r);
  wo_credit : pending_group_credit wire = mkCredit (serialized_len wire) true;
  wo_bound : serialized_len wire <= MAX_WAL_GROUP_WIRE_BYTES;
  wo_claimed : wire_state wire = ClaimedPending ->
    exists h, highest_claimed_typed_exact_record b = Some h /\ record_index wire <= h;
}.

(** At most the last wire record is tentative. *)
Definition tentative_shape (count : Z) (ws : list ExactTypedWireRecord) : Prop :=
  (count = 0 /\ Forall (fun w => wire_state w = ClaimedPending) ws) \/
  (count = 1 /\ exists ws' w, ws = ws' ++ [w] /\ wire_state w = Tentative /\
    Forall (fun w => wire_state w = ClaimedPending) ws').

(** The first record no group has taken. *)
Definition frontier (b : WalBuffer) (j : option SerialFlushJob) : Z :=
  match j with Some j => job_target_records j | None => flushed_count b end.

Record memory_inv (b : WalBuffer) (j : option SerialFlushJob) (cs : list TypedExactPendingCredit) : Prop := mkMemoryInv {
  mi_records : Forall WalProps.record_ok (logical_records b);
  mi_frontier : 0 <= flushed_count b <= frontier b j /\ frontier b j <= len b;
  mi_wires : Forall (wire_ok b) (wires b);
  mi_sorted : StronglySorted Z.lt (record_index <$> wires b);
  mi_pending : Forall (fun w => frontier b j <= record_index w) (wires b);
  mi_tentative : tentative_shape (typed_exact_tentative_count b) (wires b);
  mi_slots : length (slots (prepared_group_arena b)) = 2%nat;
  mi_busy : forall k, slots (prepared_group_arena b) !! k = Some Busy <->
    exists g, slot (job_group g) = k /\ j = Some g;
  mi_credits : let pool := typed_exact_credits (prepared_group_arena b) in
    (credit_records pool, credit_bytes pool) = total (wire_credits b ++ job_credits j ++ cs);
  mi_active : Forall (fun c => 0 <= held_bytes c) (wire_credits b ++ job_credits j ++ cs);
}.

(** ** Jobs *)

(** A job writes the records from the watermark to its target right after the durable bytes. *)
Record job_ok (c : WalDurableCore) (recs : list Wal.WalRecord) (job : SerialFlushJob) : Prop := mkJobOk {
  jo_file : job_file job = segment_path c;
  jo_offset : job_offset job = durable_bytes (state c);
  jo_target : flushed_records (state c) < job_target_records job <= vec_len recs;
  jo_size : job_group_size job = job_target_records job - flushed_records (state c);
  jo_entries : Forall entry_ok (entries (job_group job));
  jo_bytes : group_bytes (entries (job_group job))
    = Wal.encode_records (sub recs (flushed_records (state c)) (job_target_records job));
  jo_wire : wire_bytes (job_group job) = vec_len (group_bytes (entries (job_group job)));
  jo_extent : job_offset job + wire_bytes (job_group job) <= prealloc_bytes (state c);
  jo_end : job_offset job + wire_bytes (job_group job) <= u64_max;
}.

Definition core_inv (seg : Path) (c : WalDurableCore) (recs : list Wal.WalRecord) (cov : Z) (w : World)
    (j : option SerialFlushJob) : Prop :=
  segment_path c = seg /\ disk_inv c recs cov w /\
  match j with
  | Some job => io_in_flight (state c) = true /\ job_ok c recs job
  | None => io_in_flight (state c) = false
  end.

Record buffer_inv (seg : Path) (cov : Z) (j : option SerialFlushJob) (cs : list TypedExactPendingCredit)
    (b : WalBuffer) (w : World) : Prop := mkBufferInv {
  bi_memory : memory_inv b j cs;
  bi_lineage : 0 <= verified_records (durable_identity_binding b) <= len b;
  bi_core : match durable b with
            | Some c => core_inv seg c (logical_records b) cov w j
            | None => j = None
            end;
}.

(** ** Lemmas on credits *)

Lemma total_cons c cs : total (c :: cs) = ((held c).1 + (total cs).1, (held c).2 + (total cs).2).
Proof. done. Qed.

Lemma total_app a b : total (a ++ b) = ((total a).1 + (total b).1, (total a).2 + (total b).2).
Proof.
  induction a as [|c a IH]; [apply surjective_pairing|]. cbn [app]. rewrite !total_cons, IH. cbn [fst snd]. f_equal; lia.
Qed.

Lemma held_nonneg c : 0 <= held_bytes c -> 0 <= (held c).1 /\ 0 <= (held c).2.
Proof. intros. unfold held. destruct (active c); cbn; lia. Qed.

Lemma total_nonneg cs : Forall (fun c => 0 <= held_bytes c) cs -> 0 <= (total cs).1 /\ 0 <= (total cs).2.
Proof.
  induction 1 as [|c cs Hc _ IH]; [done|]. rewrite total_cons. pose proof (held_nonneg c Hc). cbn [fst snd]. lia.
Qed.

(** Releasing an accounted credit never underflows. *)
Lemma release_accounted c pool rest :
  (credit_records pool, credit_bytes pool) = total (c :: rest) -> Forall (fun c => 0 <= held_bytes c) rest ->
  0 <= held_bytes c ->
  exists c' pool', release c pool = Some (c', pool') /\
    (credit_records pool', credit_bytes pool') = total rest.
Proof.
  intros Hp Hr Hc. rewrite total_cons in Hp. injection Hp as H1 H2. pose proof (total_nonneg rest Hr) as [H3 H4].
  unfold release, held in *. destruct (active c); cbn [negb fst snd] in *.
  - rewrite (proj2 (Z.ltb_ge _ _)), (proj2 (Z.ltb_ge _ _)) by lia. cbn [orb]. eexists _, _. split; [done|]. cbn.
    rewrite (surjective_pairing (total rest)). f_equal; lia.
  - eexists _, _. split; [done|]. rewrite (surjective_pairing (total rest)). f_equal; lia.
Qed.

Lemma drop_entries_accounted es pool rest :
  (credit_records pool, credit_bytes pool) = total ((es ≫= entry_credits) ++ rest) ->
  Forall (fun c => 0 <= held_bytes c) ((es ≫= entry_credits) ++ rest) ->
  exists pool', drop_entries es pool = Some pool' /\ (credit_records pool', credit_bytes pool') = total rest.
Proof.
  revert pool. induction es as [|e es IH]; intros pool Hp Hn; [by eexists|].
  change ((e :: es) ≫= entry_credits) with (entry_credits e ++ (es ≫= entry_credits)) in *.
  destruct e as [r|h p]; cbn [entry_credits drop_entries app] in *.
  - apply Forall_cons_1 in Hn as [Hc Hn]. destruct (release_accounted _ _ _ Hp Hn Hc) as (c' & pool' & -> & Hp').
    cbn [mbind option_bind]. by apply IH.
  - by apply IH.
Qed.

(** ** Steps of the buffer monad *)

Section steps.
Context {A : Type} (b : WalBuffer) (w : World).

Lemma wp_buffer (Q : WalBuffer * World -> result WalBuffer EngineError -> Prop) :
  Q (b, w) (Ok b) -> wp buffer Q (b, w).
Proof. done. Qed.

Lemma wp_update f (Q : WalBuffer * World -> result unit EngineError -> Prop) :
  Q (f b, w) (Ok tt) -> wp (update f) Q (b, w).
Proof. done. Qed.

Lemma wp_on_disk (m : M World EngineError A) Q :
  wp m (fun w' r => Q (b, w') r) w -> wp (on_disk m) Q (b, w).
Proof. intros H. apply wp_zoom. exact H. Qed.

Lemma wp_on_core (m : M (WalDurableCore * World) EngineError A) c Q :
  durable b = Some c -> wp m (fun t r => Q (set_durable b (Some t.1), t.2) r) (c, w) -> wp (on_core m) Q (b, w).
Proof. intros Hc. unfold wp, on_core. cbn [fst snd]. rewrite Hc. by destruct (m (c, w)) as [| |[c' w'] r]. Qed.

Lemma wp_update_arena f a (Q : WalBuffer * World -> result unit EngineError -> Prop) :
  f (prepared_group_arena b) = Some a -> Q (set_arena b a, w) (Ok tt) -> wp (update_arena f) Q (b, w).
Proof. intros Ha HQ. unfold update_arena. apply wp_bind, wp_buffer. apply wp_bind. by apply (wp_expect _ a). Qed.

Lemma wp_invalidate (Q : WalBuffer * World -> result unit EngineError -> Prop) :
  canonical_append_reservation_generation b < u64_max ->
  Q (set_generation b (canonical_append_reservation_generation b + 1), w) (Ok tt) ->
  wp invalidate_canonical_append_reservations Q (b, w).
Proof.
  intros Hg HQ. unfold invalidate_canonical_append_reservations. apply wp_bind, wp_buffer.
  apply wp_bind. eapply wp_expect; [apply checked_add64_Some; split; [done|lia]|]. by apply wp_update.
Qed.

End steps.

(** ** What the invariant looks at *)

Record similar (b b' : WalBuffer) : Prop := mkSimilar {
  sm_records : elems (records b') = elems (records b);
  sm_wires : wires b' = wires b;
  sm_tentative : typed_exact_tentative_count b' = typed_exact_tentative_count b;
  sm_highest : highest_claimed_typed_exact_record b' = highest_claimed_typed_exact_record b;
  sm_arena : prepared_group_arena b' = prepared_group_arena b;
  sm_flushed : flushed_count b' = flushed_count b;
}.

#[export] Instance similar_refl : Reflexive similar.
Proof. by constructor. Qed.

#[export] Instance similar_trans : Transitive similar.
Proof. intros a b c [] []. constructor; congruence. Qed.

Lemma wire_ok_similar b b' wire :
  elems (records b') = elems (records b) ->
  highest_claimed_typed_exact_record b' = highest_claimed_typed_exact_record b ->
  wire_ok b wire -> wire_ok b' wire.
Proof.
  intros Hr Hh []. constructor; unfold len in *; rewrite ?Hr, ?Hh; done.
Qed.

Lemma memory_similar b b' j cs : similar b b' -> memory_inv b j cs -> memory_inv b' j cs.
Proof.
  intros [Hr Hw Ht Hh Ha Hfc] Hinv. pose proof (mi_wires _ _ _ Hinv) as Hwires. destruct Hinv.
  assert (frontier b' j = frontier b j) as Hfr by (unfold frontier; by rewrite Hfc).
  assert (len b' = len b) as Hl by (unfold len; by rewrite Hr).
  constructor; unfold logical_records, wire_credits in *; rewrite ?Hr, ?Hw, ?Ht, ?Ha, ?Hfr, ?Hfc, ?Hl; try done.
  eapply Forall_impl; [exact Hwires|]. intros wire. by apply wire_ok_similar.
Qed.

Lemma inv_similar seg cov j cs b b' w :
  similar b b' -> durable b' = durable b -> 0 <= verified_records (durable_identity_binding b') <= len b ->
  buffer_inv seg cov j cs b w -> buffer_inv seg cov j cs b' w.
Proof.
  intros Hs Hd Hv [Hm Hl Hc]. constructor; [by eapply memory_similar| |]; destruct Hs as [Hr Hw Ht Hh Ha Hfc].
  { unfold len in *. by rewrite Hr. }
  rewrite Hd. unfold logical_records in *. by rewrite Hr.
Qed.

(** ** Pruning *)

Lemma prune_same b j cs w :
  memory_inv b j cs -> prune_durable_typed_exact_wire_records (b, w) = Done (b, w) (Ok tt).
Proof.
  intros Hm. cbv beta iota zeta delta [prune_durable_typed_exact_wire_records bind buffer get ret update modify fst snd].
  assert (take_while (fun wire => record_index wire <? flushed_count b) (wires b) = []) as ->.
  { pose proof (mi_pending _ _ _ Hm) as Hp. pose proof (mi_frontier _ _ _ Hm) as [Hf _].
    destruct (wires b) as [|wire ws]; [done|]. apply Forall_cons_1 in Hp as [Hp _]. cbn [take_while].
    by rewrite (proj2 (Z.ltb_ge _ _)) by lia. }
  cbn [length drop drop_wires]. unfold wires, ret. by destruct b as [r [ws c]].
Qed.

Lemma prune_noop b j cs w (Q : WalBuffer * World -> result unit EngineError -> Prop) :
  memory_inv b j cs -> Q (b, w) (Ok tt) -> wp prune_durable_typed_exact_wire_records Q (b, w).
Proof. intros Hm HQ. unfold wp. by rewrite (prune_same _ _ _ _ Hm). Qed.

(** ** Histories that agree up to the watermark *)

Lemma open_records c recs recs' w :
  0 <= segment_base_records (state c) <= flushed_records (state c) ->
  take (Z.to_nat (flushed_records (state c))) recs = take (Z.to_nat (flushed_records (state c))) recs' ->
  open_inv c recs w -> open_inv c recs' w.
Proof.
  intros Hb E [Of On (i & Hi & Him & Hp) Od Op]. constructor; try done.
  - exists i. split_and!; [done|by eapply image_prefix|done].
  - by rewrite <- (sub_prefix recs recs').
Qed.

Lemma disk_records c recs recs' cov w :
  take (Z.to_nat (flushed_records (state c))) recs = take (Z.to_nat (flushed_records (state c))) recs' ->
  flushed_records (state c) <= vec_len recs' -> disk_inv c recs cov w -> disk_inv c recs' cov w.
Proof.
  intros E Hl [Hb Hf Ho]. constructor; [done|done|]. destruct Ho as [Ho|(H1 & H2 & H3)]; [left; by eapply open_records|right].
  split_and!; [done..|]. destruct H3 as [?|[Hp Hg]]; [by left|right]. split; [done|]. intros v Hv.
  destruct (Hg v Hv) as (i & bs & -> & ? & ? & Him). exists i, bs. split_and!; try done; try lia.
  eapply image_prefix; [|exact E|done]. lia.
Qed.

Lemma job_records c recs recs' job :
  0 <= flushed_records (state c) ->
  take (Z.to_nat (job_target_records job)) recs = take (Z.to_nat (job_target_records job)) recs' ->
  job_target_records job <= vec_len recs' -> job_ok c recs job -> job_ok c recs' job.
Proof.
  intros Hf E Hl []. constructor; try done; [lia|]. rewrite <- (sub_prefix recs recs'); [done|lia|done].
Qed.

Lemma core_records seg c recs recs' cov w j :
  (let z := match j with Some job => job_target_records job | None => flushed_records (state c) end in
   take (Z.to_nat z) recs = take (Z.to_nat z) recs' /\ z <= vec_len recs') ->
  core_inv seg c recs cov w j -> core_inv seg c recs' cov w j.
Proof.
  intros [E Hl] (Hseg & Hd & Hj). split_and!; [done| |].
  - destruct j as [job|]; [|by eapply disk_records]. destruct Hj as [_ Hj]. pose proof (jo_target _ _ _ Hj).
    eapply disk_records; [|lia|done]. apply (f_equal (take (Z.to_nat (flushed_records (state c))))) in E.
    rewrite !take_take, !Nat.min_l in E by lia. done.
  - destruct j as [job|]; [|done]. destruct Hj as [? Hj]. split; [done|]. eapply job_records; [|done..].
    destruct Hd as [? _ _]. lia.
Qed.

(** ** Appends *)

Lemma extend_inv seg cov j cs b b' w rec :
  buffer_inv seg cov j cs b w -> WalProps.record_ok (erase rec) ->
  similar b (set_records b' (records b)) -> durable b' = durable b ->
  0 <= verified_records (durable_identity_binding b') <= len b + 1 ->
  elems (records b') = elems (records b) ++ [rec] -> buffer_inv seg cov j cs b' w.
Proof.
  intros [Hm Hlin Hc] Hrec [_ Hw Ht Hh Ha Hfc] Hd Hbd Hr. cbn in Ht, Hh, Ha.
  change (wires b' = wires b) in Hw. change (flushed_count b' = flushed_count b) in Hfc.
  assert (frontier b' j = frontier b j) as Hfr by (unfold frontier; by rewrite Hfc).
  assert (len b' = len b + 1) as Hl by (unfold len; rewrite Hr, vec_len_app; done).
  assert (logical_records b' = logical_records b ++ [erase rec]) as Hlr.
  { unfold logical_records. rewrite Hr, fmap_app. done. }
  constructor.
  - pose proof (mi_wires _ _ _ Hm) as Hwires. destruct Hm. constructor; unfold wire_credits in *; rewrite ?Hw, ?Ht, ?Ha, ?Hfr, ?Hfc, ?Hl, ?Hlr; try done.
    + apply Forall_app. split; [done|]. by constructor.
    + lia.
    + eapply Forall_impl; [exact Hwires|]. intros wire [Hi (r & Hr' & ?) ? ? ?]. constructor; rewrite ?Hl, ?Hh; try done; [lia|].
      exists r. split; [|done]. rewrite Hr. by apply lookup_app_l_Some.
  - lia.
  - rewrite Hd. destruct (durable b) as [c|] eqn:Hdb; [|done]. rewrite Hlr. eapply core_records; [|done].
    pose proof (mi_frontier _ _ _ Hm) as [Hf1 Hf2]. unfold frontier, flushed_count in *. rewrite Hdb in *.
    assert (vec_len (logical_records b) = len b) as Hll by (unfold logical_records, len, vec_len; by rewrite length_fmap).
    split.
    + rewrite take_app_le; [done|]. unfold vec_len in Hll. destruct j; lia.
    + rewrite vec_len_app. pose proof (vec_len_nonneg [erase rec]). destruct j; lia.
Qed.

End WalInvariant.
