(* ===== verification/WalFormation.v ===== *)
(** * Group formation

    A group takes a run of records from the watermark: the bytes it will write are those records,
    the exact records among them give up the serialized bytes and the credits they held, and the
    run is bounded in records and bytes. *)

From stdpp Require Import base gmap strings list pretty sorting.
From S2P Require Import Prelude Types Bytes Text Paths Effects Disk Sidecar WalSegment WalProps Codec Canonical Envelope EnvelopeExact Identity LocalRepl WalCore WalGroup WalScatter DiskFacts WalDurability WalBuffer WalInvariant.

Module WalFormation.
Import Paths Disk Effects WalCore WalGroup WalScatter WalDurability WalBuffer WalInvariant.

(** ** Lists *)

Lemma logical_len b : vec_len (logical_records b) = len b.
Proof. unfold logical_records, len, vec_len. by rewrite length_fmap. Qed.

Lemma sub_snoc {A} (l : list A) a z x :
  0 <= a <= z -> l !! Z.to_nat z = Some x -> sub l a (z + 1) = sub l a z ++ [x].
Proof.
  intros Ha Hx. pose proof (lookup_lt_Some _ _ _ Hx). rewrite (sub_app l a z) by (unfold vec_len; lia). f_equal.
  unfold sub. replace (z + 1 - z) with 1 by lia. rewrite (drop_S l x) by done. done.
Qed.

Lemma encode_snoc rs r : vec_len (Wal.encode_records (rs ++ [r])) = vec_len (Wal.encode_records rs) + Wal.encoded_record_len r.
Proof.
  rewrite WalProps.encode_records_app, vec_len_app. f_equal.
  change (Wal.encode_records [r]) with (Wal.encode_record r ++ []). by rewrite app_nil_r, WalProps.vec_len_encode_record.
Qed.

Lemma take_while_sorted (z : Z) ws :
  StronglySorted Z.lt (record_index <$> ws) ->
  exists n, take_while (fun w => record_index w <? z) ws = take n ws /\ (n <= length ws)%nat /\
    Forall (fun w => record_index w < z) (take n ws) /\ Forall (fun w => z <= record_index w) (drop n ws).
Proof.
  induction ws as [|w ws IH]; intros Hs; [exists 0%nat; cbn; auto|]. cbn [fmap list_fmap] in Hs.
  apply StronglySorted_inv in Hs as [Hs Hall]. cbn [take_while]. destruct (Z.ltb_spec (record_index w) z).
  - destruct (IH Hs) as (n & -> & Hn & H1 & H2). exists (S n). cbn. split_and!; [done|lia|by constructor|done].
  - exists 0%nat. split_and!; [done|cbn; lia|done|]. cbn [drop]. constructor; [done|].
    rewrite (Forall_fmap record_index) in Hall. eapply Forall_impl; [exact Hall|]. intros w' Hw'. cbn in Hw'. lia.
Qed.

Section formation.
Context (b : WalBuffer) (j : option SerialFlushJob) (cs : list TypedExactPendingCredit).
Context (Hmem : memory_inv b j cs) (Hclaimed : Forall (fun w => wire_state w = ClaimedPending) (wires b)).

Lemma find_wire_ok index wire : find_wire b index = Some wire -> wire ∈ wires b /\ record_index wire = index.
Proof.
  unfold find_wire. intros [Hin Hi]%List.find_some. split; [by apply list_elem_of_In|]. by apply Z.eqb_eq in Hi.
Qed.

Lemma exact_lookup index r :
  0 <= index -> elems (records b) !! Z.to_nat index = Some r ->
  exact_wire_for_group b index r = Ok (find_wire b index) /\
  forall wire, find_wire b index = Some wire -> serialized_len wire = encoded_len r /\ wire_ok b wire.
Proof.
  intros Hi Hr. unfold exact_wire_for_group. destruct (find_wire b index) as [wire|] eqn:Hf; [|done].
  apply find_wire_ok in Hf as [Hin <-]. pose proof (mi_wires _ _ _ Hmem) as Hw. rewrite Forall_forall in Hw, Hclaimed.
  specialize (Hw _ Hin). pose proof Hw as [_ (r' & Hr' & Hp & Hs) _ _ _]. rewrite Hr in Hr'. injection Hr' as <-.
  unfold is_claimed_pending, ptr_eq. rewrite (Hclaimed _ Hin), bool_decide_eq_true_2, <- Hp, Z.eqb_refl by done.
  split; [done|]. intros wire' [= <-]. split; [|done]. unfold serialized_len, encoded_len.
  by rewrite Hs, WalProps.vec_len_encode_record.
Qed.

Lemma record_len index r :
  elems (records b) !! index = Some r -> 0 <= vec_len (bytes (payload r)) <= isize_max /\
  encoded_len r = 24 + vec_len (bytes (payload r)) /\ logical_records b !! index = Some (erase r).
Proof.
  intros Hr. assert (logical_records b !! index = Some (erase r)) as Hl by (unfold logical_records; by rewrite list_lookup_fmap, Hr).
  pose proof (mi_records _ _ _ Hmem) as Hok. rewrite Forall_lookup in Hok. destruct (Hok _ _ Hl) as [_ Hlen].
  cbn in Hlen. pose proof (vec_len_nonneg (bytes (payload r))). split_and!; done || lia.
Qed.

(** What the loop has selected so far. *)
Record selected (first : Z) (free : option Z) (target wire : Z) : Prop := mkSelected {
  sel_target : first <= target <= len b;
  sel_bytes : wire = vec_len (Wal.encode_records (sub (logical_records b) first target));
  sel_max : wire <= MAX_WAL_GROUP_WIRE_BYTES;
  sel_count : target - first <= MAX_WAL_GROUP_RECORDS;
  sel_free : forall f, free = Some f -> first < target -> wire <= f;
}.

Lemma select_loop_spec first free rest target wire inc :
  0 <= first -> selected first free target wire -> (inc = true -> first < target) -> rest = drop (Z.to_nat target) (elems (records b)) ->
  match select_loop b first free rest target wire inc with
  | Ok (t, n) => selected first free t n /\ target <= t /\ (target = first -> rest <> [] -> first < t)
  | Err _ => target = first
  end.
Proof.
  intros Hf. revert target wire inc. induction rest as [|r rest IH]; intros target wire inc Hsel Hi Hrest; cbn [select_loop].
  { split_and!; [done|lia|done]. }
  pose proof Hsel as [Ht Hb Hmax Hcnt Hfree].
  destruct (Z.ltb_spec (target - first) MAX_WAL_GROUP_RECORDS) as [Hlt|Hge]; cbn [negb].
  2: { split_and!; [done|lia|]. intros -> _. unfold MAX_WAL_GROUP_RECORDS in Hge. lia. }
  assert (elems (records b) !! Z.to_nat target = Some r) as Hr.
  { pose proof (lookup_drop (elems (records b)) (Z.to_nat target) 0) as Hd. rewrite <- Hrest, Nat.add_0_r in Hd. done. }
  pose proof (lookup_lt_Some _ _ _ Hr) as Hin.
  destruct (exact_lookup target r ltac:(lia) Hr) as [-> Hwire].
  destruct (record_len _ _ Hr) as (Hpl & Hel & Hlog).
  destruct (inc && negb (bool_decide (is_Some (find_wire b target)))) eqn:Hinc.
  { split_and!; [done|lia|]. intros -> _. apply andb_true_iff in Hinc as [-> _]. specialize (Hi eq_refl). lia. }
  clear Hinc.
  match goal with |- context [match find_wire b target with Some _ => _ | None => ?x end] =>
    assert (match find_wire b target with Some e => Ok (serialized_len e) | None => x end = Ok (encoded_len r)) as -> end.
  { destruct (find_wire b target) as [e|]; [by destruct (Hwire e eq_refl) as [-> _]|].
    rewrite (proj2 (checked_add64_Some Wal.WAL_RECORD_HEADER_LEN (vec_len (bytes (payload r))) (encoded_len r))); [done|]. unfold Wal.WAL_RECORD_HEADER_LEN, isize_max, u64_max in *. lia. }
  rewrite (proj2 (checked_add64_Some wire (encoded_len r) (wire + encoded_len r)))
    by (unfold MAX_WAL_GROUP_WIRE_BYTES, Wal.WAL_RECORD_HEADER_LEN, isize_max, u64_max in *; lia).
  cbn [ok_or]. destruct (_ || _) eqn:Hfit.
  { destruct (Z.eqb_spec target first) as [->|Hne]; [done|]. split_and!; [done|lia|done]. }
  apply orb_false_iff in Hfit as [Hfit1 Hfit2]. apply Z.ltb_ge in Hfit1.
  assert (selected first free (target + 1) (wire + encoded_len r)) as Hsel'.
  { constructor; try lia.
    - unfold len, vec_len in *. lia.
    - rewrite sub_snoc with (x := erase r), encode_snoc by (done || lia). rewrite Hb. done.
    - intros f -> _. apply Z.ltb_ge in Hfit2. lia. }
  rewrite (drop_S _ r) in Hrest by done. injection Hrest as Hrest.
  replace (S (Z.to_nat target)) with (Z.to_nat (target + 1)) in Hrest by lia.
  match goal with |- context [select_loop _ _ _ _ _ _ ?i] => specialize (IH (target + 1) _ i Hsel' ltac:(lia) Hrest) end.
  destruct (select_loop _ _ _ _ _ _ _) as [[t n]|e]; [|lia]. destruct IH as (H1 & H2 & H3). split_and!; [done|lia|lia].
Qed.

End formation.

(** ** Filling a group *)

(** A wire record and the record it was reserved for, at its distance from [index]. *)
Definition claimed_at (index : Z) (l : list SharedRecord) (wire : ExactTypedWireRecord) : Prop :=
  wire_state wire = ClaimedPending /\ index <= record_index wire /\
 exists r, l !! Z.to_nat (record_index wire - index) = Some r /\
   bytes (serialized_record wire) = Wal.encode_record (erase r).

Lemma claimed_at_next index r l wire :
  claimed_at index (r :: l) wire -> record_index wire <> index -> claimed_at (index + 1) l wire.
Proof.
  intros (Hs & Hi & r' & Hl & Hb) Hne. split_and!; [done|lia|]. exists r'. split; [|done].
  replace (Z.to_nat (record_index wire - index)) with (S (Z.to_nat (record_index wire - (index + 1)))) in Hl by lia. done.
Qed.

Lemma claimed_next index r l ws :
  Forall (claimed_at index (r :: l)) ws -> Forall (fun w => index < record_index w) ws ->
  Forall (claimed_at (index + 1) l) ws.
Proof.
  intros H1 H2. apply Forall_forall. intros w Hw. rewrite Forall_forall in H1, H2.
  eapply claimed_at_next; [by apply H1|]. specialize (H2 w Hw). cbn in H2. lia.
Qed.

Definition filled (g g' : PreparedWalGroup) (l : list SharedRecord) (exact : list ExactTypedWireRecord) : Prop :=
  exists es, entries g' = entries g ++ es /\ length es = length l /\
   wire_bytes g' = wire_bytes g + vec_len (Wal.encode_records (erase <$> l)) /\ slot g' = slot g /\
   group_bytes es = Wal.encode_records (erase <$> l) /\ Forall entry_ok es /\
   (es ≫= entry_credits) = pending_group_credit <$> exact.

Lemma encode_cons r l : Wal.encode_records (r :: l) = Wal.encode_record r ++ Wal.encode_records l.
Proof. done. Qed.

Lemma filled_step g g1 g' e r l ex0 exact :
  filled g1 g' l exact -> entries g1 = entries g ++ [e] ->
  wire_bytes g1 = wire_bytes g + vec_len (Wal.encode_record (erase r)) -> slot g1 = slot g ->
  entry_bytes e = Wal.encode_record (erase r) -> entry_ok e -> entry_credits e = pending_group_credit <$> ex0 ->
  filled g g' (r :: l) (ex0 ++ exact).
Proof.
  intros (es & He & Hn & Hw & Hs & Hb & Hok & Hc) He1 Hw1 Hs1 Hb1 Hok1 Hc1. exists (e :: es). split_and!.
  - by rewrite He, He1, <- app_assoc.
  - cbn. lia.
  - rewrite fmap_cons, encode_cons, vec_len_app. lia.
  - congruence.
  - rewrite fmap_cons, encode_cons, <- Hb, <- Hb1. done.
  - by constructor.
  - rewrite fmap_app, <- Hc, <- Hc1. done.
Qed.

Definition pushed (g g1 : PreparedWalGroup) (e : GroupEntry) (n : Z) : Prop :=
  entries g1 = entries g ++ [e] /\ wire_bytes g1 = wire_bytes g + n /\ slot g1 = slot g.

Lemma push_legacy_spec g r :
  vec_len (entries g) < MAX_WAL_GROUP_RECORDS -> wire_bytes g + vec_len (Wal.encode_record (erase r)) <= u64_max ->
  exists g1, push_legacy g r = Some g1 /\
    pushed g g1 (Legacy (Wal.encode_record_header (erase r)) (payload r)) (vec_len (Wal.encode_record (erase r))).
Proof.
  intros Hn Hb. unfold push_legacy. rewrite (proj2 (Z.ltb_lt _ _) Hn). cbn [negb].
  rewrite WalProps.vec_len_encode_record in Hb |- *.
  change (Wal.WAL_RECORD_HEADER_LEN + vec_len (bytes (payload r))) with (Wal.encoded_record_len (erase r)).
  rewrite (proj2 (checked_add64_Some _ _ _) (conj eq_refl Hb)). eexists. split; [done|]. done.
Qed.

Lemma push_exact_spec g wire :
  vec_len (entries g) < MAX_WAL_GROUP_RECORDS -> wire_bytes g + serialized_len wire <= u64_max ->
  exists g1, push_exact g wire = Some g1 /\ pushed g g1 (Exact wire) (serialized_len wire).
Proof.
  intros Hn Hb. unfold push_exact. rewrite (proj2 (Z.ltb_lt _ _) Hn). cbn [negb].
  rewrite (proj2 (checked_add64_Some _ _ _) (conj eq_refl Hb)). eexists. split; [done|]. done.
Qed.

Section fill.
Context (r : SharedRecord) (l : list SharedRecord) (index : Z) (g : PreparedWalGroup).
Context (IH : forall exact g, vec_len (entries g) + vec_len l <= MAX_WAL_GROUP_RECORDS ->
  wire_bytes g + vec_len (Wal.encode_records (erase <$> l)) <= u64_max ->
  StronglySorted Z.lt (record_index <$> exact) -> Forall (claimed_at (index + 1) l) exact ->
  exists g', fill_group (index + 1) l exact g = Some (g', []) /\ filled g g' l exact).
Context (Hn : vec_len (entries g) + vec_len (r :: l) <= MAX_WAL_GROUP_RECORDS).
Context (Hb : wire_bytes g + vec_len (Wal.encode_records (erase <$> r :: l)) <= u64_max).

Lemma fill_room g1 e : pushed g g1 e (vec_len (Wal.encode_record (erase r))) ->
  vec_len (entries g1) + vec_len l <= MAX_WAL_GROUP_RECORDS /\
  wire_bytes g1 + vec_len (Wal.encode_records (erase <$> l)) <= u64_max.
Proof.
  intros (-> & -> & _). rewrite fmap_cons, encode_cons, vec_len_app in Hb. rewrite vec_len_app.
  unfold vec_len in *. cbn [length] in *. lia.
Qed.

Lemma fill_legacy exact :
  StronglySorted Z.lt (record_index <$> exact) -> Forall (claimed_at (index + 1) l) exact ->
  exists g', (g ← push_legacy g r; fill_group (index + 1) l exact g) = Some (g', []) /\ filled g g' (r :: l) exact.
Proof.
  intros Hs Hc. destruct (push_legacy_spec g r) as (g1 & -> & Hp).
  - unfold vec_len in *. cbn [length] in Hn. lia.
  - rewrite fmap_cons, encode_cons, vec_len_app in Hb. pose proof (vec_len_nonneg (Wal.encode_records (erase <$> l))). lia.
  - destruct (fill_room _ _ Hp) as [H1 H2]. destruct (IH exact g1 H1 H2 Hs Hc) as (g' & Hg' & Hf).
    exists g'. split; [done|]. destruct Hp as (He & Hw & Hs1).
    apply (filled_step g g1 g' _ r l [] exact Hf He Hw Hs1); done.
Qed.

Lemma fill_exact wire exact :
  wire_state wire = ClaimedPending -> bytes (serialized_record wire) = Wal.encode_record (erase r) ->
  StronglySorted Z.lt (record_index <$> exact) -> Forall (claimed_at (index + 1) l) exact ->
  exists g', (wire ← mark_in_flight wire; g ← push_exact g wire; fill_group (index + 1) l exact g) = Some (g', [])
    /\ filled g g' (r :: l) (wire :: exact).
Proof.
  intros Hw Hbytes Hs Hc. unfold mark_in_flight, is_claimed_pending. rewrite bool_decide_eq_true_2 by done. cbn [mbind option_bind].
  assert (serialized_len (set_wire_state wire InFlight) = vec_len (Wal.encode_record (erase r))) as Hlen
    by (unfold serialized_len; cbn; by rewrite Hbytes).
  destruct (push_exact_spec g (set_wire_state wire InFlight)) as (g1 & -> & Hp).
  - unfold vec_len in *. cbn [length] in Hn. lia.
  - rewrite Hlen. rewrite fmap_cons, encode_cons, vec_len_app in Hb. pose proof (vec_len_nonneg (Wal.encode_records (erase <$> l))). lia.
  - rewrite Hlen in Hp. destruct (fill_room _ _ Hp) as [H1 H2]. destruct (IH exact g1 H1 H2 Hs Hc) as (g' & Hg' & Hf).
    exists g'. split; [done|]. destruct Hp as (He & Hw1 & Hs1).
    apply (filled_step g g1 g' _ r l [wire] exact Hf He Hw1 Hs1); try done.
    cbn. rewrite Hbytes. apply WalProps.encode_record_nonempty.
Qed.

End fill.

Lemma fill_group_spec l index exact g :
  vec_len (entries g) + vec_len l <= MAX_WAL_GROUP_RECORDS ->
  wire_bytes g + vec_len (Wal.encode_records (erase <$> l)) <= u64_max ->
  StronglySorted Z.lt (record_index <$> exact) -> Forall (claimed_at index l) exact ->
  exists g', fill_group index l exact g = Some (g', []) /\ filled g g' l exact.
Proof.
  revert index exact g. induction l as [|r l IH]; intros index exact g Hn Hb Hs Hc; cbn [fill_group].
  { destruct exact as [|w exact].
    - exists g. split; [done|]. exists []. rewrite app_nil_r. split_and!; try done. change (vec_len (Wal.encode_records (erase <$> []))) with 0. lia.
    - apply Forall_cons_1 in Hc as [(_ & _ & r & Hl & _) _]. done. }
  specialize (IH (index + 1)). destruct exact as [|wire exact]; [by apply fill_legacy; try constructor|]. rewrite fmap_cons in Hs.
  pose proof (StronglySorted_inv Hs) as [Hs' Hall]. rewrite (Forall_fmap record_index) in Hall.
  apply Forall_cons_1 in Hc as [Hw Hc]. destruct Hw as (Hst & Hi & r' & Hr' & Hby).
  destruct (Z.eqb_spec (record_index wire) index) as [<-|Hne].
  - rewrite Z.sub_diag in Hr'. injection Hr' as ->. apply fill_exact; try done. eapply claimed_next; done.
  - apply fill_legacy; try done. apply (claimed_next _ r).
    + constructor; [|done]. split_and!; [done|lia|]. by exists r'.
    + constructor; [lia|]. eapply Forall_impl; [exact Hall|]. intros w Hw. cbn in Hw. lia.
Qed.

(** ** Acquiring a slot *)

Lemma acquire_slot_spec l k0 :
  (forall k, l !! k <> Some Busy) ->
  match acquire_slot k0 l with
  | Ok (Some k) => exists i, k = (k0 + i)%nat /\ l !! i = Some Idle
  | Ok None => l = []
  | Err _ => True
  end.
Proof.
  destruct l as [|[| |f] l]; intros Hb; cbn; [done| |by destruct (Hb 0%nat)|done]. exists 0%nat. split; [lia|done].
Qed.

(** ** The handoff *)

Section handoff.
Context (b : WalBuffer) (cs : list TypedExactPendingCredit) (w : World) (prefix : WalGroupPrefix).
Context (Hmem : memory_inv b None cs) (Hclaimed : Forall (fun w => wire_state w = ClaimedPending) (wires b)).
Context (Hfirst : px_first_record prefix = flushed_count b).
Context (Hsel : selected b (px_first_record prefix) None (px_target_records prefix) (px_wire_bytes prefix)).
Context (Hexact : exact_wire_prefix_count b (px_target_records prefix) = Ok (px_exact_records prefix)).

(** The buffer and the group after a handoff. *)
Record handed (b' : WalBuffer) (g : PreparedWalGroup) : Prop := mkHanded {
  hd_records : records b' = records b;
  hd_memory : flushed_memory b' = flushed_memory b;
  hd_durable : durable b' = durable b;
  hd_binding : durable_identity_binding b' = durable_identity_binding b;
  hd_wires : exists n, wires b' = drop n (wires b) /\
    Forall (fun w => record_index w < px_target_records prefix) (take n (wires b));
  hd_inv : forall job, job_group job = g -> job_target_records job = px_target_records prefix ->
    memory_inv b' (Some job) cs;
  hd_entries : Forall entry_ok (entries g);
  hd_bytes : group_bytes (entries g)
    = Wal.encode_records (sub (logical_records b) (px_first_record prefix) (px_target_records prefix));
  hd_wire : wire_bytes g = vec_len (group_bytes (entries g));
}.

Lemma handoff_range :
  let range := take (Z.to_nat (group_size prefix)) (drop (Z.to_nat (px_first_record prefix)) (elems (records b))) in
  erase <$> range = sub (logical_records b) (px_first_record prefix) (px_target_records prefix) /\
  vec_len range = group_size prefix.
Proof.
  destruct Hsel as [Ht _ _ _ _]. pose proof (mi_frontier _ _ _ Hmem) as [? _]. cbn zeta. split.
  - unfold sub, logical_records, group_size. rewrite <- fmap_drop, <- fmap_take. done.
  - unfold vec_len, len, group_size in *. rewrite length_take, length_drop. unfold vec_len in Ht. lia.
Qed.

(** The wire records of the prefix are those below its target. *)
Lemma handoff_wires :
  exists n, px_exact_records prefix = Z.of_nat n /\
    Forall (fun w => record_index w < px_target_records prefix) (take n (wires b)) /\
    Forall (fun w => px_target_records prefix <= record_index w) (drop n (wires b)).
Proof.
  destruct (take_while_sorted (px_target_records prefix) (wires b) (mi_sorted _ _ _ Hmem)) as (n & E & Hn & H1 & H2).
  unfold exact_wire_prefix_count in Hexact. rewrite E in Hexact. destruct (forallb _ _); [|done].
  exists n. split_and!; [|done..]. injection Hexact as <-. unfold vec_len. rewrite length_take. lia.
Qed.

Lemma handoff_claimed_at n :
  Forall (fun w => record_index w < px_target_records prefix) (take n (wires b)) ->
  Forall (claimed_at (px_first_record prefix)
    (take (Z.to_nat (group_size prefix)) (drop (Z.to_nat (px_first_record prefix)) (elems (records b)))))
    (take n (wires b)).
Proof.
  intros Hlt. pose proof (mi_wires _ _ _ Hmem) as Hw. pose proof (mi_pending _ _ _ Hmem) as Hp.
  pose proof (mi_frontier _ _ _ Hmem) as [Hf _].
  apply (Forall_take _ n) in Hw, Hp. pose proof (Forall_take _ n _ Hclaimed) as Hc. rewrite Forall_forall in Hlt, Hw, Hp, Hc |- *. intros wire Hin.
  specialize (Hlt _ Hin). specialize (Hw _ Hin). specialize (Hp _ Hin). specialize (Hc _ Hin). cbn in *.
  destruct Hw as [_ (r & Hr & _ & Hs) _ _ _]. split_and!; [done|lia|]. exists r. split; [|done].
  rewrite lookup_take_lt by (unfold group_size; lia). rewrite lookup_drop, <- Hr. f_equal. lia.
Qed.

Lemma handed_inv n k g job cap cursor :
  Forall (fun w => px_target_records prefix <= record_index w) (drop n (wires b)) ->
  slots (prepared_group_arena b) !! k = Some Idle -> slot g = k ->
  (entries g ≫= entry_credits) = pending_group_credit <$> take n (wires b) ->
  job_group job = g -> job_target_records job = px_target_records prefix ->
  memory_inv (set_handoff_cursor (set_wires (set_arena b (set_slot (prepared_group_arena b) k Busy))
    (mkVec (drop n (wires b)) cap)) cursor) (Some job) cs.
Proof.
  intros Hdrop Hk Hg Hes Hjg Hjt. destruct Hsel as [Ht _ _ _ _].
  pose proof (mi_wires _ _ _ Hmem) as Hw. destruct Hmem. constructor; try done.
  - unfold frontier. rewrite Hjt. change (flushed_count (set_handoff_cursor _ _)) with (flushed_count b).
    change (len (set_handoff_cursor _ _)) with (len b). lia.
  - apply (Forall_drop _ n) in Hw. eapply Forall_impl; [exact Hw|]. intros wire. by apply wire_ok_similar.
  - change (wires (set_handoff_cursor _ _)) with (drop n (wires b)).
    rewrite <- (take_drop n (wires b)), fmap_app in mi_sorted0. by eapply StronglySorted_app_1_r.
  - unfold frontier. by rewrite Hjt.
  - left. change (wires (set_handoff_cursor _ _)) with (drop n (wires b)). split; [|by apply Forall_drop].
    destruct mi_tentative0 as [[H _]|(_ & ws & wire & Hws & Hst & _)]; [done|].
    rewrite Hws in Hclaimed. apply Forall_app in Hclaimed as [_ [Hc _]%Forall_cons_1]. congruence.
  - cbn. by rewrite length_insert.
  - intros k'. cbn. split.
    + intros [(<- & _ & _)|[Hne Hb]]%list_lookup_insert_Some; [by exists job; rewrite Hjg|].
      by apply mi_busy0 in Hb as (? & _ & ?).
    + intros (g' & <- & [= <-]). rewrite Hjg, Hg. apply list_lookup_insert_eq. by eapply lookup_lt_Some.
  - cbn. rewrite Hjg, Hes. unfold wire_credits in *. cbn in mi_credits0. rewrite mi_credits0.
    change (wires (set_handoff_cursor _ _)) with (drop n (wires b)).
    rewrite <- (take_drop n (wires b)) at 1. rewrite fmap_app, !total_app. cbn [fst snd]. f_equal; lia.
  - cbn [job_credits]. rewrite Hjg, Hes. unfold wire_credits in *.
    change (wires (set_handoff_cursor _ _)) with (drop n (wires b)).
    rewrite <- (take_drop n (wires b)), fmap_app in mi_active0. rewrite !Forall_app in *. tauto.
Qed.

Lemma handoff_fill n i :
  Forall (fun w => record_index w < px_target_records prefix) (take n (wires b)) ->
  let range := take (Z.to_nat (group_size prefix)) (drop (Z.to_nat (px_first_record prefix)) (elems (records b))) in
  exists g', fill_group (px_first_record prefix) range (take n (wires b)) (mkGroup i [] 0 0 0 false) = Some (g', []) /\
    filled (mkGroup i [] 0 0 0 false) g' range (take n (wires b)).
Proof.
  intros H1 range. destruct handoff_range as [Hr1 Hr2]. destruct Hsel as [Ht Hb Hmax Hcnt _].
  apply fill_group_spec; [| | |by apply handoff_claimed_at].
  - unfold range. rewrite Hr2. unfold group_size. cbn [entries]. change (vec_len (@nil GroupEntry)) with 0. lia.
  - unfold range. rewrite Hr1. cbn [wire_bytes]. rewrite <- Hb.
    unfold MAX_WAL_GROUP_WIRE_BYTES, Wal.WAL_RECORD_HEADER_LEN, u64_max in *. lia.
  - pose proof (mi_sorted _ _ _ Hmem) as Hs. rewrite <- (take_drop n (wires b)), fmap_app in Hs.
    by eapply StronglySorted_app_1_l.
Qed.

Lemma handed_group n i g' cap cursor :
  Forall (fun w => record_index w < px_target_records prefix) (take n (wires b)) ->
  Forall (fun w => px_target_records prefix <= record_index w) (drop n (wires b)) ->
  slots (prepared_group_arena b) !! i = Some Idle ->
  filled (mkGroup i [] 0 0 0 false) g'
    (take (Z.to_nat (group_size prefix)) (drop (Z.to_nat (px_first_record prefix)) (elems (records b)))) (take n (wires b)) ->
  exists g, finish_formation g' prefix = Some g /\
    handed (set_handoff_cursor (set_wires (set_arena b (set_slot (prepared_group_arena b) i Busy))
      (mkVec (drop n (wires b)) cap)) cursor) g.
Proof.
  intros H1 H2 Hk (es & He & Hl & Hwb & Hsl & Hgb & Hok & Hcr). destruct handoff_range as [Hr1 Hr2].
  pose proof Hsel as [Ht Hb Hmax Hcnt _]. cbn [entries wire_bytes slot app] in He, Hwb, Hsl. rewrite Hr1 in Hwb, Hgb.
  rewrite <- Hb in Hwb. unfold finish_formation.
  assert (vec_len (entries g') = group_size prefix) as -> by (rewrite He, <- Hr2; unfold vec_len; by rewrite Hl).
  assert (wire_bytes g' = px_wire_bytes prefix) as Hw by lia. rewrite Hw, !Z.eqb_refl. cbn [negb orb].
  eexists. split; [done|]. constructor; try done.
  - by exists n.
  - intros job Hjg Hjt. apply (handed_inv n i (job_group job) job cap cursor H2 Hk); rewrite ?Hjg; cbn [slot entries]; rewrite ?He; done.
  - cbn. by rewrite He.
  - cbn. by rewrite He.
  - cbn [wire_bytes entries]. rewrite He, Hgb. done.
Qed.

Lemma handoff_spec (Q : WalBuffer * World -> result (option PreparedWalGroup) EngineError -> Prop) :
  (forall e, Q (b, w) (Err e)) -> Q (b, w) (Ok None) ->
  (forall b' g, handed b' g -> Q (b', w) (Ok (Some g))) -> wp (handoff_prepared_group prefix) Q (b, w).
Proof.
  intros HErr HNone HSome. unfold handoff_prepared_group. apply wp_bind, wp_buffer. unfold try_acquire.
  assert (set_arena b (prepared_group_arena b) = b) as Harena by (by destruct b).
  pose proof (acquire_slot_spec (slots (prepared_group_arena b)) 0) as Hacq.
  destruct (acquire_slot 0 _) as [[k|]|e].
  2,3: apply wp_bind, wp_update; rewrite Harena; apply wp_bind; by apply wp_of_result.
  destruct Hacq as (i & -> & Hk). { intros k' Hb. by apply (mi_busy _ _ _ Hmem) in Hb as (? & _ & ?). }
  apply wp_bind, wp_update. apply wp_bind, wp_of_result. cbv iota beta. rewrite Hexact, Z.eqb_refl. cbn [negb].
  destruct handoff_wires as (n & Hn & H1 & H2). rewrite Hn, Nat2Z.id.
  destruct (handoff_fill n i H1) as (g' & Hg' & Hf).
  apply wp_bind. eapply wp_expect; [exact Hg'|]. cbn beta iota. apply wp_bind, wp_update. cbn [drop_wires]. apply wp_bind, wp_ret.
  apply wp_bind. destruct (Z.of_nat n =? 0).
  - edestruct (handed_group n i g') as (g & Hg & Hh); [done..|]. eapply wp_expect; [exact Hg|]. cbn [negb].
    apply wp_bind, wp_ret, wp_ret. apply HSome. exact Hh.
  - edestruct (handed_group n i g') as (g & Hg & Hh); [done..|]. eapply wp_expect; [exact Hg|]. cbn [negb].
    apply wp_bind, wp_update, wp_ret. apply HSome. exact Hh.
Qed.

End handoff.

End WalFormation.
