(* ===== verification/WalFlush.v ===== *)
(** * Group flushes keep the invariant

    The write of a job in flight cannot disturb the durable bytes, whatever the kernel answers; a
    write and sync that succeed make the group durable; every way a job ends returns its slot and
    credits. *)

From stdpp Require Import base gmap strings list pretty sorting.
From S2P Require Import Prelude Types Bytes Text Paths Effects Disk Sidecar WalSegment WalProps Codec Canonical Envelope EnvelopeExact Identity LocalRepl WalCore WalGroup WalScatter DiskFacts WalDurability WalBuffer WalInvariant WalFormation.

Module WalFlush.
Import Paths Disk Effects WalCore WalGroup WalScatter DiskFacts WalDurability WalBuffer WalInvariant WalFormation.

(** ** Input and output of a job *)

Section io.
Context (c : WalDurableCore) (recs : list Wal.WalRecord) (cov : Z) (job : SerialFlushJob).
Context (Hbounds : 0 <= segment_base_records (state c) <= flushed_records (state c)) (Hjob : job_ok c recs job).

Abbreviation base := (segment_base_records (state c)).
Abbreviation flushed := (flushed_records (state c)).
Abbreviation target := (job_target_records job).
Abbreviation B := (group_bytes (entries (job_group job))).

Lemma target_bytes :
  Wal.segment_bytes (sub recs base target) = Wal.segment_bytes (sub recs base flushed) ++ B.
Proof.
  pose proof Hjob as [Jf Jo Jt Js Je Jb Jw Jx Ju]. unfold Wal.segment_bytes. rewrite (sub_app recs base flushed target) by lia.
  rewrite WalProps.encode_records_app, Jb, <- app_assoc. done.
Qed.

Lemma written_keeps i d s x :
  0 <= job_offset job -> job_offset job + vec_len B <= vec_len (data i) -> 0 <= d <= vec_len B ->
  job_offset job <= synced i <= vec_len (data i) -> job_offset job <= s <= synced i ->
  keeps (job_offset job) i (mkNode (overwrite (data i) (job_offset job) (take (Z.to_nat d) B)) s x) /\
  vec_len (overwrite (data i) (job_offset job) (take (Z.to_nat d) B)) = vec_len (data i).
Proof.
  intros H0 Hfit Hd Hs Hs'. pose proof (vec_len_nonneg B).
  assert (vec_len (overwrite (data i) (job_offset job) (take (Z.to_nat d) B)) = vec_len (data i)) as E.
  { rewrite overwrite_at by lia. unfold vec_len in *. rewrite !length_app, !length_take, length_drop. lia. }
  split; [|done]. split_and!; cbn [data synced]; rewrite ?E; try lia. apply overwrite_prefix; lia.
Qed.

(** A partial or failed write leaves the segment as it was up to the durable bytes. *)
Definition mid_io (w w' : World) : Prop := exists i, touched (segment_path c) i w w' /\ open_inv c recs w'.

Lemma job_write_spec script w :
  open_inv c recs w ->
  exists w' r, write_all_vectored_at script w (job_file job) (job_group job) (job_offset job) = (w', r) /\
    mid_io w w' /\ (r = Some (Ok tt) ->
      exists i, names w' !! segment_path c = Some i /\ image recs base target (mkInode (data i) (vec_len (data i)))) /\
    (progressing script -> vec_len B <= Z.of_nat (length script) -> job_offset job + vec_len B <= i64_max -> r = Some (Ok tt)).
Proof.
  intros [Of On (i & Hi & Him & Hpre) Od Op]. pose proof Hjob as [Jf Jo Jt Js Je Jb Jw Jx Ju]. rewrite Jw in *.
  pose proof (vec_len_nonneg (Wal.segment_bytes (sub recs base flushed))) as Hnn. pose proof Him as (Hdata & Hsync).
  rewrite Jf. destruct (write_all_spec (segment_path c) (job_group job) w i (job_offset job)) with (script := script)
    as (d & [s x] & r & -> & Hd & Hs & Hok & _ & Hlive); [done|done|lia|lia|done|]. cbn [fst] in Hs.
  eexists _, _. split; [done|]. rewrite Z.min_r in Hs by lia.
  destruct (written_keeps i d s x) as [Hk Hl]; [lia..|].
  split_and!.
  - eexists. split; [done|]. constructor; try done. eexists. split; [apply lookup_insert_eq|].
    split; [|cbn [data]; lia]. eapply image_keeps; [exact Him|exact Hk|lia].
  - intros ->. specialize (Hok eq_refl) as ->. eexists. split; [apply lookup_insert_eq|]. cbn [data].
    rewrite (take_ge B) in Hl |- * by (unfold vec_len; lia). unfold image. rewrite target_bytes. cbn [data synced]. rewrite Hl.
    rewrite overwrite_at by lia. split.
    + rewrite Jo, Od. unfold vec_len at 1. rewrite Nat2Z.id, Hdata, app_assoc. by rewrite take_app_length.
    + rewrite vec_len_app. unfold vec_len in *. lia.
  - rewrite Z.sub_0_r in Hlive. done.
Qed.

Lemma mid_io_refl i w : open_inv c recs w -> names w !! segment_path c = Some i -> mid_io w w.
Proof. intros Ho Hi. exists i. split; [|done]. split; [by rewrite insert_id|done]. Qed.

Lemma mid_io_trans w w1 w2 : mid_io w w1 -> mid_io w1 w2 -> mid_io w w2.
Proof. intros (i & H1 & _) (j & H2 & H3). exists j. split; [by eapply touched_trans|done]. Qed.

(** The group is durable in the file. *)
Definition group_durable (w : World) : Prop :=
  exists i, names w !! segment_path c = Some i /\ image recs base target i.

Lemma job_sync_spec script g w i :
  open_inv c recs w -> names w !! segment_path c = Some i -> image recs base target (mkInode (data i) (vec_len (data i))) ->
  exists w' r, sync_data_retry_interrupted script w (segment_path c) g = (w', r) /\
    mid_io w w' /\ (r = Some (Ok tt) -> group_durable w') /\
    (forall n rest, script = Returns n :: rest -> r = Some (Ok tt)).
Proof.
  intros Ho Hi Him. induction script as [|a script IH]; cbn [sync_data_retry_interrupted].
  { eexists _, _. split_and!; [done|by eapply mid_io_refl|done|done]. }
  unfold sync_data_once. destruct a as [n|e].
  - rewrite Hi. eexists _, _. split_and!; [done| |intros _|done].
    + eexists. split; [done|]. destruct Ho as [Of On (i' & Hi' & Him' & Hpre) Od Op].
      rewrite Hi in Hi'. injection Hi' as <-. constructor; try done. eexists. split; [apply lookup_insert_eq|].
      cbn [data]. split; [|done]. destruct Him' as [Hd Hs]. split; [done|]. cbn [data synced]. lia.
    + eexists. split; [apply lookup_insert_eq|done].
  - destruct (e =? EINTR).
    + destruct IH as (w' & r & -> & Hm & Hok & _). eexists _, _. split_and!; done.
    + eexists _, _. split_and!; [done|by eapply mid_io_refl|done|done].
Qed.

Lemma job_io_spec writes syncs w :
  open_inv c recs w ->
  exists w' r, job_io writes syncs job w = (w', r) /\ mid_io w w' /\ (r = Some (Ok tt) -> group_durable w') /\
    (progressing writes -> vec_len B <= Z.of_nat (length writes) -> job_offset job + vec_len B <= i64_max ->
     (exists n rest, syncs = Returns n :: rest) -> r = Some (Ok tt)).
Proof.
  intros Ho. unfold job_io. destruct (job_write_spec writes w Ho) as (w1 & r1 & -> & Hm1 & Hok1 & Hlive1).
  destruct r1 as [[[]|e]|].
  - destruct (Hok1 eq_refl) as (i & Hi & Him). destruct Hm1 as (i1 & Ht1 & Ho1).
    pose proof Hjob as [-> _ _ _ _ _ _ _ _].
    destruct (job_sync_spec syncs (job_group job) w1 i Ho1 Hi Him) as (w2 & r2 & -> & Hm2 & Hok2 & Hlive2).
    eexists _, _. split_and!; [done|eapply mid_io_trans; [|done]; by exists i1|done|].
    intros _ _ _ (n & rest & Hsy). by eapply Hlive2.
  - eexists _, _. split_and!; [done|done|done|]. intros H1 H2 H3 _. by specialize (Hlive1 H1 H2 H3).
  - eexists _, _. split_and!; [done|done|done|]. intros H1 H2 H3 _. by specialize (Hlive1 H1 H2 H3).
Qed.

End io.

(** ** The ways a job ends *)

Lemma settle_inv b job cs st :
  memory_inv b (Some job) cs -> st <> Busy ->
  exists a, settle (prepared_group_arena b) (job_group job) st = Some a /\
    forall b', elems (records b') = elems (records b) -> wires b' = wires b ->
      typed_exact_tentative_count b' = typed_exact_tentative_count b ->
      highest_claimed_typed_exact_record b' = highest_claimed_typed_exact_record b ->
      prepared_group_arena b' = a -> 0 <= flushed_count b' <= job_target_records job ->
      memory_inv b' None cs.
Proof.
  intros Hm Hst. pose proof (mi_wires _ _ _ Hm) as Hw. destruct Hm as [Mr Mf _ Ms Mp Mt Ml Mb Mc Ma]. cbn [job_credits] in Mc, Ma.
  destruct (drop_entries_accounted (entries (job_group job)) (typed_exact_credits (prepared_group_arena b)) (wire_credits b ++ cs))
    as (pool & Hpool & Htot).
  { rewrite Mc, !total_app. cbn [fst snd]. f_equal; lia. }
  { rewrite !Forall_app in *. tauto. }
  unfold settle. rewrite Hpool. cbn [mbind option_bind]. eexists. split; [done|].
  intros b' Er Ew Et Eh Ea Hf. cbn [frontier] in Mp, Mf.
  constructor; unfold logical_records, len, wire_credits in *; rewrite ?Er, ?Ew, ?Et, ?Ea; try done.
  - cbn [frontier]. lia.
  - eapply Forall_impl; [exact Hw|]. intros wire. by apply wire_ok_similar.
  - cbn [frontier]. eapply Forall_impl; [exact Mp|]. intros wire Hi. cbn in Hi. lia.
  - cbn. by rewrite length_insert.
  - intros k. split; [|by intros (? & _ & ?)]. cbn. intros [(_ & -> & _)|[Hne Hb]]%list_lookup_insert_Some; [done|].
    apply Mb in Hb as (g & Hk & [= <-]). congruence.
  - cbn [job_credits app] in *. rewrite !Forall_app in Ma. rewrite !Forall_app. tauto.
Qed.

(** The core without its job, at the same watermark. *)
Record stopped (c c' : WalDurableCore) : Prop := mkStopped {
  st_path : segment_path c' = segment_path c;
  st_file : file (state c') = file (state c);
  st_prealloc : prealloc_bytes (state c') = prealloc_bytes (state c);
  st_durable : durable_bytes (state c') = durable_bytes (state c);
  st_flushed : flushed_records (state c') = flushed_records (state c);
  st_base : segment_base_records (state c') = segment_base_records (state c);
  st_io : io_in_flight (state c') = false;
}.

Lemma in_flight_open seg c recs cov w job : core_inv seg c recs cov w (Some job) -> open_inv c recs w.
Proof. intros (_ & [_ _ [Ho|(_ & Hf & _)]] & Hio & _); congruence. Qed.

Lemma open_stopped c c' recs w : stopped c c' -> open_inv c recs w -> open_inv c' recs w.
Proof. intros [Ep Ef Ea Ed El Eb _] []. constructor; rewrite ?Ep, ?Ef, ?Ea, ?Ed, ?El, ?Eb; done. Qed.

Lemma stopped_core seg c c' recs cov w job :
  stopped c c' -> core_inv seg c recs cov w (Some job) -> core_inv seg c' recs cov w None.
Proof.
  intros Hs Hc. pose proof (in_flight_open _ _ _ _ _ _ Hc) as Ho. destruct Hc as (Hseg & [Hb Hf _] & _).
  pose proof (open_stopped _ _ _ _ Hs Ho). destruct Hs as [Ep Ef Ea Ed El Eb Ei].
  split_and!; [congruence| |done]. constructor; rewrite ?El, ?Eb; auto.
Qed.

Lemma advanced_core seg c recs cov w job :
  core_inv seg c recs cov w (Some job) -> group_durable c recs job w ->
  settled_end (state c) job = Some (job_offset job + wire_bytes (job_group job)) /\
  core_inv seg (set_state c (advance_frontier job (job_offset job + wire_bytes (job_group job)) (state c))) recs cov w None.
Proof.
  intros Hc (i & Hi & Him). pose proof (in_flight_open _ _ _ _ _ _ Hc) as [Of On (i' & Hi' & _ & Hpre) Od Op].
  destruct Hc as (Hseg & [Hb Hf _] & Hio & Hj). rewrite Hi in Hi'. injection Hi' as <-.
  pose proof (target_bytes c recs job Hb Hj) as Htb. pose proof Hj as [Jf Jo Jt Js Je Jb Jw Jx Ju]. split.
  { unfold settled_end. rewrite (proj2 (checked_add64_Some _ _ _) (conj eq_refl Ju)). cbn [mbind option_bind].
    by rewrite Jo, Z.eqb_refl, (proj2 (Z.leb_le _ _)) by lia. }
  split_and!; [done| |done]. constructor; cbn; [lia|lia|]. left. constructor; cbn -[vec_len Wal.segment_bytes]; try done.
  - by exists i.
  - rewrite Htb, vec_len_app. lia.
Qed.

(** ** Finishing a job *)

Section finish.
Context (seg : Path) (cov : Z) (job : SerialFlushJob) (cs : list TypedExactPendingCredit) (b : WalBuffer) (c : WalDurableCore) (w : World).
Context (Hinv : buffer_inv seg cov (Some job) cs b w) (Hcore : durable b = Some c).

(** The buffer after its job ended. *)
Record ended (b' : WalBuffer) : Prop := mkEnded {
  en_inv : buffer_inv seg cov None cs b' w;
  en_records : records b' = records b;
  en_wires : wires b' = wires b;
  en_memory : flushed_memory b' = flushed_memory b;
  en_binding : durable_identity_binding b' = durable_identity_binding b;
  en_path : segment_path <$> durable b' = segment_path <$> durable b;
}.

Lemma settled_inv st : st <> Busy -> exists a, settle (prepared_group_arena b) (job_group job) st = Some a /\
  forall c', core_inv seg c' (logical_records b) cov w None -> segment_path c' = segment_path c ->
    0 <= flushed_records (state c') <= job_target_records job -> ended (set_arena (set_durable b (Some c')) a).
Proof.
  intros Hst. destruct Hinv as [Hm Hl Hc]. destruct (settle_inv b job cs st Hm Hst) as (a & Ha & Hall).
  exists a. split; [done|]. intros c' Hc' Hp Hf. constructor; try done.
  - constructor; [apply Hall; done|done|done].
  - cbn. by rewrite Hcore, Hp.
Qed.

Lemma stopped_ended st : st <> Busy -> exists a, settle (prepared_group_arena b) (job_group job) st = Some a /\
  forall c', stopped c c' -> ended (set_arena (set_durable b (Some c')) a) /\ flushed_records (state c') = flushed_count b.
Proof.
  intros Hst. destruct (settled_inv st Hst) as (a & Ha & Hall). exists a. split; [done|].
  intros c' Hs. pose proof (bi_core _ _ _ _ _ _ Hinv) as Hc. rewrite Hcore in Hc.
  pose proof (stopped_core _ _ _ _ _ _ _ Hs Hc). destruct Hs. destruct Hc as (_ & [] & _ & []).
  split; [|unfold flushed_count; rewrite Hcore; done]. apply Hall; [done|done|lia].
Qed.

Lemma poisoned_stopped p : stopped c (set_state c (set_poisoned (set_io_in_flight (state c) false) p)).
Proof. done. Qed.

(** A core that refuses every further flush. *)
Definition faulted (b : WalBuffer) : Prop :=
  exists c, durable b = Some c /\ (fixed_fault c <> None \/ poisoned (state c) <> None).

Definition finished (io : result unit DurabilityFault) (t : WalBuffer * World) (r : result Z EngineError) : Prop :=
  t.2 = w /\ ended t.1 /\
  match io with
  | Ok _ => r = Ok (job_target_records job) /\ flushed_count t.1 = job_target_records job
  | Err _ => is_ok r = false /\ flushed_count t.1 = flushed_count b /\ faulted t.1
  end.

Lemma install_spec f (Q : WalBuffer * World -> result (option DurabilityFault) EngineError -> Prop) :
  (forall c' first, segment_path c' = segment_path c -> state c' = state c -> fixed_fault c' = Some first ->
     Q (set_durable b (Some c'), w) (Ok (Some first))) ->
  wp (on_core (fun s : WalDurableCore * World =>
    let '(core, first) := install_fixed_fault s.1 f in Done (core, s.2) (Ok first))) Q (b, w).
Proof.
  intros HQ. apply (wp_on_core b w _ c _ Hcore). unfold wp, install_fixed_fault, Poison.install. cbn.
  destruct (Poison.poison_first (fixed_poison c)); cbn; by apply HQ.
Qed.

Lemma exact_fault_spec f0 f : wp (serial_exact_fault (job_group job) f) (finished (Err f0)) (b, w).
Proof.
  unfold serial_exact_fault. apply wp_bind, install_spec. intros c' first Hp Hs Hff.
  apply wp_bind. eapply wp_expect; [done|]. destruct (stopped_ended (Poisoned first)) as (a & Ha & Hall); [done|].
  apply wp_bind. eapply wp_update_arena; [exact Ha|]. apply wp_bind.
  apply (wp_on_core _ w _ c'); [done|]. apply wp_modify. cbn [fst snd]. apply wp_throw.
  destruct (Hall (set_state c' (set_io_in_flight (state c') false))) as [He Hf]; [by constructor; cbn; rewrite ?Hs|].
  split_and!; try done. eexists. split; [done|]. left. change (fixed_fault _) with (fixed_fault c'). by rewrite Hff.
Qed.

Lemma exact_finish_spec io :
  (io = Ok tt -> group_durable c (logical_records b) job w) ->
  wp (serial_exact_post_handoff job io) (finished io) (b, w).
Proof.
  intros Hio. unfold serial_exact_post_handoff. destruct io as [[]|f]; [|apply exact_fault_spec].
  apply wp_bind, wp_buffer. apply wp_bind. eapply wp_expect; [exact Hcore|].
  pose proof (bi_core _ _ _ _ _ _ Hinv) as Hc. rewrite Hcore in Hc.
  destruct (advanced_core _ _ _ _ _ _ Hc (Hio eq_refl)) as [-> Hc'].
  apply wp_bind, (wp_on_core b w _ c _ Hcore), wp_modify. cbn [fst snd].
  destruct (settled_inv Idle) as (a & Ha & Hall); [done|]. apply wp_bind. eapply wp_update_arena; [exact Ha|]. apply wp_ret.
  split_and!; [done| |done|done]. destruct Hc as (_ & [] & _ & []). apply Hall; [done|done|cbn; lia].
Qed.

Lemma legacy_finish_spec io :
  (io = Ok tt -> group_durable c (logical_records b) job w) ->
  wp (serial_legacy_post_handoff job io) (finished io) (b, w).
Proof.
  intros Hio. unfold serial_legacy_post_handoff. apply wp_bind, (wp_on_core b w _ c _ Hcore), wp_modify. cbn [fst snd].
  apply wp_bind, wp_buffer. apply wp_bind. eapply wp_expect; [done|]. destruct io as [[]|f].
  - pose proof (bi_core _ _ _ _ _ _ Hinv) as Hc. rewrite Hcore in Hc.
    destruct (advanced_core _ _ _ _ _ _ Hc (Hio eq_refl)) as [He Hc'].
    change (settled_end _ job) with (settled_end (state c) job). rewrite He. apply wp_bind. eapply wp_on_core; [done|]. apply wp_modify. cbn [fst snd].
    destruct (settled_inv Idle) as (a & Ha & Hall); [done|]. apply wp_bind. eapply wp_update_arena; [exact Ha|]. apply wp_ret.
    split_and!; [done| |done|done]. destruct Hc as (_ & [] & _ & []). apply Hall; [done|done|cbn; lia].
  - destruct (stopped_ended (Poisoned f)) as (a & Ha & Hall); [done|].
    apply wp_bind. eapply wp_update_arena; [exact Ha|]. apply wp_bind.
    eapply wp_on_core; [done|]. apply wp_modify. cbn [fst snd]. apply wp_throw.
    match goal with |- context [set_poisoned _ ?p] => destruct (Hall _ (poisoned_stopped p)) as [He Hf] end.
    split_and!; [done|exact He|done|exact Hf|]. eexists. split; [done|]. by right.
Qed.

Lemma finish_job_spec io :
  (io = Ok tt -> group_durable c (logical_records b) job w) -> wp (finish_job job io) (finished io) (b, w).
Proof. unfold finish_job. destruct (contains_exact _); [apply exact_finish_spec|apply legacy_finish_spec]. Qed.

Lemma abandon_spec : wp (abandon job) (fun t _ => t.2 = w /\ ended t.1 /\ flushed_count t.1 = flushed_count b /\ faulted t.1) (b, w).
Proof.
  unfold abandon. destruct (contains_exact _).
  - apply wp_bind, install_spec. intros c' first Hp Hs Hff. apply wp_bind. eapply wp_expect; [done|].
    destruct (stopped_ended (Poisoned first)) as (a & Ha & Hall); [done|].
    apply wp_bind. eapply wp_update_arena; [exact Ha|]. apply (wp_on_core _ w _ c'); [done|]. apply wp_modify. cbn [fst snd].
    destruct (Hall (set_state c' (set_io_in_flight (state c') false))) as [He Hf]; [by constructor; cbn; rewrite ?Hs|].
    split_and!; try done. eexists. split; [done|]. left. change (fixed_fault _) with (fixed_fault c'). by rewrite Hff.
  - edestruct (stopped_ended (Poisoned (fault (job_group job) Abandoned None))) as (a & Ha & Hall); [done|].
    apply wp_bind. eapply wp_update_arena; [exact Ha|]. apply (wp_on_core _ w _ c); [done|]. apply wp_modify. cbn [fst snd].
    match goal with |- context [set_poisoned _ ?p] => destruct (Hall _ (poisoned_stopped p)) as [He Hf] end.
    split_and!; [done|exact He|exact Hf|]. eexists. split; [done|]. by right.
Qed.

End finish.

(** ** Committing *)

Lemma mid_io_inv seg cov job cs b c w w' :
  buffer_inv seg cov (Some job) cs b w -> durable b = Some c -> mid_io c (logical_records b) w w' ->
  buffer_inv seg cov (Some job) cs b w'.
Proof.
  intros [Hm Hl Hc] Hd (i & _ & Ho). constructor; [done|done|]. rewrite Hd in *. destruct Hc as (Hseg & [Hb Hf _] & Hj).
  split; [done|]. split; [constructor; auto|done].
Qed.

(** How a commit may end. *)
Record committed seg cov cs (job : SerialFlushJob) (b : WalBuffer) (t : WalBuffer * World) (r : result Z EngineError) : Prop := mkCommitted {
  cm_inv : buffer_inv seg cov None cs t.1 t.2;
  cm_records : records t.1 = records b;
  cm_wires : wires t.1 = wires b;
  cm_binding : durable_identity_binding t.1 = durable_identity_binding b;
  cm_path : segment_path <$> durable t.1 = segment_path <$> durable b;
  cm_result : match r with
              | Ok n => n = job_target_records job /\ flushed_count t.1 = job_target_records job
              | Err _ => flushed_count t.1 = flushed_count b /\ faulted t.1
              end;
}.

Lemma commit_spec seg cov job cs b w writes syncs :
  buffer_inv seg cov (Some job) cs b w -> wp (commit writes syncs job) (committed seg cov cs job b) (b, w).
Proof.
  intros Hinv. unfold wp at 1, commit. cbn [snd fst]. pose proof (bi_core _ _ _ _ _ _ Hinv) as Hc.
  destruct (durable b) as [c|] eqn:Hd; [|done]. pose proof (in_flight_open _ _ _ _ _ _ Hc) as Ho.
  destruct Hc as (_ & [Hb _ _] & _ & Hj).
  destruct (job_io_spec c (logical_records b) job Hb Hj writes syncs w Ho) as (w1 & r & -> & Hmid & Hok & _).
  destruct r as [io|]; [|done]. pose proof (mid_io_inv _ _ _ _ _ _ _ _ Hinv Hd Hmid) as Hinv1.
  pose proof (finish_job_spec seg cov job cs b c w1 Hinv1 Hd io) as Hfin.
  assert (wp (finish_job job io) (committed seg cov cs job b) (b, w1)) as H; [|exact H].
  eapply wp_mono; [apply Hfin; intros ->; by apply Hok|]. intros [b2 w2] r2 (Hw & [] & Hr). cbn [fst snd] in *. subst w2.
  constructor; try done. destruct io; [destruct Hr as [-> ?]; by split|]. destruct Hr as (He & Hf & Hfa). by destruct r2.
Qed.

Lemma finish_no_wait job io t : finish_job job io t <> Wait.
Proof.
  unfold finish_job, serial_exact_post_handoff, serial_legacy_post_handoff, serial_exact_fault, update_arena, on_core, put_state,
    buffer, update, modify, expect, bind, ret, throw, get, panic. repeat (case_match || simplify_eq); done.
Qed.

(** A kernel that takes something at every call and syncs at once. *)
Lemma commit_completes seg cov job cs b w writes syncs :
  buffer_inv seg cov (Some job) cs b w -> progressing writes ->
  wire_bytes (job_group job) <= Z.of_nat (length writes) -> job_offset job + wire_bytes (job_group job) <= i64_max ->
  (exists n rest, syncs = Returns n :: rest) ->
  exists t, commit writes syncs job (b, w) = Done t (Ok (job_target_records job)) /\
    committed seg cov cs job b t (Ok (job_target_records job)).
Proof.
  intros Hinv Hp Hlen Hoff Hsync. pose proof (commit_spec seg cov job cs b w writes syncs Hinv) as Hspec.
  pose proof (bi_core _ _ _ _ _ _ Hinv) as Hc. destruct (durable b) as [c|] eqn:Hd; [|done].
  pose proof (in_flight_open _ _ _ _ _ _ Hc) as Ho. destruct Hc as (_ & [Hb _ _] & _ & Hj). rewrite (jo_wire _ _ _ Hj) in *.
  destruct (job_io_spec c (logical_records b) job Hb Hj writes syncs w Ho) as (w1 & r & E & Hmid & Hok & Hlive).
  specialize (Hlive Hp Hlen Hoff Hsync) as ->. pose proof (mid_io_inv _ _ _ _ _ _ _ _ Hinv Hd Hmid) as Hinv1.
  pose proof (finish_job_spec seg cov job cs b c w1 Hinv1 Hd (Ok tt) ltac:(intros _; by apply Hok)) as Hfin.
  assert (commit writes syncs job (b, w) = finish_job job (Ok tt) (b, w1)) as Ec by (unfold commit; cbn [snd fst]; by rewrite E).
  unfold wp in Hfin, Hspec. rewrite Ec in Hspec |- *. destruct (finish_job job (Ok tt) (b, w1)) as [| |t r] eqn:Ef; [done| |].
  - exfalso. eapply finish_no_wait; exact Ef.
  - destruct Hfin as (_ & _ & -> & _). by exists t.
Qed.

End WalFlush.
