(* ===== verification/WalBegin.v ===== *)
(** * Starting a group keeps the invariant

    Selection, the lineage check, the extent and the handoff: a begun job writes right behind the
    durable bytes, inside the preallocated extent. *)

From stdpp Require Import base gmap strings list pretty sorting.
From S2P Require Import Prelude Types LocalRepl Bytes Text Paths WalSegment WalProps Sidecar Codec Canonical Envelope EnvelopeExact Effects Disk Identity WalCore WalGroup WalScatter WalBuffer DiskFacts WalDurability WalInvariant WalFormation WalFlush.

Module WalBegin.
Import Paths Disk Effects WalCore WalGroup WalScatter DiskFacts WalDurability WalBuffer WalInvariant WalFormation WalFlush.

(** ** Parts of the invariant *)

Lemma inv_frame seg cov j cs b w w' : buffer_inv seg cov j cs b w -> frame seg w w' -> buffer_inv seg cov j cs b w'.
Proof.
  intros [Hm Hl Hc] Hf. constructor; [done|done|]. destruct (durable b) as [c|]; [|done].
  destruct Hc as (Hseg & Hd & Hj). split_and!; [done| |done]. eapply disk_frame; [done|]. by rewrite Hseg.
Qed.

Lemma inv_binding seg cov j cs b w bd :
  buffer_inv seg cov j cs b w -> 0 <= verified_records bd <= len b -> buffer_inv seg cov j cs (set_binding b bd) w.
Proof. intros Hi Hv. by eapply inv_similar; [| | |exact Hi]. Qed.

Lemma core_replaced seg cov j cs b w c c' :
  memory_inv b j cs -> 0 <= verified_records (durable_identity_binding b) <= len b -> durable b = Some c ->
  flushed_records (state c') = flushed_records (state c) -> core_inv seg c' (logical_records b) cov w j ->
  buffer_inv seg cov j cs (set_durable b (Some c')) w.
Proof.
  intros Hm Hl Hd Hf Hc'. constructor; [|done|done].
  assert (flushed_count (set_durable b (Some c')) = flushed_count b) as Hfc by (unfold flushed_count; cbn; by rewrite Hd, Hf).
  eapply memory_similar; [|exact Hm]. by constructor.
Qed.

Lemma inv_core seg cov cov' j cs b w w' c c' :
  buffer_inv seg cov j cs b w -> durable b = Some c -> flushed_records (state c') = flushed_records (state c) ->
  core_inv seg c' (logical_records b) cov' w' j -> buffer_inv seg cov' j cs (set_durable b (Some c')) w'.
Proof. intros [Hm Hl _]. by apply core_replaced. Qed.

Lemma set_durable_id b c : durable b = Some c -> set_durable b (Some c) = b.
Proof. destruct b; cbn. by intros ->. Qed.

Lemma slice_backwards {A} (l : list A) a z : z < a -> slice l a z = None.
Proof. intros H. unfold slice. by rewrite (proj2 (Z.leb_gt _ _)) by done. Qed.

Lemma slice_Some {A} (l : list A) a z : a <= z -> z <= vec_len l -> slice l a z = Some (sub l a z).
Proof. intros. unfold slice. by rewrite !(proj2 (Z.leb_le _ _)) by lia. Qed.

Lemma all_claimed b j cs :
  memory_inv b j cs -> typed_exact_tentative_count b = 0 -> Forall (fun w => wire_state w = ClaimedPending) (wires b).
Proof. intros Hm H0. destruct (mi_tentative _ _ _ Hm) as [[_ H]|[H _]]; [done|lia]. Qed.

Lemma none_tentative b j cs :
  memory_inv b j cs -> Forall (fun w => wire_state w = ClaimedPending) (wires b) -> typed_exact_tentative_count b = 0.
Proof.
  intros Hm Hc. destruct (mi_tentative _ _ _ Hm) as [[H _]|(_ & ws & wire & Hws & Hst & _)]; [done|].
  rewrite Hws in Hc. apply Forall_app in Hc as [_ [Hc _]%Forall_cons_1]. congruence.
Qed.

Lemma wp_on_disk_frames {A} seg b w (m : M World EngineError A) Q :
  frames seg m -> (forall w' r, frame seg w w' -> Q (b, w') r) -> wp (on_disk m) Q (b, w).
Proof. intros Hm HQ. apply wp_on_disk. eapply wp_mono; [apply Hm|]. auto. Qed.

(** ** Selection *)

Record prefix_ok (b : WalBuffer) (free : option Z) (p : WalGroupPrefix) : Prop := mkPrefixOk {
  po_first : px_first_record p = flushed_count b;
  po_selected : selected b (px_first_record p) free (px_target_records p) (px_wire_bytes p);
  po_exact : exact_wire_prefix_count b (px_target_records p) = Ok (px_exact_records p);
  po_some : px_first_record p < px_target_records p;
}.

Lemma select_prefix_spec b cs free :
  memory_inv b None cs -> Forall (fun w => wire_state w = ClaimedPending) (wires b) ->
  match select_prepared_group_prefix b (flushed_count b) free with
  | Ok None => len b <= flushed_count b
  | Ok (Some p) => prefix_ok b free p
  | Err _ => True
  end.
Proof.
  intros Hm Hcl. pose proof (mi_frontier _ _ _ Hm) as [Hf _]. unfold select_prepared_group_prefix.
  destruct (Z.leb_spec (len b) (flushed_count b)); [done|].
  pose proof (select_loop_spec b None cs Hm Hcl (flushed_count b) free (drop (Z.to_nat (flushed_count b)) (elems (records b)))
    (flushed_count b) 0 false) as Hs.
  destruct (select_loop _ _ _ _ _ _ _) as [[t n]|e]; [|done].
  destruct Hs as (Hsel & Hle & Hlt); [lia| |done|done|].
  { constructor; rewrite ?sub_nil; try done; unfold MAX_WAL_GROUP_WIRE_BYTES, MAX_WAL_GROUP_RECORDS, Wal.WAL_RECORD_HEADER_LEN; try lia. }
  destruct (exact_wire_prefix_count b t) as [n'|] eqn:Hn'; [|done]. constructor; try done. cbn. apply Hlt; [done|].
  intros E%(f_equal length). rewrite length_drop in E. unfold len, vec_len in *. cbn in E. lia.
Qed.

Lemma selected_None b first free t n : selected b first free t n -> selected b first None t n.
Proof. intros []. by constructor. Qed.

Lemma prefix_None b free p : prefix_ok b free p -> prefix_ok b None p.
Proof. intros []. constructor; try done. by eapply selected_None. Qed.

Lemma prefix_similar b b' free p : similar b b' -> prefix_ok b free p -> prefix_ok b' free p.
Proof.
  intros [Hr Hw _ _ _ Hf] [Pf [Pt Pb Pm Pc Pfr] Pe Ps].
  constructor; [congruence| |unfold exact_wire_prefix_count in *; by rewrite Hw|done].
  constructor; unfold len, logical_records in *; rewrite ?Hr; done.
Qed.

(** The group fits behind the durable bytes. *)
Definition fits (c : WalDurableCore) (p : WalGroupPrefix) : Prop :=
  file (state c) <> None /\ durable_bytes (state c) + px_wire_bytes p <= prealloc_bytes (state c) /\
  durable_bytes (state c) + px_wire_bytes p <= u64_max.

Lemma fits_checked c p :
  negb (bool_decide (is_Some (file (state c)))) || match checked_add64 (durable_bytes (state c)) (px_wire_bytes p) with
    | None => true | Some end_ => prealloc_bytes (state c) <? end_ end = false -> fits c p.
Proof.
  intros [H1 H2]%orb_false_iff. apply negb_false_iff, bool_decide_eq_true in H1. unfold checked_add64 in H2.
  destruct (Z.leb_spec (durable_bytes (state c) + px_wire_bytes p) u64_max); [|done]. apply Z.ltb_ge in H2.
  split_and!; [|lia|lia]. intros E. rewrite E in H1. by destruct H1.
Qed.

Lemma serial_prefix_spec b cs c :
  memory_inv b None cs -> Forall (fun w => wire_state w = ClaimedPending) (wires b) -> durable b = Some c ->
  match serial_prefix b (state c) with
  | Ok None => len b <= flushed_count b
  | Ok (Some p) => prefix_ok b None p /\ (px_exact_records p <> 0 -> fits c p)
  | Err _ => True
  end.
Proof.
  intros Hm Hcl Hd. unfold serial_prefix. assert (flushed_records (state c) = flushed_count b) as -> by (unfold flushed_count; by rewrite Hd).
  pose proof (select_prefix_spec b cs None Hm Hcl) as Hn. destruct (select_prepared_group_prefix b _ None) as [[p|]|e]; [|done|done].
  destruct (Z.eqb_spec (px_exact_records p) 0); [done|]. destruct (_ <? _); [done|].
  pose proof (select_prefix_spec b cs (Some (prealloc_bytes (state c) - durable_bytes (state c))) Hm Hcl) as Hc.
  destruct (select_prepared_group_prefix _ _ (Some _)) as [[p'|]|e]; [|done|done].
  destruct (Z.eqb_spec (px_exact_records p') 0); cbn [negb andb]; [split; [by eapply prefix_None|done]|].
  destruct (_ || _) eqn:Hfit; [done|]. split; [by eapply prefix_None|]. intros _. by apply fits_checked.
Qed.

(** The lineage was verified at most through the next group or the last exact record. *)
Definition lineage_settled (b : WalBuffer) (j : option SerialFlushJob) : Prop :=
  verified_records (durable_identity_binding b) <= frontier b j \/
  exists wire, last (wires b) = Some wire /\ verified_records (durable_identity_binding b) <= record_index wire + 1.

Lemma last_drop {A} (l : list A) n : last (drop n l) = if decide (n < length l)%nat then last l else None.
Proof.
  case_decide; [|by rewrite drop_ge by lia]. rewrite !last_lookup, lookup_drop, length_drop. f_equal. lia.
Qed.

Lemma settled_handoff b cs p b' g job :
  lineage_settled b None -> prefix_ok b None p -> handed b cs p b' g -> job_target_records job = px_target_records p ->
  lineage_settled b' (Some job).
Proof.
  intros Hs [Pf [Pt _ _ _ _] _ _] [_ _ _ Gb (n & Gw & Glt) _ _ _ _] Ht. unfold lineage_settled, frontier in *. rewrite Gb, Ht, Gw.
  destruct Hs as [Hs|(wire & Hl & Hv)]; [left; lia|]. rewrite last_drop. case_decide as Hn; [right; by exists wire|left].
  rewrite take_ge in Glt by lia. rewrite Forall_forall in Glt. assert (wire ∈ wires b) as Hin by (apply last_Some in Hl as [l' ->]; set_solver).
  specialize (Glt _ Hin). cbn in Glt. lia.
Qed.

Section begin.
Context (sha256 : list byte -> list byte) (pid : Z) (try_reserve_exact : Z -> bool) (chunk : Z).
Context (seg : Path) (Hpaths : own_paths pid seg) (Hchunk : 10 <= chunk) (cov : Z) (cs : list TypedExactPendingCredit).

(** ** Lineage *)

(** [t] is [b] with another lineage binding, and the segment is as in [w]. *)
Definition rebound (b : WalBuffer) (w : World) (t : WalBuffer * World) : Prop :=
  exists bd, t.1 = set_binding b bd /\ 0 <= verified_records bd <= len b /\ frame seg w t.2.

Lemma rebound_refl b w : 0 <= verified_records (durable_identity_binding b) <= len b -> rebound b w (b, w).
Proof. intros. exists (durable_identity_binding b). split_and!; [by destruct b|lia|lia|reflexivity]. Qed.

Lemma rebound_inv j b w t : buffer_inv seg cov j cs b w -> rebound b w t -> buffer_inv seg cov j cs t.1 t.2.
Proof. intros Hi (bd & -> & Hv & Hf). apply inv_binding; [by eapply inv_frame|done]. Qed.

Lemma verify_through_spec b w target :
  0 <= verified_records (durable_identity_binding b) <= target -> target <= len b ->
  wp (verify_through sha256 pid try_reserve_exact seg target) (fun t r => rebound b w t /\
    (is_ok r = true -> verified_records (durable_identity_binding t.1) = target)) (b, w).
Proof.
  intros Hv Ht. unfold verify_through. apply wp_bind, wp_buffer.
  destruct (Z.eqb_spec (verified_records (durable_identity_binding b)) target).
  { apply wp_ret. split; [apply rebound_refl; lia|done]. }
  apply wp_bind. eapply wp_expect; [apply slice_Some; rewrite ?logical_len; lia|].
  apply wp_bind, wp_of_result. destruct (Identity.identity_through _ _ _ _) as [id|e]; [|split; [apply rebound_refl; lia|done]].
  assert (forall w', frame seg w w' -> rebound b w (b, w')) as Hre.
  { intros w' Hf. exists (durable_identity_binding b). split_and!; [by destruct b|cbn; lia|lia|done]. }
  assert (forall w', frame seg w w' -> wp (update (fun b => set_binding b (mkBinding id target))) (fun t r => rebound b w t /\
    (is_ok r = true -> verified_records (durable_identity_binding t.1) = target)) (b, w')) as Hup.
  { intros w' Hf. apply wp_update. split; [|done]. eexists. split; [done|]. split; [cbn; lia|done]. }
  apply wp_bind. destruct id as [id|]; [case_bool_decide|apply wp_ret, Hup; reflexivity].
  all: eapply wp_on_disk_frames; [by (eapply frames_require_identity || eapply frames_check_identity)|].
  all: intros w' [[]|e'] Hf; [by apply Hup|split; [by apply Hre|done]].
Qed.

(** ** The extent *)

Lemma fits_open c recs w p : disk_inv c recs cov w -> fits c p -> open_inv c recs w.
Proof. intros [_ _ [Ho|(Hf & _)]] [H _]; [done|]. by rewrite Hf in H. Qed.

(** [t] is [b] whose core may have an open, longer segment. *)
Definition extended (b : WalBuffer) (c : WalDurableCore) (t : WalBuffer * World) (c' : WalDurableCore) : Prop :=
  t.1 = set_durable b (Some c') /\ unmoved c c' /\ disk_inv c' (logical_records b) cov t.2.

Lemma extended_inv b w c t c' :
  buffer_inv seg cov None cs b w -> durable b = Some c -> extended b c t c' -> buffer_inv seg cov None cs t.1 t.2.
Proof.
  intros Hi Hd (-> & Hu & Hdisk). pose proof (bi_core _ _ _ _ _ _ Hi) as Hc. rewrite Hd in Hc.
  destruct Hc as (Hseg & _ & Hio). destruct Hu. eapply inv_core; [done|done|congruence|]. split_and!; congruence || done.
Qed.

Lemma legacy_extent_spec b w c p :
  buffer_inv seg cov None cs b w -> durable b = Some c -> poisoned (state c) = None ->
  (px_exact_records p <> 0 -> fits c p) ->
  wp (legacy_extent pid chunk p) (fun t r => exists c', extended b c t c' /\ (is_ok r = true -> fits c' p)) (b, w).
Proof.
  intros Hi Hd Hpo Hfit. pose proof (bi_core _ _ _ _ _ _ Hi) as Hc. rewrite Hd in Hc. destruct Hc as (Hseg & Hdisk & Hio).
  assert (extended b c (b, w) c) as Hrefl by (split_and!; [by rewrite set_durable_id|reflexivity|done]).
  unfold legacy_extent. apply wp_bind, wp_buffer. destruct (Z.eqb_spec (px_exact_records p) 0) as [E|E]; cbn [negb].
  2: { apply wp_ret. exists c. split; [done|]. intros _. by apply Hfit. }
  case_bool_decide as Hw.
  - eapply wp_on_core; [done|]. apply wp_bind. eapply wp_mono; [by eapply ensure_created_spec|].
    intros [c1 w1] r1 (Hd1 & Hu1 & _ & Ho1). cbn [fst snd] in *. destruct r1 as [[]|e]; [|exists c1; by split_and!].
    unfold get_state. apply wp_bind, wp_bind, wp_get, wp_ret. cbn [fst]. apply wp_bind, wp_of_result.
    destruct (checked_add64 _ _) as [end_|] eqn:Hend; cbn [ok_or]; [|exists c1; by split_and!].
    apply checked_add64_Some in Hend as [-> Hend]. specialize (Ho1 eq_refl).
    eapply wp_mono; [eapply (ensure_preallocated_spec chunk seg c1); [pose proof (um_path _ _ Hu1); congruence|done]|].
    intros [c2 w2] r2 (Ho2 & Hu2 & Hdb & Hpre). cbn [fst snd] in *. exists c2. split.
    + split_and!; [done|by etrans|]. destruct Hd1 as [Hb1 Hf1 _]. cbn [snd]. pose proof Hu2 as [].
      constructor; [congruence|congruence|by left].
    + intros Hok. specialize (Hpre Hok). split_and!; [by rewrite (oi_file _ _ _ Ho2)|lia|lia].
  - apply wp_bind. eapply wp_expect; [done|]. apply wp_bind, wp_of_result.
    destruct (checked_add64 _ _) as [end_|] eqn:Hend; cbn [ok_or]; [|by exists c]. apply checked_add64_Some in Hend as [-> Hend].
    destruct (negb _ || _) eqn:Hbad; [apply wp_throw; by exists c|]. apply wp_ret. exists c. split; [done|]. intros _.
    apply fits_checked. by rewrite (proj2 (checked_add64_Some _ _ _) (conj eq_refl Hend)).
Qed.

(** ** Beginning *)

(** How [begin_group_flush] may end on an idle buffer. *)
Record begun (b : WalBuffer) (t : WalBuffer * World) (r : result WalGroupFlushBegin EngineError) : Prop := mkBegun {
  bg_records : records t.1 = records b;
  bg_inv : match r with
           | Ok (Job job) => buffer_inv seg cov (Some job) cs t.1 t.2
           | _ => buffer_inv seg cov None cs t.1 t.2
           end;
  bg_clean : forall n, r = Ok (Clean n) -> flushed_count t.1 = n /\ (len b <= n \/ flushed_count b < n);
  bg_flushed : flushed_count b <= flushed_count t.1;
  bg_mode : durable t.1 = None <-> durable b = None;
  bg_wires : exists n, wires t.1 = drop n (wires b);
  bg_settled : lineage_settled b None ->
    match r with
    | Ok (Job job) => lineage_settled t.1 (Some job)
    | Ok (Clean _) => lineage_settled t.1 None
    | _ => True
    end;
}.

Lemma started_job b b' g p c w :
  buffer_inv seg cov None cs b w -> durable b = Some c -> prefix_ok b None p -> handed b cs p b' g ->
  fits c p ->
  buffer_inv seg cov (Some (mkJob seg (durable_bytes (state c)) (px_target_records p) (group_size p) g)) cs
    (set_durable b' (Some (set_state c (set_io_in_flight (state c) true)))) w.
Proof.
  intros [Hm Hl Hc] Hd [Pf [Pt Pb Pm Pc _] Pe Ps] [Hr Hfm Hdu Hbd _ Hall Hes Hby Hwi] Hfit.
  rewrite Hd in Hc. destruct Hc as (Hseg & Hdisk & Hio). pose proof (fits_open _ _ _ _ Hdisk Hfit) as Ho. destruct Hfit as (_ & F1 & F2).
  assert (flushed_records (state c) = flushed_count b) as Hfl by (unfold flushed_count; by rewrite Hd).
  assert (logical_records b' = logical_records b) as Hlr by (unfold logical_records; by rewrite Hr).
  assert (len b' = len b) as Hle by (unfold len; by rewrite Hr).
  constructor.
  - eapply memory_similar; [|by apply Hall]. constructor; try done. unfold flushed_count; cbn. by rewrite Hdu, Hd.
  - change (0 <= verified_records (durable_identity_binding b') <= len b'). by rewrite Hbd, Hle.
  - cbn [set_durable durable]. change (logical_records (set_durable _ _)) with (logical_records b'). rewrite Hlr.
    split_and!; [done| |done|].
    + destruct Hdisk as [Hb Hf _]. constructor; [done|done|]. left. by destruct Ho.
    + constructor; cbn [job_file job_offset job_target_records job_group_size job_group set_state state set_io_in_flight
        durable_bytes flushed_records prealloc_bytes segment_path]; try done.
      * rewrite Hfl, <- Pf, logical_len. lia.
      * unfold group_size. by rewrite Hfl, Pf.
      * by rewrite Hby, Pf, Hfl.
      * rewrite Hwi, Hby, <- Pb. lia.
      * rewrite Hwi, Hby, <- Pb. lia.
Qed.

(** Nothing beyond the group was verified. *)
Definition verifiable (b : WalBuffer) : Prop :=
  forall c p, durable b = Some c -> serial_prefix b (state c) = Ok (Some p) -> wires b = [] ->
    verified_records (durable_identity_binding b) <= px_target_records p.

(** The next flush would verify the lineage of a group that ends before what is verified. *)
Definition overtaken (b : WalBuffer) : bool :=
  match durable b with
  | Some c =>
      match fixed_fault c, poisoned (state c), wires b, serial_prefix b (state c) with
      | None, None, [], Ok (Some p) =>
          negb (io_in_flight (state c)) && (typed_exact_tentative_count b =? 0) && negb (fail_next_flush b) &&
          (px_target_records p <? verified_records (durable_identity_binding b))
      | _, _, _, _ => false
      end
  | None => false
  end.

Lemma verifiable_not_overtaken b : verifiable b -> overtaken b = false.
Proof.
  intros Hv. unfold overtaken. repeat case_match; try done. apply andb_false_iff. right. apply Z.ltb_ge. by eapply Hv.
Qed.

Lemma not_overtaken b c :
  overtaken b = false -> durable b = Some c -> fixed_fault c = None -> poisoned (state c) = None ->
  io_in_flight (state c) = false -> typed_exact_tentative_count b = 0 -> fail_next_flush b = false -> verifiable b.
Proof.
  intros Ho Hd Hf Hp Hi Ht Hn c' p Hd' Hs Hw. rewrite Hd in Hd'. injection Hd' as <-.
  unfold overtaken in Ho. rewrite Hd, Hf, Hp, Hw, Hs, Hi, Ht, Hn in Ho. by apply Z.ltb_ge.
Qed.

Lemma begun_idle b t r :
  records t.1 = records b -> flushed_count t.1 = flushed_count b -> (durable t.1 = None <-> durable b = None) ->
  wires t.1 = wires b ->
  buffer_inv seg cov None cs t.1 t.2 -> (forall n, r <> Ok (Clean n)) -> (forall job, r <> Ok (Job job)) -> begun b t r.
Proof.
  intros Hr Hf Hd Hw Hi Hc Hj. constructor; [done| |intros n ->; by destruct (Hc n)|lia|done|by exists 0%nat|]; destruct r as [[job|n|]|e]; try done; by destruct (Hj job) || destruct (Hc n).
Qed.

Section serial.
Context (b : WalBuffer) (w : World) (c : WalDurableCore).
Context (Hinv : buffer_inv seg cov None cs b w) (Hcore : durable b = Some c) (Hpoison : poisoned (state c) = None).
Context (Hclaimed : Forall (fun w => wire_state w = ClaimedPending) (wires b)).

(** From the handoff on. *)
Lemma begin_handoff_spec p b1 w1 c1 :
  buffer_inv seg cov None cs b1 w1 -> durable b1 = Some c1 -> similar b b1 -> records b1 = records b ->
  prefix_ok b None p -> fits c1 p ->
  (lineage_settled b None -> lineage_settled b1 None \/
     verified_records (durable_identity_binding b1) <= px_target_records p) ->
  wp (let! f := expect (file (state c1)) in
      let! group := handoff_prepared_group p in
      match group with
      | None => ret BeginBusy
      | Some group =>
          on_core (put_state (fun s => set_io_in_flight s true)) ;;
          ret (Job (mkJob f (durable_bytes (state c1)) (px_target_records p) (group_size p) group))
      end) (begun b) (b1, w1).
Proof.
  intros Hi Hd Hsim Hr Hp Hfit Hset. pose proof (bi_core _ _ _ _ _ _ Hi) as Hc. rewrite Hd in Hc. destruct Hc as (Hseg & Hdisk & _).
  pose proof (oi_file _ _ _ (fits_open _ _ _ _ Hdisk Hfit)) as Hfile. apply wp_bind. eapply wp_expect; [exact Hfile|].
  pose proof (prefix_similar _ _ _ _ Hsim Hp) as Hp1. pose proof Hp1 as [Pf Psel Pe Ps].
  assert (forall r, (forall n, r <> Ok (Clean n)) -> (forall job, r <> Ok (Job job)) -> begun b (b1, w1) r) as Hidle.
  { intros r H1 H2. apply begun_idle; try done; [by destruct Hsim|cbn; by rewrite Hd, Hcore|by destruct Hsim]. }
  apply wp_bind. apply (handoff_spec b1 cs w1 p); try done.
  - apply Hi.
  - by rewrite (sm_wires _ _ Hsim).
  - intros e. by apply Hidle.
  - by apply Hidle.
  - intros b2 g Hh. apply wp_bind. pose proof Hh as [Gr Gm Gd Gb (n & Gw & _) _ _ _ _]. eapply wp_on_core; [by rewrite Gd|].
    apply wp_modify. cbn [fst snd]. apply wp_ret. rewrite Hseg. constructor; cbn [fst snd].
    + cbn. congruence.
    + by eapply started_job.
    + done.
    + unfold flushed_count. cbn. rewrite Hcore. pose proof (sm_flushed _ _ Hsim) as Hf. unfold flushed_count in Hf.
      rewrite Hd, Hcore in Hf. lia.
    + cbn. by rewrite Hcore.
    + exists n. by rewrite <- (sm_wires _ _ Hsim).
    + intros Hset0. change (lineage_settled b2 (Some (mkJob seg (durable_bytes (state c1)) (px_target_records p) (group_size p) g))).
      destruct (Hset Hset0) as [Hs|Hv]; [by eapply settled_handoff|]. left. rewrite Gb. done.
Qed.

Lemma begin_serial_spec :
  (fixed_fault c = None -> verifiable b) -> wp (begin_serial sha256 pid try_reserve_exact chunk c) (begun b) (b, w).
Proof.
  intros Hver. unfold begin_serial.
  pose proof (bi_core _ _ _ _ _ _ Hinv) as Hc. rewrite Hcore in Hc. destruct Hc as (Hseg & Hdisk & Hio).
  assert (forall r, (forall n, r <> Ok (Clean n)) -> (forall job, r <> Ok (Job job)) -> begun b (b, w) r) as Hidle
    by (intros; by apply begun_idle).
  destruct (fixed_fault c); [apply wp_throw; by apply Hidle|]. specialize (Hver eq_refl). rewrite Hio, Hpoison. apply wp_bind, wp_buffer. apply wp_bind, wp_of_result.
  pose proof (serial_prefix_spec b cs c (bi_memory _ _ _ _ _ _ Hinv) Hclaimed Hcore) as Hsel.
  destruct (serial_prefix b (state c)) as [[p|]|e] eqn:Hser; [|apply wp_ret|by apply Hidle].
  2: { assert (flushed_records (state c) = flushed_count b) as Hf by (unfold flushed_count; by rewrite Hcore).
       constructor; try done; [|by exists 0%nat]. intros n [= <-]. split; [done|left; lia]. }
  destruct Hsel as [Hp Hfit]. pose proof Hp as [Pf [Pt _ _ _ _] _ _].
  apply wp_bind.
  assert (forall Q : WalBuffer * World -> result unit EngineError -> Prop,
    (forall t r, rebound b w t -> (is_ok r = true -> durable_identity_binding t.1 = durable_identity_binding b \/
       verified_records (durable_identity_binding t.1) <= px_target_records p) -> Q t r) ->
    wp (if bool_decide (wires b = []) then verify_through sha256 pid try_reserve_exact (segment_path c) (px_target_records p) else ret tt)
      Q (b, w)) as Hverify.
  { intros Q HQ. pose proof (bi_lineage _ _ _ _ _ _ Hinv) as Hl. case_bool_decide as Hw; [|apply wp_ret, HQ; [apply rebound_refl; lia|by left]].
    rewrite Hseg. eapply wp_mono; [apply verify_through_spec; [specialize (Hver c p Hcore Hser Hw); lia|lia]|].
    intros t r [Ht Hv]. apply HQ; [done|]. intros Hok. right. rewrite Hv by done. lia. }
  apply Hverify. intros t r Hre Hvt. pose proof (rebound_inv _ _ _ _ Hinv Hre) as Hi1. destruct t as [b1 w1]. destruct Hre as (bd & Hb1 & Hv & Hfr).
  cbn [fst snd] in *. assert (similar b b1) as Hs1 by (subst; done). assert (durable b1 = Some c) as Hd1 by (subst; done).
  destruct r as [[]|e]; [|apply begun_idle; try done; by subst].
  apply wp_bind. eapply wp_mono; [by eapply legacy_extent_spec|]. intros [b2 w2] r (c2 & Hext & Hfit2).
  pose proof (extended_inv _ _ _ _ _ Hi1 Hd1 Hext) as Hi2. destruct Hext as (Hb2 & Hu & Hdisk2). cbn [fst snd] in *.
  assert (similar b b2) as Hs2.
  { subst b2 b1. constructor; try done. destruct Hu. unfold flushed_count. cbn. rewrite Hcore. done. }
  destruct r as [[]|e].
  2: { apply begun_idle; [by subst|by destruct Hs2| |by destruct Hs2|done|done|done]. subst b2. cbn. by rewrite Hcore. }
  apply wp_bind, wp_buffer. apply wp_bind. eapply wp_expect; [by rewrite Hb2|].
  apply begin_handoff_spec; try done; [by subst b2|by subst|by apply Hfit2|].
  intros Hs. destruct (Hvt eq_refl) as [Hv'|Hv']; [left|right; by subst b2]. subst b2. cbn in Hs2.
  unfold lineage_settled, frontier in *. change (durable_identity_binding (set_durable b1 _)) with (durable_identity_binding b1).
  by rewrite Hv', (sm_wires _ _ Hs2), (sm_flushed _ _ Hs2).
Qed.

End serial.

Lemma begin_in_memory_spec b w :
  buffer_inv seg cov None cs b w -> durable b = None -> Forall (fun w => wire_state w = ClaimedPending) (wires b) ->
  wp begin_in_memory (begun b) (b, w).
Proof.
  intros Hinv Hd Hcl. pose proof (bi_memory _ _ _ _ _ _ Hinv) as Hm. unfold begin_in_memory. apply wp_bind, wp_buffer. apply wp_bind, wp_of_result.
  assert (flushed_memory b = flushed_count b) as Hfm by (unfold flushed_count; by rewrite Hd). rewrite Hfm.
  assert (forall r, (forall n, r <> Ok (Clean n)) -> (forall job, r <> Ok (Job job)) -> begun b (b, w) r) as Hidle
    by (intros; by apply begun_idle).
  pose proof (select_prefix_spec b cs None Hm Hcl) as Hsel. destruct (select_prepared_group_prefix b _ None) as [[p|]|e]; [|apply wp_ret|by apply Hidle].
  2: { constructor; try done; [|by exists 0%nat]. intros n [= <-]. split; [done|left; lia]. }
  pose proof Hsel as [Pf Psel Pe Ps]. apply wp_bind. apply (handoff_spec b cs w p); try done; try (by intros; apply Hidle).
  intros b1 g Hh. pose proof Hh as [Gr Gm Gd Gb Gw Hall _ _ _]. apply wp_bind, wp_update.
  destruct (settle_inv b1 (mkJob seg 0 (px_target_records p) 0 g) cs Idle) as (a & Ha & Hset); [by apply Hall|done|].
  apply wp_bind. eapply wp_update_arena; [exact Ha|]. apply wp_ret. pose proof (mi_frontier _ _ _ Hm) as [Hf _].
  constructor; cbn [fst snd]; try done.
  - constructor; [apply Hset; try done| |cbn; by rewrite Gd, Hd].
    + unfold flushed_count. cbn. rewrite Gd, Hd. lia.
    + unfold len. cbn. rewrite Gb, Gr. apply Hinv.
  - intros n [= <-]. unfold flushed_count at 1. cbn. rewrite Gd, Hd. split; [done|right; lia].
  - unfold flushed_count at 2. cbn. rewrite Gd, Hd. lia.
  - cbn. by rewrite Gd.
  - destruct Gw as (n & Gw & _). by exists n.
  - intros Hs. pose proof (settled_handoff _ _ _ _ _ (mkJob seg 0 (px_target_records p) 0 g) Hs Hsel Hh eq_refl) as H.
    unfold lineage_settled, frontier, flushed_count in *. cbn in *. by rewrite Gd, Hd.
Qed.

(** Also while another job is in flight. *)
Lemma begin_group_flush_spec b w j :
  buffer_inv seg cov j cs b w -> overtaken b = false ->
  wp (begin_group_flush sha256 pid try_reserve_exact chunk) (fun t r =>
    match j with
    | None => begun b t r
    | Some _ => buffer_inv seg cov j cs t.1 t.2 /\ similar b t.1 /\ durable t.1 = durable b /\ forall k, r <> Ok (Job k) /\ forall n, r <> Ok (Clean n)
    end) (b, w).
Proof.
  intros Hinv Hver. unfold begin_group_flush. pose proof (bi_memory _ _ _ _ _ _ Hinv) as Hm.
  assert (forall b' e, similar b b' -> durable b' = durable b -> records b' = records b -> durable_identity_binding b' = durable_identity_binding b ->
    match j with
    | None => begun b (b', w) (Err e)
    | Some _ => buffer_inv seg cov j cs b' w /\ similar b b' /\ durable b' = durable b /\
        forall k, @Err WalGroupFlushBegin _ e <> Ok (Job k) /\ forall n, @Err WalGroupFlushBegin _ e <> Ok (Clean n)
    end) as Herr.
  { intros b' e Hs Hd Hr Hb. assert (buffer_inv seg cov j cs b' w) as Hi' by (eapply inv_similar; try done; rewrite Hb; apply Hinv).
    destruct j; [by split_and!|]. apply begun_idle; try done; [by destruct Hs|cbn; by rewrite Hd|by destruct Hs]. }
  apply wp_bind. eapply prune_noop; [done|]. apply wp_bind. unfold require_no_unclaimed_typed_exact_tail. apply wp_bind, wp_buffer.
  destruct (Z.eqb_spec (typed_exact_tentative_count b) 0) as [H0|H0]; cbn [negb]; [|apply wp_throw; by apply Herr].
  apply wp_ret. apply wp_bind, wp_buffer. destruct (fail_next_flush b) eqn:Hn; [apply wp_bind, wp_update, wp_throw; by apply Herr|].
  pose proof (all_claimed b j cs Hm H0) as Hcl. pose proof (bi_core _ _ _ _ _ _ Hinv) as Hc.
  destruct (durable b) as [c|] eqn:Hd; [|subst j; by apply begin_in_memory_spec]. destruct j as [job|].
  - destruct Hc as (_ & _ & Hio & _). unfold begin_serial. destruct (fixed_fault c); [apply wp_throw; rewrite <- Hd in *; by apply Herr|].
    rewrite Hio. apply wp_ret. by split_and!.
  - destruct (poisoned (state c)) as [reason|] eqn:Hp.
    + unfold begin_serial. destruct Hc as (_ & _ & ->). rewrite Hp. destruct (fixed_fault c); apply wp_throw; by apply Herr.
    + apply begin_serial_spec; try done. intros Hf. by eapply not_overtaken; [| |done| |apply Hc|..].
Qed.

(** When the lineage was overtaken, the flush slices backwards and panics. *)
Lemma overtaken_panics j b w :
  buffer_inv seg cov j cs b w -> overtaken b = true ->
  begin_group_flush sha256 pid try_reserve_exact chunk (b, w) = Panic.
Proof.
  intros Hi Ho. unfold overtaken in Ho. destruct (durable b) as [c|] eqn:Hd; [|done].
  destruct (fixed_fault c) eqn:Hf; [done|]. destruct (poisoned (state c)) eqn:Hp; [done|]. destruct (wires b) eqn:Hw; [|done].
  destruct (serial_prefix b (state c)) as [[p|]|] eqn:Hs; try done.
  apply andb_prop in Ho as [[[H1%negb_true_iff H2]%andb_prop H3%negb_true_iff]%andb_prop H4%Z.ltb_lt].
  unfold begin_group_flush. unfold bind at 1. rewrite (prune_same _ _ _ _ (bi_memory _ _ _ _ _ _ Hi)).
  unfold require_no_unclaimed_typed_exact_tail, buffer, bind, get, ret. cbn [fst]. rewrite H2. cbn [negb fst].
  rewrite H3, Hd. unfold begin_serial. rewrite Hf, H1, Hp. unfold buffer, bind, get, ret, of_result. cbn [fst]. rewrite Hs, Hw.
  rewrite bool_decide_eq_true_2 by done. unfold verify_through, buffer, bind, get, ret, expect. cbn [fst].
  rewrite (proj2 (Z.eqb_neq _ _)) by lia. by rewrite slice_backwards.
Qed.

(** ** Flushing everything *)

(** Once a flush has failed, the next one is refused and changes nothing. *)
Lemma begin_refused b w :
  buffer_inv seg cov None cs b w -> faulted b ->
  exists b' e, begin_group_flush sha256 pid try_reserve_exact chunk (b, w) = Done (b', w) (Err e) /\
    records b' = records b /\ flushed_count b' = flushed_count b.
Proof.
  intros Hi (c & Hd & Hf). pose proof (bi_core _ _ _ _ _ _ Hi) as Hc. rewrite Hd in Hc. destruct Hc as (_ & _ & Hio).
  unfold begin_group_flush. unfold bind at 1. rewrite (prune_same _ _ _ _ (bi_memory _ _ _ _ _ _ Hi)).
  unfold require_no_unclaimed_typed_exact_tail, buffer, bind, get, ret. cbn [fst].
  destruct (negb _); cbv beta iota; cbn [fst]; [eexists _, _; by split; [reflexivity|]|]. destruct (fail_next_flush b); [eexists _, _; by split; [reflexivity|]|]. rewrite Hd. unfold begin_serial.
  destruct (fixed_fault c) as [f|]; [eexists _, _; by split; [reflexivity|]|]. rewrite Hio. destruct (poisoned (state c)) as [reason|]; [eexists _, _; by split; [reflexivity|]|].
  by destruct Hf as [|].
Qed.

Lemma settled_verifiable b :
  memory_inv b None cs -> Forall (fun w => wire_state w = ClaimedPending) (wires b) -> lineage_settled b None -> verifiable b.
Proof.
  intros Hm Hcl Hs c p Hd Hp Hw. pose proof (serial_prefix_spec b cs c Hm Hcl Hd) as H. rewrite Hp in H.
  destruct H as [[Pf _ _ Ps] _]. destruct Hs as [Hs|(wire & Hl & _)]; [cbn in Hs; lia|]. by rewrite Hw in Hl.
Qed.

Definition flushed_through (b : WalBuffer) (target : Z) (t : WalBuffer * World) (r : result unit EngineError) : Prop :=
  buffer_inv seg cov None cs t.1 t.2 /\ records t.1 = records b /\ (is_ok r = true -> target <= flushed_count t.1).

(** A buffer a flush can work on. *)
Record flushable (b : WalBuffer) (w : World) : Prop := mkFlushable {
  fl_inv : buffer_inv seg cov None cs b w;
  fl_settled : lineage_settled b None;
  fl_claimed : Forall (fun w => wire_state w = ClaimedPending) (wires b);
}.

Lemma committed_flushable job b t n :
  committed seg cov cs job b t (Ok n) -> lineage_settled b (Some job) ->
  Forall (fun w => wire_state w = ClaimedPending) (wires b) -> flushable t.1 t.2.
Proof.
  intros [Ci Cr Cw Cb _ [_ Cf]] Hs Hc. constructor; [done| |by rewrite Cw]. unfold lineage_settled, frontier in *. by rewrite Cb, Cw, Cf.
Qed.

Lemma begun_claimed b t r :
  begun b t r -> Forall (fun w => wire_state w = ClaimedPending) (wires b) ->
  Forall (fun w => wire_state w = ClaimedPending) (wires t.1).
Proof. intros [_ _ _ _ _ (n & ->) _] Hc. by apply Forall_drop. Qed.

Lemma flush_loop_spec fuel answers target b w :
  flushable b w -> len b - flushed_count b < Z.of_nat fuel -> target <= len b ->
  wp (flush_loop sha256 pid try_reserve_exact chunk fuel answers target) (flushed_through b target) (b, w).
Proof.
  revert answers b w. induction fuel as [|fuel IH]; intros answers b w [Hi Hs Hc] Hfuel Ht; cbn [flush_loop].
  { pose proof (mi_frontier _ _ _ (bi_memory _ _ _ _ _ _ Hi)) as [_ H]. cbn in H. lia. }
  assert (forall answers b1 w1, flushable b1 w1 -> records b1 = records b -> flushed_count b < flushed_count b1 ->
    wp (let! b := buffer in if target <=? flushed_count b then prune_durable_typed_exact_wire_records
        else flush_loop sha256 pid try_reserve_exact chunk fuel answers target) (flushed_through b target) (b1, w1)) as Hsettle.
  { intros answers1 b1 w1 Hf1 Hr Hp. assert (len b1 = len b) as Hl by (unfold len; by rewrite Hr).
    apply wp_bind, wp_buffer. destruct (Z.leb_spec target (flushed_count b1)).
    - eapply prune_noop; [apply Hf1|]. split_and!; [apply Hf1|done|done].
    - eapply wp_mono; [apply IH; [done|lia|lia]|]. intros t r (H1 & H2 & H3). split_and!; [done|by rewrite H2|done]. }
  apply wp_bind. eapply wp_mono.
  { apply (begin_group_flush_spec b w None Hi). by apply verifiable_not_overtaken, settled_verifiable; [apply Hi| |]. }
  cbv beta iota. intros [b1 w1] r Hb. pose proof (begun_claimed _ _ _ Hb Hc) as Hc1. pose proof Hb as [Br Bi Bc Bf Bm _ Bs].
  cbn [fst snd] in *. specialize (Bs Hs). destruct r as [[job|n|]|e]; [..|by split_and!].
  - destruct answers as [|[writes syncs] answers]; [done|]. apply wp_bind. eapply wp_mono; [by apply commit_spec|].
    intros [b2 w2] r2 Hcm. pose proof Hcm as [Ci Cr _ _ _ Cres]. cbn [fst snd] in *.
    destruct r2 as [n|e]; [|split_and!; [done|cbn; congruence|done]]. destruct Cres as [-> Hf]. apply Hsettle; [|congruence|].
    + by apply (committed_flushable _ _ _ _ Hcm).
    + rewrite Hf. pose proof (bi_core _ _ _ _ _ _ Bi) as Hco. destruct (durable b1) as [c|] eqn:Hd; [|done].
      destruct Hco as (_ & _ & _ & []). unfold flushed_count in Bf at 2. rewrite Hd in Bf. lia.
  - destruct (Bc n eq_refl) as [Hn Hor]. destruct (Z.leb_spec target n).
    + eapply prune_noop; [apply Bi|]. split_and!; [done|done|cbn; lia].
    + apply Hsettle; [by constructor|done|]. destruct Hor; lia.
  - apply wp_bind, wp_buffer. destruct (durable b1); [done|]. apply wp_throw. by split_and!.
Qed.

Lemma flush_all_spec answers b w :
  buffer_inv seg cov None cs b w -> lineage_settled b None ->
  wp (flush_all sha256 pid try_reserve_exact chunk answers) (flushed_through b (len b)) (b, w).
Proof.
  intros Hi Hs. unfold flush_all, require_no_unclaimed_typed_exact_tail. apply wp_bind. eapply prune_noop; [apply Hi|].
  apply wp_bind, wp_bind, wp_buffer. destruct (Z.eqb_spec (typed_exact_tentative_count b) 0) as [H0|H0]; cbn [negb].
  2: { apply wp_throw. by split_and!. }
  apply wp_ret, wp_bind, wp_buffer. pose proof (mi_frontier _ _ _ (bi_memory _ _ _ _ _ _ Hi)) as [Hf _].
  apply flush_loop_spec; [|unfold len, vec_len in *; lia|lia]. constructor; [done|done|]. by eapply all_claimed; [apply Hi|].
Qed.

End begin.

End WalBegin.

(** * Appends, truncation and rotation keep the invariant *)

Module WalAppend.
Import Paths Disk Effects WalCore WalGroup WalScatter DiskFacts WalDurability WalBuffer WalInvariant WalFormation WalFlush WalBegin.

Section append.
Context {alloc : VecAlloc}.
Context (seg : Path) (cov : Z) (j : option SerialFlushJob) (cs : list TypedExactPendingCredit).

(** [t] is [b] with one more record. *)
Record grown (b : WalBuffer) (w : World) (rec : SharedRecord) (t : WalBuffer * World) : Prop := mkGrown {
  gr_world : t.2 = w;
  gr_inv : buffer_inv seg cov j cs t.1 w;
  gr_records : elems (records t.1) = elems (records b) ++ [rec];
  gr_flushed : flushed_count t.1 = flushed_count b;
}.

Lemma append_spec b w rec :
  buffer_inv seg cov j cs b w -> WalProps.record_ok (erase rec) -> canonical_append_reservation_generation b < u64_max ->
  wp (append rec) (fun t r => r = Ok tt /\ grown b w rec t) (b, w).
Proof.
  intros Hi Hr Hg. unfold append. apply wp_bind. eapply prune_noop; [apply Hi|]. apply wp_bind, wp_update.
  apply wp_invalidate; [done|]. split; [done|]. constructor; try done.
  eapply (extend_inv _ _ _ _ b); try done. pose proof (bi_lineage _ _ _ _ _ _ Hi). cbn. lia.
Qed.

Lemma append_canonical_spec b w p :
  buffer_inv seg cov j cs b w -> WalProps.record_ok (erase (p_record p)) -> canonical_append_reservation_generation b < u64_max ->
  p_exact p = None ->
  wp (append_canonical p) (fun t r => r = Ok tt /\ grown b w (p_record p) t /\
    canonical_catalog_tail t.1 = Known (len t.1) (Some (p_tail p))) (b, w).
Proof.
  intros Hi Hr Hg Hp. unfold append_canonical. apply wp_bind. eapply prune_noop; [apply Hi|]. rewrite Hp.
  apply wp_bind, wp_assert; [done|]. apply wp_bind, wp_update. apply wp_bind, wp_update.
  apply wp_invalidate; [done|]. split_and!; [done| |done]. constructor; try done.
  eapply (extend_inv _ _ _ _ b); try done. pose proof (bi_lineage _ _ _ _ _ _ Hi). cbn. lia.
Qed.

(** ** Cuts *)

(** Cutting the records behind everything that is durable, in flight or exact. *)
Lemma cut_inv b b' w n :
  buffer_inv seg cov j cs b w -> similar b (set_records b' (records b)) -> durable b' = durable b ->
  elems (records b') = take (Z.to_nat n) (elems (records b)) -> frontier b j <= n <= len b ->
  Forall (fun wire => record_index wire < n) (wires b) ->
  0 <= verified_records (durable_identity_binding b') <= n -> buffer_inv seg cov j cs b' w.
Proof.
  intros [Hm Hlin Hc] [_ Hw Ht Hh Ha Hfc] Hd Hr Hn Hlt Hbd. cbn in Ht, Hh, Ha.
  change (wires b' = wires b) in Hw. change (flushed_count b' = flushed_count b) in Hfc.
  assert (frontier b' j = frontier b j) as Hfr by (unfold frontier; by rewrite Hfc).
  pose proof (mi_frontier _ _ _ Hm) as [Hf1 Hf2].
  assert (len b' = n) as Hl by (unfold len, vec_len in *; rewrite Hr, length_take; lia).
  assert (logical_records b' = take (Z.to_nat n) (logical_records b)) as Hlr by (unfold logical_records; by rewrite Hr, fmap_take).
  constructor; [|lia|].
  - pose proof (mi_wires _ _ _ Hm) as Hwires. destruct Hm. constructor; unfold wire_credits in *; rewrite ?Hw, ?Ht, ?Ha, ?Hfr, ?Hfc, ?Hl, ?Hlr; try done.
    + by apply Forall_take.
    + lia.
    + rewrite Forall_forall in Hwires, Hlt |- *. intros wire Hin. specialize (Hlt _ Hin). cbn in Hlt.
      destruct (Hwires _ Hin) as [Hi (r & Hr' & ?) ? ? ?]. constructor; rewrite ?Hl, ?Hh; try done; [lia|].
      exists r. split; [|done]. rewrite Hr, lookup_take_lt by lia. done.
  - rewrite Hd. destruct (durable b) as [c|] eqn:Hdb; [|done]. rewrite Hlr. eapply core_records; [|done].
    unfold frontier, flushed_count in Hn, Hf1. rewrite Hdb in *. pose proof (logical_len b) as Hll. split.
    + rewrite take_take, Nat.min_l; [done|]. destruct j; lia.
    + unfold vec_len in *. rewrite length_take. unfold len, vec_len in *. destruct j; lia.
Qed.

(** A cut of the buffer to [n] records would take an exact record away. *)
Definition cuts_exact (b : WalBuffer) (n : Z) : bool :=
  (n <? len b) &&
  (match highest_claimed_typed_exact_record b with Some claimed => n <=? claimed | None => false end ||
   has_typed_exact_wire_at_or_after b n).

Lemma cuts_exact_panics b w n : cuts_exact b n = true -> truncate n (b, w) = Panic.
Proof.
  intros [Hn%Z.ltb_lt He]%andb_prop. unfold truncate, buffer, bind, get, ret, Effects.assert. cbn [fst].
  rewrite (proj2 (Z.leb_gt _ _)) by done. destruct (highest_claimed_typed_exact_record b) as [h|]; [destruct (n <=? h)|]; cbn in *; try done; by rewrite He.
Qed.

Lemma truncate_spec b w n :
  buffer_inv seg cov j cs b w -> canonical_append_reservation_generation b < u64_max -> frontier b j <= n ->
  cuts_exact b n = false ->
  wp (truncate n) (fun t r => r = Ok tt /\ t.2 = w /\ buffer_inv seg cov j cs t.1 w /\
    elems (records t.1) = take (Z.to_nat n) (elems (records b)) /\ flushed_count t.1 = flushed_count b) (b, w).
Proof.
  intros Hi Hg Hn Hcut. pose proof (mi_frontier _ _ _ (bi_memory _ _ _ _ _ _ Hi)) as [Hf1 Hf2].
  unfold truncate. apply wp_bind, wp_buffer. destruct (Z.leb_spec (len b) n) as [Hle|Hgt].
  { apply wp_ret. split_and!; try done. unfold len, vec_len in Hle. by rewrite take_ge by lia. }
  unfold cuts_exact in Hcut. rewrite (proj2 (Z.ltb_lt _ _)) in Hcut by done. apply orb_false_elim in Hcut as [Hh Hlt].
  apply wp_bind, wp_assert; [by destruct (highest_claimed_typed_exact_record b) as [h|]; [rewrite Hh|]|].
  apply wp_bind, wp_assert; [by rewrite Hlt|].
  assert (Forall (fun wire => record_index wire < n) (wires b)) as Hbelow.
  { unfold has_typed_exact_wire_at_or_after in Hlt. induction (wires b) as [|wire ws IH]; [done|].
    cbn [existsb] in Hlt. apply orb_false_elim in Hlt as [?%Z.leb_gt ?]. by constructor; [lia|apply IH]. }
  apply wp_bind, wp_update. apply wp_bind. unfold truncate_backing. apply wp_bind, wp_buffer. cbn [set_binding durable].
  pose proof (bi_lineage _ _ _ _ _ _ Hi) as Hlin.
  assert (forall b', similar b (set_records b' (records b)) -> durable b' = durable b ->
    elems (records b') = take (Z.to_nat n) (elems (records b)) ->
    durable_identity_binding b' = mkBinding (binding_identity (durable_identity_binding b))
      (Z.min (verified_records (durable_identity_binding b)) n) -> buffer_inv seg cov j cs b' w) as Hcutinv.
  { intros b' Hs Hd Hr Hb. eapply cut_inv; try done; [lia|]. rewrite Hb. cbn. lia. }
  destruct (durable b) as [c|] eqn:Hd.
  - assert (flushed_records (state c) <= n) as Hfl.
    { unfold frontier, flushed_count in *. rewrite Hd in *. destruct j; lia. }
    rewrite (proj2 (Z.ltb_ge _ _)) by lia. apply wp_bind, wp_ret. apply wp_update.
    apply wp_bind, wp_update. apply wp_invalidate; [done|]. split_and!; try done. by apply Hcutinv.
  - apply wp_bind, wp_update, wp_update. match goal with |- context [if ?x then _ else _] => assert (x = false) as -> end.
    { apply Z.ltb_ge. unfold frontier, flushed_count in Hn, Hf1, Hf2. rewrite Hd in *. unfold len, vec_len in *. cbn in *.
      rewrite length_take. destruct j; lia. }
    apply wp_bind, wp_update. apply wp_invalidate; [done|]. split_and!; try done. by apply Hcutinv.
Qed.

End append.

(** ** Rotation *)

Lemma cov_mono seg cov cov' j cs b w : cov <= cov' -> buffer_inv seg cov j cs b w -> buffer_inv seg cov' j cs b w.
Proof.
  intros Hc [Hm Hl H]. constructor; [done|done|]. destruct (durable b) as [c|]; [|done]. destruct H as (Hseg & Hd & Hj).
  split; [done|]. split; [|done]. destruct Hd as [Hb Hf [Ho|(Hfi & Hio & Hcl)]]; constructor; try done; [by left|right].
  split_and!; [done..|]. destruct Hcl as [?|[? Hcl]]; [by left|right]. split; [done|]. intros v Hv.
  eapply WalRotation.good_mono; [exact Hc|]. by apply Hcl.
Qed.

Section rotation.
Context (sha256 : list byte -> list byte) (pid : Z) (try_reserve_exact : Z -> bool) (chunk : Z).
Context (seg : Path) (Hpaths : own_paths pid seg) (cov : Z) (j : option SerialFlushJob) (cs : list TypedExactPendingCredit).

(** The rotation of a buffer whose segment is another than its base says may end well or not; when
    it ends well the segment is right again. *)
Lemma rotation_any b w base c :
  memory_inv b None cs -> 0 <= verified_records (durable_identity_binding b) <= len b -> durable b = Some c ->
  segment_path c = seg -> io_in_flight (state c) = false -> 0 <= segment_base_records (state c) ->
  flushed_records (state c) <= vec_len (logical_records b) ->
  wp (truncate_durable_segment_prefix sha256 pid try_reserve_exact chunk base) (fun t r =>
    (disk_inv c (logical_records b) cov w \/ is_ok r = true -> buffer_inv seg (Z.max cov base) None cs t.1 t.2) /\
    records t.1 = records b /\ flushed_count t.1 = flushed_count b /\
    (is_ok r = true -> durable_segment_base_records t.1 = base)) (b, w).
Proof.
  intros Hm Hv Hd Hseg Hio H0 Hlen. unfold truncate_durable_segment_prefix. apply wp_bind, wp_buffer. rewrite Hd, Hio.
  assert (disk_inv c (logical_records b) cov w -> forall w1, frame seg w w1 -> buffer_inv seg (Z.max cov base) None cs b w1) as Hsame.
  { intros Hdisk w1 Hf. apply (inv_frame _ _ _ _ _ w); [|done]. apply (cov_mono seg cov); [lia|]. constructor; [done|done|]. by rewrite Hd. }
  apply wp_bind, wp_of_result. destruct (check_rotation b c base) as [[]|e] eqn:Hck; [|split_and!; [|done..]; intros [?|?]; [by apply Hsame|done]].
  assert (segment_base_records (state c) <= base <= flushed_records (state c)) as Hbase.
  { unfold check_rotation in Hck. destruct (fixed_fault c); [done|]. destruct (Z.ltb_spec (flushed_records (state c)) base); [done|].
    destruct (Z.ltb_spec base (segment_base_records (state c))); [done|]. lia. }
  assert (forall w1, frame seg w w1 -> wp (let! retained := expect (slice (logical_records b) base (flushed_records (state c))) in
    on_core (rotate_segment sha256 pid try_reserve_exact chunk retained (binding_identity (durable_identity_binding b)) base))
    (fun t r => (disk_inv c (logical_records b) cov w \/ is_ok r = true -> buffer_inv seg (Z.max cov base) None cs t.1 t.2) /\
      records t.1 = records b /\ flushed_count t.1 = flushed_count b /\
      (is_ok r = true -> durable_segment_base_records t.1 = base)) (b, w1)) as Hrot.
  { intros w1 Hf. apply wp_bind. eapply wp_expect; [apply slice_Some; [lia|done]|]. eapply wp_on_core; [done|].
    eapply wp_mono; [by apply (WalRotation.rotate_segment_spec sha256 pid try_reserve_exact chunk seg Hpaths (logical_records b) c cov base w1)|].
    intros [c' w'] r (Hd' & Hs' & _ & Hfl & Hio' & Hok). cbn [fst snd] in *. split_and!; try done.
    - intros Hcl. eapply core_replaced; try done. split_and!; [done| |done]. apply Hd'. destruct Hcl as [Hdisk|?]; [left|by right].
      apply (WalRotation.disk_closable seg (logical_records b) c cov); [done|lia|]. eapply disk_frame; [exact Hdisk|by rewrite Hseg].
    - unfold flushed_count. cbn. by rewrite Hd.
    - intros Hr. by destruct (Hok Hr) as (_ & ? & _). }
  apply wp_bind. destruct (binding_identity (durable_identity_binding b)) as [id|]; [|apply wp_ret, Hrot; reflexivity].
  rewrite Hseg. eapply wp_on_disk_frames; [by apply (frames_require_identity sha256 pid)|]. intros w1 [[]|e] Hf; [by apply Hrot|].
  split_and!; [|done..]. intros [?|?]; [by apply Hsame|done].
Qed.

Lemma rotation_spec b w base :
  buffer_inv seg cov j cs b w ->
  wp (truncate_durable_segment_prefix sha256 pid try_reserve_exact chunk base) (fun t r =>
    buffer_inv seg (Z.max cov base) j cs t.1 t.2 /\ records t.1 = records b /\ flushed_count t.1 = flushed_count b /\
    (is_ok r = true -> durable_segment_base_records t.1 = base)) (b, w).
Proof.
  intros Hi. pose proof (bi_core _ _ _ _ _ _ Hi) as Hc. destruct (durable b) as [c|] eqn:Hd.
  - destruct j as [job|].
    + destruct Hc as (_ & _ & Hio & _). unfold truncate_durable_segment_prefix. apply wp_bind, wp_buffer. by rewrite Hd, Hio.
    + destruct Hc as (Hseg & Hdisk & Hio). destruct Hi as [Hm Hv _]. eapply wp_mono; [apply (rotation_any b w base c); try done; apply Hdisk|].
      intros t r (H1 & H2). split; [|done]. apply H1. by left.
  - unfold truncate_durable_segment_prefix. apply wp_bind, wp_buffer. rewrite Hd. apply wp_throw. split_and!; try done.
    eapply cov_mono; [|exact Hi]. lia.
Qed.

End rotation.

End WalAppend.
