(* ===== verification/WalReserve.v ===== *)
(** * The life of an exact record keeps the invariant

    Reservation, tentative append, rollback and claim: the credit taken at reservation follows the
    record, at most one record is tentative, and whatever a refused call gives back is accounted
    for. *)

From stdpp Require Import base gmap strings list pretty sorting.
From S2P Require Import Prelude Types Bytes Text Paths Effects Disk Sidecar WalSegment WalProps Codec Canonical Envelope EnvelopeExact Identity LocalRepl WalCore WalGroup WalScatter DiskFacts WalDurability WalBuffer WalInvariant WalFormation WalFlush WalBegin.

Module WalReserve.
Import Paths Disk Effects WalCore WalGroup WalScatter DiskFacts WalDurability WalBuffer WalInvariant WalFormation WalFlush WalBegin WalAppend.

(** ** Wires *)

Lemma total_permutation cs cs' : cs ≡ₚ cs' -> total cs = total cs'.
Proof.
  induction 1 as [|c l l' _ IH|c d l|]; [done|by rewrite !total_cons, IH| |congruence].
  rewrite !total_cons. cbn [fst snd]. f_equal; lia.
Qed.

(** [b'] is [b] with other wire records. *)
Record rewired (b b' : WalBuffer) : Prop := mkRewired {
  rw_records : elems (records b') = elems (records b);
  rw_arena : prepared_group_arena b' = prepared_group_arena b;
  rw_memory : flushed_memory b' = flushed_memory b;
  rw_binding : durable_identity_binding b' = durable_identity_binding b;
  rw_durable : durable b' = durable b;
}.

Section wires.
Context (seg : Path) (cov : Z) (j : option SerialFlushJob) (cs cs' : list TypedExactPendingCredit) (b b' : WalBuffer) (w : World).
Context (Hinv : buffer_inv seg cov j cs b w) (Hrw : rewired b b').

Lemma rewired_inv :
  Forall (wire_ok b') (wires b') -> StronglySorted Z.lt (record_index <$> wires b') ->
  Forall (fun wire => frontier b j <= record_index wire) (wires b') ->
  tentative_shape (typed_exact_tentative_count b') (wires b') ->
  wire_credits b ++ cs ≡ₚ wire_credits b' ++ cs' -> buffer_inv seg cov j cs' b' w.
Proof.
  intros Hok Hs Hp Ht Hc. destruct Hrw as [Er Ea Em Eb Ed]. destruct Hinv as [Hm Hl Hcore].
  assert (flushed_count b' = flushed_count b) as Hfc by (unfold flushed_count; by rewrite Ed, Em).
  assert (frontier b' j = frontier b j) as Hfr by (unfold frontier; by rewrite Hfc).
  assert (len b' = len b) as Hle by (unfold len; by rewrite Er).
  assert (wire_credits b' ++ job_credits j ++ cs' ≡ₚ wire_credits b ++ job_credits j ++ cs) as Hperm.
  { rewrite (Permutation_app_comm (job_credits j) cs'), (Permutation_app_comm (job_credits j) cs), !app_assoc. by rewrite Hc. }
  constructor; [|by rewrite Eb, Hle|rewrite Ed; unfold logical_records in *; by rewrite Er].
  destruct Hm. constructor; rewrite ?Hfr, ?Hfc, ?Hle, ?Ea; try done.
  - unfold logical_records in *. by rewrite Er.
  - by rewrite (total_permutation _ _ Hperm).
  - by rewrite Hperm.
Qed.

End wires.

Lemma strongly_sorted_snoc l (z : Z) : StronglySorted Z.lt l -> Forall (fun x => x < z) l -> StronglySorted Z.lt (l ++ [z]).
Proof.
  intros Hs Hl. apply StronglySorted_app_2; [|done|repeat constructor]. intros x y Hx Hy.
  rewrite Forall_forall in Hl. specialize (Hl x Hx). apply list_elem_of_singleton in Hy as ->. done.
Qed.

Lemma wires_below b j cs n :
  memory_inv b j cs -> len b <= n -> Forall (fun o => record_index o < n) (wires b).
Proof.
  intros Hm Hn. eapply Forall_impl; [apply (mi_wires _ _ _ Hm)|]. intros o [Hi _ _ _ _]. lia.
Qed.

Lemma wire_push_inv seg cov j cs b b' w wire :
  buffer_inv seg cov j (pending_group_credit wire :: cs) b w -> rewired b b' ->
  highest_claimed_typed_exact_record b' = highest_claimed_typed_exact_record b ->
  typed_exact_tentative_count b = 0 -> typed_exact_tentative_count b' = 1 ->
  wires b' = wires b ++ [wire] -> wire_ok b wire -> wire_state wire = Tentative ->
  Forall (fun o => record_index o < record_index wire) (wires b) -> frontier b j <= record_index wire ->
  buffer_inv seg cov j cs b' w.
Proof.
  intros Hi Hrw Hh Hc0 Hc1 Hw Hok Hst Hlt Hfr. pose proof (bi_memory _ _ _ _ _ _ Hi) as Hm.
  assert (forall o, wire_ok b o -> wire_ok b' o) as Hmono by (intros o; by apply wire_ok_similar; [apply Hrw|]).
  eapply rewired_inv; [exact Hi|done|..]; rewrite ?Hw.
  - apply Forall_app. split; [|by constructor; auto]. eapply Forall_impl; [apply (mi_wires _ _ _ Hm)|done].
  - rewrite fmap_app. apply strongly_sorted_snoc; [apply (mi_sorted _ _ _ Hm)|by apply Forall_fmap].
  - apply Forall_app. split; [apply (mi_pending _ _ _ Hm)|by constructor].
  - right. split; [done|]. eexists _, _. split_and!; [done|done|]. by eapply all_claimed.
  - unfold wire_credits. rewrite Hw, fmap_app, <- app_assoc. done.
Qed.

(** The tentative wire record, when there is one, is the last. *)
Lemma tentative_last b j cs :
  memory_inv b j cs -> typed_exact_tentative_count b = 1 ->
  exists ws wire, wires b = ws ++ [wire] /\ wire_state wire = Tentative /\ Forall (fun o => wire_state o = ClaimedPending) ws /\
    Forall (fun o => record_index o < record_index wire) ws /\ wire_ok b wire /\ frontier b j <= record_index wire.
Proof.
  intros Hm H1. destruct (mi_tentative _ _ _ Hm) as [[H0 _]|(_ & ws & wire & Hw & Hst & Hcl)]; [lia|].
  pose proof (mi_sorted _ _ _ Hm) as Hs. pose proof (mi_wires _ _ _ Hm) as Hok. pose proof (mi_pending _ _ _ Hm) as Hp.
  rewrite Hw in *. rewrite fmap_app in Hs. apply Forall_app in Hok as [_ [Hok _]%Forall_cons_1]. apply Forall_app in Hp as [_ [Hp _]%Forall_cons_1].
  exists ws, wire. split_and!; try done. apply Forall_forall. intros o Ho.
  eapply StronglySorted_app_1_elem_of; [exact Hs|by apply list_elem_of_fmap_2|by apply list_elem_of_singleton].
Qed.

Lemma wire_pop_inv seg cov j cs b b' w ws wire :
  buffer_inv seg cov j cs b w -> rewired b b' ->
  highest_claimed_typed_exact_record b' = highest_claimed_typed_exact_record b ->
  typed_exact_tentative_count b = 1 -> typed_exact_tentative_count b' = 0 ->
  wires b = ws ++ [wire] -> wires b' = ws -> buffer_inv seg cov j (pending_group_credit wire :: cs) b' w.
Proof.
  intros Hi Hrw Hh H1 H0 Hw Hw'. pose proof (bi_memory _ _ _ _ _ _ Hi) as Hm.
  destruct (tentative_last _ _ _ Hm H1) as (ws0 & wire0 & E & Hst & Hcl & Hlt & _ & _). rewrite Hw in E. apply app_inj_tail in E as [<- <-].
  assert (forall o, wire_ok b o -> wire_ok b' o) as Hmono by (intros o; by apply wire_ok_similar; [apply Hrw|]).
  pose proof (mi_wires _ _ _ Hm) as Hok. pose proof (mi_sorted _ _ _ Hm) as Hs. pose proof (mi_pending _ _ _ Hm) as Hp. rewrite Hw in Hok, Hs, Hp.
  eapply rewired_inv; [exact Hi|done|..]; rewrite ?Hw'.
  - apply Forall_app in Hok as [Hok _]. eapply Forall_impl; [exact Hok|done].
  - rewrite fmap_app in Hs. by eapply StronglySorted_app_1_l.
  - by apply Forall_app in Hp as [Hp _].
  - by left.
  - unfold wire_credits. rewrite Hw, Hw', fmap_app, <- app_assoc. done.
Qed.

Lemma wire_claim_inv seg cov j cs b b' w ws wire h :
  buffer_inv seg cov j cs b w -> rewired b b' ->
  highest_claimed_typed_exact_record b' = Some h -> record_index wire <= h ->
  (forall h0, highest_claimed_typed_exact_record b = Some h0 -> h0 <= h) ->
  typed_exact_tentative_count b = 1 -> typed_exact_tentative_count b' = 0 ->
  wires b = ws ++ [wire] -> wires b' = ws ++ [set_wire_state wire ClaimedPending] -> buffer_inv seg cov j cs b' w.
Proof.
  intros Hi Hrw Hh Hle Hmax H1 H0 Hw Hw'. pose proof (bi_memory _ _ _ _ _ _ Hi) as Hm.
  destruct (tentative_last _ _ _ Hm H1) as (ws0 & wire0 & E & Hst & Hcl & Hlt & _ & _). rewrite Hw in E. apply app_inj_tail in E as [<- <-].
  assert (len b' = len b) as Hlen by (unfold len; by rewrite (rw_records _ _ Hrw)).
  assert (forall o, wire_ok b o -> wire_ok b' o) as Hmono.
  { intros o [O1 O2 O3 O4 O5]. constructor; rewrite ?Hlen, ?(rw_records _ _ Hrw); try done. intros Hc.
    destruct (O5 Hc) as (h0 & Hh0 & ?). specialize (Hmax h0 Hh0). exists h. split; [done|lia]. }
  pose proof (mi_wires _ _ _ Hm) as Hok. pose proof (mi_sorted _ _ _ Hm) as Hs. pose proof (mi_pending _ _ _ Hm) as Hp. rewrite Hw in Hok, Hs, Hp.
  apply Forall_app in Hok as [Hok1 [Hok2 _]%Forall_cons_1].
  eapply rewired_inv; [exact Hi|done|..]; rewrite ?Hw'.
  - apply Forall_app. split; [eapply Forall_impl; [exact Hok1|done]|]. constructor; [|constructor].
    destruct (Hmono _ Hok2) as [O1 O2 O3 O4 O5]. constructor; try done. intros _. by exists h.
  - by rewrite fmap_app in Hs |- *.
  - apply Forall_app in Hp as [Hp1 [Hp2 _]%Forall_cons_1]. apply Forall_app. split; [done|]. by constructor.
  - left. split; [done|]. apply Forall_app. split; [done|]. by constructor.
  - unfold wire_credits. by rewrite Hw, Hw', !fmap_app.
Qed.

(** ** Credits *)

(** [b'] is [b] with another account of credits. *)
Definition recredited (b b' : WalBuffer) : Prop := exists pool, b' = set_arena b (set_credits (prepared_group_arena b) pool).

Lemma recredited_inv seg cov j cs cs' b w pool :
  buffer_inv seg cov j cs b w ->
  (credit_records pool, credit_bytes pool) = total (wire_credits b ++ job_credits j ++ cs') ->
  Forall (fun c => 0 <= held_bytes c) (wire_credits b ++ job_credits j ++ cs') ->
  buffer_inv seg cov j cs' (set_arena b (set_credits (prepared_group_arena b) pool)) w.
Proof.
  intros [Hm Hl Hc] Ht Hn. constructor; [|done|done]. pose proof (mi_wires _ _ _ Hm) as Hok. destruct Hm. constructor; try done.
  eapply Forall_impl; [exact Hok|]. intros o. by apply wire_ok_similar.
Qed.

Lemma credits_split b j c cs :
  total (wire_credits b ++ job_credits j ++ c :: cs) = total (c :: wire_credits b ++ job_credits j ++ cs).
Proof. apply total_permutation. by rewrite !app_assoc, <- Permutation_middle. Qed.

Lemma drop_credit_spec seg cov j cs b w c :
  buffer_inv seg cov j (c :: cs) b w ->
  wp (drop_credit c) (fun t r => r = Ok tt /\ t.2 = w /\ buffer_inv seg cov j cs t.1 w /\ recredited b t.1) (b, w).
Proof.
  intros Hi. pose proof (bi_memory _ _ _ _ _ _ Hi) as Hm. pose proof (mi_credits _ _ _ Hm) as Hc. pose proof (mi_active _ _ _ Hm) as Ha.
  rewrite credits_split in Hc. rewrite !Forall_app, Forall_cons in Ha. destruct Ha as (H1 & H2 & H3 & H4).
  assert (Forall (fun c => 0 <= held_bytes c) (wire_credits b ++ job_credits j ++ cs)) as Hrest by (by rewrite !Forall_app).
  destruct (release_accounted _ _ _ Hc Hrest H3) as (c' & pool & Hrel & Hp).
  unfold drop_credit. eapply wp_update_arena; [by rewrite Hrel|]. split_and!; [done|done| |by exists pool].
  eapply recredited_inv; done.
Qed.

Lemma drop_credit_returns seg cov j cs b w c :
  buffer_inv seg cov j (c :: cs) b w ->
  exists b', drop_credit c (b, w) = Done (b', w) (Ok tt) /\ buffer_inv seg cov j cs b' w /\ recredited b b'.
Proof.
  intros Hi. pose proof (drop_credit_spec _ _ _ _ _ _ _ Hi) as Hs. unfold wp in Hs. destruct (drop_credit c (b, w)) as [| |[b' w'] r] eqn:E.
  - done.
  - unfold drop_credit, update_arena, buffer, bind, get, ret, expect, update, modify, panic in E. repeat case_match; simplify_eq.
  - destruct Hs as (-> & Hw & Hi' & Hr). cbn in *. subst. by exists b'.
Qed.

Lemma reserve_credit_spec seg cov j cs b w n :
  0 <= n -> buffer_inv seg cov j cs b w ->
  wp (reserve_credit n) (fun t r => t.2 = w /\ recredited b t.1 /\
    match r with
    | Ok c => c = mkCredit n true /\ n <= MAX_WAL_GROUP_WIRE_BYTES /\ buffer_inv seg cov j (c :: cs) t.1 w
    | Err _ => buffer_inv seg cov j cs t.1 w
    end) (b, w).
Proof.
  intros Hn0 Hi. pose proof (bi_memory _ _ _ _ _ _ Hi) as Hm. pose proof (mi_credits _ _ _ Hm) as Hc. pose proof (mi_active _ _ _ Hm) as Ha.
  assert (set_arena b (prepared_group_arena b) = b) as Hid by (by destruct b).
  assert (recredited b b) as Hrefl by (exists (typed_exact_credits (prepared_group_arena b)); destruct b as [? ? ? ? ? [] ? ? ? ? ? ? ?]; done).
  unfold reserve_credit. apply wp_bind, wp_buffer. unfold reserve_typed_exact_credit.
  destruct (Z.ltb_spec MAX_WAL_GROUP_WIRE_BYTES n) as [Hbig|Hbig].
  { apply wp_bind, wp_update, wp_of_result. by rewrite Hid. }
  destruct (checked_add64 (credit_records _) 1) as [nr|] eqn:Hr; [|apply wp_bind, wp_update, wp_of_result; by rewrite Hid].
  destruct (checked_add64 (credit_bytes _) n) as [nb|] eqn:Hb; [|apply wp_bind, wp_update, wp_of_result; by rewrite Hid].
  destruct (_ || _); [apply wp_bind, wp_update, wp_of_result; by rewrite Hid|].
  apply checked_add64_Some in Hr as [-> _], Hb as [-> _]. apply wp_bind, wp_update, wp_of_result. split; [done|]. split; [by eexists|].
  split_and!; [done|done|]. eapply recredited_inv; [exact Hi| |].
  - rewrite credits_split, total_cons. rewrite (surjective_pairing (total _)) in Hc. injection Hc as Hc1 Hc2. cbn in *. f_equal; lia.
  - rewrite !Forall_app in *. rewrite Forall_cons. cbn. tauto.
Qed.

(** ** Admission *)

(** [b'] differs from [b] in its core and lineage only. *)
Record admitted (b b' : WalBuffer) : Prop := mkAdmitted {
  ad_records : records b' = records b;
  ad_wires : exact_typed_wire_records b' = exact_typed_wire_records b;
  ad_tentative : typed_exact_tentative_count b' = typed_exact_tentative_count b;
  ad_generation : canonical_append_reservation_generation b' = canonical_append_reservation_generation b;
  ad_tail : canonical_catalog_tail b' = canonical_catalog_tail b;
  ad_flushed : flushed_count b' = flushed_count b;
}.

#[export] Instance admitted_refl : Reflexive admitted.
Proof. by constructor. Qed.

Section admission.
Context (sha256 : list byte -> list byte) (pid : Z) (try_reserve_exact : Z -> bool) (chunk : Z).
Context (seg : Path) (Hpaths : own_paths pid seg) (Hchunk : 10 <= chunk) (cov : Z) (j : option SerialFlushJob) (cs : list TypedExactPendingCredit).

Lemma require_unpoisoned_spec c b w (Q : WalBuffer * World -> result unit EngineError -> Prop) :
  (forall e, Q (b, w) (Err e)) -> (poisoned (state c) = None -> Q (b, w) (Ok tt)) -> wp (require_unpoisoned c) Q (b, w).
Proof.
  intros HE HO. unfold require_unpoisoned. destruct (fixed_fault c); [by apply wp_throw|].
  destruct (poisoned (state c)); [by apply wp_throw|]. by apply wp_ret, HO.
Qed.

(** The core after [ensure_created], with the same job. *)
Lemma created_inv b w c :
  buffer_inv seg cov j cs b w -> durable b = Some c -> poisoned (state c) = None ->
  wp (on_core (ensure_created pid chunk)) (fun t r =>
    buffer_inv seg cov j cs t.1 t.2 /\ admitted b t.1 /\ durable_identity_binding t.1 = durable_identity_binding b /\
    exists c', t.1 = set_durable b (Some c') /\ unmoved c c' /\ (is_ok r = true -> open_inv c' (logical_records b) t.2)) (b, w).
Proof.
  intros Hi Hd Hp. pose proof (bi_core _ _ _ _ _ _ Hi) as Hc. rewrite Hd in Hc. destruct Hc as (Hseg & Hdisk & Hj).
  eapply wp_on_core; [done|]. eapply wp_mono; [by eapply ensure_created_spec|].
  intros [c' w'] r (Hd' & Hu & Hsame & Ho). cbn [fst snd] in *.
  assert (admitted b (set_durable b (Some c'))) by (constructor; try done; unfold flushed_count; cbn; rewrite Hd; apply Hu).
  split_and!; try done; [|by exists c'].
  eapply inv_core; [exact Hi|done|apply Hu|]. pose proof (um_path _ _ Hu) as Hup. split; [congruence|]. split; [done|].
  destruct j as [job|]; [|by rewrite (um_io _ _ Hu)].
  assert (file (state c) <> None) as Hf; [|by rewrite (Hsame Hf)].
  destruct Hdisk as [_ _ [[Hf _ _ _ _]|(_ & Hf & _)]]; [by rewrite Hf|]. destruct Hj as [Hj _]. congruence.
Qed.

Definition preflighted (b : WalBuffer) (t : WalBuffer * World) (r : result DurableIdentityBinding EngineError) : Prop :=
  buffer_inv seg cov j cs t.1 t.2 /\ admitted b t.1 /\ forall prior, r = Ok prior -> prior = durable_identity_binding t.1.

Lemma preverify_spec b w id :
  buffer_inv seg cov j cs b w ->
  wp (preverify_typed_exact_lineage sha256 pid try_reserve_exact seg id) (preflighted b) (b, w).
Proof.
  intros Hi. unfold preverify_typed_exact_lineage. apply wp_bind, wp_buffer. pose proof (bi_lineage _ _ _ _ _ _ Hi) as Hl.
  apply wp_bind. eapply wp_mono; [by eapply verify_through_spec; [|lia..]|]. intros [b1 w1] r [Hre _].
  pose proof (rebound_inv _ _ _ _ _ _ _ Hi Hre) as Hi1. destruct Hre as (bd & Hb1 & _ & _). cbn [fst snd] in *.
  assert (admitted b b1) as Had by (subst; done). destruct r as [[]|e]; [|by split_and!].
  apply wp_bind, wp_buffer.
  assert (forall (m : M World EngineError unit), frames seg m ->
    wp (on_disk m ;; ret (durable_identity_binding b1)) (preflighted b) (b1, w1)) as Hdisk.
  { intros m Hm. apply wp_bind. eapply wp_on_disk_frames; [exact Hm|]. intros w2 r Hf. pose proof (inv_frame _ _ _ _ _ _ _ Hi1 Hf).
    destruct r; [apply wp_ret|]; split_and!; try done. by intros prior [= <-]. }
  destruct (binding_identity (durable_identity_binding b1)) as [id'|].
  - case_bool_decide; cbn [negb]; [|apply wp_bind, wp_throw; by split_and!]. apply Hdisk. by apply (frames_require_identity sha256 pid).
  - apply Hdisk. by apply frames_check_identity.
Qed.

Lemma preflight_spec b w n id :
  buffer_inv seg cov j cs b w ->
  wp (preflight_typed_exact_serial_admission sha256 pid try_reserve_exact chunk n id) (preflighted b) (b, w).
Proof.
  intros Hi. unfold preflight_typed_exact_serial_admission. apply wp_bind, wp_buffer.
  destruct (durable b) as [c|] eqn:Hd; [|apply wp_ret; split_and!; try done; by intros prior [= <-]].
  apply wp_bind, require_unpoisoned_spec; [by intros e; split_and!|]. intros Hp.
  apply wp_bind. eapply wp_mono; [by apply created_inv|]. intros [b1 w1] r (Hi1 & Had & _ & c1 & Hb1 & Hu & Ho). cbn [fst snd] in *.
  destruct r as [[]|e]; [|by split_and!]. specialize (Ho eq_refl). apply wp_bind, wp_buffer. apply wp_bind.
  eapply wp_expect; [by rewrite Hb1|]. assert (durable b1 = Some c1) as Hd1 by (by rewrite Hb1).
  assert (logical_records b1 = logical_records b) as Hlr by (by rewrite Hb1).
  assert (segment_path c1 = seg) as Hs1. { pose proof (bi_core _ _ _ _ _ _ Hi1) as Hc. rewrite Hd1 in Hc. apply Hc. }
  assert (forall b2 w2, buffer_inv seg cov j cs b2 w2 -> admitted b b2 ->
    wp (preverify_typed_exact_lineage sha256 pid try_reserve_exact (segment_path c1) id) (preflighted b) (b2, w2)) as Hpre.
  { intros b2 w2 Hi2 [A1 A2 A3 A4 A5 A6]. rewrite Hs1. eapply wp_mono; [by apply preverify_spec|].
    intros t r (H1 & [B1 B2 B3 B4 B5 B6] & H3). split_and!; try done. constructor; congruence. }
  apply wp_bind, wp_of_result. destruct (prospective_end b1 c1 n _) as [end_|e]; [|by split_and!].
  apply wp_bind. destruct (_ <? end_); [|apply wp_ret; by apply Hpre].
  destruct (io_in_flight (state c1)) eqn:Hio; [done|].
  apply wp_bind, require_unpoisoned_spec; [by intros e; split_and!|]. intros _.
  apply wp_bind, wp_of_result. destruct (prospective_end b1 c1 n _) as [end2|e]; [|by split_and!].
  eapply wp_on_core; [exact Hd1|]. rewrite <- Hlr in Ho. eapply wp_mono; [by apply (ensure_preallocated_spec chunk seg c1)|].
  intros [c2 w2] r (Ho2 & Hu2 & _ & _). cbn [fst snd] in *.
  pose proof (bi_core _ _ _ _ _ _ Hi1) as Hc. rewrite Hd1 in Hc. destruct Hc as (_ & [Hb1' Hf1 _] & Hj).
  assert (buffer_inv seg cov j cs (set_durable b1 (Some c2)) w2) as Hi2.
  { eapply inv_core; [exact Hi1|exact Hd1|apply Hu2|]. pose proof Hu2 as [Up _ Uf Ub Ui _ _]. split; [by rewrite Up|].
    split; [|destruct j; [destruct Hj; congruence|by rewrite Ui]].
    constructor; [by rewrite Ub, Uf|by rewrite Uf|by left]. }
  assert (admitted b (set_durable b1 (Some c2))) as Had2.
  { destruct Had as [A1 A2 A3 A4 A5 A6]. constructor; try done. rewrite <- A6. unfold flushed_count. cbn. rewrite Hd1. apply Hu2. }
  destruct r as [[]|e]; [by apply Hpre|by split_and!].
Qed.

End admission.

(** ** Reservations *)

(** The record and the serialized bytes an exact preparation hands over. *)
Definition prepared_ok (p : Prepared) : Prop :=
  forall x, p_exact p = Some x ->
    payload (p_record p) = xa_packed x /\ bytes (xa_serialized x) = Wal.encode_record (erase (p_record p)) /\
    WalProps.record_ok (erase (p_record p)).

Definition credit_list (r : WalTypedExactAppendReservation) : list TypedExactPendingCredit := option_list (reserved_credit r).

Record reservation_ok (r : WalTypedExactAppendReservation) : Prop := mkReservationOk {
  ro_prepared : forall p, prepared r = Some p -> rollback_authority r <> None ->
    prepared_ok p /\ reserved_credit r = Some (mkCredit (expected_serialized_len r) true) /\
    expected_serialized_len r <= MAX_WAL_GROUP_WIRE_BYTES /\
    expected_records_len r + 1 <= expected_records_capacity r /\
    expected_exact_wire_len r + 1 <= expected_exact_wire_capacity r;
  ro_tentative : forall position generation, reservation_state r = StateTentative position generation ->
    0 <= verified_records (prior_durable_identity_binding r) <= position;
  ro_spent : forall position generation, reservation_state r = StateTentative position generation -> reserved_credit r = None;
}.

(** The reservation [r] of [p] was just made on [b]. *)
Record issued (p : Prepared) (b : WalBuffer) (r : WalTypedExactAppendReservation) (x : ExactAuthority) : Prop := mkIssued {
  is_exact : p_exact p = Some x;
  is_reservation : r = mkReservation (canonical_append_reservation_owner_id b) (len b) (capacity (records b))
    (vec_len (wires b)) (capacity (exact_typed_wire_records b)) (canonical_append_reservation_generation b)
    (Canonical.serialized_record_bytes (EnvelopeExact.footprint (xa_encoding x))) (canonical_catalog_tail b) (durable_identity_binding b)
    (Some x) (Some p) (Some (mkCredit (vec_len (bytes (xa_serialized x))) true)) StatePrepared;
  is_length : vec_len (bytes (xa_serialized x)) = Canonical.serialized_record_bytes (EnvelopeExact.footprint (xa_encoding x));
  is_packed : ptr_eq (xa_packed x) (payload (p_record p)) = true;
  is_transaction : Canonical.stable_transaction_id (xa_header x) = txn_id (p_record p);
  is_idle : typed_exact_tentative_count b = 0;
  is_slots : len b + 1 <= capacity (records b) /\ vec_len (wires b) + 1 <= capacity (exact_typed_wire_records b);
}.

Section reserve.
Context {alloc : VecAlloc}.
Context (sha256 : list byte -> list byte) (pid : Z) (try_reserve_exact : Z -> bool) (chunk : Z).
Context (seg : Path) (Hpaths : own_paths pid seg) (Hchunk : 10 <= chunk) (cov : Z) (j : option SerialFlushJob) (cs : list TypedExactPendingCredit).

(** [b'] may have more capacity than [b]. *)
Record widened (b b' : WalBuffer) : Prop := mkWidened {
  wd_similar : similar b b';
  wd_durable : durable b' = durable b;
  wd_binding : durable_identity_binding b' = durable_identity_binding b;
}.

Lemma widened_inv cs' b b' w : buffer_inv seg cov j cs' b w -> widened b b' -> buffer_inv seg cov j cs' b' w.
Proof. intros Hi [Hs Hd Hb]. eapply inv_similar; try done. rewrite Hb. apply Hi. Qed.

Lemma reserve_slots_spec b w :
  wp reserve_slots (fun t r => t.2 = w /\ widened b t.1 /\
    (is_ok r = true -> len t.1 + 1 <= capacity (records t.1) /\
       vec_len (wires t.1) + 1 <= capacity (exact_typed_wire_records t.1))) (b, w).
Proof.
  unfold reserve_slots. apply wp_bind, wp_buffer. apply wp_bind. destruct (vec_try_reserve_exact _ _ _) as [cap|] eqn:Hc; [|by apply wp_throw].
  apply vec_try_reserve_exact_enough in Hc. apply wp_update, wp_bind, wp_buffer.
  destruct (vec_try_reserve_exact _ (capacity (exact_typed_wire_records _)) _) as [cap'|] eqn:Hc'; [|by apply wp_throw].
  apply vec_try_reserve_exact_enough in Hc'. apply wp_update. split_and!; done.
Qed.

Lemma reserve_spec p b w :
  prepared_ok p -> buffer_inv seg cov j cs b w ->
  wp (reserve_typed_exact_append sha256 pid try_reserve_exact chunk p) (fun t r =>
    elems (records t.1) = elems (records b) /\ wires t.1 = wires b /\ flushed_count t.1 = flushed_count b /\
    match r with
    | Ok r => buffer_inv seg cov j (credit_list r ++ cs) t.1 t.2 /\ reservation_ok r /\ exists x, issued p t.1 r x
    | Err _ => buffer_inv seg cov j cs t.1 t.2
    end) (b, w).
Proof.
  intros Hp Hi. unfold reserve_typed_exact_append. apply wp_bind. eapply prune_noop; [apply Hi|]. apply wp_bind, wp_buffer.
  destruct (Z.eqb_spec (typed_exact_tentative_count b) 0) as [H0|H0]; cbn [negb]; [|apply wp_throw; by split_and!].
  destruct (p_exact p) as [x|] eqn:Hx; [|apply wp_throw; by split_and!].
  set (n := Canonical.serialized_record_bytes _). destruct (negb (_ =? n) || _ || _) eqn:Hbad; [apply wp_throw; by split_and!|].
  apply orb_false_iff in Hbad as [[Hn Hpk]%orb_false_iff Htx]. apply negb_false_iff in Hn, Hpk, Htx. apply Z.eqb_eq in Hn, Htx.
  apply wp_bind. eapply wp_mono; [eapply reserve_credit_spec; [rewrite <- Hn; apply vec_len_nonneg|exact Hi]|].
  intros [b1 w1] r (Hw1 & [pool Hb1] & Hr). cbn [fst snd] in *. destruct r as [c|e]; [|split_and!; by subst].
  destruct Hr as (Hcr & Hmax & Hi1). apply wp_bind, wp_attempt, wp_bind. eapply wp_mono; [apply reserve_slots_spec|].
  intros [b2 w2] r (Hw2 & Hwd & Hcap). cbn [fst snd] in *. subst w1 w2. pose proof (widened_inv _ _ _ _ Hi1 Hwd) as Hi2.
  assert (elems (records b2) = elems (records b) /\ wires b2 = wires b /\ typed_exact_tentative_count b2 = 0 /\ flushed_count b2 = flushed_count b) as (E1 & E2 & E3 & E4).
  { destruct Hwd as [[S1 S2 S3 S4 S5 S6] _ _]. rewrite S1, S2, S3, S6. by subst. }
  assert (forall b3 w3 e, buffer_inv seg cov j (c :: cs) b3 w3 -> elems (records b3) = elems (records b) -> wires b3 = wires b -> flushed_count b3 = flushed_count b ->
    wp (drop_credit c ;; throw e) (fun t r => elems (records t.1) = elems (records b) /\ wires t.1 = wires b /\ flushed_count t.1 = flushed_count b /\
      match r with
      | Ok r => buffer_inv seg cov j (credit_list r ++ cs) t.1 t.2 /\ reservation_ok r /\ exists x, issued p t.1 r x
      | Err _ => buffer_inv seg cov j cs t.1 t.2
      end) (b3, w3)) as Hfail.
  { intros b3 w3 e Hi3 R1 R2 R3. apply wp_bind. eapply wp_mono; [by eapply drop_credit_spec|].
    intros [b4 w4] r4 (-> & Hw4 & Hi4 & [pool' Hb4]). apply wp_throw. cbn [fst snd] in *. subst. by split_and!. }
  destruct r as [[]|e]; [|by apply Hfail]. destruct (Hcap eq_refl) as [Hc1 Hc2]. apply wp_bind.
  eapply wp_mono; [by eapply preflight_spec|]. intros [b3 w3] r (Hi3 & [A1 A2 A3 A4 A5 A6] & Hprior). cbn [fst snd] in *.
  assert (wires b3 = wires b2) as Hw3 by (unfold wires; by rewrite A2).
  assert (len b3 = len b2) as Hl3 by (unfold len; by rewrite A1).
  destruct r as [prior|e]; [|apply Hfail; congruence]. specialize (Hprior prior eq_refl) as ->.
  apply wp_bind, wp_buffer, wp_ret, wp_ret. split_and!; cbn [fst snd]; [congruence|congruence|congruence|done| |].
  - constructor; cbn; [|done|done]. intros p' [= <-] _. rewrite Hw3, Hl3, A1, A2. by rewrite Hcr.
  - exists x. constructor; try done; [by rewrite Hn, <- Hcr|congruence|rewrite Hw3, Hl3, A1, A2; lia].
Qed.

(** ** The tentative append *)

Lemma spent_ok r st : reservation_ok r -> (st = StatePrepared \/ st = reservation_state r) -> reservation_ok (set_reservation r None None st).
Proof. intros [_ Ht _] Hst. constructor; [done| |done]. cbn. intros position generation ->. destruct Hst as [|Hst]; [done|]. by eapply Ht. Qed.

(** The append itself, into reserved capacity. *)
Lemma push_tentative_spec b w record tail x credit :
  buffer_inv seg cov j (credit :: cs) b w -> canonical_append_reservation_generation b < u64_max ->
  typed_exact_tentative_count b = 0 -> len b + 1 <= capacity (records b) ->
  vec_len (wires b) + 1 <= capacity (exact_typed_wire_records b) ->
  payload record = xa_packed x -> bytes (xa_serialized x) = Wal.encode_record (erase record) -> WalProps.record_ok (erase record) ->
  credit = mkCredit (vec_len (bytes (xa_serialized x))) true -> vec_len (bytes (xa_serialized x)) <= MAX_WAL_GROUP_WIRE_BYTES ->
  wp (push_tentative record tail x credit) (fun t r => r = Ok tt /\ t.2 = w /\ buffer_inv seg cov j cs t.1 w /\
    elems (records t.1) = elems (records b) ++ [record] /\ flushed_count t.1 = flushed_count b /\
    canonical_catalog_tail t.1 = Known (len t.1) (Some tail)) (b, w).
Proof.
  intros Hi Hg H0 Hc1 Hc2 Hpay Hser Hrec Hcr Hmax. unfold push_tentative. apply wp_bind, wp_buffer.
  apply wp_bind, wp_update. apply wp_bind, wp_update. apply wp_bind, wp_buffer.
  apply wp_bind, wp_assert; [cbn; apply Z.eqb_eq, vec_grow_noop; exact Hc1|].
  apply wp_bind, wp_assert; [cbn; apply Z.eqb_eq, vec_grow_noop; exact Hc2|].
  apply wp_bind, wp_update. apply wp_bind, wp_invalidate; [done|]. apply wp_update.
  set (lb := set_records b (vec_push (records b) record)).
  assert (buffer_inv seg cov j (credit :: cs) lb w) as Hlb.
  { eapply (extend_inv _ _ _ _ b); try done. pose proof (bi_lineage _ _ _ _ _ _ Hi). cbn. lia. }
  assert (len lb = len b + 1) as Hlen by (unfold len, lb; cbn; rewrite vec_len_app; done).
  pose proof (bi_memory _ _ _ _ _ _ Hi) as Hm. pose proof (mi_frontier _ _ _ Hm) as [Hf1 Hf2].
  set (wire := mkWire (len b) (xa_packed x) (xa_serialized x) Tentative credit).
  split_and!; try done.
  set (bt := set_tentative_count _ 1).
  assert (durable_identity_binding bt = mkBinding (Some (Canonical.identity (xa_header x))) (len b + 1)) as Hbd by (rewrite <- Hlen; done).
  (* the buffer with the wire, and then the new lineage *)
  assert (buffer_inv seg cov j cs (set_binding bt (durable_identity_binding b)) w) as Hb0.
  { eapply (wire_push_inv seg cov j cs lb _ w wire Hlb); try done.
    - unfold wires, bt, wire. cbn. rewrite Hlen. by rewrite Z.add_simpl_r.
    - constructor; cbn [record_index wire]; [lia| | |done|done].
      + exists record. split_and!; [|done|done]. unfold lb. cbn. apply list_lookup_middle. unfold len, vec_len. lia.
      + exact Hcr.
    - change (wires lb) with (wires b). by eapply wires_below; [exact Hm|]. }
  assert (bt = set_binding (set_binding bt (durable_identity_binding b)) (durable_identity_binding bt)) as E by done.
  rewrite E. apply inv_binding; [done|]. rewrite Hbd. change (len (set_binding _ _)) with (len lb). cbn. lia.
Qed.

Lemma not_drifted_append b r :
  append_state_drifted b r = false ->
  len b = expected_records_len r /\ capacity (records b) = expected_records_capacity r /\
  vec_len (wires b) = expected_exact_wire_len r /\ capacity (exact_typed_wire_records b) = expected_exact_wire_capacity r /\
  typed_exact_tentative_count b = 0 /\ reservation_state r = StatePrepared.
Proof.
  unfold append_state_drifted. rewrite !orb_false_iff, !negb_false_iff, !Z.eqb_eq. intros (((((((_ & ?) & ?) & ?) & ?) & ?) & _) & Hs).
  split_and!; try done. by destruct (reservation_state r).
Qed.

(** What a call on a borrowed reservation gives. *)
Definition borrowed (w : World) (Q : WalBuffer -> WalTypedExactAppendReservation -> result unit EngineError -> Prop)
    (t : WalBuffer * World) (r : result (WalTypedExactAppendReservation * result unit EngineError) EngineError) : Prop :=
  exists r' out, r = Ok (r', out) /\ t.2 = w /\ reservation_ok r' /\ buffer_inv seg cov j (credit_list r' ++ cs) t.1 w /\ Q t.1 r' out.

Definition appended (b : WalBuffer) (r : WalTypedExactAppendReservation) (b' : WalBuffer)
    (r' : WalTypedExactAppendReservation) (out : result unit EngineError) : Prop :=
  flushed_count b' = flushed_count b /\
  match out with
  | Ok _ => exists p, prepared r = Some p /\ elems (records b') = elems (records b) ++ [p_record p] /\
      reservation_state r' = StateTentative (len b) (canonical_append_reservation_generation b')
  | Err _ => elems (records b') = elems (records b)
  end.

Lemma tentative_spec b w r :
  reservation_ok r -> buffer_inv seg cov j (credit_list r ++ cs) b w -> canonical_append_reservation_generation b < u64_max ->
  wp (append_typed_exact_tentative r) (borrowed w (appended b r)) (b, w).
Proof.
  intros Hok Hi Hg. unfold append_typed_exact_tentative. apply wp_bind, wp_buffer.
  destruct (append_state_drifted b r) eqn:Hdr; [apply wp_ret; by eexists _, _; split_and!|].
  apply not_drifted_append in Hdr as (D1 & D2 & D3 & D4 & D5 & D6).
  assert (reservation_ok (set_reservation r None None (reservation_state r))) as Hspent by (apply spent_ok; auto).
  destruct (prepared r) as [p|] eqn:Hp; [|apply wp_ret; by eexists _, _; split_and!].
  destruct (reserved_credit r) as [credit|] eqn:Hc; unfold credit_list in Hi; rewrite Hc in Hi; cbn [option_list app] in Hi.
  2: { apply wp_ret. eexists _, _. by split_and!. }
  change (buffer_inv seg cov j (credit :: cs) b w) in Hi. set (spent := set_reservation r None None (reservation_state r)) in *.
  assert (forall e, wp (drop_credit credit ;; ret (spent, Err (Durability e))) (borrowed w (appended b r)) (b, w)) as Hrefuse.
  { intros e. apply wp_bind. eapply wp_mono; [by eapply drop_credit_spec|]. intros [b1 w1] r1 (-> & Hw & Hi1 & [pool Hb1]).
    apply wp_ret. eexists _, _. cbn [fst snd] in *. subst. by split_and!. }
  destruct (p_exact p) as [x|] eqn:Hx; [|apply Hrefuse].
  destruct (binding_drifted spent (p_record p) x) eqn:Hbd; [apply Hrefuse|]. case_bool_decide as Hlin; cbn [negb]; [|apply Hrefuse].
  unfold binding_drifted in Hbd. rewrite !orb_false_iff in Hbd. destruct Hbd as (((Hlen & _) & _) & Hauth).
  apply negb_false_iff, Z.eqb_eq in Hlen. change (rollback_authority spent) with (rollback_authority r) in Hauth.
  destruct (ro_prepared _ Hok p Hp) as (Hpok & Hcr & Hmax & Hcap1 & Hcap2); [by destruct (rollback_authority r)|].
  destruct (Hpok x Hx) as (P1 & P2 & P3). change (expected_serialized_len spent) with (expected_serialized_len r) in Hlen.
  rewrite Hc in Hcr. injection Hcr as Hcr. apply wp_bind. eapply wp_mono; [eapply push_tentative_spec; try done; [lia|lia|by rewrite Hlen|lia]|].
  intros [b1 w1] r1 (-> & Hw & Hi1 & Hrec & Hfl & _). apply wp_bind, wp_buffer, wp_ret. cbn [fst snd] in *.
  assert (len b1 - 1 = len b) as Hl by (unfold len; rewrite Hrec, vec_len_app; change (vec_len [p_record p]) with 1; lia).
  eexists _, _. split_and!; [done|done| |done|]; rewrite Hl.
  - constructor; [done| |done]. intros position generation [= <- <-]. change (prior_durable_identity_binding _) with (prior_durable_identity_binding spent). rewrite <- Hlin. apply Hi.
  - split; [done|]. by exists p.
Qed.

(** ** Rollback *)

Lemma not_drifted_tentative b r position generation :
  tentative_drifted b r position generation = false -> len b = position + 1 /\ typed_exact_tentative_count b = 1.
Proof.
  unfold tentative_drifted. rewrite !orb_false_iff, !negb_false_iff, bool_decide_eq_true, !Z.eqb_eq, checked_add64_Some.
  intros ((((_ & [? _]) & _) & _) & ?). done.
Qed.

Lemma pop_tentative_spec b w r wire position :
  buffer_inv seg cov j cs b w -> canonical_append_reservation_generation b < u64_max ->
  typed_exact_tentative_count b = 1 -> last (wires b) = Some wire -> record_index wire = position -> len b = position + 1 ->
  0 <= verified_records (prior_durable_identity_binding r) <= position ->
  wp (pop_tentative r) (fun t res => res = Ok tt /\ t.2 = w /\ buffer_inv seg cov j (pending_group_credit wire :: cs) t.1 w /\
    elems (records t.1) = removelast (elems (records b)) /\ capacity (records t.1) = capacity (records b) /\
    wires t.1 = removelast (wires b) /\ flushed_count t.1 = flushed_count b /\
    canonical_catalog_tail t.1 = prior_catalog_tail r /\ durable_identity_binding t.1 = prior_durable_identity_binding r /\
    typed_exact_tentative_count t.1 = 0) (b, w).
Proof.
  intros Hi Hg H1 Hlast Hpos Hlen Hprior. unfold pop_tentative. apply wp_bind, wp_update. apply wp_bind, wp_update.
  apply wp_bind, wp_invalidate; [done|]. apply wp_update. split_and!; try done. set (bt := set_tentative_count _ 0).
  pose proof (bi_memory _ _ _ _ _ _ Hi) as Hm. destruct (tentative_last _ _ _ Hm H1) as (ws & wire' & Hw & Hst & Hcl & Hlt & Hok & Hfr).
  rewrite Hw, last_snoc in Hlast. injection Hlast as ->.
  set (b1 := set_tentative_count (set_wires b (with_elems (exact_typed_wire_records b) ws)) 0).
  assert (buffer_inv seg cov j (pending_group_credit wire :: cs) b1 w) as Hb1 by (by eapply (wire_pop_inv seg cov j cs b b1 w ws wire Hi)).
  eapply (cut_inv _ _ _ _ b1 bt w position Hb1); try done.
  - constructor; try done. unfold bt, b1, wires. cbn. change (elems (exact_typed_wire_records b)) with (wires b). rewrite Hw. apply removelast_last.
  - unfold bt, b1. cbn. rewrite removelast_firstn_len. f_equal. unfold len, vec_len in Hlen. lia.
  - change (frontier b1 j) with (frontier b j). change (len b1) with (len b). lia.
  - rewrite <- Hpos. done.
Qed.

Lemma rollback_spec b w r :
  reservation_ok r -> buffer_inv seg cov j (credit_list r ++ cs) b w -> canonical_append_reservation_generation b < u64_max ->
  wp (rollback_typed_exact_append r) (borrowed w (fun b' r' out => flushed_count b' = flushed_count b /\
    match reservation_state r, out with
    | StateTentative position _, Ok _ =>
        elems (records b') = take (Z.to_nat position) (elems (records b)) /\
        canonical_catalog_tail b' = prior_catalog_tail r /\
        durable_identity_binding b' = prior_durable_identity_binding r /\ typed_exact_tentative_count b' = 0
    | _, _ => b' = b
    end)) (b, w).
Proof.
  intros Hok Hi Hg. pose proof (ro_spent _ Hok) as Hnone. unfold rollback_typed_exact_append.
  assert (forall out Q, Q b r out -> borrowed w Q (b, w) (Ok (r, out))) as Hkeep by (intros out Q HQ; by eexists _, _; split_and!).
  destruct (reservation_state r) as [|position generation] eqn:Hst; [apply wp_ret; by apply Hkeep|].
  apply wp_bind, wp_buffer. destruct (tentative_drifted b r position generation) eqn:Hdr; [apply wp_ret; by apply Hkeep|].
  apply not_drifted_tentative in Hdr as [Hlen H1]. destruct (last (wires b)) as [wire|] eqn:Hlast; [|apply wp_ret; by apply Hkeep].
  destruct (canonical_catalog_tail b) as [n [tail|]|]; try (apply wp_ret; by apply Hkeep).
  destruct (n =? position + 1); cbn [negb]; [|apply wp_ret; by apply Hkeep].
  destruct (last (elems (records b))) as [rec|] eqn:Hrec.
  2: { apply last_None in Hrec. unfold len in Hlen. rewrite Hrec in Hlen. change (vec_len []) with 0 in Hlen.
       pose proof (ro_tentative _ Hok _ _ Hst). lia. }
  apply wp_bind. eapply wp_expect; [done|]. destruct (rollback_authority r) as [authority|]; [|apply wp_ret; by apply Hkeep].
  destruct (wire_drifted r position wire rec authority) eqn:Hwd; [apply wp_ret; by apply Hkeep|].
  unfold wire_drifted in Hwd. rewrite !orb_false_iff, !negb_false_iff, !Z.eqb_eq in Hwd. destruct Hwd as (((((Hpos & _) & _) & _) & _) & _).
  unfold credit_list in Hi. rewrite (Hnone _ _ eq_refl) in Hi. change (buffer_inv seg cov j cs b w) in Hi.
  apply wp_bind. eapply wp_mono; [eapply pop_tentative_spec; try done; by eapply ro_tentative|].
  intros [b1 w1] r1 (-> & Hw & Hi1 & R1 & _ & _ & R4 & R5 & R6 & R7). apply wp_bind, wp_buffer, wp_ret. cbn [fst snd] in *.
  eexists _, _. split_and!; [done|done|by constructor|done|done|]. cbv iota. cbn [fst]. split_and!; try done.
  - rewrite R1, removelast_firstn_len. f_equal. unfold len, vec_len in Hlen. lia.
Qed.

(** ** Claim *)

Lemma drop_reservation_spec b w r :
  buffer_inv seg cov j (credit_list r ++ cs) b w ->
  wp (drop_reservation r) (fun t res => res = Ok tt /\ t.2 = w /\ buffer_inv seg cov j cs t.1 w /\ recredited b t.1) (b, w).
Proof.
  intros Hi. unfold drop_reservation, credit_list in *. destruct (reserved_credit r) as [c|]; [by apply drop_credit_spec|].
  apply wp_ret. split_and!; try done. exists (typed_exact_credits (prepared_group_arena b)). by destruct b as [? ? ? ? ? [] ? ? ? ? ? ? ?].
Qed.

Lemma claim_spec b w r :
  buffer_inv seg cov j (credit_list r ++ cs) b w ->
  wp (claim_typed_exact_append r) (fun t res => t.2 = w /\ buffer_inv seg cov j cs t.1 w /\ records t.1 = records b /\
    flushed_count t.1 = flushed_count b /\
    match res with
    | Ok n => n = len b /\ typed_exact_tentative_count t.1 = 0
    | Err _ => wires t.1 = wires b
    end) (b, w).
Proof.
  intros Hi. unfold claim_typed_exact_append.
  assert (forall e, wp (drop_reservation r ;; throw e) (fun t res => t.2 = w /\ buffer_inv seg cov j cs t.1 w /\ records t.1 = records b /\
    flushed_count t.1 = flushed_count b /\
    match res with
    | Ok n => n = len b /\ typed_exact_tentative_count t.1 = 0
    | Err _ => wires t.1 = wires b
    end) (b, w)) as Hrefuse.
  { intros e. apply wp_bind. eapply wp_mono; [by eapply drop_reservation_spec|]. intros [b1 w1] r1 (-> & Hw & Hi1 & [pool Hb1]).
    apply wp_throw. cbn [fst snd] in *. subst. by split_and!. }
  destruct (reservation_state r) as [|position generation]; [apply Hrefuse|]. apply wp_bind, wp_buffer.
  destruct (tentative_drifted b r position generation) eqn:Hdr; [apply Hrefuse|]. apply not_drifted_tentative in Hdr as [Hlen H1].
  destruct (last (wires b)) as [wire|] eqn:Hlast; [|apply Hrefuse]. destruct (negb _ || negb _) eqn:Hbad; [apply Hrefuse|].
  apply orb_false_iff in Hbad as [Hpos%negb_false_iff%Z.eqb_eq _].
  apply wp_bind, wp_update. apply wp_bind, wp_update. set (bt := set_highest_claimed _ _).
  apply last_Some in Hlast as [ws Hw].
  assert (buffer_inv seg cov j (credit_list r ++ cs) bt w) as Hbt.
  { eapply (wire_claim_inv seg cov j _ b bt w ws wire _ Hi); try done.
    - cbn. destruct (highest_claimed_typed_exact_record b); lia.
    - cbn. intros h0 ->. lia.
    - unfold bt, wires. cbn. change (elems (exact_typed_wire_records b)) with (wires b). by rewrite Hw, removelast_last. }
  apply wp_bind. eapply wp_mono; [by eapply drop_reservation_spec|]. intros [b1 w1] r1 (-> & Hw1 & Hi1 & [pool Hb1]).
  apply wp_ret. cbn [fst snd] in *. subst b1. split_and!; done || lia.
Qed.

End reserve.

End WalReserve.
