(* ===== verification/WalSystem.v ===== *)
(** * The buffer over time

    Every operation of the buffer, with a job in flight and reservations held outside it, as one
    step of a system; the abstract log it implements; and the invariant of every state that can
    be reached. *)

From stdpp Require Import base gmap strings list pretty sorting.
From S2P Require Import Prelude Types Bytes Text Paths Effects Disk Sidecar WalSegment WalProps Codec Canonical Envelope EnvelopeExact Identity LocalRepl WalCore WalGroup WalScatter DiskFacts WalDurability WalBuffer WalInvariant WalFormation WalFlush WalBegin WalReserve.

Module WalSystem.
Import Paths Disk Effects Identity WalCore WalGroup WalScatter DiskFacts WalDurability WalBuffer WalInvariant WalFormation WalFlush WalBegin WalAppend WalReserve.

(** The buffer behind its lock, the disk, the group a flusher works on without the lock, the
    reservations that callers hold, and the largest base a rotation was asked for. *)
Record System := mkSystem {
  sys_buffer : WalBuffer;
  sys_world : World;
  sys_job : option SerialFlushJob;
  sys_held : list WalTypedExactAppendReservation;
  sys_covered : Z;
}.

Inductive Operation :=
  | OpAppend (rec : SharedRecord)
  | OpAppendCanonical (p : Prepared)
  | OpCatalogTail
  | OpReserve (p : Prepared)
  | OpTentative (k : nat)
  | OpRollback (k : nat)
  | OpClaim (k : nat)
  | OpDrop (k : nat)
  | OpBegin
  | OpCommit (writes syncs : list Answer)
  | OpAbandon
  | OpTruncate (n : Z)
  | OpRotate (base : Z)
  | OpFaults (fs : list (option OsFault)).

Inductive Outcome := Panicked | Blocked | Next (s : System).

Definition call {A} (s : System) (m : BufM A) (k : WalBuffer * World -> result A EngineError -> System) : Outcome :=
  match m (sys_buffer s, sys_world s) with
  | Panic => Panicked
  | Wait => Blocked
  | Done t r => Next (k t r)
  end.

(** The state after a call that leaves the job, the reservations and the base alone. *)
Definition moved (s : System) (t : WalBuffer * World) : System :=
  mkSystem t.1 t.2 (sys_job s) (sys_held s) (sys_covered s).

Definition with_held (s : System) (held : list WalTypedExactAppendReservation) : System :=
  mkSystem (sys_buffer s) (sys_world s) (sys_job s) held (sys_covered s).

Definition with_job (s : System) (job : option SerialFlushJob) : System :=
  mkSystem (sys_buffer s) (sys_world s) job (sys_held s) (sys_covered s).

(** A call on the [k]th reservation. *)
Definition on_held {A} (s : System) (k : nat) (m : WalTypedExactAppendReservation -> BufM A)
    (after : result A EngineError -> list WalTypedExactAppendReservation) : Outcome :=
  match sys_held s !! k with
  | None => Next s
  | Some r => call s (m r) (fun t a =>
      with_held (moved s t) (take k (sys_held s) ++ after a ++ drop (S k) (sys_held s)))
  end.

(** A borrowed reservation is given back. *)
Definition returned {A} (a : result (WalTypedExactAppendReservation * A) EngineError) : list WalTypedExactAppendReservation :=
  match a with Ok (r, _) => [r] | Err _ => [] end.

Section system.
Context {alloc : VecAlloc}.
Context (sha256 : list byte -> list byte) (pid : Z) (try_reserve_exact : Z -> bool) (chunk : Z).

Definition perform (op : Operation) (s : System) : Outcome :=
  match op with
  | OpAppend rec => call s (append rec) (fun t _ => moved s t)
  | OpAppendCanonical p => call s (append_canonical p) (fun t _ => moved s t)
  | OpCatalogTail => call s (read_canonical_catalog_tail sha256 try_reserve_exact) (fun t _ => moved s t)
  | OpReserve p => call s (reserve_typed_exact_append sha256 pid try_reserve_exact chunk p) (fun t a =>
      with_held (moved s t) (match a with Ok r => r :: sys_held s | Err _ => sys_held s end))
  | OpTentative k => on_held s k append_typed_exact_tentative returned
  | OpRollback k => on_held s k rollback_typed_exact_append returned
  | OpClaim k => on_held s k claim_typed_exact_append (fun _ => [])
  | OpDrop k => on_held s k drop_reservation (fun _ => [])
  | OpBegin => call s (begin_group_flush sha256 pid try_reserve_exact chunk) (fun t a =>
      with_job (moved s t) (match a with Ok (Job job) => Some job | _ => sys_job s end))
  | OpCommit writes syncs =>
      match sys_job s with
      | Some job => call s (commit writes syncs job) (fun t _ => with_job (moved s t) None)
      | None => Next s
      end
  | OpAbandon =>
      match sys_job s with
      | Some job => call s (abandon job) (fun t _ => with_job (moved s t) None)
      | None => Next s
      end
  | OpTruncate n => call s (truncate n) (fun t _ => moved s t)
  | OpRotate base => call s (truncate_durable_segment_prefix sha256 pid try_reserve_exact chunk base) (fun t _ =>
      mkSystem t.1 t.2 (sys_job s) (sys_held s) (Z.max (sys_covered s) base))
  | OpFaults fs => Next (mkSystem (sys_buffer s) (mkWorld (names (sys_world s)) (unsynced_names (sys_world s)) fs)
      (sys_job s) (sys_held s) (sys_covered s))
  end.

(** What the callers promise: records that fit their wire format, a reservation counter with room,
    and no cut below what is acknowledged or in flight, as the comment of [WalBuffer::truncate]
    says of the rollbacks of the commit path. *)
Definition allowed (op : Operation) (s : System) : Prop :=
  let b := sys_buffer s in
  let room := canonical_append_reservation_generation b < u64_max in
  match op with
  | OpAppend rec => WalProps.record_ok (erase rec) /\ room
  | OpAppendCanonical p => WalProps.record_ok (erase (p_record p)) /\ p_exact p = None /\ room
  | OpReserve p => prepared_ok p
  | OpTentative _ | OpRollback _ => room
  | OpTruncate n => room /\ frontier b (sys_job s) <= n
  | _ => True
  end.

(** The calls that panic: a flush when the lineage was verified beyond the group it would take,
    and a cut that takes an exact record away. *)
Definition refused (op : Operation) (s : System) : bool :=
  match op with
  | OpBegin => overtaken (sys_buffer s)
  | OpTruncate n => cuts_exact (sys_buffer s) n
  | _ => false
  end.

Definition step (s s' : System) : Prop := exists op, allowed op s /\ perform op s = Next s'.

(** ** The abstract log *)

Record Log := mkLog { history : list Wal.WalRecord; acknowledged : Z }.

Inductive log_step : Log -> Log -> Prop :=
  | Stutter a : log_step a a
  | Extend h n r : log_step (mkLog h n) (mkLog (h ++ [r]) n)
  | Cut h n k : n <= k -> log_step (mkLog h n) (mkLog (take (Z.to_nat k) h) n)
  | Acknowledge h n n' : n <= n' <= vec_len h -> log_step (mkLog h n) (mkLog h n').

Definition log (s : System) : Log := mkLog (logical_records (sys_buffer s)) (flushed_count (sys_buffer s)).

(** ** The invariant *)

Context (seg : Path).

Definition held_credits (rs : list WalTypedExactAppendReservation) : list TypedExactPendingCredit := rs ≫= credit_list.

Record sys_inv (s : System) : Prop := mkSysInv {
  si_buffer : buffer_inv seg (sys_covered s) (sys_job s) (held_credits (sys_held s)) (sys_buffer s) (sys_world s);
  si_held : Forall reservation_ok (sys_held s);
}.

Definition safe (P : System -> Prop) (o : Outcome) : Prop :=
  match o with Panicked => False | Blocked => True | Next s => P s end.

(** A good step: the invariant holds after it and the abstract log makes a step. *)
Definition refines (s s' : System) : Prop := sys_inv s' /\ log_step (log s) (log s').

Lemma call_safe {A} s (m : BufM A) k Q P :
  wp m Q (sys_buffer s, sys_world s) -> (forall t r, Q t r -> P (k t r)) -> safe P (call s m k).
Proof. unfold wp, call. destruct (m _) as [| |t r]; [done|done|]. intros HQ HP. by apply HP. Qed.

Lemma inv_permutation cov j cs cs' b w : cs ≡ₚ cs' -> buffer_inv seg cov j cs b w -> buffer_inv seg cov j cs' b w.
Proof.
  intros Hp Hi. pose proof (bi_memory _ _ _ _ _ _ Hi) as []. eapply (rewired_inv _ _ _ _ _ b b w Hi); try done; by rewrite Hp.
Qed.

Lemma held_middle rs k r : rs !! k = Some r ->
  held_credits rs ≡ₚ credit_list r ++ held_credits (take k rs ++ drop (S k) rs).
Proof.
  intros Hk. unfold held_credits. rewrite <- (take_drop_middle rs k r Hk) at 1. rewrite !bind_app, bind_cons.
  apply Permutation_app_swap_app.
Qed.

Lemma held_single r : held_credits [r] = credit_list r.
Proof. apply app_nil_r. Qed.

Lemma held_replaced rs k l : held_credits (take k rs ++ l ++ drop (S k) rs) ≡ₚ held_credits l ++ held_credits (take k rs ++ drop (S k) rs).
Proof.
  unfold held_credits. rewrite !bind_app. apply Permutation_app_swap_app.
Qed.

Lemma log_same (s s' : System) :
  elems (records (sys_buffer s')) = elems (records (sys_buffer s)) -> flushed_count (sys_buffer s') = flushed_count (sys_buffer s) ->
  log_step (log s) (log s').
Proof. intros Hr Hf. unfold log, logical_records. rewrite Hr, Hf. constructor. Qed.

Context (Hpaths : own_paths pid seg) (Hchunk : 10 <= chunk).

(** ** Each operation *)

Section operation.
Context (s : System) (Hinv : sys_inv s).

Lemma append_refines rec : allowed (OpAppend rec) s -> safe (refines s) (perform (OpAppend rec) s).
Proof.
  intros [Hr Hg]. eapply call_safe; [by eapply append_spec, Hg; [apply Hinv|]|]. intros [b w] r (_ & [Hw Hi Hrec Hf]). cbn [fst snd] in *. subst.
  split; [by constructor; [|apply Hinv]|]. unfold log, logical_records. cbn [moved sys_buffer fst]. rewrite Hrec, Hf, fmap_app. constructor.
Qed.

Lemma append_canonical_refines p : allowed (OpAppendCanonical p) s -> safe (refines s) (perform (OpAppendCanonical p) s).
Proof.
  intros (Hr & Hp & Hg). eapply call_safe; [by eapply append_canonical_spec; [apply Hinv|..]|]. intros [b w] r (_ & [Hw Hi Hrec Hf] & _). cbn [fst snd] in *. subst.
  split; [by constructor; [|apply Hinv]|]. unfold log, logical_records. cbn [moved sys_buffer fst]. rewrite Hrec, Hf, fmap_app. constructor.
Qed.

Lemma reserve_refines p : allowed (OpReserve p) s -> safe (refines s) (perform (OpReserve p) s).
Proof.
  intros Hp. eapply call_safe; [by eapply reserve_spec; [..|apply Hinv]|]. intros [b w] r (Hrec & _ & Hf & Hr). cbn [fst snd] in *.
  split; [|by apply log_same]. destruct r as [r|e]; [|by constructor; [|apply Hinv]]. destruct Hr as (Hi & Hok & _).
  constructor; [exact Hi|]. constructor; [done|apply Hinv].
Qed.

(** The invariant with the [k]th reservation singled out. *)
Lemma held_inv k r : sys_held s !! k = Some r ->
  reservation_ok r /\ Forall reservation_ok (take k (sys_held s) ++ drop (S k) (sys_held s)) /\
  buffer_inv seg (sys_covered s) (sys_job s) (credit_list r ++ held_credits (take k (sys_held s) ++ drop (S k) (sys_held s)))
    (sys_buffer s) (sys_world s).
Proof.
  intros Hk. destruct Hinv as [Hb Hh]. split_and!.
  - by eapply Forall_lookup_1.
  - apply Forall_app. split; [by apply Forall_take|by apply Forall_drop].
  - eapply inv_permutation; [by apply held_middle|done].
Qed.

Lemma replaced_inv b w k l :
  Forall reservation_ok (take k (sys_held s) ++ drop (S k) (sys_held s)) -> Forall reservation_ok l ->
  buffer_inv seg (sys_covered s) (sys_job s) (held_credits l ++ held_credits (take k (sys_held s) ++ drop (S k) (sys_held s))) b w ->
  sys_inv (with_held (moved s (b, w)) (take k (sys_held s) ++ l ++ drop (S k) (sys_held s))).
Proof.
  intros [H1 H2]%Forall_app Hl Hi. constructor; cbn.
  - eapply inv_permutation; [by rewrite held_replaced|done].
  - by rewrite !Forall_app.
Qed.

Lemma tentative_refines k : allowed (OpTentative k) s -> safe (refines s) (perform (OpTentative k) s).
Proof.
  intros Hg. cbn. unfold on_held. destruct (sys_held s !! k) as [r|] eqn:Hk; [|by split; [|constructor]].
  destruct (held_inv k r Hk) as (Hr & Hrs & Hi). eapply call_safe; [by eapply tentative_spec|].
  intros [b w] a (r' & out & -> & Hw & Hok & Hi' & Hf & Ha). cbn [fst snd returned] in *. subst w. split.
  - apply replaced_inv; [done|by constructor|]. by rewrite held_single.
  - destruct out as [[]|e]; [|by apply log_same]. destruct Ha as (p & _ & Hrec & _).
    unfold log, logical_records. cbn [moved with_held sys_buffer fst]. rewrite Hrec, Hf, fmap_app. constructor.
Qed.

Lemma rollback_refines k : allowed (OpRollback k) s -> safe (refines s) (perform (OpRollback k) s).
Proof.
  intros Hg. cbn. unfold on_held. destruct (sys_held s !! k) as [r|] eqn:Hk; [|by split; [|constructor]].
  destruct (held_inv k r Hk) as (Hr & Hrs & Hi). eapply call_safe; [by eapply rollback_spec|].
  intros [b w] a (r' & out & -> & Hw & Hok & Hi' & Hf & Ha). cbn [fst snd returned] in *. subst w. split.
  - apply replaced_inv; [done|by constructor|]. by rewrite held_single.
  - destruct (reservation_state r) as [|position generation] eqn:Hst; [subst b; by apply log_same|].
    destruct out as [[]|e]; [|subst b; by apply log_same]. destruct Ha as (Hrec & _).
    unfold log, logical_records. cbn [moved with_held sys_buffer fst]. rewrite Hrec, Hf, fmap_take. constructor.
    pose proof (mi_frontier _ _ _ (bi_memory _ _ _ _ _ _ Hi')) as [? ?]. pose proof (ro_tentative _ Hr _ _ Hst).
    assert (len b <= position); [|lia]. unfold len, vec_len. rewrite Hrec, length_take. lia.
Qed.

Lemma claim_refines k : safe (refines s) (perform (OpClaim k) s).
Proof.
  cbn. unfold on_held. destruct (sys_held s !! k) as [r|] eqn:Hk; [|by split; [|constructor]].
  destruct (held_inv k r Hk) as (Hr & Hrs & Hi). eapply call_safe; [by eapply claim_spec|].
  intros [b w] a (Hw & Hi' & Hrec & Hf & _). cbn [fst snd] in *. subst w. split; [by apply replaced_inv|apply log_same; cbn; by rewrite ?Hrec].
Qed.

Lemma drop_refines k : safe (refines s) (perform (OpDrop k) s).
Proof.
  cbn. unfold on_held. destruct (sys_held s !! k) as [r|] eqn:Hk; [|by split; [|constructor]].
  destruct (held_inv k r Hk) as (Hr & Hrs & Hi). eapply call_safe; [by eapply drop_reservation_spec|].
  intros [b w] a (_ & Hw & Hi' & [pool Hb]). cbn [fst snd] in *. subst w. split; [by apply replaced_inv|apply log_same; cbn; by subst b].
Qed.

Lemma acknowledge_log b w held cov job :
  buffer_inv seg cov job (held_credits held) b w -> elems (records b) = elems (records (sys_buffer s)) ->
  flushed_count (sys_buffer s) <= flushed_count b -> log_step (log s) (log (mkSystem b w job held cov)).
Proof.
  intros Hi Hrec Hf. unfold log, logical_records. cbn [sys_buffer]. rewrite Hrec. constructor. split; [done|].
  pose proof (mi_frontier _ _ _ (bi_memory _ _ _ _ _ _ Hi)) as [? ?]. unfold len in *. unfold vec_len in *. rewrite length_fmap, <- Hrec. lia.
Qed.

Lemma begin_refines : refused OpBegin s = false -> safe (refines s) (perform OpBegin s).
Proof.
  intros Hv. eapply call_safe; [by eapply begin_group_flush_spec; [..|apply Hinv|]|]. intros [b w] a Ha. cbn [fst snd] in *.
  unfold with_job, moved. cbn [sys_buffer sys_world sys_held sys_covered fst snd]. destruct (sys_job s) as [job|] eqn:Hj.
  - destruct Ha as (Hi & Hs & _ & Hno).
    assert (match a with Ok (Job k) => Some k | _ => Some job end = Some job) as -> by (destruct a as [[]|]; try done; by destruct (Hno job0)).
    split; [by constructor; [|apply Hinv]|]. by apply log_same; apply Hs.
  - destruct Ha as [Hrec Hi _ Hf _ _ _]. cbn [fst snd] in *.
    set (job := match a with Ok (Job k) => Some k | _ => None end).
    assert (buffer_inv seg (sys_covered s) job (held_credits (sys_held s)) b w) as Hi' by (by destruct a as [[]|]).
    split; [by constructor; [|apply Hinv]|]. by apply acknowledge_log; [|rewrite Hrec|].
Qed.

Lemma commit_refines writes syncs : safe (refines s) (perform (OpCommit writes syncs) s).
Proof.
  cbn. destruct (sys_job s) as [job|] eqn:Hj; [|by split; [|constructor]]. pose proof (si_buffer _ Hinv) as Hi. rewrite Hj in Hi.
  eapply call_safe; [by eapply commit_spec|]. intros [b w] a [Hi' Hrec _ _ _ Hres]. cbn [fst snd] in *.
  split; [by constructor; [|apply Hinv]|]. apply acknowledge_log; [done|cbn; by rewrite Hrec|].
  pose proof (mi_frontier _ _ _ (bi_memory _ _ _ _ _ _ Hi)) as [? ?]. cbn in *. destruct a; lia.
Qed.

Lemma abandon_refines : safe (refines s) (perform OpAbandon s).
Proof.
  cbn. destruct (sys_job s) as [job|] eqn:Hj; [|by split; [|constructor]]. pose proof (si_buffer _ Hinv) as Hi. rewrite Hj in Hi.
  destruct (durable (sys_buffer s)) as [c|] eqn:Hd; [|pose proof (bi_core _ _ _ _ _ _ Hi) as Hc; by rewrite Hd in Hc].
  eapply call_safe; [by eapply abandon_spec|]. intros [b w] a (Hw & [Hi' Hrec _ _ _ _] & Hf & _). cbn [fst snd] in *. subst w.
  split; [by constructor; [|apply Hinv]|]. apply log_same; cbn; by rewrite ?Hrec.
Qed.

Lemma truncate_refines n :
  allowed (OpTruncate n) s -> refused (OpTruncate n) s = false -> safe (refines s) (perform (OpTruncate n) s).
Proof.
  intros [Hg Hn] Hcut. eapply call_safe; [by eapply truncate_spec; [apply Hinv|..]|].
  intros [b w] a (_ & Hw' & Hi & Hrec & Hf). cbn [fst snd] in *. subst w. split; [by constructor; [|apply Hinv]|].
  unfold log, logical_records. cbn [moved sys_buffer fst]. rewrite Hrec, Hf, fmap_take. constructor.
  pose proof (mi_frontier _ _ _ (bi_memory _ _ _ _ _ _ (si_buffer _ Hinv))) as [? ?]. lia.
Qed.

Lemma rotate_refines base : safe (refines s) (perform (OpRotate base) s).
Proof.
  eapply call_safe; [by eapply rotation_spec; [..|apply Hinv]|]. intros [b w] a (Hi & Hrec & Hf & _). cbn [fst snd] in *.
  split; [by constructor; [|apply Hinv]|]. apply log_same; cbn; by rewrite ?Hrec.
Qed.

Lemma faults_refines fs : refines s (mkSystem (sys_buffer s) (mkWorld (names (sys_world s)) (unsynced_names (sys_world s)) fs)
  (sys_job s) (sys_held s) (sys_covered s)).
Proof.
  split; [|by apply log_same]. constructor; [|apply Hinv]. eapply inv_frame; [apply Hinv|]. split; [done|by left].
Qed.

Lemma tail_refines : safe (refines s) (perform OpCatalogTail s).
Proof.
  eapply (call_safe _ _ _ (fun t _ => exists tail, t = (set_catalog_tail (sys_buffer s) tail, sys_world s))).
  - unfold read_canonical_catalog_tail. apply wp_bind, wp_buffer.
    assert (exists tail, (sys_buffer s, sys_world s) = (set_catalog_tail (sys_buffer s) tail, sys_world s)) as Hsame
      by (exists (canonical_catalog_tail (sys_buffer s)); by destruct (sys_buffer s)).
    destruct (canonical_catalog_tail (sys_buffer s)) as [n t|]; [destruct (n =? _); [by apply wp_ret|]|].
    all: destruct (last _) as [rec|]; apply wp_bind, wp_update; [|apply wp_ret; by eexists].
    all: apply wp_bind, wp_of_result; destruct (Envelope.decode_canonical_record_payload _ _ _); [|by eexists].
    all: apply wp_bind, wp_update, wp_ret; by eexists.
  - intros t a [tail ->]. split; [|by apply log_same]. constructor; [|apply Hinv]. apply (inv_similar _ _ _ _ (sys_buffer s)); [done|done|apply Hinv|apply Hinv].
Qed.

End operation.

(** Every other operation returns or waits, and refines the abstract log. *)
Lemma perform_refines op s : sys_inv s -> allowed op s -> refused op s = false -> safe (refines s) (perform op s).
Proof.
  intros Hi Ha Hr. destruct op;
    auto using append_refines, append_canonical_refines, tail_refines, reserve_refines, tentative_refines, rollback_refines,
      claim_refines, drop_refines, begin_refines, commit_refines, abandon_refines, truncate_refines, rotate_refines, faults_refines.
  by apply faults_refines.
Qed.

Lemma refused_panics op s : sys_inv s -> refused op s = true -> perform op s = Panicked.
Proof.
  intros Hi Hr. destruct op; try done; cbn in *; unfold call.
  - by erewrite overtaken_panics by (apply Hi || done).
  - by rewrite cuts_exact_panics.
Qed.

Lemma step_refines s s' : sys_inv s -> step s s' -> refines s s'.
Proof.
  intros Hi (op & Ha & Hp). destruct (refused op s) eqn:Hr; [by rewrite refused_panics in Hp|].
  pose proof (perform_refines op s Hi Ha Hr) as H. by rewrite Hp in H.
Qed.

Lemma run_inv s s' : rtc step s s' -> sys_inv s -> sys_inv s'.
Proof. induction 1 as [|s s1 s2 Hs _ IH]; [done|]. intros Hi. by apply IH, (step_refines s s1). Qed.

(** ** Flushing everything *)

(** A call of [flush_all] that ended like [o]: it went through begins and commits from [s] on. *)
Definition flushed_to (s : System) (target : Z) (o : exec (WalBuffer * World) EngineError unit) : Prop :=
  match o with
  | Panic => exists s', rtc step s s' /\ refused OpBegin s' = true
  | Wait => True
  | Done t r => exists s', rtc step s s' /\ (sys_buffer s', sys_world s') = t /\
      elems (records (sys_buffer s')) = elems (records (sys_buffer s)) /\ (r = Ok tt -> target <= flushed_count (sys_buffer s'))
  end.

Lemma flushed_first s s1 target o :
  step s s1 -> elems (records (sys_buffer s1)) = elems (records (sys_buffer s)) -> flushed_to s1 target o -> flushed_to s target o.
Proof.
  intros Hs Hr. destruct o as [| |t r]; cbn; [|done|].
  - intros (s' & H1 & H2). exists s'. split; [by eapply rtc_l|done].
  - intros (s' & H1 & H2 & H3 & H4). exists s'. split_and!; [by eapply rtc_l|done|congruence|done].
Qed.

Lemma flushed_here s target r : (r = Ok tt -> target <= flushed_count (sys_buffer s)) -> flushed_to s target (Done (sys_buffer s, sys_world s) r).
Proof. intros H. by exists s. Qed.

Lemma begin_step s t a :
  begin_group_flush sha256 pid try_reserve_exact chunk (sys_buffer s, sys_world s) = Done t a ->
  step s (with_job (moved s t) (match a with Ok (Job job) => Some job | _ => sys_job s end)).
Proof. intros E. exists OpBegin. split; [done|]. cbn. unfold call. by rewrite E. Qed.

Lemma flush_loop_runs fuel answers target s :
  sys_inv s -> len (sys_buffer s) - flushed_count (sys_buffer s) < Z.of_nat fuel -> target <= len (sys_buffer s) ->
  flushed_to s target (flush_loop sha256 pid try_reserve_exact chunk fuel answers target (sys_buffer s, sys_world s)).
Proof.
  revert answers s. induction fuel as [|fuel IH]; intros answers s Hs Hfuel Ht; cbn [flush_loop].
  { pose proof (mi_frontier _ _ _ (bi_memory _ _ _ _ _ _ (si_buffer _ Hs))) as [H1 H2]. cbn in *. lia. }
  assert (forall answers s1, sys_inv s1 -> elems (records (sys_buffer s1)) = elems (records (sys_buffer s)) ->
    flushed_count (sys_buffer s) < flushed_count (sys_buffer s1) ->
    flushed_to s1 target ((let! b := buffer in if target <=? flushed_count b then prune_durable_typed_exact_wire_records
      else flush_loop sha256 pid try_reserve_exact chunk fuel answers target) (sys_buffer s1, sys_world s1))) as Hsettle.
  { intros answers1 s1 H1 Hr Hp. unfold buffer, bind, get, ret. cbn [fst].
    assert (len (sys_buffer s1) = len (sys_buffer s)) as Hl by (unfold len; by rewrite Hr). destruct (Z.leb_spec target (flushed_count (sys_buffer s1))).
    - rewrite (prune_same _ _ _ _ (bi_memory _ _ _ _ _ _ (si_buffer _ H1))). by apply flushed_here.
    - apply IH; [done|lia|lia]. }
  unfold bind at 1. destruct (refused OpBegin s) eqn:Hre.
  { erewrite overtaken_panics by (apply Hs || done). by exists s. }
  pose proof (begin_group_flush_spec sha256 pid try_reserve_exact chunk seg Hpaths Hchunk _ _ _ _ _ (si_buffer _ Hs) Hre) as Hb.
  unfold wp in Hb. destruct (begin_group_flush _ _ _ _ _) as [| |[b1 w1] a] eqn:E; [done|done|].
  pose proof (begin_step s (b1, w1) a E) as Hstep. destruct (step_refines _ _ Hs Hstep) as [Hs1 _]. destruct (sys_job s) as [job|].
  { destruct Hb as (Hi1 & Hsim & _ & Hno). eapply flushed_first; [exact Hstep|apply Hsim|].
    destruct a as [[k|n|]|e]; [by destruct (Hno k)|by destruct (proj2 (Hno job) n)| |by apply flushed_here].
    unfold buffer, bind, get, ret. cbn [fst snd]. pose proof (bi_core _ _ _ _ _ _ Hi1) as Hc. cbn [fst] in Hc. by destruct (durable b1). }
  destruct Hb as [Br Bi Bc Bf _ _ _]. cbn [fst snd] in *. eapply flushed_first; [exact Hstep|cbn; by rewrite Br|].
  destruct a as [[job|n|]|e].
  - destruct answers as [|[writes syncs] answers]; [done|]. unfold bind at 1.
    pose proof (commit_spec _ _ _ _ _ _ writes syncs Bi) as Hcm. unfold wp in Hcm.
    destruct (commit writes syncs job (b1, w1)) as [| |[b2 w2] a] eqn:Ec; [done|done|]. destruct Hcm as [Ci Cr _ _ _ Cres]. cbn [fst snd] in *.
    eapply (flushed_first _ (mkSystem b2 w2 None (sys_held s) (sys_covered s))).
    { exists (OpCommit writes syncs). split; [done|]. cbn. unfold call. cbn. by rewrite Ec. }
    { cbn. by rewrite Cr. }
    destruct a as [k|e]; [|by apply flushed_here]. destruct Cres as [_ Hf]. apply Hsettle; cbn; [by constructor; [|apply Hs]|congruence|].
    pose proof (bi_core _ _ _ _ _ _ Bi) as Hco. unfold flushed_count in Bf at 2. destruct (durable b1) as [c|]; [|done].
    destruct Hco as (_ & _ & _ & []). lia.
  - destruct (Bc n eq_refl) as [Hn Hor]. destruct (Z.leb_spec target n).
    + rewrite (prune_same _ _ _ _ (bi_memory _ _ _ _ _ _ Bi)). apply flushed_here. cbn. lia.
    + apply (Hsettle answers _ Hs1); [cbn; by rewrite Br|]. cbn. destruct Hor; lia.
  - unfold buffer, bind, get, ret. cbn [fst snd]. destruct (durable b1); [done|]. by apply flushed_here.
  - by apply flushed_here.
Qed.

(** [flush_all] is a run of begins and commits. *)
Lemma flush_all_runs answers s :
  sys_inv s ->
  flushed_to s (len (sys_buffer s)) (flush_all sha256 pid try_reserve_exact chunk answers (sys_buffer s, sys_world s)).
Proof.
  intros Hs. unfold flush_all, require_no_unclaimed_typed_exact_tail. unfold bind at 1.
  rewrite (prune_same _ _ _ _ (bi_memory _ _ _ _ _ _ (si_buffer _ Hs))). unfold buffer, bind, get, ret. cbn [fst].
  destruct (negb _); [by apply flushed_here|]. pose proof (mi_frontier _ _ _ (bi_memory _ _ _ _ _ _ (si_buffer _ Hs))) as [? _].
  apply flush_loop_runs; [done|unfold len, vec_len in *; cbn [fst]; lia|done].
Qed.

End system.

End WalSystem.
