(* ===== verification/WalCrash.v ===== *)
(** * Buffers over a fresh or a recovered segment

    The constructors establish the invariant; a buffer over a recovered segment has cut the torn
    tail and holds the recovered records as durable. *)

From stdpp Require Import base gmap strings list pretty sorting.
From S2P Require Import Prelude Types LocalRepl Bytes Text Paths WalSegment WalProps Sidecar Codec Canonical Envelope EnvelopeExact Effects Disk Identity WalCore WalGroup WalScatter WalBuffer DiskFacts WalDurability WalInvariant WalFormation WalFlush WalBegin WalReserve WalSystem.

Module WalRecovered.
Import Paths Disk Effects WalCore WalGroup WalScatter DiskFacts WalDurability WalBuffer WalInvariant WalFormation WalFlush WalBegin WalAppend WalReserve.

(** ** Fresh buffers *)

Lemma initial_memory b :
  Forall WalProps.record_ok (logical_records b) -> flushed_count b = len b -> wires b = [] ->
  typed_exact_tentative_count b = 0 -> prepared_group_arena b = arena_default -> memory_inv b None [].
Proof.
  intros Hr Hf Hw Ht Ha. pose proof (vec_len_nonneg (elems (records b))) as Hn. fold (len b) in Hn.
  constructor; unfold wire_credits; rewrite ?Hw, ?Ha; cbn [frontier]; try done; try (constructor; done); try lia.
  intros k. split; [|by intros (? & _ & ?)]. cbn. destruct k as [|[|k]]; done.
Qed.

Lemma default_inv seg cov owner w : buffer_inv seg cov None [] (buffer_default owner) w.
Proof. constructor; [by apply initial_memory|done|done]. Qed.

Lemma fresh_inv seg cov owner w : buffer_inv seg cov None [] (with_durable_segment owner seg) w.
Proof. constructor; [by apply initial_memory|done|]. split_and!; try done. by apply idle_inv. Qed.

(** ** What recovery found *)

Lemma recovery_image path tail d rec :
  Wal.recover_wal_segment path tail (Some d) = Ok rec ->
  (Wal.records rec = [] /\ Wal.valid_bytes rec = 0) \/
  (Wal.valid_bytes rec = vec_len (Wal.segment_bytes (Wal.records rec)) /\
   take (length (Wal.segment_bytes (Wal.records rec))) d = Wal.segment_bytes (Wal.records rec) /\
   Forall (fun r => is_u64 (Wal.txn_id r) /\ vec_len (Wal.payload r) <= vec_len d) (Wal.records rec)).
Proof.
  intros Hrec. destruct (decide (take (length Wal.WAL_SEGMENT_MAGIC) d = Wal.WAL_SEGMENT_MAGIC)) as [Hm|Hm].
  - right. rewrite <- (take_drop (length Wal.WAL_SEGMENT_MAGIC) d), Hm in Hrec |- *.
    set (rest := drop _ d) in *. pose proof (WalProps.recover_segment_spec path tail rest) as Hspec.
    pose proof (WalProps.valid_prefix_split rest) as Hsplit. destruct (WalProps.valid_prefix rest) as [rs junk].
    destruct Hsplit as (Hrest & Hok & _). cbv zeta in Hspec. destruct (_ <? tail); [destruct Hspec as [e He]; congruence|].
    rewrite Hspec in Hrec. injection Hrec as <-. cbn [Wal.records]. split_and!; [done| |].
    + rewrite Hrest. unfold Wal.segment_bytes. rewrite app_assoc. apply take_app_length.
    + eapply Forall_impl; [exact Hok|]. intros r [? ?]. rewrite vec_len_app. split; [done|].
      pose proof (vec_len_nonneg Wal.WAL_SEGMENT_MAGIC). lia.
  - left. unfold Wal.recover_wal_segment in Hrec. destruct (_ <? _).
    + case_bool_decide; [|done]. destruct (0 <? tail); [done|]. by injection Hrec as <-.
    + rewrite bool_decide_eq_false_2 in Hrec by done. done.
Qed.

(** ** Reopening *)

Lemma wp_set_len p n w i (Q : World -> result unit string -> Prop) :
  names w !! p = Some i ->
  (forall w' r i', touched p i' w w' -> (i' = i \/ i' = mkInode (resize (data i) n) (Z.min (synced i) n)) ->
     (is_ok r = true -> i' = mkInode (resize (data i) n) (Z.min (synced i) n)) -> Q w' r) ->
  wp (set_len p n) Q w.
Proof.
  intros Hi HQ. unfold set_len, fallible, next_fault, wp, bind, get. destruct (faults w) as [|[f|] fs]; cbn; rewrite ?Hi; cbn.
  - eapply (HQ _ _ (mkInode (resize (data i) n) (Z.min (synced i) n))); [split; done|by right|done].
  - apply (HQ _ _ i); [|by left|done]. split; [by rewrite insert_id|done].
  - eapply (HQ _ _ (mkInode (resize (data i) n) (Z.min (synced i) n))); [split; done|by right|done].
Qed.

Section reopen.
Context (sha256 : list byte -> list byte) (pid : Z) (try_reserve_exact : Z -> bool) (chunk : Z).
Context (seg : Path) (Hpaths : own_paths pid seg) (recovery : Wal.WalSegmentRecovery) (w : World) (i : Inode).
Context (Hfile : names w !! seg = Some i) (Hname : unsynced_names w !! seg = None).
Context (Hvalid : Wal.valid_bytes recovery = vec_len (Wal.segment_bytes (Wal.records recovery))).
Context (Hdata : take (length (Wal.segment_bytes (Wal.records recovery))) (data i) = Wal.segment_bytes (Wal.records recovery)).
Context (Hsynced : 0 <= synced i <= vec_len (data i)).

Abbreviation durable := (Wal.segment_bytes (Wal.records recovery)).

Lemma resized : resize (data i) (vec_len durable) = durable.
Proof.
  assert (length durable <= length (data i))%nat by (rewrite <- Hdata, length_take; lia).
  unfold resize, vec_len. rewrite Nat2Z.id, Hdata. replace (length durable - length (data i))%nat with 0%nat by lia. apply app_nil_r.
Qed.

(** The core over the reopened segment, before its counters are set. *)
Definition reopened (t : WalDurableCore * World) : Prop :=
  let c := t.1 in
  segment_path c = seg /\ file (state c) = Some seg /\ io_in_flight (state c) = false /\
  durable_bytes (state c) = vec_len durable /\ durable_bytes (state c) <= prealloc_bytes (state c) /\
  unsynced_names t.2 !! seg = None /\
  exists i', names t.2 !! seg = Some i' /\ take (length durable) (data i') = durable /\
    vec_len durable <= synced i' <= vec_len (data i') /\ prealloc_bytes (state c) <= vec_len (data i').

Lemma reopen_spec :
  wp (reopen_segment pid chunk recovery) (fun t r => segment_path t.1 = seg /\ (is_ok r = true -> reopened t)) (fresh seg, w).
Proof.
  assert (10 <= vec_len durable) as H10 by (rewrite WalProps.segment_bytes_len; pose proof (vec_len_nonneg (Wal.encode_records (Wal.records recovery))); lia).
  unfold reopen_segment. rewrite Hvalid, (proj2 (Z.ltb_lt _ _)) by lia.
  unfold get_path. apply wp_bind, wp_bind, wp_get, wp_ret. cbn [fst fresh segment_path].
  apply wp_bind, wp_zoom, wp_map_err. unfold open. apply wp_bind. cbn [snd]. apply (wp_fallible_touch seg _ _ _ Hfile).
  intros w1 [[]|e] Ht1 Hn1; [|by split]. apply wp_bind, wp_get. rewrite Hn1, Hfile. apply wp_ret.
  set (prealloc := Z.max _ _). assert (vec_len durable <= prealloc) as Hpre by (unfold prealloc; lia).
  apply wp_bind, wp_zoom, wp_map_err. cbn [snd fst]. apply wp_bind. eapply wp_set_len; [by rewrite Hn1|].
  intros w2 r i2 Ht2 _ Hok2. destruct r as [[]|e]; [|by split]. specialize (Hok2 eq_refl). rewrite resized in Hok2.
  apply wp_bind. eapply wp_sync; [by eapply touched_lookup|]. intros w3 r i3 Ht3 Hd3 _ Hs3. destruct r as [[]|e]; [|by split].
  specialize (Hs3 eq_refl). rewrite Hok2 in Hd3, Hs3. cbn [data] in Hd3, Hs3.
  eapply wp_mono; [apply (zero_fill_extend_spec seg (vec_len durable) prealloc w3 i3); [by eapply touched_lookup|rewrite ?Hd3, ?Hs3; lia..]|].
  intros w4 r (i4 & Ht4 & Hk4 & Hs4 & Hok4). destruct r as [[]|e]; [|by split]. destruct (Hok4 eq_refl) as [Hto _].
  apply wp_bind, wp_modify. cbn [fst snd]. set (c' := set_state _ _).
  eapply wp_mono; [by apply (record_tail_spec pid seg Hpaths c' w4)|]. intros [c5 w5] r ([Hn Hu] & Hum & Hf & Hp & Hdb). cbn [fst snd] in *.
  destruct Hum as [Up _ _ _ Ui _ _]. split; [done|intros _]. unfold reopened. cbn [fst snd]. rewrite Up, Hf, Ui, Hdb, Hp. cbn -[vec_len Wal.segment_bytes].
  assert (unsynced_names w4 !! seg = None) as Hu4. { destruct Ht4 as [_ ->], Ht3 as [_ ->], Ht2 as [_ ->], Ht1 as [_ ->]. done. }
  split_and!; try done; [destruct Hu as [->| ->]; done|]. exists i4. rewrite Hn. destruct Hk4 as (K1 & K2 & K3).
  split_and!; [by eapply touched_lookup| |lia|lia|done].
  rewrite Hd3 in K1. unfold vec_len in K1. rewrite Nat2Z.id in K1. by rewrite K1, take_ge.
Qed.

End reopen.

Section recovered.
Context (sha256 : list byte -> list byte) (pid : Z) (try_reserve_exact : Z -> bool) (chunk : Z).
Context (seg : Path) (Hpaths : own_paths pid seg) (recovery : Wal.WalSegmentRecovery).

(** [recovery] is what recovery finds in the file of [w] under a certain name. *)
Definition found (path : string) (tail : Z) (w : World) : Prop :=
  unsynced_names w !! seg = None /\
  Wal.recover_wal_segment path tail (data <$> names w !! seg) = Ok recovery /\
  forall i, names w !! seg = Some i -> 0 <= synced i <= vec_len (data i).

Lemma drop_core_spec t : segment_path t.1 = seg -> wp (drop_core pid) (fun t' _ => frame seg t.2 t'.2) t.
Proof.
  destruct t as [c w]. cbn [fst snd]. intros Hseg. unfold drop_core, get_state, get_path. apply wp_bind, wp_bind, wp_get, wp_ret. cbn [fst].
  destruct (_ =? _); [apply wp_ret; reflexivity|]. apply wp_bind, wp_bind, wp_get, wp_ret. cbn [fst]. rewrite Hseg.
  apply wp_bind, wp_attempt, wp_zoom. eapply wp_mono; [by apply frames_tail|]. intros w' r Hf. by apply wp_ret.
Qed.

Lemma frame_found path tail w w' : found path tail w -> frame seg w w' -> found path tail w'.
Proof. intros (Hu & Hr & Hs) [Hn Hu']. split_and!; [destruct Hu' as [->| ->]; done|by rewrite Hn|by rewrite Hn]. Qed.

(** The core of a buffer whose last records were recovered. *)
Lemma recovered_core_spec path tail w recs base :
  found path tail w -> 0 <= base -> vec_len recs = base + vec_len (Wal.records recovery) ->
  sub recs base (vec_len recs) = Wal.records recovery ->
  wp (recovered_core pid chunk seg base (vec_len recs) recovery) (fun w' r => forall c, r = Ok c ->
    flushed_records (state c) = vec_len recs /\ forall cov, core_inv seg c recs cov w' None) w.
Proof.
  intros (Hu & Hrec & Hsy) Hb Hlen Hsub.
  assert (wp (reopen_segment pid chunk recovery ;; put_state (fun s => set_flushed_records (set_segment_base_records s base) (vec_len recs)))
    (fun t r => segment_path t.1 = seg /\ (is_ok r = true -> flushed_records (state t.1) = vec_len recs /\ forall cov, core_inv seg t.1 recs cov t.2 None))
    (fresh seg, w)) as Hinner.
  { assert (Wal.records recovery = [] -> Wal.valid_bytes recovery = 0 -> wp (reopen_segment pid chunk recovery ;;
      put_state (fun s => set_flushed_records (set_segment_base_records s base) (vec_len recs)))
      (fun t r => segment_path t.1 = seg /\ (is_ok r = true -> flushed_records (state t.1) = vec_len recs /\ forall cov, core_inv seg t.1 recs cov t.2 None))
      (fresh seg, w)) as Hempty.
    { intros Hr0 Hv0. apply wp_bind. unfold reopen_segment. rewrite Hv0. apply wp_ret, wp_modify. split; [done|]. intros _. split; [done|].
      intros cov. split_and!; try done. rewrite Hr0 in Hlen. change (vec_len []) with 0 in Hlen. apply idle_inv; cbn; done || lia. }
    destruct (names w !! seg) as [i|] eqn:Hi.
    - destruct (recovery_image _ _ _ _ Hrec) as [[Hr0 Hv0]|(Hv & Hd & _)]; [by apply Hempty|].
      apply wp_bind. eapply wp_mono; [apply (reopen_spec pid chunk seg Hpaths recovery w i); solve [done|by apply Hsy]|].
      intros [c w1] r [Hs Hre]. destruct r as [[]|e]; [|by split]. destruct (Hre eq_refl) as (R1 & R2 & R3 & R4 & R5 & R6 & i' & R7 & R8 & R9 & R10).
      apply wp_modify. split; [done|]. intros _. split; [done|]. intros cov. cbn [fst snd] in *. split_and!; [done| |done].
      constructor; cbn; [pose proof (vec_len_nonneg (Wal.records recovery)); lia|lia|]. left.
      constructor; cbn -[vec_len Wal.segment_bytes]; rewrite ?R1, ?Hsub; try done. exists i'. split_and!; try done.
      unfold image. by rewrite Hsub.
    - cbn in Hrec. destruct (0 <? tail); [done|]. injection Hrec as <-. by apply Hempty. }
  unfold wp, recovered_core in *.
  match type of Hinner with match ?m with _ => _ end => destruct m as [| |[c w1] [[]|e]]; [done|done| |] end.
  - intros c' [= <-]. by apply Hinner.
  - destruct Hinner as [Hs _]. pose proof (drop_core_spec (c, w1) Hs) as Hdrop. unfold wp in Hdrop. by destruct (drop_core pid (c, w1)) as [| |[c2 w2] r2].
Qed.

Lemma recovered_spec path tail owner records binding w :
  found path tail w -> Forall WalProps.record_ok (erase <$> elems records) ->
  validate_recovered_segment_history (erase <$> elems records) recovery = Ok tt ->
  0 <= verified_records binding <= vec_len (elems records) ->
  wp (with_recovered_durable_segment_with_binding pid chunk owner seg records recovery binding) (fun w' r =>
    forall b, r = Ok b -> WalBuffer.records b = records /\ flushed_count b = len b /\ forall cov, buffer_inv seg cov None [] b w') w.
Proof.
  intros Hf Hok Hval Hv. unfold with_recovered_durable_segment_with_binding. apply wp_bind.
  set (recs := erase <$> elems records) in *. assert (vec_len (elems records) = vec_len recs) as Hl by (unfold recs, vec_len; by rewrite length_fmap).
  unfold validate_recovered_segment_history in Hval. destruct (_ || _) eqn:Hbad; [done|]. apply orb_false_iff in Hbad as [H1 H2].
  apply Z.ltb_ge in H1. apply negb_false_iff, bool_decide_eq_true in H2. rewrite Hl.
  eapply wp_mono; [eapply (recovered_core_spec path tail w recs); [done|lia|lia|]|].
  - unfold sub. replace (Z.to_nat (_ - vec_len (Wal.records recovery))) with (length recs - length (Wal.records recovery))%nat by (unfold vec_len; lia).
    rewrite H2. apply take_ge. unfold vec_len in *. lia.
  - intros w' [c|e] Hc; [|done]. apply wp_ret. intros b [= <-]. destruct (Hc c eq_refl) as [Hfl Hci].
    split_and!; [done|by transitivity (vec_len recs)|]. intros cov. constructor; [|done|exact (Hci cov)].
    apply initial_memory; try done. by transitivity (vec_len recs).
Qed.

End recovered.

End WalRecovered.

(** * Crashes and restarts

    What a crash leaves of the segment in any state the buffer can reach, also in the middle of a
    group's I/O: every acknowledged record of the segment is recovered, and a buffer rebuilt from
    the recovery starts from a state with the invariant. *)

Module WalCrash.
Import Paths Disk Effects Identity WalCore WalGroup WalScatter DiskFacts WalDurability WalBuffer WalInvariant WalFormation WalFlush WalBegin WalAppend WalReserve WalRecovered WalSystem.

(** The disk at the moment of a crash: between operations, or after any number of the answers
    that a group's write and sync get. *)
Definition at_crash (s : System) (w : World) : Prop :=
  w = sys_world s \/
  exists job writes syncs, sys_job s = Some job /\ w = (job_io writes syncs job (sys_world s)).1.

(** The disk after a restart shows [fs]. *)
Record rebooted (fs : Fs) (w : World) : Prop := mkRebooted {
  rb_visible : visible w = fs;
  rb_names : unsynced_names w = ∅;
  rb_synced : forall p i, names w !! p = Some i -> 0 <= synced i <= vec_len (data i);
}.

Definition initial (seg : Path) (s : System) : Prop :=
  exists owner, sys_buffer s = with_durable_segment owner seg /\ sys_job s = None /\ sys_held s = [].

Lemma initial_inv seg s : initial seg s -> sys_inv seg s.
Proof.
  destruct s as [b w j rs cov]. intros (owner & Hb & Hj & Hr). cbn in *. subst. constructor; [apply fresh_inv|constructor].
Qed.

(** What is visible may be what a crash leaves. *)
Lemma crash_visible w : crash w (visible w).
Proof.
  intros p. exists (names w !! p). split; [by left|]. unfold visible. rewrite lookup_fmap. by destruct (names w !! p).
Qed.

(** ** The acknowledged prefix *)

Lemma log_step_stable a a' :
  log_step a a' -> 0 <= acknowledged a <= vec_len (history a) ->
  acknowledged a <= acknowledged a' /\
  take (Z.to_nat (acknowledged a)) (history a') = take (Z.to_nat (acknowledged a)) (history a).
Proof.
  intros Hs Hb. destruct Hs as [a|h n r|h n k Hk|h n n' Hn]; cbn in *; (split; [lia|]); try done.
  - rewrite take_app_le; [done|]. unfold vec_len in Hb. lia.
  - rewrite take_take. f_equal. lia.
Qed.

Section crash.
Context {alloc : VecAlloc}.
Context (sha256 : list byte -> list byte) (pid : Z) (try_reserve_exact : Z -> bool) (chunk : Z).
Context (seg : Path) (Hpaths : own_paths pid seg) (Hchunk : 10 <= chunk).

Abbreviation run := (rtc (step sha256 pid try_reserve_exact chunk)).

Lemma log_bounds s : sys_inv seg s -> 0 <= acknowledged (log s) <= vec_len (history (log s)).
Proof.
  intros [Hi _]. pose proof (mi_frontier _ _ _ (bi_memory _ _ _ _ _ _ Hi)) as [? ?]. unfold log. cbn.
  unfold len in *. unfold logical_records, vec_len in *. rewrite length_fmap. lia.
Qed.

Lemma run_stable s s' : run s s' -> sys_inv seg s ->
  acknowledged (log s) <= acknowledged (log s') /\
  take (Z.to_nat (acknowledged (log s))) (history (log s')) = take (Z.to_nat (acknowledged (log s))) (history (log s)).
Proof.
  induction 1 as [|s s1 s2 Hs _ IH]; [done|]. intros Hi. destruct (step_refines _ _ _ _ seg Hpaths Hchunk s s1 Hi Hs) as [Hi1 Hl].
  destruct (log_step_stable _ _ Hl (log_bounds _ Hi)) as [Ha Ht]. destruct (IH Hi1) as [Ha1 Ht1]. split; [lia|].
  rewrite <- Ht. apply (f_equal (take (Z.to_nat (acknowledged (log s))))) in Ht1. rewrite !take_take in Ht1.
  by rewrite !Nat.min_l in Ht1 by lia.
Qed.

Lemma crash_inv s w : sys_inv seg s -> at_crash s w ->
  buffer_inv seg (sys_covered s) (sys_job s) (held_credits (sys_held s)) (sys_buffer s) w.
Proof.
  intros [Hi _] [->|(job & writes & syncs & Hj & ->)]; [done|]. rewrite Hj in Hi |- *.
  pose proof (bi_core _ _ _ _ _ _ Hi) as Hc. destruct (durable (sys_buffer s)) as [c|] eqn:Hd; [|done].
  pose proof (in_flight_open _ _ _ _ _ _ Hc) as Ho. destruct Hc as (_ & Hdi & _ & Hjob).
  destruct (job_io_spec c _ job (di_bounds _ _ _ _ Hdi) Hjob writes syncs _ Ho) as (w' & r & -> & Hm & _).
  by eapply mid_io_inv.
Qed.

(** The segment is open, or holds acknowledged records. *)
Definition backed (c : WalDurableCore) : Prop :=
  file (state c) <> None \/ segment_base_records (state c) < flushed_records (state c).

(** What a crash leaves. *)
Lemma crash_survives s w c fs :
  sys_inv seg s -> at_crash s w -> durable (sys_buffer s) = Some c -> crash w fs -> backed c ->
  exists i d b, fs !! seg = Some d /\ survives (Some i) (Some d) /\
    segment_base_records (state c) <= b <= Z.max (segment_base_records (state c)) (sys_covered s) /\ b <= flushed_records (state c) /\
    (poisoned (state c) = None -> b = segment_base_records (state c)) /\
    image (history (log s)) b (flushed_records (state c)) i.
Proof.
  intros Hs Hw Hd Hcr Hlt. pose proof (bi_core _ _ _ _ _ _ (crash_inv s w Hs Hw)) as Hc. rewrite Hd in Hc.
  destruct Hc as (Hseg & [Hb Hf Ho] & _). destruct (Hcr seg) as (v & Hv & Hsv).
  destruct Ho as [[_ Hn (i & Hi & Him & _) _ _]|(Hfile & _ & [Heq|[Hp Hg]])]; [| |].
  - rewrite Hseg in *. unfold versions in Hv. rewrite Hn, Hi in Hv. apply list_elem_of_singleton in Hv as ->.
    destruct (fs !! seg) as [d|] eqn:Hfs; [|done]. exists i, d, (segment_base_records (state c)). split_and!; done || lia.
  - destruct Hlt; [done|lia].
  - rewrite Hseg in Hg. destruct (Hg v Hv) as (i & b & -> & Hb1 & Hb2 & Him). destruct (fs !! seg) as [d|] eqn:Hfs; [|done].
    exists i, d, b. split_and!; try done || lia.
Qed.

Lemma sub_ok recs a z : Forall WalProps.record_ok recs -> Forall WalProps.record_ok (sub recs a z).
Proof. intros H. by apply Forall_take, Forall_drop. Qed.

Lemma history_ok s : sys_inv seg s -> Forall WalProps.record_ok (history (log s)).
Proof. intros [Hi _]. apply (mi_records _ _ _ (bi_memory _ _ _ _ _ _ Hi)). Qed.

(** ** Restart *)

Lemma recovered_records_ok path tail d recovery :
  Wal.recover_wal_segment path tail (Some d) = Ok recovery -> vec_len d <= isize_max ->
  Forall WalProps.record_ok (Wal.records recovery).
Proof.
  intros Hrec Hd. destruct (recovery_image _ _ _ _ Hrec) as [[-> _]|(_ & _ & Hok)]; [constructor|].
  eapply Forall_impl; [exact Hok|]. intros r [? ?]. split; [done|lia].
Qed.

Lemma recovered_history_spec records w :
  wp (for_recovered_history sha256 try_reserve_exact seg records) (fun w' r => frame seg w w' /\
    forall binding, r = Ok binding -> verified_records binding = vec_len records) w.
Proof.
  unfold for_recovered_history. apply wp_bind, wp_of_result. destruct (Identity.identity_through _ _ _ _) as [[id|]|e].
  - apply wp_bind. eapply wp_mono; [by apply (frames_require_identity sha256 pid seg Hpaths)|].
    intros w' [[]|e] Hf; [|done]. apply wp_ret. split; [done|]. by intros binding [= <-].
  - apply wp_ret. split; [done|]. by intros binding [= <-].
  - done.
Qed.

Lemma rebuilt_spec path tail owner (records : Vec SharedRecord) recovery fs d w :
  rebooted fs w -> fs !! seg = Some d -> vec_len d <= isize_max ->
  Wal.recover_wal_segment path tail (Some d) = Ok recovery ->
  forall older, erase <$> elems records = older ++ Wal.records recovery -> Forall WalProps.record_ok older ->
  wp (with_recovered_durable_segment sha256 pid try_reserve_exact chunk owner seg records recovery) (fun w' r =>
    forall b, r = Ok b -> sys_inv seg (mkSystem b w' None [] 0) /\
      log (mkSystem b w' None [] 0) = mkLog (older ++ Wal.records recovery) (vec_len (older ++ Wal.records recovery))) w.
Proof.
  intros [Hv Hn Hsy] Hd Hmax Hrec older Hrs Hold. unfold with_recovered_durable_segment. rewrite Hrs.
  assert (validate_recovered_segment_history (older ++ Wal.records recovery) recovery = Ok tt) as Hval.
  { unfold validate_recovered_segment_history. rewrite (proj2 (Z.ltb_ge _ _)) by (rewrite vec_len_app; pose proof (vec_len_nonneg older); lia).
    rewrite length_app, Nat.add_sub, drop_app_length, bool_decide_eq_true_2 by done. done. }
  apply wp_bind, wp_of_result. rewrite Hval. apply wp_bind. eapply wp_mono; [apply recovered_history_spec|].
  intros w1 [binding|e] [Hf Hb]; [|done]. specialize (Hb binding eq_refl).
  assert (found seg recovery path tail w) as Hfound.
  { split_and!; [by rewrite Hn| |by apply Hsy]. rewrite <- lookup_fmap. change (data <$> names w) with (visible w). by rewrite Hv, Hd. }
  assert (vec_len (elems records) = vec_len (older ++ Wal.records recovery)) as Hl by (rewrite <- Hrs; unfold vec_len; by rewrite length_fmap).
  eapply wp_mono; [eapply (recovered_spec pid chunk seg Hpaths recovery path tail); [by eapply frame_found| | |]|].
  - rewrite Hrs. apply Forall_app. split; [done|]. by eapply recovered_records_ok.
  - by rewrite Hrs.
  - rewrite Hb, Hl. split; [apply vec_len_nonneg|done].
  - intros w2 r Hr b ->. destruct (Hr b eq_refl) as (Hrec' & Hfl & Hi). split; [constructor; [apply Hi|constructor]|].
    unfold log, logical_records. cbn [sys_buffer]. rewrite Hrec', Hfl, Hrs. f_equal. unfold len. by rewrite Hrec'.
Qed.

(** Crash, recovery and restart: the history rebuilt on the records before the segment starts with
    every acknowledged record. *)
Lemma restart_spec s w c fs w0 path owner :
  sys_inv seg s -> at_crash s w -> durable (sys_buffer s) = Some c -> crash w fs ->
  backed c ->
  rebooted fs w0 -> (forall d, fs !! seg = Some d -> vec_len d <= isize_max) ->
  exists b, segment_base_records (state c) <= b <= Z.max (segment_base_records (state c)) (sys_covered s) /\
    (poisoned (state c) = None -> b = segment_base_records (state c)) /\
    let older := take (Z.to_nat b) (history (log s)) in
    forall tail, tail <= vec_len (Wal.segment_bytes (sub (history (log s)) b (flushed_records (state c)))) ->
    exists recovery more, Wal.recover_wal_segment path tail (fs !! seg) = Ok recovery /\
      older ++ Wal.records recovery = take (Z.to_nat (acknowledged (log s))) (history (log s)) ++ more /\
      forall records, erase <$> elems records = older ++ Wal.records recovery ->
      wp (with_recovered_durable_segment sha256 pid try_reserve_exact chunk owner seg records recovery) (fun w' r =>
        forall b', r = Ok b' -> sys_inv seg (mkSystem b' w' None [] 0) /\
          log (mkSystem b' w' None [] 0) = mkLog (older ++ Wal.records recovery) (vec_len (older ++ Wal.records recovery))) w0.
Proof.
  intros Hs Hw Hd Hcr Hlt Hrb Hmax. destruct (crash_survives s w c fs Hs Hw Hd Hcr Hlt) as (i & d & b & Hfs & Hsv & Hb & Hbf & Hp & Him).
  exists b. split_and!; [lia|lia|done|]. intros older tail Htail. pose proof (history_ok s Hs) as Hok.
  destruct (image_recovers _ _ _ _ d (sub_ok _ b _ Hok) Him Hsv) as [more Hmore].
  destruct (recovers_within d _ path tail Hmore) as (recovery & Hrec & Hrs); [etrans; [exact Htail|apply segment_bytes_grow]|].
  exists recovery, more. rewrite Hfs. split; [exact Hrec|].
  assert (acknowledged (log s) = flushed_records (state c)) as Hack by (unfold log, flushed_count; cbn; by rewrite Hd).
  pose proof (log_bounds s Hs) as Hbd. rewrite Hack in Hbd |- *.
  assert (0 <= segment_base_records (state c)) as H0.
  { pose proof (bi_core _ _ _ _ _ _ (si_buffer _ _ Hs)) as Hc. rewrite Hd in Hc. destruct Hc as (_ & [? _ _] & _). lia. }
  split.
  - rewrite Hrs, app_assoc. f_equal. unfold older, sub. rewrite <- (take_drop (Z.to_nat b) (history (log s))) at 3.
    rewrite take_app. unfold vec_len in Hbd. rewrite (take_ge (take _ _)), length_take by (rewrite length_take; lia). f_equal. f_equal. lia.
  - intros records Hrecs. eapply (rebuilt_spec path tail owner records recovery fs d); try done; [by apply Hmax|].
    apply Forall_take. done.
Qed.

End crash.

End WalCrash.
