(* ===== verification/IdentityFacts.v ===== *)
(** * Durable identity anchors are installed whole

    The text of an anchor reads back as its identity, and installing one leaves, in whatever way it
    ends, either what was there before or the whole synced anchor under its name. *)

From stdpp Require Import base gmap strings list pretty.
From Stdlib Require Import Strings.Ascii.
From S2P Require Import Prelude Types Bytes Text Paths Effects Disk Sidecar Uuid WalSegment Codec Canonical Envelope Identity WalCore DiskFacts.

Module IdentityFacts.
Import Text Paths Sidecar SidecarFacts Disk Effects Identity DiskFacts.

#[local] Arguments String.append !_ _ : simpl nomatch.

Record identity_ok (id : Canonical.CanonicalIdentity) : Prop := mkIdentityOk {
  id_database : length (Canonical.database_id id) = 16%nat /\ Codec.all_zero (Canonical.database_id id) = false;
  id_cluster : length (Canonical.cluster_id id) = 16%nat /\ Codec.all_zero (Canonical.cluster_id id) = false;
  id_timeline : length (Canonical.timeline_id id) = 16%nat /\ Codec.all_zero (Canonical.timeline_id id) = false;
  id_epoch : is_u64 (Canonical.format_epoch id) /\ Canonical.format_epoch id <> 0;
}.

(** ** Text *)

Lemma clean_hex l : clean_line (hex l).
Proof. split; apply (contains_char_all _ is_ascii_hexdigit); done || apply hex_digits. Qed.

Lemma decode_pairs_hex l : Uuid.decode_pairs (as_bytes (hex l)) = Some l.
Proof.
  induction l as [|b l IH]; [done|]. change (hex (b :: l)) with (hex_byte b +:+ hex l). rewrite as_bytes_app.
  destruct (Uuid.hex_byte_chars b) as [E _]. rewrite E.
  change (as_bytes (String (Uuid.hi_char b) (String (Uuid.lo_char b) EmptyString)) ++ as_bytes (hex l))
    with (byte_of_ascii (Uuid.hi_char b) :: byte_of_ascii (Uuid.lo_char b) :: as_bytes (hex l)).
  by rewrite Uuid.decode_hex_byte, IH.
Qed.

Lemma decode_encode_id id path : length id = 16%nat -> decode_id (encode_id id) path = Ok id.
Proof.
  intros Hl. unfold decode_id, encode_id. rewrite hex_len, hex_digits, decode_pairs_hex. unfold vec_len. by rewrite Hl.
Qed.

Lemma control_value key v path : parse_control_value (Some (key +:+ "=" +:+ v)) key path = Ok v.
Proof. unfold parse_control_value. by rewrite <- string_app_assoc, strip_prefix_app. Qed.

Definition anchor_lines (id : Canonical.CanonicalIdentity) : list string :=
  [IDENTITY_MAGIC; "database_id=" +:+ encode_id (Canonical.database_id id); "cluster_id=" +:+ encode_id (Canonical.cluster_id id);
   "timeline_id=" +:+ encode_id (Canonical.timeline_id id); "format_epoch=" +:+ pretty (Canonical.format_epoch id)].

Lemma anchor_lines_clean id : identity_ok id -> Forall clean_line (anchor_lines id).
Proof.
  intros [_ _ _ [[] _]]. repeat constructor; apply clean_line_app; done || apply clean_hex || by apply clean_pretty.
Qed.

Section anchor.
Context (sha256 : list byte -> list byte) (pid : Z) (Hsha : forall l, length (sha256 l) = 32%nat).

Lemma identity_body_lines id : identity_body sha256 id = append_sha256_trailer sha256 (unlines (anchor_lines id)).
Proof.
  unfold identity_body, anchor_lines, unlines, newline. cbn [List.fold_right]. by text_norm.
Qed.

Lemma identity_text id path : identity_ok id -> parse_identity sha256 (identity_body sha256 id) path = Ok id.
Proof.
  intros Hid. pose proof (anchor_lines_clean id Hid) as Hc. rewrite identity_body_lines. unfold parse_identity.
  rewrite trailer_round_trip by (done || right; by apply unlines_last).
  rewrite bool_decide_eq_true_2.
  2: { unfold append_sha256_trailer. change (unlines (anchor_lines id)) with (IDENTITY_MAGIC +:+ String nl (unlines (tail (anchor_lines id)))).
       text_norm. by rewrite (lines_cons IDENTITY_MAGIC). }
  cbn [negb]. rewrite lines_unlines by done. destruct Hid as [[D1 D2] [C1 C2] [T1 T2] [E1 E2]].
  change (anchor_lines id !! 1%nat) with (Some ("database_id" +:+ "=" +:+ encode_id (Canonical.database_id id))).
  change (anchor_lines id !! 2%nat) with (Some ("cluster_id" +:+ "=" +:+ encode_id (Canonical.cluster_id id))).
  change (anchor_lines id !! 3%nat) with (Some ("timeline_id" +:+ "=" +:+ encode_id (Canonical.timeline_id id))).
  change (anchor_lines id !! 4%nat) with (Some ("format_epoch" +:+ "=" +:+ pretty (Canonical.format_epoch id))).
  rewrite !control_value, !decode_encode_id by done. rewrite parse_pretty by done. change (anchor_lines id !! 5%nat) with (@None string).
  rewrite D2, C2, T2, (proj2 (Z.eqb_neq _ _)) by done. by destruct id.
Qed.

Lemma utf8_body id : identity_ok id -> utf8_valid (identity_body sha256 id).
Proof.
  intros [_ _ _ [[] _]]. rewrite identity_body_lines. apply utf8_trailer, utf8_unlines.
  repeat constructor; try (by apply utf8_ascii); apply utf8_valid_app; (by apply utf8_ascii) || apply utf8_hex || by apply utf8_pretty.
Qed.

(** ** Installation *)

Context (base : Path).
Abbreviation path := (durable_identity_path base).
Abbreviation temp := (temporary_control_path pid path).
Context (Htemp : temp <> path) (Hparent : exists d, nonempty_parent path = Some d).

Definition anchor (id : Canonical.CanonicalIdentity) : Inode := whole (as_bytes (identity_body sha256 id)).

(** However the installation ends, a crash shows the old anchor or the new one; when it succeeds,
    only the new one. *)
Lemma write_identity_spec id w :
  wp (write_durable_identity sha256 pid base id) (fun w' r =>
    replaces path (anchor id) w w' /\ (is_ok r = true -> settled path (anchor id) w')) w.
Proof.
  destruct Hparent as [d Hd]. unfold write_durable_identity. apply wp_bind. rewrite Hd.
  eapply wp_mono; [apply frames_create_dirs|]. intros w1 [[]|e] Hf1; [|split; [by apply frame_replaces|done]].
  apply wp_bind, wp_attempt.
  assert (forall w' (r : result unit EngineError),
    replaces path (anchor id) w w' -> (is_ok r = true -> settled path (anchor id) w') ->
    wp (match r with Ok _ => ret tt | Err e => os Datatypes.id (remove_file temp) ;; throw e end) (fun w' r =>
      replaces path (anchor id) w w' /\ (is_ok r = true -> settled path (anchor id) w')) w') as Hend.
  { intros w' [[]|e] Hr Hv; [by apply wp_ret|]. apply wp_bind, wp_map_err. eapply wp_mono; [by apply frames_remove_file|].
    intros w2 [[]|e2] Hf; [apply wp_throw|]; split; try done; by eapply replaces_frame. }
  apply (wp_write_whole_then _ path); [done|..].
  { intros w2 e Hf. apply (Hend w2 (Err e)); [apply frame_replaces; by etrans|done]. }
  intros w2 Hf2 Hn2. apply wp_bind, wp_map_err. apply (wp_rename _ _ _ _ _ Htemp Hn2).
  intros w3 r3 Hr3 Hn3. apply (frame_then_replaces _ _ w) in Hr3; [|by etrans].
  destruct r3 as [[]|e]; [|by apply (Hend w3 (Err _))].
  apply (wp_sync_installed _ (anchor id)); [by exists d|by apply Hn3|]. intros w4 r Hf4 Hv4.
  apply (Hend w4 r); [by eapply replaces_frame|done].
Qed.

(** An anchor that is there reads back as its identity. *)
Lemma read_anchor id w :
  identity_ok id -> names w !! path = Some (anchor id) -> faults w = [] ->
  read_durable_identity sha256 base w = Done w (Ok (Some id)).
Proof.
  intros Hid Hn Hf. unfold read_durable_identity, read_string, fallible, next_fault, bind, map_err, attempt, get, of_result, ret. rewrite Hf.
  unfold read_to_string, visible. rewrite lookup_fmap, Hn. cbn [fmap option_fmap option_map].
  change (data (anchor id)) with (as_bytes (identity_body sha256 id)). rewrite from_utf8_as_bytes by (by apply utf8_body).
  by rewrite identity_text.
Qed.

End anchor.

End IdentityFacts.
