(* ===== verification/WalChecked.v ===== *)
(** * The life of an exact record, on the happy path and back

    A reservation that was just made is never refused: the tentative append goes into the reserved
    slots, a rollback gives back the buffer as it was, and a claim hands the record over. *)

From stdpp Require Import base gmap strings list pretty sorting.
From S2P Require Import Prelude Types LocalRepl Bytes Text Paths WalSegment WalProps Sidecar Codec Canonical CanonicalFacts Envelope EnvelopeFacts EnvelopeEncode EnvelopeExact EnvelopeExactFacts EnvelopeProps Effects Disk Identity WalCore WalGroup WalScatter WalBuffer DiskFacts WalDurability WalInvariant WalFormation WalFlush WalBegin WalReserve WalSystem WalCrash.

Module WalExact.
Import Disk Effects WalCore WalGroup WalBuffer WalInvariant WalFlush WalReserve.

Lemma invalidate_eq b w :
  canonical_append_reservation_generation b + 1 <= u64_max ->
  invalidate_canonical_append_reservations (b, w)
  = Done (set_generation b (canonical_append_reservation_generation b + 1), w) (Ok tt).
Proof.
  intros H. cbv beta iota zeta delta [invalidate_canonical_append_reservations bind buffer get ret expect update modify fst snd].
  by rewrite (proj2 (checked_add64_Some _ _ _)) by (split; [done|lia]).
Qed.

Lemma restored b rec tl bd wire g1 g2 :
  typed_exact_tentative_count b = 0 ->
  let b1 := set_tentative_count (set_generation (set_binding (set_catalog_tail
    (set_wires (set_records b (mkVec (elems (records b) ++ [rec]) (capacity (records b))))
      (mkVec (wires b ++ [wire]) (capacity (exact_typed_wire_records b)))) tl) bd) g1) 1 in
  set_tentative_count (set_generation (set_binding (set_catalog_tail
    (set_wires (set_records b1 (with_elems (records b1) (removelast (elems (records b1)))))
      (with_elems (exact_typed_wire_records b1) (removelast (wires b1)))) (canonical_catalog_tail b))
    (durable_identity_binding b)) g2) 0 = set_generation b g2.
Proof.
  intros H0. destruct b as [[rs rc] [ws wc] n]. cbn in *. subst n. unfold with_elems, wires. cbn [elems capacity exact_typed_wire_records].
  by rewrite !removelast_last.
Qed.

Section exact.
Context {alloc : VecAlloc}.
Context (p : Prepared) (b : WalBuffer) (r : WalTypedExactAppendReservation) (x : ExactAuthority) (w : World).
Context (Hr : issued p b r x).
Context (Hgeneration : canonical_append_reservation_generation b + 2 <= u64_max).
Context (Hlen : len b + 1 <= u64_max) (Hwires : vec_len (wires b) + 1 <= u64_max).

Definition credit : TypedExactPendingCredit := mkCredit (vec_len (bytes (xa_serialized x))) true.

Definition wire (st : ExactTypedWireState) : ExactTypedWireRecord :=
  mkWire (len b) (xa_packed x) (xa_serialized x) st credit.

(** The buffer with the record of [p] at its end. *)
Definition pushed (st : ExactTypedWireState) (count : Z) : WalBuffer :=
  set_tentative_count
    (set_generation
       (set_binding
          (set_catalog_tail
             (set_wires (set_records b (mkVec (elems (records b) ++ [p_record p]) (capacity (records b))))
                (mkVec (wires b ++ [wire st]) (capacity (exact_typed_wire_records b))))
             (Known (len b + 1) (Some (p_tail p))))
          (mkBinding (Some (Canonical.identity (xa_header x))) (len b + 1)))
       (canonical_append_reservation_generation b + 1)) count.

Definition tentative_reservation : WalTypedExactAppendReservation :=
  set_reservation r None None (StateTentative (len b) (canonical_append_reservation_generation b + 1)).

Lemma len_snoc (rec : SharedRecord) cap : len (set_records b (mkVec (elems (records b) ++ [rec]) cap)) = len b + 1.
Proof. unfold len. cbn. rewrite vec_len_app. done. Qed.

Lemma push_fits {A} (v : Vec A) (a : A) :
  vec_len (elems v) + 1 <= capacity v -> vec_push v a = mkVec (elems v ++ [a]) (capacity v).
Proof. intros H. unfold vec_push. by rewrite vec_grow_noop. Qed.

Lemma push_eq :
  push_tentative (p_record p) (p_tail p) x credit (b, w) = Done (pushed Tentative 1, w) (Ok tt).
Proof.
  destruct (is_slots _ _ _ _ Hr) as [H1 H2]. unfold push_tentative.
  cbv beta iota zeta delta [bind buffer get ret update modify Effects.assert fst snd].
  rewrite (push_fits (records b)) by done. rewrite len_snoc.
  change (exact_typed_wire_records (set_records b _)) with (exact_typed_wire_records b).
  rewrite (push_fits (exact_typed_wire_records b)) by done. rewrite Z.add_simpl_r.
  set (b1 := set_wires _ _). change (capacity (records b1)) with (capacity (records b)).
  change (capacity (exact_typed_wire_records b1)) with (capacity (exact_typed_wire_records b)). rewrite !Z.eqb_refl.
  rewrite invalidate_eq by (cbn; lia). cbn [fst snd].
  change (len b1) with (len (set_records b (mkVec (elems (records b) ++ [p_record p]) (capacity (records b))))). by rewrite len_snoc.
Qed.

Lemma issued_fresh : append_state_drifted b r = false.
Proof. rewrite (is_reservation _ _ _ _ Hr). unfold append_state_drifted. cbn. by rewrite !Z.eqb_refl, (is_idle _ _ _ _ Hr). Qed.

Lemma issued_bound : binding_drifted (set_reservation r None None (reservation_state r)) (p_record p) x = false.
Proof.
  rewrite (is_reservation _ _ _ _ Hr). unfold binding_drifted. cbn.
  rewrite (is_length _ _ _ _ Hr), (is_packed _ _ _ _ Hr), (is_transaction _ _ _ _ Hr), !Z.eqb_refl. unfold ptr_eq. by rewrite Z.eqb_refl.
Qed.

(** The append is never refused. *)
Lemma tentative_eq :
  append_typed_exact_tentative r (b, w) = Done (pushed Tentative 1, w) (Ok (tentative_reservation, Ok tt)).
Proof.
  pose proof (is_reservation _ _ _ _ Hr) as E. unfold append_typed_exact_tentative, buffer. unfold bind at 1 2, get, ret at 1. cbn [fst].
  rewrite issued_fresh. replace (prepared r) with (Some p) by (by rewrite E). replace (reserved_credit r) with (Some credit) by (by rewrite E).
  rewrite (is_exact _ _ _ _ Hr), issued_bound, bool_decide_eq_true_2 by (by rewrite E). cbn [negb].
  unfold bind. rewrite push_eq. unfold ret, tentative_reservation. cbn [fst].
  replace (len (pushed Tentative 1)) with (len b + 1) by (unfold len, pushed; cbn; by rewrite vec_len_app). by rewrite Z.add_simpl_r.
Qed.

Lemma pushed_fresh : tentative_drifted (pushed Tentative 1) tentative_reservation (len b) (canonical_append_reservation_generation b + 1) = false.
Proof.
  unfold tentative_drifted, tentative_reservation. rewrite (is_reservation _ _ _ _ Hr). cbn -[checked_add64].
  rewrite !Z.eqb_refl. unfold len, wires. cbn -[checked_add64]. rewrite !vec_len_app. change (vec_len [_]) with 1.
  rewrite bool_decide_eq_true_2 by (apply checked_add64_Some; split; [done|unfold len in Hlen; pose proof (vec_len_nonneg (elems (records b))); lia]).
  unfold saturating_add64. rewrite Z.min_l by (unfold wires in Hwires; lia). by rewrite Z.eqb_refl.
Qed.

(** A rollback gives back the buffer, but for the generation. *)
Definition rolled_back_reservation : WalTypedExactAppendReservation :=
  mkReservation (canonical_append_reservation_owner_id b) (len b) (capacity (records b))
    (vec_len (wires b)) (capacity (exact_typed_wire_records b)) (canonical_append_reservation_generation b + 2)
    (Canonical.serialized_record_bytes (EnvelopeExact.footprint (xa_encoding x))) (canonical_catalog_tail b)
    (durable_identity_binding b) None (Some p) (Some credit) StatePrepared.

Lemma pop_eq :
  pop_tentative tentative_reservation (pushed Tentative 1, w)
  = Done (set_generation b (canonical_append_reservation_generation b + 2), w) (Ok tt).
Proof.
  unfold pop_tentative. cbv beta iota zeta delta [bind update modify fst snd]. rewrite invalidate_eq by (cbn; lia). cbn [fst snd].
  change (canonical_append_reservation_generation _ + 1) with (canonical_append_reservation_generation b + 1 + 1).
  replace (prior_catalog_tail tentative_reservation) with (canonical_catalog_tail b) by (unfold tentative_reservation; by rewrite (is_reservation _ _ _ _ Hr)).
  replace (prior_durable_identity_binding tentative_reservation) with (durable_identity_binding b)
    by (unfold tentative_reservation; by rewrite (is_reservation _ _ _ _ Hr)).
  unfold pushed. rewrite restored by apply (is_idle _ _ _ _ Hr). do 3 f_equal. lia.
Qed.

Lemma pushed_wire : wire_drifted tentative_reservation (len b) (wire Tentative) (p_record p) x = false.
Proof.
  unfold wire_drifted, tentative_reservation, serialized_len, ptr_eq. rewrite (is_reservation _ _ _ _ Hr). cbn.
  rewrite (is_length _ _ _ _ Hr), !Z.eqb_refl. pose proof (is_packed _ _ _ _ Hr) as Hp. unfold ptr_eq in Hp. by rewrite Hp.
Qed.

Lemma rollback_eq :
  rollback_typed_exact_append tentative_reservation (pushed Tentative 1, w)
  = Done (set_generation b (canonical_append_reservation_generation b + 2), w) (Ok (rolled_back_reservation, Ok tt)).
Proof.
  unfold rollback_typed_exact_append. change (reservation_state tentative_reservation)
    with (StateTentative (len b) (canonical_append_reservation_generation b + 1)). cbv iota.
  unfold buffer. unfold bind at 1 2, get, ret at 1. cbn [fst]. rewrite pushed_fresh.
  change (wires (pushed Tentative 1)) with (wires b ++ [wire Tentative]). rewrite last_snoc.
  change (canonical_catalog_tail (pushed Tentative 1)) with (Known (len b + 1) (Some (p_tail p))). cbv iota. rewrite Z.eqb_refl. cbn [negb].
  change (elems (records (pushed Tentative 1))) with (elems (records b) ++ [p_record p]). rewrite last_snoc. unfold expect.
  replace (rollback_authority tentative_reservation) with (Some x) by (unfold tentative_reservation; by rewrite (is_reservation _ _ _ _ Hr)).
  unfold bind at 1, ret at 1. rewrite pushed_wire. unfold bind. rewrite pop_eq. unfold ret. cbn [fst]. unfold rolled_back_reservation.
  pose proof (is_exact _ _ _ _ Hr) as Hx. unfold tentative_reservation. rewrite (is_reservation _ _ _ _ Hr).
  do 3 f_equal. change (pending_group_credit (wire Tentative)) with credit. destruct p as [rec tl ex]. cbn in *. by subst ex.
Qed.

(** A second append of the rolled-back reservation is refused, because the rollback took the
    authority that the append requires. *)
Lemma retry_refused seg cov j cs :
  buffer_inv seg cov j (credit :: cs) b w ->
  exists b' r' e,
    append_typed_exact_tentative rolled_back_reservation (set_generation b (canonical_append_reservation_generation b + 2), w)
    = Done (b', w) (Ok (r', Err e)) /\ records b' = records b /\ wires b' = wires b.
Proof.
  intros Hi. set (b2 := set_generation b _).
  assert (buffer_inv seg cov j (credit :: cs) b2 w) as Hi2 by (apply (inv_similar _ _ _ _ b); try done; apply Hi).
  destruct (drop_credit_returns _ _ _ _ _ _ _ Hi2) as (b' & Hd & _ & [pool Hp]).
  unfold append_typed_exact_tentative, buffer. unfold bind at 1 2, get, ret at 1. cbn [fst].
  assert (append_state_drifted b2 rolled_back_reservation = false) as ->.
  { unfold append_state_drifted. cbn. by rewrite !Z.eqb_refl, (is_idle _ _ _ _ Hr). }
  cbn [prepared reserved_credit rolled_back_reservation]. rewrite (is_exact _ _ _ _ Hr).
  assert (forall res, binding_drifted (set_reservation rolled_back_reservation None None res) (p_record p) x = true) as ->.
  { intros res. unfold binding_drifted. cbn. by rewrite orb_true_r. }
  unfold bind. rewrite Hd. eexists b', _, _. split; [done|]. by subst b'.
Qed.

(** A claim makes the record eligible for the next group. *)
Lemma claim_eq :
  claim_typed_exact_append tentative_reservation (pushed Tentative 1, w)
  = Done (set_highest_claimed (pushed ClaimedPending 0)
      (Some (match highest_claimed_typed_exact_record b with Some prior => Z.max prior (len b) | None => len b end)), w) (Ok (len b + 1)).
Proof.
  unfold claim_typed_exact_append. change (reservation_state tentative_reservation)
    with (StateTentative (len b) (canonical_append_reservation_generation b + 1)). cbv iota.
  unfold buffer. unfold bind at 1 2, get, ret at 1. cbn [fst]. rewrite pushed_fresh.
  change (wires (pushed Tentative 1)) with (wires b ++ [wire Tentative]). rewrite last_snoc.
  change (record_index (wire Tentative)) with (len b). rewrite Z.eqb_refl. change (is_tentative (wire Tentative)) with true. cbn [negb orb].
  unfold bind, update, modify, drop_reservation, ret. change (reserved_credit tentative_reservation) with (@None TypedExactPendingCredit).
  cbv iota. cbn [fst snd]. change (wires (pushed Tentative 1)) with (wires b ++ [wire Tentative]). by rewrite removelast_last.
Qed.

End exact.

(** ** Records of the exact encoder *)

#[local] Existing Instance EnvelopeExact.fragment_ref_source.

(** What the exact encoder prepares, put into two allocations, can be reserved. *)
Lemma prepared_allocated sha256 (Hsha : forall l, length (sha256 l) = 32%nat) txn p h fs o packed serialized prepared a1 a2 :
  Canonical.wf_physical p -> Canonical.wf_header h -> Canonical.wf_outcome o ->
  EnvelopeExact.prepare_exact_canonical_wal_record_from_borrowed_uninit_arc_buffers sha256 txn p h fs o packed serialized
    = Some (Ok prepared) ->
  WalProps.record_ok (EnvelopeExact.record prepared) -> prepared_ok (allocate a1 a2 prepared).
Proof.
  intros Hp Hh Ho Hpr Hok. unfold EnvelopeExact.prepare_exact_canonical_wal_record_from_borrowed_uninit_arc_buffers, EnvelopeExact.get_mut in Hpr.
  destruct (EnvelopeExact.unique packed); [|done]. destruct (EnvelopeExact.unique serialized); [|done].
  unfold EnvelopeExact.encode_canonical_record_exact_from_borrowed in Hpr.
  destruct (EnvelopeProps.exact_outcome sha256 Hsha txn p h fs o (EnvelopeExact.arc_cells packed) (EnvelopeExact.arc_cells serialized) Hp Hh Ho)
    as [(_ & _ & E)|(_ & e & E)]; cbn in Hpr; rewrite E in Hpr; cbn in Hpr; [|done].
  rewrite !EnvelopeExactFacts.assume_init_Some in Hpr. cbn in Hpr. injection Hpr as <-. intros x [= <-]. by split_and!.
Qed.

End WalExact.

(** * Concrete runs of the buffer

    An executable check of what the callers promise, so that runs can be evaluated, and the system
    the examples start from. *)

Module WalChecked.
Import Paths Disk Effects Identity WalCore WalGroup WalScatter DiskFacts WalDurability WalBuffer WalInvariant WalFormation WalFlush WalBegin WalAppend WalReserve WalRecovered WalSystem WalCrash.

(** ** The check *)

Definition record_okb (r : Wal.WalRecord) : bool :=
  (0 <=? Wal.txn_id r) && (Wal.txn_id r <? U64) && (vec_len (Wal.payload r) <=? isize_max).

Definition prepared_okb (p : Prepared) : bool :=
  match p_exact p with
  | None => true
  | Some x => bool_decide (addr (payload (p_record p)) = addr (xa_packed x)) &&
      bool_decide (bytes (payload (p_record p)) = bytes (xa_packed x)) &&
      bool_decide (bytes (xa_serialized x) = Wal.encode_record (erase (p_record p))) && record_okb (erase (p_record p))
  end.

Definition allowedb (op : Operation) (s : System) : bool :=
  let room := canonical_append_reservation_generation (sys_buffer s) <? u64_max in
  match op with
  | OpAppend rec => record_okb (erase rec) && room
  | OpReserve p => prepared_okb p
  | OpTentative _ | OpRollback _ => room
  | OpTruncate n => room && (frontier (sys_buffer s) (sys_job s) <=? n)
  | OpAppendCanonical _ => false
  | _ => true
  end.

Lemma record_okb_ok r : record_okb r = true -> WalProps.record_ok r.
Proof. unfold record_okb. rewrite !andb_true_iff, !Z.leb_le, Z.ltb_lt. intros [[? ?] ?]. by split. Qed.

Lemma prepared_okb_ok p : prepared_okb p = true -> prepared_ok p.
Proof.
  unfold prepared_okb. intros H x Hx. rewrite Hx, !andb_true_iff, !bool_decide_eq_true in H. destruct H as [[[Ha Hb] Hs] Hr].
  split_and!; [|done|by apply record_okb_ok]. destruct (payload (p_record p)), (xa_packed x). cbn in *. by subst.
Qed.

Lemma allowedb_ok op s : allowedb op s = true -> allowed op s.
Proof.
  destruct op; cbn; rewrite ?andb_true_iff, ?Z.ltb_lt, ?Z.leb_le; try done.
  - intros [? ?]. split; [by apply record_okb_ok|done].
  - apply prepared_okb_ok.
Qed.

Section run.
Context {alloc : VecAlloc}.
Context (sha256 : list byte -> list byte) (pid : Z) (try_reserve_exact : Z -> bool) (chunk : Z).

(** Run the operations as long as they are allowed and return. *)
Fixpoint performs (ops : list Operation) (s : System) : option System :=
  match ops with
  | [] => Some s
  | op :: ops =>
      if allowedb op s then
        match perform sha256 pid try_reserve_exact chunk op s with Next s => performs ops s | _ => None end
      else None
  end.

Lemma performs_run ops s s' : performs ops s = Some s' -> rtc (step sha256 pid try_reserve_exact chunk) s s'.
Proof.
  revert s. induction ops as [|op ops IH]; intros s; cbn; [by intros [= ->]|].
  destruct (allowedb op s) eqn:Ha; [|done]. destruct (perform _ _ _ _ op s) as [| |s1] eqn:Hp; try done.
  intros Hs. eapply rtc_l; [|by apply IH]. exists op. split; [by apply allowedb_ok|done].
Qed.

End run.

(** ** The sample *)

#[export] Instance sample_alloc : VecAlloc.
Proof.
  refine (Build_VecAlloc (fun len cap add => Z.max cap (len + add))
            (fun len cap add => Some (Z.max cap (len + add))) _ _ _ _).
  - intros. lia.
  - intros. lia.
  - intros. f_equal. lia.
  - intros len cap add cap' [= <-]. lia.
Defined.

Definition sample_seg : Path := mkPath true ["w"; "a.wal"].

Lemma sample_paths : own_paths 7 sample_seg.
Proof. constructor; try (vm_compute; discriminate). by exists (mkPath true ["w"]). Qed.

Definition sample_start : System :=
  mkSystem (with_durable_segment 1 sample_seg) (mkWorld ∅ ∅ []) None [] 0.

Lemma sample_initial : initial sample_seg sample_start.
Proof. by exists 1. Qed.

Definition sample_run (ops : list Operation) : option System :=
  performs EnvelopeProps.toy_sha 7 (fun _ => true) 64 ops sample_start.

Definition sample_step : System -> System -> Prop := step EnvelopeProps.toy_sha 7 (fun _ => true) 64.

Definition record_a : SharedRecord := mkShared 5 (mkArc 100 [x01; x02; x03]).
Definition record_b : SharedRecord := mkShared 6 (mkArc 200 [x04]).

(** What the exact encoder prepares for the sample envelope. *)
Definition sample_prepared : option Prepared :=
  match EnvelopeExact.prepare_exact_canonical_wal_record_from_borrowed_uninit_arc_buffers EnvelopeProps.toy_sha 9
    (EnvelopeProps.sample_range 7) EnvelopeProps.sample_header EnvelopeProps.sample_refs EnvelopeProps.sample_outcome
    (EnvelopeExact.mkArc true EnvelopeProps.sample_cells) (EnvelopeExact.mkArc true EnvelopeProps.sample_record_cells) with
  | Some (Ok prepared) => Some (allocate 900 901 prepared)
  | _ => None
  end.

Definition sample_p : Prepared :=
  default (mkPreparedRecord record_a (Envelope.header_tail EnvelopeProps.sample_header) None) sample_prepared.

Definition sample_state (ops : list Operation) : System := default sample_start (sample_run ops).

Definition sample_core (s : System) : WalDurableCore := default (fresh sample_seg) (durable (sys_buffer s)).

Definition sample_job (s : System) : SerialFlushJob :=
  default (mkJob sample_seg 0 0 0 (mkGroup 0 [] 0 0 0 false)) (sys_job s).

(** The state after [ops] is one that the start gets into. *)
Lemma sample_runs ops : (if sample_run ops then true else false) = true -> rtc sample_step sample_start (sample_state ops).
Proof. unfold sample_state. destruct (sample_run ops) as [s|] eqn:E; [|done]. intros _. by eapply performs_run. Qed.

Lemma performs_app `{VecAlloc} sha256 pid tre chunk ops more s :
  performs sha256 pid tre chunk (ops ++ more) s = performs sha256 pid tre chunk ops s ≫= performs sha256 pid tre chunk more.
Proof.
  revert s. induction ops as [|op ops IH]; intros s; [done|]. cbn. destruct (allowedb op s); [|done].
  by destruct (perform _ _ _ _ op s).
Qed.

Lemma sample_continues ops more :
  (if sample_run (ops ++ more) then true else false) = true -> rtc sample_step (sample_state ops) (sample_state (ops ++ more)).
Proof.
  unfold sample_state, sample_run. rewrite performs_app. destruct (performs _ _ _ _ ops sample_start) as [s|]; [|done].
  cbn. destruct (performs _ _ _ _ more s) as [s'|] eqn:E; [|done]. intros _. by eapply performs_run.
Qed.

(** A disk on which everything is synced. *)
Definition disk_of (fs : Fs) : World := mkWorld ((fun d => mkInode d (vec_len d)) <$> fs) ∅ [].

Lemma disk_of_rebooted fs : rebooted fs (disk_of fs).
Proof.
  constructor; [|done|].
  - apply map_eq. intros p. unfold visible. cbn. rewrite !lookup_fmap. by destruct (fs !! p).
  - intros p i. cbn. rewrite lookup_fmap. destruct (fs !! p); [|done]. intros [= <-]. cbn. pose proof (vec_len_nonneg l). lia.
Qed.

End WalChecked.
