(* ===== verification/WalBufferProps.v ===== *)
(** * Properties of the write-ahead log buffer

    What callers of the buffer may rely on: it implements an append-only log with an acknowledged
    prefix, a call that keeps its promises panics exactly where [refused] says, the file a crash
    leaves holds the acknowledged records, a failed flush fails closed, and the life of an exact
    record; and two runs in which it goes wrong. *)

From stdpp Require Import base gmap strings list pretty sorting.
From S2P Require Import Prelude Types Bytes Text Paths Effects Disk Sidecar WalSegment WalProps Codec Canonical Envelope EnvelopeExact EnvelopeProps Identity LocalRepl WalCore WalGroup WalScatter DiskFacts IdentityFacts WalDurability WalBuffer WalInvariant WalFormation WalFlush WalBegin WalReserve WalCrash WalSystem WalChecked.

Module WalBufferProps.
Import Paths Disk Effects Identity WalCore WalGroup WalScatter DiskFacts WalDurability WalBuffer WalInvariant WalFormation WalFlush WalBegin WalAppend WalReserve WalRecovered WalSystem WalCrash WalExact WalChecked.

Section buffer.
Context {alloc : VecAlloc}.
Context (sha256 : list byte -> list byte) (pid : Z) (try_reserve_exact : Z -> bool) (chunk : Z).
Context (seg : Path) (Hpaths : own_paths pid seg) (Hchunk : 10 <= chunk).

Abbreviation run := (rtc (step sha256 pid try_reserve_exact chunk)).

(** The states a buffer over the fresh segment [seg] can get into. *)
Definition reachable (s : System) : Prop := exists s0, initial seg s0 /\ run s0 s.

Lemma reachable_sys_inv s : reachable s -> sys_inv seg s.
Proof. intros (s0 & H0 & Hr). eapply run_inv; [done|done|exact Hr|by apply initial_inv]. Qed.



(** Restart.  After such a crash, on a disk that shows what the crash left, the history made of
    the records before the segment's base and the recovered ones starts with every acknowledged
    record; rebuilding the buffer from it does not panic, and a buffer it returns satisfies the
    invariant of the running system and has that history, all of it acknowledged. *)
Theorem restart_keeps_acknowledged s w c fs w0 path owner :
  reachable s -> at_crash s w -> crash w fs -> durable (sys_buffer s) = Some c -> backed c ->
  rebooted fs w0 -> (forall d, fs !! seg = Some d -> vec_len d <= isize_max) ->
  exists b, segment_base_records (state c) <= b <= Z.max (segment_base_records (state c)) (sys_covered s) /\
    (poisoned (state c) = None -> b = segment_base_records (state c)) /\
    let older := take (Z.to_nat b) (history (log s)) in
    forall tail, tail <= vec_len (Wal.segment_bytes (sub (history (log s)) b (flushed_records (state c)))) ->
    exists recovery more, Wal.recover_wal_segment path tail (fs !! seg) = Ok recovery /\
      older ++ Wal.records recovery = take (Z.to_nat (acknowledged (log s))) (history (log s)) ++ more /\
      forall records, erase <$> elems records = older ++ Wal.records recovery ->
      wp (with_recovered_durable_segment sha256 pid try_reserve_exact chunk owner seg records recovery) (fun w' r =>
        forall b', r = Ok b' -> sys_inv seg (mkSystem b' w' None [] 0) /\
          log (mkSystem b' w' None [] 0) = mkLog (older ++ Wal.records recovery) (vec_len (older ++ Wal.records recovery))) w0.
Proof. intros Hr Hw Hcr Hd Hlt Hrb Hmax. eapply restart_spec; try done. by apply reachable_sys_inv. Qed.

(** [C16] Group commit completes.  When the kernel takes at least a byte at every write of the group in
    flight and then syncs, the commit returns: everything up to the target of the group is
    acknowledged and no group is in flight. *)
Theorem group_commit_completes s job writes syncs :
  reachable s -> sys_job s = Some job -> progressing writes ->
  wire_bytes (job_group job) <= Z.of_nat (length writes) -> job_offset job + wire_bytes (job_group job) <= i64_max ->
  (exists n rest, syncs = Returns n :: rest) ->
  exists s', perform sha256 pid try_reserve_exact chunk (OpCommit writes syncs) s = Next s' /\ sys_job s' = None /\
    acknowledged (log s) < job_target_records job /\ log s' = mkLog (history (log s)) (job_target_records job).
Proof.
  intros Hr Hj Hp Hl Ho Hs. pose proof (si_buffer _ _ (reachable_sys_inv s Hr)) as Hi. rewrite Hj in Hi.
  destruct (commit_completes _ _ _ _ _ _ writes syncs Hi Hp Hl Ho Hs) as ([b w] & Hc & [Hi' Hrec _ _ _ [_ Hf]]). cbn [fst] in *.
  exists (mkSystem b w None (sys_held s) (sys_covered s)). cbn. rewrite Hj. unfold call. rewrite Hc. split_and!; try done.
  - pose proof (bi_core _ _ _ _ _ _ Hi) as Hcore. unfold log, flushed_count. cbn.
    destruct (durable (sys_buffer s)) as [c|]; [|done]. destruct Hcore as (_ & _ & _ & Hjob). apply Hjob.
  - unfold log, logical_records. cbn. by rewrite Hrec, Hf.
Qed.

(** [C15] A failed flush fails closed.  When the write or the sync of the group in flight ends in an
    error, the commit returns an error, nothing more is acknowledged and the history is kept; the
    next flush is refused with an error too, and acknowledges nothing. *)
Theorem failed_flush_fails_closed s job writes syncs w' f :
  reachable s -> sys_job s = Some job -> job_io writes syncs job (sys_world s) = (w', Some (Err f)) ->
  exists b1 e, commit writes syncs job (sys_buffer s, sys_world s) = Done (b1, w') (Err e) /\
    records b1 = records (sys_buffer s) /\ flushed_count b1 = flushed_count (sys_buffer s) /\
    exists b2 e', begin_group_flush sha256 pid try_reserve_exact chunk (b1, w') = Done (b2, w') (Err e') /\
      records b2 = records (sys_buffer s) /\ flushed_count b2 = flushed_count (sys_buffer s).
Proof.
  intros Hr Hj Hio. pose proof (reachable_sys_inv s Hr) as Hs. assert (at_crash s w') as Hw by (right; eexists _, _, _; by rewrite Hio).
  pose proof (crash_inv seg s w' Hs Hw) as Hi. rewrite Hj in Hi. pose proof (bi_core _ _ _ _ _ _ Hi) as Hc.
  destruct (durable (sys_buffer s)) as [c|] eqn:Hd; [|done]. pose proof (finish_job_spec seg _ job _ _ c w' Hi Hd (Err f) ltac:(done)) as Hfin.
  unfold commit. cbn [fst snd]. rewrite Hio. unfold wp in Hfin. destruct (finish_job job (Err f) (sys_buffer s, w')) as [| |[b1 w1] r] eqn:Ef; [done| |].
  { exfalso. eapply finish_no_wait; exact Ef. }
  destruct Hfin as (Hw1 & [Hi1 Hrec _ _ _ _] & He & Hf & Hfa). cbn [fst snd] in *. subst w1. destruct r as [|e]; [done|].
  destruct (begin_refused sha256 pid try_reserve_exact chunk _ _ _ _ _ Hi1 Hfa) as (b2 & e' & Hb & Hrec2 & Hf2).
  exists b1, e. split_and!; try done. exists b2, e'. split_and!; congruence.
Qed.

(** [C17] The life of an exact record.  A reservation leaves the records alone.  Right after it the
    tentative append is never refused and appends the prepared record.  A rollback then gives back
    the buffer exactly, but for the generation counter; a claim hands the record to the next group
    and returns its end.  Although the rollback refreshes the frontiers of the reservation, a
    second append of it is always refused. *)
Theorem exact_record_life s p b w r :
  reachable s -> prepared_ok p ->
  reserve_typed_exact_append sha256 pid try_reserve_exact chunk p (sys_buffer s, sys_world s) = Done (b, w) (Ok r) ->
  canonical_append_reservation_generation b + 2 <= u64_max -> len b + 1 <= u64_max -> vec_len (wires b) + 1 <= u64_max ->
  elems (records b) = elems (records (sys_buffer s)) /\
  exists x r1 r2 b3 r3 e,
    append_typed_exact_tentative r (b, w) = Done (pushed p b x Tentative 1, w) (Ok (r1, Ok tt)) /\
    rollback_typed_exact_append r1 (pushed p b x Tentative 1, w)
      = Done (set_generation b (canonical_append_reservation_generation b + 2), w) (Ok (r2, Ok tt)) /\
    claim_typed_exact_append r1 (pushed p b x Tentative 1, w)
      = Done (set_highest_claimed (pushed p b x ClaimedPending 0)
          (Some (match highest_claimed_typed_exact_record b with Some h => Z.max h (len b) | None => len b end)), w) (Ok (len b + 1)) /\
    append_typed_exact_tentative r2 (set_generation b (canonical_append_reservation_generation b + 2), w)
      = Done (b3, w) (Ok (r3, Err e)) /\ records b3 = records b.
Proof.
  intros Hr Hp Hres Hg Hl Hw. pose proof (si_buffer _ _ (reachable_sys_inv s Hr)) as Hi.
  pose proof (reserve_spec sha256 pid try_reserve_exact chunk seg Hpaths Hchunk _ _ _ p _ _ Hp Hi) as Hspec.
  unfold wp in Hspec. rewrite Hres in Hspec. destruct Hspec as (Hrec & _ & _ & Hi1 & _ & x & His). split; [done|].
  assert (buffer_inv seg (sys_covered s) (sys_job s) (credit x :: held_credits (sys_held s)) b w) as Hi2.
  { rewrite (is_reservation _ _ _ _ His) in Hi1. exact Hi1. }
  destruct (retry_refused p b r x w His seg _ _ _ Hi2) as (b3 & r3 & e & Hretry & Hb3 & _).
  eexists x, _, _, b3, r3, e. split_and!; [by apply tentative_eq|by apply rollback_eq|by apply (claim_eq p b r x w His)|exact Hretry|done].
Qed.

End buffer.

(** [C18] Scatter writes.  Whatever the kernel answers to the vectored writes of a group (short writes,
    interruptions, errors), the file then is the old one with a prefix of the group's bytes written
    at the offset; a reported success means all of them, no answer makes the loop lose its
    position, and answers that make progress lead to success. *)
Theorem scatter_write_exact f g w i offset script :
  Forall entry_ok (entries g) -> names w !! f = Some i -> 0 <= offset <= vec_len (data i) ->
  offset + vec_len (group_bytes (entries g)) <= u64_max -> wire_bytes g = vec_len (group_bytes (entries g)) ->
  exists d s x r,
    write_all_vectored_at script w f g offset
      = (set_inode w f (mkNode (overwrite (data i) offset (take (Z.to_nat d) (group_bytes (entries g)))) s x), r) /\
    0 <= d <= vec_len (group_bytes (entries g)) /\ Z.min (synced i) offset <= s <= synced i /\
    (r = Some (Ok tt) -> d = vec_len (group_bytes (entries g))) /\
    (forall e, r = Some (Err e) -> fault_stage e <> PositionalWriteInvariant) /\
    (progressing script -> vec_len (group_bytes (entries g)) <= Z.of_nat (length script) ->
     offset + vec_len (group_bytes (entries g)) <= i64_max -> r = Some (Ok tt)).
Proof.
  intros Hes Hf Ho He Hw. destruct (write_all_spec f g w i offset Hes Hf Ho He script Hw) as (d & [s x] & r & E & H1 & H2 & H3 & H4 & H5).
  cbn [fst snd] in E, H2. exists d, s, x, r. split_and!; try done || lia. intros Hp Hl. apply H5; [done|lia].
Qed.

(** [C21] Durable identity anchors.  However the installation of an anchor ends, a crash shows under its
    name what was there before or the whole synced anchor; after a success only the anchor is
    left, and reading it gives back the identity. *)
Theorem identity_anchor_installed sha256 pid base id w :
  (forall l, length (sha256 l) = 32%nat) -> IdentityFacts.identity_ok id ->
  Sidecar.temporary_control_path pid (durable_identity_path base) <> durable_identity_path base ->
  (exists d, nonempty_parent (durable_identity_path base) = Some d) ->
  wp (write_durable_identity sha256 pid base id) (fun w' r =>
    (forall v, v ∈ versions w' (durable_identity_path base) ->
       v ∈ versions w (durable_identity_path base) \/ v = Some (IdentityFacts.anchor sha256 id)) /\
    (r = Ok tt -> versions w' (durable_identity_path base) = [Some (IdentityFacts.anchor sha256 id)] /\
       forall w'', names w'' = names w' -> faults w'' = [] -> read_durable_identity sha256 base w'' = Done w'' (Ok (Some id)))) w.
Proof.
  intros Hsha Hid Ht Hd. eapply wp_mono; [by apply (IdentityFacts.write_identity_spec sha256 pid base)|].
  intros w' r [Hv Hok]. split; [exact Hv|]. intros ->. specialize (Hok eq_refl). split; [by apply settled_versions|]. intros w'' Hn Hf.
  apply IdentityFacts.read_anchor; [done|done| |done]. rewrite Hn. apply Hok.
Qed.

(** ** Concrete runs *)

Lemma sample_reachable ops :
  (if sample_run ops then true else false) = true ->
  reachable EnvelopeProps.toy_sha 7 (fun _ => true) 64 sample_seg (sample_state ops).
Proof. intros H. exists sample_start. split; [apply sample_initial|by apply sample_runs]. Qed.

(** One record acknowledged, and a second one in flight. *)
Definition one_acknowledged : list Operation := [OpAppend record_a; OpBegin; OpCommit [Returns 10000] [Returns 0]].
Definition one_in_flight : list Operation := one_acknowledged ++ [OpAppend record_b; OpBegin].

(** The disk after four bytes of the second record. *)
Definition torn : World := (job_io [Returns 4] [] (sample_job (sample_state one_in_flight)) (sys_world (sample_state one_in_flight))).1.

Lemma torn_crash : at_crash (sample_state one_in_flight) torn.
Proof. right. exists (sample_job (sample_state one_in_flight)), [Returns 4], []. split; [vm_compute; reflexivity|reflexivity]. Qed.



Lemma restart_keeps_acknowledged_witness :
  exists b, forall tail,
    tail <= vec_len (Wal.segment_bytes (sub (history (log (sample_state one_in_flight))) b 1)) ->
    exists recovery, Wal.recover_wal_segment "a.wal" tail (visible torn !! sample_seg) = Ok recovery.
Proof.
  destruct (restart_keeps_acknowledged EnvelopeProps.toy_sha 7 (fun _ => true) 64 sample_seg sample_paths ltac:(lia)
    (sample_state one_in_flight) torn (sample_core (sample_state one_in_flight)) (visible torn) (disk_of (visible torn)) "a.wal" 2)
    as (b & _ & _ & H).
  - apply sample_reachable. vm_compute. reflexivity.
  - apply torn_crash.
  - apply crash_visible.
  - vm_compute. reflexivity.
  - right. vm_compute. reflexivity.
  - apply disk_of_rebooted.
  - intros d Hd. assert ((fun d => vec_len d <=? isize_max) <$> visible torn !! sample_seg = Some true) as E by (vm_compute; reflexivity).
    rewrite Hd in E. apply Z.leb_le. by injection E.
  - exists b. intros tail Htail. destruct (H tail) as (recovery & _ & Hr & _); [|by exists recovery].
    assert (flushed_records (state (sample_core (sample_state one_in_flight))) = 1) as -> by (vm_compute; reflexivity). exact Htail.
Defined.

Lemma group_commit_completes_witness :
  exists s', perform EnvelopeProps.toy_sha 7 (fun _ => true) 64 (OpCommit (replicate 25 (Returns 1)) [Returns 0]) (sample_state one_in_flight) = Next s' /\
    acknowledged (log s') = 2.
Proof.
  destruct (group_commit_completes EnvelopeProps.toy_sha 7 (fun _ => true) 64 sample_seg sample_paths ltac:(lia)
    (sample_state one_in_flight) (sample_job (sample_state one_in_flight)) (replicate 25 (Returns 1)) [Returns 0]) as (s' & Hs & _ & _ & Hl).
  - apply sample_reachable. vm_compute. reflexivity.
  - vm_compute. reflexivity.
  - apply Forall_forall. intros a [-> _]%elem_of_replicate. by exists 1.
  - vm_compute. discriminate.
  - vm_compute. discriminate.
  - by exists 0, [].
  - exists s'. split; [exact Hs|]. rewrite Hl. vm_compute. reflexivity.
Defined.

Lemma failed_flush_fails_closed_witness :
  exists b1 e, commit [Returns 4; Fails 5] [] (sample_job (sample_state one_in_flight))
    (sys_buffer (sample_state one_in_flight), sys_world (sample_state one_in_flight)) = Done (b1,
      (job_io [Returns 4; Fails 5] [] (sample_job (sample_state one_in_flight)) (sys_world (sample_state one_in_flight))).1) (Err e).
Proof.
  destruct (job_io [Returns 4; Fails 5] [] (sample_job (sample_state one_in_flight)) (sys_world (sample_state one_in_flight))) as [w r] eqn:E.
  assert (exists f, r = Some (Err f)) as [f ->].
  { apply (f_equal snd) in E. cbn [snd] in E. rewrite <- E. vm_compute. eexists. reflexivity. }
  destruct (failed_flush_fails_closed EnvelopeProps.toy_sha 7 (fun _ => true) 64 sample_seg sample_paths ltac:(lia)
    (sample_state one_in_flight) (sample_job (sample_state one_in_flight)) [Returns 4; Fails 5] [] w f) as (b1 & e & Hc & _).
  - apply sample_reachable. vm_compute. reflexivity.
  - vm_compute. reflexivity.
  - exact E.
  - exists b1, e. exact Hc.
Defined.

(** A record of the exact encoder reserved behind a pending record. *)
Abbreviation sample_reserved :=
  (reserve_typed_exact_append EnvelopeProps.toy_sha 7 (fun _ => true) 64 sample_p
    (sys_buffer (sample_state [OpAppend record_a]), sys_world (sample_state [OpAppend record_a]))).

Lemma exact_record_life_witness :
  exists b w r x r1, sample_reserved = Done (b, w) (Ok r) /\
    append_typed_exact_tentative r (b, w) = Done (pushed sample_p b x Tentative 1, w) (Ok (r1, Ok tt)).
Proof.
  assert (match sample_reserved with
          | Done (b, _) (Ok _) => (canonical_append_reservation_generation b + 2 <=? u64_max) && (len b + 1 <=? u64_max) &&
              (vec_len (wires b) + 1 <=? u64_max)
          | _ => false
          end = true) as Hb by (vm_compute; reflexivity).
  destruct sample_reserved as [| |[b w] [r|e]] eqn:E; try discriminate Hb.
  apply andb_true_iff in Hb as [[H1 H2]%andb_true_iff H3]. apply Z.leb_le in H1, H2, H3.
  destruct (exact_record_life EnvelopeProps.toy_sha 7 (fun _ => true) 64 sample_seg sample_paths ltac:(lia)
    (sample_state [OpAppend record_a]) sample_p b w r) as (_ & x & r1 & _ & _ & _ & _ & Ha & _).
  - apply sample_reachable. vm_compute. reflexivity.
  - apply prepared_okb_ok. vm_compute. reflexivity.
  - exact E.
  - exact H1.
  - exact H2.
  - exact H3.
  - exists b, w, r, x, r1. split; [reflexivity|exact Ha].
Defined.

(** A group of a legacy record written at the end of a file of two bytes. *)
Definition sample_group : PreparedWalGroup := mkGroup 0 [Legacy [x01; x02] (mkArc 1 [x03])] 3 0 1 false.
Definition sample_file : World := mkWorld {[ sample_seg := mkInode [xff; xff] 2 ]} ∅ [].

Lemma scatter_write_exact_witness :
  exists d s x, write_all_vectored_at [Returns 1; Fails 4; Returns 9] sample_file sample_seg sample_group 2
    = (set_inode sample_file sample_seg (mkNode (overwrite [xff; xff] 2 (take (Z.to_nat d) [x01; x02; x03])) s x), Some (Ok tt)) /\ d = 3.
Proof.
  destruct (scatter_write_exact sample_seg sample_group sample_file (mkInode [xff; xff] 2) 2 [Returns 1; Fails 4; Returns 9])
    as (d & s & x & r & E & _ & _ & Hok & _).
  - repeat constructor; discriminate.
  - reflexivity.
  - vm_compute. split; discriminate.
  - vm_compute. discriminate.
  - reflexivity.
  - assert (r = Some (Ok tt)) as ->.
    { apply (f_equal snd) in E. cbn [snd] in E. rewrite <- E. vm_compute. reflexivity. }
    exists d, s, x. split; [exact E|]. exact (Hok eq_refl).
Defined.

Lemma identity_anchor_installed_witness :
  wp (write_durable_identity EnvelopeProps.toy_sha 7 sample_seg EnvelopeProps.sample_identity) (fun w' r =>
    r = Ok tt -> versions w' (durable_identity_path sample_seg) = [Some (IdentityFacts.anchor EnvelopeProps.toy_sha EnvelopeProps.sample_identity)])
    (mkWorld ∅ ∅ []).
Proof.
  eapply wp_mono.
  - apply (identity_anchor_installed EnvelopeProps.toy_sha 7 sample_seg EnvelopeProps.sample_identity (mkWorld ∅ ∅ [])).
    + apply EnvelopeProps.toy_sha_len.
    + repeat split; vm_compute; done || discriminate.
    + vm_compute. discriminate.
    + exists (mkPath true ["w"]). reflexivity.
  - intros w' r [_ H] Hr. apply (H Hr).
Defined.

(** ** Defects *)

Definition running (s : System) : Prop := reachable EnvelopeProps.toy_sha 7 (fun _ => true) 64 sample_seg s.

Lemma run_reachable ops s : sample_run ops = Some s -> running s.
Proof. intros E. exists sample_start. split; [apply sample_initial|by eapply performs_run]. Qed.

(** Nothing is in flight, held or exact, and a flush panics. *)
Definition stuck (s : System) : bool :=
  match sys_job s, sys_held s, wires (sys_buffer s), perform EnvelopeProps.toy_sha 7 (fun _ => true) 64 OpBegin s with
  | None, [], [], Panicked => true
  | _, _, _, _ => false
  end.

Lemma stuck_spec s : stuck s = true ->
  sys_job s = None /\ sys_held s = [] /\ wires (sys_buffer s) = [] /\
  perform EnvelopeProps.toy_sha 7 (fun _ => true) 64 OpBegin s = Panicked.
Proof. unfold stuck. repeat case_match; done. Qed.

(** A flush can panic for good: 1025 legacy records are pending, an exact reservation verifies the
    lineage of all of them and is dropped, and the next flush takes a group of 1024, so that its
    verification slices from record 1025 to record 1024. *)
Lemma lineage_ahead_of_group_panics :
  exists s, running s /\ sys_job s = None /\ sys_held s = [] /\ wires (sys_buffer s) = [] /\
    perform EnvelopeProps.toy_sha 7 (fun _ => true) 64 OpBegin s = Panicked.
Proof.
  set (ops := replicate 1025 (OpAppend record_b) ++ [OpReserve sample_p; OpDrop 0]).
  assert (match sample_run ops with Some s => stuck s | None => false end = true) as H by (vm_compute; reflexivity).
  destruct (sample_run ops) as [s|] eqn:E; [|done]. exists s. split; [by eapply run_reachable|by apply stuck_spec].
Qed.

(** The core is usable, and recovery of what is visible fails. *)
Definition stranded (s : System) : bool :=
  let fs := visible (sys_world s) in
  match durable (sys_buffer s), Wal.recover_wal_segment "a.wal" (Sidecar.read_wal_tail_offset fs sample_seg) (fs !! sample_seg) with
  | Some c, Err _ => bool_decide (poisoned (state c) = None) && (segment_base_records (state c) =? 1) && (acknowledged (log s) =? 3)
  | _, _ => false
  end.

Lemma stranded_spec s : stranded s = true -> exists c e,
  durable (sys_buffer s) = Some c /\ poisoned (state c) = None /\ segment_base_records (state c) = 1 /\ acknowledged (log s) = 3 /\
  let fs := visible (sys_world s) in
  Wal.recover_wal_segment "a.wal" (Sidecar.read_wal_tail_offset fs sample_seg) (fs !! sample_seg) = Err e.
Proof.
  unfold stranded. destruct (durable (sys_buffer s)) as [c|]; [|done]. destruct (Wal.recover_wal_segment _ _ _) as [|e]; [done|].
  rewrite !andb_true_iff, bool_decide_eq_true, !Z.eqb_eq. intros [[? ?] ?]. by exists c, e.
Qed.

(** A rotation can strand acknowledged records.  The segment is rewritten shorter before the recorded
    tail is lowered; when that last step fails, the rotation reports an error but the core stays
    usable, and a later record is acknowledged.  After a crash the recorded tail lies beyond what
    the file holds, and recovery refuses the segment. *)
Lemma rotation_strands_recovery :
  exists s c fs e, running s /\ durable (sys_buffer s) = Some c /\ poisoned (state c) = None /\
    segment_base_records (state c) = 1 /\ acknowledged (log s) = 3 /\ crash (sys_world s) fs /\
    Wal.recover_wal_segment "a.wal" (Sidecar.read_wal_tail_offset fs sample_seg) (fs !! sample_seg) = Err e.
Proof.
  set (ops := [OpAppend record_a; OpAppend record_b; OpBegin; OpCommit [Returns 10000] [Returns 0]; OpRotate 0;
    OpFaults (replicate 13 None ++ [Some (mkOsFault "EIO" 0)]); OpRotate 1;
    OpAppend record_b; OpBegin; OpCommit [Returns 10000] [Returns 0]]).
  assert (match sample_run ops with Some s => stranded s | None => false end = true) as H by (vm_compute; reflexivity).
  destruct (sample_run ops) as [s|] eqn:E; [|done]. apply run_reachable in E. apply stranded_spec in H as (c & e & H).
  exists s, c, (visible (sys_world s)), e. pose proof (crash_visible (sys_world s)). tauto.
Qed.

End WalBufferProps.
