(* ===== verification/SealedManifest.v ===== *)
(** * The sealed rebuild manifest (crates/wal/src/checkpoint.rs)

    The commitments a checkpoint control record may carry for one sealed generation of a nullable
    INT4 table: construction, validation, the match with a checkpoint and a lineage, and the hex
    encoding of its 270 bytes. *)

From stdpp Require Import base strings list pretty.
From Stdlib Require Import Strings.Ascii Strings.Byte.
From S2P Require Import Prelude Types Bytes Text Paths WalSegment Sidecar Archive Canonical.

Module SealedManifest.
Import Text Paths.

Record SealedInt4RebuildManifestV1 := mkSealed {
  database_id : list byte;
  cluster_id : list byte;
  timeline_id : list byte;
  lineage_format_epoch : Z;
  checkpoint_durable_record_count : Z;
  checkpoint_last_durable_txn_id : option Z;
  migration_complete : bool;
  table_oid : Z;
  stable_table_id : Z;
  stable_table_high_water : Z;
  index_high_water : Z;
  current_index_count : Z;
  data_generation : Z;
  logical_row_count : Z;
  column_owner_table_oid : Z;
  legacy_column_id : Z;
  stable_column_high_water : Z;
  stable_column_id : Z;
  attnum : Z;
  catalog_epoch : Z;
  catalog_digest : list byte;
  covered_through : Z;
  visible_next : Z;
  table_root : list byte;
  database_root : list byte;
}.

#[export] Instance sealed_eq_dec : EqDecision SealedInt4RebuildManifestV1.
Proof. solve_decision. Defined.

Definition SEALED_INT4_REBUILD_ROOT_FORMAT_V1 : Z := 1.
Definition SEALED_INT4_REBUILD_GRAMMAR_V1 : Z := 1.

(** An array of [n] zero bytes. *)
Definition zeroed (n : nat) (l : list byte) : bool := bool_decide (l = replicate n x00).

Definition invalid_sealed (what : string) : result unit EngineError :=
  Err (Durability ("invalid sealed nullable-int4 rebuild manifest " +:+ what)).

Definition validate (m : SealedInt4RebuildManifestV1) : result unit EngineError :=
  if zeroed 16 (database_id m) || zeroed 16 (cluster_id m) || zeroed 16 (timeline_id m) ||
     (lineage_format_epoch m =? 0) then invalid_sealed "lineage"
  else if negb (migration_complete m) || (table_oid m =? 0) || (stable_table_id m =? 0) ||
     (stable_table_high_water m <? stable_table_id m) || negb (current_index_count m =? 0) ||
     negb (column_owner_table_oid m =? table_oid m) || (legacy_column_id m =? 0) ||
     (stable_column_high_water m <? stable_column_id m) || (stable_column_id m =? 0) ||
     (attnum m <=? 0) then invalid_sealed "migration"
  else if (data_generation m =? 0) || (logical_row_count m =? 0) then invalid_sealed "data generation"
  else if (covered_through m =? 0) ||
     negb (visible_next m =? default 0 (checked_add64 (covered_through m) 1)) then
    invalid_sealed "checkpoint cut"
  else if zeroed 32 (catalog_digest m) || zeroed 32 (table_root m) || zeroed 32 (database_root m) then
    invalid_sealed "commitment"
  else Ok tt.

Definition new (identity : Canonical.CanonicalIdentity) (checkpoint : Archive.WalCheckpointMeta)
    (table_oid stable_table_id stable_table_high_water index_high_water data_generation
     logical_row_count column_owner_table_oid legacy_column_id stable_column_id
     stable_column_high_water attnum catalog_epoch : Z) (catalog_digest : list byte)
    (covered_through : Z) (table_root database_root : list byte)
    : result SealedInt4RebuildManifestV1 EngineError :=
  let? visible_next := ok_or (checked_add64 covered_through 1)
    (Durability "sealed nullable-int4 visible-next overflow") in
  let manifest := mkSealed (Canonical.database_id identity) (Canonical.cluster_id identity)
    (Canonical.timeline_id identity) (Canonical.format_epoch identity)
    (Archive.durable_record_count checkpoint) (Archive.last_durable_txn_id checkpoint) true table_oid
    stable_table_id stable_table_high_water index_high_water 0 data_generation logical_row_count
    column_owner_table_oid legacy_column_id stable_column_high_water stable_column_id attnum
    catalog_epoch catalog_digest covered_through visible_next table_root database_root in
  let? _ := validate manifest in
  Ok manifest.

Definition matches_checkpoint (m : SealedInt4RebuildManifestV1) (checkpoint : Archive.WalCheckpointMeta) : bool :=
  (checkpoint_durable_record_count m =? Archive.durable_record_count checkpoint) &&
  bool_decide (checkpoint_last_durable_txn_id m = Archive.last_durable_txn_id checkpoint).

Definition validate_checkpoint_cut (m : SealedInt4RebuildManifestV1)
    (checkpoint : Archive.WalCheckpointMeta) (terminal_commit_seq : Z) : result unit EngineError :=
  let? _ := validate m in
  if negb (matches_checkpoint m checkpoint) || (Archive.durable_record_count checkpoint =? 0) ||
     bool_decide (Archive.last_durable_txn_id checkpoint = None) ||
     negb (terminal_commit_seq =? covered_through m) then
    Err (Durability "sealed nullable-int4 rebuild manifest checkpoint cut does not match its canonical WAL prefix")
  else Ok tt.

Definition matches_lineage (m : SealedInt4RebuildManifestV1) (identity : Canonical.CanonicalIdentity) : bool :=
  bool_decide (database_id m = Canonical.database_id identity) &&
  bool_decide (cluster_id m = Canonical.cluster_id identity) &&
  bool_decide (timeline_id m = Canonical.timeline_id identity) &&
  (lineage_format_epoch m =? Canonical.format_epoch identity).

(** ** Hexadecimal *)

Definition HEX : string := "0123456789abcdef".

Definition hex_digit (n : Z) : ascii := default "0"%char (String.get (Z.to_nat n) HEX).

Fixpoint bytes_to_lower_hex (bytes : list byte) : string :=
  match bytes with
  | [] => EmptyString
  | b :: bytes =>
      String (hex_digit (Z.shiftr (byte_val b) 4))
        (String (hex_digit (Z.land (byte_val b) 15)) (bytes_to_lower_hex bytes))
  end.

Definition nibble (value : Z) : option Z :=
  if between 48 57 value then Some (value - 48)
  else if between 97 102 value then Some (value - 97 + 10)
  else None.

(** The [chunks_exact(2)] of a text of even length. *)
Fixpoint hex_pairs (invalid : EngineError) (l : list byte) : result (list byte) EngineError :=
  match l with
  | high :: low :: l =>
      match nibble (byte_val high), nibble (byte_val low) with
      | Some high, Some low =>
          let? rest := hex_pairs invalid l in
          Ok (to_le_bytes 1 (Z.lor (Z.shiftl high 4) low) ++ rest)
      | _, _ => Err invalid
      end
  | _ => Ok []
  end.

Definition lower_hex_to_bytes (encoded : string) (path : Path) : result (list byte) EngineError :=
  let invalid := Durability ("invalid sealed nullable-int4 rebuild manifest encoding in " +:+ display path) in
  if negb (str_len encoded mod 2 =? 0) then Err invalid else hex_pairs invalid (as_bytes encoded).

(** ** The 270 bytes *)

Definition sealed_bytes (m : SealedInt4RebuildManifestV1) : list byte :=
  to_le_bytes 2 SEALED_INT4_REBUILD_ROOT_FORMAT_V1 ++ to_le_bytes 1 SEALED_INT4_REBUILD_GRAMMAR_V1 ++
  database_id m ++ cluster_id m ++ timeline_id m ++ to_le_bytes 8 (lineage_format_epoch m) ++
  to_le_bytes 8 (checkpoint_durable_record_count m) ++
  to_le_bytes 8 (default 0 (checkpoint_last_durable_txn_id m)) ++
  to_le_bytes 1 (Z.b2z (migration_complete m)) ++ to_le_bytes 4 (table_oid m) ++
  to_le_bytes 8 (stable_table_id m) ++ to_le_bytes 8 (stable_table_high_water m) ++
  to_le_bytes 8 (index_high_water m) ++ to_le_bytes 4 (current_index_count m) ++
  to_le_bytes 8 (data_generation m) ++ to_le_bytes 8 (logical_row_count m) ++
  to_le_bytes 4 (column_owner_table_oid m) ++ to_le_bytes 4 (legacy_column_id m) ++
  to_le_bytes 8 (stable_column_high_water m) ++ to_le_bytes 8 (stable_column_id m) ++
  to_le_bytes 2 (attnum m mod 2 ^ 16) ++ to_le_bytes 8 (catalog_epoch m) ++ catalog_digest m ++
  to_le_bytes 8 (covered_through m) ++ to_le_bytes 8 (visible_next m) ++ table_root m ++ database_root m.

Definition encode_sealed_int4_rebuild_manifest (m : SealedInt4RebuildManifestV1) : result string EngineError :=
  let? _ := validate m in
  Ok (bytes_to_lower_hex (sealed_bytes m)).

(** The closure [take], with the bytes that are left; [from_le_bytes] follows it in most uses. *)
Definition take_bytes (n : nat) (l : list byte) : list byte * list byte := (take n l, drop n l).

Definition take_uint (n : nat) (l : list byte) : Z * list byte := (from_le_bytes (take n l), drop n l).

(** [i16::from_le_bytes]. *)
Definition signed16 (z : Z) : Z := if z <? 2 ^ 15 then z else z - 2 ^ 16.

(** The fields behind the root format and the grammar. *)
Definition decode_fields (bytes : list byte) (path : Path) : result SealedInt4RebuildManifestV1 EngineError :=
  let '(database_id, l) := take_bytes 16 bytes in
  let '(cluster_id, l) := take_bytes 16 l in
  let '(timeline_id, l) := take_bytes 16 l in
  let '(lineage_format_epoch, l) := take_uint 8 l in
  let '(checkpoint_durable_record_count, l) := take_uint 8 l in
  let '(last_txn, l) := take_uint 8 l in
  let checkpoint_last_durable_txn_id := if last_txn =? 0 then None else Some last_txn in
  let '(flag, l) := take_uint 1 l in
  let? migration_complete :=
    if flag =? 0 then Ok false
    else if flag =? 1 then Ok true
    else Err (Durability ("invalid sealed nullable-int4 migration flag in " +:+ display path)) in
  let '(table_oid, l) := take_uint 4 l in
  let '(stable_table_id, l) := take_uint 8 l in
  let '(stable_table_high_water, l) := take_uint 8 l in
  let '(index_high_water, l) := take_uint 8 l in
  let '(current_index_count, l) := take_uint 4 l in
  let '(data_generation, l) := take_uint 8 l in
  let '(logical_row_count, l) := take_uint 8 l in
  let '(column_owner_table_oid, l) := take_uint 4 l in
  let '(legacy_column_id, l) := take_uint 4 l in
  let '(stable_column_high_water, l) := take_uint 8 l in
  let '(stable_column_id, l) := take_uint 8 l in
  let '(raw_attnum, l) := take_uint 2 l in
  let '(catalog_epoch, l) := take_uint 8 l in
  let '(catalog_digest, l) := take_bytes 32 l in
  let '(covered_through, l) := take_uint 8 l in
  let '(visible_next, l) := take_uint 8 l in
  let '(table_root, l) := take_bytes 32 l in
  let '(database_root, l) := take_bytes 32 l in
  let manifest := mkSealed database_id cluster_id timeline_id lineage_format_epoch
    checkpoint_durable_record_count checkpoint_last_durable_txn_id migration_complete table_oid
    stable_table_id stable_table_high_water index_high_water current_index_count data_generation
    logical_row_count column_owner_table_oid legacy_column_id stable_column_high_water
    stable_column_id (signed16 raw_attnum) catalog_epoch catalog_digest covered_through visible_next
    table_root database_root in
  let? _ := validate manifest in
  Ok manifest.

Definition HEADER_BYTES : Z := 206.

Definition decode_sealed_int4_rebuild_manifest (encoded : string) (path : Path)
    : result SealedInt4RebuildManifestV1 EngineError :=
  let? bytes := lower_hex_to_bytes encoded path in
  if negb (vec_len bytes =? HEADER_BYTES + 64) then
    Err (Durability ("invalid sealed nullable-int4 rebuild manifest length in " +:+ display path))
  else
    let '(root_format, l) := take_uint 2 bytes in
    if negb (root_format =? SEALED_INT4_REBUILD_ROOT_FORMAT_V1) then
      Err (Durability ("unsupported sealed nullable-int4 rebuild root format " +:+ pretty root_format +:+
                       " in " +:+ display path))
    else
      let '(grammar, l) := take_uint 1 l in
      if negb (grammar =? SEALED_INT4_REBUILD_GRAMMAR_V1) then
        Err (Durability ("unsupported sealed nullable-int4 rebuild grammar " +:+ pretty grammar +:+
                         " in " +:+ display path))
      else decode_fields l path.

End SealedManifest.

(** * The sealed manifest and its text

    A valid manifest decodes from its encoding, but for a last transaction 0, which is read back as
    none; and a text that decodes is the encoding of what it decodes to. *)

Module SealedFacts.
Import Text Paths SidecarFacts SealedManifest.

(** ** Hexadecimal *)

Lemma byte_nibbles b :
  nibble (byte_val (byte_of_ascii (hex_digit (Z.shiftr (byte_val b) 4)))) = Some (Z.shiftr (byte_val b) 4) /\
  nibble (byte_val (byte_of_ascii (hex_digit (Z.land (byte_val b) 15)))) = Some (Z.land (byte_val b) 15) /\
  to_le_bytes 1 (Z.lor (Z.shiftl (Z.shiftr (byte_val b) 4) 4) (Z.land (byte_val b) 15)) = [b].
Proof. destruct b; repeat split; vm_compute; reflexivity. Qed.

Lemma nibble_inv b h : nibble (byte_val b) = Some h -> byte_of_ascii (hex_digit h) = b /\ 0 <= h < 16.
Proof. destruct b; vm_compute; intros [= <-]; done. Qed.

Definition nibbles_join (h l : Z) : bool :=
  match to_le_bytes 1 (Z.lor (Z.shiftl h 4) l) with
  | [b] => (Z.shiftr (byte_val b) 4 =? h) && (Z.land (byte_val b) 15 =? l)
  | _ => false
  end.

Lemma nibbles_join_ok h l : 0 <= h < 16 -> 0 <= l < 16 -> nibbles_join h l = true.
Proof.
  intros Hh Hl. assert (forallb (fun h => forallb (nibbles_join h) (seqZ 0 16)) (seqZ 0 16) = true) as H by (vm_compute; reflexivity).
  rewrite forallb_forall in H. specialize (H h). rewrite forallb_forall in H.
  apply H; apply list_elem_of_In, elem_of_seqZ; lia.
Qed.

Lemma as_bytes_cons a s : as_bytes (String a s) = byte_of_ascii a :: as_bytes s.
Proof. done. Qed.

Lemma length_as_bytes s : length (as_bytes s) = String.length s.
Proof. induction s as [|a s IH]; [done|]. rewrite as_bytes_cons. cbn. by rewrite IH. Qed.

Lemma as_bytes_inj s t : as_bytes s = as_bytes t -> s = t.
Proof.
  revert t. induction s as [|a s IH]; intros [|b t]; rewrite ?as_bytes_cons; try done. intros [= E H%IH]. subst.
  apply (f_equal ascii_of_byte) in E. rewrite !ascii_of_byte_of_ascii in E. by subst.
Qed.

Lemma hex_pairs_encoded invalid l : hex_pairs invalid (as_bytes (bytes_to_lower_hex l)) = Ok l.
Proof.
  induction l as [|b l IH]; [done|]. destruct (byte_nibbles b) as (H1 & H2 & H3).
  cbn [bytes_to_lower_hex]. rewrite !as_bytes_cons. cbn [hex_pairs].
  rewrite H1, H2, IH. by rewrite H3.
Qed.

Lemma lower_hex_len l : str_len (bytes_to_lower_hex l) = 2 * vec_len l.
Proof. induction l as [|b l IH]; [done|]. unfold str_len, vec_len in *. cbn. lia. Qed.

Lemma lower_hex_round_trip l path : lower_hex_to_bytes (bytes_to_lower_hex l) path = Ok l.
Proof.
  unfold lower_hex_to_bytes. rewrite lower_hex_len, Z.mul_comm, Z.mod_mul by done. apply hex_pairs_encoded.
Qed.

(** Only the output of the encoder decodes. *)
Lemma hex_pairs_inv invalid n : forall s l, length s = (2 * n)%nat -> hex_pairs invalid s = Ok l -> s = as_bytes (bytes_to_lower_hex l).
Proof.
  induction n as [|n IH]; intros s l Hs Hp; [destruct s; [|done]; cbn in Hp; by injection Hp as <-|].
  destruct s as [|h [|l0 s]]; cbn in Hs; try lia. cbn [hex_pairs] in Hp.
  destruct (nibble (byte_val h)) as [hi|] eqn:Eh; [|done]. destruct (nibble (byte_val l0)) as [lo|] eqn:El; [|done].
  destruct (hex_pairs invalid s) as [rest|] eqn:Er; [|done]. apply IH in Er; [|lia].
  apply nibble_inv in Eh as [Eh Hh]. apply nibble_inv in El as [El Hl]. pose proof (nibbles_join_ok hi lo Hh Hl) as Hj.
  unfold nibbles_join in Hj. destruct (to_le_bytes 1 _) as [|b [|? ?]]; try done. injection Hp as <-.
  apply andb_true_iff in Hj as [E1%Z.eqb_eq E2%Z.eqb_eq]. cbn [app bytes_to_lower_hex].
  by rewrite !as_bytes_cons, E1, E2, Eh, El, <- Er.
Qed.

Lemma lower_hex_inv s l path : lower_hex_to_bytes s path = Ok l -> s = bytes_to_lower_hex l.
Proof.
  unfold lower_hex_to_bytes. destruct (Z.eqb_spec (str_len s mod 2) 0) as [E|]; [|done]. cbn [negb]. intros H.
  apply (hex_pairs_inv _ (String.length s / 2)) in H.
  - by apply as_bytes_inj.
  - rewrite length_as_bytes. unfold str_len in E.
    apply Z.div_exact in E; [|done]. change 2 with (Z.of_nat 2) in E. rewrite <- Nat2Z.inj_div, <- Nat2Z.inj_mul in E. lia.
Qed.

(** ** Fields *)

Lemma take_uint_app n a rest : length a = n -> take_uint n (a ++ rest) = (from_le_bytes a, rest).
Proof. intros <-. unfold take_uint. by rewrite take_app_length, drop_app_length. Qed.

Lemma take_bytes_app n a rest : length a = n -> take_bytes n (a ++ rest) = (a, rest).
Proof. intros <-. unfold take_bytes. by rewrite take_app_length, drop_app_length. Qed.

(** The bytes behind the root format and the grammar, field by field. *)
Record pieces := mkPieces {
  p_ids : list byte * list byte * list byte;
  p_cut : list byte * list byte * list byte * list byte;
  p_table : list byte * list byte * list byte * list byte * list byte;
  p_data : list byte * list byte;
  p_column : list byte * list byte * list byte * list byte * list byte;
  p_catalog : list byte * list byte;
  p_roots : list byte * list byte * list byte * list byte;
}.

Definition piece_list (p : pieces) : list (nat * list byte) :=
  let '(d, c, t) := p_ids p in
  let '(e, n, x, f) := p_cut p in
  let '(o, i, h, ih, ic) := p_table p in
  let '(g, r) := p_data p in
  let '(co, ci, ch, cs, att) := p_column p in
  let '(ce, cd) := p_catalog p in
  let '(ct, vn, tr, dr) := p_roots p in
  [(16, d); (16, c); (16, t); (8, e); (8, n); (8, x); (1, f); (4, o); (8, i); (8, h); (8, ih); (4, ic);
   (8, g); (8, r); (4, co); (4, ci); (8, ch); (8, cs); (2, att); (8, ce); (32, cd); (8, ct); (8, vn);
   (32, tr); (32, dr)]%nat.

Definition join_pieces (p : pieces) : list byte := List.fold_right (fun x l => x.2 ++ l) [] (piece_list p).

Definition sized (p : pieces) : Prop := Forall (fun x : nat * list byte => length x.2 = x.1) (piece_list p).

(** The manifest the pieces describe. *)
Definition assembled (p : pieces) (complete : bool) : SealedInt4RebuildManifestV1 :=
  let '(d, c, t) := p_ids p in
  let '(e, n, x, f) := p_cut p in
  let '(o, i, h, ih, ic) := p_table p in
  let '(g, r) := p_data p in
  let '(co, ci, ch, cs, att) := p_column p in
  let '(ce, cd) := p_catalog p in
  let '(ct, vn, tr, dr) := p_roots p in
  let u := from_le_bytes in
  mkSealed d c t (u e) (u n) (if u x =? 0 then None else Some (u x)) complete (u o) (u i) (u h) (u ih)
    (u ic) (u g) (u r) (u co) (u ci) (u ch) (u cs) (signed16 (u att)) (u ce) cd (u ct) (u vn) tr dr.

Definition flag_of (p : pieces) : Z := let '(_, _, _, f) := p_cut p in from_le_bytes f.

Lemma decode_pieces p path : sized p ->
  decode_fields (join_pieces p) path =
  let? complete :=
    if flag_of p =? 0 then Ok false
    else if flag_of p =? 1 then Ok true
    else Err (Durability ("invalid sealed nullable-int4 migration flag in " +:+ display path)) in
  let? _ := validate (assembled p complete) in
  Ok (assembled p complete).
Proof.
  destruct p as [[[d c] t] [[[e n] x] f] [[[[o i] h] ih] ic] [g r] [[[[co ci] ch] cs] at'] [ce cd] [[[ct vn] tr] dr]].
  unfold sized, piece_list, join_pieces. cbn [p_ids p_cut p_table p_data p_column p_catalog p_roots List.fold_right piece_list fst snd].
  rewrite !Forall_cons. cbn [fst snd]. intros H. destruct_and! H. unfold decode_fields.
  repeat (first [rewrite take_bytes_app by done|rewrite take_uint_app by done]; cbv beta iota). reflexivity.
Qed.

(** ** The bijection *)

Definition is_u32 (z : Z) : Prop := 0 <= z < 2 ^ 32.

(** Fields of their types. *)
Record sealed_ok (m : SealedInt4RebuildManifestV1) : Prop := mkSealedOk {
  so_ids : length (database_id m) = 16%nat /\ length (cluster_id m) = 16%nat /\ length (timeline_id m) = 16%nat;
  so_digests : length (catalog_digest m) = 32%nat /\ length (table_root m) = 32%nat /\ length (database_root m) = 32%nat;
  so_u64 : Forall is_u64 [lineage_format_epoch m; checkpoint_durable_record_count m; stable_table_id m;
    stable_table_high_water m; index_high_water m; data_generation m; logical_row_count m;
    stable_column_high_water m; stable_column_id m; catalog_epoch m; covered_through m; visible_next m];
  so_u32 : Forall is_u32 [table_oid m; current_index_count m; column_owner_table_oid m; legacy_column_id m];
  so_attnum : - 2 ^ 15 <= attnum m < 2 ^ 15;
  so_txn : forall t, checkpoint_last_durable_txn_id m = Some t -> is_u64 t;
}.

(** What the encoding keeps of a manifest: transaction 0 is not told from none. *)
Definition kept (m : SealedInt4RebuildManifestV1) : SealedInt4RebuildManifestV1 :=
  mkSealed (database_id m) (cluster_id m) (timeline_id m) (lineage_format_epoch m)
    (checkpoint_durable_record_count m)
    (if bool_decide (checkpoint_last_durable_txn_id m = Some 0) then None else checkpoint_last_durable_txn_id m)
    (migration_complete m) (table_oid m) (stable_table_id m) (stable_table_high_water m) (index_high_water m)
    (current_index_count m) (data_generation m) (logical_row_count m) (column_owner_table_oid m)
    (legacy_column_id m) (stable_column_high_water m) (stable_column_id m) (attnum m) (catalog_epoch m)
    (catalog_digest m) (covered_through m) (visible_next m) (table_root m) (database_root m).

Lemma kept_same m : checkpoint_last_durable_txn_id m <> Some 0 -> kept m = m.
Proof. intros H. unfold kept. rewrite bool_decide_eq_false_2 by done. by destruct m. Qed.

Lemma validate_kept m : validate (kept m) = validate m.
Proof. done. Qed.

Definition pieces_of (m : SealedInt4RebuildManifestV1) : pieces :=
  let b8 := to_le_bytes 8 in
  let b4 := to_le_bytes 4 in
  mkPieces (database_id m, cluster_id m, timeline_id m)
    (b8 (lineage_format_epoch m), b8 (checkpoint_durable_record_count m),
     b8 (default 0 (checkpoint_last_durable_txn_id m)), to_le_bytes 1 (Z.b2z (migration_complete m)))
    (b4 (table_oid m), b8 (stable_table_id m), b8 (stable_table_high_water m), b8 (index_high_water m),
     b4 (current_index_count m))
    (b8 (data_generation m), b8 (logical_row_count m))
    (b4 (column_owner_table_oid m), b4 (legacy_column_id m), b8 (stable_column_high_water m),
     b8 (stable_column_id m), to_le_bytes 2 (attnum m mod 2 ^ 16))
    (b8 (catalog_epoch m), catalog_digest m)
    (b8 (covered_through m), b8 (visible_next m), table_root m, database_root m).

Lemma sealed_bytes_pieces m :
  sealed_bytes m = to_le_bytes 2 1 ++ to_le_bytes 1 1 ++ join_pieces (pieces_of m).
Proof. unfold sealed_bytes, join_pieces, pieces_of. cbn [piece_list p_ids p_cut p_table p_data p_column p_catalog p_roots List.fold_right snd]. by rewrite app_nil_r. Qed.

Lemma sized_pieces_of m : sealed_ok m -> sized (pieces_of m).
Proof.
  intros [(? & ? & ?) (? & ? & ?) _ _ _ _]. unfold sized, pieces_of.
  cbn [piece_list p_ids p_cut p_table p_data p_column p_catalog p_roots].
  rewrite !Forall_cons. cbn [fst snd]. rewrite !length_to_le_bytes. by split_and!.
Qed.

Lemma le8 z : is_u64 z -> from_le_bytes (to_le_bytes 8 z) = z.
Proof. intros H. apply from_to_le_bytes. exact H. Qed.

Lemma le4 z : is_u32 z -> from_le_bytes (to_le_bytes 4 z) = z.
Proof. intros H. apply from_to_le_bytes. exact H. Qed.

Lemma signed16_mod z : - 2 ^ 15 <= z < 2 ^ 15 -> signed16 (z mod 2 ^ 16) = z.
Proof.
  intros Hz. unfold signed16. destruct (Z.ltb_spec (z mod 2 ^ 16) (2 ^ 15)).
  - destruct (Z.lt_ge_cases z 0); [|apply Z.mod_small; lia].
    rewrite <- (Z_mod_plus_full z 1) in H. rewrite Z.mod_small in H; lia.
  - destruct (Z.lt_ge_cases z 0); [|rewrite Z.mod_small in H; lia].
    rewrite <- (Z_mod_plus_full z 1), Z.mod_small; lia.
Qed.

Lemma assembled_pieces_of m : sealed_ok m -> assembled (pieces_of m) (migration_complete m) = kept m.
Proof.
  intros [_ _ H64 H32 Ha Ht]. rewrite !Forall_cons in H64. rewrite !Forall_cons in H32. destruct_and! H64. destruct_and! H32.
  unfold assembled, pieces_of. cbn [p_ids p_cut p_table p_data p_column p_catalog p_roots].
  assert ((if from_le_bytes (to_le_bytes 8 (default 0 (checkpoint_last_durable_txn_id m))) =? 0 then None
    else Some (from_le_bytes (to_le_bytes 8 (default 0 (checkpoint_last_durable_txn_id m))))) = if bool_decide (checkpoint_last_durable_txn_id m = Some 0) then None else checkpoint_last_durable_txn_id m) as ->.
  { destruct (checkpoint_last_durable_txn_id m) as [t|] eqn:E; [|done]. specialize (Ht t eq_refl). change (default 0 (Some t)) with t.
    rewrite le8 by done. destruct (Z.eqb_spec t 0) as [->|Hne]; [by rewrite bool_decide_eq_true_2|rewrite bool_decide_eq_false_2 by congruence; done]. }
  rewrite (from_to_le_bytes 2) by (apply Z.mod_pos_bound; done). rewrite signed16_mod by done. by rewrite !le8, !le4 by done.
Qed.

Lemma flag_pieces_of m : flag_of (pieces_of m) = Z.b2z (migration_complete m).
Proof. cbn. by destruct (migration_complete m). Qed.

(** What the encoding keeps of a valid manifest decodes from it. *)
Lemma decode_encoded m path :
  sealed_ok m -> validate m = Ok tt ->
  decode_sealed_int4_rebuild_manifest (bytes_to_lower_hex (sealed_bytes m)) path = Ok (kept m).
Proof.
  intros Hok Hv. pose proof (sized_pieces_of m Hok) as Hs.
  assert (vec_len (sealed_bytes m) = 270) as Hl.
  { rewrite sealed_bytes_pieces. destruct Hok as [(? & ? & ?) (? & ? & ?) _ _ _ _]. unfold join_pieces, vec_len.
    cbn [pieces_of piece_list p_ids p_cut p_table p_data p_column p_catalog p_roots List.fold_right snd].
    rewrite !length_app, !length_to_le_bytes. cbn [length]. lia. }
  unfold decode_sealed_int4_rebuild_manifest. rewrite lower_hex_round_trip, Hl. change (negb (270 =? HEADER_BYTES + 64)) with false.
  cbv iota. rewrite sealed_bytes_pieces. rewrite take_uint_app by done. change (from_le_bytes (to_le_bytes 2 1)) with 1. cbn [negb Z.eqb Pos.eqb SEALED_INT4_REBUILD_ROOT_FORMAT_V1].
  rewrite take_uint_app by done. change (from_le_bytes (to_le_bytes 1 1)) with 1. cbn [negb Z.eqb Pos.eqb SEALED_INT4_REBUILD_GRAMMAR_V1].
  rewrite decode_pieces by done. rewrite flag_pieces_of. pose proof (assembled_pieces_of m Hok) as Ha.
  destruct (migration_complete m); cbn [Z.b2z Z.eqb Pos.eqb]; by rewrite Ha, validate_kept, Hv.
Qed.

Lemma split_len {A} n (l : list A) : (n <= length l)%nat -> exists a b, l = a ++ b /\ length a = n.
Proof. intros. exists (take n l), (drop n l). split; [by rewrite take_drop|rewrite length_take; lia]. Qed.

Ltac cut_piece l n a H :=
  let rest := fresh "rest" in
  destruct (split_len n l) as (a & rest & -> & H); [rewrite ?length_app in *; lia|];
  rename rest into l.

Lemma split_pieces l : length l = 267%nat -> exists p, sized p /\ l = join_pieces p.
Proof.
  intros Hl.
  cut_piece l 16%nat d H1. cut_piece l 16%nat c H2. cut_piece l 16%nat t H3. cut_piece l 8%nat e H4. cut_piece l 8%nat n H5.
  cut_piece l 8%nat x H6. cut_piece l 1%nat f H7. cut_piece l 4%nat o H8. cut_piece l 8%nat i H9. cut_piece l 8%nat h H10.
  cut_piece l 8%nat ih H11. cut_piece l 4%nat ic H12. cut_piece l 8%nat g H13. cut_piece l 8%nat r H14. cut_piece l 4%nat co H15.
  cut_piece l 4%nat ci H16. cut_piece l 8%nat ch H17. cut_piece l 8%nat cs H18. cut_piece l 2%nat a H19. cut_piece l 8%nat ce H20.
  cut_piece l 32%nat cd H21. cut_piece l 8%nat ct H22. cut_piece l 8%nat vn H23. cut_piece l 32%nat tr H24. cut_piece l 32%nat dr H25.
  assert (l = []) as -> by (apply length_zero_iff_nil; rewrite !length_app in Hl; lia).
  exists (mkPieces (d, c, t) (e, n, x, f) (o, i, h, ih, ic) (g, r) (co, ci, ch, cs, a) (ce, cd) (ct, vn, tr, dr)).
  split; [|done]. unfold sized. cbn [piece_list p_ids p_cut p_table p_data p_column p_catalog p_roots].
  rewrite !Forall_cons. cbn [fst snd]. by split_and!.
Qed.

Lemma signed16_range z : 0 <= z < 2 ^ 16 -> - 2 ^ 15 <= signed16 z < 2 ^ 15 /\ signed16 z mod 2 ^ 16 = z.
Proof.
  intros Hz. unfold signed16. destruct (Z.ltb_spec z (2 ^ 15)); (split; [lia|]); [by apply Z.mod_small|].
  rewrite <- (Z_mod_plus_full (z - 2 ^ 16) 1), Z.mod_small; lia.
Qed.

Lemma le_range n l : length l = n -> 0 <= from_le_bytes l < 2 ^ (8 * Z.of_nat n).
Proof. intros <-. apply from_le_bytes_range. Qed.

(** The pieces of an assembled manifest are the pieces it was assembled from. *)
Lemma assembled_ok p complete :
  sized p -> flag_of p = Z.b2z complete -> sealed_ok (assembled p complete) /\ pieces_of (assembled p complete) = p /\
  checkpoint_last_durable_txn_id (assembled p complete) <> Some 0.
Proof.
  destruct p as [[[d c] t] [[[e n] x] f] [[[[o i] h] ih] ic] [g r] [[[[co ci] ch] cs] a] [ce cd] [[[ct vn] tr] dr]].
  unfold sized, flag_of. cbn [piece_list p_ids p_cut p_table p_data p_column p_catalog p_roots].
  rewrite !Forall_cons. cbn [fst snd]. intros (H1 & H2 & H3 & H4 & H5 & H6 & H7 & H8 & H9 & H10 & H11 & H12 & H13 & H14 & H15
    & H16 & H17 & H18 & H19 & H20 & H21 & H22 & H23 & H24 & H25 & _) Hf.
  pose proof (signed16_range (from_le_bytes a) (le_range _ _ H19)) as [Ha1 Ha2].
  assert (forall l, length l = 8%nat -> is_u64 (from_le_bytes l)) as U64 by (intros l Hl; apply (le_range 8 l Hl)).
  assert (forall l, length l = 4%nat -> is_u32 (from_le_bytes l)) as U32 by (intros l Hl; apply (le_range 4 l Hl)).
  unfold assembled. cbn [p_ids p_cut p_table p_data p_column p_catalog p_roots].
  split_and!; [| |cbn; destruct (Z.eqb_spec (from_le_bytes x) 0); congruence].
  - constructor; cbn; try done.
    + repeat constructor; by apply U64.
    + repeat constructor; by apply U32.
    + intros z. destruct (Z.eqb_spec (from_le_bytes x) 0); intros [= <-]. by apply U64.
  - unfold pieces_of. cbn [database_id cluster_id timeline_id lineage_format_epoch checkpoint_durable_record_count
      checkpoint_last_durable_txn_id migration_complete table_oid stable_table_id stable_table_high_water index_high_water
      current_index_count data_generation logical_row_count column_owner_table_oid legacy_column_id stable_column_high_water
      stable_column_id attnum catalog_epoch catalog_digest covered_through visible_next table_root database_root].
    rewrite Ha2, <- Hf, !to_from_le_bytes by done. do 2 f_equal. f_equal. f_equal.
    destruct (Z.eqb_spec (from_le_bytes x) 0) as [E|E]; cbn [default]; [rewrite <- E|]; by apply to_from_le_bytes.
Qed.

Lemma decoded_is_encoded s path m :
  decode_sealed_int4_rebuild_manifest s path = Ok m ->
  sealed_ok m /\ validate m = Ok tt /\ s = bytes_to_lower_hex (sealed_bytes m) /\ checkpoint_last_durable_txn_id m <> Some 0.
Proof.
  unfold decode_sealed_int4_rebuild_manifest. destruct (lower_hex_to_bytes s path) as [bytes|] eqn:Eh; [|done].
  apply lower_hex_inv in Eh as ->. destruct (Z.eqb_spec (vec_len bytes) (HEADER_BYTES + 64)) as [Hl|]; [|done]. cbn [negb].
  change (HEADER_BYTES + 64) with 270 in Hl. unfold vec_len in Hl.
  destruct (split_len 2 bytes) as (root & rest & -> & Hroot); [lia|]. rewrite length_app in Hl.
  destruct (split_len 1 rest) as (gram & l & -> & Hgram); [lia|]. rewrite length_app in Hl.
  rewrite take_uint_app by done. destruct (Z.eqb_spec (from_le_bytes root) SEALED_INT4_REBUILD_ROOT_FORMAT_V1) as [Er|]; [|done]. cbn [negb].
  rewrite take_uint_app by done. destruct (Z.eqb_spec (from_le_bytes gram) SEALED_INT4_REBUILD_GRAMMAR_V1) as [Eg|]; [|done]. cbn [negb].
  destruct (split_pieces l) as (p & Hp & ->); [lia|]. rewrite decode_pieces by done. intros Hd.
  assert (exists complete, flag_of p = Z.b2z complete /\ validate (assembled p complete) = Ok tt /\ m = assembled p complete) as (complete & Hf & Hv & ->).
  { destruct (Z.eqb_spec (flag_of p) 0) as [E|]; [exists false|destruct (Z.eqb_spec (flag_of p) 1) as [E|]; [exists true|done]];
      (destruct (validate _) as [[]|] eqn:Hv; [|done]; injection Hd as <-; done). }
  destruct (assembled_ok p complete Hp Hf) as (Hok & Hpc & Hne). split_and!; [done|done| |done].
  rewrite sealed_bytes_pieces, Hpc.
  assert (to_le_bytes 2 1 = root) as -> by (by rewrite <- (to_from_le_bytes 2 root Hroot), Er).
  by assert (to_le_bytes 1 1 = gram) as -> by (by rewrite <- (to_from_le_bytes 1 gram Hgram), Eg).
Qed.

End SealedFacts.
