(* ===== verification/Checkpoint.v ===== *)
(** * Checkpoints (crates/wal/src/checkpoint.rs)

    The control file that commits a checkpoint segment, and the lanes checkpoint with its sidecar:
    paths, text, atomic installation, pruning of older generations, and the readers that refuse
    anything inconsistent.  Readers see the files of [Fs]; writers change a [World] whose calls may
    fail.  [debug_str] is the [{:?}] format of a string, [list_dir] the listing of a directory. *)

From stdpp Require Import base gmap strings list pretty.
From Stdlib Require Import Strings.Ascii.
From S2P Require Import Prelude Types Bytes Text Paths Effects Disk Sidecar WalSegment Archive Canonical Envelope Identity WalCore SealedManifest.

Module Checkpoint.
Import Text Paths Sidecar Effects Disk Identity WalCore SealedManifest.

Definition WAL_CONTROL_MAGIC_V1 : string := "GPUDBWALCONTROL1".
Definition WAL_CONTROL_MAGIC : string := "GPUDBWALCONTROL2".
Definition WAL_CONTROL_MAGIC_V3 : string := "GPUDBWALCONTROL3".
Definition LANES_CHECKPOINT_MAGIC_V1 : string := "gpu-db-lanes-checkpoint v1".
Definition LANES_CHECKPOINT_MAGIC : string := "GPUDBLANESCHECKPOINT2".

Record WalControlFile := mkControl {
  control_segment : Path;
  control_checkpoint : Archive.WalCheckpointMeta;
  sealed_int4_rebuild : option SealedInt4RebuildManifestV1;
}.

Record LanesCheckpoint := mkLanes {
  serial_records : Z;
  lane_cut : Z;
  lanes_records : list Wal.WalRecord;
}.

(** ** Paths *)

Definition segment_name (segment_path : Path) : string := default "wal.segment" (file_name segment_path).

Definition wal_checkpoint_control_path (segment_path : Path) : Path :=
  with_file_name segment_path (segment_name segment_path +:+ ".control").

Definition wal_checkpoint_segment_path (segment_path : Path) : Path :=
  with_file_name segment_path (segment_name segment_path +:+ ".checkpoint").

Definition lanes_checkpoint_sidecar_path (segment_path : Path) : Path :=
  with_file_name segment_path (segment_name segment_path +:+ ".lanes-checkpoint").

Definition lanes_checkpoint_segment_path (segment_path : Path) (lane_cut : Z) : Path :=
  with_file_name segment_path (segment_name segment_path +:+ ".lanes-checkpoint.seg." +:+ pretty lane_cut).

Section checkpoint.
Context (sha256 : list byte -> list byte) (pid : Z) (try_reserve_exact : Z -> bool).

(** ** The control file *)

Definition sealed_line (encoded : option string) : string :=
  match encoded with
  | Some encoded => "sealed_int4_rebuild=" +:+ encoded +:+ newline
  | None => EmptyString
  end.

Definition control_body (control : WalControlFile) (encoded : option string) : string :=
  append_sha256_trailer sha256
    (WAL_CONTROL_MAGIC_V3 +:+ newline +:+
     "segment=" +:+ display (control_segment control) +:+ newline +:+
     "durable_record_count=" +:+ pretty (Archive.durable_record_count (control_checkpoint control)) +:+ newline +:+
     "last_durable_txn_id=" +:+
       Archive.format_optional_txn (Archive.last_durable_txn_id (control_checkpoint control)) +:+ newline +:+
     sealed_line encoded).

(** The checks on a sealed manifest before anything is written, and its encoding. *)
Definition sealed_text (control : WalControlFile) : result (option string) EngineError :=
  match sealed_int4_rebuild control with
  | None => Ok None
  | Some manifest =>
      let? _ := validate manifest in
      if negb (matches_checkpoint manifest (control_checkpoint control)) then
        Err (Durability "sealed nullable-int4 rebuild manifest is not bound to this checkpoint")
      else
        let? encoded := encode_sealed_int4_rebuild_manifest manifest in
        Ok (Some encoded)
  end.

Definition write_wal_control_file (path : Path) (control : WalControlFile) : M World EngineError unit :=
  (match parent path with
   | Some d =>
       map_err (fun err => Durability ("failed to create WAL control directory " +:+ display d +:+ ": " +:+
                                       EngineError_to_string err)) (create_wal_dir_all d)
   | None => ret tt
   end) ;;
  let tmp_path := temporary_control_path pid path in
  let! encoded := of_result (sealed_text control) in
  let body := control_body control encoded in
  let! write_result := attempt
    (os (fun err => "failed to create WAL control file " +:+ display tmp_path +:+ ": " +:+ err)
       (create tmp_path) ;;
     os (fun err => "failed to write WAL control file " +:+ display tmp_path +:+ ": " +:+ err)
       (append_all tmp_path (as_bytes body)) ;;
     os (fun err => "failed to sync WAL control file " +:+ display tmp_path +:+ ": " +:+ err)
       (sync_file tmp_path)) in
  match write_result with
  | Err e => os id (remove_file tmp_path) ;; throw e
  | Ok _ =>
      let! renamed := attempt
        (os (fun err => "failed to install WAL control file " +:+ display path +:+ ": " +:+ err)
           (rename tmp_path path)) in
      match renamed with
      | Err e => os id (remove_file tmp_path) ;; throw e
      | Ok _ => sync_segment_parent_dir path
      end
  end.

Definition invalid_control {A} (what : string) (path : Path) (err : IntErrorKind) : result A EngineError :=
  Err (Durability ("invalid WAL control " +:+ what +:+ " " +:+ display path +:+ ": " +:+
                   IntErrorKind_to_string err)).

Definition control_number (what : string) (path : Path) (raw : string) : result Z EngineError :=
  match parse_u64 raw with Ok n => Ok n | Err err => invalid_control what path err end.

(** The fields behind the magic; [v3] allows a sealed manifest. *)
Definition parse_control (v3 : bool) (ls : list string) (path : Path) : result WalControlFile EngineError :=
  let? segment := parse_control_value (ls !! 0%nat) "segment" path in
  let? raw := parse_control_value (ls !! 1%nat) "durable_record_count" path in
  let? durable_record_count := control_number "durable_record_count" path raw in
  let? raw := parse_control_value (ls !! 2%nat) "last_durable_txn_id" path in
  let? last_durable_txn_id :=
    if bool_decide (raw = "none") then Ok None
    else let? n := control_number "last_durable_txn_id" path raw in Ok (Some n) in
  let checkpoint := Archive.mkMeta durable_record_count last_durable_txn_id in
  let? (sealed, rest) :=
    match v3, drop 3 ls with
    | true, line :: rest =>
        let? raw := parse_control_value (Some line) "sealed_int4_rebuild" path in
        let? manifest := decode_sealed_int4_rebuild_manifest raw path in
        Ok (Some manifest, rest)
    | _, rest => Ok (None, rest)
    end in
  let? _ :=
    match sealed with
    | Some manifest =>
        if negb (matches_checkpoint manifest checkpoint) then
          Err (Durability ("sealed nullable-int4 rebuild manifest is not bound to checkpoint metadata in " +:+
                           display path))
        else Ok tt
    | None => Ok tt
    end in
  match rest with
  | _ :: _ => Err (Durability ("unexpected trailing WAL control fields in " +:+ display path))
  | [] => Ok (mkControl (from_str segment) checkpoint sealed)
  end.

Definition parse_control_body (body : string) (path : Path) : result WalControlFile EngineError :=
  let magic := head (lines body) in
  let v3 := bool_decide (magic = Some WAL_CONTROL_MAGIC_V3) in
  let? body :=
    if v3 || bool_decide (magic = Some WAL_CONTROL_MAGIC) then verify_sha256_trailer sha256 body path
    else if bool_decide (magic = Some WAL_CONTROL_MAGIC_V1) then Ok body
    else Err (Durability ("invalid WAL control header " +:+ display path)) in
  parse_control v3 (drop 1 (lines body)) path.

Definition read_wal_control_file (fs : Fs) (path : Path) : result WalControlFile EngineError :=
  match read_to_string fs path with
  | Err err => Err (Durability ("failed to read WAL control file " +:+ display path +:+ ": " +:+ err))
  | Ok body => parse_control_body body path
  end.

(** ** Reading a checkpoint *)

Definition validate_checkpoint_control (control_path : Path) (control : WalControlFile)
    (records : list Wal.WalRecord) : result unit EngineError :=
  let expected := control_checkpoint control in
  if negb (vec_len records =? Archive.durable_record_count expected) then
    Err (Durability ("WAL control " +:+ display control_path +:+ " expected " +:+
      pretty (Archive.durable_record_count expected) +:+ " durable records but segment contains " +:+
      pretty (vec_len records)))
  else
    let actual_last_txn := Wal.txn_id <$> last records in
    if negb (bool_decide (actual_last_txn = Archive.last_durable_txn_id expected)) then
      Err (Durability ("WAL control " +:+ display control_path +:+ " expected last durable txn " +:+
        debug_option (Archive.last_durable_txn_id expected) +:+ " but segment contains " +:+
        debug_option actual_last_txn))
    else Ok tt.

(** [None] is a panic of the segment reader. *)
Definition read_wal_checkpoint (fs : Fs) (control_path : Path)
    : Archive.fallible (WalControlFile * list Wal.WalRecord) :=
  match read_wal_control_file fs control_path with
  | Err e => Some (Err e)
  | Ok control =>
      let segment_path :=
        if absolute (control_segment control) then control_segment control
        else join (default (from_str ".") (parent control_path)) (control_segment control) in
      match Archive.read_segment_file fs segment_path with
      | None => None
      | Some (Err e) => Some (Err e)
      | Some (Ok records) =>
          let count := Archive.durable_record_count (control_checkpoint control) in
          let records := if count <? vec_len records then take (Z.to_nat count) records else records in
          Some (let? _ := validate_checkpoint_control control_path control records in
                Ok (control, records))
      end
  end.

(** ** The lanes checkpoint *)

Context (debug_str : string -> string) (list_dir : World -> Path -> list Path).

Definition sidecar_body (serial_records lane_cut : Z) (seg_name : string) : string :=
  append_sha256_trailer sha256
    (LANES_CHECKPOINT_MAGIC +:+ newline +:+ "serial_records=" +:+ pretty serial_records +:+ newline +:+
     "lane_cut=" +:+ pretty lane_cut +:+ newline +:+ "segment=" +:+ seg_name +:+ newline).

Definition generation_prefix (stem : string) : string := stem +:+ ".lanes-checkpoint.seg.".

(** The generation a directory entry belongs to. *)
Definition generation (stem : string) (entry : Path) : option Z :=
  name ← file_name entry;
  g ← strip_prefix (generation_prefix stem) name;
  ok (parse_u64 g).

(** The loop over the directory; its result says whether a file was removed. *)
Fixpoint remove_older (dir : Path) (stem : string) (lane_cut : Z) (entries : list Path) (removed : bool)
    : M World EngineError bool :=
  match entries with
  | [] => ret removed
  | entry :: entries =>
      os (fun err => "failed to enumerate an old lanes checkpoint generation in " +:+ display dir +:+
                     ": " +:+ err) fallible ;;
      match generation stem entry with
      | Some gen =>
          if gen <? lane_cut then
            os (fun err => "failed to remove old lanes checkpoint generation " +:+ display entry +:+
                           ": " +:+ err) (unlink entry) ;;
            remove_older dir stem lane_cut entries true
          else remove_older dir stem lane_cut entries removed
      | None => remove_older dir stem lane_cut entries removed
      end
  end.

Definition retire_generations (segment_path : Path) (lane_cut : Z) : M World EngineError unit :=
  match nonempty_parent segment_path, file_name segment_path with
  | Some dir, Some stem =>
      os (fun err => "failed to enumerate old lanes checkpoint generations in " +:+ display dir +:+
                     ": " +:+ err) fallible ;;
      let! w := get in
      let! removed := remove_older dir stem lane_cut (list_dir w dir) false in
      if removed then sync_segment_parent_dir (lanes_checkpoint_sidecar_path segment_path) else ret tt
  | _, _ => ret tt
  end.

(** The commit point: the sidecar written beside, synced, and renamed. *)
Definition commit_sidecar (path : Path) (body : string) : M World EngineError unit :=
  let temp := with_extension path "lanes-checkpoint.tmp" in
  os (fun err => "failed to commit lanes checkpoint sidecar " +:+ display path +:+ ": " +:+ err)
    (create temp ;; append_all temp (as_bytes body) ;; sync_file temp ;; rename temp path ;;
     match nonempty_parent path with
     | Some d => fallible ;; sync_dir d
     | None => ret tt
     end).

Definition write_lanes_checkpoint (segment_path : Path) (serial_records lane_cut : Z)
    (records : list Wal.WalRecord) : M World EngineError unit :=
  if negb (vec_len records =? u64_add serial_records lane_cut) then
    throw (Durability ("lanes checkpoint of " +:+ display segment_path +:+ " holds " +:+
      pretty (vec_len records) +:+ " record(s) but declares serial " +:+ pretty serial_records +:+
      " + lane cut " +:+ pretty lane_cut))
  else
    let seg_path := lanes_checkpoint_segment_path segment_path lane_cut in
    write_wal_segment sha256 pid try_reserve_exact seg_path records ;;
    let! seg_name := of_result (ok_or (file_name seg_path)
      (Durability ("lanes checkpoint segment path " +:+ display seg_path +:+ " has no file name"))) in
    commit_sidecar (lanes_checkpoint_sidecar_path segment_path)
      (sidecar_body serial_records lane_cut seg_name) ;;
    retire_generations segment_path lane_cut.

(** The fields of a sidecar: the serial records, the cut, and the name of the segment. *)
Definition parse_sidecar (content : string) (path : Path) : result (Z * Z * string) EngineError :=
  let malformed := Durability ("malformed lanes checkpoint sidecar " +:+ display path +:+ " (content " +:+
                               debug_str content +:+ ")") in
  if bool_decide (head (lines content) = Some LANES_CHECKPOINT_MAGIC) then
    let? verified := verify_sha256_trailer sha256 content path in
    let ls := lines verified in
    if negb (bool_decide (head ls = Some LANES_CHECKPOINT_MAGIC)) then Err malformed
    else
      let? raw := parse_control_value (ls !! 1%nat) "serial_records" path in
      let? serial_records := ok_or (ok (parse_u64 raw)) malformed in
      let? raw := parse_control_value (ls !! 2%nat) "lane_cut" path in
      let? lane_cut := ok_or (ok (parse_u64 raw)) malformed in
      let? seg_name := parse_control_value (ls !! 3%nat) "segment" path in
      if bool_decide (is_Some (ls !! 4%nat)) then Err malformed
      else Ok (serial_records, lane_cut, seg_name)
  else
    let? rest := ok_or (strip_prefix LANES_CHECKPOINT_MAGIC_V1 content) malformed in
    let fields := split_whitespace rest in
    let? serial_records := ok_or (f ← fields !! 0%nat; ok (parse_u64 f)) malformed in
    let? lane_cut := ok_or (f ← fields !! 1%nat; ok (parse_u64 f)) malformed in
    let? seg_name := ok_or (fields !! 2%nat) malformed in
    if bool_decide (is_Some (fields !! 3%nat)) then Err malformed
    else Ok (serial_records, lane_cut, seg_name).

Definition read_lanes_checkpoint (fs : Fs) (segment_path : Path) : Archive.fallible (option LanesCheckpoint) :=
  let path := lanes_checkpoint_sidecar_path segment_path in
  match read_to_string fs path with
  | Err err =>
      if bool_decide (err = not_found) then Some (Ok None)
      else Archive.fail ("failed to read lanes checkpoint sidecar " +:+ display path +:+ ": " +:+ err)
  | Ok content =>
      match parse_sidecar content path with
      | Err e => Some (Err e)
      | Ok (serial_records, lane_cut, seg_name) =>
          let seg_path := with_file_name path seg_name in
          match Archive.read_segment_file fs seg_path with
          | None => None
          | Some (Err e) => Some (Err e)
          | Some (Ok records) =>
              if negb (vec_len records =? u64_add serial_records lane_cut) then
                Archive.fail ("lanes checkpoint segment " +:+ display seg_path +:+ " holds " +:+
                  pretty (vec_len records) +:+ " record(s) but its sidecar commits to serial " +:+
                  pretty serial_records +:+ " + lane cut " +:+ pretty lane_cut +:+
                  "; refusing an inconsistent checkpoint")
              else Some (Ok (Some (mkLanes serial_records lane_cut records)))
          end
      end
  end.

End checkpoint.

End Checkpoint.
