(* ===== verification/CheckpointFacts.v ===== *)
(** * The text of checkpoint control files and sidecars

    What is written reads back, with and without a sealed manifest; a checkpoint whose segment has
    grown past its control reads as the committed prefix. *)

From stdpp Require Import base gmap strings list pretty.
From Stdlib Require Import Strings.Ascii.
From S2P Require Import Prelude Types Bytes Text Paths Uuid WalSegment WalProps Sidecar Archive ArchiveFacts Codec Canonical Envelope Effects Disk Identity WalCore DiskFacts IdentityFacts SealedManifest Checkpoint.

Module CheckpointFacts.
Import Text Paths Sidecar SidecarFacts Disk Checkpoint.

#[local] Arguments String.append !_ _ : simpl nomatch.
#[local] Arguments bool_decide : simpl never.

(** A path that survives its text on a line of its own. *)
Definition text_path (p : Path) : Prop :=
  from_str (display p) = p /\ clean_line (display p) /\ utf8_valid (display p).

(** Numbers and a sealed manifest of their types. *)
Record control_ok (c : WalControlFile) : Prop := mkControlOk {
  co_count : is_u64 (Archive.durable_record_count (control_checkpoint c));
  co_txn : ArchiveFacts.option_ok (Archive.last_durable_txn_id (control_checkpoint c));
  co_sealed : forall m, sealed_int4_rebuild c = Some m -> SealedFacts.sealed_ok m;
}.

Definition sealed_lines (encoded : option string) : list string :=
  match encoded with Some e => ["sealed_int4_rebuild=" +:+ e] | None => [] end.

Definition control_lines (c : WalControlFile) (encoded : option string) : list string :=
  [WAL_CONTROL_MAGIC_V3; "segment=" +:+ display (control_segment c);
   "durable_record_count=" +:+ pretty (Archive.durable_record_count (control_checkpoint c));
   "last_durable_txn_id=" +:+ Archive.format_optional_txn (Archive.last_durable_txn_id (control_checkpoint c))]
  ++ sealed_lines encoded.

Lemma hex_text l : clean_line (SealedManifest.bytes_to_lower_hex l) /\ utf8_valid (SealedManifest.bytes_to_lower_hex l).
Proof.
  assert (all_chars is_ascii_hexdigit (SealedManifest.bytes_to_lower_hex l) = true) as H.
  { induction l as [|b l IH]; [done|]. cbn [SealedManifest.bytes_to_lower_hex all_chars]. rewrite IH.
    destruct b; vm_compute; reflexivity. }
  split; [split; by apply (contains_char_all _ is_ascii_hexdigit)|]. apply utf8_ascii.
  eapply all_chars_impl; [|exact H]. intros a. unfold is_ascii_hexdigit, is_ascii, between.
  rewrite !orb_true_iff, !andb_true_iff, !Z.leb_le, Z.ltb_lt. lia.
Qed.

Lemma field_text key v :
  clean_line key -> all_chars is_ascii key = true -> clean_line v /\ utf8_valid v -> clean_line (key +:+ v) /\ utf8_valid (key +:+ v).
Proof. intros Hk Ha [Hc Hu]. split; [by apply clean_line_app|]. apply utf8_valid_app; [by apply utf8_ascii|done]. Qed.

Lemma none_is_not_a_number t : is_u64 t -> pretty t <> "none".
Proof. intros [H _] E. pose proof (pretty_digits t H) as Hd. by rewrite E in Hd. Qed.

Section text.
Context (sha256 : list byte -> list byte) (Hsha : forall l, length (sha256 l) = 32%nat).

Lemma control_body_lines c encoded :
  control_body sha256 c encoded = append_sha256_trailer sha256 (unlines (control_lines c encoded)).
Proof.
  unfold control_body, control_lines, sealed_line, sealed_lines, unlines, newline.
  destruct encoded as [e|]; cbn [List.fold_right app]; by text_norm.
Qed.

Context (c : WalControlFile) (encoded : option string).
Context (Hc : control_ok c) (Henc : sealed_text c = Ok encoded).

(** The refusal of a sealed manifest that names other checkpoint metadata. *)
Definition unbound (path : Path) : EngineError :=
  Durability ("sealed nullable-int4 rebuild manifest is not bound to checkpoint metadata in " +:+ display path).

(** What reading gives of a control file whose segment path is text. *)
Definition read_back (path : Path) : result WalControlFile EngineError :=
  match sealed_int4_rebuild c with
  | Some m => if bool_decide (SealedManifest.checkpoint_last_durable_txn_id m = Some 0) then Err (unbound path) else Ok c
  | None => Ok c
  end.

Lemma encoded_text : forall e, encoded = Some e -> clean_line e /\ utf8_valid e.
Proof.
  intros e ->. unfold sealed_text in Henc. destruct (sealed_int4_rebuild c) as [m|]; [|done].
  destruct (SealedManifest.validate m) as [[]|] eqn:Hv; [|done]. destruct (negb _); [done|].
  unfold SealedManifest.encode_sealed_int4_rebuild_manifest in Henc. rewrite Hv in Henc.
  revert Henc. generalize (SealedManifest.sealed_bytes m). intros l [= <-]. apply hex_text.
Qed.

(** The lines behind the segment. *)
Lemma number_lines_ok : Forall (fun l => clean_line l /\ utf8_valid l) (drop 2 (control_lines c encoded)).
Proof.
  pose proof encoded_text as He. destruct Hc as [[Hn _] Ht _]. unfold control_lines. cbn [drop app]. apply (Forall_app_2 _ [_; _]).
  - apply Forall_cons_2; [apply field_text; [done..|split; [by apply clean_pretty|by apply utf8_pretty]]|].
    apply Forall_cons_2; [|constructor]. apply field_text; [done..|].
    split; [by apply ArchiveFacts.format_optional_clean|by apply ArchiveFacts.format_optional_utf8].
  - destruct encoded as [e|]; [|constructor]. apply Forall_cons_2; [|constructor]. apply field_text; [done..|by apply He].
Qed.

Lemma control_lines_ok : text_path (control_segment c) -> Forall (fun l => clean_line l /\ utf8_valid l) (control_lines c encoded).
Proof.
  intros (_ & Hp1 & Hp2). apply Forall_cons_2; [by split; [|apply utf8_ascii]|].
  apply Forall_cons_2; [by apply field_text|]. apply number_lines_ok.
Qed.

Lemma control_body_utf8 : text_path (control_segment c) -> utf8_valid (control_body sha256 c encoded).
Proof.
  intros Hp. rewrite control_body_lines. apply utf8_trailer, utf8_unlines. eapply Forall_impl; [by apply control_lines_ok|]. by intros l [].
Qed.

(** Behind the checksum the parser sees the lines that were written. *)
Lemma parse_written path :
  parse_control_body sha256 (control_body sha256 c encoded) path
  = parse_control true (drop 1 (lines (unlines (control_lines c encoded)))) path.
Proof.
  rewrite control_body_lines. unfold parse_control_body.
  assert (head (lines (append_sha256_trailer sha256 (unlines (control_lines c encoded)))) = Some WAL_CONTROL_MAGIC_V3) as ->.
  { unfold append_sha256_trailer. change (unlines (control_lines c encoded))
      with (WAL_CONTROL_MAGIC_V3 +:+ String nl (unlines (tail (control_lines c encoded)))).
    text_norm. by rewrite (lines_cons WAL_CONTROL_MAGIC_V3). }
  rewrite bool_decide_eq_true_2 by done. cbn [orb].
  by rewrite trailer_round_trip by (done || right; by apply unlines_last).
Qed.

Lemma control_round_trip path :
  text_path (control_segment c) -> parse_control_body sha256 (control_body sha256 c encoded) path = read_back path.
Proof.
  intros Htext. assert (Forall clean_line (control_lines c encoded)) as Hcl by (eapply Forall_impl; [by apply control_lines_ok|]; by intros l []).
  rewrite parse_written, lines_unlines by done. unfold read_back.
  unfold parse_control. destruct Htext as [Hp _]. destruct Hc as [Hn Ht Hs].
  change (drop 1 (control_lines c encoded) !! 0%nat) with (Some ("segment" +:+ "=" +:+ display (control_segment c))).
  change (drop 1 (control_lines c encoded) !! 1%nat)
    with (Some ("durable_record_count" +:+ "=" +:+ pretty (Archive.durable_record_count (control_checkpoint c)))).
  change (drop 1 (control_lines c encoded) !! 2%nat) with (Some ("last_durable_txn_id" +:+ "=" +:+
    Archive.format_optional_txn (Archive.last_durable_txn_id (control_checkpoint c)))).
  change (drop 3 (drop 1 (control_lines c encoded))) with (sealed_lines encoded).
  rewrite !IdentityFacts.control_value. unfold control_number. rewrite parse_pretty by done. rewrite Hp.
  assert ((if bool_decide (Archive.format_optional_txn (Archive.last_durable_txn_id (control_checkpoint c)) = "none") then Ok None
    else let? n := match parse_u64 (Archive.format_optional_txn (Archive.last_durable_txn_id (control_checkpoint c))) with
                   | Ok n => Ok n | Err err => invalid_control "last_durable_txn_id" path err end in Ok (Some n))
    = Ok (Archive.last_durable_txn_id (control_checkpoint c))) as ->.
  { destruct (Archive.last_durable_txn_id _) as [t|]; [|done]. cbn in Ht |- *.
    rewrite bool_decide_eq_false_2 by (by apply none_is_not_a_number). by rewrite parse_pretty. }
  assert (Archive.mkMeta (Archive.durable_record_count (control_checkpoint c)) (Archive.last_durable_txn_id (control_checkpoint c))
    = control_checkpoint c) as -> by (by destruct (control_checkpoint c)).
  pose proof Henc as He. unfold sealed_text in He. destruct (sealed_int4_rebuild c) as [m|] eqn:Em.
  - destruct (SealedManifest.validate m) as [[]|] eqn:Hv; [|done]. destruct (SealedManifest.matches_checkpoint m (control_checkpoint c)) eqn:Hm; [|done].
    cbn [negb] in He. unfold SealedManifest.encode_sealed_int4_rebuild_manifest in He. rewrite Hv in He.
    pose proof (SealedFacts.decode_encoded m path (Hs m eq_refl) Hv) as Hd. revert He Hd. generalize (SealedManifest.sealed_bytes m). intros l [= <-] Hd.
    cbn [sealed_lines]. change ("sealed_int4_rebuild=" +:+ ?x) with ("sealed_int4_rebuild" +:+ "=" +:+ x).
    rewrite IdentityFacts.control_value, Hd. cbn iota beta. case_bool_decide as H0.
    + unfold SealedManifest.matches_checkpoint in Hm. apply andb_true_iff in Hm as [_ Hm%bool_decide_eq_true].
      unfold SealedManifest.matches_checkpoint. cbn [SealedFacts.kept SealedManifest.checkpoint_last_durable_txn_id].
      rewrite <- Hm, H0, (bool_decide_eq_true_2 (Some 0 = Some 0)), (bool_decide_eq_false_2 (None = Some 0)) by done. by rewrite andb_false_r.
    + rewrite SealedFacts.kept_same, Hm by done. cbn [negb]. rewrite <- Em. by destruct c.
  - injection He as <-. cbn [sealed_lines]. rewrite <- Em. by destruct c.
Qed.

Lemma read_control fs path :
  text_path (control_segment c) -> fs !! path = Some (as_bytes (control_body sha256 c encoded)) ->
  read_wal_control_file sha256 fs path = read_back path.
Proof.
  intros Ht Hf. unfold read_wal_control_file, read_to_string. rewrite Hf, from_utf8_as_bytes by by apply control_body_utf8.
  by apply control_round_trip.
Qed.

(** A line feed in the path shifts the fields behind it; the reader refuses the file. *)
Lemma parse_shifted ls path :
  ls !! 2%nat = Some ("durable_record_count" +:+ "=" +:+ pretty (Archive.durable_record_count (control_checkpoint c))) \/
    (5 <= length ls)%nat ->
  exists e, parse_control true ls path = Err e.
Proof.
  intros Hls. unfold parse_control.
  destruct (parse_control_value (ls !! 0%nat) "segment" path) as [p|e]; [|by exists e].
  destruct (parse_control_value (ls !! 1%nat) "durable_record_count" path) as [raw|e]; [|by exists e].
  destruct (control_number "durable_record_count" path raw) as [n|e]; [|by exists e].
  destruct Hls as [->|Hlen].
  { destruct (parse_control_value _ "last_durable_txn_id" path) as [raw'|e] eqn:E; [|by exists e].
    unfold parse_control_value in E. by cbn in E. }
  destruct (parse_control_value (ls !! 2%nat) _ path) as [raw'|e]; [|by exists e].
  destruct (if bool_decide (raw' = "none") then _ else _) as [t|e]; [|by exists e].
  destruct ls as [|l0 [|l1 [|l2 [|l3 [|l4 ls]]]]]; cbn in Hlen; try lia. cbn [drop].
  destruct (parse_control_value (Some l3) _ path) as [raw''|e]; [|by exists e].
  destruct (SealedManifest.decode_sealed_int4_rebuild_manifest raw'' path) as [m|e]; [|by exists e].
  destruct (SealedManifest.matches_checkpoint _ _); cbn [negb]; by eexists.
Qed.

Lemma control_broken path :
  contains_char nl (display (control_segment c)) = true -> exists e, parse_control_body sha256 (control_body sha256 c encoded) path = Err e.
Proof.
  intros Hp. rewrite parse_written. apply parse_shifted.
  pose proof number_lines_ok as Hn. assert (Forall clean_line (drop 2 (control_lines c encoded))) as Hcl by (eapply Forall_impl; [exact Hn|]; by intros l []).
  destruct (first_line _ Hp) as (a & b & E & Ha).
  change (unlines (control_lines c encoded)) with (WAL_CONTROL_MAGIC_V3 +:+ String nl (("segment=" +:+ display (control_segment c)) +:+
    String nl (unlines (drop 2 (control_lines c encoded))))).
  rewrite (lines_cons WAL_CONTROL_MAGIC_V3) by done. cbn [drop]. rewrite E. set (R := unlines _).
  assert (("segment=" +:+ a +:+ String nl b) +:+ String nl R = ("segment=" +:+ a) +:+ String nl (b +:+ String nl R)) as ->
    by (by rewrite !string_app_assoc).
  rewrite lines_first by (by rewrite contains_char_app, Ha).
  destruct (contains_char nl b) eqn:Hb.
  - right. destruct (first_line b Hb) as (b1 & b2 & -> & Hb1).
    assert ((b1 +:+ String nl b2) +:+ String nl R = b1 +:+ String nl (b2 +:+ String nl R)) as -> by (by rewrite string_app_assoc).
    rewrite lines_first by done. cbn [drop length]. pose proof (lines_longer b2 R) as Hl. unfold R in Hl at 1. rewrite lines_unlines in Hl by done.
    assert (2 <= length (drop 2 (control_lines c encoded)))%nat; [|lia]. unfold control_lines. cbn [drop app length]. lia.
  - left. rewrite lines_first by done. unfold R. by rewrite lines_unlines.
Qed.

Lemma read_broken fs path :
  contains_char nl (display (control_segment c)) = true -> fs !! path = Some (as_bytes (control_body sha256 c encoded)) ->
  exists e, read_wal_control_file sha256 fs path = Err e.
Proof.
  intros Hp Hf. unfold read_wal_control_file. destruct (read_to_string fs path) as [body|e] eqn:E; [|by eexists].
  unfold read_to_string in E. rewrite Hf in E.
  assert (body = control_body sha256 c encoded) as ->.
  { unfold from_utf8 in E. destruct (run_utf8_validation 0 _); [done|]. injection E as <-. apply String.string_of_list_byte_of_string. }
  by apply control_broken.
Qed.

End text.

(** ** Reading a checkpoint *)

Section read.
Context (sha256 : list byte -> list byte).

(** A segment that has grown past its control reads as the committed prefix. *)
Lemma read_checkpoint_prefix fs control_path c rs :
  read_wal_control_file sha256 fs control_path = Ok c ->
  fs !! Archive.resolve_manifest_path control_path (control_segment c) = Some (Wal.segment_bytes rs) ->
  Forall WalProps.record_ok rs ->
  let count := Archive.durable_record_count (control_checkpoint c) in
  0 <= count <= vec_len rs ->
  Wal.txn_id <$> last (take (Z.to_nat count) rs) = Archive.last_durable_txn_id (control_checkpoint c) ->
  read_wal_checkpoint sha256 fs control_path = Some (Ok (c, take (Z.to_nat count) rs)).
Proof.
  intros Hc Hf Hrs count Hn Ht. unfold read_wal_checkpoint. rewrite Hc.
  change (if absolute (control_segment c) then control_segment c
    else join (default (from_str ".") (parent control_path)) (control_segment c))
    with (Archive.resolve_manifest_path control_path (control_segment c)).
  unfold Archive.read_segment_file. rewrite Hf, WalProps.read_segment_bytes by done. fold count.
  assert ((if count <? vec_len rs then take (Z.to_nat count) rs else rs) = take (Z.to_nat count) rs) as ->.
  { destruct (Z.ltb_spec count (vec_len rs)); [done|]. rewrite take_ge; [done|]. unfold vec_len in *. lia. }
  unfold validate_checkpoint_control. fold count.
  assert (vec_len (take (Z.to_nat count) rs) = count) as -> by (unfold vec_len in *; rewrite length_take; lia).
  by rewrite Z.eqb_refl, Ht, bool_decide_eq_true_2.
Qed.

(** What the reader returns is bound to the control file: as many records as it commits to, ending
    in its last transaction, and a prefix of the segment it names. *)
Lemma read_checkpoint_bound fs control_path c rs :
  read_wal_checkpoint sha256 fs control_path = Some (Ok (c, rs)) ->
  read_wal_control_file sha256 fs control_path = Ok c /\
  vec_len rs = Archive.durable_record_count (control_checkpoint c) /\
  Wal.txn_id <$> last rs = Archive.last_durable_txn_id (control_checkpoint c) /\
  exists all, Archive.read_segment_file fs (Archive.resolve_manifest_path control_path (control_segment c)) = Some (Ok all) /\
    rs `prefix_of` all.
Proof.
  unfold read_wal_checkpoint. destruct (read_wal_control_file sha256 fs control_path) as [c'|]; [|done].
  change (if absolute (control_segment c') then control_segment c'
    else join (default (from_str ".") (parent control_path)) (control_segment c'))
    with (Archive.resolve_manifest_path control_path (control_segment c')).
  destruct (Archive.read_segment_file fs _) as [[all|]|] eqn:Hall; [|done..].
  unfold validate_checkpoint_control. set (rs' := if _ <? vec_len all then _ else _).
  destruct (Z.eqb_spec (vec_len rs') (Archive.durable_record_count (control_checkpoint c'))) as [Hl|]; [|done]. cbn [negb].
  case_bool_decide as Ht; [|done]. intros [= <- <-]. split_and!; [done..|]. exists all. split; [done|].
  subst rs'. destruct (_ <? vec_len all); [apply prefix_take|done].
Qed.

End read.

(** ** The sidecar *)

Section sidecar.
Context (sha256 : list byte -> list byte) (Hsha : forall l, length (sha256 l) = 32%nat) (debug_str : string -> string).
Context (serial cut : Z) (name : string).
Context (Hserial : is_u64 serial) (Hcut : is_u64 cut) (Hname : clean_line name /\ utf8_valid name).

Definition sidecar_lines : list string :=
  [LANES_CHECKPOINT_MAGIC; "serial_records=" +:+ pretty serial; "lane_cut=" +:+ pretty cut; "segment=" +:+ name].

Lemma sidecar_body_lines : sidecar_body sha256 serial cut name = append_sha256_trailer sha256 (unlines sidecar_lines).
Proof. unfold sidecar_body, sidecar_lines, unlines, newline. cbn [List.fold_right]. by text_norm. Qed.

Lemma number_text z : is_u64 z -> clean_line (pretty z) /\ utf8_valid (pretty z).
Proof. intros []. split; [by apply clean_pretty|by apply utf8_pretty]. Qed.

Lemma sidecar_lines_ok : Forall (fun l => clean_line l /\ utf8_valid l) sidecar_lines.
Proof.
  apply Forall_cons_2; [by split; [|apply utf8_ascii]|].
  apply Forall_cons_2; [apply field_text; [done..|by apply number_text]|].
  apply Forall_cons_2; [apply field_text; [done..|by apply number_text]|].
  apply Forall_cons_2; [by apply field_text|constructor].
Qed.

Lemma sidecar_utf8 : utf8_valid (sidecar_body sha256 serial cut name).
Proof.
  rewrite sidecar_body_lines. apply utf8_trailer, utf8_unlines. eapply Forall_impl; [apply sidecar_lines_ok|]. by intros l [].
Qed.

Lemma sidecar_round_trip path : parse_sidecar sha256 debug_str (sidecar_body sha256 serial cut name) path = Ok (serial, cut, name).
Proof.
  assert (Forall clean_line sidecar_lines) as Hcl by (eapply Forall_impl; [apply sidecar_lines_ok|]; by intros l []).
  unfold parse_sidecar. rewrite sidecar_body_lines.
  rewrite bool_decide_eq_true_2.
  2: { unfold append_sha256_trailer. change (unlines sidecar_lines) with (LANES_CHECKPOINT_MAGIC +:+ String nl (unlines (tail sidecar_lines))).
       text_norm. by rewrite (lines_cons LANES_CHECKPOINT_MAGIC). }
  rewrite trailer_round_trip by (done || right; by apply unlines_last). rewrite lines_unlines by done.
  rewrite (bool_decide_eq_true_2 (head sidecar_lines = _)) by done. cbn [negb].
  change (sidecar_lines !! 1%nat) with (Some ("serial_records" +:+ "=" +:+ pretty serial)).
  change (sidecar_lines !! 2%nat) with (Some ("lane_cut" +:+ "=" +:+ pretty cut)).
  change (sidecar_lines !! 3%nat) with (Some ("segment" +:+ "=" +:+ name)). change (sidecar_lines !! 4%nat) with (@None string).
  rewrite !IdentityFacts.control_value, !parse_pretty by done. cbn [ok ok_or].
  by rewrite bool_decide_eq_false_2 by (by intros [? ?]).
Qed.

End sidecar.

End CheckpointFacts.

(** * The files beside a segment

    Control files, checkpoints, sidecars and temporary files are named after the segment they
    belong to and live in its directory.  Their names are a suffix of the segment's, with a leading
    dot for temporary files; distinct suffixes give distinct files. *)

Module Names.
Import Text Paths Sidecar SidecarFacts Identity WalCore DiskFacts Checkpoint.

#[local] Arguments String.append !_ _ : simpl nomatch.

(** ** Strings *)

Lemma string_app_inj (s t u : string) : s +:+ t = s +:+ u -> t = u.
Proof. induction s as [|a s IH]; cbn; [done|]. intros [= H]. by apply IH. Qed.

(** Leading dots. *)
Fixpoint dots (s : string) : nat :=
  match s with
  | String a s => if bool_decide (a = "."%char) then S (dots s) else O
  | EmptyString => O
  end.

Lemma dots_app s t u : (dots t <= dots u)%nat -> (dots (s +:+ t) <= dots (s +:+ u))%nat.
Proof. intros H. induction s as [|a s IH]; cbn; [done|]. case_bool_decide; lia. Qed.

(** A name and a hidden name never meet. *)
Lemma visible_hidden s t u : (dots t <= dots u)%nat -> s +:+ t <> String "."%char (s +:+ u).
Proof.
  intros H E. apply (f_equal dots) in E. pose proof (dots_app s t u H) as Hd. cbn in E.
  rewrite bool_decide_eq_true_2 in E by done. lia.
Qed.

Lemma pretty_digits_no_dot z : 0 <= z -> contains_char "." (pretty z) = false.
Proof. intros Hz. by apply pretty_lacks. Qed.

Lemma pretty_Z_inj a b : is_u64 a -> is_u64 b -> pretty a = pretty b -> a = b.
Proof. intros Ha Hb E. pose proof (parse_pretty a Ha) as H. rewrite E, parse_pretty in H by done. by injection H. Qed.

(** ** Components *)

(** A file name: one component of a path. *)
Record plain (name : string) : Prop := mkPlain {
  pl_slash : contains_char "/" name = false;
  pl_empty : name <> EmptyString;
  pl_dot : name <> ".";
  pl_dotdot : name <> "..";
}.

Lemma plain_from_str name : plain name -> from_str name = mkPath false [name].
Proof.
  intros []. unfold from_str. rewrite split_char_none by done. rewrite (bool_decide_eq_false_2 (name = EmptyString)) by done.
  cbn [andb]. rewrite bool_decide_eq_false_2 by done. cbn [List.filter]. unfold is_component.
  by rewrite !bool_decide_eq_false_2 by done.
Qed.

(** The file [name] in the directory of [p]. *)
Definition beside (p : Path) (name : string) : Path :=
  mkPath (absolute p) (removelast (components p) ++ [name]).

Lemma beside_inj p a b : beside p a = beside p b -> a = b.
Proof. unfold beside. intros [= H]. apply app_inj_tail in H. by destruct H. Qed.

Lemma beside_file_name p name : plain name -> file_name (beside p name) = Some name.
Proof.
  intros []. unfold file_name, beside. cbn [components]. rewrite last_snoc.
  by rewrite !bool_decide_eq_false_2 by done.
Qed.

Lemma beside_beside p a b : beside (beside p a) b = beside p b.
Proof. unfold beside. cbn [absolute components]. by rewrite removelast_last. Qed.

Lemma beside_parent p name : parent (beside p name) = Some (mkPath (absolute p) (removelast (components p))).
Proof.
  unfold parent, beside. cbn [absolute components]. destruct (removelast (components p) ++ [name]) as [|x l] eqn:E.
  - by destruct (removelast (components p)).
  - by rewrite <- E, removelast_last.
Qed.

Lemma with_beside p old name : file_name p = Some old -> plain name -> with_file_name p name = beside p name.
Proof.
  intros Hp Hn. unfold with_file_name, beside. rewrite Hp, plain_from_str by done. unfold join, is_empty. cbn [absolute components].
  destruct Hn. case_bool_decide as E; destruct (absolute p) eqn:Ea; cbn [negb andb].
  - rewrite E. by destruct name as [|[[] [] [] [] [] [] [] []] [|? ?]].
  - by rewrite E.
  - by destruct name as [|[[] [] [] [] [] [] [] []] [|? ?]].
  - by destruct name as [|[[] [] [] [] [] [] [] []] [|? ?]].
Qed.

(** ** The files of one segment *)

Section segment.
Context (pid : Z) (seg : Path) (stem : string).
Context (Hpid : 0 <= pid) (Hname : file_name seg = Some stem) (Hstem : plain stem).

Definition own (suffix : string) : Path := beside seg (stem +:+ suffix).
Definition hidden (suffix : string) : Path := beside seg (String "."%char (stem +:+ suffix)).

(** A suffix of two characters or more without a separator. *)
Definition suffix_ok (t : string) : Prop := contains_char "/" t = false /\ (2 <= String.length t)%nat.

Lemma plain_suffix t : suffix_ok t -> plain (stem +:+ t).
Proof.
  intros [Hs Hl]. destruct Hstem as [H1 H2 _ _]. assert (1 <= String.length stem)%nat as Hn by (destruct stem; [done|cbn; lia]).
  constructor; [by rewrite contains_char_app, H1|..]; intros E; apply (f_equal String.length) in E; rewrite length_append in E; cbn in E; lia.
Qed.

Lemma plain_hidden t : suffix_ok t -> plain (String "."%char (stem +:+ t)).
Proof.
  intros [Hs Hl]. destruct Hstem as [H1 H2 _ _].
  constructor; [cbn; by rewrite contains_char_app, H1|..]; intros E; apply (f_equal String.length) in E; cbn in E; rewrite length_append in E; lia.
Qed.

Lemma own_differ t u : t <> u -> own t <> own u.
Proof. intros Hn E%beside_inj%string_app_inj. done. Qed.

Lemma hidden_differ t u : t <> u -> hidden t <> hidden u.
Proof. intros Hn E%beside_inj. injection E as E%string_app_inj. done. Qed.

Lemma own_hidden t u : (dots t <= dots u)%nat -> own t <> hidden u.
Proof. intros Hd E%beside_inj. by apply visible_hidden in E. Qed.

Lemma hidden_own t u : (dots u <= dots t)%nat -> hidden t <> own u.
Proof. intros Hd E. symmetry in E. by apply own_hidden in E. Qed.

Lemma seg_own : seg = own EmptyString.
Proof.
  unfold own, beside. rewrite string_app_nil_r. destruct seg as [abs cs]. unfold file_name in Hname. cbn in *.
  destruct (last cs) as [c|] eqn:E; [|done]. destruct (_ || _); [done|]. injection Hname as ->.
  apply last_Some in E as [l' ->]. by rewrite removelast_last.
Qed.

Lemma own_with t name : suffix_ok t -> plain name -> with_file_name (own t) name = beside seg name.
Proof.
  intros Ht Hn. unfold own. rewrite (with_beside _ (stem +:+ t)), beside_beside; [done| |done].
  by apply beside_file_name, plain_suffix.
Qed.

Lemma seg_with t : suffix_ok t -> with_file_name seg (stem +:+ t) = own t.
Proof. intros Ht. by apply (with_beside _ stem), plain_suffix. Qed.

Lemma own_file_name t : suffix_ok t -> file_name (own t) = Some (stem +:+ t).
Proof. intros Ht. by apply beside_file_name, plain_suffix. Qed.

Definition temp_suffix (t : string) : string := t +:+ ".tmp." +:+ pretty pid.

Lemma pid_no_slash : contains_char "/" (pretty pid) = false.
Proof. by apply pretty_lacks. Qed.

Lemma temp_suffix_ok t : suffix_ok t \/ t = EmptyString -> suffix_ok (temp_suffix t).
Proof.
  intros Ht. split.
  - unfold temp_suffix. rewrite !contains_char_app, pid_no_slash. by destruct Ht as [[-> _]| ->].
  - unfold temp_suffix. rewrite !length_append. cbn. lia.
Qed.

Lemma temp_control t : suffix_ok t -> temporary_control_path pid (own t) = hidden (temp_suffix t).
Proof.
  intros Ht. unfold temporary_control_path. rewrite own_file_name by done. cbn [default from_option id].
  change ("." +:+ ?s) with (String "."%char s). rewrite string_app_assoc.
  apply own_with; [done|]. apply (plain_hidden (temp_suffix t)), temp_suffix_ok. by left.
Qed.

Lemma temp_segment t : suffix_ok t -> temporary_segment_path pid (own t) = hidden (temp_suffix t).
Proof.
  intros Ht. unfold temporary_segment_path. rewrite own_file_name by done. cbn [default from_option id].
  change ("." +:+ ?s) with (String "."%char s). rewrite string_app_assoc.
  apply own_with; [done|]. apply (plain_hidden (temp_suffix t)), temp_suffix_ok. by left.
Qed.

Lemma temp_seg : temporary_segment_path pid seg = hidden (temp_suffix EmptyString).
Proof.
  unfold temporary_segment_path. rewrite Hname. cbn [default from_option id].
  apply (with_beside _ stem); [done|]. apply (plain_hidden (temp_suffix EmptyString)), temp_suffix_ok. by right.
Qed.

Lemma tail_own : wal_tail_offset_path seg = own ".tail".
Proof. unfold wal_tail_offset_path. rewrite Hname. apply seg_with. split; [done|cbn; lia]. Qed.

Lemma identity_seg : durable_identity_path seg = own ".identity".
Proof. unfold durable_identity_path. rewrite Hname. apply seg_with. split; [done|cbn; lia]. Qed.

Lemma identity_suffix_ok t : suffix_ok t -> suffix_ok (t +:+ ".identity").
Proof. intros [Hs Hl]. split; [by rewrite contains_char_app, Hs|]. rewrite length_append. cbn. lia. Qed.

Lemma identity_own t : suffix_ok t -> durable_identity_path (own t) = own (t +:+ ".identity").
Proof.
  intros Ht. unfold durable_identity_path. rewrite own_file_name by done. cbn [default from_option id]. rewrite string_app_assoc.
  apply own_with; [done|]. by apply plain_suffix, identity_suffix_ok.
Qed.

Lemma own_parent t : suffix_ok t -> nonempty_parent (own t) = nonempty_parent seg.
Proof.
  intros Ht. unfold nonempty_parent. rewrite seg_own at 1. unfold own at 1 2. by rewrite !beside_parent.
Qed.

Lemma own_not_seg t : t <> EmptyString -> own t <> seg.
Proof. intros Hn E. apply (own_differ t EmptyString Hn). rewrite E. exact seg_own. Qed.

Lemma hidden_not_seg t : hidden t <> seg.
Proof. intros E. apply (hidden_own t EmptyString ltac:(cbn; lia)). rewrite E. exact seg_own. Qed.

(** The files of a buffer have names of their own. *)
Lemma own_paths_ok : (exists d, nonempty_parent seg = Some d) -> own_paths pid seg.
Proof.
  intros Hd. constructor; rewrite ?tail_own, ?identity_seg, ?temp_seg, ?temp_control by (split; [done|cbn; lia]);
    by apply own_not_seg || by apply hidden_not_seg || done.
Qed.

Lemma control_own : wal_checkpoint_control_path seg = own ".control".
Proof. unfold wal_checkpoint_control_path, segment_name. rewrite Hname. apply seg_with. split; [done|cbn; lia]. Qed.

Lemma checkpoint_own : wal_checkpoint_segment_path seg = own ".checkpoint".
Proof. unfold wal_checkpoint_segment_path, segment_name. rewrite Hname. apply seg_with. split; [done|cbn; lia]. Qed.

Lemma sidecar_own : lanes_checkpoint_sidecar_path seg = own ".lanes-checkpoint".
Proof. unfold lanes_checkpoint_sidecar_path, segment_name. rewrite Hname. apply seg_with. split; [done|cbn; lia]. Qed.

Definition generation_suffix (cut : Z) : string := ".lanes-checkpoint.seg." +:+ pretty cut.

Lemma generation_suffix_ok cut : 0 <= cut -> suffix_ok (generation_suffix cut).
Proof.
  intros Hc. split; [|cbn; lia]. unfold generation_suffix. rewrite contains_char_app, (pretty_lacks "/" cut) by done. done.
Qed.

Lemma generation_own cut : 0 <= cut -> lanes_checkpoint_segment_path seg cut = own (generation_suffix cut).
Proof.
  intros Hc. unfold lanes_checkpoint_segment_path, segment_name. rewrite Hname. by apply seg_with, generation_suffix_ok.
Qed.

Lemma sidecar_temp : with_extension (own ".lanes-checkpoint") "lanes-checkpoint.tmp" = own ".lanes-checkpoint.tmp".
Proof.
  assert (suffix_ok ".lanes-checkpoint") as Hs by (split; [done|cbn; lia]).
  unfold with_extension, file_stem. rewrite own_file_name by done.
  assert (rsplit_at "." (stem +:+ ".lanes-checkpoint") = Some (stem, ".lanes-checkpoint")) as ->.
  { rewrite (rsplit_at_app "." stem ".lanes-checkpoint"); [done|]. done. }
  rewrite bool_decide_eq_false_2 by apply Hstem. unfold own, beside. cbn [absolute components]. by rewrite removelast_last.
Qed.

End segment.

End Names.

(** * Checkpoint files are installed whole

    Whatever calls fail while a checkpoint segment, a control file or a lanes checkpoint is
    written, a crash finds what was there before or the complete new file; after a success only the
    new one.  A run in which every call from some point on fails is a crash at that point. *)

Module CheckpointWrite.
Import Text Paths Sidecar Effects Disk Identity WalCore DiskFacts Checkpoint CheckpointFacts Names.

(** Two facts about one run. *)
Lemma wp_and {S E A} (m : M S E A) (P Q : S -> result A E -> Prop) s :
  wp m P s -> wp m Q s -> wp m (fun s r => P s r /\ Q s r) s.
Proof. unfold wp. by destruct (m s). Qed.

Section frames.
Context (sha256 : list byte -> list byte) (pid : Z) (try_reserve_exact : Z -> bool) (q : Path).

(** The files an anchor of [base] uses. *)
Definition anchor_apart (base : Path) : Prop :=
  durable_identity_path base <> q /\ temporary_control_path pid (durable_identity_path base) <> q.

Lemma frames_write_anchor base id : anchor_apart base -> frames q (write_durable_identity sha256 pid base id).
Proof. intros []. unfold write_durable_identity, os. framed. Qed.
#[local] Hint Resolve frames_write_anchor : framed.

Lemma frames_read_anchor base : anchor_apart base -> frames q (read_durable_identity sha256 base).
Proof. intros []. unfold read_durable_identity. framed. Qed.
#[local] Hint Resolve frames_read_anchor : framed.

Lemma frames_check_anchor base id : anchor_apart base -> frames q (check_or_install_durable_identity sha256 pid base id).
Proof. intros H. unfold check_or_install_durable_identity. framed. Qed.
#[local] Hint Resolve frames_check_anchor : framed.

Lemma frames_require_anchor base id : anchor_apart base -> frames q (require_durable_identity sha256 base id).
Proof. intros H. unfold require_durable_identity. framed. Qed.

Lemma frames_bind_anchor base rs :
  anchor_apart base -> frames q (bind_or_install_durable_identity sha256 pid try_reserve_exact base rs).
Proof. intros H. unfold bind_or_install_durable_identity. framed. Qed.
#[local] Hint Resolve frames_bind_anchor : framed.

Lemma frames_records p rs : p <> q -> frames q (write_records p rs).
Proof. intros Hne. induction rs as [|r rs IH]; cbn [write_records]; unfold os; framed. Qed.
#[local] Hint Resolve frames_records : framed.

(** The files a segment at [path] is written with. *)
Definition segment_apart (path : Path) : Prop :=
  path <> q /\ temporary_segment_path pid path <> q /\ anchor_apart path.

Lemma frames_rewrite path rs :
  path <> q -> temporary_segment_path pid path <> q -> frames q (write_wal_segment_after_identity_check pid path rs).
Proof. intros. unfold write_wal_segment_after_identity_check, create_segment_dir, os. framed. Qed.
#[local] Hint Resolve frames_rewrite : framed.

Lemma frames_write_segment path rs :
  segment_apart path -> frames q (write_wal_segment sha256 pid try_reserve_exact path rs).
Proof. intros (? & ? & ?). unfold write_wal_segment. framed. Qed.

Lemma frames_write_control path c :
  path <> q -> temporary_control_path pid path <> q -> frames q (write_wal_control_file sha256 pid path c).
Proof. intros. unfold write_wal_control_file, os. framed. Qed.

End frames.

#[export] Hint Resolve frames_write_anchor frames_read_anchor frames_check_anchor frames_require_anchor
  frames_bind_anchor frames_records frames_rewrite frames_write_segment frames_write_control : framed.

Section specs.
Context (sha256 : list byte -> list byte) (pid : Z) (try_reserve_exact : Z -> bool).

(** ** Segments *)

Lemma write_segment_spec path rs w :
  temporary_segment_path pid path <> path -> anchor_apart pid path path -> (exists d, nonempty_parent path = Some d) ->
  wp (write_wal_segment sha256 pid try_reserve_exact path rs) (fun w' r =>
    replaces path (segment_inode rs) w w' /\ (is_ok r = true -> settled path (segment_inode rs) w')) w.
Proof.
  intros Ht Ha Hd. unfold write_wal_segment. apply wp_bind. eapply wp_mono; [by apply frames_bind_anchor|].
  intros w1 [[]|e] Hf1; [|split; [by apply frame_replaces|done]]. eapply wp_mono; [by apply rewrite_spec|].
  intros w2 r [Hr Hok]. split; [by eapply frame_then_replaces|done].
Qed.

(** ** Control files *)

Definition control_inode (c : WalControlFile) (encoded : option string) : Inode :=
  whole (as_bytes (control_body sha256 c encoded)).

Lemma write_control_spec path c encoded w :
  temporary_control_path pid path <> path -> (exists d, nonempty_parent path = Some d) -> sealed_text c = Ok encoded ->
  wp (write_wal_control_file sha256 pid path c) (fun w' r =>
    replaces path (control_inode c encoded) w w' /\ (is_ok r = true -> settled path (control_inode c encoded) w')) w.
Proof.
  intros Hne Hd He. unfold write_wal_control_file. apply wp_bind.
  assert (frames path (match parent path with
    | Some d => map_err (fun err => Durability ("failed to create WAL control directory " +:+ display d +:+ ": " +:+
                                                EngineError_to_string err)) (create_wal_dir_all d)
    | None => ret tt end)) as Hdir by framed.
  eapply wp_mono; [apply Hdir|]. intros w1 [[]|e] Hf1; [|split; [by apply frame_replaces|done]]. clear Hdir.
  apply wp_bind, wp_of_result. rewrite He. apply wp_bind, wp_attempt. apply (wp_write_whole _ path); [done|].
  intros w2 r2 Hf2 Hn2.
  assert (forall (e : EngineError) w3, replaces path (control_inode c encoded) w w3 ->
    wp (os id (remove_file (temporary_control_path pid path)) ;; throw e) (fun w' r =>
      replaces path (control_inode c encoded) w w' /\ (is_ok (A := unit) r = true -> settled path (control_inode c encoded) w')) w3) as Hcleanup.
  { intros e w3 H3. apply wp_bind, wp_map_err. eapply wp_mono; [by apply frames_remove_file|].
    intros w4 [[]|e'] Hf4; [apply wp_throw|]; (split; [by eapply replaces_frame|done]). }
  destruct r2 as [[]|e]; [|apply Hcleanup, frame_replaces; by etrans].
  apply wp_bind, wp_attempt, wp_map_err. apply (wp_rename _ _ _ _ _ Hne (Hn2 eq_refl)).
  intros w3 r3 Hr3 Hn3. apply (frame_then_replaces _ _ w) in Hr3; [|by etrans]. destruct r3 as [[]|e]; [|by apply Hcleanup].
  apply (wp_sync_installed _ (control_inode c encoded)); [done|by apply Hn3|]. intros w4 r4 Hf4 Hv4.
  split; [by eapply replaces_frame|done].
Qed.

End specs.

End CheckpointWrite.
