(* ===== verification/LanesFacts.v ===== *)
(** * The lanes checkpoint has one commit point

    A lanes checkpoint is the segment of its generation and the sidecar that names it.  The sidecar
    is the commit point: however writing a new checkpoint ends, a crash reads one of the
    checkpoints it could read before or the new one, complete. *)

From stdpp Require Import base gmap strings list pretty.
From S2P Require Import Prelude Types Bytes Text Paths Effects Disk Sidecar WalSegment WalProps Archive Canonical Envelope Identity WalCore DiskFacts SealedManifest Checkpoint CheckpointFacts.

Module LanesFacts.
Import Text Paths Sidecar SidecarFacts Effects Disk Identity WalCore DiskFacts Checkpoint CheckpointFacts Names CheckpointWrite.

#[local] Arguments String.append !_ _ : simpl nomatch.

(** A segment whose directory and name make its side files distinct and readable. *)
Record readable_segment (seg : Path) (stem : string) : Prop := mkReadable {
  rs_name : file_name seg = Some stem;
  rs_plain : plain stem;
  rs_text : clean_line stem /\ utf8_valid stem;
  rs_dir : exists d, nonempty_parent seg = Some d;
}.

(** One run frames every file it is known to frame. *)
Lemma wp_frames {E A} (m : M World E A) (P : Path -> Prop) (Q : World -> result A E -> Prop) w :
  wp m Q w -> (forall q, P q -> frames q m) -> wp m (fun w' r => Q w' r /\ forall q, P q -> frame q w w') w.
Proof.
  unfold wp, frames, wp. intros HQ HP. destruct (m w) as [| |w' r] eqn:E'; [done|done|]. split; [done|].
  intros q Hq. specialize (HP q Hq w). by rewrite E' in HP.
Qed.

Section lanes.
Context (sha256 : list byte -> list byte) (Hsha : forall l, length (sha256 l) = 32%nat).
Context (pid : Z) (Hpid : 0 <= pid) (try_reserve_exact : Z -> bool).
Context (debug_str : string -> string) (list_dir : World -> Path -> list Path).
Context (seg : Path) (stem : string) (Hseg : readable_segment seg stem).

Abbreviation Hname := (rs_name _ _ Hseg).
Abbreviation Hstem := (rs_plain _ _ Hseg).
Abbreviation own := (Names.own seg stem).
Abbreviation hidden := (Names.hidden seg stem).
Abbreviation sidecar := (own ".lanes-checkpoint").
Abbreviation gen L := (own (generation_suffix (lane_cut L))).

Definition sidecar_inode (L : LanesCheckpoint) : Inode :=
  whole (as_bytes (sidecar_body sha256 (serial_records L) (lane_cut L) (stem +:+ generation_suffix (lane_cut L)))).

Record lanes_ok (L : LanesCheckpoint) : Prop := mkLanesOk {
  lo_serial : is_u64 (serial_records L);
  lo_cut : is_u64 (lane_cut L);
  lo_count : vec_len (lanes_records L) = u64_add (serial_records L) (lane_cut L);
  lo_records : Forall WalProps.record_ok (lanes_records L);
}.

(** A crash reads one of [cs]; [None] is a log that was never checkpointed. *)
Definition lanes_among (cs : list (option LanesCheckpoint)) (w : World) : Prop :=
  forall v, v ∈ versions w sidecar ->
    (v = None /\ None ∈ cs) \/
    exists L, Some L ∈ cs /\ v = Some (sidecar_inode L) /\ lanes_ok L /\ settled (gen L) (segment_inode (lanes_records L)) w.

Lemma gen_suffix_ok L : lanes_ok L -> suffix_ok (generation_suffix (lane_cut L)).
Proof. intros [_ [H _] _ _]. by apply generation_suffix_ok. Qed.

Lemma gen_differ L L' : lanes_ok L -> lanes_ok L' -> lane_cut L <> lane_cut L' -> gen L <> gen L'.
Proof.
  intros [_ H _ _] [_ H' _ _] Hne. apply own_differ. intros E%string_app_inj. by apply pretty_Z_inj in E.
Qed.

Lemma gen_sidecar L : gen L <> sidecar.
Proof. by apply own_differ. Qed.

(** Reading a complete checkpoint. *)
Lemma read_lanes L fs :
  lanes_ok L -> fs !! sidecar = Some (data (sidecar_inode L)) -> fs !! gen L = Some (Wal.segment_bytes (lanes_records L)) ->
  read_lanes_checkpoint sha256 debug_str fs seg = Some (Ok (Some L)).
Proof.
  intros Hok Hs Hg. pose proof Hseg as [Hn Hp [Hc Hu] _]. pose proof (gen_suffix_ok L Hok) as Hgs. destruct Hok as [Hser [Hcut Hcut'] Hcount Hrec].
  assert (clean_line (stem +:+ generation_suffix (lane_cut L)) /\ utf8_valid (stem +:+ generation_suffix (lane_cut L))) as Htext.
  { assert (clean_line (generation_suffix (lane_cut L)) /\ utf8_valid (generation_suffix (lane_cut L))) as [H1 H2]
      by (apply field_text; [done..|by apply number_text]).
    split; [by apply clean_line_app|by apply utf8_valid_app]. }
  unfold read_lanes_checkpoint. rewrite (sidecar_own seg stem) by done. unfold read_to_string. rewrite Hs. cbn [data sidecar_inode whole].
  rewrite from_utf8_as_bytes by (by apply sidecar_utf8). rewrite sidecar_round_trip by done.
  rewrite (own_with seg stem) by (done || (by split; [|cbn; lia]) || by apply (plain_suffix seg)).
  change (beside seg (stem +:+ generation_suffix (lane_cut L))) with (gen L).
  unfold Archive.read_segment_file. rewrite Hg, WalProps.read_segment_bytes by done. rewrite Hcount, Z.eqb_refl. cbn [negb]. by destruct L.
Qed.

Lemma lanes_crash cs w fs :
  lanes_among cs w -> crash w fs -> exists o, o ∈ cs /\ read_lanes_checkpoint sha256 debug_str fs seg = Some (Ok o).
Proof.
  intros Hl Hcr. destruct (Hcr sidecar) as (v & Hv & Hs). destruct (Hl v Hv) as [[-> Hn]|(L & HL & -> & Hok & Hg)].
  - exists None. split; [done|]. unfold read_lanes_checkpoint. rewrite (sidecar_own seg stem) by apply Hseg.
    unfold read_to_string. cbn in Hs. destruct (fs !! sidecar); [done|]. by rewrite bool_decide_eq_true_2.
  - exists (Some L). split; [done|]. destruct (Hcr (gen L)) as (v & Hv' & Hs').
    rewrite (settled_versions _ _ _ Hg) in Hv'. apply list_elem_of_singleton in Hv' as ->.
    destruct (fs !! sidecar) as [d|] eqn:Es; [|done]. destruct (fs !! gen L) as [d'|] eqn:Eg; [|done].
    destruct Hs as [_ Hx]. destruct Hs' as [_ Hx']. cbn in Hx, Hx'.
    apply read_lanes; [done|by rewrite Es, Hx|by rewrite Eg, Hx'].
Qed.

Lemma lanes_frame cs w w' :
  lanes_among cs w -> frame sidecar w w' -> (forall L, Some L ∈ cs -> lanes_ok L -> frame (gen L) w w') -> lanes_among cs w'.
Proof.
  intros Hl Hf Hg v Hv. destruct (Hl v) as [?|(L & HL & -> & Hok & Hs)]; [by eapply frame_versions|by left|right].
  exists L. split_and!; try done. eapply settled_frame; [done|]. by apply Hg.
Qed.

Lemma lanes_weaken cs cs' w : cs ⊆ cs' -> lanes_among cs w -> lanes_among cs' w.
Proof. intros Hsub Hl v Hv. destruct (Hl v Hv) as [[-> ?]|(L & HL & ?)]; [left; by auto|right; exists L; by auto]. Qed.

(** ** Writing *)

Lemma commit_sidecar_spec body w :
  wp (commit_sidecar sidecar body) (fun w' r =>
    replaces sidecar (whole (as_bytes body)) w w' /\ (is_ok r = true -> settled sidecar (whole (as_bytes body)) w')) w.
Proof.
  destruct (rs_dir _ _ Hseg) as [d Hd]. assert (nonempty_parent sidecar = Some d) as Hd'.
  { rewrite (own_parent seg stem); [done|apply Hseg|]. split; [done|cbn; lia]. }
  unfold commit_sidecar. rewrite (sidecar_temp seg stem), Hd' by apply Hseg. set (temp := own ".lanes-checkpoint.tmp").
  assert (temp <> sidecar) as Hne by (by apply own_differ).
  apply wp_map_err, wp_bind, wp_create. intros w1 [[]|e] Hf1 Hn1; specialize (Hf1 sidecar (not_eq_sym Hne)); [|split; [by apply frame_replaces|done]].
  apply wp_bind. apply (wp_append _ _ _ _ _ (Hn1 eq_refl)); [done|]. intros w2 bs [[]|e] Ht2 Hr2;
    apply touched_frame with (q := sidecar) in Ht2 as Hf2; try done; [|split; [apply frame_replaces; by etrans|done]].
  rewrite Hr2 in Ht2 by done. apply wp_bind. apply (wp_sync_exact _ _ _ _ (touched_lookup _ _ _ _ Ht2)). intros w3 r3 i3 Ht3 _ _ Hs3.
  apply touched_frame with (q := sidecar) in Ht3 as Hf3; [|done]. assert (frame sidecar w w3) as Hf by (etrans; [exact Hf1|]; by etrans).
  destruct r3 as [[]|e]; [|split; [by apply frame_replaces|done]]. rewrite (Hs3 eq_refl) in Ht3.
  apply wp_bind. apply (wp_rename _ _ _ _ _ Hne (touched_lookup _ _ _ _ Ht3)). intros w4 r4 Hr4 Hn4.
  apply (frame_then_replaces _ _ w) in Hr4; [|done]. destruct r4 as [[]|e]; [|by split].
  apply wp_bind. eapply wp_mono; [apply (frames_fallible sidecar)|]. intros w5 [[]|e] Hf5; [|split; [by eapply replaces_frame|done]].
  eapply wp_mono; [by apply (wp_sync_dir sidecar), nonempty_parent_Some|]. intros w6 r6 [Hf6 Hu6].
  split; [eapply replaces_frame; [done|]; by etrans|]. intros Hr. split; [|apply Hu6; by destruct r6].
  destruct Hf6 as [-> _], Hf5 as [-> _]. by apply Hn4.
Qed.

Lemma frames_commit_sidecar q body :
  sidecar <> q -> own ".lanes-checkpoint.tmp" <> q -> frames q (commit_sidecar sidecar body).
Proof. intros. unfold commit_sidecar, os. rewrite (sidecar_temp seg stem) by apply Hseg. framed. Qed.

(** An older generation is neither the sidecar nor the new generation. *)
Lemma older_apart entry g cut :
  is_u64 cut -> generation stem entry = Some g -> g < cut -> entry <> sidecar /\ entry <> own (generation_suffix cut).
Proof.
  intros Hcut Hg Hlt. pose proof Hseg as [Hn Hp _ _]. unfold generation in Hg.
  destruct (file_name entry) as [name|] eqn:En; [|done]. cbn in Hg.
  destruct (strip_prefix (generation_prefix stem) name) as [digits|] eqn:Ep; [|done]. cbn in Hg. split; intros ->.
  - rewrite (own_file_name seg stem) in En by (done || (split; [done|cbn; lia])). injection En as <-.
    exfalso. revert Ep. clear. unfold generation_prefix. induction stem as [|a s IH]; [done|]. cbn. by rewrite bool_decide_eq_true_2.
  - rewrite (own_file_name seg stem) in En by (done || (apply generation_suffix_ok, Hcut)). injection En as <-.
    unfold generation_suffix in Ep. rewrite <- string_app_assoc in Ep. unfold generation_prefix in Ep. rewrite strip_prefix_app in Ep. injection Ep as <-.
    rewrite parse_pretty in Hg by done. cbn in Hg. injection Hg as <-. lia.
Qed.

Lemma frames_remove_older q dir cut entries removed :
  is_u64 cut -> q = sidecar \/ q = own (generation_suffix cut) -> frames q (remove_older dir stem cut entries removed).
Proof.
  intros Hcut Hq. revert removed. induction entries as [|entry entries IH]; intros removed; cbn [remove_older]; [framed|].
  unfold os. apply frames_bind; [framed|intros _]. destruct (generation stem entry) as [g|] eqn:Eg; [|apply IH].
  destruct (Z.ltb_spec g cut); [|apply IH]. apply frames_bind; [|intros _; apply IH].
  destruct (older_apart entry g cut Hcut Eg H) as [H1 H2]. apply frames_map_err, frames_unlink. by destruct Hq as [->| ->].
Qed.

Lemma frames_retire q cut :
  is_u64 cut -> q = sidecar \/ q = own (generation_suffix cut) -> frames q (retire_generations list_dir seg cut).
Proof.
  intros Hcut Hq. unfold retire_generations. destruct (nonempty_parent seg) as [dir|]; [|framed]. rewrite Hname. unfold os.
  apply frames_bind; [framed|intros _]. apply frames_bind; [framed|intros w]. apply frames_bind; [by apply frames_remove_older|intros removed].
  destruct removed; framed.
Qed.

(** The files the new generation is written with. *)
Lemma generation_apart u cut :
  is_u64 cut -> (dots u <= 1)%nat -> u <> generation_suffix cut -> u <> generation_suffix cut +:+ ".identity" ->
  segment_apart pid (own u) (own (generation_suffix cut)).
Proof.
  intros [Hc _] Hu H1 H2. pose proof Hseg as [Hn Hp _ _]. pose proof (generation_suffix_ok cut Hc) as Hs.
  unfold segment_apart, anchor_apart. rewrite (temp_segment pid seg stem), (identity_own seg stem) by done.
  rewrite (temp_control pid seg stem) by (done || by apply identity_suffix_ok).
  split_and!; [by apply own_differ, not_eq_sym|by apply hidden_own|by apply own_differ, not_eq_sym|by apply hidden_own].
Qed.

Lemma sidecar_apart cut : is_u64 cut -> segment_apart pid sidecar (own (generation_suffix cut)).
Proof. intros Hc. by apply generation_apart. Qed.

Lemma digits_not_identity (a b : Z) : 0 <= a -> pretty a <> pretty b +:+ ".identity".
Proof.
  intros Ha E. pose proof (pretty_digits a Ha) as H. rewrite E, all_chars_app in H. by apply andb_true_iff in H as [_ H].
Qed.

Lemma older_generation_apart L cut :
  lanes_ok L -> is_u64 cut -> lane_cut L <> cut -> segment_apart pid (gen L) (own (generation_suffix cut)).
Proof.
  intros [_ HL _ _] Hc Hne. apply generation_apart; [done|done|..]; unfold generation_suffix.
  - intros E%string_app_inj. by apply pretty_Z_inj in E.
  - rewrite string_app_assoc. intros E%string_app_inj. apply digits_not_identity in E; [done|apply HL].
Qed.

(** The generation's own side files. *)
Lemma generation_self cut : is_u64 cut ->
  temporary_segment_path pid (own (generation_suffix cut)) <> own (generation_suffix cut) /\
  anchor_apart pid (own (generation_suffix cut)) (own (generation_suffix cut)).
Proof.
  intros [Hc _]. pose proof Hseg as [Hn Hp _ _]. pose proof (generation_suffix_ok cut Hc) as Hs.
  unfold anchor_apart. rewrite (temp_segment pid seg stem), (identity_own seg stem) by done.
  rewrite (temp_control pid seg stem) by (done || by apply identity_suffix_ok). split_and!; [by apply hidden_own| |by apply hidden_own].
  apply own_differ. unfold generation_suffix. rewrite string_app_assoc. intros E%string_app_inj. symmetry in E. by apply digits_not_identity in E.
Qed.

Lemma gen_not_temp L : own ".lanes-checkpoint.tmp" <> gen L.
Proof. by apply own_differ. Qed.

(** The commit point. *)
Lemma commit_among cs L w :
  lanes_ok L -> settled (gen L) (segment_inode (lanes_records L)) w -> lanes_among cs w ->
  wp (commit_sidecar sidecar (sidecar_body sha256 (serial_records L) (lane_cut L) (stem +:+ generation_suffix (lane_cut L))))
    (fun w' r => lanes_among (Some L :: cs) w' /\ (is_ok r = true -> lanes_among [Some L] w')) w.
Proof.
  intros HL Hg Hw. eapply wp_mono; [apply wp_frames; [apply commit_sidecar_spec|]|].
  { intros q Hq. exact (frames_commit_sidecar q _ (proj1 Hq) (proj2 Hq)). }
  intros w' r [[Hr Hs] Hf].
  assert (forall L', frame (gen L') w w') as Hg' by (intros L'; apply Hf; split; [apply not_eq_sym, gen_sidecar|apply gen_not_temp]).
  assert (settled (gen L) (segment_inode (lanes_records L)) w') as HgL by (by eapply settled_frame). split.
  - intros v Hv. destruct (Hr v Hv) as [Hv'| ->].
    + destruct (Hw v Hv') as [[-> ?]|(L' & HL' & -> & Hok & Hs')]; [left; split; [done|by right]|right].
      exists L'. split_and!; try done; [by right|]. by eapply settled_frame.
    + right. exists L. split_and!; try done. by left.
  - intros Hok v Hv. rewrite (settled_versions _ _ _ (Hs Hok)) in Hv. apply list_elem_of_singleton in Hv as ->.
    right. exists L. split_and!; try done. by left.
Qed.

Lemma retire_among cut cs w :
  is_u64 cut -> (forall o, o ∈ cs -> exists L, o = Some L /\ lane_cut L = cut) -> lanes_among cs w ->
  wp (retire_generations list_dir seg cut) (fun w' _ => lanes_among cs w') w.
Proof.
  intros Hcut Hcs Hw. eapply wp_mono; [apply wp_frames; [apply (frames_retire sidecar cut); auto|]|].
  { intros q Hq. exact (frames_retire q cut Hcut (or_intror Hq)). }
  intros w' r [Hf1 Hf2]. eapply lanes_frame; [done|done|]. intros L HL _. apply Hf2. destruct (Hcs _ HL) as (L' & [= <-] & <-). done.
Qed.

(** Writing a checkpoint: the new generation, the sidecar, and then the removal of older ones. *)
Lemma write_lanes_spec cs L w :
  lanes_ok L -> (forall L', Some L' ∈ cs -> lane_cut L' <> lane_cut L) -> lanes_among cs w ->
  wp (write_lanes_checkpoint sha256 pid try_reserve_exact list_dir seg (serial_records L) (lane_cut L) (lanes_records L))
    (fun w' r => lanes_among (Some L :: cs) w' /\ (is_ok r = true -> lanes_among [Some L] w')) w.
Proof.
  intros HL Hcs Hw. pose proof (lo_cut _ HL) as Hcut. pose proof Hseg as [Hn Hp _ [d Hd]].
  unfold write_lanes_checkpoint. rewrite (lo_count _ HL), Z.eqb_refl. cbn [negb].
  rewrite (generation_own seg stem), (sidecar_own seg stem) by (done || apply Hcut).
  destruct (generation_self _ Hcut) as [Hself1 Hself2]. pose proof (gen_suffix_ok L HL) as Hgs.
  assert (nonempty_parent (gen L) = Some d) as Hd' by (by rewrite (own_parent seg stem)).
  apply wp_bind. eapply wp_mono; [apply wp_frames; [by apply write_segment_spec; [..|exists d]|]|].
  { intros q Hq. exact (frames_write_segment _ _ _ q _ _ Hq). }
  intros w1 r1 [[_ Hs1] Hf1]. assert (lanes_among cs w1) as Hw1.
  { eapply lanes_frame; [done|by apply Hf1, sidecar_apart|]. intros L' HL' Hok'. apply Hf1, older_generation_apart; auto. }
  destruct r1 as [[]|e]; [|split; [|done]; eapply lanes_weaken; [|done]; by apply list_subseteq_cons].
  apply wp_bind, wp_of_result. rewrite (own_file_name seg stem) by done. cbn [ok_or].
  apply wp_bind. eapply wp_mono; [by apply commit_among; [|apply Hs1|]|]. intros w2 [[]|e] [Hw2 Hok2]; [|done].
  eapply wp_mono; [apply (retire_among _ [Some L]); [done| |by apply Hok2]|].
  - intros o ->%list_elem_of_singleton. by exists L.
  - intros w3 r3 Hw3. split; [|done]. apply (lanes_weaken [Some L]); [|done]. intros o ->%list_elem_of_singleton. by left.
Qed.

End lanes.

End LanesFacts.
