(* ===== verification/Preserve.v ===== *)
(** * What the buffer never touches

    An operation of the buffer writes only its own files: the segment, the recorded tail, the
    identity anchor and their temporary files.  Only a rotation moves the base of the segment.
    Both are invariants that every primitive keeps, whatever it returns. *)

From stdpp Require Import base gmap strings list pretty.
From S2P Require Import Prelude Types Bytes Text Paths Effects Disk Sidecar WalSegment Codec Canonical Envelope EnvelopeExact Identity LocalRepl WalCore WalGroup WalScatter WalBuffer DiskFacts Checkpoint CheckpointFacts.

Module Preserve.
Import Paths Disk Effects Identity WalCore WalGroup WalScatter WalBuffer DiskFacts CheckpointWrite.

(** ** Invariants of a computation *)

Section stays.
Context {S E : Type} (I : S -> Prop).

(** [m] keeps [I], and a value it returns satisfies [Q]. *)
Definition stays {A} (m : M S E A) (Q : A -> Prop) : Prop :=
  forall s s' r, I s -> m s = Done s' r -> I s' /\ forall a, r = Ok a -> Q a.

Lemma stays_weaken {A} (m : M S E A) (Q Q' : A -> Prop) : stays m Q -> (forall a, Q a -> Q' a) -> stays m Q'.
Proof. intros Hm HQ s s' r Hs Hr. destruct (Hm s s' r Hs Hr) as [? H]. split; [done|]. intros a Ha. by apply HQ, H. Qed.

Lemma stays_ret {A} (a : A) (Q : A -> Prop) : Q a -> stays (ret a) Q.
Proof. intros Ha s s' r Hs [= <- <-]. split; [done|]. by intros ? [= <-]. Qed.

Lemma stays_throw {A} (e : E) (Q : A -> Prop) : stays (throw e) Q.
Proof. by intros s s' r Hs [= <- <-]. Qed.

Lemma stays_panic {A} (Q : A -> Prop) : stays panic Q.
Proof. by intros s s' r Hs H. Qed.

Lemma stays_wait {A} (Q : A -> Prop) : stays wait Q.
Proof. by intros s s' r Hs H. Qed.

Lemma stays_of_result {A} (o : result A E) : stays (of_result o) (fun _ => True).
Proof. by intros s s' r Hs [= <- <-]. Qed.

Lemma stays_expect {A} (o : option A) : stays (expect o) (fun a => o = Some a).
Proof. destruct o as [a|]; [apply stays_ret; done|apply stays_panic]. Qed.

Lemma stays_assert b : stays (assert b) (fun _ => True).
Proof. destruct b; [by apply stays_ret|apply stays_panic]. Qed.

Lemma stays_bind {A B} (m : M S E A) (f : A -> M S E B) Q Q' :
  stays m Q -> (forall a, Q a -> stays (f a) Q') -> stays (bind m f) Q'.
Proof.
  intros Hm Hf s s' r Hs. unfold bind. destruct (m s) as [| |s1 [a|e]] eqn:E1; try done.
  - intros Hr. destruct (Hm _ _ _ Hs E1) as [H1 HQ]. exact (Hf a (HQ a eq_refl) _ _ _ H1 Hr).
  - intros [= <- <-]. by destruct (Hm _ _ _ Hs E1).
Qed.

Lemma stays_attempt {A} (m : M S E A) : stays m (fun _ => True) -> stays (attempt m) (fun _ => True).
Proof.
  intros Hm s s' r Hs. unfold attempt. destruct (m s) as [| |s1 r1] eqn:E1; try done. intros [= <- <-].
  by destruct (Hm _ _ _ Hs E1).
Qed.

Lemma stays_modify f : (forall s, I s -> I (f s)) -> stays (modify f) (fun _ => True).
Proof. intros Hf s s' r Hs [= <- <-]. split; [by apply Hf|done]. Qed.

End stays.

Ltac stay_step :=
  lazymatch goal with
  | |- stays _ (bind _ _) _ => eapply stays_bind; [|intros ? ?]
  | |- stays _ (ret _) _ => apply stays_ret
  | |- stays _ (throw _) _ => apply stays_throw
  | |- stays _ wait _ => apply stays_wait
  | |- stays _ panic _ => apply stays_panic
  | |- stays _ (of_result _) _ => apply stays_of_result
  | |- stays _ (expect _) _ => apply stays_expect
  | |- stays _ (assert _) _ => apply stays_assert
  | |- stays _ (match ?x with _ => _ end) _ => destruct x eqn:?
  | |- stays _ (if ?b then _ else _) _ => destruct b eqn:?
  end.

(** ** The buffer *)

(** The files of the buffer over [seg] are not [q]. *)
Record foreign (pid : Z) (seg q : Path) : Prop := mkForeign {
  fo_seg : seg <> q;
  fo_tail : Sidecar.wal_tail_offset_path seg <> q;
  fo_tail_temp : Sidecar.temporary_control_path pid (Sidecar.wal_tail_offset_path seg) <> q;
  fo_anchor : anchor_apart pid q seg;
  fo_temp : temporary_segment_path pid seg <> q;
}.

Section buffer.
Context {alloc : VecAlloc}.
Context (sha256 : list byte -> list byte) (pid : Z) (try_reserve_exact : Z -> bool) (chunk : Z).
Context (seg q : Path) (Hq : foreign pid seg q) (bases : Z -> Prop) (w0 : World).

(** The core belongs to [seg], and its base is one of [bases]. *)
Definition core_ok (c : WalDurableCore) : Prop :=
  segment_path c = seg /\ (forall f, file (state c) = Some f -> f = seg) /\ bases (segment_base_records (state c)).

Definition buf_ok (b : WalBuffer) : Prop := forall c, durable b = Some c -> core_ok c.

Definition outside (t : WalBuffer * World) : Prop := buf_ok t.1 /\ frame q w0 t.2.

Definition core_outside (t : WalDurableCore * World) : Prop := core_ok t.1 /\ frame q w0 t.2.

Lemma frames_stays {E A} (m : M World E A) : frames q m -> stays (frame q w0) m (fun _ => True).
Proof.
  intros Hm w w' r Hw E1. split; [|done]. specialize (Hm w). unfold wp in Hm. rewrite E1 in Hm. by etrans.
Qed.

Lemma stays_zoom {S A} (I : S -> Prop) (part : S -> World) (put : World -> S -> S) (m : M World EngineError A) Q :
  (forall s, I s -> frame q w0 (part s)) -> (forall s w, I s -> frame q w0 w -> I (put w s)) ->
  stays (frame q w0) m Q -> stays I (zoom part put m) Q.
Proof.
  intros Hpart Hput Hm s s' r Hs. unfold zoom.
  destruct (m (part s)) as [| |w r'] eqn:E1; try done. intros [= <- <-].
  destruct (Hm _ _ _ (Hpart s Hs) E1) as [H1 H2]. split; [by apply Hput|done].
Qed.

Lemma stays_on_disk {A} (m : M World EngineError A) Q : stays (frame q w0) m Q -> stays outside (on_disk m) Q.
Proof. apply (stays_zoom outside snd (fun w s => (s.1, w))); [by intros s []|by intros s w []]. Qed.

Lemma stays_on_world {A} (m : M World EngineError A) Q : stays (frame q w0) m Q -> stays core_outside (on_world m) Q.
Proof. apply (stays_zoom core_outside snd (fun w s => (s.1, w))); [by intros s []|by intros s w []]. Qed.

Lemma stays_buffer : stays outside buffer buf_ok.
Proof. intros s s' r Hs [= <- <-]. split; [done|]. intros b [= <-]. apply Hs. Qed.

Lemma stays_update f : (forall b, durable (f b) = durable b) -> stays outside (update f) (fun _ => True).
Proof. intros Hf. apply stays_modify. intros [b w] [H1 H2]. split; [|done]. intros c. cbn. rewrite Hf. apply H1. Qed.

Lemma stays_on_core {A} (m : M (WalDurableCore * World) EngineError A) Q :
  stays core_outside m Q -> stays outside (on_core m) Q.
Proof.
  intros Hm [b w] s' r [H1 H2]. unfold on_core. cbn [fst snd]. destruct (durable b) as [c|] eqn:Ed; [|done].
  destruct (m (c, w)) as [| |[c' w'] r'] eqn:Em; try done. intros [= <- <-].
  destruct (Hm (c, w) _ _ (conj (H1 c Ed) H2) Em) as [[H3 H4] HQ]. split; [|done]. split; [|done]. by intros c'' [= <-].
Qed.

Lemma stays_get_state : stays core_outside get_state (fun s => forall f, file s = Some f -> f = seg).
Proof. intros [c w] s' r Hs [= <- <-]. split; [done|]. intros s [= <-]. by destruct Hs as [(_ & ? & _) _]. Qed.

Lemma stays_get_path : stays core_outside get_path (fun p => p = seg).
Proof. intros [c w] s' r Hs [= <- <-]. split; [done|]. intros s [= <-]. by destruct Hs as [[? _] _]. Qed.

Lemma stays_put_state f :
  (forall s, (forall p, file s = Some p -> p = seg) -> bases (segment_base_records s) ->
     (forall p, file (f s) = Some p -> p = seg) /\ bases (segment_base_records (f s))) ->
  stays core_outside (put_state f) (fun _ => True).
Proof.
  intros Hf. apply stays_modify. intros [c w] [(H1 & H2 & H3) H4]. split; [|done]. cbn. destruct (Hf (state c) H2 H3).
  split_and!; done.
Qed.

(** ** Files of the core *)

Lemma frames_write_tail n : frames q (write_wal_tail_offset pid seg n).
Proof. destruct Hq as [_ ? ? _ _]. unfold write_wal_tail_offset, os. framed. Qed.

Lemma stays_zero_fill fuel f offset to : f <> q -> stays (frame q w0) (zero_fill fuel f offset to) (fun _ => True).
Proof.
  intros Hf. revert offset. induction fuel as [|fuel IH]; intros offset; cbn [zero_fill]; repeat stay_step; try done.
  all: apply frames_stays; framed.
Qed.

Lemma stays_zero_fill_extend f from to : f <> q -> stays (frame q w0) (zero_fill_extend f from to) (fun _ => True).
Proof.
  intros Hf. unfold zero_fill_extend. eapply stays_bind; [by apply stays_zero_fill|]. intros _ _. apply frames_stays. framed.
Qed.

Lemma stays_map_err {S E E' A} (I : S -> Prop) (f : E -> E') (m : M S E A) Q : stays I m Q -> stays I (map_err f m) Q.
Proof.
  intros Hm s s' r Hs. unfold map_err. destruct (m s) as [| |s1 [a|e]] eqn:E1; try done; intros [= <- <-];
    destruct (Hm _ _ _ Hs E1) as [H1 H2]; split; try done. intros a' [= <-]. by apply H2.
Qed.

Lemma stays_create_segment : stays (frame q w0) (create_segment chunk seg) (fun _ => True).
Proof.
  pose proof Hq as [? ? ? ? ?]. unfold create_segment. eapply stays_bind; [apply frames_stays; unfold os; framed|intros _ _].
  eapply stays_bind; [apply frames_stays; unfold create_segment_dir, os; framed|intros _ _].
  do 4 (eapply stays_bind; [apply frames_stays; unfold os; framed|intros _ _]).
  apply stays_map_err. by apply stays_zero_fill_extend.
Qed.

Lemma stays_record_tail : stays core_outside (record_tail_offset pid) (fun _ => True).
Proof.
  unfold record_tail_offset. eapply stays_bind; [apply stays_get_state|intros s Hs]. stay_step; [by stay_step|].
  eapply stays_bind; [apply stays_get_path|intros ? ->]. eapply stays_bind; [apply stays_on_world, frames_stays, frames_write_tail|intros _ _].
  by apply stays_put_state.
Qed.

Lemma stays_ensure_created : stays core_outside (ensure_created pid chunk) (fun _ => True).
Proof.
  unfold ensure_created. eapply stays_bind; [apply stays_get_state|intros s Hs]. stay_step; [by stay_step|].
  eapply stays_bind; [apply stays_get_path|intros ? ->]. eapply stays_bind; [apply stays_on_world, stays_create_segment|intros _ _].
  eapply stays_bind; [apply stays_put_state|intros _ _; apply stays_record_tail]. intros s' H1 H2. split; [by intros p [= <-]|done].
Qed.

Lemma stays_ensure_preallocated n : stays core_outside (ensure_preallocated_through chunk n) (fun _ => True).
Proof.
  unfold ensure_preallocated_through. eapply stays_bind; [apply stays_get_state|intros s Hs]. stay_step; [by stay_step|].
  stay_step; [|by stay_step]. eapply stays_bind; [apply stays_get_path|intros ? ->].
  eapply stays_bind; [|intros _ _; by apply stays_put_state]. apply stays_on_world, stays_map_err, stays_zero_fill_extend.
  rewrite (Hs _ Heqo). apply Hq.
Qed.

(** ** Operations on memory *)

Abbreviation kept m := (stays outside m (fun _ => True)).

Ltac stay_buffer :=
  repeat first
    [ stay_step
    | lazymatch goal with
      | |- stays _ buffer _ => apply stays_buffer
      | |- stays _ (update _) _ => apply stays_update; intros ?
      | |- stays _ (attempt _) _ => apply stays_attempt
      | |- stays _ (let '(_, _) := ?x in _) _ => destruct x eqn:?
      end
    | progress cbv zeta ];
  try done.

Lemma kept_update_arena f : kept (update_arena f).
Proof. unfold update_arena. stay_buffer. Qed.

Lemma kept_drop_credit c : kept (drop_credit c).
Proof. apply kept_update_arena. Qed.

Lemma kept_drop_wires l : kept (drop_wires l).
Proof. induction l as [|x l IH]; cbn [drop_wires]; [by apply stays_ret|]. eapply stays_bind; [apply kept_drop_credit|done]. Qed.

Lemma kept_invalidate : kept invalidate_canonical_append_reservations.
Proof. unfold invalidate_canonical_append_reservations. stay_buffer. Qed.

Lemma kept_prune : kept prune_durable_typed_exact_wire_records.
Proof. unfold prune_durable_typed_exact_wire_records. stay_buffer. apply kept_drop_wires. Qed.

Lemma kept_handoff prefix : kept (handoff_prepared_group prefix).
Proof.
  unfold handoff_prepared_group. stay_buffer; try apply kept_update_arena; try apply kept_drop_wires.
Qed.

Create HintDb stay discriminated.
#[local] Hint Resolve kept_update_arena kept_drop_credit kept_drop_wires kept_invalidate kept_prune kept_handoff : stay.

Ltac stay_more := stay_buffer; try (solve [eauto with stay]).

(** ** Appends *)

Lemma kept_append rec : kept (append rec).
Proof. unfold append. stay_more. Qed.

Lemma kept_append_canonical p : kept (append_canonical p).
Proof. unfold append_canonical. stay_more. Qed.

Lemma kept_read_tail : kept (read_canonical_catalog_tail sha256 try_reserve_exact).
Proof. unfold read_canonical_catalog_tail. stay_more. Qed.

(** ** Lineage *)

Lemma kept_disk {A} (m : M World EngineError A) : frames q m -> kept (on_disk m).
Proof. intros Hm. by apply stays_on_disk, frames_stays. Qed.

Lemma kept_verify target : kept (verify_through sha256 pid try_reserve_exact seg target).
Proof.
  pose proof (fo_anchor _ _ _ Hq) as Ha. unfold verify_through. stay_more; (apply kept_disk; by eauto with framed) || exact I.
Qed.

Lemma kept_preverify id : kept (preverify_typed_exact_lineage sha256 pid try_reserve_exact seg id).
Proof.
  pose proof (fo_anchor _ _ _ Hq) as Ha. unfold preverify_typed_exact_lineage. stay_more; apply kept_verify || (apply kept_disk; by eauto with framed).
Qed.

(** ** Exact records *)

Lemma kept_unpoisoned c : kept (require_unpoisoned c).
Proof. unfold require_unpoisoned. stay_more. Qed.

Lemma kept_preflight n id : kept (preflight_typed_exact_serial_admission sha256 pid try_reserve_exact chunk n id).
Proof.
  unfold preflight_typed_exact_serial_admission. eapply stays_bind; [apply stays_buffer|intros b Hb].
  destruct (durable b) as [c|]; [|by apply stays_ret]. eapply stays_bind; [apply kept_unpoisoned|intros _ _].
  eapply stays_bind; [apply stays_on_core, stays_ensure_created|intros _ _]. eapply stays_bind; [apply stays_buffer|intros b' Hb'].
  eapply stays_bind; [apply stays_expect|intros c' Hc']. eapply stays_bind; [apply stays_of_result|intros n' _].
  eapply stays_bind with (Q := fun _ => True).
  - stay_step; [|by stay_step]. stay_step; [by stay_step|]. eapply stays_bind; [apply kept_unpoisoned|intros _ _].
    eapply stays_bind; [apply stays_of_result|intros n'' _]. apply stays_on_core, stays_ensure_preallocated.
  - intros _ _. destruct (Hb' c' Hc') as [-> _]. apply kept_preverify.
Qed.

Lemma kept_reserve p : kept (reserve_typed_exact_append sha256 pid try_reserve_exact chunk p).
Proof.
  unfold reserve_typed_exact_append, reserve_credit, reserve_slots. stay_more; apply kept_preflight || exact I.
Qed.

Lemma kept_drop_reservation r : kept (drop_reservation r).
Proof. unfold drop_reservation. stay_more. Qed.
#[local] Hint Resolve kept_drop_reservation : stay.

Lemma kept_tentative r : kept (append_typed_exact_tentative r).
Proof. unfold append_typed_exact_tentative, push_tentative. stay_more. Qed.

Lemma kept_rollback r : kept (rollback_typed_exact_append r).
Proof. unfold rollback_typed_exact_append, pop_tentative. stay_more. Qed.

Lemma kept_claim r : kept (claim_typed_exact_append r).
Proof. unfold claim_typed_exact_append. stay_more. Qed.


(** ** Group flushes *)

Lemma kept_begin_in_memory : kept begin_in_memory.
Proof. unfold begin_in_memory. stay_more. Qed.

Lemma kept_put_state f :
  (forall s, file (f s) = file s /\ segment_base_records (f s) = segment_base_records s) -> kept (on_core (put_state f)).
Proof. intros Hf. apply stays_on_core, stays_put_state. intros s. by destruct (Hf s) as [-> ->]. Qed.

Lemma kept_legacy_extent prefix : kept (legacy_extent pid chunk prefix).
Proof.
  unfold legacy_extent. stay_more. apply stays_on_core. eapply stays_bind; [apply stays_ensure_created|intros _ _].
  eapply stays_bind; [apply stays_get_state|intros s _]. eapply stays_bind; [apply stays_of_result|intros n _]. apply stays_ensure_preallocated.
Qed.

(** A job that is handed out writes the segment. *)
Definition begun_ok (r : WalGroupFlushBegin) : Prop := match r with Job job => job_file job = seg | _ => True end.

Lemma kept_begin_serial c : core_ok c -> stays outside (begin_serial sha256 pid try_reserve_exact chunk c) begun_ok.
Proof.
  intros [Hseg _]. unfold begin_serial. destruct (fixed_fault c); [apply stays_throw|]. cbv zeta.
  destruct (io_in_flight (state c)); [by apply stays_ret|]. destruct (poisoned (state c)); [apply stays_throw|].
  eapply stays_bind; [apply stays_buffer|intros b Hb].
  eapply stays_bind; [apply stays_of_result|intros selected _]. destruct selected as [prefix|]; [|by apply stays_ret].
  eapply stays_bind with (Q := fun _ => True); [rewrite Hseg; stay_step; [apply kept_verify|by stay_step]|intros _ _].
  eapply stays_bind; [apply kept_legacy_extent|intros _ _]. eapply stays_bind; [apply stays_buffer|intros b' Hb'].
  eapply stays_bind; [apply stays_expect|intros c' Hc']. eapply stays_bind; [apply stays_expect|intros f Hf].
  eapply stays_bind; [apply kept_handoff|intros group _]. destruct group as [g|]; [|by apply stays_ret].
  eapply stays_bind; [by apply kept_put_state|intros _ _]. apply stays_ret. cbn. destruct (Hb' c' Hc') as (_ & H & _). by apply H.
Qed.

Lemma kept_begin : stays outside (begin_group_flush sha256 pid try_reserve_exact chunk) begun_ok.
Proof.
  unfold begin_group_flush, require_no_unclaimed_typed_exact_tail. eapply stays_bind; [apply kept_prune|intros _ _].
  eapply stays_bind with (Q := fun _ => True); [stay_more|intros _ _]. eapply stays_bind; [apply stays_buffer|intros b Hb].
  destruct (fail_next_flush b); [stay_more|]. destruct (durable b) as [c|] eqn:Hd; [apply kept_begin_serial; by apply Hb|].
  unfold begin_in_memory. stay_more.
Qed.

Lemma kept_install f : kept (on_core (fun s => let '(core, first) := install_fixed_fault s.1 f in Done (core, s.2) (Ok first))).
Proof.
  apply stays_on_core. intros [c w] s' r [Hc Hw]. cbn [fst snd]. unfold install_fixed_fault. destruct (Poison.install _ _) as [p first].
  intros [= <- <-]. done.
Qed.
#[local] Hint Resolve kept_install : stay.

Lemma kept_finish job io : kept (finish_job job io).
Proof.
  unfold finish_job, serial_exact_post_handoff, serial_exact_fault, serial_legacy_post_handoff.
  stay_more; first [exact I|by apply kept_install|by apply kept_put_state].
Qed.

Lemma kept_abandon job : kept (abandon job).
Proof. unfold abandon. stay_more; first [exact I|by apply kept_install|by apply kept_put_state]. Qed.

Lemma frame_pwritev answer w iovecs offset : frame q w (pwritev_once answer w seg iovecs offset).1.
Proof.
  pose proof (fo_seg _ _ _ Hq) as Hne. unfold pwritev_once. unfold write_file. repeat case_match; cbn; try reflexivity; by apply frame_set_inode.
Qed.

Lemma frame_write_loop script w g entry part part_offset offset remaining :
  frame q w (write_loop script w seg g entry part part_offset offset remaining).1.
Proof.
  revert w entry part part_offset offset remaining. induction script as [|answer script IH]; intros; cbn [write_loop]; [by destruct (_ =? 0)|].
  destruct (remaining =? 0); [done|]. destruct (gather _ _ _ _ _ _ _ _) as [[|x iovecs]|]; [done| |done].
  pose proof (frame_pwritev answer w (x :: iovecs) offset) as Hf. destruct (pwritev_once _ _ _ _ _) as [w' outcome]. cbn [fst] in Hf.
  destruct outcome; cbn [fst]; try done; [repeat case_match; try done|]; etrans; [exact Hf|apply IH|exact Hf|apply IH].
Qed.

Lemma frame_sync script w g : frame q w (sync_data_retry_interrupted script w seg g).1.
Proof.
  pose proof (fo_seg _ _ _ Hq) as Hne. revert w. induction script as [|answer script IH]; intros w; cbn [sync_data_retry_interrupted]; [done|].
  assert (frame q w (sync_data_once answer w seg).1) as Hf by (unfold sync_data_once; repeat case_match; cbn; try reflexivity; by apply frame_set_inode).
  destruct (sync_data_once answer w seg) as [w' outcome]. cbn [fst] in Hf. destruct outcome; cbn [fst]; try done. etrans; [exact Hf|apply IH].
Qed.

Lemma frame_job_io writes syncs job w : job_file job = seg -> frame q w (job_io writes syncs job w).1.
Proof.
  intros Hf. unfold job_io, write_all_vectored_at. rewrite Hf.
  pose proof (frame_write_loop writes w (job_group job) 0 0 0 (job_offset job) (wire_bytes (job_group job))) as Hw.
  destruct (write_loop _ _ _ _ _ _ _ _ _) as [w' [[[]|f]|]]; cbn [fst] in *; try done. etrans; [exact Hw|apply frame_sync].
Qed.

Lemma kept_commit writes syncs job : job_file job = seg -> kept (commit writes syncs job).
Proof.
  intros Hf [b w] s' r [H1 H2]. unfold commit. cbn [fst snd]. pose proof (frame_job_io writes syncs job w Hf) as Hw.
  destruct (job_io writes syncs job w) as [w' [io|]]; [|done]. apply kept_finish. split; [done|]. cbn in *. by etrans.
Qed.

(** ** Truncation and rotation *)

Lemma stays_or_poison {E A} reason fail (m : M World E A) :
  stays (frame q w0) m (fun _ => True) -> stays core_outside (or_poison reason fail m) (fun _ => True).
Proof.
  intros Hm [c w] s' r [H1 H2]. unfold or_poison. cbn [fst snd] in *. destruct (m w) as [| |w' [a|e]] eqn:Em; try done;
    intros [= <- <-]; destruct (Hm _ _ _ H2 Em) as [H3 _]; split; try done; split; done.
Qed.

Lemma frames_set_len n : frames q (set_len seg n).
Proof. unfold set_len. framed. apply frames_modify. intros w. apply frame_set_inode, Hq. Qed.

Lemma stays_rewind new_len disowned : stays core_outside (rewind_segment new_len disowned) (fun _ => True).
Proof.
  unfold rewind_segment.
  eapply stays_bind; [apply stays_get_state|intros s Hs]. eapply stays_bind with (Q := fun _ => True); [|intros _ _; by apply stays_put_state].
  destruct (file s) as [f|] eqn:Hf; [|by apply stays_ret]. destruct (_ <? _); [|by apply stays_ret].
  eapply stays_bind.
  - apply stays_attempt, stays_or_poison. specialize (Hs f Hf) as ->. eapply stays_bind; [|intros _ _].
    + apply frames_stays, frames_set_len.
    + apply frames_stays. pose proof (fo_seg _ _ _ Hq). framed.
  - intros [[]|] _; [by apply stays_put_state|by apply stays_ret].
Qed.

Lemma kept_truncate n : kept (truncate n).
Proof.
  unfold truncate, truncate_backing. stay_more; try exact I; [apply stays_on_core, stays_rewind|exact I|by case_match].
Qed.

Lemma stays_rotate retained bound base :
  bases base -> stays core_outside (rotate_segment sha256 pid try_reserve_exact chunk retained bound base) (fun _ => True).
Proof.
  intros Hb. pose proof Hq as [? ? ? ? ?]. unfold rotate_segment. eapply stays_bind; [apply stays_get_path|intros ? ->].
  eapply stays_bind; [by apply stays_put_state|intros _ _].
  eapply stays_bind; [apply stays_or_poison, frames_stays|intros _ _].
  { destruct bound; [unfold rewrite_wal_segment_requiring_durable_identity; framed|by apply frames_write_segment]. }
  eapply stays_bind; [apply stays_or_poison, frames_stays; framed|intros _ _].
  eapply stays_bind; [apply stays_or_poison, frames_stays; framed|intros _ _].
  eapply stays_bind; [by apply stays_or_poison, stays_zero_fill_extend|intros _ _].
  eapply stays_bind; [apply stays_put_state|intros _ _; apply stays_record_tail]. intros s H1 H2. split; [by intros p [= <-]|done].
Qed.

Lemma kept_rotate base : bases base -> kept (truncate_durable_segment_prefix sha256 pid try_reserve_exact chunk base).
Proof.
  intros Hb. unfold truncate_durable_segment_prefix. eapply stays_bind; [apply stays_buffer|intros b H].
  destruct (durable b) as [c|] eqn:Hd; [|apply stays_throw]. destruct (H c Hd) as [Hseg _]. destruct (io_in_flight _); [apply stays_wait|].
  eapply stays_bind; [apply stays_of_result|intros _ _]. eapply stays_bind with (Q := fun _ => True); [|intros _ _].
  - destruct (binding_identity _); [|by apply stays_ret]. rewrite Hseg. pose proof (fo_anchor _ _ _ Hq). apply kept_disk. by eauto with framed.
  - eapply stays_bind; [apply stays_expect|intros retained _]. by apply stays_on_core, stays_rotate.
Qed.

(** ** Reopening *)

Lemma stays_reopen recovery : stays core_outside (reopen_segment pid chunk recovery) (fun _ => True).
Proof.
  pose proof (fo_seg _ _ _ Hq) as Hne. unfold reopen_segment. destruct (_ <? _); [|by apply stays_ret].
  eapply stays_bind; [apply stays_get_path|intros ? ->].
  eapply stays_bind; [apply stays_on_world, frames_stays; unfold os; framed|intros _ _]. cbv zeta.
  eapply stays_bind; [apply stays_on_world, stays_map_err|intros _ _].
  - eapply stays_bind; [apply frames_stays, frames_set_len|intros _ _]. eapply stays_bind; [apply frames_stays; framed|intros _ _].
    by apply stays_zero_fill_extend.
  - eapply stays_bind; [apply stays_put_state|intros _ _; apply stays_record_tail]. intros s H1 H2. split; [by intros p [= <-]|done].
Qed.

Lemma stays_drop_core : stays core_outside (drop_core pid) (fun _ => True).
Proof.
  unfold drop_core. eapply stays_bind; [apply stays_get_state|intros s _]. stay_step; [by stay_step|].
  eapply stays_bind; [apply stays_get_path|intros ? ->].
  eapply stays_bind; [apply stays_attempt, stays_on_world, frames_stays, frames_write_tail|intros _ _]. by apply stays_ret.
Qed.

Lemma stays_recovered_core base count recovery :
  bases 0 -> bases base -> stays (frame q w0) (recovered_core pid chunk seg base count recovery) core_ok.
Proof.
  intros H0 Hb w w' r Hw. unfold recovered_core. destruct (bind _ _ _) as [| |[c w1] [[]|e]] eqn:E1; try done.
  all: assert (core_outside (c, w1)) as H1.
  1,3: refine (proj1 (stays_bind _ _ _ (fun _ => True) (fun _ => True) (stays_reopen recovery) _ (fresh seg, w) _ _ _ E1)); [|done].
  1,2: intros _ _; apply stays_put_state; intros s H1 _; by split.
  - intros [= <- <-]. split; [apply H1|]. intros c' [= <-]. apply H1.
  - destruct (drop_core pid (c, w1)) as [| |[c2 w2] r2] eqn:E2; try done. intros [= <- <-]. split; [|done].
    apply (stays_drop_core _ _ _ H1 E2).
Qed.

End buffer.

End Preserve.
