(* ===== verification/Rotation.v ===== *)
(** * Rotating the log through checkpoints (crates/engine/src/engine_wal_archive.rs, engine_lifecycle.rs)

    The commit state writes a checkpoint of everything flushed, commits it with the control file
    and only then cuts the live segment; the opening side reads the checkpoint, drops the overlap
    with the live segment that an interrupted rotation leaves, and rebuilds the buffer.

    What the engine does with the records is a parameter: [prepare], [replay] and [finish] are the
    recovery of the executor, [stage] takes a sealed manifest, [share] gives the decoded payloads
    their allocations and [fresh_identity] is the generated one. *)

From stdpp Require Import base gmap strings list pretty.
From S2P Require Import Prelude Types LocalRepl Bytes Text Paths WalSegment WalProps Sidecar Archive ArchiveFacts Canonical Envelope Effects Disk Identity WalCore WalGroup WalScatter WalBuffer DiskFacts SealedManifest Checkpoint CheckpointFacts LanesFacts.

Module Rotation.
Import Text Paths Sidecar Canonical Envelope Effects Disk Identity WalCore WalGroup WalBuffer Checkpoint.

#[local] Existing Instance Wal.WalRecord_eq_dec.

(** The parts of the commit state a rotation touches. *)
Record CommitState := mkCommit {
  repl : Local.LocalReplicator;
  wal : WalBuffer;
  wal_commit_timestamps_micros : gmap Z Z;
  wal_commit_timestamp_reservation_generation : Z;
}.

Definition set_wal (c : CommitState) (b : WalBuffer) : CommitState :=
  mkCommit (repl c) b (wal_commit_timestamps_micros c) (wal_commit_timestamp_reservation_generation c).

Definition set_repl (c : CommitState) (r : Local.LocalReplicator) : CommitState :=
  mkCommit r (wal c) (wal_commit_timestamps_micros c) (wal_commit_timestamp_reservation_generation c).

Abbreviation CommitM := (M (CommitState * World) EngineError).

Definition commit_state : CommitM CommitState := let! t := get in ret t.1.

Definition on_wal {A} (m : BufM A) : CommitM A :=
  zoom (fun t => (wal t.1, t.2)) (fun s t => (set_wal t.1 s.1, s.2)) m.

Definition on_files {A} (m : M World EngineError A) : CommitM A := zoom snd (fun w t => (t.1, w)) m.

Definition is_durable (b : WalBuffer) : bool := bool_decide (is_Some (durable b)).

(** [prune_checkpointed_commit_timestamps]; the generation counter must not run out. *)
Definition prune_checkpointed_commit_timestamps (checkpointed : gset Z) (c : CommitState) : option CommitState :=
  generation ← checked_add64 (wal_commit_timestamp_reservation_generation c) 1;
  Some (mkCommit (repl c) (wal c)
    (filter (fun kv => kv.1 ∉ checkpointed) (wal_commit_timestamps_micros c)) generation).

(** [GPU_DB_WAL_CHECKPOINT_BYTES], when it is set. *)
Definition wal_checkpoint_bytes (env : option string) : Z :=
  match env with
  | Some v => match parse_u64 v with Ok v => v | Err _ => 256 * 1024 * 1024 end
  | None => 256 * 1024 * 1024
  end.

(** [find] over [(0..=max_k).rev()]. *)
Fixpoint find_overlap (k : nat) (checkpoint live : list Wal.WalRecord) : nat :=
  if bool_decide (drop (length checkpoint - k) checkpoint = take k live) then k
  else match k with O => O | S k => find_overlap k checkpoint live end.

Definition overlap (checkpoint live : list Wal.WalRecord) : nat :=
  find_overlap (length checkpoint `min` length live) checkpoint live.

Section rotation.
Context {alloc : VecAlloc}.
Context (sha256 : list byte -> list byte) (pid : Z) (try_reserve_exact : Z -> bool) (chunk : Z).

(** ** Writing *)

(** The path of the segment as the control file names it. *)
Definition control_segment_path (control_path segment_path : Path) : Path :=
  default segment_path (path_strip_prefix segment_path (default (from_str ".") (parent control_path))).

(** The checkpoint segment and the control file that commits it. *)
Definition write_checkpoint (control_path segment_path : Path) (b : WalBuffer)
    : M World EngineError Archive.WalCheckpointMeta :=
  let! flushed := expect (flushed_slice b) in
  write_wal_segment sha256 pid try_reserve_exact segment_path (erase <$> flushed) ;;
  let! meta := expect (checkpoint_meta b) in
  write_wal_control_file sha256 pid control_path
    (mkControl (control_segment_path control_path segment_path) meta None) ;;
  ret meta.

(** [quiesced] is the answer of [commit_state_after_wave_quiescence]. *)
Definition persist_durable_wal_checkpoint (quiesced : result unit EngineError)
    (control_path segment_path : Path) : CommitM unit :=
  of_result quiesced ;;
  let! c := commit_state in
  on_files (write_checkpoint control_path segment_path (wal c)) ;;
  ret tt.

(** A checkpoint that a crash cannot take back. *)
Definition persist_synced (control_path segment_path : Path) (b : WalBuffer)
    : M World EngineError Archive.WalCheckpointMeta :=
  let! meta := write_checkpoint control_path segment_path b in
  sync_segment_parent_dir segment_path ;;
  sync_segment_parent_dir control_path ;;
  ret meta.

Definition checkpoint_and_truncate_durable_wal (quiesced : result unit EngineError)
    (control_path checkpoint_segment_path : Path) : CommitM Archive.WalCheckpointMeta :=
  of_result quiesced ;;
  let! c := commit_state in
  if negb (is_durable (wal c)) then
    throw (Durability "checkpoint_and_truncate_durable_wal requires a durable WAL segment")
  else
    let boundary := flushed_count (wal c) in
    let! flushed := expect (flushed_slice (wal c)) in
    let checkpointed : gset Z := list_to_set (txn_id <$> flushed) in
    let! meta := on_files (persist_synced control_path checkpoint_segment_path (wal c)) in
    on_wal (truncate_durable_segment_prefix sha256 pid try_reserve_exact chunk boundary) ;;
    let! c := commit_state in
    let! c := expect (prune_checkpointed_commit_timestamps checkpointed c) in
    let! r := expect (Local.compact_applied_prefix (repl c)) in
    modify (fun t => (set_repl c r, t.2)) ;;
    ret meta.

Definition checkpoint_and_truncate_durable_wal_if_larger_than (quiesced : result unit EngineError)
    (control_path checkpoint_segment_path : Path) (max_live_segment_bytes : Z) : CommitM bool :=
  let! c := commit_state in
  if durable_segment_bytes (wal c) <=? max_live_segment_bytes then ret false
  else
    checkpoint_and_truncate_durable_wal quiesced control_path checkpoint_segment_path ;;
    ret true.

(** [failures] is the counter of failed maintenance. *)
Definition maybe_auto_checkpoint_wal (quiesced : result unit EngineError) (env : option string) (failures : Z)
    : CommitM (bool * Z) :=
  let max := wal_checkpoint_bytes env in
  if max =? 0 then ret (false, failures)
  else
    let! c := commit_state in
    match durable (wal c) with
    | None => ret (false, failures)
    | Some core =>
        let seg := segment_path core in
        let! rotated := attempt (checkpoint_and_truncate_durable_wal_if_larger_than quiesced
          (wal_checkpoint_control_path seg) (wal_checkpoint_segment_path seg) max) in
        match rotated with
        | Ok rotated => ret (rotated, failures)
        | Err _ => ret (false, u64_add failures 1)
        end
    end.

(** ** Opening *)

Context (prepare replay finish : list Wal.WalRecord -> result unit EngineError).
Context (stage : SealedManifest.SealedInt4RebuildManifestV1 -> result unit EngineError).
Context (share : list Wal.WalRecord -> Vec SharedRecord) (fresh_identity : CanonicalIdentity).

(** The lineage of the recovery source. *)
Fixpoint lineage_through (identity : option CanonicalIdentity) (records : list Wal.WalRecord)
    : result (option CanonicalIdentity) EngineError :=
  match records with
  | [] => Ok identity
  | record :: records =>
      let? envelope := decode_canonical_record_payload sha256 try_reserve_exact (Wal.payload record) in
      match envelope with
      | None => lineage_through identity records
      | Some envelope =>
          let found := Canonical.identity (header envelope) in
          match identity with
          | None => lineage_through (Some found) records
          | Some expected =>
              if bool_decide (expected = found) then lineage_through identity records
              else Err (Durability "canonical WAL lineage changes within the recovery source")
          end
      end
  end.

(** The identity the engine is bound to afterwards. *)
Definition bind_durable_identity_for_recovery (base : Path) (records : list Wal.WalRecord)
    : M World EngineError CanonicalIdentity :=
  of_result (prepare records) ;;
  let! record_identity := of_result (lineage_through None records) in
  let! anchor := read_durable_identity sha256 base in
  match anchor, record_identity with
  | Some anchor, Some found =>
      if bool_decide (anchor = found) then ret anchor
      else throw (Durability ("durable identity anchor beside " +:+ display base +:+
                              " does not match canonical WAL lineage"))
  | Some anchor, None => ret anchor
  | None, Some _ =>
      throw (Durability ("canonical WAL exists beside " +:+ display base +:+
                         " but its durable identity anchor is missing"))
  | None, None => write_durable_identity sha256 pid base fresh_identity ;; ret fresh_identity
  end.

Definition validate_sealed_int4_checkpoint_cut (manifest : SealedManifest.SealedInt4RebuildManifestV1)
    (checkpoint : Archive.WalCheckpointMeta) (checkpoint_records : list Wal.WalRecord)
    : result unit EngineError :=
  if negb (vec_len checkpoint_records =? Archive.durable_record_count checkpoint) ||
     negb (bool_decide (Wal.txn_id <$> last checkpoint_records = Archive.last_durable_txn_id checkpoint)) then
    Err (Durability "sealed nullable-int4 checkpoint metadata does not match its WAL prefix")
  else
    let? terminal := ok_or (last checkpoint_records)
      (Durability "sealed nullable-int4 checkpoint has no terminal canonical WAL record") in
    let? envelope := decode_canonical_record_payload sha256 try_reserve_exact (Wal.payload terminal) in
    let? envelope := ok_or envelope
      (Durability "sealed nullable-int4 checkpoint terminal WAL record is not canonical") in
    SealedManifest.validate_checkpoint_cut manifest checkpoint (Canonical.commit_seq (header envelope)).

(** The checks on a sealed manifest of the control file. *)
Definition admit_sealed (control : WalControlFile) (identity : CanonicalIdentity)
    (checkpoint_records : list Wal.WalRecord) : result unit EngineError :=
  match sealed_int4_rebuild control with
  | None => Ok tt
  | Some manifest =>
      if negb (SealedManifest.matches_lineage manifest identity) then
        Err (Durability "sealed nullable-int4 checkpoint lineage does not match control WAL")
      else
        let? _ := validate_sealed_int4_checkpoint_cut manifest (control_checkpoint control) checkpoint_records in
        stage manifest
  end.

(** The files of the running process, as a reading call sees them. *)
Definition read_files {A} (read : Fs -> option (result A EngineError)) : M World EngineError A :=
  os id fallible ;;
  let! w := get in
  let! r := expect (read (visible w)) in
  of_result r.

(** A buffer rebuilt on a disk, with an operation on it whose failure is ignored. *)
Definition repaired (b : WalBuffer) (m : BufM unit) : M World EngineError WalBuffer := fun w =>
  match m (b, w) with
  | Panic => Panic
  | Wait => Wait
  | Done (b, w) _ => Done w (Ok b)
  end.

(** [open_durable_wal_segment_with_checkpoint_once], for a log without lane files. *)
Definition open_with_checkpoint (owner_id : Z) (control_path segment_path : Path) : M World EngineError WalBuffer :=
  let! (control, checkpoint_records) := read_files (fun fs => read_wal_checkpoint sha256 fs control_path) in
  let! recovery := read_files (fun fs => Some (recover_live_segment fs segment_path)) in
  let k := overlap checkpoint_records (Wal.records recovery) in
  let recovery := Wal.mkSegmentRecovery (drop k (Wal.records recovery)) (Wal.valid_bytes recovery)
    (Wal.discarded_torn_bytes recovery) in
  let records := checkpoint_records ++ Wal.records recovery in
  let! identity := bind_durable_identity_for_recovery segment_path records in
  of_result (admit_sealed control identity checkpoint_records) ;;
  of_result (replay records) ;;
  let! b := with_recovered_durable_segment_bound_to_identity sha256 pid try_reserve_exact chunk owner_id
    segment_path (share records) recovery identity in
  let! b :=
    if (0 <? k)%nat then
      repaired b (truncate_durable_segment_prefix sha256 pid try_reserve_exact chunk (vec_len checkpoint_records))
    else ret b in
  of_result (finish records) ;;
  ret b.

(** The end of [open_durable_wal_segment_with_planner_config_once], for a serial log without lanes. *)
Definition open_serial (owner_id : Z) (segment_path : Path) : M World EngineError WalBuffer :=
  let! recovery := read_files (fun fs => Some (recover_live_segment fs segment_path)) in
  let! identity := bind_durable_identity_for_recovery segment_path (Wal.records recovery) in
  of_result (replay (Wal.records recovery)) ;;
  let! b := with_recovered_durable_segment_bound_to_identity sha256 pid try_reserve_exact chunk owner_id
    segment_path (share (Wal.records recovery)) recovery identity in
  of_result (finish (Wal.records recovery)) ;;
  ret b.

(** [open_durable_wal_segment_auto], for a log without lane files. *)
Definition open_durable_wal_segment_auto (owner_id : Z) (segment_path : Path) : M World EngineError WalBuffer :=
  let control_path := wal_checkpoint_control_path segment_path in
  let! w := get in
  match names w !! control_path with
  | Some _ => open_with_checkpoint owner_id control_path segment_path
  | None => open_serial owner_id segment_path
  end.

End rotation.

End Rotation.

(** * Checkpoints never outrun each other

    The overlap that an interrupted rotation leaves is found exactly; and however writing a
    checkpoint ends, a crash finds a control file with a checkpoint segment that holds at least
    the records it commits to. *)

Module RotationFacts.
Import Text Paths Sidecar SidecarFacts Effects Disk Identity WalCore WalGroup WalBuffer DiskFacts Checkpoint CheckpointFacts Names CheckpointWrite LanesFacts Rotation.

#[local] Arguments String.append !_ _ : simpl nomatch.

(** ** The overlap *)

Section overlap.
Context (C L : list Wal.WalRecord).

Definition matching (k : nat) : Prop := drop (length C - k) C = take k L.

(** The longest overlap of at most [k] records. *)
Lemma find_overlap_spec k :
  (find_overlap k C L <= k)%nat /\ matching (find_overlap k C L) /\
  forall j, (find_overlap k C L < j <= k)%nat -> ~ matching j.
Proof.
  unfold matching. induction k as [|k IH]; cbn [find_overlap]; (case_bool_decide as E; [split_and!; [lia|done|lia]|]).
  - destruct E. by rewrite Nat.sub_0_r, drop_all.
  - destruct IH as (H1 & H2 & H3). split_and!; [lia|done|]. intros j Hj. destruct (decide (j = S k)) as [->|]; [done|]. apply H3. lia.
Qed.

End overlap.

(** Two cuts of one history that overlap are joined to it again. *)
Lemma overlap_joined (R : list Wal.WalRecord) m b :
  NoDup R -> (b <= m <= length R)%nat ->
  let C := take m R in let L := drop b R in C ++ drop (overlap C L) L = R.
Proof.
  intros Hnd Hm C L.
  assert (length C = m) as HC by (unfold C; rewrite length_take; lia).
  assert (length L = length R - b)%nat as HL by apply length_drop.
  destruct (find_overlap_spec C L (length C `min` length L)) as (H1 & H2 & H3). fold (overlap C L) in *.
  assert (matching C L (m - b)) as Hmatch.
  { unfold matching, C, L. rewrite length_take, Nat.min_l by lia. rewrite take_drop_commute.
    replace (m - (m - b))%nat with b by lia. by replace (b + (m - b))%nat with m by lia. }
  assert (overlap C L = m - b)%nat as ->.
  { destruct (decide (overlap C L < m - b)%nat); [by destruct (H3 (m - b)%nat ltac:(lia))|].
    destruct (decide (m - b < overlap C L)%nat) as [Hgt|]; [exfalso|lia].
    unfold matching in H2. apply (f_equal (.!! 0%nat)) in H2. rewrite lookup_drop, Nat.add_0_r, lookup_take in H2.
    rewrite decide_True in H2 by lia. unfold C, L in H2. rewrite lookup_take, lookup_drop, Nat.add_0_r in H2.
    fold C L in H2. rewrite decide_True in H2 by lia. rewrite HC in H2.
    destruct (lookup_lt_is_Some_2 R b ltac:(lia)) as [x Hx]. rewrite Hx in H2.
    pose proof (NoDup_lookup R _ _ x Hnd H2 Hx). lia. }
  unfold C, L. rewrite drop_drop. replace (b + (m - b))%nat with m by lia. apply take_drop.
Qed.

(** ** Checkpoint files *)

Section files.
Context (sha256 : list byte -> list byte) (Hsha : forall l, length (sha256 l) = 32%nat).
Context (pid : Z) (Hpid : 0 <= pid) (try_reserve_exact : Z -> bool).
Context (seg : Path) (stem : string) (Hseg : readable_segment seg stem).

Abbreviation Hname := (rs_name _ _ Hseg).
Abbreviation Hstem := (rs_plain _ _ Hseg).
Abbreviation own := (Names.own seg stem).
Abbreviation hidden := (Names.hidden seg stem).
Abbreviation control := (own ".control").
Abbreviation checkpoint := (own ".checkpoint").

(** The control file that commits [rs]. *)
Definition control_of (rs : list Wal.WalRecord) : WalControlFile :=
  mkControl (mkPath false [stem +:+ ".checkpoint"]) (Archive.mkMeta (vec_len rs) (Wal.txn_id <$> last rs)) None.

Definition committed_inode (rs : list Wal.WalRecord) : Inode := control_inode sha256 (control_of rs) None.

Lemma named_segment : control_segment_path control checkpoint = mkPath false [stem +:+ ".checkpoint"].
Proof.
  unfold control_segment_path, Names.own. rewrite beside_parent. cbn [default from_option id]. unfold path_strip_prefix, is_empty.
  cbn [absolute components beside]. case_bool_decide as E; [destruct (absolute seg) eqn:Ea|]; cbn [negb andb].
  - by rewrite E.
  - cbn [default from_option id]. unfold beside. by rewrite Ea, E.
  - rewrite Bool.eqb_reflx, strip_components_app. by destruct (absolute seg).
Qed.

Lemma resolved_segment : Archive.resolve_manifest_path control (mkPath false [stem +:+ ".checkpoint"]) = checkpoint.
Proof.
  unfold Archive.resolve_manifest_path, Names.own. cbn [absolute]. rewrite beside_parent. cbn [default from_option id].
  pose proof (plain_suffix seg stem Hname Hstem ".checkpoint" ltac:(split; [done|cbn; lia])) as Hp.
  rewrite <- (plain_from_str _ Hp). rewrite <- (with_beside _ stem) by (done || apply Hname).
  unfold with_file_name. by rewrite Hname.
Qed.

Lemma control_of_text rs : text_path (control_segment (control_of rs)).
Proof.
  pose proof Hseg as [_ _ [Hc Hu] _]. pose proof (plain_suffix seg stem Hname Hstem ".checkpoint" ltac:(split; [done|cbn; lia])) as Hp.
  assert (display (control_segment (control_of rs)) = stem +:+ ".checkpoint") as E by done.
  unfold text_path. rewrite E, plain_from_str by done. split_and!; [done|by apply clean_line_app|by apply utf8_valid_app].
Qed.

Lemma control_of_ok rs :
  vec_len rs < U64 -> Forall WalProps.record_ok rs -> control_ok (control_of rs).
Proof.
  intros Hl Hrs. constructor; cbn [control_of control_segment control_checkpoint sealed_int4_rebuild Archive.durable_record_count Archive.last_durable_txn_id]; [| |done].
  - split; [apply vec_len_nonneg|done].
  - destruct (last rs) as [r|] eqn:El; [|done]. cbn. apply last_Some in El as [l ->]. apply Forall_app in Hrs as [_ Hr].
    apply Forall_cons_1 in Hr as [[] _]. done.
Qed.

(** A control file reads its checkpoint from any segment that holds it. *)
Lemma read_committed fs rs all :
  vec_len rs < U64 -> Forall WalProps.record_ok all -> rs `prefix_of` all ->
  fs !! control = Some (data (committed_inode rs)) -> fs !! checkpoint = Some (Wal.segment_bytes all) ->
  read_wal_checkpoint sha256 fs control = Some (Ok (control_of rs, rs)).
Proof.
  intros Hl Hall [more ->] Hc Hf. apply Forall_app in Hall as [Hrs Hmore].
  pose proof (read_control sha256 Hsha (control_of rs) None (control_of_ok rs Hl Hrs) eq_refl fs control (control_of_text rs) Hc) as Hread.
  assert (take (Z.to_nat (vec_len rs)) (rs ++ more) = rs) as Ht by (unfold vec_len; rewrite Nat2Z.id; apply take_app_length).
  rewrite (read_checkpoint_prefix sha256 fs control (control_of rs) (rs ++ more) Hread);
    cbn [control_of control_segment control_checkpoint Archive.durable_record_count Archive.last_durable_txn_id];
    rewrite ?Ht, ?resolved_segment; try done.
  - by apply Forall_app.
  - rewrite vec_len_app. pose proof (vec_len_nonneg rs). pose proof (vec_len_nonneg more). lia.
Qed.

(** ** Names *)

Lemma segment_names q : q = control \/ q = seg -> segment_apart pid q checkpoint.
Proof.
  pose proof Hname as Hn. pose proof Hstem as Hs. unfold segment_apart, anchor_apart.
  assert (suffix_ok ".checkpoint") as Hok by (split; [done|cbn; lia]).
  rewrite (identity_own seg stem Hn Hs _ Hok), (temp_segment pid seg stem Hpid Hn Hs _ Hok),
    (temp_control pid seg stem Hpid Hn Hs) by (split; [done|cbn; lia]).
  intros [->| ->]; split_and!; try (by apply own_not_seg || by apply hidden_not_seg || by apply own_differ).
  all: by apply hidden_own.
Qed.

Lemma segment_itself : temporary_segment_path pid checkpoint <> checkpoint /\ anchor_apart pid checkpoint checkpoint.
Proof.
  pose proof Hname as Hn. pose proof Hstem as Hs. unfold anchor_apart.
  assert (suffix_ok ".checkpoint") as Hok by (split; [done|cbn; lia]).
  rewrite (identity_own seg stem Hn Hs _ Hok), (temp_segment pid seg stem Hpid Hn Hs _ Hok),
    (temp_control pid seg stem Hpid Hn Hs) by (split; [done|cbn; lia]).
  split_and!; try (by apply own_differ). all: by apply hidden_own.
Qed.

Lemma control_names q : q = checkpoint \/ q = seg \/ q = control -> temporary_control_path pid control <> q.
Proof.
  rewrite (temp_control pid seg stem Hpid Hname Hstem) by (split; [done|cbn; lia]).
  pose proof Hname. intros [->|[->| ->]]; [by apply hidden_own|by apply hidden_not_seg|by apply hidden_own].
Qed.

Lemma control_differs : control <> checkpoint /\ control <> seg /\ checkpoint <> seg.
Proof. pose proof Hname. split_and!; by apply own_differ || by apply own_not_seg. Qed.

Lemma own_dir t : suffix_ok t -> exists d, nonempty_parent (own t) = Some d.
Proof. intros Ht. rewrite (own_parent seg stem Hname t Ht). apply Hseg. Qed.

(** ** What a crash finds *)

(** Every control file that may be found commits between [c] and [f] records of the history [H],
    and the checkpoint segment holds between [f] and [n] of them. *)
Record ck_files (H : list Wal.WalRecord) (c f n : Z) (w : World) : Prop := mkCkFiles {
  cf_bounds : 0 <= c <= f /\ f <= n <= vec_len H;
  cf_control : forall v, v ∈ versions w control ->
    (v = None /\ c = 0) \/ exists m, c <= m <= f /\ v = Some (committed_inode (take (Z.to_nat m) H));
  cf_segment : (forall v, v ∈ versions w control -> v = None) \/
    forall v, v ∈ versions w checkpoint -> exists m, f <= m <= n /\ v = Some (segment_inode (take (Z.to_nat m) H));
}.

(** The history may change after [n], and the watermark may move up. *)
Lemma ck_files_move H H' c f n n' w w' :
  ck_files H c f n w -> frame control w w' -> frame checkpoint w w' ->
  take (Z.to_nat n) H' = take (Z.to_nat n) H -> n <= n' <= vec_len H' -> ck_files H' c f n' w'.
Proof.
  intros [Hb Hc Hs] F1 F2 E Hn.
  assert (forall m, m <= n -> take (Z.to_nat m) H' = take (Z.to_nat m) H) as Hm.
  { intros m Hm. apply (f_equal (take (Z.to_nat m))) in E. rewrite !take_take in E. by rewrite !Nat.min_l in E by lia. }
  constructor; [lia| |].
  - intros v Hv. destruct (Hc v) as [?|(m & ? & ->)]; [by eapply frame_versions|by left|]. right. exists m. rewrite Hm by lia. split; [lia|done].
  - destruct Hs as [Hs|Hs]; [left|right]; intros v Hv.
    + apply Hs. by eapply frame_versions.
    + destruct (Hs v) as (m & ? & ->); [by eapply frame_versions|]. exists m. rewrite Hm by lia. split; [lia|done].
Qed.

(** The checkpoint segment of everything flushed. *)
Lemma ck_files_segment H c f n w w' rs :
  ck_files H c f n w -> rs = take (Z.to_nat n) H -> frame control w w' -> replaces checkpoint (segment_inode rs) w w' ->
  ck_files H c f n w'.
Proof.
  intros [Hb Hc Hs] -> F1 F2. constructor; [done| |].
  - intros v Hv. apply Hc. by eapply frame_versions.
  - destruct Hs as [Hs|Hs]; [left|right]; intros v Hv; [apply Hs; by eapply frame_versions|].
    destruct (F2 v Hv) as [Hv'| ->]; [by apply Hs|]. exists n. split; [lia|done].
Qed.

Lemma ck_files_settled H c f n w w' :
  ck_files H c f n w -> frame control w w' -> settled checkpoint (segment_inode (take (Z.to_nat n) H)) w' -> ck_files H c n n w'.
Proof.
  intros [Hb Hc Hs] F1 F2. constructor; [lia| |].
  - intros v Hv. destruct (Hc v) as [?|(m & ? & ->)]; [by eapply frame_versions|by left|]. right. exists m. split; [lia|done].
  - right. intros v Hv. rewrite (settled_versions _ _ _ F2) in Hv. apply list_elem_of_singleton in Hv as ->. exists n. split; [lia|done].
Qed.

(** The control file that commits it. *)
Lemma ck_files_control H c n w w' rs :
  ck_files H c n n w -> rs = take (Z.to_nat n) H -> settled checkpoint (segment_inode rs) w ->
  frame checkpoint w w' -> replaces control (committed_inode rs) w w' -> ck_files H c n n w'.
Proof.
  intros [Hb Hc Hs] -> Hset F1 F2. constructor; [done| |].
  - intros v Hv. destruct (F2 v Hv) as [Hv'| ->]; [by apply Hc|]. right. exists n. split; [lia|done].
  - right. intros v Hv. eapply frame_versions in Hv; [|done]. rewrite (settled_versions _ _ _ Hset) in Hv.
    apply list_elem_of_singleton in Hv as ->. exists n. split; [lia|done].
Qed.

Lemma ck_files_committed H c n w :
  ck_files H c n n w -> settled control (committed_inode (take (Z.to_nat n) H)) w -> ck_files H n n n w.
Proof.
  intros [Hb Hc Hs] Hset. constructor; [lia| |].
  - intros v Hv. rewrite (settled_versions _ _ _ Hset) in Hv. apply list_elem_of_singleton in Hv as ->. right. exists n. split; [lia|done].
  - destruct Hs as [Hs|Hs]; [|by right]. specialize (Hs (Some (committed_inode (take (Z.to_nat n) H)))).
    rewrite (settled_versions _ _ _ Hset) in Hs. discriminate Hs. by apply list_elem_of_singleton.
Qed.

(** ** Persisting *)

Section persist.
Context (b : WalBuffer).

Abbreviation H := (logical_records b).
Abbreviation n := (flushed_count b).
Abbreviation flushed := (take (Z.to_nat n) H).

Context (Hn : 0 <= n <= len b).

Lemma flushed_slice_records :
  exists rs, flushed_slice b = Some rs /\ erase <$> rs = flushed.
Proof.
  unfold flushed_slice. rewrite (proj2 (Z.leb_le _ _)) by lia. eexists. split; [done|]. unfold logical_records. by rewrite fmap_take.
Qed.

Lemma flushed_len : vec_len flushed = n.
Proof. unfold len, vec_len, logical_records in *. rewrite length_take, length_fmap. lia. Qed.

Lemma checkpoint_meta_records : checkpoint_meta b = Some (control_checkpoint (control_of flushed)).
Proof.
  destruct flushed_slice_records as (rs & Hs & Hrs). unfold checkpoint_meta. rewrite Hs. cbn [mbind option_bind]. f_equal.
  cbn [control_of control_checkpoint]. rewrite flushed_len, <- Hrs, fmap_last. f_equal. by destruct (last rs).
Qed.

Section apart.
Context (q : Path) (Hq : segment_apart pid q checkpoint /\ control <> q /\ temporary_control_path pid control <> q).

Lemma frames_write_checkpoint : frames q (write_checkpoint sha256 pid try_reserve_exact control checkpoint b).
Proof.
  destruct Hq as (? & ? & ?), flushed_slice_records as (rs & Hs & _). unfold write_checkpoint.
  rewrite Hs, checkpoint_meta_records. cbn [expect]. framed.
Qed.

Lemma frames_persist_synced : frames q (persist_synced sha256 pid try_reserve_exact control checkpoint b).
Proof. unfold persist_synced. apply frames_bind; [apply frames_write_checkpoint|intros meta]. framed. Qed.

End apart.

Lemma seg_apart : segment_apart pid seg checkpoint /\ control <> seg /\ temporary_control_path pid control <> seg.
Proof. split_and!; [apply segment_names; auto|apply control_differs|apply control_names; auto]. Qed.

Lemma write_checkpoint_spec c f w :
  ck_files H c f n w ->
  wp (write_checkpoint sha256 pid try_reserve_exact control checkpoint b) (fun w' r =>
    exists c' f', ck_files H c' f' n w' /\ c <= c' /\ (is_ok r = true -> c' = n)) w.
Proof.
  intros Hck. destruct flushed_slice_records as (rs & Hs & Hrs). destruct segment_itself as [Ht Ha]. pose proof control_differs as (Hcc & _).
  pose proof (cf_bounds _ _ _ _ _ Hck) as Hb. unfold write_checkpoint. rewrite Hs. apply wp_bind, wp_ret. rewrite Hrs. apply wp_bind.
  eapply wp_mono; [apply wp_and; [by apply (write_segment_spec _ _ _ checkpoint); [..|apply own_dir; split; [done|cbn; lia]]|]|].
  { apply (frames_write_segment sha256 pid try_reserve_exact control). apply segment_names. by left. }
  intros w1 [[]|e] [[Hr Hset] Hf]; [|by exists c, f; split; [exact (ck_files_segment _ _ _ _ _ _ _ Hck eq_refl Hf Hr)|]].
  specialize (Hset eq_refl). pose proof (ck_files_settled _ _ _ _ _ _ Hck Hf Hset) as Hck1.
  rewrite checkpoint_meta_records. apply wp_bind, wp_ret. rewrite named_segment. apply wp_bind.
  change (mkControl _ _ None) with (control_of flushed).
  eapply wp_mono; [apply wp_and; [apply (write_control_spec sha256 pid control (control_of flushed) None)|]|].
  - apply control_names. auto.
  - apply own_dir. split; [done|cbn; lia].
  - done.
  - apply (frames_write_control sha256 pid checkpoint); [done|]. apply control_names. auto.
  - intros w2 [[]|e] [[Hr2 Hset2] Hf2].
    + apply wp_ret. exists n, n. specialize (Hset2 eq_refl). split_and!; [|lia|done].
      eapply ck_files_committed; [|done]. exact (ck_files_control _ _ _ _ _ _ Hck1 eq_refl Hset Hf2 Hr2).
    + exists c, n. split_and!; [exact (ck_files_control _ _ _ _ _ _ Hck1 eq_refl Hset Hf2 Hr2)|done|done].
Qed.

Lemma persist_synced_spec c f w :
  ck_files H c f n w ->
  wp (persist_synced sha256 pid try_reserve_exact control checkpoint b) (fun w' r =>
    exists c' f', ck_files H c' f' n w' /\ c <= c' /\ (is_ok r = true -> c' = n)) w.
Proof.
  intros Hck. pose proof (cf_bounds _ _ _ _ _ Hck) as Hb. unfold persist_synced. apply wp_bind. eapply wp_mono; [by eapply write_checkpoint_spec|].
  intros w1 [meta|e] (c1 & f1 & Hck1 & Hc1 & Hok1); [|by exists c1, f1]. specialize (Hok1 eq_refl) as ->.
  assert (forall q, frames q (sync_segment_parent_dir checkpoint ;; sync_segment_parent_dir control ;; ret meta)) as Hf by (intros q; framed).
  eapply wp_mono; [apply wp_and; [apply (Hf control)|apply (Hf checkpoint)]|]. intros w2 r [F1 F2]. exists n, f1. split_and!; [|done|done].
  eapply ck_files_move; try done. split; [done|]. apply Hb.
Qed.

End persist.

End files.

End RotationFacts.
