(* ===== verification/Database.v ===== *)
(** * A log that is checkpointed while it runs

    The running system of the WAL buffer with the operations that write a checkpoint and cut the
    live segment behind it.  In every state that can be reached the checkpoint files cover what
    the segment no longer holds, so that a crash at any moment leaves the whole acknowledged
    history in the two. *)

From stdpp Require Import base gmap strings list pretty sorting.
From S2P Require Import Prelude Types Bytes Text Paths Effects Disk Sidecar WalSegment WalProps Archive Codec Canonical Envelope EnvelopeExact Identity LocalRepl WalCore WalGroup WalScatter DiskFacts WalDurability WalBuffer WalInvariant WalFormation WalFlush WalBegin WalReserve WalCrash WalSystem SealedManifest Checkpoint CheckpointFacts LanesFacts Preserve Rotation.

Module Database.
Import Paths Disk Effects Identity WalCore WalGroup WalScatter DiskFacts WalDurability WalBuffer WalInvariant WalBegin WalSystem WalCrash Checkpoint Names CheckpointWrite LanesFacts Preserve Rotation RotationFacts.

Definition is_rotation (op : Operation) : bool := match op with OpRotate _ => true | _ => false end.

(** ** The operations of the buffer leave the checkpoint alone *)

Section preserve.
Context {alloc : VecAlloc}.
Context (sha256 : list byte -> list byte) (pid : Z) (try_reserve_exact : Z -> bool) (chunk : Z) (seg q : Path) (Hq : foreign pid seg q).

Lemma outside_start s : sys_inv seg s ->
  outside seg q (eq (durable_segment_base_records (sys_buffer s))) (sys_world s) (sys_buffer s, sys_world s).
Proof.
  intros [Hi _]. split; [|done]. intros c Hd. cbn [fst] in Hd. pose proof (bi_core _ _ _ _ _ _ Hi) as Hc. rewrite Hd in Hc.
  destruct Hc as (Hseg & [_ _ Ho] & _). split_and!; [done| |by unfold durable_segment_base_records; rewrite Hd].
  intros f Hf. destruct Ho as [[Hfile _ _ _ _]|[Hfile _]]; congruence.
Qed.

Lemma outside_weaken bases bases' w0 t :
  outside seg q bases w0 t -> (forall z, bases z -> bases' z) -> outside seg q bases' w0 t.
Proof. intros [Hb Hf] Hi. split; [|done]. intros c Hc. destruct (Hb c Hc) as (H1 & H2 & H3). split_and!; [done..|by apply Hi]. Qed.

Lemma call_next {A} s (m : BufM A) k s' : call s m k = Next s' ->
  exists t r, m (sys_buffer s, sys_world s) = Done t r /\ s' = k t r.
Proof. unfold call. destruct (m _) as [| |t r]; try done. intros [= <-]. by exists t, r. Qed.

(** What a call keeps, for every way its result is put together. *)
Lemma call_kept {A} s (m : BufM A) Q k s' :
  sys_inv seg s ->
  stays (outside seg q (eq (durable_segment_base_records (sys_buffer s))) (sys_world s)) m Q ->
  (forall t r, sys_buffer (k t r) = t.1 /\ sys_world (k t r) = t.2 /\ sys_covered (k t r) = sys_covered s) ->
  call s m k = Next s' ->
  frame q (sys_world s) (sys_world s') /\ sys_covered s' = sys_covered s /\
  (forall c', durable (sys_buffer s') = Some c' -> segment_base_records (state c') = durable_segment_base_records (sys_buffer s)).
Proof.
  intros Hs Hm Hk (t & r & Hr & ->)%call_next. destruct (Hk t r) as (-> & -> & ->).
  destruct (Hm _ _ _ (outside_start s Hs) Hr) as [[Hb Hf] _]. split_and!; try done. intros c' Hc'. symmetry. by apply (Hb c').
Qed.

Lemma job_segment s job : sys_inv seg s -> sys_job s = Some job -> job_file job = seg.
Proof.
  intros [Hi _] Hj. rewrite Hj in Hi. pose proof (bi_core _ _ _ _ _ _ Hi) as Hc. destruct (durable (sys_buffer s)) as [c|]; [|done].
  destruct Hc as (Hpath & _ & _ & Hjob). rewrite <- Hpath. apply Hjob.
Qed.

Lemma perform_kept op s s' :
  sys_inv seg s -> is_rotation op = false -> perform sha256 pid try_reserve_exact chunk op s = Next s' ->
  frame q (sys_world s) (sys_world s') /\ sys_covered s' = sys_covered s /\
  (forall c', durable (sys_buffer s') = Some c' -> segment_base_records (state c') = durable_segment_base_records (sys_buffer s)).
Proof.
  intros Hs Hop. assert (frame q (sys_world s) (sys_world s) /\ sys_covered s = sys_covered s /\
    (forall c', durable (sys_buffer s) = Some c' -> segment_base_records (state c') = durable_segment_base_records (sys_buffer s))) as Hsame.
  { split_and!; [done..|]. intros c' Hc'. unfold durable_segment_base_records. by rewrite Hc'. }
  destruct op; cbn [perform is_rotation] in *; try done; unfold on_held.
  all: try (destruct (sys_held s !! k); [|by intros [= <-]]).
  all: try (destruct (sys_job s) as [job|] eqn:Hj; [|by intros [= <-]]; pose proof (job_segment s job Hs Hj) as Hf).
  all: try (apply call_kept with (Q := fun _ => True); [done| |done]).
  all: eauto using kept_append, kept_append_canonical, kept_read_tail, kept_reserve, kept_tentative, kept_rollback, kept_claim,
    kept_drop_reservation, kept_commit, kept_abandon, kept_truncate.
  - eapply stays_weaken; [by apply kept_begin|done].
  - intros [= <-]. split_and!; [by split; [|left]|done|apply Hsame].
Qed.

End preserve.

(** ** Runs of the checkpoint *)

Section runs.
Context {alloc : VecAlloc}.
Context (sha256 : list byte -> list byte) (pid : Z) (try_reserve_exact : Z -> bool) (chunk : Z) (control_path checkpoint_path : Path).

(** A checkpoint that returns has written the files, and cut the segment only when they are synced. *)
Lemma checkpoint_runs quiesced c0 w t r :
  checkpoint_and_truncate_durable_wal sha256 pid try_reserve_exact chunk quiesced control_path checkpoint_path (c0, w) = Done t r ->
  (is_ok quiesced && is_durable (wal c0) = false /\ t = (c0, w)) \/
  is_ok quiesced && is_durable (wal c0) = true /\
  exists w1 r1, persist_synced sha256 pid try_reserve_exact control_path checkpoint_path (wal c0) w = Done w1 r1 /\
    match r1 with
    | Err _ => t = (c0, w1)
    | Ok _ => exists b r2, truncate_durable_segment_prefix sha256 pid try_reserve_exact chunk (flushed_count (wal c0)) (wal c0, w1)
        = Done (b, t.2) r2 /\ wal t.1 = b
    end.
Proof.
  unfold checkpoint_and_truncate_durable_wal, commit_state, on_files, on_wal, zoom, bind, get, ret, of_result. cbn [fst snd].
  destruct quiesced as [[]|e]; [|intros [= <- <-]; by left]. destruct (is_durable (wal c0)); cbn [negb]; [|intros [= <- <-]; by left].
  destruct (flushed_slice (wal c0)) as [rs|]; [|done]. cbn [expect ret].
  destruct (persist_synced _ _ _ _ _ _ _) as [| |w1 [meta|e]] eqn:Ep; try done; intros H; right; (split; [done|]); eexists _, _; (split; [done|]).
  - cbn [fst snd set_wal wal] in H. destruct (truncate_durable_segment_prefix _ _ _ _ _ _) as [| |[b w2] [[]|e]]; try done; eexists b, _.
    + cbn [fst snd] in H. destruct (prune_checkpointed_commit_timestamps _ _) as [c|] eqn:Ec; [|done]. cbn [expect ret] in H.
      destruct (Local.compact_applied_prefix (repl c)) as [l|]; [|done]. cbn in H. injection H as <- <-. split; [done|].
      unfold prune_checkpointed_commit_timestamps in Ec. destruct (checked_add64 _ _); [|done]. cbn in Ec. by injection Ec as <-.
    + by injection H as <- <-.
  - by injection H as <- <-.
Qed.

Lemma persist_runs quiesced c0 w t r :
  persist_durable_wal_checkpoint sha256 pid try_reserve_exact quiesced control_path checkpoint_path (c0, w) = Done t r ->
  t.1 = c0 /\ (t.2 = w \/ exists r1, write_checkpoint sha256 pid try_reserve_exact control_path checkpoint_path (wal c0) w = Done t.2 r1).
Proof.
  unfold persist_durable_wal_checkpoint, commit_state, on_files, zoom, bind, get, ret, of_result. cbn [fst snd].
  destruct quiesced as [[]|e]; [|intros [= <- <-]; by split; [|left]].
  destruct (write_checkpoint _ _ _ _ _ _ _) as [| |w1 [meta|e]]; try done; intros [= <- <-]; (split; [done|right; by eexists]).
Qed.

End runs.

(** ** The database *)

Section database.
Context {alloc : VecAlloc}.
Context (sha256 : list byte -> list byte) (Hsha : forall l, length (sha256 l) = 32%nat).
Context (pid : Z) (Hpid : 0 <= pid) (try_reserve_exact : Z -> bool) (chunk : Z) (Hchunk : 10 <= chunk).
Context (seg : Path) (stem : string) (Hseg : readable_segment seg stem).

Abbreviation control := (wal_checkpoint_control_path seg).
Abbreviation checkpoint := (wal_checkpoint_segment_path seg).

(** Whether a checkpoint taken now gets as far as the cut. *)
Definition checkpointed (quiesced : result unit EngineError) (s : System) : bool :=
  is_ok quiesced && is_durable (sys_buffer s) &&
  match persist_synced sha256 pid try_reserve_exact control checkpoint (sys_buffer s) (sys_world s) with
  | Done _ (Ok _) => true
  | _ => false
  end.

(** An operation of the buffer, a checkpoint, or a checkpoint with the cut of the segment behind it;
    the segment is cut by nothing else. *)
Inductive db_step : System -> System -> Prop :=
  | Working op s s' :
      is_rotation op = false -> allowed op s -> perform sha256 pid try_reserve_exact chunk op s = Next s' -> db_step s s'
  | Persisting s repl timestamps generation quiesced t r :
      persist_durable_wal_checkpoint sha256 pid try_reserve_exact quiesced control checkpoint
        (mkCommit repl (sys_buffer s) timestamps generation, sys_world s) = Done t r ->
      db_step s (moved s (wal t.1, t.2))
  | Rotating s repl timestamps generation quiesced t r :
      checkpoint_and_truncate_durable_wal sha256 pid try_reserve_exact chunk quiesced control checkpoint
        (mkCommit repl (sys_buffer s) timestamps generation, sys_world s) = Done t r ->
      db_step s (mkSystem (wal t.1) t.2 (sys_job s) (sys_held s)
        (if checkpointed quiesced s then Z.max (sys_covered s) (flushed_count (sys_buffer s)) else sys_covered s)).

(** A new log: nothing appended, no control file. *)
Definition db_initial (s : System) : Prop :=
  initial seg s /\ sys_covered s = 0 /\ versions (sys_world s) control = [None].

Record db_inv (s : System) : Prop := mkDbInv {
  dbi_sys : sys_inv seg s;
  dbi_files : exists c f,
    ck_files sha256 seg stem (logical_records (sys_buffer s)) c f (flushed_count (sys_buffer s)) (sys_world s) /\
    sys_covered s <= c /\ durable_segment_base_records (sys_buffer s) <= c;
}.


(** ** Names *)

Lemma control_is : control = own seg stem ".control".
Proof. apply control_own; apply Hseg. Qed.

Lemma checkpoint_is : checkpoint = own seg stem ".checkpoint".
Proof. apply checkpoint_own; apply Hseg. Qed.

Lemma foreign_own t : t ∈ [".control"; ".checkpoint"] -> foreign pid seg (own seg stem t).
Proof.
  intros Ht. pose proof Hseg as [Hn Hs _ _].
  assert (t <> EmptyString /\ ".tail" <> t /\ ".identity" <> t /\ (dots t <= 1)%nat) as (H1 & H2 & H3 & H4).
  { repeat (apply elem_of_cons in Ht as [->|Ht]; [done|]). by apply elem_of_nil in Ht. }
  constructor; [| | |split|]; rewrite ?(tail_own seg stem Hn Hs), ?(identity_seg seg stem Hn Hs), ?(temp_seg pid seg stem Hpid Hn Hs),
    ?(temp_control pid seg stem Hpid Hn Hs) by (split; [done|cbn; lia]);
    solve [by apply not_eq_sym, own_not_seg|by apply own_differ|by apply hidden_own].
Qed.

Lemma paths_ok : own_paths pid seg.
Proof. pose proof Hseg as [Hn Hs _ Hd]. by apply (own_paths_ok pid seg stem Hpid Hn Hs). Qed.

(** ** Every step *)

Abbreviation files := (ck_files sha256 seg stem).

Definition good_step (s s' : System) : Prop := db_inv s' /\ log_step (log s) (log s').

Lemma base_nonneg s : sys_inv seg s -> 0 <= durable_segment_base_records (sys_buffer s) <= flushed_count (sys_buffer s).
Proof.
  intros [Hi _]. pose proof (bi_core _ _ _ _ _ _ Hi) as Hc. unfold durable_segment_base_records. pose proof (mi_frontier _ _ _ (bi_memory _ _ _ _ _ _ Hi)) as [? ?].
  destruct (durable (sys_buffer s)) as [c|] eqn:Hd; [|lia]. destruct Hc as (_ & [? _ _] & _). unfold flushed_count. by rewrite Hd.
Qed.

Lemma flushed_bounds s : sys_inv seg s -> 0 <= flushed_count (sys_buffer s) <= len (sys_buffer s).
Proof. intros [Hi _]. pose proof (mi_frontier _ _ _ (bi_memory _ _ _ _ _ _ Hi)) as [? ?]. lia. Qed.

Lemma working_step op s s' :
  db_inv s -> is_rotation op = false -> allowed op s -> perform sha256 pid try_reserve_exact chunk op s = Next s' -> good_step s s'.
Proof.
  intros [Hs (c & f & Hck & Hcov & Hbase)] Hop Ha Hp.
  destruct (step_refines sha256 pid try_reserve_exact chunk seg paths_ok Hchunk s s' Hs (ex_intro _ op (conj Ha Hp))) as [Hs' Hl].
  destruct (log_step_stable _ _ Hl (log_bounds seg s Hs)) as [Hn Ht]. pose proof (log_bounds seg s' Hs') as Hb'.
  destruct (perform_kept sha256 pid try_reserve_exact chunk seg (own seg stem ".control") ltac:(apply foreign_own; set_solver) op s s' Hs Hop Hp) as (F1 & Hcov' & Hb).
  destruct (perform_kept sha256 pid try_reserve_exact chunk seg (own seg stem ".checkpoint") ltac:(apply foreign_own; set_solver) op s s' Hs Hop Hp) as (F2 & _).
  split; [|done]. constructor; [done|]. exists c, f. split_and!.
  - eapply ck_files_move; [exact Hck|done|done|exact Ht|]. cbn in *. lia.
  - by rewrite Hcov'.
  - unfold durable_segment_base_records at 1. destruct (durable (sys_buffer s')) as [c'|] eqn:Hd; [by rewrite (Hb c')|].
    pose proof (cf_bounds _ _ _ _ _ _ _ _ Hck). lia.
Qed.

(** A run of a computation whose outcomes are known. *)
Lemma wp_run {S E A} (m : M S E A) Q s s' r : wp m Q s -> m s = Done s' r -> Q s' r.
Proof. unfold wp. intros H E1. by rewrite E1 in H. Qed.

(** The system on a disk where only the checkpoint has changed. *)
Lemma moved_inv s w : sys_inv seg s -> frame seg (sys_world s) w -> sys_inv seg (moved s (sys_buffer s, w)).
Proof. intros [Hi Hh] Hf. constructor; [by eapply inv_frame|done]. Qed.

Lemma persisting_step s repl timestamps generation quiesced t r :
  db_inv s ->
  persist_durable_wal_checkpoint sha256 pid try_reserve_exact quiesced control checkpoint
    (mkCommit repl (sys_buffer s) timestamps generation, sys_world s) = Done t r ->
  good_step s (moved s (wal t.1, t.2)).
Proof.
  intros [Hs (c & f & Hck & Hcov & Hbase)] Hrun. apply persist_runs in Hrun as [E Hrun]. rewrite E. cbn [wal] in *.
  split; [|by apply log_same]. destruct Hrun as [->|[r1 Hrun]].
  - constructor; [by apply moved_inv|]. by exists c, f.
  - rewrite control_is, checkpoint_is in Hrun. pose proof (flushed_bounds s Hs) as Hn.
    pose proof (wp_run _ _ _ _ _ (frames_write_checkpoint sha256 pid try_reserve_exact seg stem (sys_buffer s) Hn seg
      (seg_apart pid Hpid seg stem Hseg) _) Hrun) as Hf. cbn in Hf.
    pose proof (wp_run _ _ _ _ _ (write_checkpoint_spec sha256 pid Hpid try_reserve_exact seg stem Hseg (sys_buffer s) Hn c f _ Hck) Hrun)
      as (c' & f' & Hck' & Hc' & _).
    constructor; [by apply moved_inv|]. exists c', f'. split_and!; [done|cbn; lia|cbn; lia].
Qed.

(** The cut of the segment at what the checkpoint covers. *)
Lemma cut_step s w b r f :
  sys_inv seg s -> let n := flushed_count (sys_buffer s) in
  files (logical_records (sys_buffer s)) n f n (sys_world s) -> sys_covered s <= n ->
  truncate_durable_segment_prefix sha256 pid try_reserve_exact chunk n (sys_buffer s, sys_world s) = Done (b, w) r ->
  good_step s (mkSystem b w (sys_job s) (sys_held s) (Z.max (sys_covered s) n)).
Proof.
  intros Hs n Hck Hcov Hrun. pose proof (base_nonneg s Hs) as Hbase. pose proof (flushed_bounds s Hs) as Hn.
  pose proof (rotate_refines sha256 pid try_reserve_exact chunk seg paths_ok s Hs n) as Hr. cbn [perform] in Hr. unfold call in Hr.
  rewrite Hrun in Hr. destruct Hr as [Hs' Hl]. cbn [fst snd] in *. split; [|done]. constructor; [done|].
  destruct (log_step_stable _ _ Hl (log_bounds seg s Hs)) as [Hn' Ht]. pose proof (log_bounds seg _ Hs') as Hb'. cbn in Hn', Ht, Hb'.
  assert (forall t, t ∈ [".control"; ".checkpoint"] -> frame (own seg stem t) (sys_world s) w /\
    forall c', durable b = Some c' -> segment_base_records (state c') = durable_segment_base_records (sys_buffer s) \/ segment_base_records (state c') = n) as Hkept.
  { intros t Hin. set (bases := fun z => z = durable_segment_base_records (sys_buffer s) \/ z = n).
    assert (outside seg (own seg stem t) bases (sys_world s) (sys_buffer s, sys_world s)) as Hout.
    { eapply outside_weaken; [by apply outside_start|]. intros z <-. by left. }
    destruct (kept_rotate sha256 pid try_reserve_exact chunk seg (own seg stem t) (foreign_own t Hin) bases (sys_world s) n
      (or_intror eq_refl) _ _ _ Hout Hrun) as [[Hb Hf] _].
    split; [done|]. intros c' Hc'. apply (Hb c' Hc'). }
  destruct (Hkept ".control" ltac:(set_solver)) as [F1 Hb]. destruct (Hkept ".checkpoint" ltac:(set_solver)) as [F2 _].
  exists n, f. cbn [sys_buffer sys_world sys_covered]. split_and!; [|lia|].
  - eapply ck_files_move; [exact Hck|done|done|exact Ht|]. lia.
  - unfold durable_segment_base_records at 1. destruct (durable b) as [c'|]; [destruct (Hb c' eq_refl) as [-> | ->]; lia|lia].
Qed.

Lemma rotating_step s repl timestamps generation quiesced t r :
  db_inv s ->
  checkpoint_and_truncate_durable_wal sha256 pid try_reserve_exact chunk quiesced control checkpoint
    (mkCommit repl (sys_buffer s) timestamps generation, sys_world s) = Done t r ->
  good_step s (mkSystem (wal t.1) t.2 (sys_job s) (sys_held s)
    (if checkpointed quiesced s then Z.max (sys_covered s) (flushed_count (sys_buffer s)) else sys_covered s)).
Proof.
  intros [Hs (c & f & Hck & Hcov & Hbase)] Hrun. unfold checkpointed.
  apply checkpoint_runs in Hrun as [[E ->]|[E (w1 & r1 & Hp & Ht)]]; cbn [wal fst snd] in *; rewrite E; cbn [andb].
  { split; [|by apply log_same]. constructor; [by apply (moved_inv s (sys_world s))|]. by exists c, f. }
  rewrite Hp. rewrite control_is, checkpoint_is in Hp. pose proof (flushed_bounds s Hs) as Hn.
  pose proof (wp_run _ _ _ _ _ (frames_persist_synced sha256 pid try_reserve_exact seg stem (sys_buffer s) Hn seg
    (seg_apart pid Hpid seg stem Hseg) _) Hp) as Hf. cbn in Hf.
  pose proof (wp_run _ _ _ _ _ (persist_synced_spec sha256 pid Hpid try_reserve_exact seg stem Hseg (sys_buffer s) Hn c f _ Hck) Hp)
    as (c' & f' & Hck' & Hc' & Hok). pose proof (cf_bounds _ _ _ _ _ _ _ _ Hck') as Hb.
  destruct r1 as [meta|e].
  - specialize (Hok eq_refl) as ->. destruct Ht as (b & r2 & Ht & Hw). destruct t as [c1 w2]. cbn [fst snd] in *. subst b.
    apply (cut_step (moved s (sys_buffer s, w1)) w2 (wal c1) r2 f'); cbn [moved sys_buffer sys_world sys_covered fst snd]; [by apply moved_inv|done|lia|done].
  - subst t. cbn [fst snd wal]. split; [|by apply log_same]. constructor; [by apply moved_inv|].
    exists c', f'. cbn [sys_buffer sys_world sys_covered]. split_and!; [done|lia|lia].
Qed.

Lemma db_step_good s s' : db_inv s -> db_step s s' -> good_step s s'.
Proof. intros Hs H. destruct H; [by eapply working_step|by eapply persisting_step|by eapply rotating_step]. Qed.

Lemma db_initial_inv s : db_initial s -> db_inv s.
Proof.
  intros (Hi & Hcov & Hv). constructor; [by apply initial_inv|]. destruct Hi as (owner & Hb & _). rewrite control_is in Hv. exists 0, 0.
  rewrite Hb. split_and!; [|lia|done]. constructor; [done| |]; rewrite Hv; [|left]; intros v ->%list_elem_of_singleton; [by left|done].
Qed.

(** The invariant of every state that can be reached, and what was acknowledged stays. *)
Lemma db_reachable s s' : rtc db_step s s' -> db_inv s -> db_inv s' /\
  acknowledged (log s) <= acknowledged (log s') /\
  take (Z.to_nat (acknowledged (log s))) (history (log s')) = take (Z.to_nat (acknowledged (log s))) (history (log s)).
Proof.
  induction 1 as [|s s1 s2 Hs _ IH]; [done|]. intros Hi. destruct (db_step_good s s1 Hi Hs) as [Hi1 Hl].
  destruct (log_step_stable _ _ Hl (log_bounds seg s (dbi_sys _ Hi))) as [Ha Ht]. destruct (IH Hi1) as (Hi2 & Ha1 & Ht1). split_and!; [done|lia|].
  rewrite <- Ht. apply (f_equal (take (Z.to_nat (acknowledged (log s))))) in Ht1. rewrite !take_take in Ht1.
  by rewrite !Nat.min_l in Ht1 by lia.
Qed.

End database.

End Database.
