(* ===== verification/Reopen.v ===== *)
(** * Reopening a checkpointed log

    A crash of a checkpointed log leaves a checkpoint and a segment that overlap or meet; reading
    both and dropping the overlap gives the acknowledged history, perhaps with records after it
    that were on their way. *)

From stdpp Require Import base gmap strings list pretty sorting.
From S2P Require Import Prelude Types Bytes Text Paths Effects Disk Sidecar WalSegment WalProps Archive Codec Canonical Envelope EnvelopeExact Identity LocalRepl WalCore WalGroup WalScatter DiskFacts WalDurability WalBuffer WalInvariant WalFormation WalFlush WalBegin WalReserve WalCrash WalSystem SealedManifest Checkpoint CheckpointFacts LanesFacts Preserve Rotation Database.

Module Reopen.
Import Paths Disk Effects Identity WalCore WalGroup WalScatter DiskFacts WalDurability WalBuffer WalInvariant WalAppend WalRecovered WalSystem WalCrash Checkpoint Names CheckpointWrite LanesFacts Preserve Rotation RotationFacts Database.

Section reopen.
Context {alloc : VecAlloc}.
Context (sha256 : list byte -> list byte) (Hsha : forall l, length (sha256 l) = 32%nat).
Context (pid : Z) (Hpid : 0 <= pid) (try_reserve_exact : Z -> bool) (chunk : Z) (Hchunk : 10 <= chunk).
Context (seg : Path) (stem : string) (Hseg : readable_segment seg stem).

Abbreviation control := (wal_checkpoint_control_path seg).
Abbreviation checkpoint := (wal_checkpoint_segment_path seg).

(** ** What a crash leaves *)

Lemma crash_frame s w t : sys_inv seg s -> at_crash s w -> t ∈ [".control"; ".checkpoint"] ->
  frame (own seg stem t) (sys_world s) w.
Proof.
  intros Hs [->|(job & writes & syncs & Hj & ->)] Ht; [done|]. apply (frame_job_io pid seg).
  - by apply (foreign_own pid Hpid seg stem Hseg).
  - by apply (job_segment seg s).
Qed.

(** The records of the checkpoint that the files hold. *)
Definition checkpoint_of (fs : Fs) (C : list Wal.WalRecord) : Prop :=
  (fs !! control = None /\ C = []) \/
  (is_Some (fs !! control) /\ exists c, read_wal_checkpoint sha256 fs control = Some (Ok (c, C))).

Lemma exact_survives v found bytes : survives v found -> v = Some (whole bytes) -> found = Some bytes.
Proof. intros H ->. destruct found as [d|]; [|done]. destruct H as [_ H]. f_equal. by apply H. Qed.

(** The files of a checkpoint of [m] records of [H]; the segment may hold more, up to [n]. *)
Definition checkpoint_files (fs : Fs) (H : list Wal.WalRecord) (m n : Z) : Prop :=
  (fs !! control = None /\ m = 0) \/
  (fs !! control = Some (data (committed_inode sha256 stem (take (Z.to_nat m) H))) /\
   exists m', m <= m' <= n /\ fs !! checkpoint = Some (Wal.segment_bytes (take (Z.to_nat m') H))).

(** The checkpoint covers everything the segment no longer holds. *)
Lemma crash_checkpoint s w fs :
  db_inv sha256 seg stem s -> at_crash s w -> crash w fs ->
  exists m, sys_covered s <= m /\ durable_segment_base_records (sys_buffer s) <= m /\
    0 <= m <= flushed_count (sys_buffer s) /\
    checkpoint_files fs (logical_records (sys_buffer s)) m (flushed_count (sys_buffer s)).
Proof.
  intros [Hs (c & f & Hck & Hcov & Hbase)] Hw Hcr. set (H := logical_records (sys_buffer s)) in *.
  assert (ck_files sha256 seg stem H c f (flushed_count (sys_buffer s)) w) as [Hb Hc Hg].
  { pose proof (cf_bounds _ _ _ _ _ _ _ _ Hck). eapply ck_files_move; [exact Hck| | |done|lia]; apply crash_frame; done || set_solver. }
  rewrite <- (control_is seg stem Hseg) in Hc, Hg. rewrite <- (checkpoint_is seg stem Hseg) in Hg.
  destruct (Hcr control) as (v & Hv & Hsv). destruct (Hc v Hv) as [[-> ->]|(m & Hm & ->)].
  - exists 0. split_and!; [lia|lia|lia|lia|]. left. split; [|done]. by destruct (fs !! control).
  - exists m. split_and!; [lia|lia|lia|lia|]. right. split; [exact (exact_survives _ _ _ Hsv eq_refl)|].
    destruct Hg as [Hg|Hg]; [by discriminate (Hg _ Hv)|]. destruct (Hcr checkpoint) as (v' & Hv' & Hsv').
    destruct (Hg v' Hv') as (m' & Hm' & ->). exists m'. split; [lia|]. exact (exact_survives _ _ _ Hsv' eq_refl).
Qed.

Lemma checkpoint_files_read fs H m n :
  checkpoint_files fs H m n -> 0 <= m < U64 -> Forall WalProps.record_ok H -> checkpoint_of fs (take (Z.to_nat m) H).
Proof.
  intros [[Hn ->]|(Hctl & m' & Hm' & Hck)] Hm Hok; [by left|right]. split; [by rewrite Hctl|].
  exists (control_of stem (take (Z.to_nat m) H)). rewrite (control_is seg stem Hseg) in Hctl |- *. rewrite (checkpoint_is seg stem Hseg) in Hck.
  apply (read_committed sha256 Hsha seg stem Hseg fs _ (take (Z.to_nat m') H)); try done.
  - assert (vec_len (take (Z.to_nat m) H) <= m); [|lia]. unfold vec_len. rewrite length_take. lia.
  - by apply Forall_take.
  - exists (drop (Z.to_nat m) (take (Z.to_nat m') H)). rewrite <- (take_drop (Z.to_nat m) (take (Z.to_nat m') H)) at 1.
    by rewrite take_take, Nat.min_l by lia.
Qed.

(** ** The history that is read *)

(** Reading the checkpoint and the segment and dropping their overlap. *)
Lemma crash_history s w core fs :
  db_inv sha256 seg stem s -> at_crash s w -> crash w fs -> durable (sys_buffer s) = Some core -> backed core ->
  flushed_records (state core) < U64 ->
  exists b m more, let C := take (Z.to_nat m) (history (log s)) in
    let L := sub (history (log s)) b (acknowledged (log s)) ++ more in
    segment_base_records (state core) <= b <= acknowledged (log s) /\
    (poisoned (state core) = None -> b = segment_base_records (state core)) /\
    0 <= m <= acknowledged (log s) /\ checkpoint_files fs (history (log s)) m (acknowledged (log s)) /\ checkpoint_of fs C /\
    (exists d, fs !! seg = Some d /\ recovers d L) /\
    let acked := take (Z.to_nat (acknowledged (log s))) (history (log s)) in
    acked ++ more = take (Z.to_nat b) (history (log s)) ++ L /\
    (NoDup (acked ++ more) -> C ++ drop (overlap C L) L = acked ++ more).
Proof.
  intros Hdb Hw Hcr Hd Hback Hmax. pose proof (dbi_sys _ _ _ _ Hdb) as Hs.
  assert (acknowledged (log s) = flushed_records (state core)) as Hack by (unfold log, flushed_count; cbn; by rewrite Hd).
  destruct (crash_checkpoint s w fs Hdb Hw Hcr) as (m & Hcov & Hbase & Hm & HC).
  change (flushed_count (sys_buffer s)) with (acknowledged (log s)) in Hm, HC. change (logical_records (sys_buffer s)) with (history (log s)) in HC.
  unfold durable_segment_base_records in Hbase. rewrite Hd in Hbase. rewrite Hack in Hm, HC |- *.
  destruct (crash_survives seg s w core fs Hs Hw Hd Hcr Hback) as (i & d & b & Hfs & Hsv & Hb & Hbf & Hp & Him).
  pose proof (base_nonneg seg s Hs) as H0. unfold durable_segment_base_records in H0. rewrite Hd in H0.
  pose proof (log_bounds seg s Hs) as Hbd. rewrite Hack in Hbd. set (H := history (log s)) in *. set (n := flushed_records (state core)) in *.
  destruct (image_recovers H b n i d (sub_ok _ b _ (history_ok _ s Hs)) Him Hsv) as [more Hrec]. exists b, m, more. cbv zeta.
  assert (take (Z.to_nat n) H = take (Z.to_nat b) H ++ sub H b n) as Hsplit.
  { unfold sub. rewrite take_drop_commute. replace (Z.to_nat b + Z.to_nat (n - b))%nat with (Z.to_nat n) by lia.
    rewrite <- (take_drop (Z.to_nat b) (take (Z.to_nat n) H)) at 1. by rewrite take_take, Nat.min_l by lia. }
  assert (take (Z.to_nat n) H ++ more = take (Z.to_nat b) H ++ (sub H b n ++ more)) as Hall by (by rewrite Hsplit, <- app_assoc).
  split_and!; [lia|lia|done|lia|lia|done|by eapply checkpoint_files_read; [|lia|apply (history_ok seg s Hs)]|by eauto|done|].
  intros Hnd. set (R := take (Z.to_nat n) H ++ more) in *.
  assert (length (take (Z.to_nat n) H) = Z.to_nat n) as Hlen by (unfold vec_len in Hbd; rewrite length_take; lia).
  assert (take (Z.to_nat m) H = take (Z.to_nat m) R) as ->.
  { unfold R. rewrite take_app_le by lia. rewrite take_take. by rewrite Nat.min_l by lia. }
  assert (sub H b n ++ more = drop (Z.to_nat b) R) as ->.
  { rewrite Hall. rewrite drop_app_length'; [done|]. unfold vec_len in Hbd. rewrite length_take. lia. }
  apply overlap_joined; [done|]. unfold R. rewrite length_app. lia.
Qed.

End reopen.

(** ** Opening *)

(** The disk a restarted process finds: what survived is all there is, and it is certain. *)
Definition restarted (fs : Fs) (faults : list (option OsFault)) : World := mkWorld (whole <$> fs) ∅ faults.

Lemma restarted_visible fs faults : visible (restarted fs faults) = fs.
Proof. unfold visible, restarted. cbn. rewrite <- map_fmap_compose. apply map_fmap_id. Qed.

(** Two disks with the same files. *)
Definition same_files (w w' : World) : Prop := names w' = names w /\ unsynced_names w' = unsynced_names w.

Lemma same_frame q w w' : same_files w w' -> frame q w w'.
Proof. intros [H1 H2]. split; [by rewrite H1|left; by rewrite H2]. Qed.

Lemma wp_read_files {A} read w (a : A) Q :
  read (visible w) = Some (Ok a) -> (forall w' r, same_files w w' -> (forall a', r = Ok a' -> a' = a) -> Q w' r) -> wp (read_files read) Q w.
Proof.
  intros Hr HQ. unfold read_files, os, map_err, fallible, next_fault, wp, bind, get, ret, of_result.
  destruct (faults w) as [|[f|] l]; cbn; try (change (data <$> names w) with (visible w); rewrite Hr; cbn);
    apply HQ; try done; intros a' [= <-]; done.
Qed.

Lemma wp_read_refused {A} (read : Fs -> option (result A EngineError)) w e Q :
  read (visible w) = Some (Err e) -> (forall w' e', Q w' (Err e')) -> wp (read_files read) Q w.
Proof.
  intros Hr HQ. unfold read_files, os, map_err, fallible, next_fault, wp, bind, get, ret, of_result.
  destruct (faults w) as [|[f|] l]; cbn; try (change (data <$> names w) with (visible w); rewrite Hr; cbn); apply HQ.
Qed.

(** A computation that is known to end, and what it keeps. *)
Lemma wp_stays {S E A} (I : S -> Prop) (m : M S E A) Q R s :
  wp m Q s -> stays I m R -> I s -> wp m (fun s' r => Q s' r /\ I s') s.
Proof. unfold wp. intros HQ HI Hs. destruct (m s) as [| |s' r] eqn:E1; [done|done|]. split; [done|]. apply (HI _ _ _ Hs E1). Qed.

(** Moving the base of a core. *)
Definition rebase (c : WalDurableCore) (base : Z) : WalDurableCore := set_state c (set_segment_base_records (state c) base).

Lemma rebase_same c base : segment_base_records (state c) = base -> rebase c base = c.
Proof. intros <-. by destruct c as [p [] f]. Qed.

Lemma recovered_core_base pid chunk seg base count recovery w w' c :
  recovered_core pid chunk seg base count recovery w = Done w' (Ok c) -> segment_base_records (state c) = base.
Proof.
  unfold recovered_core, bind. destruct (reopen_segment _ _ _ _) as [| |[c1 w1] [[]|e]]; try done; [by intros [= _ <-]|].
  by destruct (drop_core pid (c1, w1)) as [| |[c2 w2] r2].
Qed.

Lemma recovered_core_rebase pid chunk seg base base' count recovery recovery' w :
  Wal.valid_bytes recovery' = Wal.valid_bytes recovery ->
  recovered_core pid chunk seg base count recovery' w =
  match recovered_core pid chunk seg base' count recovery w with
  | Done w' (Ok c) => Done w' (Ok (rebase c base))
  | other => other
  end.
Proof.
  intros Hv. unfold recovered_core.
  assert (reopen_segment pid chunk recovery' = reopen_segment pid chunk recovery) as -> by (unfold reopen_segment; by rewrite Hv).
  unfold bind. destruct (reopen_segment pid chunk recovery (fresh seg, w)) as [| |[c w1] [[]|e]]; try done.
  destruct (drop_core pid (c, w1)) as [| |[c2 w2] r2]; done.
Qed.

Section opening.
Context {alloc : VecAlloc}.
Context (sha256 : list byte -> list byte) (Hsha : forall l, length (sha256 l) = 32%nat).
Context (pid : Z) (Hpid : 0 <= pid) (try_reserve_exact : Z -> bool) (chunk : Z) (Hchunk : 10 <= chunk).
Context (seg : Path) (stem : string) (Hseg : readable_segment seg stem).

Abbreviation control := (wal_checkpoint_control_path seg).
Abbreviation checkpoint := (wal_checkpoint_segment_path seg).
Abbreviation Hpaths := (paths_ok pid Hpid seg stem Hseg).

(** A recovery without the [k] records the checkpoint holds too. *)
Definition without (k : nat) (recovery : Wal.WalSegmentRecovery) : Wal.WalSegmentRecovery :=
  Wal.mkSegmentRecovery (drop k (Wal.records recovery)) (Wal.valid_bytes recovery) (Wal.discarded_torn_bytes recovery).

(** A buffer over the checkpoint [C] and the rest of the segment, with [history] in all; when there
    was no overlap its core satisfies the invariant. *)
Record joined (C history : list Wal.WalRecord) (k : nat) (b : WalBuffer) (w : World) : Prop := mkJoined {
  jn_records : logical_records b = history;
  jn_memory : memory_inv b None [];
  jn_lineage : 0 <= verified_records (durable_identity_binding b) <= len b;
  jn_core : exists c, durable b = Some c /\ segment_path c = seg /\ io_in_flight (state c) = false /\
    segment_base_records (state c) = vec_len C /\ flushed_records (state c) = vec_len history /\
    (k = 0%nat -> forall cov, core_inv seg c history cov w None);
}.

Lemma bound_spec path tail recovery owner C k records identity w :
  found seg recovery path tail w -> let L := Wal.records recovery in matching C L k -> (k <= length C)%nat -> (k <= length L)%nat ->
  let R := C ++ drop k L in Forall WalProps.record_ok R -> erase <$> elems records = R ->
  wp (with_recovered_durable_segment_bound_to_identity sha256 pid try_reserve_exact chunk owner seg records (without k recovery) identity)
    (fun w' r => forall b, r = Ok b -> joined C R k b w') w.
Proof.
  intros Hf L Hm HkC HkL R Hok Hrs. unfold with_recovered_durable_segment_bound_to_identity. rewrite Hrs.
  apply wp_bind, wp_of_result. unfold validate_recovered_segment_history. destruct (_ || _); [done|].
  apply wp_bind. eapply wp_mono; [by apply (frames_require_identity sha256 pid seg Hpaths)|]. intros w1 [[]|e] Hf1; [|done].
  apply wp_bind, wp_of_result. destruct (validate_recovered_records _ _ _ _) as [[]|e]; [|done].
  unfold with_recovered_durable_segment_with_binding. apply wp_bind.
  assert (vec_len (elems records) = vec_len R) as Hl by (rewrite <- Hrs; unfold vec_len; by rewrite length_fmap).
  assert (length R = length C + length L - k)%nat as HR by (unfold R; rewrite length_app, length_drop; lia).
  assert (vec_len R - vec_len (Wal.records (without k recovery)) = vec_len C) as Hb
    by (cbn [without Wal.records]; fold L; unfold vec_len; rewrite length_drop; lia).
  rewrite Hl, Hb. unfold wp. rewrite (recovered_core_rebase pid chunk seg (vec_len C) (vec_len R - vec_len L) (vec_len R) recovery) by done.
  assert (sub R (vec_len R - vec_len L) (vec_len R) = L) as Hsub.
  { unfold sub, vec_len. replace (Z.to_nat (Z.of_nat (length R) - Z.of_nat (length L))) with (length C - k)%nat by lia.
    rewrite take_ge by (rewrite length_drop; lia). unfold R. rewrite drop_app_le by lia. unfold matching in Hm. rewrite Hm. apply take_drop. }
  pose proof (recovered_core_spec pid chunk seg Hpaths recovery path tail w1 R (vec_len R - vec_len L) (frame_found _ _ _ _ _ _ Hf Hf1)
    ltac:(unfold vec_len; lia) ltac:(fold L; lia) Hsub) as Hcore.
  unfold wp in Hcore. destruct (recovered_core _ _ _ _ _ _ _) as [| |w2 [c|e]] eqn:Erun; try done. apply recovered_core_base in Erun.
  destruct (Hcore c eq_refl) as [Hfl Hci]. intros b [= <-]. destruct (Hci 0) as (Hpath & Hdisk & Hio). constructor.
  - exact Hrs.
  - apply initial_memory; try done; [by rewrite <- Hrs in Hok|]. unfold flushed_count, len. cbn. by rewrite Hfl, Hl.
  - unfold len. cbn. rewrite Hl. pose proof (vec_len_nonneg R). lia.
  - eexists. split_and!; try done. intros -> cov. rewrite rebase_same; [apply Hci|]. rewrite Erun. unfold vec_len. lia.
Qed.



(** What opening returns for a checkpoint [C] and a segment with [L]: a buffer with the history of
    both, which satisfies the invariant of the running system unless an overlap was found whose
    repair failed. *)
Definition opened (C L : list Wal.WalRecord) (b : WalBuffer) (w : World) : Prop :=
  let k := overlap C L in let R := C ++ drop k L in let s := mkSystem b w None [] (vec_len C) in
  log s = mkLog R (vec_len R) /\
  exists repaired : bool, (k = 0%nat -> repaired = true) /\
    ((0 < k)%nat -> exists b1 w1 r, truncate_durable_segment_prefix sha256 pid try_reserve_exact chunk (vec_len C) (b1, w1) = Done (b, w) r /\
       repaired = is_ok r) /\
    (repaired = true -> sys_inv seg s /\ durable_segment_base_records b = vec_len C).

Lemma joined_flushed C R k b w : joined C R k b w -> flushed_count b = vec_len R.
Proof. intros [_ _ _ (c & Hd & _ & _ & _ & Hf & _)]. unfold flushed_count. by rewrite Hd. Qed.

Lemma repair_spec C L b w :
  let k := overlap C L in joined C (C ++ drop k L) k b w ->
  wp (if (0 <? k)%nat then repaired b (truncate_durable_segment_prefix sha256 pid try_reserve_exact chunk (vec_len C)) else ret b)
    (fun w' r => exists b', r = Ok b' /\ opened C L b' w') w.
Proof.
  intros k Hj. pose proof (joined_flushed _ _ _ _ _ Hj) as Hfl. destruct Hj as [Hr Hm Hv (c & Hd & Hp & Hio & Hb & Hf & Hci)].
  destruct (Nat.ltb_spec 0 k) as [Hk|Hk].
  - pose proof (rotation_any sha256 pid try_reserve_exact chunk seg Hpaths 0 [] b w (vec_len C) c Hm Hv Hd Hp Hio
      ltac:(rewrite Hb; apply vec_len_nonneg) ltac:(rewrite Hr, Hf; lia)) as Hrot. unfold wp, repaired in *.
    destruct (truncate_durable_segment_prefix _ _ _ _ _ (b, w)) as [| |[b' w'] r] eqn:Erun; try done. destruct Hrot as (Hi & Hrec & Hfl' & Hbase).
    cbn [fst snd] in *. exists b'. split; [done|]. split.
    + unfold log, logical_records. cbn [sys_buffer]. rewrite Hrec, Hfl', Hfl. unfold logical_records in Hr. by rewrite Hr.
    + exists (is_ok r). fold k. split_and!; [lia|by eauto|]. intros Hok. split; [|by apply Hbase]. constructor; [|constructor].
      cbn. rewrite <- (Z.max_r 0 (vec_len C)) by apply vec_len_nonneg. apply Hi. by right.
  - apply wp_ret. exists b. split; [done|]. split; [unfold log; cbn [sys_buffer]; by rewrite Hr, Hfl|].
    assert (k = 0%nat) as Hk0 by lia. exists true. fold k. split_and!; [done|lia|]. intros _. split.
    + constructor; [|constructor]. constructor; [done|done|]. cbn [sys_buffer sys_world sys_covered sys_job]. rewrite Hd, Hr. by apply Hci.
    + unfold durable_segment_base_records. by rewrite Hd.
Qed.

Context (prepare replay finish : list Wal.WalRecord -> result unit EngineError).
Context (stage : SealedManifest.SealedInt4RebuildManifestV1 -> result unit EngineError).
Context (share : list Wal.WalRecord -> Vec SharedRecord) (fresh_identity : Canonical.CanonicalIdentity).
Context (Hshare : forall l, erase <$> elems (share l) = l).

Lemma frames_bind_recovery q rs :
  anchor_apart pid q seg -> frames q (bind_durable_identity_for_recovery sha256 pid try_reserve_exact prepare fresh_identity seg rs).
Proof. intros Ha. unfold bind_durable_identity_for_recovery. framed. Qed.

Lemma seg_anchor : anchor_apart pid seg seg.
Proof. pose proof Hpaths as []. by split. Qed.

(** The lineage, the executor and the buffer, for a recovery of the files of [w]. *)
Lemma found_files fs faults recovery :
  Sidecar.recover_live_segment fs seg = Ok recovery ->
  found seg recovery (display seg) (Sidecar.read_wal_tail_offset fs seg) (restarted fs faults).
Proof.
  intros Hrec. split_and!; [done| |].
  - unfold restarted. cbn. rewrite lookup_fmap. unfold Sidecar.recover_live_segment in Hrec. by destruct (fs !! seg).
  - unfold restarted. cbn. intros i. rewrite lookup_fmap. destruct (fs !! seg) as [d|]; [|done]. intros [= <-]. cbn. pose proof (vec_len_nonneg d). lia.
Qed.

Lemma overlap_matching C L : matching C L (overlap C L) /\ (overlap C L <= length C)%nat /\ (overlap C L <= length L)%nat.
Proof. destruct (find_overlap_spec C L (length C `min` length L)) as (H1 & H2 & _). unfold overlap in *. split_and!; [done|lia|lia]. Qed.

Lemma recovered_ok fs recovery :
  Sidecar.recover_live_segment fs seg = Ok recovery -> (forall d, fs !! seg = Some d -> vec_len d <= isize_max) ->
  Forall WalProps.record_ok (Wal.records recovery).
Proof.
  intros Hrec Hmax. unfold Sidecar.recover_live_segment in Hrec. destruct (fs !! seg) as [d|] eqn:Hd; [by eapply recovered_records_ok; [|apply Hmax]|].
  cbn in Hrec. destruct (0 <? _); [done|]. injection Hrec as <-. constructor.
Qed.

Lemma open_with_checkpoint_spec fs faults owner c C recovery :
  read_wal_checkpoint sha256 fs control = Some (Ok (c, C)) -> Sidecar.recover_live_segment fs seg = Ok recovery ->
  Forall WalProps.record_ok C -> (forall d, fs !! seg = Some d -> vec_len d <= isize_max) ->
  wp (open_with_checkpoint sha256 pid try_reserve_exact chunk prepare replay finish stage share fresh_identity owner control seg)
    (fun w' r => forall b, r = Ok b -> opened C (Wal.records recovery) b w') (restarted fs faults).
Proof.
  intros Hc Hrec HC Hmax. set (L := Wal.records recovery). set (k := overlap C L). unfold open_with_checkpoint.
  apply wp_bind. apply (wp_read_files _ _ (c, C)); [by rewrite restarted_visible|]. intros w1 [[c1 C1]|e] H1 Hr1; [|done].
  specialize (Hr1 _ eq_refl). injection Hr1 as -> ->. apply wp_bind.
  apply (wp_read_files _ _ recovery). { unfold visible. destruct H1 as [-> _]. change (data <$> names (restarted fs faults)) with (visible (restarted fs faults)). by rewrite restarted_visible, Hrec. }
  intros w2 [recovery'|e] H2 Hr2; [|done]. specialize (Hr2 _ eq_refl) as ->. fold L. fold k. fold (without k recovery). cbn [Wal.records without]. fold L.
  apply wp_bind. eapply wp_mono; [by apply frames_bind_recovery, seg_anchor|]. intros w3 [identity|e] H3; [|done].
  apply wp_bind, wp_of_result. destruct (admit_sealed _ _ _ _ _ _) as [[]|e]; [|done].
  apply wp_bind, wp_of_result. destruct (replay _) as [[]|e]; [|done].
  destruct (overlap_matching C L) as (Hm & HkC & HkL). apply wp_bind. eapply wp_mono.
  { apply (bound_spec (display seg) (Sidecar.read_wal_tail_offset fs seg) recovery owner C k); try done.
    - eapply frame_found; [by apply found_files|]. etrans; [by apply same_frame|]. etrans; [by apply same_frame|done].
    - apply Forall_app. split; [done|]. apply Forall_drop. by eapply recovered_ok. }
  intros w4 [b|e] Hj; [|done]. specialize (Hj b eq_refl). apply wp_bind. eapply wp_mono; [by apply repair_spec|].
  intros w5 r (b' & -> & Ho). apply wp_bind, wp_of_result. destruct (finish _) as [[]|e]; [|done]. apply wp_ret. by intros b'' [= <-].
Qed.

Lemma overlap_empty L : overlap [] L = 0%nat.
Proof. unfold overlap. cbn [length Nat.min find_overlap]. by case_bool_decide. Qed.

Lemma open_serial_spec fs faults owner recovery :
  Sidecar.recover_live_segment fs seg = Ok recovery -> (forall d, fs !! seg = Some d -> vec_len d <= isize_max) ->
  wp (open_serial sha256 pid try_reserve_exact chunk prepare replay finish share fresh_identity owner seg)
    (fun w' r => forall b, r = Ok b -> opened [] (Wal.records recovery) b w') (restarted fs faults).
Proof.
  intros Hrec Hmax. pose proof (recovered_ok _ _ Hrec Hmax) as Hok. unfold open_serial. apply wp_bind.
  apply (wp_read_files _ _ recovery); [by rewrite restarted_visible, Hrec|].
  intros w1 [recovery'|e] H1 Hr1; [|done]. specialize (Hr1 _ eq_refl) as ->.
  apply wp_bind. eapply wp_mono; [by apply frames_bind_recovery, seg_anchor|]. intros w2 [identity|e] H2; [|done].
  apply wp_bind, wp_of_result. destruct (replay _) as [[]|e]; [|done]. apply wp_bind.
  assert (without 0 recovery = recovery) as Hw by (by destruct recovery). rewrite <- Hw at 2. eapply wp_mono.
  { apply (bound_spec (display seg) (Sidecar.read_wal_tail_offset fs seg) recovery owner [] 0); cbn [app length]; try done; [|lia].
    eapply frame_found; [by apply found_files|]. etrans; [by apply same_frame|done]. }
  intros w3 [b|e] Hj; [|done]. specialize (Hj b eq_refl).
  assert (opened [] (Wal.records recovery) b w3) as Ho.
  { pose proof (repair_spec [] (Wal.records recovery) b w3) as Hs. cbv zeta in Hs. rewrite overlap_empty in Hs. specialize (Hs Hj). by destruct Hs as (b' & [= <-] & Ho). }
  apply wp_bind, wp_of_result. destruct (finish _) as [[]|e]; [|done]. apply wp_ret. by intros b'' [= <-].
Qed.

Lemma open_spec fs faults owner C recovery :
  checkpoint_of sha256 seg fs C -> Sidecar.recover_live_segment fs seg = Ok recovery ->
  Forall WalProps.record_ok C -> (forall d, fs !! seg = Some d -> vec_len d <= isize_max) ->
  wp (open_durable_wal_segment_auto sha256 pid try_reserve_exact chunk prepare replay finish stage share fresh_identity owner seg)
    (fun w' r => forall b, r = Ok b -> opened C (Wal.records recovery) b w') (restarted fs faults).
Proof.
  intros HC Hrec Hok Hmax. unfold open_durable_wal_segment_auto. apply wp_bind, wp_get.
  cbn [restarted names]. rewrite lookup_fmap. destruct HC as [[Hn ->]|[[d Hd] [c Hc]]].
  - rewrite Hn. by apply open_serial_spec.
  - rewrite Hd. by eapply open_with_checkpoint_spec.
Qed.

(** A segment that recovery refuses is not opened. *)
Lemma open_refused fs faults owner C e :
  checkpoint_of sha256 seg fs C -> Sidecar.recover_live_segment fs seg = Err e ->
  wp (open_durable_wal_segment_auto sha256 pid try_reserve_exact chunk prepare replay finish stage share fresh_identity owner seg)
    (fun w' r => is_ok r = false) (restarted fs faults).
Proof.
  intros HC Hrec. unfold open_durable_wal_segment_auto. apply wp_bind, wp_get.
  cbn [restarted names]. rewrite lookup_fmap. destruct HC as [[Hn ->]|[[d Hd] [c Hc]]].
  - rewrite Hn. apply wp_bind. apply (wp_read_refused _ _ e); [by rewrite restarted_visible, Hrec|done].
  - rewrite Hd. apply wp_bind. apply (wp_read_files _ _ (c, C)); [by rewrite restarted_visible|]. intros w1 [[c1 C1]|e1] [H1 _] _; [|done].
    apply wp_bind. apply (wp_read_refused _ _ e); [|done]. unfold visible. rewrite H1.
    change (data <$> names (restarted fs faults)) with (visible (restarted fs faults)). by rewrite restarted_visible, Hrec.
Qed.

(** ** What opening leaves alone *)

Section foreign.
Context (q : Path) (Hq : foreign pid seg q) (w0 : World).

Abbreviation keeps m := (stays (frame q w0) m (fun _ => True)).

Lemma stays_read_files {A} (read : Fs -> option (result A EngineError)) : keeps (read_files read).
Proof.
  unfold read_files. eapply stays_bind; [apply frames_stays; unfold os; framed|intros _ _].
  eapply stays_bind with (Q := fun _ => True); [by intros w w' r Hw [= <- <-]|intros w _].
  eapply stays_bind; [apply stays_expect|intros r _]. apply stays_of_result.
Qed.

Lemma stays_bound owner records recovery identity :
  stays (frame q w0) (with_recovered_durable_segment_bound_to_identity sha256 pid try_reserve_exact chunk owner seg records recovery identity)
    (buf_ok seg (fun _ => True)).
Proof.
  unfold with_recovered_durable_segment_bound_to_identity. eapply stays_bind; [apply stays_of_result|intros _ _].
  eapply stays_bind; [apply frames_stays; pose proof (fo_anchor _ _ _ Hq); framed|intros _ _].
  eapply stays_bind; [apply stays_of_result|intros _ _]. unfold with_recovered_durable_segment_with_binding.
  eapply stays_bind; [by apply (stays_recovered_core pid chunk seg q Hq (fun _ => True))|intros c Hc].
  apply stays_ret. by intros c' [= <-].
Qed.

Lemma stays_repaired b m : buf_ok seg (fun _ => True) b ->
  stays (outside seg q (fun _ => True) w0) m (fun _ => True) -> keeps (repaired b m).
Proof.
  intros Hb Hm w w' r Hw. unfold repaired. destruct (m (b, w)) as [| |[b' w1] r1] eqn:E1; try done. intros [= <- <-].
  split; [|done]. apply (Hm (b, w) _ _ (conj Hb Hw) E1).
Qed.

Lemma stays_open owner :
  keeps (open_durable_wal_segment_auto sha256 pid try_reserve_exact chunk prepare replay finish stage share fresh_identity owner seg).
Proof.
  pose proof (fo_anchor _ _ _ Hq) as Ha. unfold open_durable_wal_segment_auto, open_with_checkpoint, open_serial.
  eapply stays_bind with (Q := fun _ => True); [by intros w w' r Hw [= <- <-]|intros w _]. destruct (names w !! _).
  - eapply stays_bind; [apply stays_read_files|intros [c C] _]. eapply stays_bind; [apply stays_read_files|intros recovery _]. cbv zeta.
    eapply stays_bind; [by apply frames_stays, frames_bind_recovery|intros identity _].
    eapply stays_bind; [apply stays_of_result|intros _ _]. eapply stays_bind; [apply stays_of_result|intros _ _].
    eapply stays_bind; [apply stays_bound|intros b Hb]. eapply stays_bind with (Q := fun _ => True).
    + destruct (_ <? _)%nat; [|by apply stays_ret]. apply stays_repaired; [done|]. by apply kept_rotate.
    + intros b' _. eapply stays_bind; [apply stays_of_result|intros _ _]. by apply stays_ret.
  - eapply stays_bind; [apply stays_read_files|intros recovery _].
    eapply stays_bind; [by apply frames_stays, frames_bind_recovery|intros identity _].
    eapply stays_bind; [apply stays_of_result|intros _ _]. eapply stays_bind; [apply stays_bound|intros b Hb].
    eapply stays_bind; [apply stays_of_result|intros _ _]. by apply stays_ret.
Qed.

End foreign.

(** ** Crash and reopening *)

(** The checkpoint files of a restarted disk, for a history that starts with the acknowledged one. *)
Lemma restarted_files fs faults H R m n :
  checkpoint_files sha256 seg stem fs H m n -> 0 <= m <= n -> n <= vec_len R -> take (Z.to_nat n) R = take (Z.to_nat n) H ->
  ck_files sha256 seg stem R m m (vec_len R) (restarted fs faults).
Proof.
  intros HC Hm Hn E.
  assert (forall z, z <= n -> take (Z.to_nat z) R = take (Z.to_nat z) H) as Hz.
  { intros z Hz. apply (f_equal (take (Z.to_nat z))) in E. rewrite !take_take in E. by rewrite !Nat.min_l in E by lia. }
  assert (forall p, versions (restarted fs faults) p = [whole <$> fs !! p]) as Hv
    by (intros p; unfold versions, restarted; cbn; by rewrite lookup_fmap, lookup_empty).
  unfold checkpoint_files in HC. rewrite (control_is seg stem Hseg), (checkpoint_is seg stem Hseg) in HC.
  destruct HC as [[Hc ->]|(Hc & m' & Hm' & Hk)].
  - constructor; [lia| |left]; rewrite Hv, Hc; intros v ->%list_elem_of_singleton; [by left|done].
  - constructor; [lia| |right]; rewrite Hv, ?Hc, ?Hk; intros v ->%list_elem_of_singleton; [right|].
    + exists m. rewrite Hz by lia. split; [lia|done].
    + exists m'. rewrite Hz by lia. split; [lia|done].
Qed.

Lemma open_framed_spec fs faults owner C recovery :
  checkpoint_of sha256 seg fs C -> Sidecar.recover_live_segment fs seg = Ok recovery ->
  Forall WalProps.record_ok C -> (forall d, fs !! seg = Some d -> vec_len d <= isize_max) ->
  wp (open_durable_wal_segment_auto sha256 pid try_reserve_exact chunk prepare replay finish stage share fresh_identity owner seg)
    (fun w' r => (forall b, r = Ok b -> opened C (Wal.records recovery) b w') /\
       frame (own seg stem ".control") (restarted fs faults) w' /\ frame (own seg stem ".checkpoint") (restarted fs faults) w') (restarted fs faults).
Proof.
  intros HC Hrec Hok Hmax. pose proof (open_spec fs faults owner C recovery HC Hrec Hok Hmax) as Ho.
  assert (forall t, t ∈ [".control"; ".checkpoint"] -> foreign pid seg (own seg stem t)) as Hfo by (intros t; by apply foreign_own).
  pose proof (stays_open (own seg stem ".control") ltac:(apply Hfo; set_solver) (restarted fs faults) owner) as F1.
  pose proof (stays_open (own seg stem ".checkpoint") ltac:(apply Hfo; set_solver) (restarted fs faults) owner) as F2.
  pose proof (wp_stays _ _ _ _ _ (wp_stays _ _ _ _ _ Ho F1 (frame_refl _ _)) F2 (frame_refl _ _)) as H.
  eapply wp_mono; [exact H|]. by intros w1 r [[? ?] ?].
Qed.

Lemma crash_reopen s w core fs faults owner :
  db_inv sha256 seg stem s -> at_crash s w -> crash w fs -> durable (sys_buffer s) = Some core -> backed core ->
  flushed_records (state core) < U64 -> (forall d, fs !! seg = Some d -> vec_len d <= isize_max) ->
  exists b m more, let C := take (Z.to_nat m) (history (log s)) in
    let L := sub (history (log s)) b (acknowledged (log s)) ++ more in
    let R := take (Z.to_nat (acknowledged (log s))) (history (log s)) ++ more in
    let reopen := open_durable_wal_segment_auto sha256 pid try_reserve_exact chunk prepare replay finish stage share fresh_identity owner seg in
    segment_base_records (state core) <= b <= acknowledged (log s) /\
    (poisoned (state core) = None -> b = segment_base_records (state core)) /\
    0 <= m <= acknowledged (log s) /\ R = take (Z.to_nat b) (history (log s)) ++ L /\
    (Sidecar.read_wal_tail_offset fs seg <= vec_len (Wal.segment_bytes L) ->
     exists recovery, Sidecar.recover_live_segment fs seg = Ok recovery /\ Wal.records recovery = L) /\
    (vec_len (Wal.segment_bytes L) < Sidecar.read_wal_tail_offset fs seg ->
     wp reopen (fun _ r => is_ok r = false) (restarted fs faults)) /\
    (NoDup R ->
     wp reopen (fun w' r => forall b', r = Ok b' -> let s' := mkSystem b' w' None [] m in
       log s' = mkLog R (vec_len R) /\
       exists repaired : bool, (overlap C L = 0%nat -> repaired = true) /\
         ((0 < overlap C L)%nat -> exists b1 w1 r1,
            truncate_durable_segment_prefix sha256 pid try_reserve_exact chunk m (b1, w1) = Done (b', w') r1 /\ repaired = is_ok r1) /\
         (repaired = true -> db_inv sha256 seg stem s')) (restarted fs faults)).
Proof.
  intros Hdb Hw Hcr Hd Hback Hmax Hsize.
  destruct (crash_history sha256 Hsha pid Hpid try_reserve_exact chunk Hchunk seg stem Hseg s w core fs Hdb Hw Hcr Hd Hback Hmax)
    as (b & m & more & Hb & Hp & Hm & HF & HC & (d & Hfs & Hread) & HR & Hjoin).
  exists b, m, more. cbv zeta in *. set (L := sub (history (log s)) b (acknowledged (log s)) ++ more) in *.
  set (R := take (Z.to_nat (acknowledged (log s))) (history (log s)) ++ more) in *. set (C := take (Z.to_nat m) (history (log s))) in *.
  assert (forall tail, Sidecar.read_wal_tail_offset fs seg = tail -> vec_len (Wal.segment_bytes L) < tail ->
    exists e, Sidecar.recover_live_segment fs seg = Err e) as Hbeyond.
  { intros tail E Ht. unfold Sidecar.recover_live_segment. rewrite Hfs, E. by eapply recovers_beyond. }
  assert (Sidecar.read_wal_tail_offset fs seg <= vec_len (Wal.segment_bytes L) ->
    exists recovery, Sidecar.recover_live_segment fs seg = Ok recovery /\ Wal.records recovery = L) as Hwithin.
  { intros Ht. unfold Sidecar.recover_live_segment. rewrite Hfs. by eapply recovers_within. }
  assert (vec_len (Wal.segment_bytes L) < Sidecar.read_wal_tail_offset fs seg ->
    wp (open_durable_wal_segment_auto sha256 pid try_reserve_exact chunk prepare replay finish stage share fresh_identity owner seg)
      (fun _ r => is_ok r = false) (restarted fs faults)) as Hrefused.
  { intros Ht. destruct (Hbeyond _ eq_refl Ht) as [e He]. by eapply open_refused. }
  split_and!; [lia|lia|done|lia|lia|done|done|done|]. intros Hnd. specialize (Hjoin Hnd).
  destruct (Z.le_gt_cases (Sidecar.read_wal_tail_offset fs seg) (vec_len (Wal.segment_bytes L))) as [Ht|Ht].
  2: { eapply wp_mono; [by apply Hrefused|]. by intros w' r Hr b' ->. }
  destruct (Hwithin Ht) as (recovery & Hrec & Hrs).
  pose proof (log_bounds seg s (dbi_sys _ _ _ _ Hdb)) as Hbd.
  assert (vec_len C = m) as HlC by (unfold C, vec_len in *; rewrite length_take; lia).
  assert (Forall WalProps.record_ok C) as HokC by apply Forall_take, (history_ok seg s (dbi_sys _ _ _ _ Hdb)).
  eapply wp_mono; [by apply open_framed_spec|]. intros w' r (Ho & F1 & F2) b' Hr.
  destruct (Ho b' Hr) as (Hlog & rep & H0 & Hpos & Hinv). rewrite Hrs in Hlog, H0, Hpos. rewrite Hjoin, HlC in Hlog. rewrite HlC in Hpos, Hinv.
  split; [done|]. exists rep. split_and!; [done|done|]. intros Hrep. destruct (Hinv Hrep) as [Hs' Hbase].
  assert (vec_len (take (Z.to_nat (acknowledged (log s))) (history (log s))) = acknowledged (log s)) as Hla
    by (unfold vec_len in *; rewrite length_take; lia).
  constructor; [done|]. exists m, m. injection Hlog as HlogR Hlogn. cbn [sys_buffer sys_world sys_covered]. rewrite HlogR, Hlogn, Hbase. split_and!; [|lia|lia].
  eapply ck_files_move; [eapply (restarted_files fs faults _ R); [exact HF|done| |]|done|done|done|lia].
  - unfold R. rewrite vec_len_app, Hla. pose proof (vec_len_nonneg more). lia.
  - unfold R. apply take_app_length'. unfold vec_len in Hla. lia.
Qed.

End opening.

End Reopen.
