(* ===== verification/DatabaseProps.v ===== *)
(** * Properties of checkpoints

    The control file, the sealed manifest and the lanes checkpoint read back what was committed and
    are replaced in one step; a log that is checkpointed while it runs keeps every acknowledged
    record, through crashes and reopening. *)

From stdpp Require Import base gmap strings list pretty sorting.
From S2P Require Import Prelude Types Bytes Text Paths Sidecar WalSegment WalProps Archive ArchiveFacts Codec Canonical Envelope EnvelopeExact EnvelopeProps Effects Disk Identity LocalRepl WalCore WalGroup WalScatter WalBuffer DiskFacts WalDurability WalInvariant WalSystem WalCrash WalChecked SealedManifest Checkpoint CheckpointFacts LanesFacts Preserve Rotation Database Reopen.

Module DatabaseProps.
Import Paths Disk Effects Identity WalCore WalGroup WalBuffer DiskFacts WalDurability WalSystem WalCrash WalChecked Checkpoint CheckpointFacts Names CheckpointWrite LanesFacts Rotation RotationFacts Database Reopen.

Section database.
Context {alloc : VecAlloc}.
Context (sha256 : list byte -> list byte) (Hsha : forall l, length (sha256 l) = 32%nat).
Context (pid : Z) (Hpid : 0 <= pid) (try_reserve_exact : Z -> bool) (chunk : Z) (Hchunk : 10 <= chunk).
Context (seg : Path) (stem : string) (Hseg : readable_segment seg stem).

(** [C5] A checkpointed log keeps its history.  From a new log over a segment with a readable name,
    or any state with the invariant, let the buffer's operations (of callers that keep the promises
    of [allowed]), checkpoints and checkpoints with the cut of the segment behind them
    run in any order and with any failures of the disk.  The invariant holds again: the buffer is
    in step with its segment, whatever control file a crash may find commits to a checkpoint that
    the checkpoint segment holds, and it covers everything below the segment's base.  What was
    acknowledged stays acknowledged, with the same records. *)
Theorem checkpointed_log_invariant s s' :
  db_initial seg s \/ db_inv sha256 seg stem s -> rtc (db_step sha256 pid try_reserve_exact chunk seg) s s' ->
  db_inv sha256 seg stem s' /\ acknowledged (log s) <= acknowledged (log s') /\
  take (Z.to_nat (acknowledged (log s))) (history (log s')) = take (Z.to_nat (acknowledged (log s))) (history (log s)).
Proof.
  intros Hs Hrun. eapply db_reachable; try done. destruct Hs as [Hs|Hs]; [by apply db_initial_inv|done].
Qed.

Context (prepare replay finish : list Wal.WalRecord -> result unit EngineError).
Context (stage : SealedManifest.SealedInt4RebuildManifestV1 -> result unit EngineError).
Context (share : list Wal.WalRecord -> Vec SharedRecord) (fresh_identity : Canonical.CanonicalIdentity).
Context (Hshare : forall l, erase <$> elems (share l) = l).


(** ** The files *)

(** [C20] The control file has one commit point.  However the calls of [write_wal_control_file] fail, a
    crash finds under its name what it could find before or the new control file; after a success
    only the new one.  When the path of its segment is text on one line, the new control file reads
    back as it was written, with its sealed manifest, unless that manifest was bound to a
    checkpoint that ends in transaction 0: then, and when the path contains a line feed, the file
    is committed but the reader refuses it. *)
Theorem control_file_commits path c encoded w :
  Sidecar.temporary_control_path pid path <> path -> (exists d, nonempty_parent path = Some d) ->
  control_ok c -> sealed_text c = Ok encoded ->
  wp (write_wal_control_file sha256 pid path c) (fun w' r => forall fs, crash w' fs ->
    let committed := fs !! path = Some (as_bytes (control_body sha256 c encoded)) in
    ((exists v, v ∈ versions w path /\ survives v (fs !! path)) \/ committed) /\ (is_ok r = true -> committed) /\
    (committed -> text_path (control_segment c) ->
     match sealed_int4_rebuild c with
     | Some m =>
         if bool_decide (SealedManifest.checkpoint_last_durable_txn_id m = Some 0)
         then is_ok (read_wal_control_file sha256 fs path) = false
         else read_wal_control_file sha256 fs path = Ok c
     | None => read_wal_control_file sha256 fs path = Ok c
     end) /\
    (committed -> Text.contains_char Text.nl (display (control_segment c)) = true ->
     is_ok (read_wal_control_file sha256 fs path) = false)) w.
Proof.
  intros Hne Hd Hc He. eapply wp_mono; [by apply (write_control_spec sha256 pid path c encoded)|].
  intros w' r [Hr Hok] fs Hcr committed. destruct (Hcr path) as (v & Hv & Hsv). split_and!.
  - destruct (Hr v Hv) as [Hv'| ->]; [left; by exists v|right]. by eapply exact_survives.
  - intros Ho. rewrite (settled_versions _ _ _ (Hok Ho)) in Hv. apply list_elem_of_singleton in Hv as ->. by eapply exact_survives.
  - intros Hf Ht. pose proof (read_control sha256 Hsha c encoded Hc He fs path Ht Hf) as ->. unfold read_back.
    destruct (sealed_int4_rebuild c) as [m|]; [|done]. by case_bool_decide.
  - intros Hf Hp. by destruct (read_broken sha256 Hsha c encoded Hc He fs path Hp Hf) as [e ->].
Qed.

Context (debug_str : string -> string) (list_dir : World -> Path -> list Path).

(** [C19] The lanes checkpoint has one commit point.  When a crash reads one of the checkpoints [cs], then
    after [write_lanes_checkpoint] of one with another lane cut, however it ends, a crash reads one
    of them or the new one, complete; after a success only the new one, although older generations have been deleted. *)
Theorem lanes_checkpoint_commits cs L w :
  lanes_ok L -> (forall L', Some L' ∈ cs -> lane_cut L' <> lane_cut L) -> lanes_among sha256 seg stem cs w ->
  wp (write_lanes_checkpoint sha256 pid try_reserve_exact list_dir seg (serial_records L) (lane_cut L) (lanes_records L))
    (fun w' r =>
      lanes_among sha256 seg stem (Some L :: cs) w' /\ (is_ok r = true -> lanes_among sha256 seg stem [Some L] w') /\
      forall fs, crash w' fs ->
        (exists o, o ∈ Some L :: cs /\ read_lanes_checkpoint sha256 debug_str fs seg = Some (Ok o)) /\
        (is_ok r = true -> read_lanes_checkpoint sha256 debug_str fs seg = Some (Ok (Some L)))) w.
Proof.
  intros HL Hcs Hw. eapply wp_mono; [by apply (write_lanes_spec sha256 pid Hpid try_reserve_exact list_dir seg stem Hseg cs L)|].
  intros w' r [Ha Hok]. split_and!; [done|done|]. intros fs Hcr. split; [by eapply lanes_crash|].
  intros Ho. destruct (lanes_crash sha256 Hsha debug_str seg stem Hseg [Some L] w' fs (Hok Ho) Hcr) as (o & Ho' & Hr).
  by apply list_elem_of_singleton in Ho' as ->.
Qed.

End database.

(** [C24] The sealed manifest and its text.  A manifest encodes exactly when it validates, and its
    encoding decodes to it, but for a last durable transaction 0, which is read back as none; and a
    text that decodes is the encoding of what it decodes to, which validates and does not name
    transaction 0. *)
Theorem sealed_manifest_exact m path :
  match SealedManifest.encode_sealed_int4_rebuild_manifest m with
  | Ok text => SealedManifest.validate m = Ok tt /\
      (SealedFacts.sealed_ok m -> SealedManifest.decode_sealed_int4_rebuild_manifest text path = Ok (SealedFacts.kept m))
  | Err e => SealedManifest.validate m = Err e
  end /\
  (SealedManifest.checkpoint_last_durable_txn_id m <> Some 0 -> SealedFacts.kept m = m) /\
  (SealedManifest.checkpoint_last_durable_txn_id m = Some 0 ->
   SealedManifest.checkpoint_last_durable_txn_id (SealedFacts.kept m) = None) /\
  (forall text, SealedManifest.decode_sealed_int4_rebuild_manifest text path = Ok m ->
   SealedManifest.validate m = Ok tt /\ SealedManifest.encode_sealed_int4_rebuild_manifest m = Ok text /\
   SealedManifest.checkpoint_last_durable_txn_id m <> Some 0).
Proof.
  split_and!.
  - unfold SealedManifest.encode_sealed_int4_rebuild_manifest. destruct (SealedManifest.validate m) as [[]|e] eqn:Hv; [|done].
    split; [done|]. intros Hok. by apply SealedFacts.decode_encoded.
  - apply SealedFacts.kept_same.
  - intros H0. cbn. by rewrite bool_decide_eq_true_2.
  - intros text Hd. destruct (SealedFacts.decoded_is_encoded _ _ _ Hd) as (_ & Hv & -> & Hne). split_and!; [done| |done].
    unfold SealedManifest.encode_sealed_int4_rebuild_manifest. by rewrite Hv.
Qed.

(** ** A sample *)

Lemma sample_readable : readable_segment sample_seg "a.wal".
Proof. constructor; [done|by constructor|by split|by exists (mkPath true ["w"])]. Qed.

Abbreviation db_steps := (rtc (db_step EnvelopeProps.toy_sha 7 (fun _ => true) 64 sample_seg)).

(** Operations of the buffer that do not cut the segment. *)
Lemma performs_db ops s s' :
  performs EnvelopeProps.toy_sha 7 (fun _ => true) 64 ops s = Some s' -> forallb (fun op => negb (is_rotation op)) ops = true -> db_steps s s'.
Proof.
  revert s. induction ops as [|op ops IH]; intros s; cbn [performs forallb]; [by intros [= ->]|].
  destruct (allowedb op s) eqn:Ha; [|done]. destruct (perform _ _ _ _ op s) as [| |s1] eqn:Hp; try done.
  intros Hs [Hop Hops]%andb_prop. eapply rtc_l; [|by apply IH]. eapply (Working _ _ _ _ _ op); [by apply negb_true_iff|by apply allowedb_ok|done].
Qed.

Definition sample_repl : Local.LocalReplicator := Local.mkLocal 1 1 0 0 0 Leader [] 0 0 1 0.

(** A checkpoint with the cut of the segment behind it. *)
Definition rotate_sample (s : System) : option System :=
  match checkpoint_and_truncate_durable_wal EnvelopeProps.toy_sha 7 (fun _ => true) 64 (Ok tt)
    (wal_checkpoint_control_path sample_seg) (wal_checkpoint_segment_path sample_seg) (mkCommit sample_repl (sys_buffer s) ∅ 0, sys_world s) with
  | Done t (Ok _) => Some (mkSystem (wal t.1) t.2 (sys_job s) (sys_held s)
      (if checkpointed EnvelopeProps.toy_sha 7 (fun _ => true) sample_seg (Ok tt) s then Z.max (sys_covered s) (flushed_count (sys_buffer s)) else sys_covered s))
  | _ => None
  end.

Lemma rotate_sample_step s s' : rotate_sample s = Some s' -> db_steps s s'.
Proof.
  unfold rotate_sample. destruct (checkpoint_and_truncate_durable_wal _ _ _ _ _ _ _ _) as [| |t [meta|e]] eqn:E; try done.
  intros [= <-]. apply rtc_once. by eapply Rotating.
Qed.

(** One record acknowledged and checkpointed, a second acknowledged in the new segment. *)
Definition sample_more : list Operation := [OpAppend record_b; OpBegin; OpCommit [Returns 10000] [Returns 0]].

Definition sample_database : option System :=
  s ← performs EnvelopeProps.toy_sha 7 (fun _ => true) 64 (OpAppend record_a :: OpBegin :: OpCommit [Returns 10000] [Returns 0] :: []) sample_start;
  s ← rotate_sample s;
  performs EnvelopeProps.toy_sha 7 (fun _ => true) 64 sample_more s.

Definition sample_db : System := default sample_start sample_database.

Lemma sample_db_start : db_initial sample_seg sample_start.
Proof. split_and!; [apply sample_initial|done|vm_compute; reflexivity]. Qed.

Lemma sample_db_steps : (if sample_database then true else false) = true -> db_steps sample_start sample_db.
Proof.
  unfold sample_db, sample_database. destruct (performs _ _ _ _ _ _) as [s1|] eqn:E1; [|done]. cbn [mbind option_bind].
  destruct (rotate_sample s1) as [s2|] eqn:E2; [|done]. cbn [mbind option_bind]. destruct (performs _ _ _ _ _ s2) as [s3|] eqn:E3; [|done].
  intros _. cbn. etrans; [by eapply performs_db|]. etrans; [by apply rotate_sample_step|by eapply performs_db].
Qed.

Lemma sample_db_inv : db_inv EnvelopeProps.toy_sha sample_seg "a.wal" sample_db.
Proof.
  eapply (db_reachable EnvelopeProps.toy_sha EnvelopeProps.toy_sha_len 7 ltac:(lia) (fun _ => true) 64 ltac:(lia) sample_seg "a.wal" sample_readable sample_start).
  - apply sample_db_steps. vm_compute. reflexivity.
  - apply (db_initial_inv EnvelopeProps.toy_sha sample_seg "a.wal" sample_readable), sample_db_start.
Qed.

(** Payloads with an allocation of their own. *)
Definition sample_share (l : list Wal.WalRecord) : Vec SharedRecord :=
  mkVec ((fun r => mkShared (Wal.txn_id r) (mkArc 0 (Wal.payload r))) <$> l) (vec_len l).

Lemma sample_share_records l : erase <$> elems (sample_share l) = l.
Proof. cbn. rewrite <- list_fmap_compose. rewrite <- (list_fmap_id l) at 2. apply list_fmap_ext. by intros i [] _. Qed.

Definition sample_identity : Canonical.CanonicalIdentity := Canonical.identity EnvelopeProps.sample_header.

Lemma checkpointed_log_invariant_witness :
  db_inv EnvelopeProps.toy_sha sample_seg "a.wal" sample_db /\ acknowledged (log sample_start) <= acknowledged (log sample_db).
Proof.
  destruct (checkpointed_log_invariant EnvelopeProps.toy_sha EnvelopeProps.toy_sha_len 7 ltac:(lia) (fun _ => true) 64 ltac:(lia) sample_seg "a.wal" sample_readable
    sample_start sample_db) as (Hi & Ha & _).
  - left. apply sample_db_start.
  - apply sample_db_steps. vm_compute. reflexivity.
  - split; [exact Hi|exact Ha].
Defined.

(** The sample reopened. *)
Abbreviation sample_reopened :=
  (open_durable_wal_segment_auto EnvelopeProps.toy_sha 7 (fun _ => true) 64 (fun _ => Ok tt) (fun _ => Ok tt) (fun _ => Ok tt)
    (fun _ => Ok tt) sample_share sample_identity 1 sample_seg (restarted (visible (sys_world sample_db)) [])).

Lemma sample_reopens : match sample_reopened with Done _ (Ok b) => durable_segment_base_records b = 1 | _ => False end.
Proof. vm_compute. reflexivity. Qed.

Lemma sample_recovers : match Sidecar.recover_live_segment (visible (sys_world sample_db)) sample_seg with
  | Ok recovery => Wal.records recovery = [erase record_b] | Err _ => False end.
Proof. vm_compute. reflexivity. Qed.


Definition sample_lanes : LanesCheckpoint := mkLanes 1 1 [erase record_a; erase record_b].

Lemma lanes_checkpoint_commits_witness :
  wp (write_lanes_checkpoint EnvelopeProps.toy_sha 7 (fun _ => true) (fun _ _ => []) sample_seg 1 1 (lanes_records sample_lanes)) (fun w' r =>
    forall fs, crash w' fs -> is_ok r = true -> read_lanes_checkpoint EnvelopeProps.toy_sha id fs sample_seg = Some (Ok (Some sample_lanes)))
    (mkWorld ∅ ∅ []).
Proof.
  eapply wp_mono; [apply (lanes_checkpoint_commits EnvelopeProps.toy_sha EnvelopeProps.toy_sha_len 7 ltac:(lia) (fun _ => true) sample_seg "a.wal"
    sample_readable id (fun _ _ => []) [None] sample_lanes)|].
  - constructor; try done. repeat constructor; done.
  - intros L' [=]%list_elem_of_singleton.
  - intros v Hv. left. apply list_elem_of_singleton in Hv as ->. split; [done|by apply list_elem_of_singleton].
  - intros w' r (_ & _ & H) fs Hcr Hok. by apply (H fs Hcr).
Defined.

Definition sample_sealed : SealedManifest.SealedInt4RebuildManifestV1 :=
  let id := replicate 16 "007"%byte in let digest := replicate 32 "009"%byte in
  SealedManifest.mkSealed id id id 1 2 (Some 6) true 16384 1 1 0 0 1 3 16384 1 1 1 1 1 digest 2 3 digest digest.

Lemma sample_sealed_ok : SealedFacts.sealed_ok sample_sealed.
Proof. constructor; try done; [repeat constructor; done..|]. intros t [= <-]. done. Qed.

Lemma sealed_manifest_exact_witness :
  exists text, SealedManifest.encode_sealed_int4_rebuild_manifest sample_sealed = Ok text /\
    SealedManifest.decode_sealed_int4_rebuild_manifest text sample_seg = Ok sample_sealed.
Proof.
  destruct (sealed_manifest_exact sample_sealed sample_seg) as (He & Hk & _).
  destruct (SealedManifest.encode_sealed_int4_rebuild_manifest sample_sealed) as [text|e] eqn:E; [|vm_compute in E; discriminate E].
  exists text. split; [reflexivity|]. rewrite (Hk ltac:(discriminate)) in He. exact (proj2 He sample_sealed_ok).
Defined.

(** A control file with a sealed manifest bound to its checkpoint. *)
Definition sample_control : WalControlFile :=
  mkControl (mkPath false ["a.wal.checkpoint"]) (Archive.mkMeta 2 (Some 6)) (Some sample_sealed).

Lemma sample_control_ok : control_ok sample_control.
Proof. constructor; [done|done|]. intros m [= <-]. apply sample_sealed_ok. Qed.

Lemma control_file_commits_witness :
  wp (write_wal_control_file EnvelopeProps.toy_sha 7 (wal_checkpoint_control_path sample_seg) sample_control) (fun w' r =>
    forall fs, crash w' fs ->
    is_ok r = true -> read_wal_control_file EnvelopeProps.toy_sha fs (wal_checkpoint_control_path sample_seg) = Ok sample_control)
    (mkWorld ∅ ∅ []).
Proof.
  destruct (sealed_text sample_control) as [encoded|e] eqn:E; [|vm_compute in E; discriminate E].
  eapply wp_mono; [apply (control_file_commits EnvelopeProps.toy_sha EnvelopeProps.toy_sha_len 7 (wal_checkpoint_control_path sample_seg)
    sample_control encoded)|].
  - vm_compute. discriminate.
  - exists (mkPath true ["w"]). vm_compute. reflexivity.
  - apply sample_control_ok.
  - exact E.
  - intros w' r H fs Hcr Hok. destruct (H fs Hcr) as (_ & Hc & Ht & _). apply (Ht (Hc Hok)). split_and!; vm_compute; done.
Defined.

End DatabaseProps.
